(* ===== verification/_CoqProject ===== *)
-Q . S2P
Prelude.v
Bits.v
Tlbi.v
Regions.v
RegionFacts.v
HostFds.v
RegionSpecs.v
RegionSplit.v
SplitFacts.v
SplitSpecs.v
Gap.v
GapSpecs.v
PageTable.v
DescFacts.v
PtStruct.v
PtView.v
PtOps.v
PtPages.v
PtSpecs.v
Gva.v
GvaFacts.v
Backing.v
BackingSpecs.v
Segments.v
SegFacts.v
SegSpecs.v
Overlay.v
OverlayFacts.v
Mm.v
MunmapFacts.v
MiniHost.v
MunmapSpecs.v
ProtFacts.v
ProtSpecs.v
BrkFacts.v
BrkSpecs.v
Threads.v
ThreadFacts.v
Munmap.v
SysMunmapFacts.v
SysMunmapSpecs.v
FdTable.v
FdFacts.v
FdOwn.v
FdLife.v
FdSpecs.v
GuestCopy.v
CopyFacts.v
CopySpecs.v
FutexWord.v
Futex.v
FutexFacts.v
FutexCore.v
FutexLife.v
FutexInv.v
FutexPi.v
FutexSpecs.v
FutexKick.v
SigQueue.v
SigQueueFacts.v
Signal.v
SigFacts.v
SigLife.v
SigStep.v
SigFrame.v
SigFrameFacts.v
SigDeliver.v
SigSpecs.v
SigClaim.v
SigTimerSpecs.v
SigFrameSpecs.v
SigFdSpecs.v
SigWait.v
SigWake.v
SigWaitSpecs.v
SigMem.v
