(* ===== verification/Prelude.v ===== *)
(** * elfuse in Rocq

    elfuse (src/) runs unmodified Linux/AArch64 programs on an Apple Silicon host:
    one process is one virtual machine, the guest's system calls trap into a host
    process that emulates them.  This library models the parts the others rest on,
    the guest address space, the guest descriptor table, the futexes and the
    signals, and proves what they promise.

    ** The program and the files that model it

    Guest memory is a slab of host memory mapped at the guest's physical addresses.
    A mapping exists in four places at once: the tracker of semantic regions
    (what /proc/self/maps shows), the guest page tables, the stage-2 segments the
    hypervisor holds, and the host mappings of files laid over the slab.  The
    memory syscalls keep the four in step.

    - [Tlbi]: the TLB-invalidation request of src/core/guest.h (tlbi_request_t).
    - [Regions], [RegionFacts], [HostFds], [RegionSpecs]: the region array of
      src/core/guest.c (guest_region_add_ex_owned_gpa, _remove, _set_prot, ...),
      its view as a partial function from addresses to attributes, and the
      backing descriptors it owns.
    - [RegionSplit], [SplitFacts], [SplitSpecs]: cutting regions at bounds and
      undoing it (split_regions_at_bounds of src/syscall/mem.c).
    - [Gap], [GapSpecs]: placing a mapping (find_free_gap, mmap_pick_gap, and
      src/proved/align.h).
    - [PageTable], [DescFacts], [PtStruct], [PtView], [PtOps], [PtPages],
      [PtSpecs]: the four-level tables of src/core/guest.c, stored as words in the
      page-table pool; [PtView] is the address map they implement.
    - [Gva], [GvaFacts], [GuestCopy], [CopyFacts], [CopySpecs]: guest pointers
      (gva_translate_perm with its cache, src/proved/gva.h) and the copies through
      them (guest_read, guest_write, guest_read_str, ...).
    - [Backing], [BackingSpecs]: memory outside the slab (guest_add_mapping,
      guest_overflow_alloc).
    - [Segments], [SegFacts], [SegSpecs], [Overlay], [OverlayFacts]: the segments
      that tile the slab and the file overlays (hvf_apply_file_overlay,
      cleanup_overlays_in_range).
    - [Mm], [MunmapFacts], [MunmapSpecs], [ProtFacts], [ProtSpecs], [BrkFacts],
      [BrkSpecs]: munmap_guest_range, sys_mprotect and sys_brk over the components
      above.  [MiniHost] is one concrete host for the examples.
    - [Threads], [ThreadFacts], [Munmap], [SysMunmapFacts], [SysMunmapSpecs]:
      deferred unmapping of live thread stacks (src/runtime/thread.c), sys_munmap
      and the cleanup at thread exit.
    - [FdTable], [FdFacts], [FdOwn], [FdLife], [FdSpecs]: the descriptor table
      (src/syscall/fdtable.c) with the reference counts of directory streams
      (src/syscall/fs.c) and the urandom bitmap of the shim
      (src/core/shim-globals.c).
    - [FutexWord], [Futex], [FutexFacts], [FutexCore], [FutexLife], [FutexInv],
      [FutexPi], [FutexSpecs], [FutexKick]: src/runtime/futex.c with the futex
      headers of src/proved/ and the waiter counts of src/core/shim-globals.c.
      [FutexWord] is the arithmetic on words and deadlines, [Futex] every
      operation cut into the pieces that run under a bucket lock, [FutexLife] the
      system of all calls in progress, [FutexPi] the protocol of the lock word,
      [FutexKick] the signal kick of a parked thread.
    - [Bits]: the bits of a word in the order a loop over bit_ctz64 meets them
      (src/utils.h).
    - [SigQueue], [SigQueueFacts]: one set of pending signals of src/syscall/signal.h
      (a mask, one slot per standard signal, a ring per real-time signal) and its
      view as one queue per signal.
    - [Signal], [SigFacts], [SigLife], [SigStep]: the state that sig_lock protects in
      src/syscall/signal.c, each critical section a function (queueing, masks,
      claims, the hint read without the lock, signalfd, interval and POSIX timers,
      exec, fork), with the thread table as far as signals use it
      (src/runtime/thread.c); [SigStep] is the system of all of them, and proves
      the invariant of [SigFacts] and [SigLife] for every reachable state.
    - [SigFrame], [SigFrameFacts], [SigDeliver]: delivery and rt_sigreturn on one
      vCPU, with the frame of src/syscall/signal.h as bytes (src/proved/sigframe.h),
      the restart of interrupted calls (src/syscall/syscall.c), the abort of
      restartable sequences (src/syscall/proc.c) and the tail of the shim that
      resumes the guest (src/core/shim.S).
    - [SigSpecs], [SigClaim], [SigTimerSpecs], [SigFrameSpecs], [SigFdSpecs]: what
      the signal code promises.
    - [SigWait], [SigWake], [SigWaitSpecs]: rt_sigsuspend and rt_sigtimedwait, the
      calls that sleep, as steps between which the other threads run, with the
      counter of src/syscall/wakeup-pipe.c; [SigWake] shows of every step of other
      threads that it rings the pipe or makes nothing pending.
    - [SigMem]: the memory that signal delivery asks for, implemented by the copies
      of [GuestCopy].

    ** How the code is translated

    A uint64_t is a [Z] in [[0, 2^64)] with wrap-around written out ([add64] and
    the like, scope [u64]); arrays are lists; a C function that mutates [guest_t]
    takes and returns a record; an errno result is a [Z] as in the code; a read of
    memory that is not there and a loop that does not end are [None].  Definitions
    keep the names of the functions they translate.  Loops are [loop n f x], at most
    [n] rounds of [f]; [loop_rule] turns an invariant and a measure below [n] into
    the fact that the loop returns.  The fuel is the number of pages or blocks of the
    64-bit address space, or the size of the table walked, so it is never what
    ends a loop of the theorems; each theorem about a loop states that it returns.
    The compare-and-swap loops of the futex code race with the guest, which may
    make them run for ever; their fuel is an argument, the theorems about results
    hold for every fuel, and [futex_swaps_return] says when they return.

    What is not under src/ is a parameter: the host's dup, close, mmap, fcntl and
    memory ([HostEnv], [HostMem], [HostSlab], [HostMemset], [FdHost]), the
    hypervisor ([HostVm]) and qsort ([Qsort]).  Their documented behaviour is a
    class of laws next to each ([HostFdLaws], [HostMemLaws], [HostVmLaws],
    [HostSlabLaws], [HostMemsetLaws], [FdHostLaws]), and concrete instances show
    the laws can hold.  Locks are not modelled as such: the memory
    syscalls run under mmap_lock, so they are functions; the descriptor table is
    used from many threads, so [FdLife] makes each of its critical sections one
    step and quantifies over all interleavings; [FutexLife] does the same for the
    futex calls, with the guest's own writes to its memory as further steps, and
    [SigStep] for the critical sections of the signal code.  A
    futex waiter is a numbered cell, so that a call that sleeps and a wake that
    takes its node share it; a futex call is a value that says what it does next.
    Signal delivery reaches guest memory through the class [GuestBytes]; [SigMem]
    is the instance over page tables and host memory.

    ** What is proved

    - Regions: each operation is a point-wise update of the address view or fails
      leaving the array as it was; descriptors are neither leaked nor closed twice.
    - Page tables: each operation returns, is a point-wise update of the address
      map, records every mapping taken away in the TLBI request, and fails only
      when the pool is exhausted or the range lies outside the slab.
    - Guest pointers: the cached walk refines the address map; copies move exactly
      the bytes the map names and never touch the page tables; counts are exact.
    - Overlays: installing and removing keep the segments tiling the slab, on error
      paths too.
    - Syscalls: munmap, mprotect and brk keep the invariant [mm_ok] that ties the
      four descriptions of memory together, on every outcome, and change exactly
      what they should; sys_munmap leaves the stacks of live threads mapped and
      records them, and the exit of a thread unmaps them.
    - Descriptors: allocation is lowest-first and undoes its host side effect on
      failure; in every reachable state the bitmaps agree with the table, no
      descriptor in use is closed, none has two owners, and none is leaked once
      everything is closed; flag changes reach exactly the aliases of a
      description; pinning a descriptor ends after two passes.
    - Futexes: wake and requeue do exactly what their budgets say, in queue order;
      in every interleaving each queued node belongs to a call in progress, the
      published waiter counts are the outstanding charges, so that the shim's
      shortcut for a wake nobody waits for is sound, a wait returns 0 exactly when
      it was woken, and the word of a contended priority-inheritance lock sends
      the next locker and the unlocker to the kernel; no signal kick is lost;
      deadlines do not overflow; the swap loops end once the guest pauses.
    - Signals: a pending set implements bounded queues; in every reachable state
      masks, queues, claims, hint and timers are consistent, so that the tests
      without the lock are exact; a signal claimed by a thread that leaves a wait
      is not delivered by another one, and the claimer's delivery does something;
      a read of a signalfd takes exactly what it reported; returning from a handler
      restores the interrupted state through the bytes of the frame; a restart that
      is taken back leaves the state of a call that failed; timers count every
      period, and creating one ends; rt_sigtimedwait never parks on a signal it
      waits for, nor past the next expiry of a timer; rt_sigsuspend hands the mask
      it replaced to the frame of the signal that ends it.

    Theorems whose statement is an example of the code doing what it should not
    ([MunmapSpecs.munmap_detaches_neighbour_pages],
    [ProtSpecs.mprotect_opens_reserved_block], [BrkSpecs.brk_regrow_zeroes_file],
    and the lemmas [BrkSpecs.brk_at_base_cuts_mapping],
    [BackingSpecs.overflow_block_misaligned],
    [SysMunmapSpecs.munmap_cuts_unaligned_stack]) evaluate the definitions on a
    concrete state.

    ** Bounds

    Counters are assumed not to wrap where a theorem says so ([tbl_room]: 2^64
    generations or descriptions); reference counts are unbounded integers, since a
    count is bounded by the references that exist.  A failed allocation of host
    memory is an argument of the operation.  signal_deliver is given 4097
    rounds, more than the signals two full sets can hold, and the search for a
    timer identifier tries at most 65 candidates, one more than there are timers.

    ** Not modelled

    Boot-time construction of the page tables; sys_mmap, sys_mremap, madvise and
    msync; thread creation and exit beyond the deferred unmaps and the signal
    state; the host's SIGBUS handler and the forwarding of host signals; ELF loading
    and exec, fork, the file system, network, readiness and process calls, which are
    mostly host I/O; the EL1 shim but for the tail that resumes the guest, because
    it is assembly; debugging support.

    This file holds the arithmetic, the tactics and the loop rule shared by all. *)

From Stdlib Require Export ZArith Bool Lia.
From stdpp Require Export base numbers list option strings.
From stdpp Require Export tactics.

#[global] Open Scope Z_scope.

(** ** Fixed-width unsigned integers

    A C [uint64_t] is a [Z] in [[0, 2^64)].  The operators below are the C
    operators on that type, with the wrap-around written out; [fits64] is the
    representation invariant. *)

Declare Scope u64_scope.
Delimit Scope u64_scope with u64.

Definition two64 : Z := 18446744073709551616.
Definition UINT64_MAX : Z := 18446744073709551615.

Definition fits64 (x : Z) : Prop := 0 <= x < two64.

Definition wrap64 (x : Z) : Z := x mod two64.
Definition add64 (x y : Z) : Z := wrap64 (x + y).
Definition sub64 (x y : Z) : Z := wrap64 (x - y).
Definition mul64 (x y : Z) : Z := wrap64 (x * y).
Definition not64 (x : Z) : Z := Z.lxor x UINT64_MAX.

Infix "+" := add64 : u64_scope.
Infix "-" := sub64 : u64_scope.
Infix "*" := mul64 : u64_scope.

(** [x & bit] used as a truth value. *)
Definition has (x bit : Z) : bool := negb (Z.land x bit =? 0).

(** ** The alignment macros of src/utils.h *)

Definition ALIGN_UP (x a : Z) : Z := Z.land (x + (a - 1))%u64 (not64 (a - 1)).
Definition ALIGN_DOWN (x a : Z) : Z := Z.land x (not64 (a - 1)).

Definition GUEST_PAGE_SIZE : Z := 4096.
Definition PAGE_SIZE : Z := GUEST_PAGE_SIZE.
Definition BLOCK_2MIB : Z := 2097152.
Definition BLOCK_1GIB : Z := 1073741824.

Definition PAGE_ALIGN_UP (x : Z) : Z := ALIGN_UP x GUEST_PAGE_SIZE.
Definition ALIGN_2MIB_DOWN (x : Z) : Z := ALIGN_DOWN x BLOCK_2MIB.
Definition ALIGN_2MIB_UP (x : Z) : Z := ALIGN_UP x BLOCK_2MIB.

(** ** Linux error numbers (src/syscall/linux-wire.h) *)

Definition LINUX_EINTR : Z := 4.
Definition LINUX_EIO : Z := 5.
Definition LINUX_ENOMEM : Z := 12.
Definition LINUX_EACCES : Z := 13.
Definition LINUX_EFAULT : Z := 14.
Definition LINUX_EINVAL : Z := 22.

(** ** Tactics *)

(** [zdm] proves linear goals with division and remainder by constants. *)
Ltac zdm := Z.to_euclidean_division_equations; lia.

(** [unbool] turns boolean comparisons in the context into propositions. *)
Ltac unbool_step :=
  match goal with
  | H : _ && _ = true |- _ => apply andb_prop in H as [? ?]
  | H : _ && _ = false |- _ => apply andb_false_iff in H as [? | ?]
  | H : _ || _ = true |- _ => apply orb_prop in H as [? | ?]
  | H : _ || _ = false |- _ => apply orb_false_elim in H as [? ?]
  | H : negb _ = true |- _ => apply negb_true_iff in H
  | H : negb _ = false |- _ => apply negb_false_iff in H
  | H : (_ <? _) = true |- _ => apply Z.ltb_lt in H
  | H : (_ <? _) = false |- _ => apply Z.ltb_ge in H
  | H : (_ <=? _) = true |- _ => apply Z.leb_le in H
  | H : (_ <=? _) = false |- _ => apply Z.leb_gt in H
  | H : (_ =? _) = true |- _ => apply Z.eqb_eq in H
  | H : (_ =? _) = false |- _ => apply Z.eqb_neq in H
  end.
Ltac unbool := repeat unbool_step.

(** [case_if] splits on the condition of the first [if] of the goal. *)
Ltac case_if :=
  match goal with
  | |- context [if ?b then _ else _] => destruct b eqn:?
  end.
Ltac case_ifs := repeat (case_if; unbool).

(** [conc] decides closed arithmetic facts about concrete values. *)
Ltac conc := vm_compute; intuition (congruence || discriminate).

(** [u64] unfolds the wrap-around operators once their operands are known to
    stay in range. *)
Ltac u64 := unfold add64, sub64, mul64, wrap64 in *; rewrite ?Z.mod_small in * by (unfold fits64, two64, UINT64_MAX in *; lia).

(** ** The option monad *)

Lemma bind_some {A B} (f : A -> option B) (x : A) : (Some x ≫= f) = f x.
Proof. reflexivity. Qed.

(** [run] steps over a bound computation whose result is known. *)
Ltac run := rewrite bind_some; cbv beta iota.

(** ** Lemmas on machine integers *)

Lemma wrap64_small x : fits64 x -> wrap64 x = x.
Proof. apply Z.mod_small. Qed.

Lemma wrap64_fits x : fits64 (wrap64 x).
Proof. apply Z.mod_pos_bound. done. Qed.

Lemma add64_small x y : fits64 (x + y) -> add64 x y = x + y.
Proof. apply wrap64_small. Qed.

Lemma sub64_small x y : fits64 (x - y) -> sub64 x y = x - y.
Proof. apply wrap64_small. Qed.

Lemma mul64_small x y : fits64 (x * y) -> mul64 x y = x * y.
Proof. apply wrap64_small. Qed.

Lemma add64_0_l x : fits64 x -> add64 0 x = x.
Proof. apply wrap64_small. Qed.

Lemma sub64_0_r x : fits64 x -> sub64 x 0 = x.
Proof. intros. unfold sub64. rewrite Z.sub_0_r. by apply wrap64_small. Qed.

Lemma fits64_testbit_high x n : fits64 x -> 64 <= n -> Z.testbit x n = false.
Proof.
  unfold fits64, two64. intros Hx Hn.
  destruct (decide (x = 0)) as [->|]; [apply Z.testbit_0_l|].
  apply Z.bits_above_log2; [lia|].
  enough (Z.log2 x < 64) by lia. apply Z.log2_lt_pow2; lia.
Qed.

Lemma not64_spec x n :
  0 <= n -> Z.testbit (not64 x) n = xorb (Z.testbit x n) (n <? 64).
Proof.
  intros. unfold not64. rewrite Z.lxor_spec. f_equal.
  change UINT64_MAX with (Z.ones 64).
  destruct (Z.ltb_spec n 64); [apply Z.ones_spec_low | apply Z.ones_spec_high]; lia.
Qed.

Lemma fits64_bits x : (forall k, 64 <= k -> Z.testbit x k = false) -> fits64 x.
Proof.
  intros Hb. assert (x = x mod 2 ^ 64) as ->; [|unfold fits64, two64; apply Z.mod_pos_bound; lia].
  apply Z.bits_inj'. intros k Hk. destruct (Z.lt_ge_cases k 64); [by rewrite Z.mod_pow2_bits_low|rewrite Z.mod_pow2_bits_high by lia; by apply Hb].
Qed.

Lemma land_fits x y : fits64 x -> fits64 (Z.land x y).
Proof. intros Hx. apply fits64_bits. intros k Hk. by rewrite Z.land_spec, fits64_testbit_high. Qed.

Lemma lor_fits x y : fits64 x -> fits64 y -> fits64 (Z.lor x y).
Proof. intros Hx Hy. apply fits64_bits. intros k Hk. by rewrite Z.lor_spec, !fits64_testbit_high. Qed.

Lemma not64_fits x : fits64 x -> fits64 (not64 x).
Proof. intros Hx. apply fits64_bits. intros k Hk. rewrite not64_spec, fits64_testbit_high by (done || lia). by rewrite (proj2 (Z.ltb_ge k 64)). Qed.

Lemma one_bit i k : 0 <= i -> 0 <= k -> Z.testbit (Z.shiftl 1 i) k = (i =? k).
Proof. intros Hi Hk. rewrite Z.shiftl_1_l. by apply Z.pow2_bits_eqb. Qed.

Lemma bit_fits i : 0 <= i < 64 -> fits64 (Z.shiftl 1 i).
Proof. intros Hi. apply fits64_bits. intros k Hk. rewrite one_bit by lia. apply Z.eqb_neq. lia. Qed.

(** [word64] shows that a value fits its word; as a rewrite base it removes
    wrap-arounds whose operands are in range. *)
Create HintDb word64.
#[export] Hint Resolve wrap64_fits land_fits lor_fits not64_fits bit_fits : word64.
#[export] Hint Rewrite add64_small sub64_small mul64_small using (unfold fits64, two64 in *; lia) : word64.

(** Clearing the low [k] bits of a 64-bit value. *)
Lemma land_not_ones x k :
  fits64 x -> 0 <= k <= 64 -> Z.land x (not64 (2 ^ k - 1)) = x - x mod 2 ^ k.
Proof.
  intros Hx Hk.
  replace (2 ^ k - 1) with (Z.ones k) by (rewrite Z.ones_equiv; lia).
  rewrite <- Z.land_ones by lia.
  rewrite Z.sub_nocarry_ldiff.
  2:{ Z.bitwise. by destruct (Z.testbit x m), (Z.testbit (Z.ones k) m). }
  apply Z.bits_inj'. intros n Hn.
  rewrite Z.land_spec, not64_spec, Z.ldiff_spec, Z.land_spec by lia.
  destruct (Z.ltb_spec n 64) as [|Hge].
  - destruct (Z.testbit x n), (Z.testbit (Z.ones k) n); done.
  - by rewrite fits64_testbit_high.
Qed.

Lemma align_down_pow2 x k :
  fits64 x -> 0 <= k <= 64 -> ALIGN_DOWN x (2 ^ k) = x - x mod 2 ^ k.
Proof. apply land_not_ones. Qed.

Lemma align_up_pow2 x k :
  0 <= k <= 64 -> 0 <= x -> x + (2 ^ k - 1) < two64 ->
  ALIGN_UP x (2 ^ k) = (x + (2 ^ k - 1)) - (x + (2 ^ k - 1)) mod 2 ^ k.
Proof.
  intros Hk Hx Hlt. assert (0 < 2 ^ k) by lia.
  unfold ALIGN_UP. rewrite add64_small by (unfold fits64; lia).
  apply land_not_ones; [unfold fits64; lia | lia].
Qed.

Lemma align_down_page x : fits64 x -> ALIGN_DOWN x PAGE_SIZE = x - x mod PAGE_SIZE.
Proof. intros. by apply (align_down_pow2 x 12). Qed.

Lemma align_down_2mib x : fits64 x -> ALIGN_2MIB_DOWN x = x - x mod BLOCK_2MIB.
Proof. intros. by apply (align_down_pow2 x 21). Qed.

Lemma align_up_page x :
  0 <= x -> x + 4095 < two64 -> PAGE_ALIGN_UP x = (x + 4095) - (x + 4095) mod 4096.
Proof. intros. by apply (align_up_pow2 x 12). Qed.

Lemma align_up_2mib x :
  0 <= x -> x + 2097151 < two64 ->
  ALIGN_2MIB_UP x = (x + 2097151) - (x + 2097151) mod 2097152.
Proof. intros. by apply (align_up_pow2 x 21). Qed.

(** Masking with a single bit tests it. *)
Lemma has_testbit x k : 0 <= k -> has x (2 ^ k) = Z.testbit x k.
Proof.
  intros Hk. unfold has. destruct (Z.testbit x k) eqn:E.
  - apply negb_true_iff, Z.eqb_neq. intros H0.
    assert (Z.testbit (Z.land x (2 ^ k)) k = true) as Hb.
    { by rewrite Z.land_spec, E, Z.pow2_bits_true. }
    by rewrite H0, Z.testbit_0_l in Hb.
  - apply negb_false_iff, Z.eqb_eq. apply Z.bits_inj'. intros n Hn.
    rewrite Z.land_spec, Z.testbit_0_l.
    destruct (decide (n = k)) as [->|]; [by rewrite E|].
    by rewrite Z.pow2_bits_false, andb_false_r by lia.
Qed.

(** Fields that do not overlap: a value below [2^k] or-ed with a multiple of
    [2^k] is their sum. *)
Lemma land_disjoint_pow2 a b k : 0 <= k -> 0 <= a < 2 ^ k -> Z.land a (b * 2 ^ k) = 0.
Proof.
  intros Hk Ha. apply Z.bits_inj'. intros n Hn. rewrite Z.land_spec, Z.testbit_0_l.
  destruct (decide (n < k)).
  - by rewrite Z.mul_pow2_bits_low, andb_false_r.
  - rewrite <- (Z.mod_small a (2 ^ k)), Z.mod_pow2_bits_high by lia. done.
Qed.

Lemma lor_disjoint_pow2 a b k : 0 <= k -> 0 <= a < 2 ^ k -> Z.lor a (b * 2 ^ k) = a + b * 2 ^ k.
Proof.
  intros. pose proof (Z.add_lor_land a (b * 2 ^ k)) as H1.
  rewrite land_disjoint_pow2 in H1; lia.
Qed.

(** ** Loops

    [loop n f x] runs the body [f] at most [n] times.  The body returns the next
    state, or leaves the loop with a result ([None] is an abort).  The fuel is
    binary, so a bound of the size of the address space costs nothing. *)

Fixpoint iter_until {St R} (n : positive) (f : St -> St + option R) (x : St) : St + option R :=
  match n with
  | xH => f x
  | xO n => match iter_until n f x with inl y => iter_until n f y | r => r end
  | xI n =>
      match f x with
      | inl y => match iter_until n f y with inl z => iter_until n f z | r => r end
      | r => r
      end
  end.

Definition loop {St R} (n : Z) (f : St -> St + option R) (x : St) : option R :=
  match n with
  | Zpos n => match iter_until n f x with inr r => r | inl _ => None end
  | _ => None
  end.

Section LoopRule.
Context {St R : Type} (f : St -> St + option R).
Context (I : St -> Prop) (mu : St -> Z) (Q : R -> Prop).
Context (Hstep : forall x, I x ->
  match f x with
  | inl y => I y /\ 0 <= mu y < mu x
  | inr (Some r) => Q r
  | inr None => False
  end).

Lemma iter_until_rule n x : I x -> 0 <= mu x ->
  match iter_until n f x with
  | inl y => I y /\ 0 <= mu y /\ mu y + Zpos n <= mu x
  | inr (Some r) => Q r
  | inr None => False
  end.
Proof.
  revert x. induction n as [n IH|n IH|]; intros x Hx Hmu; simpl.
  - pose proof (Hstep x Hx) as H1. destruct (f x) as [y|]; [|done]. destruct H1 as [Hy ?].
    specialize (IH y Hy ltac:(lia)) as H2. destruct (iter_until n f y) as [z|]; [|done].
    destruct H2 as (Hz & ? & ?). specialize (IH z Hz ltac:(lia)).
    destruct (iter_until n f z) as [w|]; [|done]. destruct IH as (? & ? & ?). split_and!; [done|lia..].
  - specialize (IH x Hx Hmu) as H2. destruct (iter_until n f x) as [z|]; [|done].
    destruct H2 as (Hz & ? & ?). specialize (IH z Hz ltac:(lia)).
    destruct (iter_until n f z) as [w|]; [|done]. destruct IH as (? & ? & ?). split_and!; [done|lia..].
  - pose proof (Hstep x Hx) as H1. destruct (f x) as [y|]; [|done]. destruct H1. split_and!; [done|lia..].
Qed.

(** With an invariant and a measure below the fuel, the loop returns. *)
Lemma loop_rule n x : I x -> 0 <= mu x < n -> exists r, loop n f x = Some r /\ Q r.
Proof.
  intros Hx Hmu. destruct n as [|n|]; [lia| |lia].
  pose proof (iter_until_rule n x Hx ltac:(lia)) as H. simpl.
  destruct (iter_until n f x) as [y|[r|]]; [lia|by exists r|done].
Qed.
End LoopRule.
