(* ===== verification/Bits.v ===== *)
(** * Sets of bits in a 64-bit word

    The loops of the program that visit the set bits of a word, lowest first
    ([for (; w; w &= w - 1)] with bit_ctz64 of src/utils.h). *)

From Stdlib Require Import Sorted.
From S2P Require Import Prelude.

(** The index of the lowest set bit; 64 for zero. *)
Fixpoint ctz_from (fuel : nat) (i w : Z) : Z :=
  match fuel with
  | O => i
  | S fuel => if Z.testbit w i then i else ctz_from fuel (i + 1) w
  end.
Definition bit_ctz64 (w : Z) : Z := ctz_from 64 0 w.

(** The set bits of one word of a bitmap, lowest first: [used &= used - 1]. *)
Fixpoint word_walk (fuel : nat) (word used : Z) : list Z :=
  match fuel with
  | O => []
  | S fuel => if used =? 0 then [] else (word * 64 + bit_ctz64 used) :: word_walk fuel word (Z.land used (used - 1)%u64)
  end.

(** The set bits of a single word. *)
Definition set_bits (w : Z) : list Z := word_walk 64 0 w.

Lemma ctz_from_spec fuel : forall i w, 0 <= i ->
  let k := ctz_from fuel i w in
  i <= k <= i + Z.of_nat fuel /\ (forall j, i <= j < k -> Z.testbit w j = false) /\ (k < i + Z.of_nat fuel -> Z.testbit w k = true).
Proof.
  induction fuel as [|fuel IH]; intros i w Hi; cbn [ctz_from]; [split; [lia|split; [lia|lia]]|].
  destruct (Z.testbit w i) eqn:E; [split; [lia|split; [lia|done]]|].
  destruct (IH (i + 1) w ltac:(lia)) as (A & B & C). split; [lia|]. split; [|intros Hk; apply C; lia].
  intros j Hj. destruct (Z.eq_dec j i) as [->|]; [done|apply B; lia].
Qed.

Lemma ctz_spec w : fits64 w -> w <> 0 ->
  0 <= bit_ctz64 w < 64 /\ Z.testbit w (bit_ctz64 w) = true /\ forall j, 0 <= j < bit_ctz64 w -> Z.testbit w j = false.
Proof.
  intros Hw Hne. destruct (ctz_from_spec 64 0 w ltac:(lia)) as (A & B & C). fold (bit_ctz64 w) in *.
  destruct (Z.eq_dec (bit_ctz64 w) 64) as [E|E].
  - exfalso. apply Hne, Z.bits_inj'. intros j Hj. rewrite Z.bits_0. destruct (Z.lt_ge_cases j 64); [apply B; lia|by apply fits64_testbit_high].
  - split; [lia|]. split; [apply C; lia|intros; apply B; lia].
Qed.

(** [w & (w - 1)] drops the lowest set bit. *)
Lemma drop_lowest w : fits64 w -> w <> 0 -> forall j, 0 <= j ->
  Z.testbit (Z.land w (w - 1)%u64) j = Z.testbit w j && negb (j =? bit_ctz64 w).
Proof.
  intros Hw Hne j Hj. destruct (ctz_spec w Hw Hne) as (Hk & Hkt & Hlow). set (k := bit_ctz64 w) in *. clearbody k.
  assert (0 < w) by (unfold fits64 in Hw; lia). rewrite sub64_small by (unfold fits64 in *; lia). rewrite Z.land_spec.
  assert (w mod 2 ^ (k + 1) = 2 ^ k) as Hm.
  { apply Z.bits_inj'. intros i Hi. rewrite Z.pow2_bits_eqb by lia. destruct (Z.lt_ge_cases i (k + 1)) as [Hlt|Hge].
    - rewrite Z.mod_pow2_bits_low by done. destruct (Z.eqb_spec k i) as [->|]; [done|apply Hlow; lia].
    - rewrite Z.mod_pow2_bits_high by lia. destruct (Z.eqb_spec k i); [lia|done]. }
  pose proof (Z.div_mod w (2 ^ (k + 1)) ltac:(lia)) as Hd. rewrite Hm in Hd. set (q := w / 2 ^ (k + 1)) in *.
  assert (w - 1 = q * 2 ^ (k + 1) + (2 ^ k - 1)) as E by lia. assert (0 <= 2 ^ k - 1 < 2 ^ (k + 1)) as Hr by (rewrite Z.pow_add_r by lia; lia).
  destruct (Z.lt_ge_cases j (k + 1)) as [Hlt|Hge].
  - destruct (Z.eqb_spec j k) as [->|Hjk]; [|rewrite Hlow by lia; done]. rewrite Hkt. cbn [negb andb].
    assert ((w - 1) mod 2 ^ (k + 1) = 2 ^ k - 1) as Em by (rewrite E, Z.add_comm, Z.mod_add, Z.mod_small by lia; done).
    rewrite <- (Z.mod_pow2_bits_low (w - 1) (k + 1) k) by lia. rewrite Em. replace (2 ^ k - 1) with (Z.ones k) by (rewrite Z.ones_equiv; lia).
    apply Z.ones_spec_high. lia.
  - destruct (Z.eqb_spec j k); [lia|]. cbn [negb]. rewrite andb_true_r.
    assert ((w - 1) / 2 ^ (k + 1) = q) as Eq by (rewrite E, Z.add_comm, Z.div_add, Z.div_small by lia; lia).
    assert (forall u, Z.testbit u j = Z.testbit (u / 2 ^ (k + 1)) (j - (k + 1))) as Hsh.
    { intros u. rewrite Z.div_pow2_bits by lia. f_equal. lia. }
    rewrite (Hsh (w - 1)), (Hsh w), Eq. apply andb_diag.
Qed.

(** The walk over the set bits: 64 rounds reach every set bit of a word. *)

Lemma word_walk_spec fuel : forall word used, fits64 used -> (fuel <= 64)%nat ->
  (forall j, 0 <= j < 64 - Z.of_nat fuel -> Z.testbit used j = false) ->
  forall i, i ∈ word_walk fuel word used <-> exists k, 0 <= k < 64 /\ Z.testbit used k = true /\ i = word * 64 + k.
Proof.
  induction fuel as [|fuel IH]; intros word used Hf Hfu Hlow i; cbn [word_walk].
  - split; [intros []%elem_of_nil|]. intros (k & Hk & Ht & _). rewrite Hlow in Ht by lia. done.
  - destruct (Z.eqb_spec used 0) as [->|Hne].
    { split; [intros []%elem_of_nil|]. intros (k & _ & Ht & _). by rewrite Z.bits_0 in Ht. }
    destruct (ctz_spec used Hf Hne) as (Hc & Hct & Hcl). pose proof (drop_lowest used Hf Hne) as Hd.
    assert (64 - Z.of_nat (S fuel) <= bit_ctz64 used) as Hge.
    { destruct (Z.lt_ge_cases (bit_ctz64 used) (64 - Z.of_nat (S fuel))); [|lia]. rewrite Hlow in Hct by lia. done. }
    rewrite elem_of_cons, IH; [|by auto with word64|lia|].
    + split.
      * intros [->|(k & Hk & Ht & ->)]; [by exists (bit_ctz64 used)|]. exists k. rewrite Hd in Ht by lia. apply andb_prop in Ht as [Ht _]. done.
      * intros (k & Hk & Ht & ->). destruct (Z.eq_dec k (bit_ctz64 used)) as [->|Hk']; [by left|right]. exists k. split; [done|].
        split; [|done]. rewrite Hd, Ht by lia. cbn [andb]. by apply negb_true_iff, Z.eqb_neq.
    + intros j Hj. rewrite Hd by lia. destruct (Z.eqb_spec j (bit_ctz64 used)); [apply andb_false_r|]. by rewrite Hcl by lia.
Qed.


Lemma elem_of_set_bits w i : fits64 w -> i ∈ set_bits w <-> 0 <= i < 64 /\ Z.testbit w i = true.
Proof.
  intros F. unfold set_bits. rewrite word_walk_spec by (done || lia). split; [by intros (k & Hk & Ht & ->)|].
  intros [Hi Ht]. by exists i.
Qed.

Lemma word_walk_sorted fuel : forall w, fits64 w -> StronglySorted Z.lt (word_walk fuel 0 w).
Proof.
  induction fuel as [|fuel IH]; intros w F; cbn [word_walk]; [constructor|]. destruct (Z.eqb_spec w 0) as [->|Hne]; [constructor|].
  destruct (ctz_spec w F Hne) as (Hc & Hct & Hcl). constructor; [apply IH; auto with word64|].
  assert (Low : forall f v, fits64 v -> (forall j, 0 <= j <= bit_ctz64 w -> Z.testbit v j = false) -> Forall (Z.lt (0 * 64 + bit_ctz64 w)) (word_walk f 0 v)).
  { induction f as [|f IHf]; intros v Fv L; cbn [word_walk]; [constructor|]. destruct (Z.eqb_spec v 0) as [->|Nv]; [constructor|].
    destruct (ctz_spec v Fv Nv) as (Vc & Vct & _). constructor.
    - destruct (Z.lt_ge_cases (bit_ctz64 w) (bit_ctz64 v)); [lia|]. by rewrite L in Vct by lia.
    - apply IHf; [auto with word64|]. intros j Hj. by rewrite drop_lowest, L by (done || lia). }
  apply Low; [auto with word64|]. intros j Hj. rewrite drop_lowest by (done || lia).
  destruct (Z.eqb_spec j (bit_ctz64 w)); [apply andb_false_r|]. by rewrite Hcl by lia.
Qed.

Lemma set_bits_sorted w : fits64 w -> StronglySorted Z.lt (set_bits w).
Proof. apply word_walk_sorted. Qed.

Lemma set_bits_NoDup w : fits64 w -> NoDup (set_bits w).
Proof.
  intros F. pose proof (set_bits_sorted w F) as S. induction S as [|a l _ IH L]; constructor; [|done].
  intros E. rewrite list.Forall_forall in L. specialize (L a E). lia.
Qed.

(** The word is zero exactly when it has no set bit. *)
Lemma set_bits_nil w : fits64 w -> set_bits w = [] <-> w = 0.
Proof.
  intros F. split; [|by intros ->]. change (set_bits w) with (word_walk (S 63) 0 w). generalize 63%nat. intros n. cbn [word_walk]. by destruct (Z.eqb_spec w 0).
Qed.
