(* ===== verification/Tlbi.v ===== *)
(** * The TLB-invalidation accumulator of src/core/guest.h

    Every page-table mutation records in a per-vCPU slot ([cpu_tlbi_req]) which
    virtual pages the EL1 shim must invalidate before it returns to the guest.
    The slot holds nothing, one page range, or "everything"; later requests are
    folded into it.  [covers] says which addresses the pending request retires,
    and the theorems show that folding a request in covers the new range and
    never loses an address that was already covered, and that the operand the
    host encodes for the shim invalidates the whole recorded range. *)

From S2P Require Import Prelude.

(** ** Data *)

Inductive tlbi_kind_t := TLBI_NONE | TLBI_BROADCAST | TLBI_RANGE | TLBI_RANGE_LARGE.

#[export] Instance tlbi_kind_eq_dec : EqDecision tlbi_kind_t.
Proof. solve_decision. Defined.

Record tlbi_request_t := mk_tlbi {
  kind : tlbi_kind_t;
  icache_flush : bool;
  pages : Z;
  tstart : Z
}.

Definition TLBI_SELECTIVE_MAX_PAGES : Z := 16.
Definition TLBI_RVAE_MAX_PAGES : Z := 64.
Definition RVAE_OPERAND_BADDR_MASK : Z := 2 ^ 37 - 1.
Definition RVAE_OPERAND_NUM_SHIFT : Z := 39.
Definition RVAE_OPERAND_TG_4KB : Z := 2 ^ 46.

(** ** Operations *)

Definition tlbi_request_clear (r : tlbi_request_t) : tlbi_request_t :=
  mk_tlbi TLBI_NONE false 0 0.

Definition tlbi_request_broadcast (r : tlbi_request_t) : tlbi_request_t :=
  mk_tlbi TLBI_BROADCAST (icache_flush r) (pages r) (tstart r).

Definition tlbi_request_is_broadcast (r : tlbi_request_t) : bool :=
  bool_decide (kind r = TLBI_BROADCAST).

Definition tlbi_request_mark_icache (r : tlbi_request_t) : tlbi_request_t :=
  mk_tlbi (kind r) true (pages r) (tstart r).

(** [range_supported] is the probed [g_tlbi_range_supported] flag. *)
Definition tlbi_large_cap (range_supported : bool) : Z :=
  if range_supported then TLBI_RVAE_MAX_PAGES else TLBI_SELECTIVE_MAX_PAGES.

Definition tlbi_request_range (range_supported : bool) (r : tlbi_request_t)
    (start end_ : Z) : tlbi_request_t :=
  if bool_decide (kind r = TLBI_BROADCAST) then r
  else if end_ <=? start then r
  else
    let mask := 4095 in
    if (UINT64_MAX - mask)%u64 <? end_ then tlbi_request_broadcast r
    else
      let s := Z.land start (not64 mask) in
      let e := Z.land (end_ + mask)%u64 (not64 mask) in
      let n := Z.shiftr (e - s)%u64 12 in
      let large_cap := tlbi_large_cap range_supported in
      if large_cap <? n then tlbi_request_broadcast r
      else if bool_decide (kind r = TLBI_NONE) then
        mk_tlbi (if TLBI_SELECTIVE_MAX_PAGES <? n then TLBI_RANGE_LARGE else TLBI_RANGE)
                (icache_flush r) (n mod 2 ^ 16) s
      else
        let es := tstart r in
        let pe := (pages r * 4096)%u64 in
        if (UINT64_MAX - pe)%u64 <? es then tlbi_request_broadcast r
        else
          let ee := (es + pe)%u64 in
          let us := if s <? es then s else es in
          let ue := if ee <? e then e else ee in
          let un := Z.shiftr (ue - us)%u64 12 in
          if large_cap <? un then tlbi_request_broadcast r
          else
            mk_tlbi (if TLBI_SELECTIVE_MAX_PAGES <? un then TLBI_RANGE_LARGE else kind r)
                    (icache_flush r) (un mod 2 ^ 16) us.

Definition tlbi_rvae1is_operand (start_va pgs : Z) : Z :=
  let pgs := if pgs <? 2 then 2 else pgs in
  let baddr := Z.land (Z.shiftr start_va 12) RVAE_OPERAND_BADDR_MASK in
  let num := (pgs + 1) / 2 - 1 in
  let num := if 31 <? num then 31 else num in
  Z.lor (Z.lor baddr (Z.shiftl num RVAE_OPERAND_NUM_SHIFT)) RVAE_OPERAND_TG_4KB.

(** The registers [tlbi_request_emit_to_vcpu] writes for the shim; [None] is a
    register the host leaves alone. *)
Record shim_regs := mk_shim_regs {
  X8 : Z; X9 : option Z; X10 : option Z; X11 : option Z
}.

Definition tlbi_request_emit_to_vcpu (r : tlbi_request_t) : shim_regs * tlbi_request_t :=
  let ic := if icache_flush r then 1 else 0 in
  let regs :=
    match kind r with
    | TLBI_BROADCAST => mk_shim_regs 1 None None (Some ic)
    | TLBI_RANGE => mk_shim_regs 3 (Some (tstart r)) (Some (pages r)) (Some ic)
    | TLBI_RANGE_LARGE =>
        mk_shim_regs 4 (Some (tlbi_rvae1is_operand (tstart r) (pages r))) None (Some ic)
    | TLBI_NONE => mk_shim_regs 0 None None None
    end in
  (regs, tlbi_request_clear r).

(** ** Specification *)

(** Addresses the pending request retires. *)
Definition covers (r : tlbi_request_t) (va : Z) : Prop :=
  match kind r with
  | TLBI_NONE => False
  | TLBI_BROADCAST => True
  | TLBI_RANGE | TLBI_RANGE_LARGE => tstart r <= va < tstart r + pages r * 4096
  end.

(** The representation invariant of the slot. *)
Definition tlbi_wf (range_supported : bool) (r : tlbi_request_t) : Prop :=
  match kind r with
  | TLBI_NONE | TLBI_BROADCAST => True
  | TLBI_RANGE | TLBI_RANGE_LARGE =>
      0 <= tstart r /\ tstart r mod 4096 = 0 /\
      1 <= pages r <= tlbi_large_cap range_supported /\
      tstart r + pages r * 4096 < two64 /\
      (kind r = TLBI_RANGE <-> pages r <= TLBI_SELECTIVE_MAX_PAGES)
  end.

(** What the shim invalidates for the registers it is handed: X8 = 1 flushes
    everything, X8 = 3 runs TLBI VAE1IS over X10 pages from X9, X8 = 4 issues
    one TLBI RVAE1IS whose operand holds VA[48:12] in bits 36:0 and covers
    [(NUM + 1) * 2] pages with NUM in bits 43:39. *)
Definition shim_invalidates (regs : shim_regs) (va : Z) : Prop :=
  if X8 regs =? 1 then True
  else if X8 regs =? 3 then
    match X9 regs, X10 regs with
    | Some s, Some n => s <= va < s + n * 4096
    | _, _ => False
    end
  else if X8 regs =? 4 then
    match X9 regs with
    | Some op =>
        let baddr := op mod 2 ^ 37 in
        let num := (op / 2 ^ 39) mod 2 ^ 5 in
        baddr <= (va / 4096) mod 2 ^ 37 < baddr + (num + 1) * 2
    | None => False
    end
  else False.

(** ** Lemmas *)

Lemma tlbi_broadcast_covers r va : covers (tlbi_request_broadcast r) va.
Proof. done. Qed.

Lemma tlbi_mark_icache_covers r va :
  covers (tlbi_request_mark_icache r) va <-> covers r va.
Proof. done. Qed.

Lemma tlbi_mark_icache_wf b r : tlbi_wf b (tlbi_request_mark_icache r) <-> tlbi_wf b r.
Proof. done. Qed.

Create HintDb tlbi.
#[export] Hint Resolve tlbi_broadcast_covers : tlbi.

Lemma land_not_4095 x : fits64 x -> Z.land x (not64 4095) = x - x mod 4096.
Proof. intros. by apply (land_not_ones x 12). Qed.

(** The page window a request rounds out to. *)
Lemma tlbi_window start end_ :
  fits64 start -> start < end_ -> end_ <= UINT64_MAX - 4095 ->
  let s := Z.land start (not64 4095) in
  let e := Z.land (end_ + 4095)%u64 (not64 4095) in
  s = start - start mod 4096 /\
  e = end_ + 4095 - (end_ + 4095) mod 4096 /\
  0 <= s <= start /\ end_ <= e < two64 /\ s mod 4096 = 0 /\ e mod 4096 = 0 /\ s < e.
Proof.
  intros Hs Hse He s e. unfold fits64, UINT64_MAX in *.
  assert (s = start - start mod 4096) by (unfold s; by apply land_not_4095).
  assert (e = end_ + 4095 - (end_ + 4095) mod 4096).
  { unfold e. rewrite add64_small by (unfold fits64, two64; lia).
    apply land_not_4095. unfold fits64, two64. lia. }
  unfold two64. clearbody s e. zdm.
Qed.

Lemma shiftr12 x : Z.shiftr x 12 = x / 4096.
Proof. by rewrite Z.shiftr_div_pow2. Qed.

Lemma tlbi_large_cap_bound b : 16 <= tlbi_large_cap b <= 64.
Proof. destruct b; unfold tlbi_large_cap, TLBI_RVAE_MAX_PAGES, TLBI_SELECTIVE_MAX_PAGES; lia. Qed.

Ltac tlbi_unfold :=
  unfold tlbi_wf, covers, tlbi_request_broadcast in *; simpl in *;
  unfold two64, UINT64_MAX, TLBI_SELECTIVE_MAX_PAGES in *.

(** The first request recorded in an empty slot. *)
Lemma tlbi_range_first b (r : tlbi_request_t) s e :
  0 <= s -> s < e -> e < two64 -> s mod 4096 = 0 -> e mod 4096 = 0 ->
  (e - s) / 4096 <= tlbi_large_cap b ->
  let n := (e - s) / 4096 in
  let r' := mk_tlbi (if TLBI_SELECTIVE_MAX_PAGES <? n then TLBI_RANGE_LARGE else TLBI_RANGE)
              (icache_flush r) (n mod 2 ^ 16) s in
  tlbi_wf b r' /\ (forall va, covers r' va <-> s <= va < e).
Proof.
  intros Hs Hse He Ms Me Hn n r'. pose proof (tlbi_large_cap_bound b).
  assert (n * 4096 = e - s) as Hn' by (unfold n; zdm).
  assert (n mod 2 ^ 16 = n) as Hmod by (apply Z.mod_small; lia).
  unfold r'. rewrite Hmod. fold n in Hn. clearbody n.
  destruct (Z.ltb_spec TLBI_SELECTIVE_MAX_PAGES n); split; intros; tlbi_unfold; intuition (try lia; try discriminate).
Qed.

(** Folding a window into a slot that already holds a range. *)
Lemma tlbi_range_union b (r : tlbi_request_t) s e :
  tlbi_wf b r -> kind r = TLBI_RANGE \/ kind r = TLBI_RANGE_LARGE ->
  0 <= s -> s < e -> e < two64 -> s mod 4096 = 0 -> e mod 4096 = 0 ->
  let ee := tstart r + pages r * 4096 in
  let us := if s <? tstart r then s else tstart r in
  let ue := if ee <? e then e else ee in
  let un := (ue - us) / 4096 in
  un <= tlbi_large_cap b ->
  let r' := mk_tlbi (if TLBI_SELECTIVE_MAX_PAGES <? un then TLBI_RANGE_LARGE else kind r)
              (icache_flush r) (un mod 2 ^ 16) us in
  tlbi_wf b r' /\ (forall va, covers r va -> covers r' va) /\
  (forall va, s <= va < e -> covers r' va).
Proof.
  intros Hwf Hk Hs Hse He Ms Me ee us ue un Hun r'. pose proof (tlbi_large_cap_bound b).
  assert (0 <= tstart r /\ tstart r mod 4096 = 0 /\ 1 <= pages r <= tlbi_large_cap b /\
          tstart r + pages r * 4096 < two64 /\
          (kind r = TLBI_RANGE <-> pages r <= TLBI_SELECTIVE_MAX_PAGES)) as (? & ? & ? & ? & Hsel)
    by (unfold tlbi_wf in Hwf; destruct Hk as [Hk|Hk]; by rewrite Hk in Hwf |- *).
  assert (us <= s /\ us <= tstart r /\ e <= ue /\ ee <= ue /\ ue < two64 /\ 0 <= us /\
          us mod 4096 = 0 /\ ue mod 4096 = 0) as (?&?&?&?&?&?&?&?).
  { unfold us, ue, ee. clear Hun. repeat case_match; unbool; zdm. }
  assert (un * 4096 = ue - us) as Hn' by (unfold un; zdm).
  assert (un mod 2 ^ 16 = un) as Hmod by (apply Z.mod_small; lia).
  unfold r'. rewrite Hmod. unfold ee in *. clearbody us ue un.
  assert (forall k va, k = TLBI_RANGE \/ k = TLBI_RANGE_LARGE ->
    covers (mk_tlbi k (icache_flush r) un us) va <-> us <= va < us + un * 4096) as Hcov.
  { intros k va [-> | ->]; done. }
  assert (forall va, covers r va -> tstart r <= va < tstart r + pages r * 4096) as Hold.
  { intros va. unfold covers. by destruct Hk as [-> | ->]. }
  destruct (Z.ltb_spec TLBI_SELECTIVE_MAX_PAGES un) as [Hl|Hl].
  - split_and!; [|intros va ?%Hold; apply Hcov; [auto|lia]|intros va ?; apply Hcov; [auto|lia]].
    tlbi_unfold. intuition (try lia; try discriminate).
  - assert (kind r = TLBI_RANGE) as Hr by (apply Hsel; unfold TLBI_SELECTIVE_MAX_PAGES in *; lia).
    rewrite Hr. split_and!; [|intros va ?%Hold; apply Hcov; [auto|lia]|intros va ?; apply Hcov; [auto|lia]].
    tlbi_unfold. intuition lia.
Qed.

Lemma tlbi_request_range_wf_covers b r start end_ :
  tlbi_wf b r -> fits64 start -> fits64 end_ ->
  tlbi_wf b (tlbi_request_range b r start end_) /\
  (forall va, covers r va -> covers (tlbi_request_range b r start end_) va) /\
  (forall va, start <= va < end_ -> covers (tlbi_request_range b r start end_) va).
Proof.
  intros Hwf Hs He. unfold tlbi_request_range.
  case_bool_decide as Hb.
  { split_and!; [done..|]. intros va _. unfold covers. by rewrite Hb. }
  destruct (Z.leb_spec end_ start) as [|Hlt]; [split_and!; [done..|lia]|].
  rewrite sub64_small by (unfold fits64, two64, UINT64_MAX; lia).
  destruct (Z.ltb_spec (UINT64_MAX - 4095) end_) as [|Hend]; [split_and!; done|].
  destruct (tlbi_window start end_ Hs Hlt Hend) as (_ & _ & Hs1 & He1 & Hsm & Hem & Hse).
  set (s := Z.land start (not64 4095)) in *.
  set (e := Z.land (end_ + 4095)%u64 (not64 4095)) in *. clearbody s e.
  rewrite (sub64_small e s) by (unfold fits64; lia). rewrite shiftr12.
  destruct (Z.ltb_spec (tlbi_large_cap b) ((e - s) / 4096)) as [|Hcap]; [split_and!; done|].
  case_bool_decide as Hnone.
  { destruct (tlbi_range_first b r s e ltac:(lia) ltac:(lia) ltac:(lia) Hsm Hem Hcap) as [Hw Hc].
    split_and!; [exact Hw| |].
    - intros va. unfold covers at 1. by rewrite Hnone.
    - intros va ?. apply Hc. lia. }
  assert (kind r = TLBI_RANGE \/ kind r = TLBI_RANGE_LARGE) as Hk by (destruct (kind r); naive_solver).
  assert (0 <= tstart r /\ tstart r + pages r * 4096 < two64 /\ 1 <= pages r) as (?&?&?).
  { unfold tlbi_wf in Hwf. destruct Hk as [Hk|Hk]; rewrite Hk in Hwf; naive_solver lia. }
  rewrite (mul64_small (pages r)) by (unfold fits64; lia).
  rewrite (sub64_small UINT64_MAX) by (unfold fits64, two64, UINT64_MAX in *; lia).
  destruct (Z.ltb_spec (UINT64_MAX - pages r * 4096) (tstart r)) as [|Hnw]; [split_and!; done|].
  rewrite (add64_small (tstart r)) by (unfold fits64, two64, UINT64_MAX in *; lia).
  set (ue := if tstart r + pages r * 4096 <? e then e else tstart r + pages r * 4096).
  set (us := if s <? tstart r then s else tstart r).
  rewrite (sub64_small ue us)
    by (unfold fits64, ue, us, two64, UINT64_MAX in *; repeat case_match; unbool; lia).
  rewrite shiftr12.
  destruct (Z.ltb_spec (tlbi_large_cap b) ((ue - us) / 4096)) as [|Hc2]; [split_and!; done|].
  destruct (tlbi_range_union b r s e Hwf Hk ltac:(lia) Hse ltac:(lia) Hsm Hem Hc2)
    as (Hw & Hold & Hnew).
  split_and!; [exact Hw|exact Hold|]. intros va ?. apply Hnew. lia.
Qed.

(** The operand's two fields, read back. *)
Lemma rvae_operand_fields sva pgs :
  0 <= sva -> 1 <= pgs <= 64 ->
  tlbi_rvae1is_operand sva pgs mod 2 ^ 37 = (sva / 4096) mod 2 ^ 37 /\
  (tlbi_rvae1is_operand sva pgs / 2 ^ 39) mod 2 ^ 5 = ((if pgs <? 2 then 2 else pgs) + 1) / 2 - 1.
Proof.
  intros Hs Hp. unfold tlbi_rvae1is_operand, RVAE_OPERAND_NUM_SHIFT, RVAE_OPERAND_BADDR_MASK.
  set (q := if pgs <? 2 then 2 else pgs).
  assert (2 <= q <= 64) by (unfold q; case_match; unbool; lia).
  destruct (Z.ltb_spec 31 ((q + 1) / 2 - 1)); [zdm|].
  rewrite shiftr12. change (2 ^ 37 - 1) with (Z.ones 37).
  rewrite Z.land_ones, Z.shiftl_mul_pow2 by lia.
  pose proof (Z.mod_pos_bound (sva / 4096) (2 ^ 37) eq_refl).
  set (bd := (sva / 4096) mod 2 ^ 37) in *.
  replace ((((q + 1) / 2) - 1) * 2 ^ 39) with ((4 * ((q + 1) / 2 - 1)) * 2 ^ 37) by lia.
  rewrite lor_disjoint_pow2 by lia.
  change RVAE_OPERAND_TG_4KB with (1 * 2 ^ 46).
  rewrite lor_disjoint_pow2 by zdm. clearbody bd q. zdm.
Qed.

(** ** Properties *)

(** folding a page range into the pending request keeps the slot well
    formed, keeps every address that was already promised an invalidation
    covered, and covers the whole new range, whatever the slot held before and
    whether or not the CPU has range TLBI instructions. *)
Theorem tlbi_request_range_sound b r start end_ :
  tlbi_wf b r -> fits64 start -> fits64 end_ ->
  let r' := tlbi_request_range b r start end_ in
  tlbi_wf b r' /\ icache_flush r' = icache_flush r /\
  (forall va, covers r va -> covers r' va) /\
  (forall va, start <= va < end_ -> covers r' va).
Proof.
  intros Hwf Hs He r'.
  destruct (tlbi_request_range_wf_covers b r start end_ Hwf Hs He) as (?&?&?).
  split_and!; [done| |done..].
  unfold r', tlbi_request_range, tlbi_request_broadcast. by repeat case_match.
Qed.

Definition tlbi_ex : tlbi_request_t := mk_tlbi TLBI_RANGE false 2 8192.

Lemma tlbi_request_range_sound_witness :
  let r' := tlbi_request_range true tlbi_ex 40960 45057 in
  r' = mk_tlbi TLBI_RANGE false 10 8192 /\ covers r' 45056 /\ covers r' 8192.
Proof.
  destruct (tlbi_request_range_sound true tlbi_ex 40960 45057) as (_ & _ & Hold & Hnew);
    [conc..|].
  split; [by vm_compute|]. split; [apply Hnew; lia | apply Hold; conc].
Defined.

(** the registers handed to the shim retire every address the pending
    request covers (for ranges inside the 49-bit space the TLBI operand can
    name), and emitting the request empties the slot. *)
Theorem tlbi_emit_sound b r va :
  tlbi_wf b r -> covers r va -> 0 <= va -> tstart r + pages r * 4096 <= 2 ^ 49 ->
  shim_invalidates (fst (tlbi_request_emit_to_vcpu r)) va /\
  kind (snd (tlbi_request_emit_to_vcpu r)) = TLBI_NONE.
Proof.
  intros Hwf Hc Hva Hb. split; [|done]. pose proof (tlbi_large_cap_bound b).
  unfold covers, tlbi_wf in *. unfold tlbi_request_emit_to_vcpu, shim_invalidates.
  destruct (kind r) eqn:Hk; simpl; try done.
  destruct Hwf as (Hs & Ha & Hp & _ & _).
  destruct (rvae_operand_fields (tstart r) (pages r)) as [-> ->]; [lia..|].
  rewrite !Z.mod_small by zdm. case_match; unbool; zdm.
Qed.

Lemma tlbi_emit_sound_witness :
  let r := mk_tlbi TLBI_RANGE_LARGE true 33 1048576 in
  shim_invalidates (fst (tlbi_request_emit_to_vcpu r)) 1183743 /\
  X11 (fst (tlbi_request_emit_to_vcpu r)) = Some 1.
Proof.
  split; [|done].
  apply (tlbi_emit_sound true); conc.
Defined.
