(* ===== verification/Regions.v ===== *)
(** * The semantic region tracker of src/core/guest.c

    [guest_t.regions] is an array of [guest_region_t], sorted by start address
    and free of overlaps, that records what every mapped guest range is: its
    protection, flags, backing file, file offset, and the guest-physical address
    behind it.  [tracker] is that array (its live prefix, as a list) with the
    two scalars the operations update.  The operations are translated one by
    one; the section after them gives the abstract view [view t a], the
    attributes the tracker records for one address, against which the
    operations are specified. *)

From S2P Require Import Prelude.

(** ** Constants *)

Definition GUEST_MAX_REGIONS : nat := Z.to_nat 4096.
Definition REGION_NAME_SIZE : nat := 64.

Definition LINUX_PROT_NONE : Z := 0.
Definition LINUX_PROT_READ : Z := 1.
Definition LINUX_PROT_WRITE : Z := 2.
Definition LINUX_PROT_EXEC : Z := 4.
Definition LINUX_MAP_SHARED : Z := 1.
Definition LINUX_MAP_PRIVATE : Z := 2.
Definition LINUX_MAP_FIXED : Z := 16.
Definition LINUX_MAP_ANONYMOUS : Z := 32.
Definition LINUX_MAP_NORESERVE : Z := 16384.

(** ** The host interface the tracker calls

    [dup] and [close] act on the host process's descriptor table, [sysconf]
    reports the host page size.  They are not elfuse code: the tracker is a
    client of this class. *)

Class HostEnv (H : Type) := {
  host_dup : H -> Z -> Z * H;
  host_close : H -> Z -> H;
  sysconf_pagesize : Z
}.

(** ** Data *)

Record guest_region_t := mk_region {
  r_start : Z;
  r_end : Z;
  r_gpa_base : Z;
  r_vma_id : Z;
  r_prot : Z;
  r_flags : Z;
  r_offset : Z;
  r_backing_fd : Z;
  r_shared : bool;
  r_noreserve : bool;
  r_backing_ro : bool;
  r_inherited_at_fork : bool;
  r_overlay_active : bool;
  r_overlay_start : Z;
  r_overlay_end : Z;
  r_name : string
}.

Definition set_end (e : Z) (r : guest_region_t) : guest_region_t :=
  mk_region (r_start r) e (r_gpa_base r) (r_vma_id r) (r_prot r) (r_flags r)
    (r_offset r) (r_backing_fd r) (r_shared r) (r_noreserve r) (r_backing_ro r)
    (r_inherited_at_fork r) (r_overlay_active r) (r_overlay_start r)
    (r_overlay_end r) (r_name r).

Definition set_prot_field (p : Z) (r : guest_region_t) : guest_region_t :=
  mk_region (r_start r) (r_end r) (r_gpa_base r) (r_vma_id r) p (r_flags r)
    (r_offset r) (r_backing_fd r) (r_shared r) (r_noreserve r) (r_backing_ro r)
    (r_inherited_at_fork r) (r_overlay_active r) (r_overlay_start r)
    (r_overlay_end r) (r_name r).

Definition set_vma_id (v : Z) (r : guest_region_t) : guest_region_t :=
  mk_region (r_start r) (r_end r) (r_gpa_base r) v (r_prot r) (r_flags r)
    (r_offset r) (r_backing_fd r) (r_shared r) (r_noreserve r) (r_backing_ro r)
    (r_inherited_at_fork r) (r_overlay_active r) (r_overlay_start r)
    (r_overlay_end r) (r_name r).

Definition set_backing_fd (fd : Z) (r : guest_region_t) : guest_region_t :=
  mk_region (r_start r) (r_end r) (r_gpa_base r) (r_vma_id r) (r_prot r) (r_flags r)
    (r_offset r) fd (r_shared r) (r_noreserve r) (r_backing_ro r)
    (r_inherited_at_fork r) (r_overlay_active r) (r_overlay_start r)
    (r_overlay_end r) (r_name r).

Definition set_overlay (act : bool) (s e : Z) (r : guest_region_t) : guest_region_t :=
  mk_region (r_start r) (r_end r) (r_gpa_base r) (r_vma_id r) (r_prot r) (r_flags r)
    (r_offset r) (r_backing_fd r) (r_shared r) (r_noreserve r) (r_backing_ro r)
    (r_inherited_at_fork r) act s e (r_name r).

(** Move the start of a region up to [b]: offset and backing GPA advance by the
    trimmed length. *)
Definition advance_start (b : Z) (r : guest_region_t) : guest_region_t :=
  let trimmed := (b - r_start r)%u64 in
  mk_region b (r_end r) (r_gpa_base r + trimmed)%u64 (r_vma_id r) (r_prot r)
    (r_flags r) (r_offset r + trimmed)%u64 (r_backing_fd r) (r_shared r)
    (r_noreserve r) (r_backing_ro r) (r_inherited_at_fork r) (r_overlay_active r)
    (r_overlay_start r) (r_overlay_end r) (r_name r).

Record tracker (H : Type) := mk_tracker {
  regions : list guest_region_t;
  next_vma_id : Z;
  regions_tracker_stale : bool;
  host : H
}.
Arguments mk_tracker {H} _ _ _ _.
Arguments regions {H} _.
Arguments next_vma_id {H} _.
Arguments regions_tracker_stale {H} _.
Arguments host {H} _.

Definition nregions {H} (g : tracker H) : nat := length (regions g).

Definition with_regions {H} (l : list guest_region_t) (g : tracker H) : tracker H :=
  mk_tracker l (next_vma_id g) (regions_tracker_stale g) (host g).

(** ** Searches *)

(** The half-open binary search both bound functions run: [lo] moves past
    [mid] while [p mid] holds. *)
Fixpoint bsearch_loop (p : nat -> bool) (fuel lo hi : nat) : nat :=
  match fuel with
  | O => lo
  | S fuel' =>
      if (lo <? hi)%nat then
        let mid := (lo + (hi - lo) / 2)%nat in
        if p mid then bsearch_loop p fuel' (mid + 1) hi
        else bsearch_loop p fuel' lo mid
      else lo
  end.

Definition region_lower_bound_start (l : list guest_region_t) (start : Z) : nat :=
  bsearch_loop (fun i => match l !! i with Some r => r_start r <? start | None => false end)
    (length l) 0 (length l).

Definition guest_region_first_end_above (l : list guest_region_t) (addr : Z) : nat :=
  bsearch_loop (fun i => match l !! i with Some r => r_end r <=? addr | None => false end)
    (length l) 0 (length l).

Fixpoint region_find_loop (l : list guest_region_t) (addr : Z) (fuel : nat) (lo hi : Z)
    : option guest_region_t :=
  match fuel with
  | O => None
  | S fuel' =>
      if lo <=? hi then
        let mid := (lo + hi) / 2 in
        match l !! Z.to_nat mid with
        | None => None
        | Some r =>
            if addr <? r_start r then region_find_loop l addr fuel' lo (mid - 1)
            else if r_end r <=? addr then region_find_loop l addr fuel' (mid + 1) hi
            else Some r
        end
      else None
  end.

Definition guest_region_find (l : list guest_region_t) (addr : Z) : option guest_region_t :=
  region_find_loop l addr (S (length l)) 0 (Z.of_nat (length l) - 1).

(** ** Merging *)

Definition guest_region_clear_overlay (r : guest_region_t) : guest_region_t :=
  set_overlay false 0 0 r.

Definition regions_mergeable_layout (a b : guest_region_t) : bool :=
  if negb (r_end a =? r_start b) then false
  else if negb ((r_gpa_base a + (r_end a - r_start a))%u64 =? r_gpa_base b) then false
  else if negb (r_prot a =? r_prot b) then false
  else if negb (r_flags a =? r_flags b) then false
  else if negb (r_backing_fd a =? r_backing_fd b) then false
  else if negb (eqb (r_noreserve a) (r_noreserve b)) then false
  else if negb (eqb (r_backing_ro a) (r_backing_ro b)) then false
  else if negb (eqb (r_inherited_at_fork a) (r_inherited_at_fork b)) then false
  else if r_overlay_active a || r_overlay_active b then false
  else if negb (bool_decide (r_name a = r_name b)) then false
  else if has (r_flags a) LINUX_MAP_ANONYMOUS && has (r_flags b) LINUX_MAP_ANONYMOUS then true
  else (r_offset a + (r_end a - r_start a))%u64 =? r_offset b.

Definition regions_mergeable (a b : guest_region_t) : bool :=
  (r_vma_id a =? r_vma_id b) && regions_mergeable_layout a b.

(** Merge the region at index [i] with its right neighbour. *)
Definition try_merge_right (l : list guest_region_t) (i : nat) : list guest_region_t :=
  if (length l <=? i + 1)%nat then l
  else
    match l !! i, l !! (i + 1)%nat with
    | Some a, Some b =>
        if regions_mergeable a b then take i l ++ set_end (r_end b) a :: drop (i + 2) l
        else l
    | _, _ => l
    end.

(** Merge the region at index [i] with its left neighbour. *)
Definition try_merge_left (l : list guest_region_t) (i : nat) : list guest_region_t :=
  if (i =? 0)%nat || (length l <=? i)%nat then l
  else
    match l !! (i - 1)%nat, l !! i with
    | Some a, Some b =>
        if regions_mergeable a b then take (i - 1) l ++ set_end (r_end b) a :: drop (i + 1) l
        else l
    | _, _ => l
    end.

Section Tracker.
Context {H : Type} `{HostEnv H}.

Definition guest_host_page_size_cached : Z :=
  if 0 <? sysconf_pagesize then sysconf_pagesize else GUEST_PAGE_SIZE.

Definition guest_region_clip_overlay (r : guest_region_t) : guest_region_t :=
  if negb (r_overlay_active r) || (r_end r <=? r_start r) then guest_region_clear_overlay r
  else
    let hps := guest_host_page_size_cached in
    let page_start := ALIGN_DOWN (r_start r) hps in
    let page_end := ALIGN_UP (r_end r) hps in
    let overlay_start :=
      if page_start <? r_overlay_start r then r_overlay_start r else page_start in
    let overlay_end :=
      if r_overlay_end r <? page_end then r_overlay_end r else page_end in
    if overlay_end <=? overlay_start then guest_region_clear_overlay r
    else set_overlay true overlay_start overlay_end r.

(** ** Insertion *)

Definition str_copy_trunc (src : string) (dst_size : nat) : string :=
  if (String.length src <? dst_size)%nat then src
  else String.substring 0 (dst_size - 1) src.

Definition close_owned (h : H) (fd : Z) : H := if 0 <=? fd then host_close h fd else h.

Definition guest_region_add_ex_owned_gpa (g : tracker H) (start end_ gpa_base prot flags offset : Z)
    (name : option string) (owned_backing_fd : Z) (inherited_at_fork : bool) (vma_id : Z)
    : Z * tracker H :=
  if (GUEST_MAX_REGIONS <=? nregions g)%nat then
    (-1, mk_tracker (regions g) (next_vma_id g) (regions_tracker_stale g)
           (close_owned (host g) owned_backing_fd))
  else
    let new_vma := vma_id =? 0 in
    let '(vma_id, next) :=
      if new_vma then ((next_vma_id g + 1)%u64, (next_vma_id g + 1)%u64)
      else (vma_id, if next_vma_id g <? vma_id then vma_id else next_vma_id g) in
    let i := region_lower_bound_start (regions g) start in
    let r := mk_region start end_ gpa_base vma_id prot flags offset owned_backing_fd
               (has flags LINUX_MAP_SHARED) (has flags LINUX_MAP_NORESERVE) false
               inherited_at_fork false 0 0
               (match name with Some n => str_copy_trunc n REGION_NAME_SIZE | None => "" end) in
    let lft := if (i =? 0)%nat then None else regions g !! (i - 1)%nat in
    let rgt := regions g !! i in
    let r :=
      if new_vma then
        match lft with
        | Some a =>
            if regions_mergeable_layout a r then set_vma_id (r_vma_id a) r
            else match rgt with
                 | Some b => if regions_mergeable_layout r b then set_vma_id (r_vma_id b) r else r
                 | None => r
                 end
        | None =>
            match rgt with
            | Some b => if regions_mergeable_layout r b then set_vma_id (r_vma_id b) r else r
            | None => r
            end
        end
      else r in
    let l := take i (regions g) ++ r :: drop i (regions g) in
    let l := try_merge_right l i in
    let l := try_merge_left l i in
    (0, mk_tracker l next (regions_tracker_stale g) (host g)).

(** The duplicate of a backing descriptor an insertion owns: [None] when the
    host's [dup] failed. *)
Definition dup_backing (h : H) (fd : Z) : option (Z * H) :=
  if 0 <=? fd then
    let '(nfd, h') := host_dup h fd in
    if nfd <? 0 then None else Some (nfd, h')
  else Some (-1, h).

Definition dup_backing_host (h : H) (fd : Z) : H :=
  if 0 <=? fd then snd (host_dup h fd) else h.

Definition guest_region_add_ex_gpa (g : tracker H) (start end_ gpa_base prot flags offset : Z)
    (name : option string) (backing_fd : Z) : Z * tracker H :=
  match dup_backing (host g) backing_fd with
  | None =>
      (-1, mk_tracker (regions g) (next_vma_id g) (regions_tracker_stale g)
             (dup_backing_host (host g) backing_fd))
  | Some (fd, h) =>
      guest_region_add_ex_owned_gpa
        (mk_tracker (regions g) (next_vma_id g) (regions_tracker_stale g) h)
        start end_ gpa_base prot flags offset name fd false 0
  end.

Definition guest_region_add_ex (g : tracker H) (start end_ prot flags offset : Z)
    (name : option string) (backing_fd : Z) : Z * tracker H :=
  guest_region_add_ex_gpa g start end_ start prot flags offset name backing_fd.

Definition guest_region_add (g : tracker H) (start end_ prot flags offset : Z)
    (name : option string) : Z * tracker H :=
  guest_region_add_ex g start end_ prot flags offset name (-1).

Definition guest_region_add_ex_owned (g : tracker H) (start end_ prot flags offset : Z)
    (name : option string) (owned_backing_fd : Z) (inherited_at_fork : bool) (vma_id : Z)
    : Z * tracker H :=
  guest_region_add_ex_owned_gpa g start end_ start prot flags offset name
    owned_backing_fd inherited_at_fork vma_id.

Definition guest_reseed_next_vma_id (g : tracker H) : tracker H :=
  mk_tracker (regions g)
    (fold_left (fun max_id r => if max_id <? r_vma_id r then r_vma_id r else max_id)
       (regions g) (next_vma_id g))
    (regions_tracker_stale g) (host g).

(** ** Removal *)

(** The scan of [guest_region_remove_prepare] over the regions from [first]
    on: the region an interior split would cut, if there is one. *)
Fixpoint remove_split_source (start end_ : Z) (l : list guest_region_t) : option guest_region_t :=
  match l with
  | [] => None
  | r :: l' =>
      if end_ <=? r_start r then None
      else if (r_start r <? start) && (end_ <? r_end r) then Some r
      else remove_split_source start end_ l'
  end.

(** Result code, reserved descriptor and state. *)
Definition guest_region_remove_prepare (g : tracker H) (start end_ : Z) : Z * Z * tracker H :=
  if end_ <=? start then (0, -1, g)
  else
    let first := guest_region_first_end_above (regions g) start in
    match remove_split_source start end_ (drop first (regions g)) with
    | None => (0, -1, g)
    | Some r =>
        if (GUEST_MAX_REGIONS <=? nregions g)%nat || (r_backing_fd r <? 0) then (0, -1, g)
        else
          let '(fd, h) := host_dup (host g) (r_backing_fd r) in
          (if 0 <=? fd then 0 else -1, fd,
           mk_tracker (regions g) (next_vma_id g) (regions_tracker_stale g) h)
    end.

(** The compaction loop of [guest_region_remove_reserved], over the regions
    from [first] on.  [full] is the table-full test, constant during the loop.
    Returns the rewritten suffix, the stale mark, the reserved descriptor (-1
    once an interior split took it) and the host. *)
Fixpoint remove_loop (full : bool) (start end_ : Z) (l : list guest_region_t)
    (stale : bool) (fd : Z) (h : H) : list guest_region_t * bool * Z * H :=
  match l with
  | [] => ([], stale, fd, h)
  | r :: l' =>
      if end_ <=? r_start r then (l, stale, fd, h)
      else
        let keep_left := r_start r <? start in
        let keep_right := end_ <? r_end r in
        if keep_left && keep_right && negb full then
          let lft := guest_region_clip_overlay (set_end start r) in
          let rgt := advance_start end_ r in
          let '(rgt, fd) :=
            if 0 <=? r_backing_fd r then (set_backing_fd fd rgt, -1) else (rgt, fd) in
          (lft :: guest_region_clip_overlay rgt :: l', stale, fd, h)
        else
          let stale := stale || (keep_left && keep_right) in
          let keep_right := keep_right && negb keep_left in
          if negb keep_left && negb keep_right then
            remove_loop full start end_ l' stale fd (close_owned h (r_backing_fd r))
          else
            let survivor := if keep_left then set_end start r else advance_start end_ r in
            let '(out, stale, fd, h) := remove_loop full start end_ l' stale fd h in
            (guest_region_clip_overlay survivor :: out, stale, fd, h)
  end.

Definition guest_region_remove_reserved (g : tracker H) (start end_ reserved_backing_fd : Z)
    : Z * tracker H :=
  if end_ <=? start then
    (0, mk_tracker (regions g) (next_vma_id g) (regions_tracker_stale g)
          (close_owned (host g) reserved_backing_fd))
  else
    let first := guest_region_first_end_above (regions g) start in
    let full := (GUEST_MAX_REGIONS <=? nregions g)%nat in
    let '(out, stale, fd, h) :=
      remove_loop full start end_ (drop first (regions g)) (regions_tracker_stale g)
        reserved_backing_fd (host g) in
    (0, mk_tracker (take first (regions g) ++ out) (next_vma_id g) stale (close_owned h fd)).

Definition guest_region_remove (g : tracker H) (start end_ : Z) : Z * tracker H :=
  let '(rc, fd, g) := guest_region_remove_prepare g start end_ in
  if rc <? 0 then (-1, g) else guest_region_remove_reserved g start end_ fd.

Definition guest_region_add_elf_segment (g : tracker H) (start end_ gpa_base prot offset : Z)
    (name : option string) : Z * tracker H :=
  let lead := Z.land start (GUEST_PAGE_SIZE - 1) in
  let start := (start - lead)%u64 in
  let end_ := PAGE_ALIGN_UP end_ in
  let '(rc, g) := guest_region_remove g start end_ in
  if rc <? 0 then (-1, g)
  else
    guest_region_add_ex_gpa g start end_ (gpa_base - lead)%u64 prot LINUX_MAP_PRIVATE
      (if lead <=? offset then offset - lead else 0) name (-1).

(** ** Range queries *)

(** The three range predicates walk the regions from [first] while they start
    below [end_]. *)
Fixpoint range_walk (end_ : Z) (p : guest_region_t -> bool) (l : list guest_region_t) : bool :=
  match l with
  | [] => true
  | r :: l' => if end_ <=? r_start r then true else if p r then range_walk end_ p l' else false
  end.

Definition guest_region_range_prot_uniform (l : list guest_region_t) (start end_ prot : Z) : bool :=
  range_walk end_ (fun r => r_prot r =? prot)
    (drop (guest_region_first_end_above l start) l).

Definition guest_region_range_has_noreserve (l : list guest_region_t) (start end_ : Z) : bool :=
  negb (range_walk end_ (fun r => negb (r_noreserve r))
          (drop (guest_region_first_end_above l start) l)).

Definition guest_region_range_has_ro_shared_backing (l : list guest_region_t) (start end_ : Z) : bool :=
  negb (range_walk end_ (fun r => negb (r_shared r && r_backing_ro r))
          (drop (guest_region_first_end_above l start) l)).

(** ** Protection changes *)

(** The right half of a split at [b]: it takes a duplicate of the backing
    descriptor. *)
Definition split_right (b : Z) (r : guest_region_t) (h : H) : guest_region_t * H :=
  let r' := advance_start b r in
  if 0 <=? r_backing_fd r then
    let '(fd, h') := host_dup h (r_backing_fd r) in
    (guest_region_clip_overlay (set_backing_fd fd r'), h')
  else (guest_region_clip_overlay r', h).

Definition mark_modified (first : option nat) (i : nat) : option nat :=
  match first with Some f => Some f | None => Some i end.

(** The walk of [guest_region_set_prot]: [pre] is the array up to the current
    index (so the index is [length pre]), [l] the rest, [first]/[last] the
    modified index range.  Returns the rewritten array. *)
Fixpoint set_prot_loop (start end_ prot : Z) (pre l : list guest_region_t)
    (first last : option nat) (stale : bool) (h : H)
    : list guest_region_t * option nat * option nat * bool * H :=
  match l with
  | [] => (pre, first, last, stale, h)
  | r :: l' =>
      if end_ <=? r_start r then (pre ++ l, first, last, stale, h)
      else
        let full := (GUEST_MAX_REGIONS <=? length pre + length l)%nat in
        if (r_start r <? start) && full then
          set_prot_loop start end_ prot (pre ++ [r]) l' first last true h
        else
          (* split at start; continue with the right half *)
          let '(pre, r, h) :=
            if r_start r <? start then
              let '(r', h) := split_right start r h in
              (pre ++ [guest_region_clip_overlay (set_end start r)], r', h)
            else (pre, r, h) in
          let i := length pre in
          let full := (GUEST_MAX_REGIONS <=? length pre + S (length l'))%nat in
          if end_ <? r_end r then
            if full then
              set_prot_loop start end_ prot (pre ++ [set_prot_field prot r]) l'
                (mark_modified first i) (Some i) true h
            else
              let '(r', h) := split_right end_ r h in
              (pre ++ guest_region_clip_overlay (set_prot_field prot (set_end end_ r)) :: r' :: l',
               mark_modified first i, Some i, stale, h)
          else
            set_prot_loop start end_ prot (pre ++ [set_prot_field prot r]) l'
              (mark_modified first i) (Some i) stale h
  end.

(** [for (i = last; i > first; i--) try_merge_left(g, i)] *)
Fixpoint merge_left_down (first : nat) (n : nat) (l : list guest_region_t) : list guest_region_t :=
  match n with
  | O => l
  | S n' => merge_left_down first n' (try_merge_left l (first + n))
  end.

Definition guest_region_set_prot (g : tracker H) (start end_ prot : Z) : tracker H :=
  let first := guest_region_first_end_above (regions g) start in
  let '(l, fm, lm, stale, h) :=
    set_prot_loop start end_ prot (take first (regions g)) (drop first (regions g))
      None None (regions_tracker_stale g) (host g) in
  let l :=
    match fm, lm with
    | Some f, Some la =>
        let l := try_merge_right l la in
        let l := merge_left_down f (la - f) l in
        try_merge_left l f
    | _, _ => l
    end in
  mk_tracker l (next_vma_id g) stale h.

Definition guest_region_clear (g : tracker H) : tracker H :=
  mk_tracker [] (next_vma_id g) false
    (fold_left (fun h r => close_owned h (r_backing_fd r)) (regions g) (host g)).

End Tracker.
