(* ===== verification/RegionFacts.v ===== *)
(** * Correctness of the region tracker

    The abstract view of a tracker is a partial function from addresses to
    attributes ([view]).  The invariant [list_ok] is the array's documented one:
    sorted by start, no overlap, no empty region.  The theorems relate every
    operation of [Regions] to a point-wise update of the view. *)

From S2P Require Import Prelude Regions.

(** ** The invariant and the view *)

Record attrs := mk_attrs {
  a_gpa : Z; a_vma_id : Z; a_prot : Z; a_flags : Z; a_file_off : Z;
  a_shared : bool; a_noreserve : bool; a_backing_ro : bool; a_inherited : bool;
  a_overlay : bool; a_name : string
}.

Definition set_a_prot (p : Z) (x : attrs) : attrs :=
  mk_attrs (a_gpa x) (a_vma_id x) p (a_flags x) (a_file_off x) (a_shared x)
    (a_noreserve x) (a_backing_ro x) (a_inherited x) (a_overlay x) (a_name x).

(** What the region [r] says about the address [a] inside it.  An anonymous
    region has no file offset. *)
Definition attr_at (r : guest_region_t) (a : Z) : attrs :=
  mk_attrs (r_gpa_base r + (a - r_start r))%u64 (r_vma_id r) (r_prot r) (r_flags r)
    (if has (r_flags r) LINUX_MAP_ANONYMOUS then 0 else (r_offset r + (a - r_start r))%u64)
    (r_shared r) (r_noreserve r) (r_backing_ro r) (r_inherited_at_fork r)
    (r_overlay_active r && (r_overlay_start r <=? a) && (a <? r_overlay_end r)) (r_name r).

Definition in_region (a : Z) (r : guest_region_t) : bool := (r_start r <=? a) && (a <? r_end r).

Fixpoint region_at (l : list guest_region_t) (a : Z) : option guest_region_t :=
  match l with
  | [] => None
  | r :: l' => if in_region a r then Some r else region_at l' a
  end.

Definition view (l : list guest_region_t) (a : Z) : option attrs :=
  match region_at l a with Some r => Some (attr_at r a) | None => None end.

(** [chain lo l]: the regions of [l] are non-empty, start at or above [lo] and
    follow each other without overlap. *)
Fixpoint chain (lo : Z) (l : list guest_region_t) : Prop :=
  match l with
  | [] => True
  | r :: l' => lo <= r_start r /\ r_start r < r_end r /\ chain (r_end r) l'
  end.

Fixpoint last_end (lo : Z) (l : list guest_region_t) : Z :=
  match l with [] => lo | r :: l' => last_end (r_end r) l' end.

(** ** Lists of regions *)

Lemma chain_weaken lo lo' l : lo' <= lo -> chain lo l -> chain lo' l.
Proof. destruct l; simpl; intuition lia. Qed.

Lemma chain_app lo l1 l2 : chain lo (l1 ++ l2) <-> chain lo l1 /\ chain (last_end lo l1) l2.
Proof. revert lo. induction l1; intros; simpl; [tauto|]. rewrite IHl1. tauto. Qed.

Lemma chain_last_end lo l : chain lo l -> lo <= last_end lo l.
Proof.
  revert lo. induction l as [|r l IH]; intros lo; simpl; [lia|].
  intros (?&?&Hc). apply IH in Hc. lia.
Qed.

Lemma chain_bounds lo l r : chain lo l -> r ∈ l -> lo <= r_start r /\ r_start r < r_end r <= last_end lo l.
Proof.
  revert lo. induction l as [|x l IH]; intros lo; simpl; [by intros _ ?%elem_of_nil|].
  intros (?&?&Hc) [->|Hin]%elem_of_cons.
  - apply chain_last_end in Hc. lia.
  - apply IH in Hc as [? ?]; [lia|done].
Qed.

Lemma chain_lookup lo l i j x y :
  chain lo l -> (i < j)%nat -> l !! i = Some x -> l !! j = Some y -> r_end x <= r_start y.
Proof.
  revert lo i j. induction l as [|r l IH]; intros lo i j; [done|]. simpl.
  intros (?&?&Hc) Hij Hx Hy. destruct i, j; simpl in *; try lia; simplify_eq.
  - apply list_elem_of_lookup_2 in Hy. apply (chain_bounds _ _ _ Hc) in Hy. lia.
  - eapply IH; [done| |done|done]. lia.
Qed.

Lemma region_at_app l1 l2 a :
  region_at (l1 ++ l2) a = match region_at l1 a with Some r => Some r | None => region_at l2 a end.
Proof. induction l1 as [|r l1 IH]; simpl; [done|]. by destruct (in_region a r). Qed.

Lemma view_app l1 l2 a :
  view (l1 ++ l2) a = match view l1 a with Some x => Some x | None => view l2 a end.
Proof. unfold view. rewrite region_at_app. by destruct (region_at l1 a). Qed.

Lemma view_cons r l a : view (r :: l) a = if in_region a r then Some (attr_at r a) else view l a.
Proof. unfold view. simpl. by destruct (in_region a r). Qed.

Lemma region_at_Some l a r : region_at l a = Some r -> r ∈ l /\ in_region a r = true.
Proof.
  induction l as [|x l IH]; simpl; [done|]. case_match eqn:E.
  - intros [= ->]. split; [constructor|done].
  - intros [? ?]%IH. split; [by constructor|done].
Qed.

Lemma view_below lo l a : chain lo l -> a < lo -> view l a = None.
Proof.
  revert lo. induction l as [|r l IH]; intros lo; simpl; [done|].
  intros (?&?&Hc) Ha. rewrite view_cons. unfold in_region.
  replace (r_start r <=? a) with false by (symmetry; apply Z.leb_gt; lia). simpl.
  eapply IH; [done|lia].
Qed.

Lemma view_above l a : Forall (fun r => r_end r <= a) l -> view l a = None.
Proof.
  induction 1 as [|r l Hr _ IH]; [done|]. rewrite view_cons. unfold in_region.
  replace (a <? r_end r) with false by (symmetry; apply Z.ltb_ge; lia).
  by rewrite andb_false_r.
Qed.

Lemma region_at_lookup lo l i r a :
  chain lo l -> l !! i = Some r -> in_region a r = true -> region_at l a = Some r.
Proof.
  revert lo i. induction l as [|x l IH]; intros lo i; [done|]. simpl.
  intros (?&?&Hc) Hi Hin. destruct i as [|i]; simpl in Hi; simplify_eq; [by rewrite Hin|].
  assert (r_end x <= r_start r) as Hle.
  { apply list_elem_of_lookup_2 in Hi. apply (chain_bounds _ _ _ Hc) in Hi. lia. }
  unfold in_region in *. unbool.
  replace (a <? r_end x) with false by (symmetry; apply Z.ltb_ge; lia).
  rewrite andb_false_r. eapply IH; [done..|]. unfold in_region. by apply andb_true_intro; split; [apply Z.leb_le|apply Z.ltb_lt].
Qed.

(** ** Binary search *)

Section Bsearch.
Context (p : nat -> bool) (n : nat).
Hypothesis p_mono : forall i j, (i < j < n)%nat -> p j = true -> p i = true.

Lemma bsearch_loop_spec fuel lo hi :
  (hi - lo <= fuel)%nat -> (lo <= hi <= n)%nat ->
  (forall i, (i < lo)%nat -> p i = true) ->
  (forall i, (hi <= i < n)%nat -> p i = false) ->
  let r := bsearch_loop p fuel lo hi in
  (lo <= r <= hi)%nat /\ (forall i, (i < r)%nat -> p i = true) /\
  (forall i, (r <= i < n)%nat -> p i = false).
Proof.
  revert lo hi. induction fuel as [|fuel IH]; intros lo hi Hf Hb Hlo Hhi;
    cbn [bsearch_loop].
  { split_and!; [lia|lia|done|]. intros. apply Hhi. lia. }
  destruct (Nat.ltb_spec lo hi) as [Hlt|Hge].
  2:{ split_and!; [lia|lia|done|]. intros. apply Hhi. lia. }
  assert (Hm : (lo <= lo + (hi - lo) / 2 < hi)%nat).
  { split; [lia|]. pose proof (Nat.div_lt (hi - lo) 2). lia. }
  set (mid := (lo + (hi - lo) / 2)%nat) in *. clearbody mid.
  destruct (p mid) eqn:Hp.
  - destruct (IH (mid + 1)%nat hi) as (?&?&?); [lia|lia| |done|split_and!; [lia|lia|done|done]].
    intros i Hi. destruct (decide (i = mid)) as [->|]; [done|]. apply (p_mono i mid); [lia|done].
  - destruct (IH lo mid) as (?&?&?); [lia|lia|done| |split_and!; [lia|lia|done|done]].
    intros i Hi. destruct (p i) eqn:Hpi; [|done].
    destruct (decide (i = mid)) as [->|]; [congruence|].
    by rewrite (p_mono mid i) in Hp by (lia || done).
Qed.

End Bsearch.

(** The index found splits the array into the regions that satisfy the test
    and those that do not. *)
Lemma bsearch_split (l : list guest_region_t) (q : guest_region_t -> bool) :
  (forall i j x y, (i < j)%nat -> l !! i = Some x -> l !! j = Some y -> q y = true -> q x = true) ->
  let i := bsearch_loop (fun i => match l !! i with Some r => q r | None => false end)
             (length l) 0 (length l) in
  (i <= length l)%nat /\ Forall (fun r => q r = true) (take i l) /\
  Forall (fun r => q r = false) (drop i l).
Proof.
  intros Hmono i.
  destruct (bsearch_loop_spec (fun i => match l !! i with Some r => q r | None => false end)
              (length l)) with (fuel := length l) (lo := 0%nat) (hi := length l)
    as (Hb & Ht & Hf); [|lia|lia|lia|lia|].
  { intros j k Hjk Hk.
    destruct (lookup_lt_is_Some_2 l j) as [x Hx]; [lia|].
    destruct (l !! k) as [y|] eqn:Hy; [|done]. rewrite Hx. by eapply Hmono; [|exact Hx|exact Hy|]; [lia|]. }
  fold i in Hb, Ht, Hf. split_and!; [lia| |]; apply Forall_lookup; intros j x Hx.
  - apply lookup_take_Some in Hx as [Hx ?]. specialize (Ht j). rewrite Hx in Ht. by apply Ht.
  - rewrite lookup_drop in Hx. specialize (Hf (i + j)%nat). rewrite Hx in Hf. apply Hf.
    apply lookup_lt_Some in Hx. lia.
Qed.

Lemma first_end_above_split lo l a :
  chain lo l ->
  let i := guest_region_first_end_above l a in
  (i <= length l)%nat /\ Forall (fun r => r_end r <= a) (take i l) /\
  Forall (fun r => a < r_end r) (drop i l).
Proof.
  intros Hc i. subst i. unfold guest_region_first_end_above.
  destruct (bsearch_split l (fun r => r_end r <=? a)) as (?&?&?).
  { intros i j x y Hij Hx Hy. pose proof (chain_lookup _ _ _ _ _ _ Hc Hij Hx Hy).
    apply list_elem_of_lookup_2 in Hy. apply (chain_bounds _ _ _ Hc) in Hy.
    rewrite !Z.leb_le. lia. }
  split_and!; [done| |]; (eapply Forall_impl; [|eassumption]); intros x Hx; simpl in Hx; unbool; lia.
Qed.

Lemma lower_bound_split lo l s :
  chain lo l ->
  let i := region_lower_bound_start l s in
  (i <= length l)%nat /\ Forall (fun r => r_start r < s) (take i l) /\
  Forall (fun r => s <= r_start r) (drop i l).
Proof.
  intros Hc i. subst i. unfold region_lower_bound_start.
  destruct (bsearch_split l (fun r => r_start r <? s)) as (?&?&?).
  { intros i j x y Hij Hx Hy. pose proof (chain_lookup _ _ _ _ _ _ Hc Hij Hx Hy).
    apply list_elem_of_lookup_2 in Hx. apply (chain_bounds _ _ _ Hc) in Hx.
    rewrite !Z.ltb_lt. lia. }
  split_and!; [done| |]; (eapply Forall_impl; [|eassumption]); intros x Hx; simpl in Hx; unbool; lia.
Qed.

Lemma region_find_loop_spec lo0 l a fuel lo hi :
  chain lo0 l ->
  0 <= lo -> hi < Z.of_nat (length l) -> lo - 1 <= hi -> hi - lo + 2 <= Z.of_nat fuel ->
  (forall i r, l !! i = Some r -> Z.of_nat i < lo -> r_end r <= a) ->
  (forall i r, l !! i = Some r -> hi < Z.of_nat i -> a < r_start r) ->
  region_find_loop l a fuel lo hi = region_at l a.
Proof.
  intros Hc. revert lo hi. induction fuel as [|fuel IH]; [intros; lia|].
  intros lo hi Hlo Hhi Hlh Hf Hbelow Habove. cbn [region_find_loop].
  destruct (Z.leb_spec lo hi) as [Hle|Hgt].
  2:{ destruct (region_at l a) as [r|] eqn:Hr; [|done].
      apply region_at_Some in Hr as [[i Hi]%list_elem_of_lookup_1 Hin]. unfold in_region in Hin. unbool.
      destruct (decide (Z.of_nat i < lo)) as [Hil|Hil];
        [apply (Hbelow _ _ Hi) in Hil|apply (Habove i r) in Hi]; lia. }
  assert (lo <= (lo + hi) / 2 <= hi) as Hm by zdm. set (mid := (lo + hi) / 2) in *. clearbody mid.
  destruct (l !! Z.to_nat mid) as [r|] eqn:Hr.
  2:{ apply lookup_ge_None in Hr. lia. }
  destruct (Z.ltb_spec a (r_start r)) as [Ha|Ha];
    [|destruct (Z.leb_spec (r_end r) a) as [Ha2|Ha2]].
  - apply IH; try lia; [exact Hbelow|].
    intros i x Hi Hmi. destruct (decide (i = Z.to_nat mid)) as [->|]; [by simplify_eq|].
    pose proof (chain_lookup _ _ (Z.to_nat mid) i _ _ Hc ltac:(lia) Hr Hi).
    apply list_elem_of_lookup_2 in Hr. apply (chain_bounds _ _ _ Hc) in Hr. lia.
  - apply IH; try lia; [|exact Habove].
    intros i x Hi Hmi. destruct (decide (i = Z.to_nat mid)) as [->|]; [by simplify_eq|].
    pose proof (chain_lookup _ _ i (Z.to_nat mid) _ _ Hc ltac:(lia) Hi Hr). lia.
  - symmetry. eapply region_at_lookup; [done..|]. unfold in_region.
    apply andb_true_intro; split; [apply Z.leb_le|apply Z.ltb_lt]; lia.
Qed.

Lemma guest_region_find_at lo l a : chain lo l -> guest_region_find l a = region_at l a.
Proof.
  intros Hc. unfold guest_region_find. eapply region_find_loop_spec; try done; try lia.
  intros i r ?%lookup_lt_Some. lia.
Qed.

(** ** Well-formed regions *)

(** Regions stay clear of the very top of the address space, so that rounding
    an end up to a host page does not wrap, and [r_shared] mirrors the flag. *)
Definition VA_TOP : Z := two64 - 2 ^ 32.

Definition region_ok (r : guest_region_t) : Prop :=
  0 <= r_start r /\ r_end r <= VA_TOP /\ r_shared r = has (r_flags r) LINUX_MAP_SHARED.

Definition list_ok (l : list guest_region_t) : Prop := chain 0 l /\ Forall region_ok l.

Definition tracker_wf {H} (g : tracker H) : Prop :=
  list_ok (regions g) /\ (nregions g <= GUEST_MAX_REGIONS)%nat.

(** The host page size is a power of two. *)
Class HostPageOk (H : Type) `{HostEnv H} :=
  page_pow2 : exists k, 0 <= k <= 32 /\ guest_host_page_size_cached (H:=H) = 2 ^ k.

Lemma wrap_add_l x y : wrap64 (wrap64 x + y) = wrap64 (x + y).
Proof. apply Zplus_mod_idemp_l. Qed.
Lemma wrap_add_r x y : wrap64 (x + wrap64 y) = wrap64 (x + y).
Proof. apply Zplus_mod_idemp_r. Qed.

Lemma attr_set_end e r a : attr_at (set_end e r) a = attr_at r a.
Proof. done. Qed.
Lemma attr_set_fd fd r a : attr_at (set_backing_fd fd r) a = attr_at r a.
Proof. done. Qed.
Lemma attr_set_prot p r a : attr_at (set_prot_field p r) a = set_a_prot p (attr_at r a).
Proof. done. Qed.
Lemma attr_advance b r a : attr_at (advance_start b r) a = attr_at r a.
Proof.
  unfold attr_at, advance_start; simpl. f_equal; [|case_match; [done|]];
    unfold add64, sub64; rewrite wrap_add_l, <- Z.add_assoc, (Z.add_comm (wrap64 _)),
      Z.add_assoc, wrap_add_r; f_equal; lia.
Qed.

#[export] Hint Rewrite attr_set_end attr_set_fd attr_set_prot attr_advance : region.

Section Ops.
Context {H : Type} `{HostEnv H} `{!HostPageOk H}.

Lemma align_up_hps e :
  0 <= e <= VA_TOP -> e <= ALIGN_UP e (guest_host_page_size_cached (H:=H)).
Proof.
  destruct page_pow2 as (k & Hk & ->). unfold VA_TOP. intros He.
  assert (2 ^ k <= 2 ^ 32) by (apply Z.pow_le_mono_r; lia). assert (0 < 2 ^ k) by lia.
  rewrite align_up_pow2; [|lia|lia|unfold two64 in *; lia].
  pose proof (Z.mod_pos_bound (e + (2 ^ k - 1)) (2 ^ k)). lia.
Qed.

Lemma align_down_hps s :
  fits64 s -> ALIGN_DOWN s (guest_host_page_size_cached (H:=H)) <= s.
Proof.
  destruct page_pow2 as (k & Hk & ->). intros. assert (0 < 2 ^ k) by lia.
  rewrite align_down_pow2 by (done || lia).
  pose proof (Z.mod_pos_bound s (2 ^ k)). lia.
Qed.

Lemma clip_start r : r_start (guest_region_clip_overlay (H:=H) r) = r_start r.
Proof. unfold guest_region_clip_overlay. by repeat case_if. Qed.
Lemma clip_end r : r_end (guest_region_clip_overlay (H:=H) r) = r_end r.
Proof. unfold guest_region_clip_overlay. by repeat case_if. Qed.
Lemma clip_in r a : in_region a (guest_region_clip_overlay (H:=H) r) = in_region a r.
Proof. unfold in_region. by rewrite clip_start, clip_end. Qed.
Lemma clip_ok r : region_ok r -> region_ok (guest_region_clip_overlay (H:=H) r).
Proof.
  unfold region_ok. rewrite clip_start, clip_end.
  unfold guest_region_clip_overlay. by repeat case_if.
Qed.

(** Clipping an overlay to the host pages of its region loses no address of the
    region. *)
Lemma clip_attr r a :
  region_ok r -> in_region a r = true -> attr_at (guest_region_clip_overlay (H:=H) r) a = attr_at r a.
Proof.
  intros (Hs & He & _) Hin. unfold in_region in Hin. unbool.
  assert (fits64 (r_start r)) as Hfit by (unfold fits64, VA_TOP, two64 in *; lia).
  pose proof (align_down_hps (r_start r) Hfit). pose proof (align_up_hps (r_end r) ltac:(lia)).
  assert (forall x b1 b2 b3, b1 = b2 -> mk_attrs (a_gpa x) (a_vma_id x) (a_prot x) (a_flags x) (a_file_off x)
    (a_shared x) (a_noreserve x) (a_backing_ro x) (a_inherited x) b1 b3 = mk_attrs (a_gpa x) (a_vma_id x)
    (a_prot x) (a_flags x) (a_file_off x) (a_shared x) (a_noreserve x) (a_backing_ro x) (a_inherited x) b2 b3)
    as Hcong by (by intros; subst).
  unfold guest_region_clip_overlay, guest_region_clear_overlay.
  destruct (r_overlay_active r) eqn:Ea; simpl.
  2:{ apply (Hcong (attr_at r a)). simpl. by rewrite Ea. }
  destruct (Z.leb_spec (r_end r) (r_start r)); [lia|].
  set (ps := ALIGN_DOWN _ _) in *. set (pe := ALIGN_UP _ _) in *. clearbody ps pe.
  case_if; apply (Hcong (attr_at r a)); simpl; rewrite ?Ea; simpl; unbool.
  - symmetry. destruct (Z.leb_spec (r_overlay_start r) a), (Z.ltb_spec a (r_overlay_end r)); try done.
    exfalso. case_match; case_match; unbool; lia.
  - f_equal; apply eq_true_iff_eq; rewrite ?Z.leb_le, ?Z.ltb_lt; repeat case_match; unbool; lia.
Qed.

End Ops.

(** ** Merging *)

Lemma regions_mergeable_true a b :
  regions_mergeable a b = true ->
  r_end a = r_start b /\ r_gpa_base b = (r_gpa_base a + (r_end a - r_start a))%u64 /\
  r_prot a = r_prot b /\ r_flags a = r_flags b /\ r_backing_fd a = r_backing_fd b /\
  r_noreserve a = r_noreserve b /\
  r_backing_ro a = r_backing_ro b /\ r_inherited_at_fork a = r_inherited_at_fork b /\
  r_overlay_active a = false /\ r_overlay_active b = false /\ r_name a = r_name b /\
  r_vma_id a = r_vma_id b /\
  (has (r_flags a) LINUX_MAP_ANONYMOUS = false ->
   r_offset b = (r_offset a + (r_end a - r_start a))%u64).
Proof.
  unfold regions_mergeable, regions_mergeable_layout. intros Hm. unbool.
  repeat (case_match; unbool; try done); repeat match goal with
  | Hx : eqb _ _ = true |- _ => apply eqb_prop in Hx
  | Hx : bool_decide _ = true |- _ => apply bool_decide_eq_true in Hx
  end; split_and!; try congruence; try (intros; congruence).
Qed.

Lemma mergeable_attr a b x :
  regions_mergeable a b = true -> region_ok a -> region_ok b -> attr_at a x = attr_at b x.
Proof.
  intros (E1&E2&E3&E4&_&E6&E7&E8&E9&E10&E11&E12&E13)%regions_mergeable_true (_&_&Sa) (_&_&Sb).
  assert (forall p, ((p + (r_end a - r_start a))%u64 + (x - r_start b))%u64 = (p + (x - r_start a))%u64) as Hshift.
  { intros p. unfold add64, sub64, wrap64, two64. zdm. }
  unfold attr_at. rewrite E9, E10, E2, Hshift, <- E12, <- E3, <- E4, Sa, Sb, <- E4, E6, E7, E8, E11.
  f_equal. destruct (has (r_flags a) LINUX_MAP_ANONYMOUS) eqn:Ean; [done|].
  rewrite E13, Hshift by done. done.
Qed.

Lemma merge_pair lo a b l :
  chain lo (a :: b :: l) -> region_ok a -> region_ok b -> regions_mergeable a b = true ->
  chain lo (set_end (r_end b) a :: l) /\ region_ok (set_end (r_end b) a) /\
  forall x, view (set_end (r_end b) a :: l) x = view (a :: b :: l) x.
Proof.
  intros Hc Ha Hb Hm. pose proof (regions_mergeable_true _ _ Hm) as (E1 & _).
  simpl in Hc. destruct Hc as (?&?&?&?&?).
  split_and!; [simpl; intuition lia | unfold region_ok in *; simpl; intuition lia |].
  intros x. rewrite !view_cons. rewrite <- (mergeable_attr a b) by done.
  unfold in_region. simpl.
  destruct (Z.leb_spec (r_start a) x), (Z.ltb_spec x (r_end a)), (Z.ltb_spec x (r_end b)),
    (Z.leb_spec (r_start b) x); simpl; try done; try lia.
Qed.

(** Two lists that agree on the invariant and the view. *)
Definition same_view (l l' : list guest_region_t) : Prop :=
  (list_ok l -> list_ok l' /\ forall x, view l' x = view l x) /\ (length l' <= length l)%nat.

Lemma same_view_refl l : same_view l l.
Proof. by split; [intros; split|]. Qed.

Lemma same_view_trans l1 l2 l3 : same_view l1 l2 -> same_view l2 l3 -> same_view l1 l3.
Proof.
  intros [A B] [C D]. split; [|lia]. intros [H1 V1]%A. destruct (C H1) as [H2 V2].
  split; [done|]. intros. by rewrite V2.
Qed.

#[export] Instance same_view_preorder : PreOrder same_view.
Proof. split; [exact same_view_refl|exact same_view_trans]. Qed.

Lemma merge_at pre a b post :
  regions_mergeable a b = true ->
  same_view (pre ++ a :: b :: post) (pre ++ set_end (r_end b) a :: post).
Proof.
  intros Hm. split; [|rewrite !length_app; simpl; lia].
  intros [Hc Hok]. apply chain_app in Hc as [Hc1 Hc2].
  apply Forall_app in Hok as [Ho1 Ho2]. inversion Ho2 as [|? ? Ha Ho3]; subst.
  inversion Ho3 as [|? ? Hb Ho4]; subst.
  destruct (merge_pair _ _ _ _ Hc2 Ha Hb Hm) as (Hc' & Ho' & Hv).
  split; [split|].
  - by apply chain_app.
  - apply Forall_app; split; [done|]. by constructor.
  - intros x. rewrite !view_app. by rewrite Hv.
Qed.

(** A merge step does nothing or fuses one mergeable pair. *)
Definition fuses (l l' : list guest_region_t) : Prop :=
  l' = l \/ exists pre a b post, regions_mergeable a b = true /\
    l = pre ++ a :: b :: post /\ l' = pre ++ set_end (r_end b) a :: post.

Lemma try_merge_right_fuses l i : fuses l (try_merge_right l i).
Proof.
  unfold try_merge_right. case_if; [by left|].
  destruct (l !! i) as [a|] eqn:Ha; [|by left].
  destruct (l !! (i + 1)%nat) as [b|] eqn:Hb; [|by left].
  case_if; [|by left]. right. exists (take i l), a, b, (drop (i + 2) l). split_and!; try done.
  rewrite <- (take_drop_middle l i a Ha) at 1. replace (i + 1)%nat with (S i) in Hb by lia.
  rewrite (drop_S l b (S i)) by done. repeat f_equal. lia.
Qed.

Lemma try_merge_left_fuses l i : fuses l (try_merge_left l i).
Proof.
  unfold try_merge_left. case_if; [by left|].
  apply orb_false_elim in Heqb as [Hi _]. apply Nat.eqb_neq in Hi.
  destruct (l !! (i - 1)%nat) as [a|] eqn:Ha; [|by left].
  destruct (l !! i) as [b|] eqn:Hb; [|by left].
  case_if; [|by left]. right. exists (take (i - 1) l), a, b, (drop (i + 1) l). split_and!; try done.
  rewrite <- (take_drop_middle l (i - 1) a Ha) at 1. replace (S (i - 1)) with i by lia.
  rewrite (drop_S l b i) by done. repeat f_equal. lia.
Qed.

Lemma fuses_same l l' : fuses l l' -> same_view l l'.
Proof. intros [->|(pre & a & b & post & Hm & -> & ->)]; [reflexivity|by apply merge_at]. Qed.

Lemma try_merge_right_same l i : same_view l (try_merge_right l i).
Proof. apply fuses_same, try_merge_right_fuses. Qed.

Lemma try_merge_left_same l i : same_view l (try_merge_left l i).
Proof. apply fuses_same, try_merge_left_fuses. Qed.

Lemma merge_left_down_same f n l : same_view l (merge_left_down f n l).
Proof.
  revert l. induction n as [|n IH]; intros l; cbn [merge_left_down]; [reflexivity|].
  etrans; [apply try_merge_left_same|apply IH].
Qed.

(** ** Trimming a region *)

Section Remove.
Context {H : Type} `{HostEnv H} `{!HostPageOk H}.
#[local] Notation clip := (guest_region_clip_overlay (H:=H)).

(** [piece r lo hi r']: [r'] is what is left of [r] on [[lo, hi)]: it covers
    exactly those addresses and says the same about them. *)
Definition piece (r : guest_region_t) (lo hi : Z) (r' : guest_region_t) : Prop :=
  r_start r' = lo /\ r_end r' = hi /\ region_ok r' /\
  forall a, lo <= a < hi -> attr_at r' a = attr_at r a.

Lemma piece_clip r lo hi r' : piece r lo hi r' -> piece r lo hi (clip r').
Proof.
  intros (Hs & He & Hok & Ha). split_and!; [by rewrite clip_start|by rewrite clip_end|by apply clip_ok|].
  intros a Hin. rewrite clip_attr; [by apply Ha|done|]. unfold in_region. rewrite Hs, He.
  apply andb_true_intro; split; [apply Z.leb_le|apply Z.ltb_lt]; lia.
Qed.

Lemma piece_left r b : region_ok r -> b <= r_end r -> piece r (r_start r) b (set_end b r).
Proof. intros (?&?&?) ?. split_and!; try done. unfold region_ok; simpl. intuition lia. Qed.

Lemma piece_right r b : region_ok r -> r_start r <= b -> piece r b (r_end r) (advance_start b r).
Proof.
  intros (?&?&?) ?. split_and!; try done; [unfold region_ok; simpl; intuition lia|].
  intros. apply attr_advance.
Qed.

Lemma piece_fd r lo hi fd r' : piece r lo hi r' -> piece r lo hi (set_backing_fd fd r').
Proof. intros (?&?&(?&?&?)&?). by split_and!. Qed.

Lemma piece_in r lo hi r' a : piece r lo hi r' -> in_region a r' = (lo <=? a) && (a <? hi).
Proof. intros (<-&<-&_). done. Qed.

Lemma view_piece r lo hi r' l a :
  piece r lo hi r' ->
  view (r' :: l) a = if (lo <=? a) && (a <? hi) then Some (attr_at r a) else view l a.
Proof.
  intros Hp. rewrite view_cons, (piece_in _ _ _ _ _ Hp). destruct (_ && _) eqn:E; [|done].
  unbool. destruct Hp as (_&_&_&Ha). by rewrite Ha.
Qed.

#[local] Ltac cmp :=
  repeat match goal with
  | |- context [?x <=? ?y] => destruct (Z.leb_spec x y)
  | |- context [?x <? ?y] => destruct (Z.ltb_spec x y)
  end; simpl; try done; try lia.

(** [removed lo s e keep l out]: nothing of [out] lies inside [[s, e)], what is
    in [out] was in [l], and when [keep] holds nothing else was lost. *)
Definition removed (lo s e : Z) (keep : Prop) (l out : list guest_region_t) : Prop :=
  chain lo out /\ Forall region_ok out /\
  (forall a x, view out a = Some x -> ~ (s <= a < e) /\ view l a = Some x) /\
  (keep -> forall a, ~ (s <= a < e) -> view out a = view l a).

Lemma removed_drop lo s e keep r l out :
  lo <= r_start r < r_end r -> s <= r_start r -> r_end r <= e -> chain (r_end r) l ->
  removed (r_end r) s e keep l out -> removed lo s e keep (r :: l) out.
Proof.
  intros Hne Hs He Hc (C1&C2&C3&C4). split_and!; [eapply chain_weaken; [|done]; lia|done| |].
  - intros a x [Ha Hv]%C3. split; [done|]. rewrite view_cons. unfold in_region. cmp.
  - intros Hk a Ha. rewrite view_cons, C4 by done. unfold in_region. cmp.
Qed.

Lemma removed_piece lo s e keep plo phi r r' l out :
  lo <= r_start r -> r_start r <= plo -> plo < phi -> phi <= r_end r -> chain (r_end r) l ->
  (phi <= s \/ e <= plo) ->
  piece r plo phi r' -> removed (r_end r) s e keep l out ->
  removed lo s e (keep /\ forall a, r_start r <= a < r_end r -> ~ (s <= a < e) -> plo <= a < phi)
    (r :: l) (r' :: out).
Proof.
  intros Hlo H1 H2 H3 Hc Hout Hp (C1&C2&C3&C4). pose proof Hp as (P1&P2&P3&P4).
  split_and!.
  - cbn [chain]. rewrite P1, P2. split_and!; [lia|lia|]. eapply chain_weaken; [|done]. lia.
  - by constructor.
  - intros a x. rewrite (view_piece _ _ _ _ _ _ Hp), view_cons. unfold in_region. cmp;
      try (intros; split; [lia|done]); intros [Ha Hv]%C3; split; try done.
    all: by rewrite (view_below _ _ _ Hc) in Hv by lia.
  - intros [Hk Hin] a Ha. rewrite (view_piece _ _ _ _ _ _ Hp), view_cons, C4 by done.
    unfold in_region. specialize (Hin a). cmp.
Qed.

Lemma removed_split lo s e r l r1 r2 :
  lo <= r_start r -> r_start r < s -> s < e -> e < r_end r -> chain (r_end r) l -> Forall region_ok l ->
  piece r (r_start r) s r1 -> piece r e (r_end r) r2 ->
  removed lo s e True (r :: l) (r1 :: r2 :: l).
Proof.
  intros Hlo H1 H2 H3 Hc Hok Hp Hq. pose proof Hp as (P1&P2&P3&_). pose proof Hq as (Q1&Q2&Q3&_).
  assert (forall a, view (r1 :: r2 :: l) a = if (s <=? a) && (a <? e) then None else view (r :: l) a) as Hv.
  { intros a. rewrite (view_piece _ _ _ _ _ _ Hp), (view_piece _ _ _ _ _ _ Hq), view_cons.
    unfold in_region. cmp. by rewrite (view_below _ _ _ Hc) by lia. }
  split_and!.
  - cbn [chain]. rewrite P1, P2, Q1, Q2. split_and!; try done; lia.
  - by do 2 (constructor; [done|]).
  - intros a x. rewrite Hv. cmp; intros; split; done || lia.
  - intros _ a Ha. rewrite Hv. cmp.
Qed.

Lemma removed_stop lo s e keep r l :
  e <= r_start r -> chain lo (r :: l) -> Forall region_ok (r :: l) -> removed lo s e keep (r :: l) (r :: l).
Proof.
  intros He Hc Hok. split_and!; try done. intros a x Hv. split; [|done]. intros Ha.
  rewrite (view_below (r_start r)) in Hv; [done| |lia]. simpl in *. intuition lia.
Qed.

Lemma removed_impl lo s e (keep keep' : Prop) l out :
  (keep' -> keep) -> removed lo s e keep l out -> removed lo s e keep' l out.
Proof. intros Hk (?&?&?&?). split_and!; auto. Qed.

(** The compaction loop: nothing is left inside the removed range, and unless
    the table was full in the middle of a split everything outside is kept. *)
Lemma remove_loop_spec full s e l : s < e -> 0 <= s ->
  forall lo stale fd h out stale' fd' h',
  chain lo l -> Forall region_ok l -> Forall (fun r => s < r_end r) l ->
  remove_loop full s e l stale fd h = (out, stale', fd', h') ->
  removed lo s e (stale' = false) l out /\
  (stale = true -> stale' = true) /\ (full = false -> stale' = stale) /\
  (length out <= (if full then 0 else 1) + length l)%nat.
Proof.
  intros Hse Hs0. induction l as [|r l IH]; intros lo stale fd h out stale' fd' h' Hc Hok Hab Hl;
    cbn [remove_loop] in Hl.
  { simplify_eq. split_and!; try done. simpl. lia. }
  pose proof Hok as [Hr Hok']%Forall_cons_1. pose proof Hab as [Hre Hab']%Forall_cons_1.
  destruct (Z.leb_spec e (r_start r)) as [Her|Her].
  { simplify_eq. split_and!; try done; [by apply removed_stop|simpl; lia]. }
  pose proof Hc as (Hlo & Hne & Hc').
  destruct (Z.ltb_spec (r_start r) s) as [Hkl|Hkl], (Z.ltb_spec e (r_end r)) as [Hkr|Hkr]; simpl in Hl.
  1: destruct full; simpl in Hl; [rewrite orb_true_r in Hl|].
  2:{ assert (exists r2, out = clip (set_end s r) :: clip r2 :: l /\
  piece r e (r_end r) r2 /\ stale' = stale) as (r2 & -> & Hp2 & ->).
      { destruct (0 <=? r_backing_fd r); simplify_eq; eexists; split_and!; try done;
          [apply piece_fd|]; apply piece_right; try done; lia. }
      split_and!; try done. eapply (removed_impl _ _ _ True); [done|].
      apply removed_split; try done; apply piece_clip; [|done]. apply piece_left; [done|lia]. }
  4:{ rewrite orb_false_r in Hl. destruct (IH _ _ _ _ _ _ _ _ Hc' Hok' Hab' Hl) as (?&?&?&?).
      split_and!; try done; [apply removed_drop; done || lia|simpl; lia]. }
  all: rewrite ?orb_false_r in Hl; destruct (remove_loop _ _ _ _ _ _ _) as [[[o st] f] hh] eqn:E;
    simplify_eq; destruct (IH _ _ _ _ _ _ _ _ Hc' Hok' Hab' E) as (?&Hst&?&?);
    split_and!; try done; try (by intros; apply Hst); try (simpl; lia).
  - rewrite Hst by done. eapply removed_impl; [|eapply removed_piece with (plo := r_start r) (phi := s)];
      try done; try lia. apply piece_clip, piece_left; [done|lia].
  - eapply removed_impl; [|eapply removed_piece with (plo := r_start r) (phi := s)];
      try done; try lia; [|apply piece_clip, piece_left; [done|lia]]. intros; split; [done|lia].
  - eapply removed_impl; [|eapply removed_piece with (plo := e) (phi := r_end r)];
      try done; try lia; [|apply piece_clip, piece_right; [done|lia]]. intros; split; [done|lia].
Qed.

(** The prefix the search skips is untouched. *)
Lemma removed_prefix s e keep l1 l out :
  chain 0 (l1 ++ l) -> Forall region_ok l1 -> Forall (fun r => r_end r <= s) l1 ->
  removed (last_end 0 l1) s e keep l out -> removed 0 s e keep (l1 ++ l) (l1 ++ out).
Proof.
  intros [Hc1 _]%chain_app Hok Hb (C1&C2&C3&C4). split_and!.
  - by apply chain_app.
  - by apply Forall_app.
  - intros a x. rewrite !view_app. destruct (view l1 a) eqn:E; [|by apply C3].
    intros; simplify_eq. split; [|done]. intros Ha.
    rewrite view_above in E; [done|]. eapply Forall_impl; [|exact Hb]. simpl; lia.
  - intros Hk a Ha. rewrite !view_app, C4 by done. done.
Qed.

(** [removes g g' s e]: the tracker [g'] is [g] with the range [[s, e)] taken
    out; the part about addresses outside is conditional on the stale mark. *)
Definition removes (g g' : tracker H) (s e : Z) : Prop :=
  tracker_wf g' /\
  (forall a, s <= a < e -> view (regions g') a = None) /\
  (forall a x, view (regions g') a = Some x -> view (regions g) a = Some x) /\
  (regions_tracker_stale g' = false ->
   forall a, ~ (s <= a < e) -> view (regions g') a = view (regions g) a) /\
  ((nregions g < GUEST_MAX_REGIONS)%nat -> regions_tracker_stale g' = regions_tracker_stale g).

Lemma remove_reserved_spec g s e fd rc g' :
  tracker_wf g -> 0 <= s -> guest_region_remove_reserved g s e fd = (rc, g') ->
  rc = 0 /\ removes g g' s e.
Proof.
  intros [[Hc Hok] Hn] Hs. unfold guest_region_remove_reserved.
  destruct (Z.leb_spec e s); [intros; simplify_eq; split; [done|]; split_and!; try done; intros; lia|].
  destruct (first_end_above_split 0 (regions g) s Hc) as (Hi & Hb & Ha).
  set (i := guest_region_first_end_above _ _) in *. clearbody i.
  rewrite <- (take_drop i (regions g)) in Hc, Hok. apply Forall_app in Hok as [Hok1 Hok2].
  pose proof Hc as [Hc1 Hc2]%chain_app.
  destruct (remove_loop _ _ _ _ _ _ _) as [[[out st] f] h] eqn:E.
  apply (remove_loop_spec _ s e _ ltac:(lia) Hs _ _ _ _ _ _ _ _ Hc2 Hok2 Ha) in E as (Hr & _ & Hst & Hlen).
  apply (removed_prefix s e _ _ _ _ Hc Hok1 Hb) in Hr. rewrite take_drop in Hr.
  destruct Hr as (C1&C2&C3&C4). intros; simplify_eq. split; [done|]. split_and!; simpl.
  - split; [done|]. unfold nregions in *. simpl. rewrite length_app, length_take. rewrite length_drop in Hlen.
    destruct (Nat.leb_spec GUEST_MAX_REGIONS (length (regions g))); lia.
  - intros a Hin. destruct (view _ a) eqn:E; [|done]. by apply C3 in E as [? _].
  - intros a x Hv. by apply C3 in Hv as [_ ?].
  - done.
  - intros Hlt. apply Hst, Nat.leb_gt. done.
Qed.

(** The reservation leaves the array alone. *)
Lemma prepare_same g s e rc fd g' : guest_region_remove_prepare g s e = (rc, fd, g') ->
  regions g' = regions g /\ regions_tracker_stale g' = regions_tracker_stale g /\
  next_vma_id g' = next_vma_id g /\ (rc = 0 \/ rc = -1).
Proof. unfold guest_region_remove_prepare. intros E. repeat case_match; simplify_eq; auto. Qed.

(** Removing a range: an allocation failure leaves the tracker as it was;
    otherwise the tracker describes exactly the complement. *)
Lemma remove_spec g s e rc g' :
  tracker_wf g -> 0 <= s -> guest_region_remove g s e = (rc, g') ->
  (rc = -1 /\ regions g' = regions g /\ regions_tracker_stale g' = regions_tracker_stale g /\
   next_vma_id g' = next_vma_id g) \/
  (rc = 0 /\ removes g g' s e).
Proof.
  intros Hwf Hs. unfold guest_region_remove.
  destruct (guest_region_remove_prepare g s e) as [[rc0 fd] g0] eqn:E.
  destruct (prepare_same _ _ _ _ _ _ E) as (Er & Es & En & Hrc).
  destruct (Z.ltb_spec rc0 0).
  - intros; simplify_eq. left. done.
  - intros Hrr. right.
    assert (tracker_wf g0) as Hwf0 by (unfold tracker_wf, nregions in *; by rewrite Er).
    destruct (remove_reserved_spec g0 s e fd rc g' Hwf0 Hs Hrr) as (-> & R1 & R2 & R3 & R4 & R5).
    split; [done|]. unfold removes, nregions in *. rewrite Er, Es in *. by split_and!.
Qed.

End Remove.

(** ** Inserting a region *)

Section Add.
Context {H : Type} `{HostEnv H}.

(** A list of regions none of which overlaps [[s, e)] splits at the lower bound
    of [s]. *)
Lemma insert_chain l s e :
  chain 0 l -> 0 <= s < e -> (forall a, s <= a < e -> view l a = None) ->
  let i := region_lower_bound_start l s in
  (i <= length l)%nat /\ last_end 0 (take i l) <= s /\ chain e (drop i l).
Proof.
  intros Hc Hse Hfree i. destruct (lower_bound_split 0 l s Hc) as (Hi & Hb & Ha).
  fold i in Hi, Hb, Ha. clearbody i.
  assert (forall r, r ∈ l -> r_end r <= s \/ e <= r_start r) as Hdis.
  { intros r Hin. destruct (decide (r_end r <= s)); [by left|right].
    pose proof (chain_bounds _ _ _ Hc Hin). destruct (decide (e <= r_start r)); [done|exfalso].
    specialize (Hfree (Z.max s (r_start r)) ltac:(lia)). unfold view in Hfree.
    apply list_elem_of_lookup_1 in Hin as [j Hj].
    erewrite region_at_lookup in Hfree; [done|done|done|].
    unfold in_region. apply andb_true_intro; split; [apply Z.leb_le|apply Z.ltb_lt]; lia. }
  rewrite <- (take_drop i l) in Hc, Hdis. apply chain_app in Hc as [Hc1 Hc2].
  split_and!; [done| |].
  - assert (Forall (fun r => r_end r <= s) (take i l)) as Hall.
    { apply Forall_forall. intros r Hin. rewrite Forall_forall in Hb.
      destruct (Hdis r); [apply elem_of_app; left; by apply list_elem_of_In|done|]. specialize (Hb r Hin). simpl in Hb. lia. }
    clear -Hall Hc1 Hse. assert (0 <= s) as H0 by lia. revert H0 Hc1. generalize 0.
    induction Hall as [|r l' Hr _ IH]; intros lo H0; simpl; [done|]. intros (?&?&?). by apply IH.
  - destruct (drop i l) as [|r l'] eqn:E; [done|]. simpl in Hc2. destruct Hc2 as (?&?&?).
    apply Forall_cons_1 in Ha as [Ha _]. simpl. split_and!; [|done|done].
    destruct (Hdis r); [apply elem_of_app; right; constructor|lia|done].
Qed.

Lemma insert_region_ok l r :
  list_ok l -> region_ok r -> r_start r < r_end r ->
  (forall a, r_start r <= a < r_end r -> view l a = None) ->
  let i := region_lower_bound_start l (r_start r) in
  let l' := take i l ++ r :: drop i l in
  list_ok l' /\ (forall a, view l' a = if in_region a r then Some (attr_at r a) else view l a).
Proof.
  intros [Hc Hok] Hr Hne Hfree i l'.
  destruct (insert_chain l (r_start r) (r_end r) Hc) as (Hi & Hb & Ha); [destruct Hr; lia|done|].
  fold i in Hi, Hb, Ha. pose proof Hc as Hc'. rewrite <- (take_drop i l) in Hc, Hok.
  apply chain_app in Hc as [Hc1 Hc2]. apply Forall_app in Hok as [Hok1 Hok2].
  split; [split|].
  - apply chain_app. simpl. done.
  - apply Forall_app. split; [done|]. by constructor.
  - intros a. subst l'. rewrite view_app, view_cons.
    replace (view l a) with (view (take i l ++ drop i l) a) by (by rewrite take_drop).
    rewrite view_app. destruct (in_region a r) eqn:Ein; [|done].
    unfold in_region in Ein. unbool. specialize (Hfree a ltac:(lia)).
    rewrite <- (take_drop i l), view_app in Hfree. by destruct (view (take i l) a).
Qed.

(** What a successful insertion records. *)
Definition new_attrs (start gpa_base prot flags offset : Z) (name : option string)
    (inherited : bool) (vma : Z) (a : Z) : attrs :=
  mk_attrs (gpa_base + (a - start))%u64 vma prot flags
    (if has flags LINUX_MAP_ANONYMOUS then 0 else (offset + (a - start))%u64)
    (has flags LINUX_MAP_SHARED) (has flags LINUX_MAP_NORESERVE) false inherited false
    (match name with Some n => str_copy_trunc n REGION_NAME_SIZE | None => "" end).

Definition adds (g g' : tracker H) (start end_ : Z) (x : Z -> attrs) : Prop :=
  tracker_wf g' /\ regions_tracker_stale g' = regions_tracker_stale g /\
  forall a, view (regions g') a =
    if (start <=? a) && (a <? end_) then Some (x a) else view (regions g) a.

Lemma add_spec g start end_ gpa_base prot flags offset name fd inherited vma rc g' :
  tracker_wf g -> 0 <= start < end_ -> end_ <= VA_TOP ->
  (forall a, start <= a < end_ -> view (regions g) a = None) ->
  guest_region_add_ex_owned_gpa g start end_ gpa_base prot flags offset name fd inherited vma
    = (rc, g') ->
  (rc = -1 /\ nregions g = GUEST_MAX_REGIONS /\ regions g' = regions g /\
   regions_tracker_stale g' = regions_tracker_stale g /\
   next_vma_id g' = next_vma_id g /\ host g' = close_owned (host g) fd) \/
  (rc = 0 /\ host g' = host g /\ exists v, (vma <> 0 -> v = vma) /\
   adds g g' start end_ (new_attrs start gpa_base prot flags offset name inherited v)).
Proof.
  intros [Hl Hn] Hse Hve Hfree. unfold guest_region_add_ex_owned_gpa.
  destruct (Nat.leb_spec GUEST_MAX_REGIONS (nregions g)) as [Hful|Hlt].
  { intros; simplify_eq. left. split_and!; try done. lia. }
  destruct (if vma =? 0 then _ else _) as [v0 next] eqn:Ev.
  match goal with |- context [try_merge_right (_ ++ ?x :: _) _] => set (r := x) end.
  set (i := region_lower_bound_start _ _).
  assert (exists v, (vma <> 0 -> v = vma) /\ r = mk_region start end_ gpa_base v prot flags offset fd
     (has flags LINUX_MAP_SHARED) (has flags LINUX_MAP_NORESERVE) false inherited false 0 0
     (match name with Some n => str_copy_trunc n REGION_NAME_SIZE | None => "" end)) as (v & Hv & Er).
  { subst r. destruct (Z.eqb_spec vma 0) as [Hz|Hz]; simplify_eq.
    - repeat case_match; eexists; (split; [|reflexivity]); done.
    - by eexists; split. }
  clearbody r. intros E. simplify_eq. right. split_and!; [done|done|]. exists v. split; [done|].
  set (r := mk_region _ _ _ _ _ _ _ _ _ _ _ _ _ _ _ _).
  destruct (insert_region_ok (regions g) r) as [Hok Hview]; [done|split_and!; simpl; lia || done|simpl; lia|done|].
  cbn [r_start r] in Hok, Hview. fold i in Hok, Hview.
  set (l1 := take i (regions g) ++ r :: drop i (regions g)) in *.
  assert (same_view l1 (try_merge_left (try_merge_right l1 i) i)) as [Hs Hlen].
  { etrans; [apply try_merge_right_same|apply try_merge_left_same]. }
  destruct (Hs Hok) as [Hok' Hview'].
  split_and!; [split; [done|]|done|].
  - unfold nregions in *. simpl. subst l1. rewrite length_app in Hlen. simpl in Hlen.
    rewrite length_take, length_drop in Hlen. lia.
  - intros a. simpl. rewrite Hview', Hview. unfold in_region. simpl.
    destruct (_ && _); [|done]. unfold attr_at, new_attrs. simpl. by destruct (has flags _).
Qed.

End Add.

(** ** Changing protections *)

Section SetProt.
Context {H : Type} `{HostEnv H} `{!HostPageOk H}.
#[local] Notation clip := (guest_region_clip_overlay (H:=H)).

#[local] Ltac cmp :=
  repeat match goal with
  | |- context [?x <=? ?y] => destruct (Z.leb_spec x y)
  | |- context [?x <? ?y] => destruct (Z.ltb_spec x y)
  end; simpl; try done; try lia.

(** [protted lo s e p keep l out]: [out] maps what [l] maps, an attribute is
    either unchanged or has protection [p], and when [keep] holds exactly the
    addresses of [[s, e)] have it. *)
Definition protted (lo s e p : Z) (keep : Prop) (l out : list guest_region_t) : Prop :=
  chain lo out /\ Forall region_ok out /\
  (forall a, view out a = view l a \/ view out a = option_map (set_a_prot p) (view l a)) /\
  (keep -> forall a, view out a =
     if (s <=? a) && (a <? e) then option_map (set_a_prot p) (view l a) else view l a).

Lemma protted_impl lo s e p (keep keep' : Prop) l out :
  (keep' -> keep) -> protted lo s e p keep l out -> protted lo s e p keep' l out.
Proof. intros ? (?&?&?&?). split_and!; auto. Qed.

(** Cutting a region in two changes nothing. *)
Lemma protted_split lo s e p keep b r r1 r2 l out :
  r_start r < b < r_end r -> piece r (r_start r) b r1 -> piece r b (r_end r) r2 ->
  protted lo s e p keep (r1 :: r2 :: l) out -> protted lo s e p keep (r :: l) out.
Proof.
  intros Hb P1 P2 (C1&C2&C3&C4).
  assert (forall a, view (r :: l) a = view (r1 :: r2 :: l) a) as Hv.
  { intros a. rewrite (view_piece _ _ _ _ _ _ P1), (view_piece _ _ _ _ _ _ P2), view_cons.
    unfold in_region. cmp. }
  split_and!; try done; [intros a|intros Hk a]; rewrite Hv; [done|by apply C4].
Qed.

Lemma protted_keep lo s e p (keep keep' : Prop) r l out :
  lo <= r_start r < r_end r -> region_ok r -> (keep' -> keep /\ r_end r <= s) ->
  protted (r_end r) s e p keep l out -> protted lo s e p keep' (r :: l) (r :: out).
Proof.
  intros Hne Hok Hk (C1&C2&C3&C4). split_and!.
  - cbn [chain]. split_and!; done || lia.
  - by constructor.
  - intros a. rewrite !view_cons. case_if; [by left|done].
  - intros [Hkk Hs]%Hk a. rewrite !view_cons, C4 by done. unfold in_region. cmp.
Qed.

Lemma protted_set lo s e p (keep keep' : Prop) r r' l out :
  lo <= r_start r < r_end r -> piece r (r_start r) (r_end r) r' ->
  (keep' -> keep /\ s <= r_start r /\ r_end r <= e) -> chain (r_end r) l ->
  protted (r_end r) s e p keep l out ->
  protted lo s e p keep' (r :: l) (set_prot_field p r' :: out).
Proof.
  intros Hne (P1&P2&P3&P4) Hk Hc (C1&C2&C3&C4).
  assert (forall a, view (set_prot_field p r' :: out) a =
    if in_region a r then option_map (set_a_prot p) (view (r :: l) a) else view out a) as Hv.
  { intros a. rewrite !view_cons. unfold in_region. simpl. rewrite P1, P2.
    destruct (_ && _) eqn:E; [|done]. unbool. by rewrite attr_set_prot, P4. }
  split_and!.
  - cbn [chain]. simpl. rewrite P1, P2. split_and!; done || lia.
  - by constructor.
  - intros a. rewrite Hv, view_cons. case_if; [by right|done].
  - intros (Hkk & Hs & He)%Hk a. rewrite Hv, view_cons, C4 by done. unfold in_region. cmp.
Qed.

Lemma protted_stop lo s e p keep r l :
  chain lo (r :: l) -> Forall region_ok (r :: l) -> e <= r_start r -> protted lo s e p keep (r :: l) (r :: l).
Proof.
  intros Hc Hok He. split_and!; try done; [by left|]. intros _ a.
  destruct (_ && _) eqn:E; [|done]. unbool. rewrite (view_below (r_start r)); [done| |lia].
  destruct Hc as (?&?&?). by split_and!.
Qed.

Lemma split_right_piece b r h r' h' :
  region_ok r -> r_start r <= b -> split_right b r h = (r', h') -> piece r b (r_end r) r'.
Proof.
  intros Hok Hb. unfold split_right. destruct (0 <=? r_backing_fd r);
    [destruct (host_dup _ _)|]; intros; simplify_eq; apply piece_clip; [apply piece_fd|];
    by apply piece_right.
Qed.

Lemma piece_id r : region_ok r -> piece r (r_start r) (r_end r) r.
Proof. done. Qed.

Lemma piece_set_end_clip r b : region_ok r -> b <= r_end r -> piece r (r_start r) b (clip (set_end b r)).
Proof. intros. by apply piece_clip, piece_left. Qed.

(** What the walk leaves: [suf] replaces [l], and the stale mark is new only
    when fewer than [room] table slots were free. *)
Definition walked (s e p lo : Z) (room : nat) (pre l out : list guest_region_t) (stale stale' : bool) : Prop :=
  exists suf, out = pre ++ suf /\ protted lo s e p (stale' = false) l suf /\
    (stale = true -> stale' = true) /\ (length out <= GUEST_MAX_REGIONS)%nat /\
    (length pre + length l + room <= GUEST_MAX_REGIONS -> stale' = stale)%nat.

(** The walk over regions that start inside or above the range. *)
Lemma set_prot_loop_inside s e p l : s < e ->
  forall lo pre fm lm stale h out fm' lm' stale' h',
  s <= lo -> chain lo l -> Forall region_ok l ->
  (length pre + length l <= GUEST_MAX_REGIONS)%nat ->
  set_prot_loop s e p pre l fm lm stale h = (out, fm', lm', stale', h') ->
  walked s e p lo 1 pre l out stale stale'.
Proof.
  intros Hse. induction l as [|r l IH]; intros lo pre fm lm stale h out fm' lm' stale' h' Hs Hc Hok Hn Hl;
    cbn [set_prot_loop] in Hl.
  { simplify_eq. exists []. rewrite app_nil_r. split_and!; try done; [|simpl in Hn; lia].
    split_and!; try done; [by left|]. intros. by destruct (_ && _). }
  pose proof Hok as [Hr Hok']%Forall_cons_1. pose proof Hc as (Hlo & Hne & Hc').
  destruct (Z.leb_spec e (r_start r)) as [Her|Her].
  { simplify_eq. exists (r :: l). split_and!; try done; [by apply protted_stop|by rewrite length_app]. }
  rewrite (proj2 (Z.ltb_ge (r_start r) s)) in Hl by lia. cbn [andb] in Hl. cbn [length] in Hn, Hl |- *.
  destruct (Z.ltb_spec e (r_end r)) as [Hend|Hend].
  1: destruct (Nat.leb_spec GUEST_MAX_REGIONS (length pre + S (length l))) as [Hful|Hful].
  2:{ destruct (split_right e r h) as [r2 h2] eqn:E2. simplify_eq.
      apply split_right_piece in E2; [|done|lia].
      pose proof (piece_set_end_clip r e Hr ltac:(lia)) as P1. pose proof E2 as (Q1&Q2&Q3&_).
      eexists. split; [reflexivity|]. split_and!; [|done|rewrite length_app; simpl; lia|done].
      eapply protted_split; [|exact P1|exact E2|]; [lia|].
      assert (clip (set_prot_field p (set_end e r)) = set_prot_field p (clip (set_end e r))) as ->.
      { unfold guest_region_clip_overlay. simpl. by repeat case_if. }
      destruct P1 as (P1&P2&P3&_).
      apply (protted_set _ _ _ _ True); [lia|by apply piece_id|lia| |].
      1: cbn [chain]; rewrite P2, Q1, Q2; split_and!; done || lia.
      apply protted_stop; [|by constructor|lia]. cbn [chain]. rewrite P2, Q1, Q2. split_and!; done || lia. }
  all: destruct (IH (r_end r) (pre ++ [set_prot_field p r]) _ _ _ _ _ _ _ _ _ ltac:(lia) Hc' Hok'
        ltac:(rewrite length_app; simpl; lia) Hl) as (suf & -> & Hp & Hst & Hlen & Hroom);
    rewrite length_app in Hroom; simpl in Hroom; rewrite <- app_assoc in Hlen |- *;
    exists (set_prot_field p r :: suf); (split_and!; [done| |by auto|done|simpl; intros; first [lia|apply Hroom; lia]]).
  - rewrite Hst by done. eapply protted_set; [lia|by apply piece_id| |done|exact Hp]. done.
  - eapply protted_set; [lia|by apply piece_id| |done|exact Hp]. intros; split_and!; done || lia.
Qed.

(** Splitting at the start of the range is one step before the same walk. *)
Lemma set_prot_loop_split s e p pre r l fm lm stale h r' h' :
  r_start r < s -> s < e -> (length pre + S (length l) < GUEST_MAX_REGIONS)%nat ->
  split_right s r h = (r', h') ->
  set_prot_loop s e p pre (r :: l) fm lm stale h =
  set_prot_loop s e p (pre ++ [clip (set_end s r)]) (r' :: l) fm lm stale h'.
Proof.
  intros Hrs Hse Hn Hsp. cbn [set_prot_loop].
  assert (r_start r' = s) as Hs'.
  { unfold split_right in Hsp. destruct (0 <=? r_backing_fd r); [destruct (host_dup _ _)|];
      simplify_eq; by rewrite clip_start. }
  rewrite (proj2 (Z.leb_gt e (r_start r))) by lia. rewrite (proj2 (Z.ltb_lt (r_start r) s)) by lia.
  simpl length. rewrite (proj2 (Nat.leb_gt _ _)) by lia. simpl andb.
  rewrite Hsp, Hs', (proj2 (Z.leb_gt e s)), Z.ltb_irrefl by lia. done.
Qed.

Lemma set_prot_loop_spec s e p l lo pre fm lm stale h out fm' lm' stale' h' :
  0 <= s < e -> chain lo l -> Forall region_ok l -> Forall (fun r => s < r_end r) l ->
  (length pre + length l <= GUEST_MAX_REGIONS)%nat ->
  set_prot_loop s e p pre l fm lm stale h = (out, fm', lm', stale', h') ->
  walked s e p lo 2 pre l out stale stale'.
Proof.
  intros Hse Hc Hok Hab Hn Hl. destruct l as [|r l].
  { simpl in Hl. simplify_eq. exists []. rewrite app_nil_r. split_and!; try done; [|simpl in Hn; lia].
    split_and!; try done; [by left|]. intros. by destruct (_ && _). }
  pose proof Hc as (Hlo & Hne & Hc'). pose proof Hok as [Hr Hok']%Forall_cons_1.
  apply Forall_cons_1 in Hab as [Hre _].
  destruct (decide (s <= r_start r)) as [Hs|Hs].
  { apply (set_prot_loop_inside s e p _ ltac:(lia) (r_start r)) in Hl as (suf & E & (D1&D2) & ? & ? & Hroom);
      [|done|split_and!; done || lia|done|done].
    exists suf. split_and!; try done; [|intros; apply Hroom; lia]. split; [|done]. by eapply chain_weaken. }
  destruct (decide (GUEST_MAX_REGIONS <= length pre + S (length l))%nat) as [Hful|Hful].
  - cbn [set_prot_loop] in Hl. rewrite (proj2 (Z.leb_gt e (r_start r))), (proj2 (Z.ltb_lt (r_start r) s)) in Hl by lia.
    simpl length in Hl. rewrite (proj2 (Nat.leb_le _ _)) in Hl by done. simpl andb in Hl.
    apply (set_prot_loop_inside s e p _ ltac:(lia) (r_end r)) in Hl as (suf & -> & Hp & Hst & Hlen & Hroom);
      [|lia|done|done|rewrite length_app; simpl in *; lia].
    rewrite <- app_assoc in Hlen |- *. exists (r :: suf). rewrite Hst in * by done.
    split_and!; try done; [|simpl; lia]. by eapply protted_keep; [..|exact Hp].
  - destruct (split_right s r h) as [r2 h2] eqn:E2.
    erewrite set_prot_loop_split in Hl; [|lia|lia|lia|exact E2].
    apply split_right_piece in E2; [|done|lia]. pose proof E2 as (Q1&Q2&Q3&_).
    pose proof (piece_set_end_clip r s Hr ltac:(lia)) as P1. pose proof P1 as (P2&P3&P4&_).
    apply (set_prot_loop_inside s e p _ ltac:(lia) s) in Hl as (suf & -> & Hp & Hst & Hlen & Hroom);
      [|lia|cbn [chain]; rewrite Q1, Q2; split_and!; done || lia|by constructor|rewrite length_app; simpl in *; lia].
    rewrite length_app in Hroom. rewrite <- app_assoc in Hlen |- *.
    exists (clip (set_end s r) :: suf). split_and!; try done; [|simpl in *; intros; apply Hroom; lia].
    eapply protted_split; [|exact P1|exact E2|]; [lia|].
    eapply protted_keep with (keep := stale' = false); [lia|done|intros; split; [done|lia]|]. by rewrite P3.
Qed.

(** [prot_changes g g' s e p]: the tracker [g'] maps what [g] maps, with
    protection [p] on the addresses of [[s, e)], exactly when the table had
    room for the splits. *)
Definition prot_changes (g g' : tracker H) (s e p : Z) : Prop :=
  tracker_wf g' /\
  (forall a, view (regions g') a = view (regions g) a \/
     view (regions g') a = option_map (set_a_prot p) (view (regions g) a)) /\
  (regions_tracker_stale g' = false -> forall a, view (regions g') a =
     if (s <=? a) && (a <? e) then option_map (set_a_prot p) (view (regions g) a)
     else view (regions g) a) /\
  ((nregions g + 2 <= GUEST_MAX_REGIONS)%nat -> regions_tracker_stale g' = regions_tracker_stale g).

Lemma set_prot_spec g s e p :
  tracker_wf g -> 0 <= s < e -> prot_changes g (guest_region_set_prot g s e p) s e p.
Proof.
  intros [[Hc Hok] Hn] Hse. unfold guest_region_set_prot.
  destruct (first_end_above_split 0 (regions g) s Hc) as (Hi & Hb & Ha).
  set (i := guest_region_first_end_above _ _) in *. clearbody i.
  rewrite <- (take_drop i (regions g)) in Hc, Hok. apply Forall_app in Hok as [Hok1 Hok2].
  pose proof Hc as [Hc1 Hc2]%chain_app.
  destruct (set_prot_loop _ _ _ _ _ _ _ _ _) as [[[[l fm] lm] st] h] eqn:E.
  apply (set_prot_loop_spec _ _ _ _ (last_end 0 (take i (regions g)))) in E
    as (suf & -> & (C1&C2&C3&C4) & _ & Hlen & Hroom); [|done..|].
  2:{ rewrite length_take, length_drop. unfold nregions in Hn. lia. }
  assert (Hv : forall a, view (regions g) a = match view (take i (regions g)) a with
    Some x => Some x | None => view (drop i (regions g)) a end).
  { intros. by rewrite <- view_app, take_drop. }
  set (l1 := take i (regions g) ++ suf) in *.
  set (l2 := match fm, lm with Some f, Some la => _ | _, _ => _ end).
  assert (same_view l1 l2) as [Hs Hl2].
  { subst l2. destruct fm, lm; try reflexivity.
    etrans; [apply try_merge_right_same|]. etrans; [apply merge_left_down_same|apply try_merge_left_same]. }
  destruct Hs as [Hok' Hview']; [split; [by apply chain_app|by apply Forall_app]|].
  split_and!; simpl.
  - split; [done|]. unfold nregions. simpl. lia.
  - intros a. rewrite Hview'. unfold l1. rewrite view_app, Hv. destruct (view (take i _) a); [by left|apply C3].
  - intros Hst a. rewrite Hview'. unfold l1. rewrite view_app, Hv, C4 by done.
    destruct (_ && _) eqn:Ein; [|done]. unbool. rewrite view_above; [done|].
    eapply Forall_impl; [|exact Hb]. simpl; lia.
  - unfold nregions. intros. apply Hroom. rewrite length_take, length_drop. lia.
Qed.

End SetProt.
