(* ===== verification/HostFds.v ===== *)
(** * Ownership of backing descriptors

    Every region with a non-negative [r_backing_fd] owns that host descriptor:
    it was duplicated for the region and is closed with it.  The host's
    descriptor table is reached through [dup] and [close] alone, specified by
    [HostFdLaws].  The theorems show that the region operations neither leak a
    descriptor nor close one twice, whatever [dup] answers. *)

From S2P Require Import Prelude Regions RegionFacts.

(** ** What dup(2) and close(2) do to the set of open descriptors *)

Class HostFdLaws (H : Type) `{HostEnv H} := {
  fd_open : H -> Z -> Prop;
  dup_spec : forall h fd nfd h', host_dup h fd = (nfd, h') ->
    if 0 <=? nfd then ~ fd_open h nfd /\ forall x, fd_open h' x <-> x = nfd \/ fd_open h x
    else forall x, fd_open h' x <-> fd_open h x;
  close_spec : forall h fd x, fd_open (host_close h fd) x <-> x <> fd /\ fd_open h x
}.

(** A descriptor table as a list of open descriptors with a size limit. *)
Module ListHost.

Record t := mk { limit : nat; fds : list Z }.

Definition fresh (l : list Z) : Z := fold_right Z.max 0 l + 1.

Definition dup (h : t) (fd : Z) : Z * t :=
  if existsb (Z.eqb fd) (fds h) && (length (fds h) <? limit h)%nat
  then (fresh (fds h), mk (limit h) (fresh (fds h) :: fds h)) else (-1, h).

Definition close (h : t) (fd : Z) : t :=
  mk (limit h) (List.filter (fun x => negb (x =? fd)) (fds h)).

#[global] Instance env : HostEnv t := {
  host_dup := dup; host_close := close; sysconf_pagesize := 16384 }.

Lemma fresh_spec l x : In x l -> x < fresh l.
Proof. unfold fresh. induction l as [|y l IH]; simpl; [done|]. intros [->|Hin]; [|apply IH in Hin]; lia. Qed.

Lemma fresh_pos l : 0 < fresh l.
Proof. unfold fresh. induction l; simpl in *; lia. Qed.

#[global] Program Instance laws : HostFdLaws t := { fd_open h x := In x (fds h) }.
Next Obligation.
  intros h fd nfd h'. unfold host_dup, env, dup. case_if; intros; simplify_eq; [|done].
  rewrite (proj2 (Z.leb_le 0 _)) by (pose proof (fresh_pos (fds h)); lia). split.
  - intros Hin%fresh_spec. lia.
  - intros x. simpl. intuition congruence.
Qed.
Next Obligation.
  intros h fd x. simpl. rewrite filter_In, negb_true_iff, Z.eqb_neq. tauto.
Qed.

#[global] Instance page_ok : HostPageOk t.
Proof. exists 14. split; [lia|reflexivity]. Qed.

End ListHost.

(** ** Ownership *)

(** How many regions of [l] hold descriptor [x]. *)
Fixpoint fd_count (l : list guest_region_t) (x : Z) : nat :=
  match l with
  | [] => 0
  | r :: l' => (if r_backing_fd r =? x then 1 else 0) + fd_count l' x
  end.

(** The reserved descriptor of an operation, if it has one. *)
Definition one_fd (fd x : Z) : nat := if fd =? x then 1 else 0.

Lemma fd_count_app l1 l2 x : fd_count (l1 ++ l2) x = (fd_count l1 x + fd_count l2 x)%nat.
Proof. induction l1; simpl; lia. Qed.

Lemma fd_count_split i l x : fd_count l x = (fd_count (take i l) x + fd_count (drop i l) x)%nat.
Proof. by rewrite <- fd_count_app, take_drop. Qed.

Section Ownership.
Context {H : Type} `{HostEnv H} `{!HostFdLaws H}.

(** [owns h F c]: the open descriptors are the foreign ones [F] and those with
    count one in [c]; none is counted twice. *)
Definition owns (h : H) (F : Z -> Prop) (c : Z -> nat) : Prop :=
  forall x, 0 <= x -> (fd_open h x <-> F x \/ c x = 1%nat) /\ (c x <= 1)%nat /\ (F x -> c x = 0%nat).

Lemma owns_ext h F c c' : (forall x, 0 <= x -> c' x = c x) -> owns h F c -> owns h F c'.
Proof. intros E Ho x Hx. rewrite E by done. by apply Ho. Qed.

Lemma owns_close h F c c' fd :
  (forall x, 0 <= x -> c x = (one_fd fd x + c' x)%nat) -> owns h F c -> owns (close_owned h fd) F c'.
Proof.
  intros E Ho x Hx. destruct (Ho x Hx) as (O1 & O2 & O3). rewrite E in * by done.
  unfold close_owned. destruct (Z.leb_spec 0 fd) as [Hfd|Hfd]; unfold one_fd in *.
  - destruct (Z.eqb_spec fd x) as [->|Hne].
    + split_and!; [|lia|intros F'%O3; lia]. rewrite close_spec. split; [by intros [? _]|].
      intros [F'%O3|]; lia.
    + rewrite close_spec. split_and!; [|lia|done]. rewrite O1. intuition congruence.
  - destruct (Z.eqb_spec fd x); [lia|]. done.
Qed.

Lemma owns_dup h F c fd nfd h' :
  host_dup h fd = (nfd, h') -> owns h F c -> owns h' F (fun x => (one_fd nfd x + c x)%nat).
Proof.
  intros Hd%dup_spec Ho x Hx. destruct (Ho x Hx) as (O1 & O2 & O3). unfold one_fd.
  destruct (Z.leb_spec 0 nfd) as [Hn|Hn].
  - destruct Hd as [Hfr Hd]. rewrite Hd. destruct (Z.eqb_spec nfd x) as [->|Hne].
    + rewrite O1 in Hfr. split_and!; [|lia|intros; tauto].
      split; [intros _; right; lia|by left].
    + split_and!; [|lia|done]. rewrite O1. intuition congruence.
  - destruct (Z.eqb_spec nfd x); [lia|]. rewrite Hd. done.
Qed.

(** The tracker's invariant: its regions own their descriptors. *)
Definition fd_inv (F : Z -> Prop) (g : tracker H) : Prop :=
  owns (host g) F (fd_count (regions g)).

Lemma clip_fd r : r_backing_fd (guest_region_clip_overlay (H:=H) r) = r_backing_fd r.
Proof. unfold guest_region_clip_overlay. by repeat case_if. Qed.

(** Removal. *)
Lemma remove_loop_owns full s e l : forall stale fd h out stale' fd' h' F c,
  remove_loop full s e l stale fd h = (out, stale', fd', h') ->
  owns h F (fun x => (fd_count l x + one_fd fd x + c x)%nat) ->
  owns h' F (fun x => (fd_count out x + one_fd fd' x + c x)%nat).
Proof.
  induction l as [|r l IH]; intros stale fd h out stale' fd' h' F c Hl Ho; cbn [remove_loop] in Hl.
  { by simplify_eq. }
  case_match; [by simplify_eq|]. case_match.
  - destruct (Z.leb_spec 0 (r_backing_fd r)); simplify_eq; eapply owns_ext; try exact Ho; intros x Hx;
      cbn [fd_count]; rewrite !clip_fd; cbn; unfold one_fd;
      [destruct (Z.eqb_spec (-1) x)|destruct (Z.eqb_spec (r_backing_fd r) x)]; lia.
  - case_match.
    + eapply IH; [exact Hl|]. eapply owns_close; [|exact Ho]. intros x Hx. simpl. unfold one_fd. lia.
    + destruct (remove_loop _ _ _ _ _ _ _) as [[[o st] f] hh] eqn:E. simplify_eq.
      eapply (IH _ _ _ _ _ _ _ F (fun x => (one_fd (r_backing_fd r) x + c x)%nat)) in E.
      * eapply owns_ext; [|exact E]. intros x Hx. cbn [fd_count]. rewrite clip_fd.
        unfold one_fd. destruct (r_start r <? s); simpl; lia.
      * eapply owns_ext; [|exact Ho]. intros x Hx. simpl. unfold one_fd. lia.
Qed.

Lemma remove_reserved_owns g s e fd rc g' F :
  guest_region_remove_reserved g s e fd = (rc, g') ->
  owns (host g) F (fun x => (fd_count (regions g) x + one_fd fd x)%nat) -> fd_inv F g'.
Proof.
  unfold guest_region_remove_reserved. case_if.
  - intros; simplify_eq. eapply owns_close; [|done]. simpl; lia.
  - set (i := guest_region_first_end_above _ _).
    destruct (remove_loop _ _ _ _ _ _ _) as [[[o st] f] hh] eqn:E. intros; simplify_eq.
    eapply (remove_loop_owns _ _ _ _ _ _ _ _ _ _ _ F (fd_count (take i (regions g)))) in E.
    + unfold fd_inv. simpl. eapply owns_close; [|exact E]. intros x Hx. simpl.
      rewrite fd_count_app. lia.
    + eapply owns_ext; [|done]. intros x Hx. simpl. rewrite (fd_count_split i (regions g)). lia.
Qed.

Lemma one_fd_none x : 0 <= x -> one_fd (-1) x = 0%nat.
Proof. unfold one_fd. destruct (Z.eqb_spec (-1) x); lia. Qed.

(** The reserved descriptor belongs to the operation. *)
Lemma prepare_owns g s e rc fd g' F : fd_inv F g -> guest_region_remove_prepare g s e = (rc, fd, g') ->
  owns (host g') F (fun x => (fd_count (regions g') x + one_fd fd x)%nat) /\ (rc < 0 -> fd < 0).
Proof.
  intros Ho E. unfold guest_region_remove_prepare in E. unfold fd_inv in Ho.
  repeat case_match; simplify_eq; simpl;
    try (split; [|lia]; eapply owns_ext; [|exact Ho]; intros; simpl; rewrite one_fd_none by lia; lia).
  all: (split; [|unbool; lia]); eapply owns_ext; [|eapply owns_dup; eassumption]; intros; simpl; lia.
Qed.

Lemma owns_negative g fd F : fd < 0 -> owns (host g) F (fun x => (fd_count (regions g) x + one_fd fd x)%nat) ->
  fd_inv F g.
Proof. intros Hfd Ho. eapply owns_ext; [|exact Ho]. intros x Hx. simpl. unfold one_fd. destruct (Z.eqb_spec fd x); lia. Qed.

Lemma remove_owns g s e rc g' F :
  fd_inv F g -> guest_region_remove g s e = (rc, g') -> fd_inv F g'.
Proof.
  intros Ho. unfold guest_region_remove.
  destruct (guest_region_remove_prepare g s e) as [[rc0 fd] g0] eqn:E.
  destruct (prepare_owns _ _ _ _ _ _ F Ho E) as [Ho0 Hrc]. case_if; unbool.
  - intros; simplify_eq. eapply owns_negative; [by apply Hrc|done].
  - intros Hr. by eapply remove_reserved_owns.
Qed.

(** Merging two regions never merges two descriptors. *)
Definition same_fds (l l' : list guest_region_t) : Prop :=
  (forall x, 0 <= x -> (fd_count l x <= 1)%nat) -> forall x, 0 <= x -> fd_count l' x = fd_count l x.

#[export] Instance same_fds_preorder : PreOrder same_fds.
Proof.
  split; [by intros l ?|]. intros l1 l2 l3 A B Hc x Hx.
  rewrite <- A by done. apply B; [|done]. intros y Hy. rewrite A; auto.
Qed.

Lemma merge_at_fds pre a b post :
  regions_mergeable a b = true ->
  same_fds (pre ++ a :: b :: post) (pre ++ set_end (r_end b) a :: post).
Proof.
  intros (_&_&_&_&E&_)%regions_mergeable_true Hc x Hx. specialize (Hc x Hx).
  rewrite !fd_count_app in *. cbn [fd_count] in *. simpl. rewrite E in *.
  destruct (r_backing_fd b =? x); lia.
Qed.

Lemma owns_same_fds h F l l' : same_fds l l' -> owns h F (fd_count l) -> owns h F (fd_count l').
Proof. intros Hs Ho. eapply owns_ext; [|exact Ho]. apply Hs. intros x Hx. by apply Ho. Qed.

Lemma fuses_fds l l' : fuses l l' -> same_fds l l'.
Proof. intros [->|(pre & a & b & post & Hm & -> & ->)]; [reflexivity|by apply merge_at_fds]. Qed.

Lemma merge_left_down_fds f n l : same_fds l (merge_left_down f n l).
Proof.
  revert l. induction n as [|n IH]; intros l; cbn [merge_left_down]; [reflexivity|].
  etrans; [apply fuses_fds, try_merge_left_fuses|apply IH].
Qed.

(** Protection changes. *)
Lemma split_right_owns b r h r' h' F c :
  split_right b r h = (r', h') -> owns h F (fun x => (one_fd (r_backing_fd r) x + c x)%nat) ->
  owns h' F (fun x => (one_fd (r_backing_fd r) x + one_fd (r_backing_fd r') x + c x)%nat).
Proof.
  unfold split_right. destruct (Z.leb_spec 0 (r_backing_fd r)).
  - destruct (host_dup h (r_backing_fd r)) as [nfd h1] eqn:E. intros; simplify_eq.
    eapply owns_ext; [|eapply owns_dup; eassumption]. intros x Hx. cbn.
    rewrite clip_fd. simpl. lia.
  - intros; simplify_eq. rewrite clip_fd. simpl. eapply owns_ext; [|done].
    intros x Hx. unfold one_fd. simpl. destruct (Z.eqb_spec (r_backing_fd r) x); lia.
Qed.

Lemma set_prot_loop_owns s e p l : forall pre fm lm stale h out fm' lm' stale' h' F,
  set_prot_loop s e p pre l fm lm stale h = (out, fm', lm', stale', h') ->
  owns h F (fd_count (pre ++ l)) -> owns h' F (fd_count out).
Proof.
  induction l as [|r l IH]; intros pre fm lm stale h out fm' lm' stale' h' F Hl Ho; cbn [set_prot_loop] in Hl.
  { simplify_eq. by rewrite app_nil_r in Ho. }
  assert (Hgo : forall pre r h fm lm stale, owns h F (fd_count (pre ++ r :: l)) ->
    set_prot_loop s e p (pre ++ [set_prot_field p r]) l fm lm stale h = (out, fm', lm', stale', h') ->
    owns h' F (fd_count out)).
  { intros pre0 r0 h0 f0 l0 s0 Ho0 Hl0. eapply IH; [exact Hl0|]. eapply owns_ext; [|exact Ho0].
    intros x Hx. rewrite !fd_count_app. simpl. lia. }
  case_match; [by simplify_eq|]. case_match.
  { eapply IH; [exact Hl|]. by rewrite <- app_assoc. }
  destruct (if r_start r <? s then _ else _) as [[pre1 r1] h1] eqn:E1.
  assert (owns h1 F (fd_count (pre1 ++ r1 :: l))) as Ho1.
  { destruct (r_start r <? s); [|by simplify_eq].
    destruct (split_right s r h) as [r2 h2] eqn:E2. simplify_eq.
    eapply owns_ext; [|eapply (split_right_owns _ _ _ _ _ F (fun x => fd_count (pre ++ l) x)%nat); [exact E2|]].
    - intros x Hx. rewrite <- app_assoc, !fd_count_app. cbn. rewrite clip_fd. unfold one_fd. simpl. lia.
    - eapply owns_ext; [|exact Ho]. intros x Hx. rewrite !fd_count_app. cbn. unfold one_fd. lia. }
  case_match; [|by eapply Hgo]. case_match; [by eapply Hgo|].
  destruct (split_right e r1 h1) as [r2 h2] eqn:E2. simplify_eq.
  eapply owns_ext; [|eapply (split_right_owns _ _ _ _ _ F (fun x => fd_count (pre1 ++ l) x)%nat); [exact E2|]].
  - intros x Hx. rewrite !fd_count_app. cbn. rewrite clip_fd. unfold one_fd. simpl. lia.
  - eapply owns_ext; [|exact Ho1]. intros x Hx. rewrite !fd_count_app. cbn. unfold one_fd. lia.
Qed.

Lemma set_prot_owns g s e p F : fd_inv F g -> fd_inv F (guest_region_set_prot g s e p).
Proof.
  intros Ho. unfold guest_region_set_prot.
  destruct (set_prot_loop _ _ _ _ _ _ _ _ _) as [[[[l fm] lm] st] h] eqn:E.
  eapply set_prot_loop_owns in E; [|rewrite take_drop; exact Ho].
  unfold fd_inv. simpl. destruct fm, lm; try done.
  eapply owns_same_fds; [|exact E].
  etrans; [apply fuses_fds, try_merge_right_fuses|].
  etrans; [apply merge_left_down_fds|apply fuses_fds, try_merge_left_fuses].
Qed.

(** Insertion takes over the descriptor it is given. *)
Lemma add_owns g start end_ gpa_base prot flags offset name fd inherited vma rc g' F :
  owns (host g) F (fun x => (fd_count (regions g) x + one_fd fd x)%nat) ->
  guest_region_add_ex_owned_gpa g start end_ gpa_base prot flags offset name fd inherited vma
    = (rc, g') -> fd_inv F g'.
Proof.
  intros Ho. unfold guest_region_add_ex_owned_gpa. case_if.
  { intros; simplify_eq. eapply owns_close; [|exact Ho]. intros; simpl; lia. }
  destruct (if vma =? 0 then _ else _) as [v0 next].
  match goal with |- context [try_merge_right (_ ++ ?x :: _) _] => set (r := x) end.
  assert (r_backing_fd r = fd) as Hr by (subst r; by repeat case_match).
  clearbody r. set (i := region_lower_bound_start _ _). intros; simplify_eq.
  unfold fd_inv. simpl. eapply owns_same_fds;
    [etrans; [apply fuses_fds, try_merge_right_fuses|apply fuses_fds, try_merge_left_fuses]|].
  eapply owns_ext; [|exact Ho]. intros x Hx. cbv beta. rewrite (fd_count_split i (regions g)), fd_count_app. cbn. unfold one_fd. lia.
Qed.

Lemma add_ex_gpa_owns g start end_ gpa_base prot flags offset name fd rc g' F :
  fd_inv F g ->
  guest_region_add_ex_gpa g start end_ gpa_base prot flags offset name fd = (rc, g') -> fd_inv F g'.
Proof.
  intros Ho. unfold guest_region_add_ex_gpa, dup_backing, dup_backing_host.
  destruct (0 <=? fd).
  - destruct (host_dup (host g) fd) as [nfd h1] eqn:E. pose proof (owns_dup _ _ _ _ _ _ E Ho) as Hd.
    destruct (Z.ltb_spec nfd 0).
    + intros; simplify_eq. eapply owns_ext; [|exact Hd]. intros x Hx. unfold one_fd. simpl.
      destruct (Z.eqb_spec nfd x); lia.
    + apply add_owns. eapply owns_ext; [|exact Hd]. intros; simpl. lia.
  - apply add_owns. eapply owns_ext; [|exact Ho]. intros x Hx. simpl. rewrite one_fd_none by done. lia.
Qed.

Lemma clear_owns g F : fd_inv F g -> fd_inv F (guest_region_clear g).
Proof.
  unfold fd_inv, guest_region_clear. simpl. generalize (host g).
  induction (regions g) as [|r l IH]; intros h Ho; simpl; [done|]. apply IH.
  eapply owns_close; [|exact Ho]. done.
Qed.

End Ownership.
