(* ===== verification/RegionSpecs.v ===== *)
(** * What the region tracker promises

    The theorems clients of the tracker rely on, each about a whole operation
    of src/core/guest.c and each at a concrete tracker as well. *)

From S2P Require Import Prelude Regions RegionFacts HostFds.

(** ** A concrete tracker

    A file mapping, an anonymous mapping next to it and a stack, over a host
    with a descriptor table of sixteen entries. *)

Definition ex_file : guest_region_t :=
  mk_region 4194304 4227072 4194304 1 5 LINUX_MAP_PRIVATE 8192 3 false false false false false 0 0 "a.out".
Definition ex_anon : guest_region_t :=
  mk_region 4227072 4243456 4227072 2 3 34 0 (-1) false false false false false 0 0 "[heap]".
Definition ex_stack : guest_region_t :=
  mk_region 134217728 142606336 134217728 3 3 34 0 (-1) false false false false false 0 0 "[stack]".

Definition ex_tracker : tracker ListHost.t :=
  mk_tracker [ex_file; ex_anon; ex_stack] 3 false (ListHost.mk 16 [0; 1; 2; 3]).

Lemma ex_tracker_wf : tracker_wf ex_tracker.
Proof.
  split; [split|]; [vm_compute; intuition congruence| |apply Nat.leb_le; reflexivity].
  repeat constructor; vm_compute; congruence.
Qed.

Lemma ex_tracker_fds : fd_inv (fun x => x = 0 \/ x = 1 \/ x = 2) ex_tracker.
Proof.
  intros x Hx. cbn -[Z.eqb]. unfold ex_file, ex_anon, ex_stack; cbn -[Z.eqb].
  destruct (Z.eqb_spec 3 x), (Z.eqb_spec (-1) x); lia || (split; [|split]; lia).
Qed.

(** ** Lookup *)

(** The binary search of [guest_region_find] returns a region exactly when
    the array holds one containing the address, and it is that region. *)
Theorem guest_region_find_correct (l : list guest_region_t) (a : Z) (r : guest_region_t) :
  list_ok l ->
  (guest_region_find l a = Some r <-> r ∈ l /\ r_start r <= a < r_end r).
Proof.
  intros [Hc _]. rewrite (guest_region_find_at 0) by done. split.
  - intros [Hin Ha]%region_at_Some. unfold in_region in Ha. unbool. auto.
  - intros [[i Hi]%list_elem_of_lookup_1 Ha]. eapply region_at_lookup; [done..|].
    unfold in_region. apply andb_true_intro; split; [apply Z.leb_le|apply Z.ltb_lt]; lia.
Qed.

Lemma guest_region_find_correct_witness :
  ex_anon ∈ regions ex_tracker /\ r_start ex_anon <= 4230000 < r_end ex_anon.
Proof.
  apply (guest_region_find_correct (regions ex_tracker) 4230000 ex_anon);
    [apply ex_tracker_wf | vm_compute; reflexivity].
Defined.

(** ** Removal *)

(** C39: [guest_region_remove] either reports failure and leaves the array as it
    was, or the array describes no address of the range any more, says nothing
    new about any address, and (unless it raised the stale mark, which takes a
    full table) says the same as before about every address outside the range.
    The sorted, non-overlapping layout is preserved. *)
Theorem guest_region_remove_correct {H} `{HostEnv H} `{!HostPageOk H}
    (g : tracker H) (s e rc : Z) (g' : tracker H) :
  tracker_wf g -> 0 <= s -> guest_region_remove g s e = (rc, g') ->
  (rc = -1 /\ regions g' = regions g /\ regions_tracker_stale g' = regions_tracker_stale g /\
   next_vma_id g' = next_vma_id g) \/
  (rc = 0 /\ removes g g' s e).
Proof. apply remove_spec. Qed.

Lemma guest_region_remove_correct_witness :
  let '(rc, g') := guest_region_remove ex_tracker 4198400 4231168 in
  rc = 0 /\ removes ex_tracker g' 4198400 4231168.
Proof.
  destruct (guest_region_remove ex_tracker 4198400 4231168) as [rc g'] eqn:E.
  destruct (guest_region_remove_correct ex_tracker 4198400 4231168 rc g') as [[Hrc _]|?];
    [apply ex_tracker_wf|lia|exact E| |assumption].
  vm_compute in E. congruence.
Defined.

(** ** Insertion *)

(** inserting a region over unmapped addresses fails only when the table is
    full (and then releases the descriptor it was given); otherwise exactly the
    inserted range gets the given attributes, whatever merging with the
    neighbours did, and no other address changes. *)
Theorem guest_region_add_correct {H} `{HostEnv H}
    (g : tracker H) (start end_ gpa_base prot flags offset : Z) (name : option string)
    (fd : Z) (inherited : bool) (vma rc : Z) (g' : tracker H) :
  tracker_wf g -> 0 <= start < end_ -> end_ <= VA_TOP ->
  (forall a, start <= a < end_ -> view (regions g) a = None) ->
  guest_region_add_ex_owned_gpa g start end_ gpa_base prot flags offset name fd inherited vma
    = (rc, g') ->
  (rc = -1 /\ nregions g = GUEST_MAX_REGIONS /\ regions g' = regions g /\
   regions_tracker_stale g' = regions_tracker_stale g /\
   next_vma_id g' = next_vma_id g /\ host g' = close_owned (host g) fd) \/
  (rc = 0 /\ host g' = host g /\ exists v, (vma <> 0 -> v = vma) /\
   adds g g' start end_ (new_attrs start gpa_base prot flags offset name inherited v)).
Proof. apply add_spec. Qed.

Lemma guest_region_add_correct_witness :
  let '(rc, g') := guest_region_add_ex_owned_gpa ex_tracker 4243456 4251648 4243456 3 34 0
                     (Some "[heap]") (-1) false 0 in
  rc = 0 /\ nregions g' = 3%nat /\
  exists v, adds ex_tracker g' 4243456 4251648 (new_attrs 4243456 4243456 3 34 0 (Some "[heap]") false v).
Proof.
  destruct (guest_region_add_ex_owned_gpa _ _ _ _ _ _ _ _ _ _ _) as [rc g'] eqn:E.
  destruct (guest_region_add_correct ex_tracker 4243456 4251648 4243456 3 34 0 (Some "[heap]") (-1)
              false 0 rc g') as [[Hrc _]|(Hrc & _ & v & _ & Ha)];
    [apply ex_tracker_wf|lia|conc| |exact E| |].
  - intros a Ha. change (regions ex_tracker) with [ex_file; ex_anon; ex_stack].
    rewrite !view_cons. unfold in_region, ex_file, ex_anon, ex_stack. simpl.
    rewrite (proj2 (Z.ltb_ge a 4227072)), (proj2 (Z.ltb_ge a 4243456)), (proj2 (Z.leb_gt 134217728 a)) by lia.
    by rewrite !andb_false_r.
  - vm_compute in E. congruence.
  - split_and!; [done| |by exists v]. vm_compute in E. injection E as <- <-. reflexivity.
Defined.

(** ** Protection changes *)

(** [guest_region_set_prot] maps what was mapped before; when it does not
    raise the stale mark, exactly the mapped addresses of the range get the new
    protection and every other attribute of every address is kept; with two free
    table slots it never raises the mark. *)
Theorem guest_region_set_prot_correct {H} `{HostEnv H} `{!HostPageOk H} (g : tracker H) (s e p : Z) :
  tracker_wf g -> 0 <= s < e -> prot_changes g (guest_region_set_prot g s e p) s e p.
Proof. apply set_prot_spec. Qed.

Lemma guest_region_set_prot_correct_witness :
  prot_changes ex_tracker (guest_region_set_prot ex_tracker 4198400 4231168 1) 4198400 4231168 1.
Proof. apply (guest_region_set_prot_correct ex_tracker 4198400 4231168 1); [apply ex_tracker_wf|lia]. Defined.

(** ** Descriptors *)

(** No region operation leaks a backing descriptor or closes one that
    something else owns: after each of them, whatever the host's [dup]
    answered, the open descriptors are the foreign ones and one per region
    that records one. *)
Theorem region_ops_own_fds {H} `{HostEnv H} `{!HostFdLaws H} (F : Z -> Prop) (g : tracker H) :
  fd_inv F g ->
  (forall s e, fd_inv F (snd (guest_region_remove g s e))) /\
  (forall s e p, fd_inv F (guest_region_set_prot g s e p)) /\
  (forall start end_ gpa_base prot flags offset name fd,
     fd_inv F (snd (guest_region_add_ex_gpa g start end_ gpa_base prot flags offset name fd))) /\
  (forall start end_ gpa_base prot offset name,
     fd_inv F (snd (guest_region_add_elf_segment g start end_ gpa_base prot offset name))) /\
  fd_inv F (guest_region_clear g).
Proof.
  intros Ho. split_and!; intros; [|by apply set_prot_owns| | |by apply clear_owns].
  - destruct (guest_region_remove g s e) as [rc g'] eqn:E. by eapply remove_owns.
  - destruct (guest_region_add_ex_gpa _ _ _ _ _ _ _ _ _) as [rc g'] eqn:E. by eapply add_ex_gpa_owns.
  - unfold guest_region_add_elf_segment.
    destruct (guest_region_remove g _ _) as [rc g'] eqn:E. eapply remove_owns in E; [|done].
    case_if; [done|]. destruct (guest_region_add_ex_gpa _ _ _ _ _ _ _ _ _) as [rc2 g2] eqn:E2.
    by eapply add_ex_gpa_owns.
Qed.

Lemma region_ops_own_fds_witness :
  fd_inv (fun x => x = 0 \/ x = 1 \/ x = 2) (snd (guest_region_remove ex_tracker 4198400 4202496)).
Proof. exact (proj1 (region_ops_own_fds _ ex_tracker ex_tracker_fds) 4198400 4202496). Defined.

(** ** Range queries *)

Lemma range_walk_spec lo l s e q :
  chain lo l -> s < e ->
  range_walk e q (drop (guest_region_first_end_above l s) l) = true <->
  (forall r, r ∈ l -> r_start r < e -> s < r_end r -> q r = true).
Proof.
  intros Hc Hse. destruct (first_end_above_split lo l s Hc) as (Hi & Hb & Ha).
  set (i := guest_region_first_end_above l s) in *. clearbody i.
  assert (forall r, r ∈ l -> s < r_end r -> r ∈ drop i l) as Hmem.
  { intros r Hr Hs. rewrite <- (take_drop i l) in Hr. apply elem_of_app in Hr as [Hr|Hr]; [|done].
    rewrite Forall_forall in Hb. apply list_elem_of_In, Hb in Hr. simpl in Hr. lia. }
  trans (forall r, r ∈ drop i l -> r_start r < e -> s < r_end r -> q r = true).
  2:{ split; [by auto|]. intros Hq r Hr. apply Hq. rewrite <- (take_drop i l). apply elem_of_app. by right. }
  rewrite <- (take_drop i l) in Hc. apply chain_app in Hc as [_ Hc].
  revert Hc Ha. generalize (last_end lo (take i l)), (drop i l). clear. intros z l.
  revert z. induction l as [|r l IH]; intros z Hc Ha; simpl.
  { split; [by intros _ r ?%elem_of_nil|done]. }
  apply Forall_cons_1 in Ha as [Har Ha]. destruct Hc as (?&?&Hc).
  setoid_rewrite elem_of_cons.
  destruct (Z.leb_spec e (r_start r)).
  - split; [|done]. intros _ x [->|Hx]; [lia|]. apply (chain_bounds _ _ _ Hc) in Hx. lia.
  - destruct (q r) eqn:Eq.
    + rewrite (IH _ Hc Ha). naive_solver.
    + split; [done|]. intros Hq. rewrite <- Eq. apply Hq; auto.
Qed.

(** [guest_region_range_prot_uniform] answers true exactly when every
    mapped address of the range has the given protection. *)
Theorem guest_region_range_prot_uniform_correct (l : list guest_region_t) (s e p : Z) :
  list_ok l -> s < e ->
  (guest_region_range_prot_uniform l s e p = true <->
   forall a x, s <= a < e -> view l a = Some x -> a_prot x = p).
Proof.
  intros [Hc _] Hse. unfold guest_region_range_prot_uniform. rewrite (range_walk_spec 0) by done.
  split.
  - intros Hq a x Ha. unfold view. destruct (region_at l a) as [r|] eqn:Er; [|done].
    intros [= <-]. apply region_at_Some in Er as [Hin Hir]. unfold in_region in Hir. unbool. simpl.
    apply Z.eqb_eq, Hq; [done|lia|lia].
  - intros Hv r Hin H1 H2. apply Z.eqb_eq. pose proof (chain_bounds _ _ _ Hc Hin).
    apply list_elem_of_lookup_1 in Hin as [i Hi].
    apply (Hv (Z.max s (r_start r)) (attr_at r (Z.max s (r_start r)))); [lia|].
    unfold view. erewrite region_at_lookup; [done|done|done|].
    unfold in_region. apply andb_true_intro; split; [apply Z.leb_le|apply Z.ltb_lt]; lia.
Qed.

Lemma guest_region_range_prot_uniform_correct_witness :
  guest_region_range_prot_uniform (regions ex_tracker) 4194304 4230000 5 = false /\
  (forall a x, 4194304 <= a < 4200000 -> view (regions ex_tracker) a = Some x -> a_prot x = 5).
Proof.
  split; [vm_compute; reflexivity|].
  apply (guest_region_range_prot_uniform_correct (regions ex_tracker) 4194304 4200000 5);
    [apply ex_tracker_wf|lia|vm_compute; reflexivity].
Defined.
