(* ===== verification/RegionSplit.v ===== *)
(** * Overlay metadata and boundary splits of the region array: src/syscall/mem.c

    The memory syscalls cut the region array at the ends of the range they work
    on, and can take a cut back exactly.  The overlay fields of a region record
    which part of its host memory is a live file mapping. *)

From S2P Require Import Prelude Regions RegionFacts HostFds.

(** ** Overlay metadata *)

Definition region_has_live_overlay (r : guest_region_t) : bool :=
  r_overlay_active r && (r_overlay_start r <? r_overlay_end r).

Definition region_clear_overlay (r : guest_region_t) : guest_region_t := set_overlay false 0 0 r.

Definition clear_overlay_metadata_range (l : list guest_region_t) (start end_ : Z) : list guest_region_t :=
  map (fun r =>
    if negb (region_has_live_overlay r) then r
    else if negb (r_overlay_start r =? start) || negb (r_overlay_end r =? end_) then r
    else region_clear_overlay r) l.

(** The [for] loops that visit the regions overlapping a range, from the first
    one that ends above its start: [f] on every one of them. *)
Fixpoint visit_loop (f : guest_region_t -> guest_region_t) (start end_ : Z) (l : list guest_region_t)
    : list guest_region_t :=
  match l with
  | [] => []
  | r :: l' =>
      if end_ <=? r_start r then l
      else (if r_end r <=? start then r else f r) :: visit_loop f start end_ l'
  end.

Definition visit_range (f : guest_region_t -> guest_region_t) (start end_ : Z) (l : list guest_region_t)
    : list guest_region_t :=
  let i := guest_region_first_end_above l start in
  take i l ++ visit_loop f start end_ (drop i l).

Definition set_backing_ro (r : guest_region_t) : guest_region_t :=
  mk_region (r_start r) (r_end r) (r_gpa_base r) (r_vma_id r) (r_prot r) (r_flags r) (r_offset r)
    (r_backing_fd r) (r_shared r) (r_noreserve r) true (r_inherited_at_fork r) (r_overlay_active r)
    (r_overlay_start r) (r_overlay_end r) (r_name r).

Definition mark_region_backing_ro (l : list guest_region_t) (start end_ : Z) : list guest_region_t :=
  visit_range set_backing_ro start end_ l.

Section Split.
Context {H : Type} `{HE : HostEnv H}.

Definition host_page_size_cached : Z := if 0 <? sysconf_pagesize then sysconf_pagesize else 4096.

Definition region_clip_overlay (r : guest_region_t) : guest_region_t :=
  if negb (region_has_live_overlay r) || (r_end r <=? r_start r) then region_clear_overlay r
  else
    let hps := host_page_size_cached in
    let page_start := ALIGN_DOWN (r_start r) hps in
    let page_end := ALIGN_UP (r_end r) hps in
    let os := if r_overlay_start r <? page_start then page_start else r_overlay_start r in
    let oe := if page_end <? r_overlay_end r then page_end else r_overlay_end r in
    let r := set_overlay (r_overlay_active r) os oe r in
    if oe <=? os then region_clear_overlay r else r.

Definition mark_overlay_metadata_range (l : list guest_region_t) (start end_ overlay_start overlay_end : Z)
    : list guest_region_t :=
  visit_range (fun r => region_clip_overlay (set_overlay true overlay_start overlay_end r)) start end_ l.

(** ** Boundary splits *)

(** [None] for the index -1 of a split that did nothing. *)
Definition region_split_undo_t : Type := option (nat * guest_region_t).

Definition with_host (h : H) (g : tracker H) : tracker H :=
  mk_tracker (regions g) (next_vma_id g) (regions_tracker_stale g) h.

Definition split_regions_at_boundary (g : tracker H) (boundary : Z) : Z * region_split_undo_t * tracker H :=
  if boundary =? 0 then (0, None, g)
  else
    let l := regions g in
    let i := guest_region_first_end_above l boundary in
    match l !! i with
    | None => (0, None, g)
    | Some r =>
        if boundary <=? r_start r then (0, None, g)
        else if (GUEST_MAX_REGIONS <=? nregions g)%nat then (- LINUX_ENOMEM, None, g)
        else
          let '(fd, h) := if 0 <=? r_backing_fd r then host_dup (host g) (r_backing_fd r)
                          else (r_backing_fd r, host g) in
          if (0 <=? r_backing_fd r) && (fd <? 0) then (- LINUX_ENOMEM, None, with_host h g)
          else
            let lft := region_clip_overlay (set_end boundary r) in
            let rgt := region_clip_overlay (advance_start boundary (set_backing_fd fd r)) in
            (0, Some (i, r), with_host h (with_regions (take i l ++ lft :: rgt :: drop (i + 1) l) g))
    end.

Definition undo_region_split (g : tracker H) (undo : region_split_undo_t) : tracker H :=
  match undo with
  | None => g
  | Some (i, orig) =>
      let l := regions g in
      let h := match l !! (i + 1)%nat with
               | Some r => if 0 <=? r_backing_fd r then host_close (host g) (r_backing_fd r) else host g
               | None => host g
               end in
      with_host h (with_regions (take i l ++ orig :: drop (i + 2) l) g)
  end.

Definition split_regions_at_bounds (g : tracker H) (start end_ : Z)
    : Z * (region_split_undo_t * region_split_undo_t) * tracker H :=
  let '(err, u0, g) := split_regions_at_boundary g start in
  if err <? 0 then (err, (u0, None), g)
  else
    let '(err, u1, g) := split_regions_at_boundary g end_ in
    (err, (u0, u1), if err <? 0 then undo_region_split g u0 else g).

Definition undo_region_splits (g : tracker H) (undo : region_split_undo_t * region_split_undo_t) : tracker H :=
  undo_region_split (undo_region_split g (snd undo)) (fst undo).

End Split.
