(* ===== verification/SplitFacts.v ===== *)
(** * Facts about boundary splits

    A split keeps what the tracker says about every address and who owns which
    descriptor, cuts the array at the boundary, and its undo record restores the
    array and the descriptor table. *)

From S2P Require Import Prelude Regions RegionFacts HostFds RegionSplit.

(** No region of [l] crosses [b]. *)
Definition cut_at (b : Z) (l : list guest_region_t) : Prop := Forall (fun r => r_end r <= b \/ b <= r_start r) l.

Section Clip.
Context {H : Type} `{HE : HostEnv H}.

(** The clip of src/syscall/mem.c is that of src/core/guest.c. *)
Lemma clip_eq r : region_clip_overlay (H:=H) r = guest_region_clip_overlay (H:=H) r.
Proof.
  unfold region_clip_overlay, guest_region_clip_overlay, region_has_live_overlay, region_clear_overlay,
    guest_region_clear_overlay, host_page_size_cached, guest_host_page_size_cached, GUEST_PAGE_SIZE.
  destruct (r_overlay_active r); cbn [andb negb orb]; [|done].
  set (ps := ALIGN_DOWN _ _). set (pe := ALIGN_UP _ _). clearbody ps pe.
  destruct (Z.ltb_spec (r_overlay_start r) (r_overlay_end r)); cbn [negb orb];
    (destruct (Z.leb_spec (r_end r) (r_start r)); [done|]);
    destruct (Z.ltb_spec ps (r_overlay_start r)), (Z.ltb_spec (r_overlay_start r) ps),
      (Z.ltb_spec pe (r_overlay_end r)), (Z.ltb_spec (r_overlay_end r) pe); try lia;
    repeat match goal with |- context [?x <=? ?y] => destruct (Z.leb_spec x y) end; try lia; try done;
    unfold set_overlay; f_equal; lia.
Qed.
End Clip.

Section Facts.
Context {H : Type} `{HE : HostEnv H} `{HP : !HostPageOk H}.

(** The pieces of a region split at an interior boundary. *)
Lemma split_pieces_view r b fd l : region_ok r -> r_start r < b < r_end r ->
  let lft := region_clip_overlay (H:=H) (set_end b r) in
  let rgt := region_clip_overlay (H:=H) (advance_start b (set_backing_fd fd r)) in
  piece r (r_start r) b lft /\ piece r b (r_end r) rgt /\
  forall a, view (lft :: rgt :: l) a = view (r :: l) a.
Proof using HP.
  intros Hok Hb lft rgt. subst lft rgt. rewrite !clip_eq.
  assert (piece r (r_start r) b (guest_region_clip_overlay (H:=H) (set_end b r))) as P1
    by (apply piece_clip, piece_left; [done|lia]).
  assert (piece r b (r_end r) (guest_region_clip_overlay (H:=H) (advance_start b (set_backing_fd fd r)))) as P2.
  { apply piece_clip. apply (piece_fd r b (r_end r) fd (advance_start b r)), piece_right; [done|lia]. }
  split; [done|]. split; [done|]. intros a.
  rewrite (view_piece _ _ _ _ _ _ P1), (view_piece _ _ _ _ _ _ P2), view_cons. unfold in_region.
  destruct (Z.leb_spec (r_start r) a), (Z.ltb_spec a b), (Z.leb_spec b a), (Z.ltb_spec a (r_end r)); try lia; done.
Qed.

(** What a split did: nothing, or one region in two. *)
Inductive split_step (b : Z) (g : tracker H) : Z -> region_split_undo_t -> tracker H -> Prop :=
  | split_none : cut_at b (regions g) -> split_step b g 0 None g
  | split_fail h : (h = host g \/ exists fd nfd, host_dup (host g) fd = (nfd, h) /\ nfd < 0) ->
      split_step b g (- LINUX_ENOMEM) None (with_host h g)
  | split_two l1 r l2 fd h : regions g = l1 ++ r :: l2 -> r_start r < b < r_end r ->
      (nregions g < GUEST_MAX_REGIONS)%nat ->
      (if 0 <=? r_backing_fd r then host_dup (host g) (r_backing_fd r) = (fd, h) /\ 0 <= fd
       else fd = r_backing_fd r /\ h = host g) ->
      split_step b g 0 (Some (length l1, r))
        (with_host h (with_regions (l1 ++ region_clip_overlay (H:=H) (set_end b r) ::
            region_clip_overlay (H:=H) (advance_start b (set_backing_fd fd r)) :: l2) g)).

Lemma split_boundary_step g b rc u g' : list_ok (regions g) -> 0 <= b ->
  split_regions_at_boundary g b = (rc, u, g') -> split_step b g rc u g'.
Proof.
  intros [Hc Hok] Hb. unfold split_regions_at_boundary.
  destruct (Z.eqb_spec b 0) as [->|Hb0].
  { intros [= <- <- <-]. constructor. apply list.Forall_forall. intros r Hr.
    pose proof (chain_bounds _ _ _ Hc Hr). lia. }
  destruct (first_end_above_split 0 (regions g) b Hc) as (Hi & Hlo & Hhi).
  set (i := guest_region_first_end_above (regions g) b) in *.
  assert (forall l, drop i (regions g) = l -> (match l with r :: _ => b <= r_start r | [] => True end) -> cut_at b (regions g)) as Hcut.
  { intros l El Hl. rewrite <- (take_drop i (regions g)). apply Forall_app. split.
    - apply (list.Forall_impl _ _ _ Hlo). lia.
    - rewrite El. rewrite <- (take_drop i (regions g)), El in Hc. apply chain_app in Hc as [_ Hc].
      destruct l as [|r l]; [constructor|]. apply list.Forall_forall. intros x Hx. right.
      pose proof (chain_bounds _ _ _ Hc Hx) as [? _]. cbn [chain] in Hc.
      apply elem_of_cons in Hx as [->|Hx]; [done|].
      destruct Hc as (_ & ? & Hc). pose proof (chain_bounds _ _ _ Hc Hx). lia. }
  destruct (regions g !! i) as [r|] eqn:Ei.
  2:{ intros [= <- <- <-]. constructor. apply (Hcut []); [|done]. apply drop_ge. by apply lookup_ge_None. }
  pose proof (drop_S _ _ _ Ei) as Ed.
  destruct (Z.leb_spec b (r_start r)) as [Hle|Hlt].
  { intros [= <- <- <-]. constructor. by apply (Hcut _ Ed). }
  destruct (Nat.leb_spec GUEST_MAX_REGIONS (nregions g)) as [Hfull|Hroom].
  { intros [= <- <- <-]. pose proof (split_fail b g (host g) (or_introl eq_refl)) as X. by destruct g. }
  assert (b < r_end r) as Hre. { rewrite Ed in Hhi. by inversion Hhi. }
  pose proof (take_drop_middle _ _ _ Ei) as Em. rewrite Nat.add_1_r.
  assert (length (take i (regions g)) = i) as Hlen by (apply length_take_le; apply lookup_lt_Some in Ei; lia).
  destruct (Z.leb_spec 0 (r_backing_fd r)) as [Hfd|Hfd].
  - destruct (host_dup (host g) (r_backing_fd r)) as [fd h] eqn:Ed'. cbn [andb].
    destruct (Z.ltb_spec fd 0); intros [= <- <- <-].
    + constructor. right. by exists (r_backing_fd r), fd.
    + rewrite <- Hlen at 1. apply (split_two b g _ r _ fd h); [done|lia|done|].
      rewrite (proj2 (Z.leb_le _ _)) by done. split; [done|lia].
  - cbn [andb]. intros [= <- <- <-]. rewrite <- Hlen at 1. apply (split_two b g _ r _ (r_backing_fd r) (host g)); [done|lia|done|].
    rewrite (proj2 (Z.leb_gt _ _)) by done. done.
Qed.

Lemma split_failed b g rc u g' : split_step b g rc u g' -> rc < 0 -> u = None.
Proof. intros [] ?; [done|done|lia]. Qed.

Lemma split_step_wf b g rc u g' : tracker_wf g -> split_step b g rc u g' ->
  tracker_wf g' /\ (forall a, view (regions g') a = view (regions g) a) /\
  (rc = 0 -> cut_at b (regions g')) /\ (forall c, cut_at c (regions g) -> cut_at c (regions g')) /\
  (rc <> 0 -> regions g' = regions g) /\ rc <= 0.
Proof using HP.
  intros [[Hc Hok] Hn] [|h ?|l1 r l2 fd h El Hb Hroom _]; [by split_and!|by split_and!|].
  unfold tracker_wf, list_ok, nregions in *. cbn [with_host with_regions regions] in *. rewrite El in *.
  apply chain_app in Hc as [Hc1 [Hs [He Hc2]]]. rewrite Forall_app, Forall_cons_iff in Hok. destruct Hok as (Hok1 & Hr & Hok2).
  destruct (split_pieces_view r b fd l2 Hr Hb) as ((S1 & E1 & O1 & _) & (S2 & E2 & O2 & _) & Hv).
  split_and!.
  - apply chain_app. split; [done|]. cbn [chain]. rewrite S1, E1, S2, E2. split_and!; [lia..|done].
  - rewrite Forall_app, !Forall_cons_iff. by split_and!.
  - rewrite length_app in *. cbn [length] in *. lia.
  - intros a. rewrite !view_app, Hv. done.
  - intros _. unfold cut_at. rewrite Forall_app, !Forall_cons_iff, S1, E1, S2, E2. split_and!; [|lia..|].
    + apply list.Forall_forall. intros x Hx. pose proof (chain_bounds _ _ _ Hc1 Hx). lia.
    + apply list.Forall_forall. intros x Hx. pose proof (chain_bounds _ _ _ Hc2 Hx). lia.
  - intros c. unfold cut_at. rewrite !Forall_app, !Forall_cons_iff, S1, E1, S2, E2. intros (? & ? & ?).
    split_and!; [done|lia..|done].
  - done.
  - done.
Qed.

(** *** Undoing *)

Context `{HF : !HostFdLaws H}.

(** The same array and the same open descriptors. *)
Definition same_tracker (g g' : tracker H) : Prop :=
  regions g' = regions g /\ next_vma_id g' = next_vma_id g /\
  regions_tracker_stale g' = regions_tracker_stale g /\ forall x, fd_open (host g') x <-> fd_open (host g) x.

#[export] Instance same_tracker_equiv : Equivalence same_tracker.
Proof.
  split.
  - by intros g.
  - intros g g' (? & ? & ? & Hx). split_and!; [done..|]. intros x. by rewrite Hx.
  - intros g1 g2 g3 (? & ? & ? & Hx) (? & ? & ? & Hy). split_and!; [congruence..|]. intros x. by rewrite Hy.
Qed.

Lemma undo_proper u g g' : same_tracker g g' -> same_tracker (undo_region_split g u) (undo_region_split g' u).
Proof.
  destruct u as [[i orig]|]; [|done]. intros (El & En & Es & Hx). unfold undo_region_split. rewrite El.
  split_and!; [done..|]. cbn [with_host with_regions host].
  intros x. destruct (regions g !! (i + 1)%nat) as [r|]; [|done]. case_if; [|done]. by rewrite !close_spec, Hx.
Qed.

Lemma split_step_undo b g rc u g' : split_step b g rc u g' -> same_tracker g (undo_region_split g' u).
Proof using HF.
  intros [|h Hh|l1 r l2 fd h El Hb Hroom Hd]; [done| |].
  - split_and!; [done..|]. cbn [undo_region_split with_host host]. intros x. destruct Hh as [->|(f & n & Hd & Hn)]; [done|].
    apply dup_spec in Hd. rewrite (proj2 (Z.leb_gt _ _)) in Hd by done. apply Hd.
  - unfold undo_region_split. cbn [with_host with_regions regions host next_vma_id regions_tracker_stale].
    rewrite take_app_length, drop_app_ge, lookup_app_r by lia.
    replace (length l1 + 2 - length l1)%nat with 2%nat by lia. replace (length l1 + 1 - length l1)%nat with 1%nat by lia.
    cbn [lookup list_lookup drop]. rewrite clip_eq, clip_fd. cbn [advance_start set_backing_fd r_backing_fd].
    split_and!; [by rewrite El|done|done|]. cbn [with_host with_regions host]. intros x.
    destruct (Z.leb_spec 0 (r_backing_fd r)).
    + destruct Hd as [Hd Hfd]. rewrite (proj2 (Z.leb_le _ _)) by done. apply dup_spec in Hd.
      rewrite (proj2 (Z.leb_le _ _)) in Hd by done. destruct Hd as [Hf Hx]. rewrite close_spec, Hx.
      split; [intuition congruence|]. intros Ho. split; [congruence|by right].
    + destruct Hd as [-> ->]. by rewrite (proj2 (Z.leb_gt _ _)) by done.
Qed.

Lemma split_step_fds F b g rc u g' : split_step b g rc u g' -> fd_inv F g -> fd_inv F g'.
Proof using HF.
  intros [|h Hh|l1 r l2 fd h El Hb Hroom Hd] Ho; [done| |]; unfold fd_inv in *; cbn [with_host with_regions regions host].
  - destruct Hh as [->|(f & n & Hd & Hn)]; [done|]. eapply owns_ext; [|exact (owns_dup _ _ _ _ _ _ Hd Ho)].
    intros x Hx. unfold one_fd. rewrite (proj2 (Z.eqb_neq _ _)); [done|lia].
  - rewrite El in Ho. destruct (Z.leb_spec 0 (r_backing_fd r)).
    + destruct Hd as [Hd Hfd]. eapply owns_ext; [|exact (owns_dup _ _ _ _ _ _ Hd Ho)].
      intros x Hx. rewrite !fd_count_app. cbn [fd_count]. rewrite !clip_eq, !clip_fd.
      cbn [advance_start set_backing_fd set_end r_backing_fd]. unfold one_fd. lia.
    + destruct Hd as [-> ->]. eapply owns_ext; [|exact Ho].
      intros x Hx. rewrite !fd_count_app. cbn [fd_count]. rewrite !clip_eq, !clip_fd.
      cbn [advance_start set_backing_fd set_end r_backing_fd]. rewrite (proj2 (Z.eqb_neq (r_backing_fd r) x)) by lia. lia.
Qed.

(** *** Both ends *)

Lemma split_bounds_spec g s e rc us g' : tracker_wf g -> 0 <= s -> 0 <= e ->
  split_regions_at_bounds g s e = (rc, us, g') ->
  tracker_wf g' /\ (forall a, view (regions g') a = view (regions g) a) /\ rc <= 0 /\
  (forall F, fd_inv F g -> rc = 0 -> fd_inv F g') /\
  (rc = 0 -> cut_at s (regions g') /\ cut_at e (regions g') /\ same_tracker g (undo_region_splits g' us)) /\
  (rc <> 0 -> same_tracker g g').
Proof using HP HF.
  intros Hwf Hs He. unfold split_regions_at_bounds.
  destruct (split_regions_at_boundary g s) as [[r1 u1] g1] eqn:E1.
  pose proof (split_boundary_step _ _ _ _ _ (proj1 Hwf) Hs E1) as S1.
  destruct (split_step_wf _ _ _ _ _ Hwf S1) as (W1 & V1 & C1 & K1 & R1 & N1).
  pose proof (split_step_undo _ _ _ _ _ S1) as U1.
  destruct (Z.ltb_spec r1 0).
  { intros [= <- <- <-]. split; [done|]. split; [done|]. split; [lia|]. split; [lia|]. split; [lia|]. intros _.
    by rewrite (split_failed _ _ _ _ _ S1) in U1 by done. }
  assert (r1 = 0) as -> by lia.
  destruct (split_regions_at_boundary g1 e) as [[r2 u2] g2] eqn:E2.
  pose proof (split_boundary_step _ _ _ _ _ (proj1 W1) He E2) as S2.
  destruct (split_step_wf _ _ _ _ _ W1 S2) as (W2 & V2 & C2 & K2 & R2 & N2).
  pose proof (split_step_undo _ _ _ _ _ S2) as U2.
  destruct (Z.ltb_spec r2 0); intros [= <- <- <-].
  - assert (same_tracker g (undo_region_split g2 u1)) as U.
    { rewrite U1. apply undo_proper. by rewrite (split_failed _ _ _ _ _ S2) in U2 by done. }
    pose proof (proj1 U) as El. unfold tracker_wf, nregions. rewrite El.
    split; [done|]. split; [done|]. split; [lia|]. split; [lia|]. split; [lia|]. done.
  - split; [done|]. split; [intros a; by rewrite V2, V1|]. split; [lia|]. split.
    { intros F HFd _. eapply split_step_fds; [exact S2|]. by eapply split_step_fds. }
    split; [|lia]. intros ->. split; [auto|]. split; [auto|].
    unfold undo_region_splits. cbn [fst snd]. rewrite U1. by apply undo_proper.
Qed.
End Facts.
