(* ===== verification/SplitSpecs.v ===== *)
(** * Cutting regions at a range's bounds: theorems *)

From S2P Require Import Prelude Regions RegionFacts HostFds RegionSpecs RegionSplit SplitFacts.

(** cutting the regions at both ends of a range either succeeds, and then no
    region crosses either end, every address keeps its attributes, the
    descriptors are still owned one to one, and undoing the splits gives back the
    very table (and the very set of open descriptors) there was before; or it
    fails, and table and open descriptors are as before, whichever of the two
    cuts failed. *)
Theorem split_regions_at_bounds_roundtrip {H} `{HE : HostEnv H, HP : !HostPageOk H, HF : !HostFdLaws H}
    (g : tracker H) (s e rc : Z) us (g' : tracker H) :
  tracker_wf g -> 0 <= s -> 0 <= e -> split_regions_at_bounds g s e = (rc, us, g') ->
  tracker_wf g' /\ (forall a, view (regions g') a = view (regions g) a) /\ rc <= 0 /\
  (forall F, fd_inv F g -> rc = 0 -> fd_inv F g') /\
  (rc = 0 -> cut_at s (regions g') /\ cut_at e (regions g') /\ same_tracker g (undo_region_splits g' us)) /\
  (rc <> 0 -> same_tracker g g').
Proof. apply split_bounds_spec. Qed.

(** Cutting inside the file mapping and inside the anonymous one. *)
Lemma split_regions_at_bounds_roundtrip_witness :
  let '(rc, us, g') := split_regions_at_bounds ex_tracker 4198400 4231168 in
  rc = 0 /\ nregions g' = 5%nat /\ same_tracker ex_tracker (undo_region_splits g' us).
Proof.
  destruct (split_regions_at_bounds ex_tracker 4198400 4231168) as [[rc us] g'] eqn:E.
  destruct (split_regions_at_bounds_roundtrip ex_tracker 4198400 4231168 rc us g') as (_ & _ & _ & _ & Hs & _);
    [apply ex_tracker_wf|lia|lia|exact E|].
  assert (rc = 0 /\ nregions g' = 5%nat) as [-> Hn].
  { assert (fst (fst (split_regions_at_bounds ex_tracker 4198400 4231168)) = 0 /\
      nregions (snd (split_regions_at_bounds ex_tracker 4198400 4231168)) = 5%nat) as X by (vm_compute; split; reflexivity).
    by rewrite E in X. }
  split; [done|]. split; [done|]. by apply Hs.
Defined.

(** the two clipping routines, [region_clip_overlay] of src/syscall/mem.c and
    [guest_region_clip_overlay] of src/core/guest.c, written apart, give the same
    region on every input. *)
Theorem region_clip_overlay_equiv {H} `{HE : HostEnv H} (r : guest_region_t) :
  region_clip_overlay (H:=H) r = guest_region_clip_overlay (H:=H) r.
Proof. apply clip_eq. Qed.
