(* ===== verification/Gap.v ===== *)
(** * The mmap gap finder: src/proved/align.h and src/syscall/mem.c

    [sys_mmap] places a mapping at the first aligned hole of the region array
    inside a window, from a cached hint when there is one. *)

From S2P Require Import Prelude Regions.

(** ** src/proved/align.h *)

(** [*out], [None] for the 0 result. *)
Definition align_up_ok (x align : Z) : option Z :=
  let k := x / align in
  if negb ((k * align)%u64 =? x) then
    if UINT64_MAX / align <=? k then None else Some ((k + 1) * align)%u64
  else Some (k * align)%u64.

Definition window_fits (start length limit : Z) : bool :=
  (start <=? limit) && (length <=? (limit - start)%u64).

(** ** Constants of src/core/guest.h *)

Definition ELF_DEFAULT_BASE : Z := 4194304.        (* 0x00400000 *)
Definition MMAP_RX_BASE : Z := 268435456.          (* 0x10000000 *)
Definition MMAP_BASE : Z := 8589934592.            (* 0x200000000 *)

(** ** The allocator fields of [guest_t] *)

Record mmap_alloc := mk_alloc {
  mmap_rw_gap_hint : Z;
  mmap_rx_gap_hint : Z;
  mmap_next : Z;
  mmap_rx_next : Z;
  mmap_limit : Z
}.

Definition set_rw_hint (h : Z) (a : mmap_alloc) : mmap_alloc :=
  mk_alloc h (mmap_rx_gap_hint a) (mmap_next a) (mmap_rx_next a) (mmap_limit a).
Definition set_rx_hint (h : Z) (a : mmap_alloc) : mmap_alloc :=
  mk_alloc (mmap_rw_gap_hint a) h (mmap_next a) (mmap_rx_next a) (mmap_limit a).
Definition set_mmap_next (n : Z) (a : mmap_alloc) : mmap_alloc :=
  mk_alloc (mmap_rw_gap_hint a) (mmap_rx_gap_hint a) n (mmap_rx_next a) (mmap_limit a).
Definition set_mmap_rx_next (n : Z) (a : mmap_alloc) : mmap_alloc :=
  mk_alloc (mmap_rw_gap_hint a) (mmap_rx_gap_hint a) (mmap_next a) n (mmap_limit a).

(** ** First fit *)

(** The loop of [find_free_gap_inner] over the regions from the binary search
    on, with the check of the trailing space. *)
Fixpoint gap_walk (l : list guest_region_t) (gap_start length max_addr align : Z) : Z :=
  let trailing := if window_fits gap_start length max_addr then gap_start else UINT64_MAX in
  match l with
  | [] => trailing
  | r :: l' =>
      if r_end r <=? gap_start then gap_walk l' gap_start length max_addr align
      else if max_addr <=? r_start r then trailing
      else if window_fits gap_start length max_addr && ((gap_start + length)%u64 <=? r_start r)
      then gap_start
      else
        match align_up_ok (r_end r) align with
        | None => UINT64_MAX
        | Some gap_start => gap_walk l' gap_start length max_addr align
        end
  end.

Definition find_free_gap_inner (l : list guest_region_t) (length min_addr max_addr align : Z) : Z :=
  match align_up_ok min_addr align with
  | None => UINT64_MAX
  | Some gap_start =>
      gap_walk (drop (guest_region_first_end_above l gap_start) l) gap_start length max_addr align
  end.

(** ** With the cached hints *)

Section Hints.
(** [host_page_size_cached()] *)
Variable hps : Z.

Definition find_free_gap (l : list guest_region_t) (a : mmap_alloc) (length min_addr max_addr align : Z)
    : Z * mmap_alloc :=
  let rx := min_addr <? MMAP_BASE in
  let hint := if rx then mmap_rx_gap_hint a else mmap_rw_gap_hint a in
  let set_hint result :=
    let h := ALIGN_UP (result + length)%u64 hps in if rx then set_rx_hint h a else set_rw_hint h a in
  let full_scan :=
    let result := find_free_gap_inner l length min_addr max_addr align in
    if negb (result =? UINT64_MAX) then (result, set_hint result) else (result, a) in
  if (min_addr <=? hint) && (hint <? max_addr) then
    let result := find_free_gap_inner l length hint max_addr align in
    if negb (result =? UINT64_MAX) then (result, set_hint result) else full_scan
  else full_scan.

(** [find_free_gap] with the preferred alignment, then with the fallback. *)
Definition find_gap_aligned (l : list guest_region_t) (a : mmap_alloc) (length min_addr max_addr align fallback : Z)
    : Z * mmap_alloc :=
  let '(off, a) := find_free_gap l a length min_addr max_addr align in
  if (off =? UINT64_MAX) && negb (align =? fallback)
  then find_free_gap l a length min_addr max_addr fallback else (off, a).

(** The probe at the caller's address hint. *)
Definition hint_gap (l : list guest_region_t) (a : mmap_alloc) (ipa_base addr length align fallback : Z) : Z :=
  if addr =? 0 then UINT64_MAX
  else
    let hint_off := (addr - ipa_base)%u64 in
    if (ELF_DEFAULT_BASE <=? hint_off) && (hint_off <=? mmap_limit a) &&
       (length <=? (mmap_limit a - hint_off)%u64)
    then
      let hint_max := if hint_off <? MMAP_BASE then MMAP_BASE else mmap_limit a in
      let off := if negb (align =? fallback)
                 then find_free_gap_inner l length hint_off (hint_off + length)%u64 fallback
                 else UINT64_MAX in
      let off := if off =? UINT64_MAX then find_free_gap_inner l length hint_off hint_max align else off in
      if (off =? UINT64_MAX) && negb (align =? fallback)
      then find_free_gap_inner l length hint_off hint_max fallback else off
    else UINT64_MAX.

Definition mmap_pick_gap (l : list guest_region_t) (a : mmap_alloc) (ipa_base addr length : Z) (use_rx : bool)
    (align fallback_align : Z) : Z * mmap_alloc :=
  if use_rx then
    let '(off, a) := find_gap_aligned l a length MMAP_RX_BASE (mmap_limit a) align fallback_align in
    if off =? UINT64_MAX then (UINT64_MAX, a)
    else
      let rx_hwm := (off + length)%u64 in
      (off, if mmap_rx_next a <? rx_hwm then set_mmap_rx_next rx_hwm a else a)
  else
    let off := hint_gap l a ipa_base addr length align fallback_align in
    let '(off, a) :=
      if off =? UINT64_MAX then find_gap_aligned l a length MMAP_BASE (mmap_limit a) align fallback_align
      else (off, a) in
    if off =? UINT64_MAX then (UINT64_MAX, a)
    else
      let rw_hwm := (off + length)%u64 in
      (off, if mmap_next a <? rw_hwm then set_mmap_next rw_hwm a else a).

End Hints.
