(* ===== verification/GapSpecs.v ===== *)
(** * The gap finder returns the first aligned hole

    [candidate] is what an address must satisfy to be returned; the theorems say
    that the scan returns the least candidate, and that a failure means there is
    none, so that an mmap is never refused while a fitting hole exists. *)

From S2P Require Import Prelude Regions RegionFacts Gap.

(** ** Rounding *)

Lemma align_up_spec x align :
  fits64 x -> 0 < align < two64 ->
  match align_up_ok x align with
  | Some y => x <= y < x + align /\ y mod align = 0 /\ y < two64
  | None => forall y, x <= y -> y mod align = 0 -> UINT64_MAX < y
  end.
Proof.
  intros Hx Ha. unfold align_up_ok. unfold fits64 in Hx.
  pose proof (Z.div_mod x align ltac:(lia)) as Hdm. pose proof (Z.mod_pos_bound x align ltac:(lia)) as Hm.
  assert (0 <= x / align) by (apply Z.div_pos; lia).
  rewrite (Z.mul_comm align) in Hdm. rewrite mul64_small by (unfold fits64; nia).
  destruct (Z.eqb_spec (x / align * align) x) as [E|E]; cbn [negb].
  - rewrite E. split; [lia|]. split; [|lia]. rewrite <- E. apply Z.mod_mul. lia.
  - destruct (Z.leb_spec (UINT64_MAX / align) (x / align)) as [Hk|Hk].
    + intros y Hy Hyal. apply Z.mod_divide in Hyal as [k ->]; [|lia].
      assert (x / align < k) by nia.
      assert (UINT64_MAX < align * Z.succ (UINT64_MAX / align)) by (apply Z.mul_succ_div_gt; lia). nia.
    + assert ((x / align + 1) * align <= UINT64_MAX) as Hle.
      { pose proof (Z.mul_div_le UINT64_MAX align ltac:(lia)). nia. }
      unfold UINT64_MAX, two64 in *. rewrite mul64_small by (unfold fits64, two64; nia).
      split; [nia|]. split; [apply Z.mod_mul; lia|lia].
Qed.

(** The rounded address is the least multiple at or above the given one. *)
Lemma aligned_below x y align a :
  0 < align -> x <= y < x + align -> y mod align = 0 -> a mod align = 0 -> a < y -> a < x.
Proof.
  intros Hal Hy Hym Ham Hlt. apply Z.mod_divide in Hym as [k ->]; [|lia]. apply Z.mod_divide in Ham as [j ->]; [|lia].
  assert (j < k) by (apply (Z.mul_lt_mono_pos_r align); lia). assert (j * align + align <= k * align) by nia. lia.
Qed.

Lemma window_fits_spec s n limit : fits64 s -> 0 <= limit < two64 ->
  window_fits s n limit = true <-> s + n <= limit /\ s <= limit.
Proof.
  intros Hs Hl. unfold window_fits. rewrite andb_true_iff, !Z.leb_le.
  destruct (Z.le_gt_cases s limit); [|lia]. unfold fits64 in Hs. rewrite sub64_small by (unfold fits64; lia). lia.
Qed.

(** ** First fit *)

(** No region meets [[a, a + n)]. *)
Definition clear_of (l : list guest_region_t) (a n : Z) : Prop :=
  forall r, r ∈ l -> r_end r <= a \/ a + n <= r_start r.

Definition candidate (l : list guest_region_t) (length max_addr align a : Z) : Prop :=
  a mod align = 0 /\ a + length <= max_addr /\ clear_of l a length.

(** [res] is the least candidate at or above [lo], [UINT64_MAX] for none. *)
Definition first_fit (l : list guest_region_t) (length lo max_addr align res : Z) : Prop :=
  (res = UINT64_MAX /\ forall a, lo <= a -> ~ candidate l length max_addr align a) \/
  (lo <= res /\ candidate l length max_addr align res /\
   forall a, lo <= a < res -> ~ candidate l length max_addr align a).

Lemma first_fit_raise l length lo lo' max_addr align res :
  lo <= lo' -> (forall a, lo <= a < lo' -> ~ candidate l length max_addr align a) ->
  first_fit l length lo' max_addr align res -> first_fit l length lo max_addr align res.
Proof.
  intros Hle Hno [[-> Hn]|(Hlo & Hc & Hn)]; [left|right].
  - split; [done|]. intros a Ha. destruct (Z.lt_ge_cases a lo'); [by apply Hno|by apply Hn].
  - split; [lia|]. split; [done|]. intros a Ha. destruct (Z.lt_ge_cases a lo'); [apply Hno|apply Hn]; lia.
Qed.

(** Regions below the search start do not matter. *)
Lemma first_fit_skip l1 l2 length lo max_addr align res :
  Forall (fun r => r_end r <= lo) l1 -> 0 <= length ->
  first_fit l2 length lo max_addr align res -> first_fit (l1 ++ l2) length lo max_addr align res.
Proof.
  intros Hl Hlen.
  assert (forall a, lo <= a -> candidate (l1 ++ l2) length max_addr align a <-> candidate l2 length max_addr align a) as E.
  { intros a Ha. unfold candidate, clear_of. split; intros (? & ? & Hc); (split; [done|split; [done|]]); intros r Hr.
    - apply Hc, elem_of_app. by right.
    - apply elem_of_app in Hr as [Hr|Hr]; [|by apply Hc]. left.
      apply list_elem_of_In in Hr. rewrite Forall_forall in Hl. specialize (Hl r Hr). lia. }
  intros [[-> Hn]|(Hlo & Hc & Hn)]; [left|right].
  - split; [done|]. intros a Ha. rewrite E by done. by apply Hn.
  - split; [done|]. split; [by apply E|]. intros a Ha. rewrite E by lia. by apply Hn.
Qed.

Section Walk.
Context (length max_addr align : Z).
Context (Hlen : 0 < length) (Hmax : 0 <= max_addr < two64) (Hal : 0 < align < two64).

(** A hole in front of everything left. *)
Lemma trailing_fit l gap :
  fits64 gap -> gap mod align = 0 -> (forall r, r ∈ l -> max_addr <= r_start r) ->
  first_fit l length gap max_addr align (if window_fits gap length max_addr then gap else UINT64_MAX).
Proof.
  intros Hg Hm Hl. destruct (window_fits gap length max_addr) eqn:E.
  - apply window_fits_spec in E as [E _]; [|done..]. right. split; [lia|]. split; [|lia].
    split; [done|]. split; [done|]. intros r Hr. right. specialize (Hl r Hr). lia.
  - left. split; [done|]. intros a Ha (_ & Hc & _).
    assert (window_fits gap length max_addr = true) by (apply window_fits_spec; [done..|lia]). congruence.
Qed.

(** No candidate starts between the gap and the end of a region in the way. *)
Lemma blocked_gap r l gap y :
  fits64 gap -> gap < r_end r -> r_start r < r_end r -> r_end r <= y < r_end r + align -> y mod align = 0 ->
  ~ (gap + length <= max_addr /\ gap + length <= r_start r) ->
  forall a, gap <= a < y -> ~ candidate (r :: l) length max_addr align a.
Proof.
  intros Hg Hge Hse Hy Hym Hnot a Ha (Ham & Hfit & Hc).
  pose proof (aligned_below _ _ _ a (proj1 Hal) Hy Hym Ham ltac:(lia)).
  destruct (Hc r ltac:(left)) as [?|?]; lia.
Qed.

Lemma gap_walk_spec l lo gap :
  chain lo l -> 0 <= lo -> Forall (fun r => r_end r < two64) l -> fits64 gap -> gap mod align = 0 ->
  first_fit l length gap max_addr align (gap_walk l gap length max_addr align).
Proof.
  revert lo gap. induction l as [|r l IH]; intros lo gap Hc Hlo Hend Hg Hm.
  { cbn [gap_walk]. apply trailing_fit; [done..|]. by intros r ?%elem_of_nil. }
  destruct Hc as (Hc1 & Hc2 & Hc3). apply Forall_cons_1 in Hend as [He Hend]. cbn [gap_walk].
  destruct (Z.leb_spec (r_end r) gap) as [Hle|Hgt].
  { apply (first_fit_skip [r] l); [by constructor|lia|]. eapply IH; [exact Hc3|lia|done..]. }
  destruct (Z.leb_spec max_addr (r_start r)) as [Hms|Hms].
  { apply trailing_fit; [done..|]. intros r' [->|Hr']%elem_of_cons; [done|].
    destruct (chain_bounds _ _ _ Hc3 Hr'). lia. }
  assert (gap + length <= max_addr -> (gap + length)%u64 = gap + length) as Hadd.
  { intros. unfold fits64 in Hg. apply add64_small. unfold fits64. lia. }
  destruct (window_fits gap length max_addr && ((gap + length)%u64 <=? r_start r)) eqn:Ew.
  { apply andb_prop in Ew as [E1 E2%Z.leb_le]. apply window_fits_spec in E1 as [E1 _]; [|done..].
    rewrite Hadd in E2 by done. right. split; [lia|]. split; [|lia]. split; [done|]. split; [done|].
    intros r' [->|Hr']%elem_of_cons; [right; lia|]. destruct (chain_bounds _ _ _ Hc3 Hr'). lia. }
  assert (~ (gap + length <= max_addr /\ gap + length <= r_start r)) as Hnot.
  { intros [H1 H2]. apply andb_false_iff in Ew as [Ew|Ew].
    - assert (window_fits gap length max_addr = true) by (apply window_fits_spec; [done..|lia]). congruence.
    - apply Z.leb_gt in Ew. rewrite Hadd in Ew by done. lia. }
  pose proof (align_up_spec (r_end r) align ltac:(unfold fits64; lia) Hal) as Hup.
  destruct (align_up_ok (r_end r) align) as [y|].
  - destruct Hup as (Hy & Hym & Hyt). unfold fits64 in Hg.
    apply (first_fit_raise _ _ _ y); [lia|by eapply blocked_gap|].
    apply (first_fit_skip [r] l); [constructor; [lia|done]|lia|]. eapply IH; [exact Hc3|lia|done|unfold fits64; lia|done].
  - left. split; [done|]. intros a Ha (Ham & Hfit & Hcl).
    destruct (Hcl r ltac:(left)) as [Hr|Hr]; [|lia]. specialize (Hup a Hr Ham). unfold UINT64_MAX, two64 in *. lia.
Qed.

Lemma gap_inner_spec l min_addr :
  list_ok l -> fits64 min_addr ->
  first_fit l length min_addr max_addr align (find_free_gap_inner l length min_addr max_addr align).
Proof.
  intros [Hc Hok] Hmin. unfold find_free_gap_inner.
  pose proof (align_up_spec min_addr align Hmin Hal) as Hup. destruct (align_up_ok min_addr align) as [gap|].
  - destruct Hup as (Hy & Hym & Hyt). unfold fits64 in Hmin.
    apply (first_fit_raise _ _ _ gap); [lia| |].
    { intros a Ha (Ham & _). pose proof (aligned_below _ _ _ a (proj1 Hal) Hy Hym Ham ltac:(lia)). lia. }
    pose proof (first_end_above_split 0 l gap Hc) as (_ & Hpre & _).
    set (i := guest_region_first_end_above l gap) in *. rewrite <- (take_drop i l) in Hc |- * at 1.
    apply chain_app in Hc as [Hc0 Hc]. apply first_fit_skip; [done|lia|].
    rewrite <- (take_drop i l) in Hok. apply Forall_app in Hok as [Hok1 Hok2].
    eapply gap_walk_spec; [exact Hc| | |unfold fits64; lia|done].
    + by apply (chain_last_end 0).
    + eapply Forall_impl; [|exact Hok2]. intros r (? & ? & _). unfold VA_TOP in *. lia.
  - left. split; [done|]. intros a Ha (Ham & Hfit & _). specialize (Hup a Ha Ham). unfold UINT64_MAX, two64 in *. lia.
Qed.

End Walk.

(** ** Hints *)

Lemma first_fit_free l length lo max_addr align res :
  first_fit l length lo max_addr align res -> res <> UINT64_MAX ->
  lo <= res /\ candidate l length max_addr align res.
Proof. intros [[-> _]|(? & ? & _)] Hne; done. Qed.

Lemma first_fit_none l length lo max_addr align :
  0 < length -> max_addr < two64 -> first_fit l length lo max_addr align UINT64_MAX ->
  forall a, lo <= a -> ~ candidate l length max_addr align a.
Proof.
  intros Hl Hm [[_ Hn]|(_ & (_ & Hfit & _) & _)]; [done|]. unfold UINT64_MAX, two64 in *. lia.
Qed.

(** What the callers rely on: a hole, or the certainty that there is none. *)
Definition gap_found (l : list guest_region_t) (length lo max_addr align res : Z) : Prop :=
  (res <> UINT64_MAX -> lo <= res /\ candidate l length max_addr align res) /\
  (res = UINT64_MAX -> forall a, lo <= a -> ~ candidate l length max_addr align a).

Definition same_marks (a a' : mmap_alloc) : Prop :=
  mmap_next a' = mmap_next a /\ mmap_rx_next a' = mmap_rx_next a /\ mmap_limit a' = mmap_limit a.

Definition hints_fit (a : mmap_alloc) : Prop := fits64 (mmap_rw_gap_hint a) /\ fits64 (mmap_rx_gap_hint a).

Lemma align_up_fits x n : fits64 (ALIGN_UP x n).
Proof. apply land_fits, wrap64_fits. Qed.

Section Pick.
Context (l : list guest_region_t) (hps length : Z).
Context (Hl : list_ok l) (Hlen : 0 < length).

Lemma find_free_gap_spec a min_addr max_addr align :
  hints_fit a -> fits64 min_addr -> 0 <= max_addr < two64 -> 0 < align < two64 ->
  let '(res, a') := find_free_gap hps l a length min_addr max_addr align in
  gap_found l length min_addr max_addr align res /\ same_marks a a' /\ hints_fit a'.
Proof.
  intros [Hw Hx] Hmin Hmax Hal. unfold find_free_gap.
  set (hint := if min_addr <? MMAP_BASE then mmap_rx_gap_hint a else mmap_rw_gap_hint a).
  assert (fits64 hint) as Hh by (unfold hint; case_ifs; done).
  assert (forall res lo, min_addr <= lo ->
    first_fit l length lo max_addr align res -> res <> UINT64_MAX ->
    gap_found l length min_addr max_addr align res /\
    same_marks a (if min_addr <? MMAP_BASE then set_rx_hint (ALIGN_UP (res + length)%u64 hps) a
                  else set_rw_hint (ALIGN_UP (res + length)%u64 hps) a) /\
    hints_fit (if min_addr <? MMAP_BASE then set_rx_hint (ALIGN_UP (res + length)%u64 hps) a
               else set_rw_hint (ALIGN_UP (res + length)%u64 hps) a)) as Hhit.
  { intros res lo Hlo Hf Hne. destruct (first_fit_free _ _ _ _ _ _ Hf Hne) as [? ?].
    split; [split; [intros _; split; [lia|done]|done]|]. split; [by case_if|].
    pose proof (align_up_fits (res + length)%u64 hps). by case_if. }
  assert (let '(res, a') :=
      (if negb (find_free_gap_inner l length min_addr max_addr align =? UINT64_MAX)
       then (find_free_gap_inner l length min_addr max_addr align,
             if min_addr <? MMAP_BASE
             then set_rx_hint (ALIGN_UP (find_free_gap_inner l length min_addr max_addr align + length)%u64 hps) a
             else set_rw_hint (ALIGN_UP (find_free_gap_inner l length min_addr max_addr align + length)%u64 hps) a)
       else (find_free_gap_inner l length min_addr max_addr align, a)) in
    gap_found l length min_addr max_addr align res /\ same_marks a a' /\ hints_fit a') as Hfull.
  { pose proof (gap_inner_spec length max_addr align Hlen Hmax Hal l min_addr Hl Hmin) as Hf.
    destruct (Z.eqb_spec (find_free_gap_inner l length min_addr max_addr align) UINT64_MAX) as [E|E]; cbn [negb].
    - rewrite E in *. split; [split; [done|]|done]. intros _. eapply first_fit_none; [done| |exact Hf]. lia.
    - eapply Hhit; [|exact Hf|done]. lia. }
  destruct ((min_addr <=? hint) && (hint <? max_addr)) eqn:Eh; [|exact Hfull].
  pose proof (gap_inner_spec length max_addr align Hlen Hmax Hal l hint Hl Hh) as Hf.
  destruct (Z.eqb_spec (find_free_gap_inner l length hint max_addr align) UINT64_MAX) as [E|E]; cbn [negb]; [exact Hfull|].
  eapply Hhit; [|exact Hf|done]. by apply andb_prop in Eh as [?%Z.leb_le _].
Qed.

(** With a preferred and a fallback alignment. *)
Definition gap_found_either (lo max_addr align fallback res : Z) : Prop :=
  (res <> UINT64_MAX -> lo <= res /\
     (candidate l length max_addr align res \/ candidate l length max_addr fallback res)) /\
  (res = UINT64_MAX -> forall a, lo <= a -> ~ candidate l length max_addr fallback a).

Lemma find_gap_aligned_spec a min_addr max_addr align fallback :
  hints_fit a -> fits64 min_addr -> 0 <= max_addr < two64 -> 0 < align < two64 -> 0 < fallback < two64 ->
  let '(res, a') := find_gap_aligned hps l a length min_addr max_addr align fallback in
  gap_found_either min_addr max_addr align fallback res /\ same_marks a a' /\ hints_fit a'.
Proof.
  intros Ha Hmin Hmax Hal Hfb. unfold find_gap_aligned.
  pose proof (find_free_gap_spec a min_addr max_addr align Ha Hmin Hmax Hal) as H1.
  destruct (find_free_gap hps l a length min_addr max_addr align) as [res a1]. destruct H1 as ([Hs Hn] & Hm & Hh).
  destruct ((res =? UINT64_MAX) && negb (align =? fallback)) eqn:E.
  - pose proof (find_free_gap_spec a1 min_addr max_addr fallback Hh Hmin Hmax Hfb) as H2.
    destruct (find_free_gap hps l a1 length min_addr max_addr fallback) as [res2 a2]. destruct H2 as ([Hs2 Hn2] & Hm2 & Hh2).
    split; [|split; [|done]].
    + split; [intros Hne; destruct (Hs2 Hne); auto|done].
    + unfold same_marks in *. intuition congruence.
  - split; [|done]. split; [intros Hne; destruct (Hs Hne); auto|]. intros ->. rewrite Z.eqb_refl in E. unbool; [done|].
    subst fallback. by apply Hn.
Qed.

(** The probe at the caller's hint finds a hole at or above it, or nothing. *)
Lemma hint_gap_spec a ipa_base addr align fallback :
  fits64 ipa_base -> fits64 addr -> MMAP_BASE <= mmap_limit a < two64 -> 0 < align < two64 -> 0 < fallback < two64 ->
  let res := hint_gap l a ipa_base addr length align fallback in
  res <> UINT64_MAX -> ELF_DEFAULT_BASE <= res /\
    (candidate l length (mmap_limit a) align res \/ candidate l length (mmap_limit a) fallback res).
Proof.
  intros Hb Hadr Hlim Hal Hfb. cbv zeta. unfold hint_gap. destruct (addr =? 0); [done|].
  assert (fits64 (addr - ipa_base)%u64) as Hh by apply wrap64_fits. set (h := (addr - ipa_base)%u64) in *. clearbody h.
  destruct ((ELF_DEFAULT_BASE <=? h) && (h <=? mmap_limit a) && (length <=? (mmap_limit a - h)%u64)) eqn:E; [|done].
  unbool. unfold fits64, MMAP_BASE in *. rewrite sub64_small in * by (unfold fits64; lia).
  assert (forall mx al, 0 < al < two64 -> 0 <= mx <= mmap_limit a ->
    find_free_gap_inner l length h mx al <> UINT64_MAX -> ELF_DEFAULT_BASE <= find_free_gap_inner l length h mx al /\
    candidate l length (mmap_limit a) al (find_free_gap_inner l length h mx al)) as Hfind.
  { intros mx al Ha Hmx Hne.
    pose proof (gap_inner_spec length mx al Hlen ltac:(lia) Ha l h Hl ltac:(unfold fits64; lia)) as Hf.
    destruct (first_fit_free _ _ _ _ _ _ Hf Hne) as [? (? & ? & ?)]. split; [lia|]. split; [done|]. split; [lia|done]. }
  set (hm := if h <? 8589934592 then 8589934592 else mmap_limit a).
  assert (0 <= hm <= mmap_limit a) as Hhm by (unfold hm; case_ifs; lia). clearbody hm.
  rewrite add64_small by (unfold fits64; lia).
  set (o1 := if negb (align =? fallback) then find_free_gap_inner l length h (h + length) fallback else UINT64_MAX).
  destruct (Z.eqb_spec o1 UINT64_MAX) as [E1|E1].
  - destruct ((find_free_gap_inner l length h hm align =? UINT64_MAX) && negb (align =? fallback)); intros Hne.
    + destruct (Hfind hm fallback Hfb Hhm Hne); auto.
    + destruct (Hfind hm align Hal Hhm Hne); auto.
  - rewrite (proj2 (Z.eqb_neq _ _) E1). cbn [andb]. intros _. unfold o1 in *. destruct (negb (align =? fallback)); [|done].
    destruct (Hfind (h + length) fallback Hfb ltac:(lia) E1); auto.
Qed.

(** The chosen placement. *)
Definition placed (a : mmap_alloc) (use_rx : bool) (align fallback : Z) (res : Z) (a' : mmap_alloc) : Prop :=
  let base := if use_rx then MMAP_RX_BASE else MMAP_BASE in
  mmap_limit a' = mmap_limit a /\ hints_fit a' /\
  (if res =? UINT64_MAX
   then (forall x, base <= x -> ~ candidate l length (mmap_limit a) fallback x) /\ same_marks a a'
   else (if use_rx then MMAP_RX_BASE <= res else ELF_DEFAULT_BASE <= res) /\
        (candidate l length (mmap_limit a) align res \/ candidate l length (mmap_limit a) fallback res) /\
        mmap_next a' = (if use_rx then mmap_next a else Z.max (mmap_next a) (res + length)) /\
        mmap_rx_next a' = (if use_rx then Z.max (mmap_rx_next a) (res + length) else mmap_rx_next a)).

Lemma pick_gap_spec a ipa_base addr use_rx align fallback :
  hints_fit a -> fits64 ipa_base -> fits64 addr -> MMAP_BASE <= mmap_limit a < two64 ->
  0 < align < two64 -> 0 < fallback < two64 ->
  let '(res, a') := mmap_pick_gap hps l a ipa_base addr length use_rx align fallback in
  placed a use_rx align fallback res a'.
Proof.
  intros Ha Hb Hadr Hlim Hal Hfb. unfold mmap_pick_gap.
  assert (forall lo res al, candidate l length (mmap_limit a) al res -> 0 <= lo -> lo <= res ->
    (res + length)%u64 = res + length) as Hadd.
  { intros lo res al (_ & ? & _) ? ?. apply add64_small. unfold fits64. lia. }
  destruct use_rx.
  - pose proof (find_gap_aligned_spec a MMAP_RX_BASE (mmap_limit a) align fallback Ha ltac:(done)
      ltac:(unfold MMAP_BASE in *; lia) Hal Hfb) as H1.
    destruct (find_gap_aligned hps l a length MMAP_RX_BASE (mmap_limit a) align fallback) as [res a1].
    destruct H1 as ([Hs Hn] & (Hm1 & Hm2 & Hm3) & Hh). unfold placed.
    destruct (Z.eqb_spec res UINT64_MAX) as [->|Hne]; [by rewrite Z.eqb_refl; split_and!; auto|].
    rewrite (proj2 (Z.eqb_neq _ _) Hne). destruct (Hs Hne) as [Hlo Hc].
    assert ((res + length)%u64 = res + length) as ->.
    { destruct Hc as [Hc|Hc]; eapply Hadd; [exact Hc|..|exact Hc| |]; try exact Hlo; done. }
    rewrite Hm2. destruct (Z.ltb_spec (mmap_rx_next a) (res + length)); cbn; split_and!; try done; lia.
  - pose proof (hint_gap_spec a ipa_base addr align fallback Hb Hadr Hlim Hal Hfb) as Hg. cbv zeta in Hg.
    set (res0 := hint_gap l a ipa_base addr length align fallback) in *.
    assert (let '(res, a1) := (if res0 =? UINT64_MAX
        then find_gap_aligned hps l a length MMAP_BASE (mmap_limit a) align fallback else (res0, a)) in
      same_marks a a1 /\ hints_fit a1 /\
      (res = UINT64_MAX -> forall x, MMAP_BASE <= x -> ~ candidate l length (mmap_limit a) fallback x) /\
      (res <> UINT64_MAX -> ELF_DEFAULT_BASE <= res /\
         (candidate l length (mmap_limit a) align res \/ candidate l length (mmap_limit a) fallback res))) as H1.
    { destruct (Z.eqb_spec res0 UINT64_MAX) as [E|E]; [|by split_and!].
      pose proof (find_gap_aligned_spec a MMAP_BASE (mmap_limit a) align fallback Ha ltac:(done)
        ltac:(unfold MMAP_BASE in *; lia) Hal Hfb) as H1.
      destruct (find_gap_aligned hps l a length MMAP_BASE (mmap_limit a) align fallback) as [res a1].
      destruct H1 as ([Hs Hn] & Hm & Hh). split; [done|]. split; [done|]. split; [done|]. intros Hne.
      destruct (Hs Hne) as [? ?]. unfold MMAP_BASE, ELF_DEFAULT_BASE in *. split; [lia|done]. }
    destruct (if res0 =? UINT64_MAX then _ else _) as [res a1]. destruct H1 as ((Hm1 & Hm2 & Hm3) & Hh & Hn & Hs).
    unfold placed. destruct (Z.eqb_spec res UINT64_MAX) as [->|Hne]; [by rewrite Z.eqb_refl; split_and!; auto|].
    rewrite (proj2 (Z.eqb_neq _ _) Hne). destruct (Hs Hne) as [Hlo Hc].
    assert ((res + length)%u64 = res + length) as ->.
    { destruct Hc as [Hc|Hc]; eapply Hadd; [exact Hc|..|exact Hc| |]; try exact Hlo; done. }
    rewrite Hm1. destruct (Z.ltb_spec (mmap_next a) (res + length)); cbn; split_and!; try done; lia.
Qed.

End Pick.

(** A clear range is unmapped in the tracker's view. *)
Lemma clear_view l a n x : clear_of l a n -> a <= x < a + n -> view l x = None.
Proof.
  intros Hc Hx. unfold view. destruct (region_at l x) as [r|] eqn:E; [exfalso|done].
  apply region_at_Some in E as [Hin Hr]. unfold in_region in Hr. unbool. destruct (Hc r Hin); lia.
Qed.

(** ** Theorems *)

(** the gap scan is first fit: it returns the least address at or above the
    search start that is aligned, leaves room below the limit and meets no
    region, and fails only when no such address exists; address-space wrap
    included. *)
Theorem find_free_gap_inner_first_fit (l : list guest_region_t) (length min_addr max_addr align : Z) :
  list_ok l -> 0 < length -> fits64 min_addr -> 0 <= max_addr < two64 -> 0 < align < two64 ->
  first_fit l length min_addr max_addr align (find_free_gap_inner l length min_addr max_addr align).
Proof. intros. by apply gap_inner_spec. Qed.

(** Two anonymous regions with a hole of 64 KiB between them. *)
Definition ex_region (s e : Z) : guest_region_t :=
  mk_region s e s 1 3 34 0 (-1) false false false false false 0 0 "".
Definition ex_regions : list guest_region_t :=
  [ex_region 8589934592 8590000128; ex_region 8590065664 8590131200].

Lemma ex_regions_ok : list_ok ex_regions.
Proof. split; [cbn; lia|]. repeat constructor; cbn; unfold VA_TOP, two64; try lia; done. Qed.

(** A request that fits goes into the hole, a larger one after it. *)
Lemma find_free_gap_inner_first_fit_witness :
  first_fit ex_regions 65536 8589934592 17179869184 16384 8590000128 /\
  first_fit ex_regions 65537 8589934592 17179869184 16384 8590131200 /\
  find_free_gap_inner ex_regions 65537 8589934592 17179869184 16384 = 8590131200.
Proof.
  pose proof (fun n H => find_free_gap_inner_first_fit ex_regions n 8589934592 17179869184 16384 ex_regions_ok H) as F.
  split; [apply (F 65536); conc|]. split; [apply (F 65537); conc|]. vm_compute. reflexivity.
Defined.


