(* ===== verification/PageTable.v ===== *)
(** * The guest page tables of src/core/guest.c

    Four levels of 512-entry tables live in a page-table pool inside the guest
    slab.  [guest_pt] is the state the functions change: the table words (the
    aligned 64-bit words of the slab, by byte offset), the pool's bump pointer,
    the two roots, the generation counter and the calling vCPU's pending TLBI
    request.  [layout] holds the fields that stay fixed after boot.

    The functions are translated with their early returns.  [None] is the
    [abort()] of [pt_at] or an exhausted loop fuel; the state reached when a
    function returns an error is kept, because the code leaves earlier stores in
    place. *)

From S2P Require Import Prelude Tlbi Regions.

(** ** Descriptor bits *)

Definition PT_VALID : Z := 1.
Definition PT_TABLE : Z := 2.
Definition PT_BLOCK : Z := 1.
Definition PT_AF : Z := Z.shiftl 1 10.
Definition PT_SH_ISH : Z := Z.shiftl 3 8.
Definition PT_NS : Z := Z.shiftl 1 5.
Definition PT_ATTR1 : Z := Z.shiftl 1 2.
Definition PT_UXN : Z := Z.shiftl 1 54.
Definition PT_PXN : Z := Z.shiftl 1 53.
Definition PT_AP_RW_EL0 : Z := Z.shiftl 1 6.
Definition PT_AP_RW_EL1 : Z := 0.
Definition PT_AP_RO : Z := Z.shiftl 3 6.
Definition PT_L3_PAGE : Z := 3.
Definition L2_BLOCK_ADDR_MASK : Z := 281474974613504.   (* 0xFFFFFFE00000 *)
Definition GVA_PT_ADDR_MASK : Z := 281474976706560.     (* 0xFFFFFFFFF000 *)
Definition GVA_PT_TABLE_BYTES : Z := 4096.

Definition MEM_PERM_R : Z := 1.
Definition MEM_PERM_W : Z := 2.
Definition MEM_PERM_X : Z := 4.
Definition MEM_PERM_EL1_ONLY : Z := 8.

(** Entries of a table; also the bound of the loops over one table. *)
Definition PTES_PER_TABLE : nat := 512.

Definition BLOCK_512GIB : Z := 512 * BLOCK_1GIB.

Definition KBUF_VA_BASE : Z := 18446744073441116160.    (* 0xFFFFFFFFF0000000 *)
Definition KBUF_SIZE : Z := 268435456.
Definition KBUF_USER_VA : Z := Z.land KBUF_VA_BASE 281474976710655.

(** ** State *)

Record layout := mk_layout {
  guest_size : Z;
  ipa_base : Z;
  pt_pool_base : Z;
  pt_pool_end : Z;
  g_tlbi_range_supported : bool
}.

Record guest_pt := mk_pt {
  pt_mem : Z -> Z;
  pt_pool_next : Z;
  ttbr0 : Z;
  ttbr1 : Z;
  kbuf_gpa : Z;
  pt_gen : Z;
  cpu_tlbi_req : tlbi_request_t
}.

Definition set_mem (m : Z -> Z) (s : guest_pt) : guest_pt :=
  mk_pt m (pt_pool_next s) (ttbr0 s) (ttbr1 s) (kbuf_gpa s) (pt_gen s) (cpu_tlbi_req s).
Definition set_pool_next (n : Z) (s : guest_pt) : guest_pt :=
  mk_pt (pt_mem s) n (ttbr0 s) (ttbr1 s) (kbuf_gpa s) (pt_gen s) (cpu_tlbi_req s).
Definition set_ttbr0 (t : Z) (s : guest_pt) : guest_pt :=
  mk_pt (pt_mem s) (pt_pool_next s) t (ttbr1 s) (kbuf_gpa s) (pt_gen s) (cpu_tlbi_req s).
Definition set_kbuf (t1 kb : Z) (s : guest_pt) : guest_pt :=
  mk_pt (pt_mem s) (pt_pool_next s) (ttbr0 s) t1 kb (pt_gen s) (cpu_tlbi_req s).
Definition set_tlbi (r : tlbi_request_t) (s : guest_pt) : guest_pt :=
  mk_pt (pt_mem s) (pt_pool_next s) (ttbr0 s) (ttbr1 s) (kbuf_gpa s) (pt_gen s) r.

Definition guest_pt_gen_bump (s : guest_pt) : guest_pt :=
  mk_pt (pt_mem s) (pt_pool_next s) (ttbr0 s) (ttbr1 s) (kbuf_gpa s) (pt_gen s + 1)%u64
    (cpu_tlbi_req s).

(** Loads and stores of one descriptor ([pte_load_acquire],
    [pte_store_release]); the word's byte offset stands for the pointer. *)
Definition rd (s : guest_pt) (a : Z) : Z := pt_mem s a.
Definition upd (m : Z -> Z) (a v : Z) : Z -> Z := fun x => if x =? a then v else m x.
Definition pte_store_release (s : guest_pt) (a v : Z) : guest_pt := set_mem (upd (pt_mem s) a v) s.

(** Byte offset of entry [i] of the table at [t]. *)
Definition entry_at (t i : Z) : Z := t + 8 * i.

(** ** Descriptors *)

(** The permission bits common to block and page descriptors. *)
Definition desc_perm_bits (perms desc : Z) : Z :=
  let desc := if has perms MEM_PERM_X then desc else Z.lor desc (Z.lor PT_UXN PT_PXN) in
  if has perms MEM_PERM_EL1_ONLY then Z.lor (Z.lor desc PT_AP_RW_EL1) (Z.lor PT_UXN PT_PXN)
  else if has perms MEM_PERM_W then Z.lor desc PT_AP_RW_EL0
  else Z.lor desc PT_AP_RO.

Definition make_block_desc (gpa perms : Z) : Z :=
  desc_perm_bits perms
    (Z.lor (Z.land gpa L2_BLOCK_ADDR_MASK)
       (Z.lor (Z.lor (Z.lor (Z.lor PT_AF PT_SH_ISH) PT_NS) PT_ATTR1) PT_BLOCK)).

Definition make_page_desc (pa perms : Z) : Z :=
  desc_perm_bits perms
    (Z.lor (Z.land pa GVA_PT_ADDR_MASK)
       (Z.lor (Z.lor (Z.lor (Z.lor PT_AF PT_SH_ISH) PT_NS) PT_ATTR1) PT_L3_PAGE)).

Definition desc_to_perms (desc : Z) : Z :=
  let perms := MEM_PERM_R in
  let perms := if has desc PT_UXN then perms else Z.lor perms MEM_PERM_X in
  let ap := Z.land desc (Z.shiftl 3 6) in
  if ap =? PT_AP_RW_EL0 then Z.lor perms MEM_PERM_W
  else if ap =? PT_AP_RW_EL1 then Z.lor perms (Z.lor MEM_PERM_W MEM_PERM_EL1_ONLY)
  else perms.

Definition table_desc (ipa : Z) : Z := Z.lor (Z.lor ipa PT_VALID) PT_TABLE.

(** The descriptor addresses a table walk masks out. *)
Definition desc_table (desc : Z) : Z := Z.land desc GVA_PT_ADDR_MASK.

Definition guest_kbuf_user_va_overlap (va size : Z) : bool :=
  if size =? 0 then false
  else
    let end_ := (va + size)%u64 in
    let end_ := if end_ <? va then UINT64_MAX else end_ in
    (va <? (KBUF_USER_VA + KBUF_SIZE)%u64) && (KBUF_USER_VA <? end_).

Section PageTables.
Variable L : layout.

#[local] Notation base := (ipa_base L).

Definition tlbi_range (s : guest_pt) (start end_ : Z) : guest_pt :=
  set_tlbi (tlbi_request_range (g_tlbi_range_supported L) (cpu_tlbi_req s) start end_) s.

Definition tlbi_mark_icache_if (perms : Z) (s : guest_pt) : guest_pt :=
  if has perms MEM_PERM_X then set_tlbi (tlbi_request_mark_icache (cpu_tlbi_req s)) s else s.

(** The bounding box of the descriptors a loop changed. *)
Definition note_change (bcast : bool) (lo hi a e : Z) : Z * Z :=
  if bcast then (lo, hi)
  else ((if a <? lo then a else lo), (if hi <? e then e else hi)).

(** [if (!bcast && changed_hi > changed_lo) tlbi_request_range(...)] *)
Definition flush_changes (bcast : bool) (off lo hi : Z) (s : guest_pt) : guest_pt :=
  if negb bcast && (lo <? hi) then tlbi_range s (off + lo)%u64 (off + hi)%u64 else s.

(** ** The pool *)

(** Returns the page's offset, 0 when the pool is exhausted. *)
Definition pt_alloc_page (s : guest_pt) : Z * guest_pt :=
  if pt_pool_end L <? (pt_pool_next s + PAGE_SIZE)%u64 then (0, s)
  else
    let gpa := pt_pool_next s in
    let s := set_pool_next (pt_pool_next s + PAGE_SIZE)%u64 s in
    (gpa, set_mem (fun a => if (gpa <=? a) && (a <? gpa + PAGE_SIZE) then 0 else pt_mem s a) s).

(** [None] is the abort on a table outside the slab. *)
Definition pt_at (gpa : Z) : option Z :=
  if (guest_size L <? GVA_PT_TABLE_BYTES) || ((guest_size L - GVA_PT_TABLE_BYTES)%u64 <? gpa)
  then None else Some gpa.

(** ** Walks *)

(** [(unsigned)] casts of the indices. *)
Definition u32 (x : Z) : Z := x mod 2 ^ 32.
Definition l0_index (va : Z) : Z := u32 (va / BLOCK_512GIB).
Definition l1_index (va : Z) : Z := u32 ((va mod BLOCK_512GIB) / BLOCK_1GIB).
Definition l2_index (va : Z) : Z := u32 ((va mod BLOCK_1GIB) / BLOCK_2MIB).
Definition l3_index (va : Z) : Z := u32 ((va mod BLOCK_2MIB) / PAGE_SIZE).

(** Address of the L2 entry for a guest virtual address; the inner [None] is
    the NULL result. *)
Definition find_l2_entry (s : guest_pt) (va : Z) : option (option Z) :=
  let ipa := (base + va)%u64 in
  l0 ← pt_at (ttbr0 s - base)%u64;
  let l0_idx := l0_index ipa in
  if (512 <=? l0_idx) || negb (has (rd s (entry_at l0 l0_idx)) PT_VALID) then Some None
  else
    l1 ← pt_at (desc_table (rd s (entry_at l0 l0_idx)) - base)%u64;
    let l1_idx := l1_index ipa in
    if (512 <=? l1_idx) || negb (has (rd s (entry_at l1 l1_idx)) PT_VALID) then Some None
    else
      l2 ← pt_at (desc_table (rd s (entry_at l1 l1_idx)) - base)%u64;
      Some (Some (entry_at l2 (l2_index ipa))).

Definition guest_va_block_mapped (s : guest_pt) (va : Z) : option bool :=
  if (ttbr0 s =? 0) || negb (Z.land va (BLOCK_2MIB - 1) =? 0) then Some false
  else
    l0 ← pt_at (ttbr0 s - base)%u64;
    let l0_idx := l0_index va in
    if (512 <=? l0_idx) || negb (has (rd s (entry_at l0 l0_idx)) PT_VALID) then Some false
    else
      l1 ← pt_at (desc_table (rd s (entry_at l0 l0_idx)) - base)%u64;
      let l1e := rd s (entry_at l1 (l1_index va)) in
      if negb (has l1e PT_VALID) || negb (has l1e PT_TABLE) then Some false
      else
        l2 ← pt_at (desc_table l1e - base)%u64;
        Some (has (rd s (entry_at l2 (l2_index va))) PT_VALID).

(** The walk that allocates missing L1 and L2 tables, shared by the three
    functions that install 2 MiB blocks.  [check_block] is the extra test of
    [guest_map_va_range] for an L1 block. *)
Inductive walk_result :=
  | WalkSlot (l2_entry : Z)
  | WalkOutOfRange
  | WalkNoMemory
  | WalkL1Block.

(** [if (!(e & PT_VALID)) { allocate a table; if none, fail; link it }] *)
Definition ensure_table (s : guest_pt) (slot : Z) : bool * guest_pt :=
  if negb (has (rd s slot) PT_VALID) then
    let '(gpa, s) := pt_alloc_page s in
    if gpa =? 0 then (false, s)
    else (true, pte_store_release s slot (table_desc (base + gpa)%u64))
  else (true, s).

Definition walk_alloc (check_block : bool) (s : guest_pt) (l0 va : Z)
    : option (walk_result * guest_pt) :=
  let l0_idx := l0_index va in
  if 512 <=? l0_idx then Some (WalkOutOfRange, s)
  else
    let '(ok, s) := ensure_table s (entry_at l0 l0_idx) in
    if negb ok then Some (WalkNoMemory, s)
    else
      l1 ← pt_at (desc_table (rd s (entry_at l0 l0_idx)) - base)%u64;
      let l1_idx := l1_index va in
      if 512 <=? l1_idx then Some (WalkOutOfRange, s)
      else
        let '(ok, s) := ensure_table s (entry_at l1 l1_idx) in
        if negb ok then Some (WalkNoMemory, s)
        else if check_block && negb (has (rd s (entry_at l1 l1_idx)) PT_TABLE)
        then Some (WalkL1Block, s)
        else
          l2 ← pt_at (desc_table (rd s (entry_at l1 l1_idx)) - base)%u64;
          Some (WalkSlot (entry_at l2 (l2_index va)), s).

(** ** Installing 2 MiB blocks *)

(** [for (addr = addr_start; addr < addr_end; addr += BLOCK_2MIB)] of
    [guest_extend_page_tables]. Result code, state, changed bounds. *)
Fixpoint extend_loop (fuel : nat) (s : guest_pt) (l0 perms : Z) (bcast : bool)
    (addr addr_end lo hi : Z) : option (Z * guest_pt * Z * Z) :=
  if addr <? addr_end then
    match fuel with
    | O => None
    | S fuel =>
        let ipa := (base + addr)%u64 in
        '(w, s) ← walk_alloc false s l0 ipa;
        match w with
        | WalkSlot slot =>
            if has (rd s slot) PT_VALID then
              extend_loop fuel s l0 perms bcast (addr + BLOCK_2MIB)%u64 addr_end lo hi
            else
              let s := pte_store_release s slot (make_block_desc ipa perms) in
              let '(lo, hi) := note_change bcast lo hi addr (addr + BLOCK_2MIB)%u64 in
              extend_loop fuel s l0 perms bcast (addr + BLOCK_2MIB)%u64 addr_end lo hi
        | _ => Some (-1, s, lo, hi)
        end
    end
  else Some (0, s, lo, hi).

(** Iterations of a loop over the 2 MiB blocks of [[a, b)]. *)
Definition block_fuel (a b : Z) : nat := Z.to_nat ((b - a) / BLOCK_2MIB + 1).

Definition guest_extend_page_tables (s : guest_pt) (start end_ perms : Z) : option (Z * guest_pt) :=
  if (guest_size L <=? start) || (guest_size L <? end_) then Some (-1, s)
  else if (UINT64_MAX - (BLOCK_2MIB - 1))%u64 <? end_ then Some (-1, s)
  else
    l0 ← pt_at (ttbr0 s - base)%u64;
    let s := tlbi_mark_icache_if perms s in
    let addr_start := ALIGN_2MIB_DOWN start in
    let addr_end := ALIGN_2MIB_UP end_ in
    let bcast := tlbi_request_is_broadcast (cpu_tlbi_req s) in
    '(rc, s, lo, hi) ← extend_loop (block_fuel addr_start addr_end) s l0 perms bcast
                         addr_start addr_end UINT64_MAX 0;
    if rc <? 0 then Some (-1, s)
    else Some (0, guest_pt_gen_bump (flush_changes bcast base lo hi s)).

Fixpoint map_va_loop (fuel : nat) (s : guest_pt) (l0 perms : Z) (bcast : bool)
    (va va_limit cur_gpa lo hi : Z) : option (Z * guest_pt * Z * Z) :=
  if va <? va_limit then
    match fuel with
    | O => None
    | S fuel =>
        '(w, s) ← walk_alloc true s l0 va;
        match w with
        | WalkSlot slot =>
            if has (rd s slot) PT_VALID then
              map_va_loop fuel s l0 perms bcast (va + BLOCK_2MIB)%u64 va_limit
                (cur_gpa + BLOCK_2MIB)%u64 lo hi
            else
              let s := pte_store_release s slot (make_block_desc cur_gpa perms) in
              let '(lo, hi) := note_change bcast lo hi va (va + BLOCK_2MIB)%u64 in
              map_va_loop fuel s l0 perms bcast (va + BLOCK_2MIB)%u64 va_limit
                (cur_gpa + BLOCK_2MIB)%u64 lo hi
        | _ => Some (-1, s, lo, hi)
        end
    end
  else Some (0, s, lo, hi).

Definition guest_map_va_range (s : guest_pt) (va_base va_limit gpa_start perms : Z)
    : option (Z * guest_pt) :=
  if va_limit <=? va_base then Some (-1, s)
  else if negb (Z.land (Z.lor (Z.lor va_base va_limit) gpa_start) (BLOCK_2MIB - 1) =? 0)
  then Some (-1, s)
  else if ttbr0 s =? 0 then Some (-1, s)
  else
    l0 ← pt_at (ttbr0 s - base)%u64;
    let bcast := tlbi_request_is_broadcast (cpu_tlbi_req s) in
    let s := tlbi_mark_icache_if perms s in
    '(rc, s, lo, hi) ← map_va_loop (block_fuel va_base va_limit) s l0 perms bcast
                         va_base va_limit gpa_start UINT64_MAX 0;
    if rc <? 0 then Some (-1, s)
    else Some (0, guest_pt_gen_bump (flush_changes bcast 0 lo hi s)).

(** ** Splitting a block *)

(** [for (i = 0; i < 512; i++) l3[i] = make_page_desc(...)]: [n] entries left,
    the next index is [512 - n]. *)
Fixpoint split_fill (n : nat) (m : Z -> Z) (l3 block_ipa perms : Z) : Z -> Z :=
  match n with
  | O => m
  | S n' =>
      let i := 512 - Z.of_nat n in
      split_fill n' (upd m (entry_at l3 i)
        (make_page_desc (block_ipa + (i * PAGE_SIZE)%u64)%u64 perms)) l3 block_ipa perms
  end.

Definition split_l2_block (s : guest_pt) (l2_entry : option Z) : option (Z * guest_pt) :=
  match l2_entry with
  | None => Some (-1, s)
  | Some a =>
      if Z.land (rd s a) 3 =? 3 then Some (0, s)
      else if negb (has (rd s a) PT_BLOCK) then Some (-1, s)
      else
        let old_perms := desc_to_perms (rd s a) in
        let '(l3_gpa, s) := pt_alloc_page s in
        if l3_gpa =? 0 then Some (-1, s)
        else
          l3 ← pt_at l3_gpa;
          let block_ipa := Z.land (rd s a) L2_BLOCK_ADDR_MASK in
          let s := set_mem (split_fill PTES_PER_TABLE (pt_mem s) l3 block_ipa old_perms) s in
          Some (0, pte_store_release s a (table_desc (base + l3_gpa)%u64))
  end.

Definition guest_split_block (s : guest_pt) (block_gpa : Z) : option (Z * guest_pt) :=
  l2_entry ← find_l2_entry s (ALIGN_2MIB_DOWN block_gpa);
  '(rc, s) ← split_l2_block s l2_entry;
  if rc <? 0 then Some (rc, s) else Some (0, s).

(** ** Invalidating pages *)

Fixpoint inval_pages (fuel : nat) (s : guest_pt) (l3 : Z) (bcast : bool) (pa page_end lo hi : Z)
    : option (guest_pt * Z * Z) :=
  if pa <? page_end then
    match fuel with
    | O => None
    | S fuel =>
        let a := entry_at l3 (l3_index (base + pa)%u64) in
        if negb (rd s a =? 0) then
          let s := pte_store_release s a 0 in
          let '(lo, hi) := note_change bcast lo hi pa (pa + PAGE_SIZE)%u64 in
          inval_pages fuel s l3 bcast (pa + PAGE_SIZE)%u64 page_end lo hi
        else inval_pages fuel s l3 bcast (pa + PAGE_SIZE)%u64 page_end lo hi
    end
  else Some (s, lo, hi).

(** The L3 part of one iteration of [guest_invalidate_ptes]. *)
Definition inval_l3 (s : guest_pt) (l2_entry addr block_start block_end end_ : Z)
    : option (guest_pt * Z) :=
  l3 ← pt_at (desc_table (rd s l2_entry) - base)%u64;
  let page_start := if block_start <? addr then addr else block_start in
  let page_end := if end_ <? block_end then end_ else block_end in
  let bcast := tlbi_request_is_broadcast (cpu_tlbi_req s) in
  '(s, lo, hi) ← inval_pages PTES_PER_TABLE s l3 bcast page_start page_end UINT64_MAX 0;
  Some (flush_changes bcast base lo hi s, page_end).

(** [for (addr = start; addr < end;)] around a body that returns an error code,
    the state and the next address. *)
Fixpoint block_walk (body : guest_pt -> Z -> option (Z * guest_pt * Z)) (fuel : nat)
    (s : guest_pt) (end_ addr : Z) : option (Z * guest_pt) :=
  if addr <? end_ then
    match fuel with
    | O => None
    | S fuel =>
        '(rc, s, addr) ← body s addr;
        if rc <? 0 then Some (-1, s) else block_walk body fuel s end_ addr
    end
  else Some (0, s).

(** One iteration of [guest_invalidate_ptes]. *)
Definition inval_block (start end_ : Z) (s : guest_pt) (addr : Z) : option (Z * guest_pt * Z) :=
  l2 ← find_l2_entry s addr;
  match l2 with
  | None => Some (0, s, ALIGN_2MIB_UP (addr + 1)%u64)
  | Some a =>
      let block_start := ALIGN_2MIB_DOWN addr in
      let block_end := (block_start + BLOCK_2MIB)%u64 in
      if negb (has (rd s a) 1) then Some (0, s, block_end)
      else if (Z.land (rd s a) 3 =? 1) && (start <=? block_start) && (block_end <=? end_) then
        let s := pte_store_release s a 0 in
        let s := tlbi_range s (base + block_start)%u64 (base + block_end)%u64 in
        Some (0, s, block_end)
      else
        '(rc, s) ← (if Z.land (rd s a) 3 =? 1 then guest_split_block s block_start
                    else Some (0, s));
        if rc <? 0 then Some (-1, s, addr)
        else
          '(s, page_end) ← inval_l3 s a addr block_start block_end end_;
          Some (0, s, page_end)
  end.

Definition guest_invalidate_ptes (s : guest_pt) (start end_ : Z) : option (Z * guest_pt) :=
  if (UINT64_MAX - (PAGE_SIZE - 1))%u64 <? end_ then Some (-1, s)
  else
    let start := Z.land start (not64 (PAGE_SIZE - 1)) in
    let end_ := Z.land (end_ + PAGE_SIZE - 1)%u64 (not64 (PAGE_SIZE - 1)) in
    if end_ <=? start then Some (0, s)
    else
      '(rc, s) ← block_walk (inval_block start end_) (block_fuel start end_ + 1) s end_ start;
      if rc <? 0 then Some (-1, s) else Some (0, guest_pt_gen_bump s).

(** ** Changing permissions *)

(** The output address an invalidated L3 entry is rebuilt with. *)
Definition recover_ipa (regs : list guest_region_t) (pa : Z) : Z :=
  match guest_region_find regs pa with
  | Some r =>
      let page_gpa := (r_gpa_base r + (pa - r_start r))%u64 in
      (base + Z.land page_gpa (not64 (PAGE_SIZE - 1)))%u64
  | None => (base + Z.land pa (not64 (PAGE_SIZE - 1)))%u64
  end.

Fixpoint perm_pages (fuel : nat) (regs : list guest_region_t) (s : guest_pt) (l3 perms : Z)
    (bcast : bool) (pa page_end lo hi : Z) : option (guest_pt * Z * Z) :=
  if pa <? page_end then
    match fuel with
    | O => None
    | S fuel =>
        let a := entry_at l3 (l3_index (base + pa)%u64) in
        let page_ipa :=
          if has (rd s a) PT_VALID then Z.land (rd s a) GVA_PT_ADDR_MASK
          else recover_ipa regs pa in
        let new_desc := make_page_desc page_ipa perms in
        if negb (rd s a =? new_desc) then
          let s := pte_store_release s a new_desc in
          let '(lo, hi) := note_change bcast lo hi pa (pa + PAGE_SIZE)%u64 in
          perm_pages fuel regs s l3 perms bcast (pa + PAGE_SIZE)%u64 page_end lo hi
        else perm_pages fuel regs s l3 perms bcast (pa + PAGE_SIZE)%u64 page_end lo hi
    end
  else Some (s, lo, hi).

Definition perm_l3 (regs : list guest_region_t) (s : guest_pt)
    (l2_entry addr block_start block_end end_ perms : Z) : option (guest_pt * Z) :=
  l3 ← pt_at (desc_table (rd s l2_entry) - base)%u64;
  let page_start := if block_start <? addr then addr else block_start in
  let page_end := if end_ <? block_end then end_ else block_end in
  let bcast := tlbi_request_is_broadcast (cpu_tlbi_req s) in
  '(s, lo, hi) ← perm_pages PTES_PER_TABLE regs s l3 perms bcast page_start page_end UINT64_MAX 0;
  Some (flush_changes bcast base lo hi s, page_end).

(** One iteration of [guest_update_perms]. *)
Definition perm_block (regs : list guest_region_t) (start end_ perms : Z) (s : guest_pt) (addr : Z)
    : option (Z * guest_pt * Z) :=
  l2 ← find_l2_entry s addr;
  match l2 with
  | None => Some (0, s, ALIGN_2MIB_UP (addr + 1)%u64)
  | Some a =>
      let block_start := ALIGN_2MIB_DOWN addr in
      let block_end := (block_start + BLOCK_2MIB)%u64 in
      let e := rd s a in
      if negb (has e 1) then Some (0, s, block_end)
      else if (Z.land e 3 =? 1) && (start <=? block_start) && (block_end <=? end_) then
        let s :=
          if negb (desc_to_perms e =? perms) then
            tlbi_range
              (pte_store_release s a (make_block_desc (Z.land e L2_BLOCK_ADDR_MASK) perms))
              (base + block_start)%u64 (base + block_end)%u64
          else s in
        Some (0, s, block_end)
      else if (Z.land e 3 =? 1) && (desc_to_perms e =? perms) then Some (0, s, block_end)
      else
        '(rc, s) ← (if Z.land e 3 =? 1 then guest_split_block s block_start else Some (0, s));
        if rc <? 0 then Some (-1, s, addr)
        else
          '(s, page_end) ← perm_l3 regs s a addr block_start block_end end_ perms;
          Some (0, s, page_end)
  end.

Definition guest_update_perms (regs : list guest_region_t) (s : guest_pt) (start end_ perms : Z)
    : option (Z * guest_pt) :=
  if (UINT64_MAX - (PAGE_SIZE - 1))%u64 <? end_ then Some (-1, s)
  else
    let start := Z.land start (not64 (PAGE_SIZE - 1)) in
    let end_ := Z.land (end_ + PAGE_SIZE - 1)%u64 (not64 (PAGE_SIZE - 1)) in
    if end_ <=? start then Some (0, s)
    else
      let s := tlbi_mark_icache_if perms s in
      if has perms MEM_PERM_X && (start <? end_)
         && guest_kbuf_user_va_overlap start (end_ - start)%u64 then Some (-1, s)
      else
        '(rc, s) ← block_walk (perm_block regs start end_ perms) (block_fuel start end_ + 1) s end_ start;
        if rc <? 0 then Some (-1, s) else Some (0, guest_pt_gen_bump s).

(** ** Installing 4 KiB pages *)

Fixpoint install_loop (fuel : nat) (s : guest_pt) (perms : Z) (bcast : bool) (v p end_ lo hi : Z)
    : option (Z * guest_pt * Z * Z) :=
  if v <? end_ then
    match fuel with
    | O => None
    | S fuel =>
        l2 ← find_l2_entry s v;
        match l2 with
        | None => Some (-1, s, lo, hi)
        | Some a =>
            if negb (has (rd s a) PT_VALID) then Some (-1, s, lo, hi)
            else
              '(rc, s) ← (if Z.land (rd s a) 3 =? 1 then guest_split_block s (ALIGN_2MIB_DOWN v)
                          else Some (0, s));
              if rc <? 0 then Some (-1, s, lo, hi)
              else
                l3 ← pt_at (desc_table (rd s a) - base)%u64;
                let e := entry_at l3 (l3_index (base + v)%u64) in
                let new_desc := make_page_desc (base + p)%u64 perms in
                if negb (rd s e =? new_desc) then
                  let s := pte_store_release s e new_desc in
                  let '(lo, hi) := note_change bcast lo hi v (v + PAGE_SIZE)%u64 in
                  install_loop fuel s perms bcast (v + PAGE_SIZE)%u64 (p + PAGE_SIZE)%u64 end_ lo hi
                else
                  install_loop fuel s perms bcast (v + PAGE_SIZE)%u64 (p + PAGE_SIZE)%u64 end_ lo hi
        end
    end
  else Some (0, s, lo, hi).

Definition guest_install_va_pages (s : guest_pt) (va length gpa perms : Z)
    : option (Z * guest_pt) :=
  if length =? 0 then Some (-1, s)
  else if negb (Z.land (Z.lor (Z.lor va length) gpa) (PAGE_SIZE - 1) =? 0) then Some (-1, s)
  else if ((UINT64_MAX - length)%u64 <? va) || ((UINT64_MAX - length)%u64 <? gpa) then Some (-1, s)
  else if has perms MEM_PERM_X && guest_kbuf_user_va_overlap va length then Some (-1, s)
  else
    let end_ := (va + length)%u64 in
    let bcast := tlbi_request_is_broadcast (cpu_tlbi_req s) in
    let s := tlbi_mark_icache_if perms s in
    '(rc, s, lo, hi) ← install_loop (Z.to_nat (length / PAGE_SIZE)) s perms bcast va gpa end_ UINT64_MAX 0;
    if rc <? 0 then Some (-1, s)
    else Some (0, guest_pt_gen_bump (flush_changes bcast 0 lo hi s)).

End PageTables.
