(* ===== verification/DescFacts.v ===== *)
(** * Page-table descriptors

    What the bits of a descriptor built by [make_block_desc], [make_page_desc]
    or [table_desc] say when they are read back: the output address, the kind
    of descriptor and the permissions. *)

From S2P Require Import Prelude Tlbi Regions PageTable.

(** ** Masks *)


Lemma land_addr_mask x n k :
  0 <= n -> 0 <= k -> Z.land x (Z.shiftl (Z.ones n) k) = ((x / 2 ^ k) mod 2 ^ n) * 2 ^ k.
Proof.
  intros Hn Hk. rewrite <- Z.land_ones, <- Z.shiftr_div_pow2, <- Z.shiftl_mul_pow2 by lia.
  apply Z.bits_inj'. intros i Hi. rewrite Z.land_spec, !Z.shiftl_spec by lia.
  destruct (decide (i < k)).
  - rewrite !(Z.testbit_neg_r _ (i - k)) by lia. by rewrite andb_false_r.
  - rewrite Z.land_spec, Z.shiftr_spec by lia. by replace (i - k + k) with i by lia.
Qed.

Lemma page_addr x : Z.land x GVA_PT_ADDR_MASK = ((x / 4096) mod 2 ^ 36) * 4096.
Proof. apply (land_addr_mask x 36 12); lia. Qed.

Lemma block_addr x : Z.land x L2_BLOCK_ADDR_MASK = ((x / 2097152) mod 2 ^ 27) * 2097152.
Proof. apply (land_addr_mask x 27 21); lia. Qed.

Lemma page_addr_id x : 0 <= x < 2 ^ 48 -> x mod 4096 = 0 -> Z.land x GVA_PT_ADDR_MASK = x.
Proof. intros. rewrite page_addr. rewrite Z.mod_small by zdm. zdm. Qed.

Lemma block_addr_id x : 0 <= x < 2 ^ 48 -> x mod BLOCK_2MIB = 0 -> Z.land x L2_BLOCK_ADDR_MASK = x.
Proof. unfold BLOCK_2MIB. intros. rewrite block_addr. rewrite Z.mod_small by zdm. zdm. Qed.

Lemma page_addr_range x : 0 <= Z.land x GVA_PT_ADDR_MASK < 2 ^ 48 /\ Z.land x GVA_PT_ADDR_MASK mod 4096 = 0.
Proof. rewrite page_addr. zdm. Qed.

Lemma block_addr_range x :
  0 <= Z.land x L2_BLOCK_ADDR_MASK < 2 ^ 48 /\ Z.land x L2_BLOCK_ADDR_MASK mod BLOCK_2MIB = 0.
Proof. rewrite block_addr. unfold BLOCK_2MIB. zdm. Qed.

(** ** A masked address or-ed with attribute bits *)

Lemma land_addr_attr x m c b : Z.land m b = 0 -> Z.land (Z.lor (Z.land x m) c) b = Z.land c b.
Proof.
  intros Hd. rewrite Z.land_lor_distr_l, <- Z.land_assoc, Hd, Z.land_0_r. apply Z.lor_0_l.
Qed.

Lemma land_attr_addr x m c : Z.land c m = 0 -> Z.land (Z.lor (Z.land x m) c) m = Z.land x m.
Proof.
  intros Hd. rewrite Z.land_lor_distr_l, <- Z.land_assoc, Z.land_diag, Hd. apply Z.lor_0_r.
Qed.

Lemma has_addr_attr x m c b : Z.land m b = 0 -> has (Z.lor (Z.land x m) c) b = has c b.
Proof. intros. unfold has. by rewrite land_addr_attr. Qed.

Lemma desc_perm_bits_lor perms a c : desc_perm_bits perms (Z.lor a c) = Z.lor a (desc_perm_bits perms c).
Proof. unfold desc_perm_bits. repeat case_if; by rewrite !Z.lor_assoc. Qed.

Definition BLOCK_ATTR : Z := Z.lor (Z.lor (Z.lor (Z.lor PT_AF PT_SH_ISH) PT_NS) PT_ATTR1) PT_BLOCK.
Definition PAGE_ATTR : Z := Z.lor (Z.lor (Z.lor (Z.lor PT_AF PT_SH_ISH) PT_NS) PT_ATTR1) PT_L3_PAGE.

Lemma make_block_desc_eq gpa perms :
  make_block_desc gpa perms = Z.lor (Z.land gpa L2_BLOCK_ADDR_MASK) (desc_perm_bits perms BLOCK_ATTR).
Proof. apply desc_perm_bits_lor. Qed.

Lemma make_page_desc_eq pa perms :
  make_page_desc pa perms = Z.lor (Z.land pa GVA_PT_ADDR_MASK) (desc_perm_bits perms PAGE_ATTR).
Proof. apply desc_perm_bits_lor. Qed.

(** What a permission set reads back as: readable always; EL1-only data is
    writable and never executable. *)
Definition norm_perms (p : Z) : Z :=
  if has p MEM_PERM_EL1_ONLY then Z.lor MEM_PERM_R (Z.lor MEM_PERM_W MEM_PERM_EL1_ONLY)
  else
    let q := if has p MEM_PERM_X then Z.lor MEM_PERM_R MEM_PERM_X else MEM_PERM_R in
    if has p MEM_PERM_W then Z.lor q MEM_PERM_W else q.

Lemma perm_bits_cases perms c : c = BLOCK_ATTR \/ c = PAGE_ATTR ->
  let d := desc_perm_bits perms c in
  Z.land d L2_BLOCK_ADDR_MASK = 0 /\ Z.land d GVA_PT_ADDR_MASK = 0 /\
  Z.land d 3 = Z.land c 3 /\ has d 1 = true /\ desc_to_perms d = norm_perms perms.
Proof.
  intros Hc. unfold desc_perm_bits, norm_perms.
  destruct Hc as [-> | ->], (has perms MEM_PERM_X), (has perms MEM_PERM_EL1_ONLY), (has perms MEM_PERM_W);
    by vm_compute.
Qed.

Lemma desc_to_perms_attr x m c :
  Z.land m PT_UXN = 0 -> Z.land m (Z.shiftl 3 6) = 0 ->
  desc_to_perms (Z.lor (Z.land x m) c) = desc_to_perms c.
Proof. intros H1 H2. unfold desc_to_perms. by rewrite has_addr_attr, land_addr_attr. Qed.

(** ** Reading descriptors back *)

Lemma make_block_desc_spec gpa perms :
  let d := make_block_desc gpa perms in
  Z.land d 3 = 1 /\ has d 1 = true /\ Z.land d L2_BLOCK_ADDR_MASK = Z.land gpa L2_BLOCK_ADDR_MASK /\
  desc_to_perms d = norm_perms perms.
Proof.
  intros d. subst d. rewrite make_block_desc_eq.
  destruct (perm_bits_cases perms BLOCK_ATTR (or_introl eq_refl)) as (H1&H2&H3&H4&H5).
  split_and!.
  - by rewrite land_addr_attr, H3.
  - by rewrite has_addr_attr.
  - by rewrite land_attr_addr.
  - by rewrite desc_to_perms_attr.
Qed.

Lemma make_page_desc_spec pa perms :
  let d := make_page_desc pa perms in
  Z.land d 3 = 3 /\ has d 1 = true /\ Z.land d GVA_PT_ADDR_MASK = Z.land pa GVA_PT_ADDR_MASK /\
  desc_to_perms d = norm_perms perms.
Proof.
  intros d. subst d. rewrite make_page_desc_eq.
  destruct (perm_bits_cases perms PAGE_ATTR (or_intror eq_refl)) as (H1&H2&H3&H4&H5).
  split_and!.
  - by rewrite land_addr_attr, H3.
  - by rewrite has_addr_attr.
  - by rewrite land_attr_addr.
  - by rewrite desc_to_perms_attr.
Qed.

Lemma table_desc_spec c :
  0 <= c < 2 ^ 48 -> c mod 4096 = 0 ->
  desc_table (table_desc c) = c /\ Z.land (table_desc c) 3 = 3.
Proof.
  intros Hc Hm. unfold desc_table, table_desc. rewrite <- (page_addr_id c Hc Hm), <- Z.lor_assoc.
  split; [by rewrite land_attr_addr|by rewrite land_addr_attr].
Qed.

(** The two low bits of a descriptor. *)
Lemma low_bits d : has d 1 = Z.testbit d 0 /\ has d 2 = Z.testbit d 1 /\
  Z.land d 3 = Z.b2z (Z.testbit d 0) + 2 * Z.b2z (Z.testbit d 1).
Proof.
  split; [by apply (has_testbit d 0)|]. split; [by apply (has_testbit d 1)|].
  change 3 with (Z.ones 2). rewrite Z.land_ones by lia.
  rewrite Z.bit0_mod. rewrite (Z.testbit_spec' d 1) by lia.
  change (2 ^ 1) with 2. change (2 ^ 2) with 4. zdm.
Qed.

Lemma desc_kind d :
  (Z.land d 3 = 3 <-> has d 1 = true /\ has d 2 = true) /\
  (Z.land d 3 = 1 <-> has d 1 = true /\ has d 2 = false).
Proof.
  destruct (low_bits d) as (-> & -> & ->).
  destruct (Z.testbit d 0), (Z.testbit d 1); simpl; intuition (congruence || lia).
Qed.
