(* ===== verification/PtStruct.v ===== *)
(** * The shape of the page tables

    [tab s l q] is the table of level [l] (0 the root, 3 the 4 KiB tables) for
    the addresses with prefix [q], and [ent s l q] the level-[l] entry for
    them, both computed from the table words.  [pt_wf] is the invariant: every
    reachable table is a page of the pool, no table is reachable twice, and the
    upper levels hold table descriptors only.  The lemmas say what a store to
    one entry, the linking of a fresh table and an allocation do to [tab] and
    [ent]: all the page-table functions are built from these. *)

From S2P Require Import Prelude Tlbi Regions PageTable DescFacts.

(** ** Tables and entries *)

Definition tnext (e : Z) : option Z := if Z.land e 3 =? 3 then Some (desc_table e) else None.

Fixpoint tab (s : guest_pt) (l : nat) (q : Z) : option Z :=
  match l with
  | O => if q =? 0 then Some (ttbr0 s) else None
  | S l' =>
      match tab s l' (q / 512) with
      | Some t => tnext (rd s (entry_at t (q mod 512)))
      | None => None
      end
  end.

Definition ent (s : guest_pt) (l : nat) (q : Z) : Z :=
  match tab s l (q / 512) with
  | Some t => rd s (entry_at t (q mod 512))
  | None => 0
  end.

Lemma tab_S s l q : tab s (S l) q = tnext (ent s l q).
Proof. unfold ent. simpl. by destruct (tab s l (q / 512)). Qed.

(** ** The invariant *)

Record layout_ok (L : layout) : Prop := {
  lo_base : ipa_base L = 0;
  lo_pool_base : 4096 <= pt_pool_base L /\ pt_pool_base L mod 4096 = 0;
  lo_pool : pt_pool_base L <= pt_pool_end L <= guest_size L;
  lo_pool_end : pt_pool_end L mod 4096 = 0;
  lo_size : guest_size L <= 2 ^ 47
}.

(** [t] is an allocated page of the pool. *)
Definition pool_page (L : layout) (s : guest_pt) (t : Z) : Prop :=
  pt_pool_base L <= t /\ t + 4096 <= pt_pool_next s /\ t mod 4096 = 0.

(** A block descriptor carries a permission set the code can build. *)
Definition block_ok (e : Z) : Prop :=
  Z.land e 3 = 1 -> norm_perms (desc_to_perms e) = desc_to_perms e.

Record pt_wf (L : layout) (s : guest_pt) : Prop := {
  wf_layout : layout_ok L;
  wf_next : pt_pool_base L <= pt_pool_next s <= pt_pool_end L /\ pt_pool_next s mod 4096 = 0;
  wf_page : forall l q t, (l <= 3)%nat -> tab s l q = Some t -> pool_page L s t;
  wf_inj : forall l q l' q' t, (l <= 3)%nat -> (l' <= 3)%nat ->
    tab s l q = Some t -> tab s l' q' = Some t -> l = l' /\ q = q';
  wf_upper : forall l q, (l <= 1)%nat -> has (ent s l q) 1 = true -> Z.land (ent s l q) 3 = 3;
  wf_block : forall q, block_ok (ent s 2 q);
  wf_tlbi : tlbi_wf (g_tlbi_range_supported L) (cpu_tlbi_req s)
}.

Lemma entry_at_inj t i t' i' :
  t mod 4096 = 0 -> t' mod 4096 = 0 -> 0 <= i < 512 -> 0 <= i' < 512 ->
  entry_at t i = entry_at t' i' -> t = t' /\ i = i'.
Proof. unfold entry_at. zdm. Qed.

Lemma split_512 q q' : q / 512 = q' / 512 -> q mod 512 = q' mod 512 -> q = q'.
Proof. zdm. Qed.

Section Structure.
Context (L : layout).

Lemma pool_page_bounds s t : layout_ok L -> pt_pool_next s <= pt_pool_end L -> pool_page L s t ->
  4096 <= t /\ t + 4096 <= guest_size L /\ 0 <= t < 2 ^ 48 /\ fits64 t.
Proof.
  intros [] ? (?&?&?). unfold fits64, two64. lia.
Qed.

Lemma wf_tab_bounds s l q t : pt_wf L s -> (l <= 3)%nat -> tab s l q = Some t ->
  4096 <= t /\ t + 4096 <= guest_size L /\ 0 <= t < 2 ^ 48 /\ fits64 t /\ t mod 4096 = 0.
Proof.
  intros Hwf Hl Ht. pose proof (wf_page _ _ Hwf _ _ _ Hl Ht) as Hp.
  destruct (pool_page_bounds s t (wf_layout _ _ Hwf)) as (?&?&?&?); [destruct (wf_next _ _ Hwf); lia|done|].
  destruct Hp as (_&_&?). split_and!; done || lia.
Qed.

Lemma wf_tab_aligned s l q t : pt_wf L s -> (l <= 3)%nat -> tab s l q = Some t -> t mod 4096 = 0.
Proof. intros Hwf Hl Ht. by destruct (wf_tab_bounds _ _ _ _ Hwf Hl Ht) as (_&_&_&_&?). Qed.

Lemma pt_at_ok t : layout_ok L -> 4096 <= t -> t + 4096 <= guest_size L -> pt_at L t = Some t.
Proof.
  intros [] ? ?. unfold pt_at, GVA_PT_TABLE_BYTES.
  rewrite sub64_small by (unfold fits64, two64; lia).
  destruct (Z.ltb_spec (guest_size L) 4096); [lia|]. simpl.
  destruct (Z.ltb_spec (guest_size L - 4096) t); [lia|done].
Qed.

Lemma pt_at_tab s l q t : pt_wf L s -> (l <= 3)%nat -> tab s l q = Some t ->
  pt_at L (t - ipa_base L)%u64 = Some t.
Proof.
  intros Hwf Hl Ht. destruct (wf_tab_bounds _ _ _ _ Hwf Hl Ht) as (?&?&?&?&?).
  rewrite (lo_base _ (wf_layout _ _ Hwf)), sub64_0_r by done.
  apply pt_at_ok; [apply Hwf|lia|lia].
Qed.

Lemma wf_root s : tab s 0 0 = Some (ttbr0 s).
Proof. done. Qed.

(** ** One store *)

(** Replacing an entry that is not a table by one that is not a table. *)
Lemma store_leaf s l q t v :
  pt_wf L s -> (l <= 3)%nat -> tab s l (q / 512) = Some t ->
  ((l < 3)%nat -> tnext (ent s l q) = None /\ tnext v = None) ->
  let s' := pte_store_release s (entry_at t (q mod 512)) v in
  (forall l' q', (l' <= 3)%nat -> tab s' l' q' = tab s l' q') /\
  (forall l' q', (l' <= 3)%nat -> ent s' l' q' = if decide (l' = l /\ q' = q) then v else ent s l' q').
Proof.
  intros Hwf Hl Ht Hv s'.
  assert (forall l' q', (l' <= 3)%nat -> tab s' l' (q' / 512) = tab s l' (q' / 512) ->
    ent s' l' q' = if decide (l' = l /\ q' = q) then v else ent s l' q') as Hent.
  { intros l' q' Hl' Htab. unfold ent. rewrite Htab.
    destruct (tab s l' (q' / 512)) as [t'|] eqn:Ht'.
    2:{ rewrite decide_False; [done|]. intros [-> ->]. congruence. }
    unfold s', pte_store_release, rd, upd. simpl.
    destruct (Z.eqb_spec (entry_at t' (q' mod 512)) (entry_at t (q mod 512))) as [He|He].
    - apply entry_at_inj in He as [-> Hq]; [|solve [done | by apply Z.mod_pos_bound | eapply wf_tab_aligned; [eassumption| |eassumption]; lia]..].
      destruct (wf_inj _ _ Hwf _ _ _ _ _ Hl Hl' Ht Ht') as [-> Hq'].
      by rewrite decide_True by (split; [done|by apply split_512]).
    - rewrite decide_False; [done|]. intros [-> ->]. congruence. }
  assert (forall l' q', (l' <= 3)%nat -> tab s' l' q' = tab s l' q') as Htab.
  { induction l' as [|l' IH]; intros q' Hl'; [done|].
    rewrite !tab_S, Hent by (lia || by apply IH; lia).
    destruct (decide _) as [[-> ->]|]; [|done]. destruct Hv as [-> ->]; [lia|done]. }
  split; [done|]. intros. by apply Hent, Htab.
Qed.

(** Linking a fresh table [c] whose entries are not tables themselves. *)
Lemma store_table s l q t c :
  pt_wf L s -> (l < 3)%nat -> tab s l (q / 512) = Some t -> tnext (ent s l q) = None ->
  pool_page L s c -> (forall l' q', (l' <= 3)%nat -> tab s l' q' <> Some c) ->
  ((l < 2)%nat -> forall i, 0 <= i < 512 -> tnext (rd s (entry_at c i)) = None) ->
  let s' := pte_store_release s (entry_at t (q mod 512)) (table_desc c) in
  (forall l' q', (l' <= 3)%nat ->
     tab s' l' q' = if decide (l' = S l /\ q' = q) then Some c else tab s l' q') /\
  (forall l' q', (l' <= 3)%nat -> ent s' l' q' =
     if decide (l' = l /\ q' = q) then table_desc c
     else if decide (l' = S l /\ q' / 512 = q) then rd s (entry_at c (q' mod 512))
     else ent s l' q').
Proof.
  intros Hwf Hl Ht Hnone Hpc Hfresh Hc s'.
  pose proof (wf_tab_aligned s l _ t Hwf ltac:(lia) Ht) as Htal.
  destruct Hpc as (Hc1&Hc2&Hcal).
  assert (c <> t) as Hct by (intros ->; by eapply Hfresh; [|exact Ht]; lia).
  assert (0 <= c < 2 ^ 48) as Hc48.
  { destruct (wf_layout _ _ Hwf), (wf_next _ _ Hwf). lia. }
  assert (forall l' q', (l' <= 3)%nat ->
    tab s' l' (q' / 512) = (if decide (l' = S l /\ q' / 512 = q) then Some c else tab s l' (q' / 512)) ->
    ent s' l' q' = if decide (l' = l /\ q' = q) then table_desc c
     else if decide (l' = S l /\ q' / 512 = q) then rd s (entry_at c (q' mod 512))
     else ent s l' q') as Hent.
  { intros l' q' Hl' Htab. unfold ent at 1. rewrite Htab.
    destruct (decide (l' = S l /\ q' / 512 = q)) as [[-> Hq]|Hn].
    - rewrite decide_False by lia. unfold s', pte_store_release, rd, upd. simpl.
      destruct (Z.eqb_spec (entry_at c (q' mod 512)) (entry_at t (q mod 512))) as [He|He]; [|done].
      apply entry_at_inj in He as [? _]; [done|done|done|by apply Z.mod_pos_bound..].
    - destruct (tab s l' (q' / 512)) as [t'|] eqn:Ht'.
      2:{ rewrite decide_False; [by unfold ent; rewrite Ht'|]. intros [-> ->]. congruence. }
      unfold s', pte_store_release, rd, upd. simpl.
      destruct (Z.eqb_spec (entry_at t' (q' mod 512)) (entry_at t (q mod 512))) as [He|He].
      + apply entry_at_inj in He as [-> Hq]; [|solve [done | by apply Z.mod_pos_bound | eapply wf_tab_aligned; [eassumption| |eassumption]; lia]..].
        destruct (wf_inj _ _ Hwf l _ l' _ _ ltac:(lia) Hl' Ht Ht') as [-> Hq'].
        by rewrite decide_True by (split; [done|by apply split_512]).
      + rewrite decide_False; [by unfold ent; rewrite Ht'|]. intros [-> ->]. congruence. }
  assert (forall l' q', (l' <= 3)%nat ->
    tab s' l' q' = if decide (l' = S l /\ q' = q) then Some c else tab s l' q') as Htab.
  { induction l' as [|l' IH]; intros q' Hl'; [by rewrite decide_False by lia|].
    rewrite !tab_S, Hent by (lia || by apply IH; lia).
    destruct (decide (l' = l /\ q' = q)) as [[-> ->]|Hn].
    - rewrite decide_True by done. unfold tnext.
      destruct (table_desc_spec c Hc48 Hcal) as [-> ->]. done.
    - rewrite (decide_False (P := S l' = S l /\ q' = q)) by (intros [[= ->] ->]; by apply Hn).
      destruct (decide (l' = S l /\ q' / 512 = q)) as [[-> Hq]|Hn2]; [|done].
      rewrite Hc; [|lia|by apply Z.mod_pos_bound].
      unfold ent. rewrite Hq, tab_S, Hnone. done. }
  split; [done|]. intros. by apply Hent, Htab.
Qed.

(** ** Preservation of the invariant *)

Lemma wf_transfer s s' :
  pt_wf L s -> pt_pool_next s <= pt_pool_next s' <= pt_pool_end L -> pt_pool_next s' mod 4096 = 0 ->
  (forall l q, (l <= 3)%nat -> tab s' l q = tab s l q) ->
  (forall l q, (l <= 1)%nat -> ent s' l q = ent s l q) ->
  (forall q, block_ok (ent s' 2 q)) ->
  tlbi_wf (g_tlbi_range_supported L) (cpu_tlbi_req s') -> pt_wf L s'.
Proof.
  intros [] Hn Hal Ht He Hb Htl. split; try done.
  - destruct wf_next0. lia.
  - intros l q t Hl. rewrite Ht by done. intros (?&?&?)%wf_page0; [|done]. split_and!; done || lia.
  - intros l q l' q' t Hl Hl'. rewrite !Ht by done. by apply wf_inj0.
  - intros l q Hl. rewrite He by done. by apply wf_upper0.
Qed.

(** The state the callers see of the leaf levels. *)
Definition same_leaves (s s' : guest_pt) : Prop :=
  forall q, ent s' 2 q = ent s 2 q /\ ent s' 3 q = ent s 3 q.

#[export] Instance same_leaves_preorder : PreOrder same_leaves.
Proof.
  split; [by intros s q|]. intros s1 s2 s3 A B q.
  destruct (B q) as [B1 B2], (A q) as [A1 A2]. by rewrite B1, B2.
Qed.

(** Tables are never unlinked. *)
Definition tabs_grow (s s' : guest_pt) : Prop :=
  forall l q t, (l <= 3)%nat -> tab s l q = Some t -> tab s' l q = Some t.

#[export] Instance tabs_grow_preorder : PreOrder tabs_grow.
Proof. split; [by intros s l q t|]. intros s1 s2 s3 A B l q t Hl Ht. by apply B, A. Qed.

(** ** Allocation *)

(** No page left in the pool. *)
Definition pool_full (s : guest_pt) : Prop := pt_pool_end L < pt_pool_next s + PAGE_SIZE.

Lemma pt_alloc_page_spec s gpa s' :
  pt_wf L s -> pt_alloc_page L s = (gpa, s') ->
  (gpa = 0 /\ s' = s /\ pool_full s) \/
  (gpa <> 0 /\ pt_wf L s' /\ pool_page L s' gpa /\
   (forall l q, (l <= 3)%nat -> tab s' l q = tab s l q) /\
   (forall l q, (l <= 3)%nat -> ent s' l q = ent s l q) /\
   (forall l q, (l <= 3)%nat -> tab s' l q <> Some gpa) /\
   (forall i, 0 <= i < 512 -> rd s' (entry_at gpa i) = 0) /\
   ttbr0 s' = ttbr0 s /\ ttbr1 s' = ttbr1 s /\ kbuf_gpa s' = kbuf_gpa s /\
   pt_gen s' = pt_gen s /\ cpu_tlbi_req s' = cpu_tlbi_req s).
Proof.
  intros Hwf. pose proof (wf_layout _ _ Hwf) as HL. pose proof (wf_next _ _ Hwf) as [Hn Hnal].
  destruct HL as [_ [Hb Hbal] Hpe Hpal Hgs]. unfold pt_alloc_page, PAGE_SIZE, GUEST_PAGE_SIZE.
  rewrite add64_small by (unfold fits64, two64; lia).
  destruct (Z.ltb_spec (pt_pool_end L) (pt_pool_next s + 4096)).
  { intros; simplify_eq. left. split_and!; done. }
  intros E; simplify_eq. right. set (s' := set_mem _ _).
  assert (forall l q, (l <= 3)%nat -> tab s' l q = tab s l q ->
    forall i, 0 <= i < 512 -> forall t, tab s l q = Some t -> rd s' (entry_at t i) = rd s (entry_at t i)) as Hrd.
  { intros l q Hl _ i Hi t Ht. destruct (wf_page _ _ Hwf _ _ _ Hl Ht) as (?&?&?).
    unfold s', rd, entry_at. simpl.
    destruct (Z.leb_spec (pt_pool_next s) (t + 8 * i)); [lia|done]. }
  assert (forall l q, (l <= 3)%nat -> tab s' l q = tab s l q) as Ht.
  { induction l as [|l IH]; intros q Hl; [done|]. rewrite !tab_S. unfold ent.
    rewrite IH by lia. destruct (tab s l (q / 512)) as [t|] eqn:Ht; [|done].
    rewrite (Hrd l (q / 512)); [done|lia|apply IH; lia|by apply Z.mod_pos_bound|done]. }
  assert (forall l q, (l <= 3)%nat -> ent s' l q = ent s l q) as He.
  { intros l q Hl. unfold ent. rewrite Ht by done. destruct (tab s l (q / 512)) as [t|] eqn:Htt; [|done].
    apply (Hrd l (q / 512)); [done|by apply Ht|by apply Z.mod_pos_bound|done]. }
  split_and!; try done; try lia.
  - eapply (wf_transfer s); simpl; try done; try lia; [zdm|intros; apply He; lia|intros; rewrite He by lia; apply Hwf|apply Hwf].
  - unfold pool_page, s'. simpl. split_and!; try done; lia.
  - intros l q Hl. rewrite Ht by done. intros Hbad. destruct (wf_page _ _ Hwf _ _ _ Hl Hbad) as (?&?&?). lia.
  - intros i Hi. unfold s', rd, entry_at. simpl.
    destruct (Z.leb_spec (pt_pool_next s) (pt_pool_next s + 8 * i)), (Z.ltb_spec (pt_pool_next s + 8 * i) (pt_pool_next s + 4096)); done || lia.
Qed.

(** ** Stores seen from the leaves *)

Lemma store_leaf_wf s l q t v :
  pt_wf L s -> (2 <= l <= 3)%nat -> tab s l (q / 512) = Some t ->
  ((l < 3)%nat -> tnext (ent s l q) = None /\ tnext v = None /\ block_ok v) ->
  let s' := pte_store_release s (entry_at t (q mod 512)) v in
  pt_wf L s' /\ tabs_grow s s' /\
  (forall l' q', (l' <= 3)%nat -> ent s' l' q' = if decide (l' = l /\ q' = q) then v else ent s l' q').
Proof.
  intros Hwf Hl Ht Hv s'. destruct (store_leaf s l q t v Hwf ltac:(lia) Ht) as [Htab Hent].
  { intros Hl3. by destruct (Hv Hl3) as (?&?&?). }
  split_and!; [|by intros l' q' t' Hl' Ht'; rewrite Htab|done].
  eapply (wf_transfer s); try done; simpl.
  - destruct (wf_next _ _ Hwf). lia.
  - apply Hwf.
  - intros l' q' Hl'. rewrite Hent by lia. rewrite decide_False by lia. done.
  - intros q'. rewrite Hent by lia. destruct (decide _) as [[<- ->]|]; [|apply Hwf]. by apply Hv; lia.
  - apply Hwf.
Qed.

Lemma store_table_wf s l q t c :
  pt_wf L s -> (l < 3)%nat -> tab s l (q / 512) = Some t -> tnext (ent s l q) = None ->
  pool_page L s c -> (forall l' q', (l' <= 3)%nat -> tab s l' q' <> Some c) ->
  ((l < 2)%nat -> forall i, 0 <= i < 512 -> rd s (entry_at c i) = 0) ->
  let s' := pte_store_release s (entry_at t (q mod 512)) (table_desc c) in
  pt_wf L s' /\ tabs_grow s s' /\ tab s' (S l) q = Some c /\
  (forall l' q', (l' <= 3)%nat -> ent s' l' q' =
     if decide (l' = l /\ q' = q) then table_desc c
     else if decide (l' = S l /\ q' / 512 = q) then rd s (entry_at c (q' mod 512))
     else ent s l' q').
Proof.
  intros Hwf Hl Ht Hnone Hpc Hfresh Hc s'.
  destruct (store_table s l q t c Hwf Hl Ht Hnone Hpc Hfresh) as [Htab Hent].
  { intros Hl2 i Hi. by rewrite Hc. }
  assert (tab s (S l) q = None) as Hnew by by rewrite tab_S.
  split_and!; [|intros l' q' t' Hl' Ht'|by rewrite Htab, decide_True by (done || lia)|done].
  2:{ rewrite Htab by done. rewrite decide_False; [done|]. intros [-> ->]. congruence. }
  destruct Hwf. split; try done.
  - intros l' q' t' Hl'. rewrite Htab by done. destruct (decide _); [|by apply wf_page0].
    intros [= <-]. done.
  - intros l1 q1 l2 q2 t' Hl1 Hl2. rewrite !Htab by done.
    destruct (decide (l1 = _ /\ _)) as [[-> ->]|], (decide (l2 = _ /\ _)) as [[-> ->]|]; intros H1 H2; simplify_eq;
      try done; [by exfalso; eapply Hfresh; [|exact H2]|by exfalso; eapply Hfresh; [|exact H1]|by eapply wf_inj0].
  - intros l' q' Hl'. rewrite Hent by lia. destruct (decide (l' = l /\ q' = q)).
    { intros _. destruct Hpc as (?&?&?). destruct wf_layout0, wf_next0.
      apply table_desc_spec; [lia|done]. }
    destruct (decide (l' = S l /\ q' / 512 = q)) as [[-> Hq]|]; [|by apply wf_upper0].
    rewrite Hc; [done|lia|by apply Z.mod_pos_bound].
  - intros q'. rewrite Hent by lia. destruct (decide (2%nat = l /\ q' = q)).
    { destruct Hpc as (?&?&?), wf_layout0, wf_next0. intros Hk.
      destruct (table_desc_spec c) as [_ Hk3]; [lia|done|]. lia. }
    destruct (decide (2%nat = S l /\ q' / 512 = q)); [|by apply wf_block0].
    rewrite Hc; [done|lia|by apply Z.mod_pos_bound].
Qed.

(** ** Linking missing tables *)

Lemma rd_ent s l q t : tab s l (q / 512) = Some t -> rd s (entry_at t (q mod 512)) = ent s l q.
Proof. intros Ht. unfold ent. by rewrite Ht. Qed.

Lemma tnext_invalid e : has e 1 = false -> tnext e = None.
Proof.
  intros Hv. unfold tnext. destruct (Z.eqb_spec (Z.land e 3) 3) as [He|]; [|done].
  apply desc_kind in He as [? _]. congruence.
Qed.

(** What every operation leaves alone. *)
Definition same_regs (s s' : guest_pt) : Prop :=
  ttbr0 s' = ttbr0 s /\ ttbr1 s' = ttbr1 s /\ kbuf_gpa s' = kbuf_gpa s /\
  pt_gen s' = pt_gen s /\ cpu_tlbi_req s' = cpu_tlbi_req s.

#[export] Instance same_regs_preorder : PreOrder same_regs.
Proof. split; [done|]. intros s1 s2 s3 (?&?&?&?&?) (?&?&?&?&?). split_and!; congruence. Qed.

Lemma ensure_table_spec s l q t ok s' :
  pt_wf L s -> (l <= 1)%nat -> tab s l (q / 512) = Some t ->
  ensure_table L s (entry_at t (q mod 512)) = (ok, s') ->
  pt_wf L s' /\ tabs_grow s s' /\ same_leaves s s' /\ same_regs s s' /\
  (ok = true -> exists c, tab s' (S l) q = Some c /\
     rd s' (entry_at t (q mod 512)) = ent s' l q /\ Z.land (ent s' l q) 3 = 3) /\
  (ok = false -> pool_full s').
Proof.
  intros Hwf Hl Ht. unfold ensure_table. rewrite (rd_ent _ _ _ _ Ht).
  change PT_VALID with 1. destruct (has (ent s l q) 1) eqn:Hv; cbn [negb].
  { intros; simplify_eq. split_and!; try done. intros _. exists (desc_table (ent s' l q)).
    assert (Z.land (ent s' l q) 3 = 3) as H3 by by apply (wf_upper _ _ Hwf).
    rewrite tab_S. unfold tnext. by rewrite H3, (rd_ent _ _ _ _ Ht). }
  destruct (pt_alloc_page L s) as [c s1] eqn:Ea.
  destruct (pt_alloc_page_spec s c s1 Hwf Ea) as [(-> & -> & Hfull)|(Hc0&Hwf1&Hpc&Htab&Hent&Hfr&Hz&Hregs)].
  { rewrite Z.eqb_refl. intros; simplify_eq. by split_and!. }
  rewrite (proj2 (Z.eqb_neq c 0) Hc0). intros; simplify_eq.
  pose proof Hpc as (?&?&Hcal). pose proof (wf_next _ _ Hwf1). pose proof (wf_layout _ _ Hwf1) as HL.
  assert (0 <= c < 2 ^ 48) as Hc48 by (destruct HL; lia).
  rewrite (lo_base _ HL), add64_0_l by (unfold fits64, two64; lia).
  assert (tab s1 l (q / 512) = Some t) as Ht1 by (rewrite Htab; [done|lia]).
  assert (tnext (ent s1 l q) = None) as Hn1 by (rewrite Hent by lia; by apply tnext_invalid).
  destruct (store_table_wf s1 l q t c Hwf1 ltac:(lia) Ht1 Hn1 Hpc Hfr ltac:(auto)) as (W&G&T&E).
  split_and!; try done.
  - intros l' q' t' Hl' Ht'. apply G; [done|]. by rewrite Htab.
  - intros q'. rewrite !E by lia. rewrite !(decide_False (P := _ = l /\ _)) by lia.
    rewrite (decide_False (P := 3%nat = _ /\ _)) by lia. rewrite !Hent by lia. split; [|done].
    destruct (decide (2%nat = S l /\ q' / 512 = q)) as [[Hl2 Hq]|]; [|done].
    rewrite Hz by (by apply Z.mod_pos_bound). unfold ent. rewrite Hl2, Hq, tab_S, tnext_invalid by done. done.
  - intros _. exists c. assert (ent _ l q = table_desc c) as Hel by (by rewrite E, decide_True by lia).
    split_and!; [done| |rewrite Hel; by apply table_desc_spec].
    apply rd_ent. apply G; [lia|done].
Qed.

End Structure.
