(* ===== verification/PtView.v ===== *)
(** * The address map the page tables implement

    [vmap s va] is what the hardware walk answers for a guest virtual address:
    the output address and the permissions.  [present s va] says whether the
    2 MiB block around it has a level-2 entry.  Both depend on the two leaf
    levels only; the lemmas here turn the stores of [PtStruct] into point-wise
    updates of [vmap]. *)

From S2P Require Import Prelude Tlbi Regions PageTable DescFacts PtStruct.

Definition vmap (s : guest_pt) (va : Z) : option (Z * Z) :=
  let e2 := ent s 2 (va / BLOCK_2MIB) in
  if has e2 1 then
    if Z.land e2 3 =? 3 then
      let e3 := ent s 3 (va / PAGE_SIZE) in
      if has e3 1 then Some (Z.land e3 GVA_PT_ADDR_MASK + va mod PAGE_SIZE, desc_to_perms e3) else None
    else Some (Z.land e2 L2_BLOCK_ADDR_MASK + va mod BLOCK_2MIB, desc_to_perms e2)
  else None.

Definition present (s : guest_pt) (va : Z) : bool := has (ent s 2 (va / BLOCK_2MIB)) 1.

(** One address: unchanged, or newly mapped. *)
Definition kept (s s' : guest_pt) (va : Z) : Prop :=
  vmap s' va = vmap s va /\ present s' va = present s va.

Definition installed (tgt : Z -> Z) (perms : Z) (s s' : guest_pt) (va : Z) : Prop :=
  present s va = false /\ present s' va = true /\ vmap s' va = Some (tgt va, norm_perms perms).

Lemma kept_refl s va : kept s s va.
Proof. done. Qed.

Lemma kept_trans s1 s2 s3 va : kept s1 s2 va -> kept s2 s3 va -> kept s1 s3 va.
Proof. intros [] []. split; congruence. Qed.

Lemma same_leaves_kept s s' va : same_leaves s s' -> kept s s' va.
Proof.
  intros Hs. unfold kept, vmap, present.
  destruct (Hs (va / BLOCK_2MIB)) as [-> _], (Hs (va / PAGE_SIZE)) as [_ ->]. done.
Qed.

#[export] Hint Resolve kept_refl same_leaves_kept : core.

(** ** Indices *)

Lemma l0_index_eq va : fits64 va -> l0_index va = (va / BLOCK_1GIB) / 512.
Proof. unfold fits64, two64, l0_index, u32, BLOCK_512GIB, BLOCK_1GIB. zdm. Qed.
Lemma l1_index_eq va : fits64 va -> l1_index va = (va / BLOCK_1GIB) mod 512.
Proof. unfold fits64, two64, l1_index, u32, BLOCK_512GIB, BLOCK_1GIB. zdm. Qed.
Lemma l2_index_eq va : fits64 va -> l2_index va = (va / BLOCK_2MIB) mod 512.
Proof. unfold fits64, two64, l2_index, u32, BLOCK_2MIB, BLOCK_1GIB. zdm. Qed.
Lemma l3_index_eq va : fits64 va -> l3_index va = (va / PAGE_SIZE) mod 512.
Proof. unfold fits64, two64, l3_index, u32, BLOCK_2MIB, PAGE_SIZE, GUEST_PAGE_SIZE. zdm. Qed.
Lemma block_div_512 va : va / BLOCK_2MIB / 512 = va / BLOCK_1GIB.
Proof. unfold BLOCK_2MIB, BLOCK_1GIB. zdm. Qed.
Lemma page_div_512 va : va / PAGE_SIZE / 512 = va / BLOCK_2MIB.
Proof. unfold BLOCK_2MIB, PAGE_SIZE, GUEST_PAGE_SIZE. zdm. Qed.

Section View.
Context (L : layout).

(** ** The walks *)

Lemma tab1_root s q : 0 <= q < 512 -> tab s 0 (q / 512) = Some (ttbr0 s).
Proof. intros. simpl. rewrite Z.div_small by lia. done. Qed.

Lemma base_add s x : pt_wf L s -> fits64 x -> (ipa_base L + x)%u64 = x.
Proof. intros Hwf Hx. rewrite (lo_base _ (wf_layout _ _ Hwf)). by apply add64_0_l. Qed.

(** One level down from a table of level 0 or 1. *)
Lemma descend s l q t :
  pt_wf L s -> (l <= 1)%nat -> tab s l (q / 512) = Some t ->
  rd s (entry_at t (q mod 512)) = ent s l q /\
  if has (ent s l q) 1 then
    exists t', tab s (S l) q = Some t' /\ pt_at L (desc_table (ent s l q) - ipa_base L)%u64 = Some t' /\
               has (ent s l q) 2 = true
  else tab s (S l) q = None.
Proof.
  intros Hwf Hl Ht. split; [by apply rd_ent|]. destruct (has (ent s l q) 1) eqn:Hv.
  - pose proof (wf_upper _ _ Hwf l q Hl Hv) as Hk. exists (desc_table (ent s l q)).
    assert (tab s (S l) q = Some (desc_table (ent s l q))) as Ht'.
    { rewrite tab_S. unfold tnext. by rewrite Hk. }
    split_and!; [done| |by apply desc_kind in Hk as [_ ?]]. by eapply pt_at_tab; [done| |exact Ht']; lia.
  - rewrite tab_S. by apply tnext_invalid.
Qed.

Lemma tab_high s l q : 512 <= q -> tab s 1 q = None /\ tab s 2 (q * 512 + l mod 512) = None.
Proof.
  intros Hq. assert (tab s 1 q = None) as H1.
  { simpl. rewrite (proj2 (Z.eqb_neq (q / 512) 0)) by zdm. done. }
  split; [done|]. rewrite tab_S. unfold ent.
  replace ((q * 512 + l mod 512) / 512) with q by zdm. by rewrite H1.
Qed.

Lemma find_l2_entry_spec s va :
  pt_wf L s -> fits64 va ->
  find_l2_entry L s va =
  Some (match tab s 2 (va / BLOCK_1GIB) with
        | Some t => Some (entry_at t ((va / BLOCK_2MIB) mod 512))
        | None => None
        end).
Proof.
  intros Hwf Hva. unfold find_l2_entry.
  rewrite (pt_at_tab L s 0 0 _ Hwf ltac:(lia) (wf_root s)), (base_add s) by done. simpl mbind.
  rewrite l0_index_eq, l1_index_eq, l2_index_eq by done.
  set (q := va / BLOCK_1GIB).
  assert (0 <= q) by (unfold q, BLOCK_1GIB, fits64 in *; zdm).
  destruct (Z.leb_spec 512 (q / 512)) as [Hbig|Hsm]; cbn [orb].
  { pose proof (proj2 (tab_high s q _ Hbig)) as E. replace (q / 512 * 512 + q mod 512) with q in E by zdm.
    by rewrite E. }
  destruct (descend s 0 (q / 512) (ttbr0 s) Hwf ltac:(lia)) as [Hr0 H0]; [apply tab1_root; zdm|].
  replace (q / 512 mod 512) with (q / 512) in Hr0 by zdm. rewrite Hr0. change PT_VALID with 1.
  destruct (has (ent s 0 (q / 512)) 1); cbn [negb].
  2:{ by rewrite tab_S; unfold ent; rewrite H0. }
  destruct H0 as (t1 & Ht1 & -> & _). run.
  rewrite (proj2 (Z.leb_gt 512 (q mod 512))) by zdm. cbn [orb].
  destruct (descend s 1 q t1 Hwf ltac:(lia) Ht1) as [Hr1 H1]. rewrite Hr1.
  destruct (has (ent s 1 q) 1); cbn [negb]; [|by rewrite H1].
  destruct H1 as (t2 & Ht2 & -> & _). run. by rewrite Ht2.
Qed.

Lemma walk_alloc_spec cb s va :
  pt_wf L s -> fits64 va ->
  exists w s', walk_alloc L cb s (ttbr0 s) va = Some (w, s') /\
  pt_wf L s' /\ tabs_grow s s' /\ same_leaves s s' /\ same_regs s s' /\
  match w with
  | WalkSlot a => exists t, tab s' 2 (va / BLOCK_2MIB / 512) = Some t /\
                            a = entry_at t ((va / BLOCK_2MIB) mod 512)
  | WalkOutOfRange => 2 ^ 48 <= va
  | WalkNoMemory => pool_full L s'
  | WalkL1Block => False
  end.
Proof.
  intros Hwf Hva. unfold walk_alloc. rewrite l0_index_eq, l1_index_eq, l2_index_eq, block_div_512 by done.
  set (q := va / BLOCK_1GIB).
  assert (0 <= q) by (unfold q, BLOCK_1GIB, fits64 in *; zdm).
  destruct (Z.leb_spec 512 (q / 512)) as [Hbig|Hsm].
  { do 2 eexists. split; [done|]. split_and!; try done. unfold q, BLOCK_1GIB in *. zdm. }
  assert (tab s 0 (q / 512 / 512) = Some (ttbr0 s)) as Ht0 by (apply tab1_root; zdm).
  assert ((q / 512) mod 512 = q / 512) as Hm by zdm.
  destruct (ensure_table L s _) as [ok s1] eqn:E1.
  pose proof (ensure_table_spec L s 0 (q / 512) (ttbr0 s) ok s1 Hwf ltac:(lia) Ht0) as X.
  rewrite Hm in X. apply X in E1 as (W1&G1&S1&R1&T1&F1). clear X.
  destruct ok; cbn [negb].
  2:{ do 2 eexists. split; [done|]. split_and!; auto. }
  destruct (T1 eq_refl) as (t1 & Ht1 & Hr1 & Hk1).
  destruct (descend s1 0 (q / 512) (ttbr0 s) W1 ltac:(lia)) as [_ H0].
  { apply G1; [lia|done]. }
  apply desc_kind in Hk1 as [Hv1 _]. rewrite Hv1 in H0. destruct H0 as (t1' & Ht1' & Hp1 & _).
  rewrite Hr1, Hp1. run.
  simplify_eq. rewrite (proj2 (Z.leb_gt 512 (q mod 512))) by zdm.
  destruct (ensure_table L s1 _) as [ok s2] eqn:E2.
  apply (ensure_table_spec L s1 1 q) in E2 as (W2&G2&S2&R2&T2&F2); [|done|lia|done].
  assert (tabs_grow s s2) by (etrans; done). assert (same_leaves s s2) by (etrans; done).
  assert (same_regs s s2) by (etrans; done).
  destruct ok; cbn [negb].
  2:{ do 2 eexists. split; [done|]. split_and!; auto. }
  destruct (T2 eq_refl) as (t2 & Ht2 & Hr2 & Hk2).
  destruct (descend s2 1 q t1 W2 ltac:(lia)) as [_ Hd].
  { apply G2; [lia|done]. }
  apply desc_kind in Hk2 as [Hv2 Hv2']. rewrite Hv2 in Hd. destruct Hd as (t2' & Ht2' & Hp2 & _).
  rewrite Hr2. change PT_TABLE with 2. rewrite Hv2', andb_false_r, Hp2. run.
  do 2 eexists. split; [done|]. split_and!; try done. by exists t2'.
Qed.

(** ** Leaf stores *)

(** What a level-2 block entry answers. *)
Definition block_view (v va : Z) : option (Z * Z) :=
  if has v 1 then Some (Z.land v L2_BLOCK_ADDR_MASK + va mod BLOCK_2MIB, desc_to_perms v) else None.

Definition page_view (v va : Z) : option (Z * Z) :=
  if has v 1 then Some (Z.land v GVA_PT_ADDR_MASK + va mod PAGE_SIZE, desc_to_perms v) else None.

Lemma block_store s q t v :
  pt_wf L s -> tab s 2 (q / 512) = Some t -> Z.land (ent s 2 q) 3 <> 3 -> Z.land v 3 <> 3 -> block_ok v ->
  let s' := pte_store_release s (entry_at t (q mod 512)) v in
  pt_wf L s' /\ tabs_grow s s' /\ ent s' 2 q = v /\
  (forall va, va / BLOCK_2MIB <> q -> kept s s' va) /\
  (forall va, va / BLOCK_2MIB = q -> vmap s' va = block_view v va /\ present s' va = has v 1).
Proof.
  intros Hwf Ht Hold Hnew Hb s'.
  destruct (store_leaf_wf L s 2 q t v Hwf ltac:(lia) Ht) as (W & G & E).
  { intros _. unfold tnext. rewrite !(proj2 (Z.eqb_neq _ _)) by done. done. }
  fold s' in W, G, E. split_and!; [done|done|by rewrite E, decide_True by lia| |].
  - intros va Hq. unfold kept, vmap, present. rewrite !E by lia.
    rewrite (decide_False (P := 2%nat = 2%nat /\ _)) by lia.
    by rewrite (decide_False (P := 3%nat = 2%nat /\ _)) by lia.
  - intros va Hq. unfold vmap, present, block_view. rewrite E, decide_True by lia.
    rewrite (proj2 (Z.eqb_neq _ _) Hnew). done.
Qed.

Lemma page_store s q t v :
  pt_wf L s -> tab s 3 (q / 512) = Some t ->
  let s' := pte_store_release s (entry_at t (q mod 512)) v in
  pt_wf L s' /\ tabs_grow s s' /\ ent s' 2 (q / 512) = ent s 2 (q / 512) /\
  (forall va, va / PAGE_SIZE <> q -> kept s s' va) /\
  (forall va, va / PAGE_SIZE = q -> vmap s' va = page_view v va /\ present s' va = present s va).
Proof.
  intros Hwf Ht s'.
  destruct (store_leaf_wf L s 3 q t v Hwf ltac:(lia) Ht) as (W & G & E); [lia|].
  fold s' in W, G, E.
  assert (forall q', ent s' 2 q' = ent s 2 q') as E2.
  { intros. rewrite E by lia. by rewrite decide_False by lia. }
  split_and!; [done|done|done| |].
  - intros va Hq. unfold kept, vmap, present. rewrite !E2, E by lia. by rewrite decide_False by lia.
  - intros va Hq. unfold vmap, present, page_view. rewrite !E2, E, decide_True by lia.
    rewrite <- page_div_512, Hq. rewrite tab_S in Ht. unfold tnext in Ht.
    destruct (Z.eqb_spec (Z.land (ent s 2 (q / 512)) 3) 3) as [Hk|]; [|done].
    apply desc_kind in Hk as [-> _]. done.
Qed.

(** The word of a page entry and what it answers. *)
Lemma page_entry s va t :
  tab s 3 (va / BLOCK_2MIB) = Some t ->
  rd s (entry_at t ((va / PAGE_SIZE) mod 512)) = ent s 3 (va / PAGE_SIZE) /\
  vmap s va = page_view (ent s 3 (va / PAGE_SIZE)) va /\ present s va = true.
Proof.
  intros Ht. split; [apply rd_ent; by rewrite page_div_512|].
  rewrite tab_S in Ht. unfold tnext in Ht. unfold vmap, present, page_view.
  destruct (Z.eqb_spec (Z.land (ent s 2 (va / BLOCK_2MIB)) 3) 3) as [Hk|]; [|done].
  apply desc_kind in Hk as [-> _]. done.
Qed.

(** ** Splitting *)

Lemma split_fill_spec n m l3 ipa perms :
  (n <= 512)%nat ->
  (forall i, 512 - Z.of_nat n <= i < 512 ->
     split_fill n m l3 ipa perms (entry_at l3 i) = make_page_desc (ipa + (i * PAGE_SIZE)%u64)%u64 perms) /\
  (forall a, (forall i, 512 - Z.of_nat n <= i < 512 -> a <> entry_at l3 i) ->
     split_fill n m l3 ipa perms a = m a).
Proof.
  revert m. induction n as [|n IH]; intros m Hn; cbn [split_fill].
  { split; [lia|done]. }
  set (i0 := 512 - Z.of_nat (S n)).
  destruct (IH (upd m (entry_at l3 i0) (make_page_desc (ipa + (i0 * PAGE_SIZE)%u64)%u64 perms)) ltac:(lia)) as [A B].
  split.
  - intros i Hi. destruct (decide (i = i0)) as [->|]; [|apply A; lia].
    rewrite B; [unfold upd; by rewrite Z.eqb_refl|]. unfold entry_at. lia.
  - intros a Ha. rewrite B; [|intros; apply Ha; lia]. unfold upd.
    destruct (Z.eqb_spec a (entry_at l3 i0)) as [->|]; [|done]. exfalso. eapply (Ha i0); [lia|done].
Qed.

(** Writing an unreachable page changes no table and no entry. *)
Lemma frame_mem s c m :
  pt_wf L s -> (forall l q, (l <= 3)%nat -> tab s l q <> Some c) -> c mod 4096 = 0 ->
  (forall a, (forall i, 0 <= i < 512 -> a <> entry_at c i) -> m a = pt_mem s a) ->
  let s' := set_mem m s in
  pt_wf L s' /\ (forall l q, (l <= 3)%nat -> tab s' l q = tab s l q) /\
  (forall l q, (l <= 3)%nat -> ent s' l q = ent s l q).
Proof.
  intros Hwf Hfr Hal Hm s'.
  assert (forall l q i t, (l <= 3)%nat -> 0 <= i < 512 -> tab s l q = Some t ->
    rd s' (entry_at t i) = rd s (entry_at t i)) as Hrd.
  { intros l q i t Hl Hi Ht. apply Hm. intros j Hj He.
    apply entry_at_inj in He as [-> _]; [by eapply Hfr|by eapply wf_tab_aligned|done..]. }
  assert (forall l q, (l <= 3)%nat -> tab s' l q = tab s l q) as Htab.
  { induction l as [|l IH]; intros q Hl; [done|]. rewrite !tab_S. unfold ent. rewrite IH by lia.
    destruct (tab s l (q / 512)) as [t|] eqn:Ht; [|done].
    erewrite Hrd; [done| |by apply Z.mod_pos_bound|exact Ht]. lia. }
  assert (forall l q, (l <= 3)%nat -> ent s' l q = ent s l q) as Hent.
  { intros l q Hl. unfold ent. rewrite Htab by done. destruct (tab s l (q / 512)) as [t|] eqn:Ht; [|done].
    eapply Hrd; [done|by apply Z.mod_pos_bound|exact Ht]. }
  split_and!; try done. eapply (wf_transfer L s); try done; simpl.
  - destruct (wf_next _ _ Hwf). lia.
  - apply Hwf.
  - intros; apply Hent; lia.
  - intros. rewrite Hent by lia. apply Hwf.
  - apply Hwf.
Qed.

(** The page entries of a split block answer what the block answered. *)
Lemma split_page_view e2 va :
  block_ok e2 -> Z.land e2 3 = 1 -> 0 <= va ->
  page_view (make_page_desc (Z.land e2 L2_BLOCK_ADDR_MASK + (((va / PAGE_SIZE) mod 512) * PAGE_SIZE)%u64)%u64
               (desc_to_perms e2)) va = block_view e2 va.
Proof.
  intros Hb Hk Hva. pose proof (block_addr_range e2) as [Ha Hm].
  set (b := Z.land e2 L2_BLOCK_ADDR_MASK) in *.
  assert (0 <= (va / PAGE_SIZE) mod 512 < 512) as Hi by (by apply Z.mod_pos_bound).
  set (i := (va / PAGE_SIZE) mod 512) in *.
  unfold PAGE_SIZE, GUEST_PAGE_SIZE, BLOCK_2MIB in *.
  assert (b + i * 4096 < 2 ^ 48) as Hlt by (clearbody b i; zdm).
  rewrite mul64_small by (unfold fits64, two64; lia).
  rewrite add64_small by (unfold fits64, two64; lia).
  destruct (make_page_desc_spec (b + i * 4096) (desc_to_perms e2)) as (_ & Hv & Had & Hp).
  unfold page_view, block_view. rewrite Hv, Had, Hp, (Hb Hk).
  rewrite page_addr_id; [|lia|clearbody i b; zdm].
  apply desc_kind in Hk as [-> _]. unfold PAGE_SIZE, GUEST_PAGE_SIZE, BLOCK_2MIB. fold b.
  do 2 f_equal. unfold i. clearbody b. zdm.
Qed.

(** Splitting a present level-2 entry: it fails only for want of a page, and
    otherwise the address map is unchanged. *)
Lemma split_l2_block_spec s q t :
  pt_wf L s -> tab s 2 (q / 512) = Some t -> has (ent s 2 q) 1 = true -> 0 <= q ->
  exists rc s', split_l2_block L s (Some (entry_at t (q mod 512))) = Some (rc, s') /\
  pt_wf L s' /\ tabs_grow s s' /\ same_regs s s' /\ (forall va, 0 <= va -> kept s s' va) /\
  ((rc = -1 /\ s' = s /\ pool_full L s) \/
   (rc = 0 /\ exists l3, tab s' 3 q = Some l3 /\
      pt_at L (desc_table (rd s' (entry_at t (q mod 512))) - ipa_base L)%u64 = Some l3)).
Proof.
  intros Hwf Ht Hv Hq. unfold split_l2_block. rewrite (rd_ent _ _ _ _ Ht).
  assert (Hdone : forall s', pt_wf L s' -> tab s' 2 (q / 512) = Some t -> Z.land (ent s' 2 q) 3 = 3 ->
    exists l3, tab s' 3 q = Some l3 /\
      pt_at L (desc_table (rd s' (entry_at t (q mod 512))) - ipa_base L)%u64 = Some l3).
  { intros s' Hwf' Ht' Hk. exists (desc_table (ent s' 2 q)). rewrite (rd_ent _ _ _ _ Ht').
    assert (tab s' 3 q = Some (desc_table (ent s' 2 q))) as Ht3 by (rewrite tab_S; unfold tnext; by rewrite Hk).
    split; [done|]. by eapply pt_at_tab; [done| |exact Ht3]; lia. }
  destruct (Z.eqb_spec (Z.land (ent s 2 q) 3) 3) as [Hk|Hk].
  { exists 0, s. split_and!; try done. right. split; [done|by apply Hdone]. }
  change PT_BLOCK with 1. rewrite Hv. cbn [negb].
  assert (Z.land (ent s 2 q) 3 = 1) as Hk1.
  { apply desc_kind. split; [done|]. destruct (has (ent s 2 q) 2) eqn:E; [|done].
    exfalso. apply Hk, desc_kind. done. }
  destruct (pt_alloc_page L s) as [c s1] eqn:Ea.
  destruct (pt_alloc_page_spec L s c s1 Hwf Ea) as [(-> & -> & Hfull)|(Hc0&Hwf1&Hpc&Htab&Hent&Hfr&Hz&Hregs)].
  { rewrite Z.eqb_refl. exists (-1), s. split_and!; try done. by left. }
  rewrite (proj2 (Z.eqb_neq c 0) Hc0).
  pose proof (wf_layout _ _ Hwf1) as HL. pose proof (wf_next _ _ Hwf1) as [Hn1 _].
  destruct (pool_page_bounds L s1 c HL ltac:(lia) Hpc) as (?&?&Hc48&Hcf). pose proof Hpc as (?&?&Hcal).
  rewrite pt_at_ok by done. run.
  rewrite (rd_ent s1 2 q t) by (by rewrite Htab by lia). rewrite Hent by lia.
  set (ipa := Z.land (ent s 2 q) L2_BLOCK_ADDR_MASK). set (p := desc_to_perms (ent s 2 q)).
  destruct (split_fill_spec PTES_PER_TABLE (pt_mem s1) c ipa p ltac:(done)) as [Hin Hout]. change (Z.of_nat PTES_PER_TABLE) with 512 in Hin, Hout.
  set (m := split_fill PTES_PER_TABLE (pt_mem s1) c ipa p) in *.
  destruct (frame_mem s1 c m Hwf1 Hfr Hcal) as (Hwf2 & Htab2 & Hent2); [intros a Ha; by apply Hout|].
  set (s2 := set_mem m s1) in *.
  rewrite (base_add s1 c Hwf1 Hcf).
  assert (tab s2 2 (q / 512) = Some t) as Ht2 by (rewrite Htab2, Htab by lia; done).
  assert (ent s2 2 q = ent s 2 q) as He2 by (rewrite Hent2, Hent by lia; done).
  destruct (store_table_wf L s2 2 q t c Hwf2 ltac:(lia) Ht2) as (W&G&T&E);
    [unfold tnext; rewrite He2; by rewrite (proj2 (Z.eqb_neq _ _) Hk)|done|by intros; rewrite Htab2; auto|lia|].
  eexists 0, _. split; [done|]. split_and!; try done.
  - intros l' q' t' Hl' Ht'. apply G; [done|]. by rewrite Htab2, Htab.
  - intros va Hva. unfold kept, vmap, present.
    assert (forall a, rd s2 a = m a) as Hm2 by done. clearbody s2 m.
    rewrite (E 2%nat (va / BLOCK_2MIB)), (E 3%nat (va / PAGE_SIZE)) by lia.
    rewrite (decide_False (P := 3%nat = 2%nat /\ _)), (decide_False (P := 2%nat = 3%nat /\ _)) by lia.
    rewrite page_div_512, !Hent2, !Hent by lia.
    destruct (decide (3%nat = 3%nat /\ va / BLOCK_2MIB = q)) as [[_ <-]|Hne].
    2:{ by rewrite decide_False by lia. }
    rewrite decide_True by lia. destruct (table_desc_spec c Hc48 Hcal) as [_ Hk3].
    pose proof Hk3 as [Hv3 _]%desc_kind. rewrite Hv3, Hk3, Hv, (proj2 (Z.eqb_neq _ _) Hk). split; [|done].
    simpl (3 =? 3). cbv iota. rewrite Hm2, Hin by (by apply Z.mod_pos_bound).
    pose proof (split_page_view (ent s 2 (va / BLOCK_2MIB)) va (wf_block _ _ Hwf _) Hk1 Hva) as Hsv.
    unfold page_view, block_view in Hsv. rewrite Hv in Hsv. exact Hsv.
  - right. split; [done|]. apply Hdone; [done|by apply G; [lia|]|].
    rewrite E, decide_True by lia. by apply table_desc_spec.
Qed.

Lemma align_block va : fits64 va -> ALIGN_2MIB_DOWN va = (va / BLOCK_2MIB) * BLOCK_2MIB.
Proof. intros. rewrite align_down_2mib by done. unfold BLOCK_2MIB. zdm. Qed.

(** [guest_split_block] at any address of a present block. *)
Lemma guest_split_block_spec s va t :
  pt_wf L s -> fits64 va -> tab s 2 (va / BLOCK_1GIB) = Some t -> present s va = true ->
  exists rc s', guest_split_block L s va = Some (rc, s') /\
  pt_wf L s' /\ tabs_grow s s' /\ same_regs s s' /\ (forall va, 0 <= va -> kept s s' va) /\
  ((rc = -1 /\ s' = s /\ pool_full L s) \/
   (rc = 0 /\ exists l3, tab s' 3 (va / BLOCK_2MIB) = Some l3 /\
      pt_at L (desc_table (rd s' (entry_at t ((va / BLOCK_2MIB) mod 512))) - ipa_base L)%u64 = Some l3)).
Proof.
  intros Hwf Hva Ht Hp. unfold guest_split_block. rewrite align_block by done.
  set (b := va / BLOCK_2MIB * BLOCK_2MIB).
  assert (0 <= va / BLOCK_2MIB) as Hq by (unfold fits64, BLOCK_2MIB in *; zdm).
  assert (fits64 b) as Hb by (unfold b, fits64, BLOCK_2MIB in *; zdm).
  assert (b / BLOCK_2MIB = va / BLOCK_2MIB) as Hbd by (unfold b, BLOCK_2MIB; zdm).
  rewrite find_l2_entry_spec by done. run.
  assert (b / BLOCK_1GIB = va / BLOCK_1GIB) as Hbg by (rewrite <- !block_div_512; by rewrite Hbd).
  rewrite Hbg, Hbd, Ht.
  destruct (split_l2_block_spec s (va / BLOCK_2MIB) t Hwf) as (rc & s' & -> & H1 & H2 & H3 & H4 & H5);
    [by rewrite block_div_512|done|done|].
  run. exists (if rc <? 0 then rc else 0), s'.
  destruct H5 as [(-> & -> & Hfull)|(-> & Hl3)]; (split; [done|]); split_and!; try done; auto.
Qed.

End View.
