(* ===== verification/PtOps.v ===== *)
(** * Refinement of the page-table operations

    Each operation of [PageTable] on a well-formed state runs to completion (no
    abort, no exhausted fuel), keeps the state well formed and changes the
    address map point-wise as its contract says; every address whose answer
    changed is covered by the pending TLBI request. *)

From S2P Require Import Prelude Tlbi Regions PageTable DescFacts PtStruct PtView.

Lemma tab_ext s s' l q :
  pt_mem s' = pt_mem s -> ttbr0 s' = ttbr0 s -> tab s' l q = tab s l q.
Proof.
  intros Hm Ht. revert q. induction l as [|l IH]; intros q; simpl; [by rewrite Ht|].
  rewrite IH. unfold rd. by rewrite Hm.
Qed.

Lemma ent_ext s s' l q :
  pt_mem s' = pt_mem s -> ttbr0 s' = ttbr0 s -> ent s' l q = ent s l q.
Proof. intros Hm Ht. unfold ent, rd. by rewrite (tab_ext s s'), Hm by done. Qed.

Lemma kept_ext s s' va : pt_mem s' = pt_mem s -> ttbr0 s' = ttbr0 s -> kept s s' va.
Proof. intros. apply same_leaves_kept. intros q. by rewrite !(ent_ext s s'). Qed.

Section Ops.
Context (L : layout).

Lemma wf_ext s s' :
  pt_wf L s -> pt_mem s' = pt_mem s -> ttbr0 s' = ttbr0 s -> pt_pool_next s' = pt_pool_next s ->
  tlbi_wf (g_tlbi_range_supported L) (cpu_tlbi_req s') -> pt_wf L s'.
Proof.
  intros Hwf Hm Ht Hn Htl. pose proof (wf_next _ _ Hwf). eapply (wf_transfer L s); try done; rewrite ?Hn; try lia.
  - intros. by apply tab_ext.
  - intros. by apply ent_ext.
  - intros. rewrite (ent_ext s s') by done. apply Hwf.
Qed.

(** ** The TLBI accumulator seen from the state *)

(** [retires s s']: nothing that was promised an invalidation loses it. *)
Definition retires (s s' : guest_pt) : Prop :=
  forall va, covers (cpu_tlbi_req s) va -> covers (cpu_tlbi_req s') va.

Lemma retires_refl s : retires s s.
Proof. by intros va. Qed.

Lemma retires_trans s1 s2 s3 : retires s1 s2 -> retires s2 s3 -> retires s1 s3.
Proof. intros A B va Hc. by apply B, A. Qed.

Lemma retires_same s s' : same_regs s s' -> retires s s'.
Proof. intros (_&_&_&_&E) va. by rewrite E. Qed.

#[local] Ltac frame := split_and!; try done; try reflexivity; try apply retires_refl; auto.

Lemma mark_icache_spec perms s :
  pt_wf L s -> let s' := tlbi_mark_icache_if perms s in
  pt_wf L s' /\ tabs_grow s s' /\ (forall va, kept s s' va) /\ retires s s' /\
  ttbr0 s' = ttbr0 s /\ pt_gen s' = pt_gen s /\
  tlbi_request_is_broadcast (cpu_tlbi_req s') = tlbi_request_is_broadcast (cpu_tlbi_req s).
Proof.
  intros Hwf s'. unfold s', tlbi_mark_icache_if. case_if; [|frame].
  split_and!; try done.
  - by eapply wf_ext; [exact Hwf|..]; try done; apply Hwf.
  - intros l q t _ Ht. by rewrite (tab_ext s).
  - by intros va.
Qed.

Lemma tlbi_range_spec s a b :
  pt_wf L s -> fits64 a -> fits64 b -> let s' := tlbi_range L s a b in
  pt_wf L s' /\ tabs_grow s s' /\ (forall va, kept s s' va) /\ retires s s' /\
  ttbr0 s' = ttbr0 s /\ pt_gen s' = pt_gen s /\ (forall va, a <= va < b -> covers (cpu_tlbi_req s') va).
Proof.
  intros Hwf Ha Hb s'. unfold s', tlbi_range.
  destruct (tlbi_request_range_wf_covers _ _ a b (wf_tlbi _ _ Hwf) Ha Hb) as (W & O & N).
  split_and!; try done.
  - by eapply wf_ext; [exact Hwf|..].
  - intros l q t _ Ht. by rewrite (tab_ext s).
Qed.

(** The flush after a loop covers what the loop noted. *)
Lemma flush_changes_spec s off lo hi :
  pt_wf L s -> off = 0 -> 0 <= lo -> 0 <= hi < two64 -> lo < two64 ->
  let bcast := tlbi_request_is_broadcast (cpu_tlbi_req s) in
  let s' := flush_changes L bcast off lo hi s in
  pt_wf L s' /\ tabs_grow s s' /\ (forall va, kept s s' va) /\ retires s s' /\
  ttbr0 s' = ttbr0 s /\ pt_gen s' = pt_gen s /\
  (forall va, (bcast = false -> lo <= va < hi) -> covers (cpu_tlbi_req s') va).
Proof.
  intros Hwf -> Hlo Hhi Hlo2 bcast s'. unfold s', flush_changes.
  destruct bcast eqn:Hb; cbn [negb andb].
  { frame. intros va _. unfold bcast, tlbi_request_is_broadcast in Hb.
    apply bool_decide_eq_true in Hb. unfold covers. by rewrite Hb. }
  destruct (Z.ltb_spec lo hi) as [Hlt|Hge].
  - rewrite !add64_0_l by (unfold fits64; lia).
    destruct (tlbi_range_spec s lo hi Hwf) as (?&?&?&?&?&?&?); [unfold fits64; lia..|].
    split_and!; auto.
  - frame. intros va Hva. specialize (Hva eq_refl). lia.
Qed.

Lemma gen_bump_spec s :
  pt_wf L s -> let s' := guest_pt_gen_bump s in
  pt_wf L s' /\ tabs_grow s s' /\ (forall va, kept s s' va) /\ retires s s' /\
  ttbr0 s' = ttbr0 s /\ pt_gen s' = (pt_gen s + 1)%u64 /\ cpu_tlbi_req s' = cpu_tlbi_req s.
Proof.
  intros Hwf s'. split_and!; try done.
  - by eapply wf_ext; [exact Hwf|..]; try done; apply Hwf.
  - intros l q t _ Ht. by rewrite (tab_ext s).
  - by intros va.
Qed.

(** ** Installing blocks *)

(** [installs a b tgt p noted s s']: addresses are unchanged or, inside [[a, b)],
    newly mapped to [tgt] with permissions [p] and noted for invalidation. *)
Definition installs (a b : Z) (tgt : Z -> Z) (p : Z) (noted : Z -> Prop) (s s' : guest_pt) : Prop :=
  pt_wf L s' /\ tabs_grow s s' /\ same_regs s s' /\
  forall va, 0 <= va -> kept s s' va \/ (a <= va < b /\ installed tgt p s s' va /\ noted va).

Lemma installs_trans a c b tgt p (n1 n2 n : Z -> Prop) s1 s2 s3 :
  a <= c <= b ->
  (forall va, n1 va -> n va) -> (forall va, n2 va -> n va) ->
  installs a c tgt p n1 s1 s2 -> installs c b tgt p n2 s2 s3 -> installs a b tgt p n s1 s3.
Proof.
  intros Hc N1 N2 (_&G1&R1&K1) (W2&G2&R2&K2).
  split_and!; [done|by etrans|by etrans|]. intros va Hva.
  destruct (K1 va Hva) as [Ka|(Ra&(Pa&Pa'&Va)&Na)], (K2 va Hva) as [Kb|(Rb&(Pb&Pb'&Vb)&Nb)].
  - left. by eapply kept_trans.
  - right. split_and!; [lia|lia| |auto]. destruct Ka as [_ Ka]. split_and!; congruence.
  - right. split_and!; [lia|lia| |auto]. destruct Kb as [Kb Kb']. split_and!; congruence.
  - congruence.
Qed.

(** One iteration: walk to the slot, then store a block if it is empty. *)
Lemma install_step cb s va tgt g p :
  pt_wf L s -> 0 <= va -> va + BLOCK_2MIB <= 2 ^ 48 -> va mod BLOCK_2MIB = 0 ->
  (forall x, va <= x < va + BLOCK_2MIB -> tgt x = Z.land g L2_BLOCK_ADDR_MASK + x mod BLOCK_2MIB) ->
  exists w s1, walk_alloc L cb s (ttbr0 s) va = Some (w, s1) /\
  match w with
  | WalkSlot a =>
      let s2 := if has (rd s1 a) PT_VALID then s1 else pte_store_release s1 a (make_block_desc g p) in
      installs va (va + BLOCK_2MIB) tgt p (fun x => has (rd s1 a) PT_VALID = false /\ va <= x < va + BLOCK_2MIB) s s2 /\
      (forall x, va <= x < va + BLOCK_2MIB -> present s2 x = true)
  | WalkNoMemory => installs va va tgt p (fun _ => False) s s1 /\ pool_full L s1
  | _ => False
  end.
Proof.
  intros Hwf Hva Hlt Hal Htgt.
  assert (Hblk : forall x, va <= x < va + BLOCK_2MIB <-> x / BLOCK_2MIB = va / BLOCK_2MIB)
    by (unfold BLOCK_2MIB in *; intros; zdm).
  destruct (walk_alloc_spec L cb s va Hwf) as (w & s1 & Ew & W & G & S & R & Hw);
    [unfold fits64, two64, BLOCK_2MIB in *; lia|].
  exists w, s1. split; [done|].
  destruct w as [a| | |]; [|unfold BLOCK_2MIB in *; lia| |done].
  2:{ split; [frame|done]. }
  destruct Hw as (t & Ht & ->). rewrite (rd_ent _ _ _ _ Ht). change PT_VALID with 1.
  destruct (has (ent s1 2 (va / BLOCK_2MIB)) 1) eqn:Hv; cbn zeta.
  { split; [frame|]. intros x Hx%Hblk. unfold present. by rewrite Hx. }
  destruct (make_block_desc_spec g p) as (Hk & Hv' & Had & Hp).
  destruct (block_store L s1 (va / BLOCK_2MIB) t (make_block_desc g p) W Ht) as (W2&G2&E2&K2&V2).
  - intros [? _]%desc_kind. congruence.
  - lia.
  - intros _. rewrite Hp. unfold norm_perms. by repeat case_if.
  - assert (forall x, va <= x < va + BLOCK_2MIB -> present s x = false) as Hnp.
    { intros x Hx. apply Hblk in Hx. unfold present. rewrite Hx. destruct (S (va / BLOCK_2MIB)) as [<- _]. done. }
    split.
    2:{ intros x ?%Hblk. destruct (V2 x) as [_ ->]; done. }
    split_and!; [done|by etrans|by etrans|].
    intros x Hx. destruct (decide (x / BLOCK_2MIB = va / BLOCK_2MIB)) as [He|Hne].
    + right. pose proof (proj2 (Hblk x) He) as Hr. split; [lia|]. split; [|split; [done|lia]].
      destruct (V2 x He) as [Hvm Hpr]. split_and!; [by apply Hnp|by rewrite Hpr|].
      rewrite Hvm. unfold block_view. by rewrite Hv', Had, Hp, Htgt.
    + left. eapply kept_trans; [by apply same_leaves_kept|by apply K2].
Qed.

Lemma installs_present a b tgt p n s s' va :
  0 <= va -> installs a b tgt p n s s' -> present s va = true -> present s' va = true.
Proof. intros Hva (_&_&_&K) Hp. destruct (K va Hva) as [[_ ->]|(_&(?&?&?)&_)]; congruence. Qed.

Lemma note_change_spec bcast lo hi a e lo' hi' :
  note_change bcast lo hi a e = (lo', hi') ->
  lo' <= lo /\ hi <= hi' /\ (0 <= lo -> 0 <= a -> 0 <= lo') /\ hi' <= Z.max hi e /\
  (bcast = false -> lo' <= a /\ e <= hi').
Proof.
  unfold note_change. destruct bcast; [intros; simplify_eq; split_and!; lia || done|].
  destruct (Z.ltb_spec a lo), (Z.ltb_spec hi e); intros; simplify_eq; split_and!; lia.
Qed.

(** The outcome of an install loop over the blocks of [[a, b)]. *)
Definition loop_result (a b : Z) (tgt : Z -> Z) (p : Z) (bcast : bool) (lo hi : Z) (s : guest_pt)
    (rc : Z) (s' : guest_pt) (lo' hi' : Z) : Prop :=
  installs a b tgt p (fun x => bcast = false -> lo' <= x < hi') s s' /\
  lo' <= lo /\ hi <= hi' /\ 0 <= lo' /\ hi' <= Z.max hi b /\ (rc = 0 \/ rc = -1) /\
  (rc = 0 -> forall x, a <= x < b -> present s' x = true) /\ (rc = -1 -> pool_full L s').

Lemma loop_result_nil a b tgt p bcast lo hi s :
  pt_wf L s -> 0 <= lo -> b <= a -> loop_result a b tgt p bcast lo hi s 0 s lo hi.
Proof. intros. split; [frame|]. split_and!; try lia. Qed.

Lemma loop_result_fail a b tgt p bcast lo hi s s' :
  0 <= lo -> a <= b -> installs a a tgt p (fun _ => False) s s' -> pool_full L s' ->
  loop_result a b tgt p bcast lo hi s (-1) s' lo hi.
Proof.
  intros Hlo Hab (W&G&R&K) Hfull. split; [|split_and!; auto; lia].
  split_and!; try done. intros va Hva. destruct (K va Hva) as [?|(?&_)]; [by left|lia].
Qed.

Lemma loop_result_cons a b tgt p bcast lo hi lo1 hi1 s s1 s2 (stored : bool) rc lo' hi' :
  0 <= a -> 0 <= lo -> a + BLOCK_2MIB <= b ->
  installs a (a + BLOCK_2MIB) tgt p (fun x => stored = true /\ a <= x < a + BLOCK_2MIB) s s1 ->
  (forall x, a <= x < a + BLOCK_2MIB -> present s1 x = true) ->
  (if stored then note_change bcast lo hi a (a + BLOCK_2MIB) = (lo1, hi1) else (lo1, hi1) = (lo, hi)) ->
  loop_result (a + BLOCK_2MIB) b tgt p bcast lo1 hi1 s1 rc s2 lo' hi' ->
  loop_result a b tgt p bcast lo hi s rc s2 lo' hi'.
Proof.
  intros Ha Hlo Hab HI HP Hn (HI2&A1&A2&A3&A4&A5&A6&A7).
  assert (lo1 <= lo /\ hi <= hi1 /\ hi1 <= Z.max hi (a + BLOCK_2MIB) /\
    (stored = true -> bcast = false -> lo1 <= a /\ a + BLOCK_2MIB <= hi1)) as (B1&B2&B3&B4).
  { destruct stored; [apply note_change_spec in Hn as (?&?&?&?&?); split_and!; auto|].
    simplify_eq. split_and!; lia || done. }
  unfold BLOCK_2MIB in *.
  split_and!; try lia; try done.
  - eapply installs_trans; [| |intros va Hv; exact Hv|exact HI|exact HI2]; [lia|].
    intros va [Hs Hva] Hb. specialize (B4 Hs Hb). lia.
  - intros Hrc x Hx. destruct (decide (x < a + 2097152)); [|apply A6; done || lia].
    eapply installs_present; [|exact HI2|apply HP; lia]. lia.
Qed.

Lemma block_up x : 0 <= x -> x + BLOCK_2MIB <= 2 ^ 48 -> (x + BLOCK_2MIB)%u64 = x + BLOCK_2MIB.
Proof. intros. unfold BLOCK_2MIB in *. apply add64_small. unfold fits64, two64. lia. Qed.

Lemma extend_loop_spec p bcast b l0 : b mod BLOCK_2MIB = 0 -> b <= 2 ^ 48 ->
  forall fuel s a lo hi, pt_wf L s -> l0 = ttbr0 s -> 0 <= a -> a mod BLOCK_2MIB = 0 -> 0 <= lo ->
  (b - a) / BLOCK_2MIB <= Z.of_nat fuel ->
  exists rc s' lo' hi', extend_loop L fuel s l0 p bcast a b lo hi = Some (rc, s', lo', hi') /\
    loop_result a b (fun x => x) p bcast lo hi s rc s' lo' hi'.
Proof.
  intros Hb Hb48. induction fuel as [|fuel IH]; intros s a lo hi Hwf Hl0 Ha Hal Hlo Hf; cbn [extend_loop];
    (destruct (Z.ltb_spec a b) as [Hab|Hab];
      [|do 4 eexists; split; [done|by apply loop_result_nil]]).
  { unfold BLOCK_2MIB in *. zdm. }
  assert (a + BLOCK_2MIB <= b) as Hab' by (unfold BLOCK_2MIB in *; zdm).
  rewrite (base_add L s a Hwf), (block_up a) by (lia || unfold fits64, two64; lia).
  destruct (install_step false s a (fun x => x) a p Hwf Ha ltac:(lia) Hal) as (w & s1 & Ew & Hw).
  { intros x Hx. rewrite block_addr_id by (unfold BLOCK_2MIB in *; lia). unfold BLOCK_2MIB in *. zdm. }
  rewrite Hl0, Ew, <- Hl0. run.
  destruct w as [slot| | |]; [|done| |done].
  2:{ destruct Hw. do 4 eexists. split; [done|]. apply loop_result_fail; done || lia. }
  destruct Hw as [HI HP].
  assert ((b - (a + BLOCK_2MIB)) / BLOCK_2MIB <= Z.of_nat fuel) as Hf' by (unfold BLOCK_2MIB in *; zdm).
  assert ((a + BLOCK_2MIB) mod BLOCK_2MIB = 0) as Hal' by (unfold BLOCK_2MIB in *; zdm).
  assert (0 <= a + BLOCK_2MIB) by (unfold BLOCK_2MIB; lia).
  destruct (has (rd s1 slot) PT_VALID) eqn:Hv; cbn zeta in HI, HP; pose proof HI as (W2&_&(T2&_)&_).
  - destruct (IH s1 (a + BLOCK_2MIB) lo hi) as (rc & s3 & lo' & hi' & E & HR); try done; [congruence|].
    do 4 eexists. split; [exact E|].
    eapply (loop_result_cons _ _ _ _ _ _ _ _ _ _ _ _ false); [done|done|done| |exact HP|done|exact HR].
    destruct HI as (?&?&?&K). split_and!; try done. intros va Hva.
    destruct (K va Hva) as [?|(_&_&?&_)]; [by left|done].
  - destruct (note_change bcast lo hi a (a + BLOCK_2MIB)) as [lo1 hi1] eqn:En.
    pose proof (note_change_spec _ _ _ _ _ _ _ En) as (_&_&Hlo1&_).
    destruct (IH (pte_store_release s1 slot (make_block_desc a p)) (a + BLOCK_2MIB) lo1 hi1)
      as (rc & s3 & lo' & hi' & E & HR); try done; [congruence|auto|].
    do 4 eexists. split; [exact E|].
    eapply (loop_result_cons _ _ _ _ _ _ _ _ _ _ _ _ true); [done|done|done| |exact HP|exact En|exact HR].
    destruct HI as (?&?&?&K). split_and!; try done. intros va Hva.
    destruct (K va Hva) as [?|(?&?&_&?)]; [by left|by right].
Qed.

Lemma map_va_loop_spec p bcast b l0 d : b mod BLOCK_2MIB = 0 -> b <= 2 ^ 48 ->
  d mod BLOCK_2MIB = 0 -> b + d <= 2 ^ 48 ->
  forall fuel s a lo hi, pt_wf L s -> l0 = ttbr0 s -> 0 <= a -> 0 <= a + d -> a mod BLOCK_2MIB = 0 -> 0 <= lo ->
  (b - a) / BLOCK_2MIB <= Z.of_nat fuel ->
  exists rc s' lo' hi', map_va_loop L fuel s l0 p bcast a b (a + d) lo hi = Some (rc, s', lo', hi') /\
    loop_result a b (fun x => x + d) p bcast lo hi s rc s' lo' hi'.
Proof.
  intros Hb Hb48 Hd Hd48. induction fuel as [|fuel IH]; intros s a lo hi Hwf Hl0 Ha Had Hal Hlo Hf;
    cbn [map_va_loop]; (destruct (Z.ltb_spec a b) as [Hab|Hab];
      [|do 4 eexists; split; [done|by apply loop_result_nil]]).
  { unfold BLOCK_2MIB in *. zdm. }
  assert (a + BLOCK_2MIB <= b) as Hab' by (unfold BLOCK_2MIB in *; zdm).
  rewrite (block_up a), (block_up (a + d)) by lia.
  destruct (install_step true s a (fun x => x + d) (a + d) p Hwf Ha ltac:(lia) Hal) as (w & s1 & Ew & Hw).
  { intros x Hx. rewrite block_addr_id by (unfold BLOCK_2MIB in *; zdm). unfold BLOCK_2MIB in *. zdm. }
  rewrite Hl0, Ew, <- Hl0. run.
  destruct w as [slot| | |]; [|done| |done].
  2:{ destruct Hw. do 4 eexists. split; [done|]. apply loop_result_fail; done || lia. }
  destruct Hw as [HI HP].
  assert ((b - (a + BLOCK_2MIB)) / BLOCK_2MIB <= Z.of_nat fuel) as Hf' by (unfold BLOCK_2MIB in *; zdm).
  assert ((a + BLOCK_2MIB) mod BLOCK_2MIB = 0) as Hal' by (unfold BLOCK_2MIB in *; zdm).
  assert (0 <= a + BLOCK_2MIB /\ 0 <= a + BLOCK_2MIB + d) as [? ?] by (unfold BLOCK_2MIB; lia).
  replace (a + d + BLOCK_2MIB) with (a + BLOCK_2MIB + d) by lia.
  destruct (has (rd s1 slot) PT_VALID) eqn:Hv; cbn zeta in HI, HP; pose proof HI as (W2&_&(T2&_)&_).
  - destruct (IH s1 (a + BLOCK_2MIB) lo hi) as (rc & s3 & lo' & hi' & E & HR); try done; [congruence|].
    do 4 eexists. split; [exact E|].
    eapply (loop_result_cons _ _ _ _ _ _ _ _ _ _ _ _ false); [done|done|done| |exact HP|done|exact HR].
    destruct HI as (?&?&?&K). split_and!; try done. intros va Hva.
    destruct (K va Hva) as [?|(_&_&?&_)]; [by left|done].
  - destruct (note_change bcast lo hi a (a + BLOCK_2MIB)) as [lo1 hi1] eqn:En.
    pose proof (note_change_spec _ _ _ _ _ _ _ En) as (_&_&Hlo1&_).
    destruct (IH (pte_store_release s1 slot (make_block_desc (a + d) p)) (a + BLOCK_2MIB) lo1 hi1)
      as (rc & s3 & lo' & hi' & E & HR); try done; [congruence|auto|].
    do 4 eexists. split; [exact E|].
    eapply (loop_result_cons _ _ _ _ _ _ _ _ _ _ _ _ true); [done|done|done| |exact HP|exact En|exact HR].
    destruct HI as (?&?&?&K). split_and!; try done. intros va Hva.
    destruct (K va Hva) as [?|(?&?&_&?)]; [by left|by right].
Qed.

(** What an install operation promises: completion with 0 or -1, the latter for
    rejected arguments or an exhausted pool; addresses unchanged or newly
    mapped; on success every block of the range is present,
    every new mapping is covered by the TLBI request and the generation moves. *)
Definition install_result (rej : Prop) (a b : Z) (tgt : Z -> Z) (p : Z) (s : guest_pt) (rc : Z) (s' : guest_pt) : Prop :=
  pt_wf L s' /\ tabs_grow s s' /\ retires s s' /\ ttbr0 s' = ttbr0 s /\ (rc = 0 \/ rc = -1) /\
  (forall va, 0 <= va -> kept s s' va \/
     (a <= va < b /\ installed tgt p s s' va /\ (rc = 0 -> covers (cpu_tlbi_req s') va))) /\
  (rc = 0 -> (forall va, a <= va < b -> present s' va = true) /\ pt_gen s' = (pt_gen s + 1)%u64) /\
  (rc = -1 -> rej \/ pool_full L s').

Lemma kept_l s1 s2 s3 tgt p va : kept s1 s2 va -> installed tgt p s2 s3 va -> installed tgt p s1 s3 va.
Proof. intros [_ E] (?&?&?). split_and!; congruence. Qed.
Lemma kept_r s1 s2 s3 tgt p va : installed tgt p s1 s2 va -> kept s2 s3 va -> installed tgt p s1 s3 va.
Proof. intros (?&?&?) [E F]. split_and!; congruence. Qed.

(** From the marked state through the loop to the final flush. *)
Lemma install_finish rej a b tgt p s s0 rc s1 lo hi off :
  pt_wf L s -> off = 0 -> b <= 2 ^ 48 -> lo <= UINT64_MAX ->
  s0 = tlbi_mark_icache_if p s ->
  loop_result a b tgt p (tlbi_request_is_broadcast (cpu_tlbi_req s0)) UINT64_MAX 0 s0 rc s1 lo hi ->
  install_result rej a b tgt p s (if rc <? 0 then -1 else 0)
    (if rc <? 0 then s1 else guest_pt_gen_bump
       (flush_changes L (tlbi_request_is_broadcast (cpu_tlbi_req s0)) off lo hi s1)).
Proof.
  intros Hwf Hoff Hb Hlo -> (HI&_&B2&B3&B4&Hrc&HP&HF).
  destruct (mark_icache_spec p s Hwf) as (W0&G0&K0&R0&T0&P0&C0).
  set (s0 := tlbi_mark_icache_if p s) in *.
  destruct HI as (W1&G1&S1&K1). pose proof S1 as (T1&_&_&P1&C1).
  assert (retires s s1) as Ret1 by (eapply retires_trans; [done|by apply retires_same]).
  destruct Hrc as [-> | ->]; simpl.
  - rewrite <- C1.
    destruct (flush_changes_spec s1 off lo hi W1 Hoff B3) as (W2&G2&K2&R2&T2&P2&C2);
      [unfold two64; lia|unfold two64, UINT64_MAX in *; lia|].
    set (s2 := flush_changes _ _ _ _ _ _) in *.
    destruct (gen_bump_spec s2 W2) as (W3&G3&K3&R3&T3&P3&C3).
    split_and!; [done|by repeat (etrans; [eassumption|])|by repeat (eapply retires_trans; [eassumption|])|congruence|by left| | |done].
    + intros va Hva. destruct (K1 va Hva) as [Ka|(Ra&Ia&Na)].
      * left. eapply kept_trans; [apply K0|]. eapply kept_trans; [done|]. eapply kept_trans; [apply K2|apply K3].
      * right. split; [done|]. split.
        -- eapply kept_r; [eapply kept_r; [eapply kept_l; [apply K0|done]|apply K2]|apply K3].
        -- intros _. rewrite C3. apply C2. rewrite C1. apply Na.
    + intros _. split; [|congruence]. intros va Hva. destruct (K3 va) as [_ ->], (K2 va) as [_ ->]. by apply HP.
  - split_and!; [done|by etrans|done|congruence|by right| |done|by auto].
    intros va Hva. destruct (K1 va Hva) as [Ka|(Ra&Ia&Na)].
    + left. by eapply kept_trans; [apply K0|].
    + right. split_and!; try done; try lia. eapply kept_l; [apply K0|done].
Qed.

Lemma install_rejected (rej : Prop) a b tgt p s :
  pt_wf L s -> rej -> install_result rej a b tgt p s (-1) s.
Proof. intros. frame. Qed.

Lemma align_up_block x : 0 <= x -> x + BLOCK_2MIB <= two64 ->
  ALIGN_2MIB_UP x = ((x + (BLOCK_2MIB - 1)) / BLOCK_2MIB) * BLOCK_2MIB.
Proof. unfold BLOCK_2MIB, two64. intros. rewrite align_up_2mib by (unfold two64; lia). zdm. Qed.

Lemma extend_spec s start end_ p :
  pt_wf L s -> fits64 start -> fits64 end_ ->
  exists rc s', guest_extend_page_tables L s start end_ p = Some (rc, s') /\
    install_result (guest_size L <= start \/ guest_size L < end_)
      (ALIGN_2MIB_DOWN start) (ALIGN_2MIB_UP end_) (fun x => x) p s rc s'.
Proof.
  intros Hwf Hs He. unfold guest_extend_page_tables. pose proof (lo_size _ (wf_layout _ _ Hwf)).
  destruct (Z.leb_spec (guest_size L) start); cbn [orb].
  { do 2 eexists. split; [done|]. apply install_rejected; auto. }
  destruct (Z.ltb_spec (guest_size L) end_).
  { do 2 eexists. split; [done|]. apply install_rejected; auto. }
  rewrite sub64_small by (unfold fits64, two64, UINT64_MAX, BLOCK_2MIB; lia).
  rewrite (proj2 (Z.ltb_ge _ end_)) by (unfold UINT64_MAX, BLOCK_2MIB; lia).
  rewrite (pt_at_tab L s 0 0 _ Hwf ltac:(lia) (wf_root s)). run.
  rewrite align_block, align_up_block by (unfold fits64, two64, BLOCK_2MIB in *; lia).
  set (s0 := tlbi_mark_icache_if p s).
  destruct (mark_icache_spec p s Hwf) as (W0&_&_&_&T0&_). fold s0 in W0, T0.
  set (a := start / BLOCK_2MIB * BLOCK_2MIB). set (b := (end_ + (BLOCK_2MIB - 1)) / BLOCK_2MIB * BLOCK_2MIB).
  assert (a mod BLOCK_2MIB = 0 /\ b mod BLOCK_2MIB = 0 /\ 0 <= a /\ b <= 2 ^ 48) as (Ha&Hb&Ha0&Hb48)
    by (unfold a, b, fits64, BLOCK_2MIB in *; zdm).
  destruct (extend_loop_spec p (tlbi_request_is_broadcast (cpu_tlbi_req s0)) b (ttbr0 s) Hb Hb48
    (block_fuel a b) s0 a UINT64_MAX 0 W0 (eq_sym T0) Ha0 Ha ltac:(done))
    as (rc & s1 & lo & hi & -> & HR).
  { unfold block_fuel. lia. }
  run.
  pose proof (install_finish (guest_size L <= start \/ guest_size L < end_) a b _ p s s0 rc s1 lo hi (ipa_base L)
    Hwf (lo_base _ (wf_layout _ _ Hwf)) Hb48 ltac:(by destruct HR as (_&?&_)) eq_refl HR) as HF.
  by destruct (rc <? 0); do 2 eexists; (split; [done|]).
Qed.

Lemma lor3_aligned x y z k :
  0 <= k -> Z.land (Z.lor (Z.lor x y) z) (2 ^ k - 1) = 0 -> x mod 2 ^ k = 0 /\ y mod 2 ^ k = 0 /\ z mod 2 ^ k = 0.
Proof.
  intros Hk. replace (2 ^ k - 1) with (Z.ones k) by (rewrite Z.ones_equiv; lia).
  rewrite !Z.land_lor_distr_l, !Z.land_ones by lia. intros [[A B]%Z.lor_eq_0_iff C]%Z.lor_eq_0_iff. done.
Qed.

(** The data behind the installed range, for non-identity mappings. *)
Lemma map_va_range_spec s va_base va_limit gpa_start p :
  pt_wf L s -> fits64 va_base -> va_limit <= 2 ^ 48 -> fits64 gpa_start ->
  gpa_start + (va_limit - va_base) <= 2 ^ 48 ->
  exists rc s', guest_map_va_range L s va_base va_limit gpa_start p = Some (rc, s') /\
    install_result (va_limit <= va_base \/
        Z.land (Z.lor (Z.lor va_base va_limit) gpa_start) (BLOCK_2MIB - 1) <> 0)
      va_base va_limit (fun x => gpa_start + (x - va_base)) p s rc s'.
Proof.
  intros Hwf Hs He Hg Hg48. unfold guest_map_va_range.
  destruct (Z.leb_spec va_limit va_base).
  { do 2 eexists. split; [done|]. apply install_rejected; auto. }
  destruct (Z.eqb_spec (Z.land (Z.lor (Z.lor va_base va_limit) gpa_start) (BLOCK_2MIB - 1)) 0) as [Hal|Hal];
    cbn [negb].
  2:{ do 2 eexists. split; [done|]. apply install_rejected; auto. }
  destruct (lor3_aligned va_base va_limit gpa_start 21 ltac:(lia) Hal) as (A1&A2&A3).
  destruct (wf_tab_bounds L s 0 0 (ttbr0 s) Hwf ltac:(lia) (wf_root s)) as (?&_).
  rewrite (proj2 (Z.eqb_neq (ttbr0 s) 0)) by lia.
  rewrite (pt_at_tab L s 0 0 _ Hwf ltac:(lia) (wf_root s)). run.
  destruct (mark_icache_spec p s Hwf) as (W0&_&_&_&T0&_&B0). rewrite <- B0.
  set (s0 := tlbi_mark_icache_if p s) in *.
  destruct (map_va_loop_spec p (tlbi_request_is_broadcast (cpu_tlbi_req s0)) va_limit (ttbr0 s)
    (gpa_start - va_base) A2 He ltac:(change BLOCK_2MIB with (2 ^ 21); zdm) ltac:(lia)
    (block_fuel va_base va_limit) s0 va_base UINT64_MAX 0 W0 (eq_sym T0)) as (rc & s1 & lo & hi & El & HR);
    [unfold fits64 in *; lia|unfold fits64 in *; lia|done|done|unfold block_fuel; lia|].
  replace (va_base + (gpa_start - va_base)) with gpa_start in El by lia. rewrite El. run.
  pose proof (install_finish (va_limit <= va_base \/
        Z.land (Z.lor (Z.lor va_base va_limit) gpa_start) (BLOCK_2MIB - 1) <> 0) va_base va_limit _ p s s0 rc s1 lo hi 0
    Hwf eq_refl He ltac:(by destruct HR as (_&?&_)) eq_refl HR) as HF.
  assert (forall rc s', install_result (va_limit <= va_base \/
        Z.land (Z.lor (Z.lor va_base va_limit) gpa_start) (BLOCK_2MIB - 1) <> 0) va_base va_limit
        (fun x => x + (gpa_start - va_base)) p s rc s' ->
    install_result (va_limit <= va_base \/
        Z.land (Z.lor (Z.lor va_base va_limit) gpa_start) (BLOCK_2MIB - 1) <> 0) va_base va_limit
        (fun x => gpa_start + (x - va_base)) p s rc s') as Hext.
  { intros rc' s' (?&?&?&?&?&K&?&?). split_and!; try done. intros va Hva.
    destruct (K va Hva) as [?|(?&(?&?&Hv)&?)]; [by left|right]. split_and!; try done; try lia.
    split_and!; try done. rewrite Hv. do 2 f_equal. lia. }
  by destruct (rc <? 0); do 2 eexists; (split; [done|]); apply Hext.
Qed.

End Ops.
