(* ===== verification/PtPages.v ===== *)
(** * Rewriting page entries

    [guest_invalidate_ptes] and [guest_update_perms] walk a range block by
    block: whole blocks are rewritten in place, partly covered ones are split
    and their page entries rewritten.  Both inner loops are one loop over page
    entries; both outer loops compose per-block rewrites. *)

From S2P Require Import Prelude Tlbi Regions PageTable DescFacts PtStruct PtView PtOps.

Section Pages.
Context (L : layout).

(** ** The page loop *)

(** The two inner loops as one: [newd old pa] is the new entry. *)
Fixpoint pages_loop (newd : Z -> Z -> Z) (fuel : nat) (s : guest_pt) (l3 : Z) (bcast : bool)
    (pa page_end lo hi : Z) : option (guest_pt * Z * Z) :=
  if pa <? page_end then
    match fuel with
    | O => None
    | S fuel =>
        let a := entry_at l3 (l3_index (ipa_base L + pa)%u64) in
        let nd := newd (rd s a) pa in
        if negb (rd s a =? nd) then
          let s := pte_store_release s a nd in
          let '(lo, hi) := note_change bcast lo hi pa (pa + PAGE_SIZE)%u64 in
          pages_loop newd fuel s l3 bcast (pa + PAGE_SIZE)%u64 page_end lo hi
        else pages_loop newd fuel s l3 bcast (pa + PAGE_SIZE)%u64 page_end lo hi
    end
  else Some (s, lo, hi).

Lemma inval_pages_eq fuel s l3 bcast pa e lo hi :
  inval_pages L fuel s l3 bcast pa e lo hi = pages_loop (fun _ _ => 0) fuel s l3 bcast pa e lo hi.
Proof.
  revert s pa lo hi. induction fuel as [|fuel IH]; intros; cbn [inval_pages pages_loop]; [done|].
  repeat case_match; done || apply IH.
Qed.

Definition perm_newd (regs : list guest_region_t) (perms old pa : Z) : Z :=
  make_page_desc (if has old PT_VALID then Z.land old GVA_PT_ADDR_MASK else recover_ipa L regs pa) perms.

Lemma perm_pages_eq fuel regs s l3 perms bcast pa e lo hi :
  perm_pages L fuel regs s l3 perms bcast pa e lo hi =
  pages_loop (perm_newd regs perms) fuel s l3 bcast pa e lo hi.
Proof.
  revert s pa lo hi. induction fuel as [|fuel IH]; intros; cbn [perm_pages pages_loop]; [done|].
  unfold perm_newd. repeat case_match; done || apply IH.
Qed.

(** The loop rewrites exactly the page entries of [[a, e)] and notes those that
    changed. *)
Definition pages_result (newd : Z -> Z -> Z) (a e : Z) (bcast : bool) (lo hi : Z) (s s' : guest_pt)
    (lo' hi' : Z) : Prop :=
  pt_wf L s' /\ tabs_grow s s' /\ same_regs s s' /\ (forall q, ent s' 2 q = ent s 2 q) /\
  (forall q, ent s' 3 q =
     if decide (a <= q * PAGE_SIZE < e) then newd (ent s 3 q) (q * PAGE_SIZE) else ent s 3 q) /\
  (forall q, ent s' 3 q <> ent s 3 q -> bcast = false -> lo' <= q * PAGE_SIZE /\ (q + 1) * PAGE_SIZE <= hi') /\
  lo' <= lo /\ hi <= hi' /\ 0 <= lo' /\ hi' <= Z.max hi e.

Lemma pages_loop_spec newd q2 bcast e :
  0 <= q2 -> e <= (q2 + 1) * BLOCK_2MIB -> e <= 2 ^ 48 -> e mod PAGE_SIZE = 0 ->
  forall fuel s l3 a lo hi,
  pt_wf L s -> tab s 3 q2 = Some l3 -> q2 * BLOCK_2MIB <= a -> a mod PAGE_SIZE = 0 -> 0 <= lo ->
  (e - a) / PAGE_SIZE <= Z.of_nat fuel ->
  exists s' lo' hi', pages_loop newd fuel s l3 bcast a e lo hi = Some (s', lo', hi') /\
    pages_result newd a e bcast lo hi s s' lo' hi'.
Proof.
  intros Hq0 Hee He48 Hea. unfold PAGE_SIZE, GUEST_PAGE_SIZE, BLOCK_2MIB in *.
  induction fuel as [|fuel IH]; intros s l3 a lo hi Hwf Ht Ha Haa Hlo Hf; cbn [pages_loop];
    (destruct (Z.ltb_spec a e) as [Hae|Hae];
     [|do 3 eexists; split; [done|]; unfold pages_result, PAGE_SIZE, GUEST_PAGE_SIZE; split_and!; try done; try lia;
       intros q; by rewrite decide_False by lia]).
  { zdm. }
  rewrite (base_add L s a Hwf) by (unfold fits64, two64; lia).
  rewrite l3_index_eq by (unfold fits64, two64; lia).
  unfold PAGE_SIZE, GUEST_PAGE_SIZE in *.
  set (q := a / 4096). assert (q / 512 = q2) as Hq by (unfold q; zdm).
  assert (a = q * 4096) as Haq by (unfold q; zdm). assert (a + 4096 <= e) as Hae' by (clear -Hae Haa Hea; zdm).
  rewrite <- Hq in Ht. rewrite (rd_ent _ _ _ _ Ht). rewrite add64_small by (unfold fits64, two64; lia).
  set (nd := newd (ent s 3 q) a).
  assert (forall s1 lo1 hi1, pt_wf L s1 -> tabs_grow s s1 -> same_regs s s1 ->
    (forall x, ent s1 2 x = ent s 2 x) ->
    (forall x, ent s1 3 x = if decide (x = q) then nd else ent s 3 x) ->
    (nd <> ent s 3 q -> bcast = false -> lo1 <= a /\ a + 4096 <= hi1) ->
    lo1 <= lo -> hi <= hi1 -> 0 <= lo1 -> hi1 <= Z.max hi (a + 4096) ->
    exists s' lo' hi', pages_loop newd fuel s1 l3 bcast (a + 4096) e lo1 hi1 = Some (s', lo', hi') /\
      pages_result newd a e bcast lo hi s s' lo' hi') as Hgo.
  { intros s1 lo1 hi1 W1 G1 R1 E2 E3 N1 B1 B2 B3 B4.
    destruct (IH s1 l3 (a + 4096) lo1 hi1 W1) as (s' & lo' & hi' & El & (W'&G'&R'&F2&F3&N'&C1&C2&C3&C4));
      [apply G1; [lia|by rewrite <- Hq]|lia|zdm|lia|zdm|].
    do 3 eexists. split; [exact El|]. unfold pages_result, PAGE_SIZE, GUEST_PAGE_SIZE in *.
    split_and!; try lia; [done|by etrans|by etrans|intros; by rewrite F2, E2| |].
    - intros x. rewrite F3, E3. destruct (decide (x = q)) as [->|Hne].
      + rewrite decide_False, decide_True by lia. unfold nd. by rewrite <- Haq.
      + destruct (decide (a + 4096 <= x * 4096 < e)), (decide (a <= x * 4096 < e)); done || lia.
    - intros x Hch Hb. destruct (decide (x = q)) as [->|Hne].
      + rewrite F3, E3, decide_False, decide_True in Hch by (done || lia). destruct (N1 Hch Hb). lia.
      + apply N'; [|done]. by rewrite E3, decide_False. }
  destruct (Z.eqb_spec (ent s 3 q) nd) as [Heq|Hneq]; cbn [negb].
  - apply Hgo; try done; try lia; [reflexivity..|].
    intros x. destruct (decide (x = q)) as [->|]; done.
  - destruct (store_leaf_wf L s 3 q l3 nd Hwf ltac:(lia) Ht ltac:(lia)) as (W & G & E).
    destruct (note_change bcast lo hi a (a + 4096)) as [lo1 hi1] eqn:En.
    apply note_change_spec in En as (N1&N2&N3&N4&N5).
    apply Hgo; try done; try lia.
    + intros x. rewrite E by lia. by rewrite decide_False by lia.
    + intros x. rewrite E by lia. destruct (decide (x = q)) as [->|]; [by rewrite decide_True|by rewrite decide_False by lia].
Qed.

(** ** Point-wise rewrites *)

(** [Q va v p v' p'] relates the old answer and presence of an address to the
    new ones.  [rewrites a b Q s s']: [Q] holds on [[a, b)], nothing else
    changes, and every changed answer is covered by the pending TLBI. *)
Notation answer_rel := (Z -> option (Z * Z) -> bool -> option (Z * Z) -> bool -> Prop).

Definition rewrites (a b : Z) (Q : answer_rel) (s s' : guest_pt) : Prop :=
  pt_wf L s' /\ tabs_grow s s' /\ ttbr0 s' = ttbr0 s /\ pt_gen s' = pt_gen s /\ retires s s' /\
  forall va, 0 <= va ->
    if decide (a <= va < b)
    then Q va (vmap s va) (present s va) (vmap s' va) (present s' va) /\
         (vmap s' va <> vmap s va -> covers (cpu_tlbi_req s') va)
    else kept s s' va.

Lemma rewrites_refl a Q s : pt_wf L s -> rewrites a a Q s s.
Proof.
  intros Hwf. split_and!; try done; [apply retires_refl|]. intros va _. by rewrite decide_False by lia.
Qed.

Lemma rewrites_trans a c b Q s1 s2 s3 :
  a <= c <= b -> rewrites a c Q s1 s2 -> rewrites c b Q s2 s3 -> rewrites a b Q s1 s3.
Proof.
  intros Hc (_&G1&T1&P1&R1&K1) (W2&G2&T2&P2&R2&K2).
  split_and!; [done|by etrans|congruence|congruence|by eapply retires_trans|].
  intros va Hva. specialize (K1 va Hva). specialize (K2 va Hva).
  destruct (decide (a <= va < c)), (decide (c <= va < b)), (decide (a <= va < b)); try lia.
  - destruct K1 as [Q1 C1], K2 as [-> ->]. split; [done|]. intros Hch. by apply R2, C1.
  - destruct K1 as [Kv Kp], K2 as [Q2 C2]. rewrite Kv, Kp in *. done.
  - by eapply kept_trans.
Qed.

Lemma rewrites_frame a b Q s1 s2 s3 :
  rewrites a b Q s1 s2 -> pt_wf L s3 -> tabs_grow s2 s3 -> ttbr0 s3 = ttbr0 s2 -> pt_gen s3 = pt_gen s2 ->
  retires s2 s3 -> (forall va, 0 <= va -> kept s2 s3 va) -> rewrites a b Q s1 s3.
Proof.
  intros (W1&G1&T1&P1&R1&K1) W G T P R K.
  split_and!; [done|by etrans|congruence|congruence|by eapply retires_trans|].
  intros va Hva. specialize (K1 va Hva). destruct (K va Hva) as [Kv Kp].
  destruct (decide _).
  - rewrite Kv, Kp. destruct K1 as [? C1]. split; [done|]. intros Hch. by apply R, C1.
  - eapply kept_trans; [done|]. by split.
Qed.

Lemma rewrites_pre a b Q s1 s2 s3 :
  tabs_grow s1 s2 -> same_regs s1 s2 -> (forall va, 0 <= va -> kept s1 s2 va) ->
  rewrites a b Q s2 s3 -> rewrites a b Q s1 s3.
Proof.
  intros G1 (E1&_&_&E2&E3) K1 (W&G&T&P&R&K).
  split_and!; [done|by etrans|congruence|congruence|by intros va Hc; apply R; rewrite E3|].
  intros va Hva. specialize (K va Hva). destruct (K1 va Hva) as [Kv Kp]. rewrite <- Kv, <- Kp.
  destruct (decide _); [done|]. destruct K. split; congruence.
Qed.

(** The L3 part of an iteration: the page loop and its flush. *)
Lemma l3_part newd (Q : answer_rel) s q l3 a e :
  pt_wf L s -> 0 <= q -> tab s 3 q = Some l3 ->
  q * BLOCK_2MIB <= a -> a <= e -> e <= (q + 1) * BLOCK_2MIB -> e <= 2 ^ 48 ->
  a mod PAGE_SIZE = 0 -> e mod PAGE_SIZE = 0 ->
  (forall old va, 0 <= va ->
     Q va (page_view old va) true (page_view (newd old (va / PAGE_SIZE * PAGE_SIZE)) va) true) ->
  let bcast := tlbi_request_is_broadcast (cpu_tlbi_req s) in
  exists s1 lo hi, pages_loop newd PTES_PER_TABLE s l3 bcast a e UINT64_MAX 0 = Some (s1, lo, hi) /\
    rewrites a e Q s (flush_changes L bcast (ipa_base L) lo hi s1).
Proof.
  intros Hwf Hq Ht Ha Hae He He48 Ma Me HQ bcast.
  assert (0 <= a) as Ha0 by (unfold BLOCK_2MIB in *; lia).
  destruct (pages_loop_spec newd q bcast e Hq He He48 Me PTES_PER_TABLE s l3 a UINT64_MAX 0 Hwf Ht Ha Ma)
    as (s1 & lo & hi & El & (W1&G1&R1&E2&E3&N1&B1&B2&B3&B4)); [done|change (Z.of_nat PTES_PER_TABLE) with 512; unfold PAGE_SIZE, GUEST_PAGE_SIZE, BLOCK_2MIB in *; zdm|].
  exists s1, lo, hi. split; [done|]. pose proof R1 as (T1&_&_&P1&C1).
  destruct (flush_changes_spec L s1 (ipa_base L) lo hi W1) as (W2&G2&K2&R2&T2&P2&C2);
    [apply lo_base, Hwf|done|unfold two64; lia|unfold two64, UINT64_MAX in *; lia|].
  rewrite C1 in *. fold bcast in W2, G2, K2, R2, T2, P2, C2. set (s2 := flush_changes _ _ _ _ _ _) in *.
  split_and!; [done|by etrans|congruence|congruence|by eapply retires_trans; [by apply retires_same|]|].
  assert (forall va, a <= va < e <-> a <= va / PAGE_SIZE * PAGE_SIZE < e) as Hpg
    by (unfold PAGE_SIZE, GUEST_PAGE_SIZE in *; intros; zdm).
  intros va Hva. destruct (K2 va) as [Kv Kp]. rewrite Kv, Kp. destruct (decide (a <= va < e)) as [Hin|Hout].
  - assert (tab s 3 (va / BLOCK_2MIB) = Some l3) as Hta.
    { rewrite <- Ht. f_equal. unfold BLOCK_2MIB in *. zdm. }
    destruct (page_entry s va l3 Hta) as (_ & -> & ->).
    destruct (page_entry s1 va l3) as (_ & -> & ->); [by apply G1; [lia|]|].
    split.
    + rewrite E3, decide_True by (by apply (proj1 (Hpg va))). by apply HQ.
    + intros Hch. apply C2. intros Hb. destruct (N1 (va / PAGE_SIZE)) as [? ?]; [congruence|done|].
      unfold PAGE_SIZE, GUEST_PAGE_SIZE in *. zdm.
  - eapply kept_trans; [|by apply K2]. unfold kept, vmap, present.
    rewrite !E2, E3, decide_False by (by rewrite <- Hpg). done.
Qed.

(** ** The block walk *)

(** One iteration from [addr]: it rewrites up to the end of the block or of the
    range and moves there, or fails for want of a page having done nothing. *)
Definition step_ok (Q : answer_rel) (end_ : Z) (s : guest_pt) (addr rc : Z) (s1 : guest_pt) (next : Z) : Prop :=
  (rc = 0 /\ rewrites addr (Z.min next end_) Q s s1 /\ addr < next /\
   (next = (addr / BLOCK_2MIB + 1) * BLOCK_2MIB \/ next = end_ /\ next <= (addr / BLOCK_2MIB + 1) * BLOCK_2MIB)) \/
  (rc = -1 /\ pt_wf L s1 /\ rewrites addr addr Q s s1 /\ pool_full L s1).

Lemma block_walk_spec Q body start end_ :
  0 <= start ->
  (forall s addr, pt_wf L s -> start <= addr < end_ -> (addr = start \/ addr mod BLOCK_2MIB = 0) ->
     exists rc s1 next, body s addr = Some (rc, s1, next) /\ step_ok Q end_ s addr rc s1 next) ->
  forall fuel s addr, pt_wf L s -> start <= addr ->
  (addr < end_ -> addr = start \/ addr mod BLOCK_2MIB = 0) ->
  (addr < end_ -> (end_ - 1) / BLOCK_2MIB - addr / BLOCK_2MIB + 1 <= Z.of_nat fuel) ->
  exists rc s' c, block_walk body fuel s end_ addr = Some (rc, s') /\
    rewrites (Z.min addr end_) c Q s s' /\ Z.min addr end_ <= c <= end_ /\
    ((rc = 0 /\ c = end_) \/ (rc = -1 /\ pool_full L s')).
Proof.
  intros Hs0 Hbody. induction fuel as [|fuel IH]; intros s addr Hwf Hsa Hst Hf; cbn [block_walk];
    (destruct (Z.ltb_spec addr end_) as [Hlt|Hge];
     [|exists 0, s, end_; rewrite Z.min_r by lia; split_and!; try done; [by apply rewrites_refl|by left]]).
  { specialize (Hf Hlt). unfold BLOCK_2MIB in *. zdm. }
  destruct (Hbody s addr Hwf ltac:(lia) (Hst Hlt)) as (rc & s1 & next & -> & Hok). run.
  rewrite (Z.min_l addr end_) by lia. specialize (Hf Hlt).
  destruct Hok as [(-> & HR & Hnext & Hn)|(-> & W1 & HR & Hfull)]; simpl.
  2:{ exists (-1), s1, addr. split_and!; try done; try lia. by right. }
  pose proof HR as (W1&_).
  assert (next < end_ -> next mod BLOCK_2MIB = 0 /\ next / BLOCK_2MIB = addr / BLOCK_2MIB + 1) as Hnb.
  { intros Hne. destruct Hn as [->|[? _]]; [|lia]. unfold BLOCK_2MIB. zdm. }
  destruct (IH s1 next W1 ltac:(lia)) as (rc & s' & c & E & HR' & Hc & Hrc).
  { intros Hne. right. by apply Hnb. }
  { intros Hne. destruct (Hnb Hne) as [_ ->]. lia. }
  exists rc, s', c. split_and!; try done; try lia.
  eapply rewrites_trans; [|exact HR|exact HR']. lia.
Qed.

(** A block without a level-2 entry. *)
Lemma absent_block (Q : answer_rel) end_ s addr next :
  pt_wf L s -> 0 <= addr < end_ -> present s addr = false ->
  (forall va, 0 <= va -> Q va None false None false) ->
  next = (addr / BLOCK_2MIB + 1) * BLOCK_2MIB -> step_ok Q end_ s addr 0 s next.
Proof.
  intros Hwf Ha Hp HQ ->. left. split_and!; [done| |unfold BLOCK_2MIB; zdm|by left].
  split_and!; try done; [apply retires_refl|]. intros va Hva. destruct (decide _) as [Hin|]; [|done].
  assert (va / BLOCK_2MIB = addr / BLOCK_2MIB) as Hb by (unfold BLOCK_2MIB in *; zdm).
  unfold vmap, present in *. rewrite Hb, Hp. split; [by apply HQ|done].
Qed.

(** Rewriting a whole block in place. *)
Lemma whole_block (Q : answer_rel) end_ s addr t v :
  pt_wf L s -> 0 <= addr -> addr mod BLOCK_2MIB = 0 -> addr + BLOCK_2MIB <= end_ -> end_ <= 2 ^ 48 ->
  tab s 2 (addr / BLOCK_1GIB) = Some t -> Z.land (ent s 2 (addr / BLOCK_2MIB)) 3 = 1 ->
  Z.land v 3 <> 3 -> block_ok v ->
  (forall va, 0 <= va -> Q va (block_view (ent s 2 (addr / BLOCK_2MIB)) va) true (block_view v va) (has v 1)) ->
  step_ok Q end_ s addr 0
    (tlbi_range L (pte_store_release s (entry_at t ((addr / BLOCK_2MIB) mod 512)) v) addr (addr + BLOCK_2MIB))
    (addr + BLOCK_2MIB).
Proof.
  intros Hwf Ha Hal He He48 Ht Hk Hv Hb HQ. left.
  destruct (block_store L s (addr / BLOCK_2MIB) t v Hwf) as (W1&G1&E1&K1&V1);
    [by rewrite block_div_512|lia|done|done|].
  set (s1 := pte_store_release _ _ _) in *.
  destruct (tlbi_range_spec L s1 addr (addr + BLOCK_2MIB) W1) as (W2&G2&K2&R2&T2&P2&C2);
    [unfold fits64, two64, BLOCK_2MIB in *; lia..|].
  split_and!; [done| |unfold BLOCK_2MIB; lia|left; unfold BLOCK_2MIB in *; zdm].
  rewrite Z.min_l by lia.
  split_and!; [done|by etrans|done|done|done|]. intros va Hva.
  assert (addr <= va < addr + BLOCK_2MIB <-> va / BLOCK_2MIB = addr / BLOCK_2MIB) as Hblk
    by (unfold BLOCK_2MIB in *; zdm).
  destruct (decide (addr <= va < addr + BLOCK_2MIB)) as [Hin|Hout].
  - destruct (K2 va) as [-> ->], (V1 va) as [-> ->]; [by apply Hblk|].
    split; [|intros; apply C2; lia].
    replace (vmap s va) with (block_view (ent s 2 (addr / BLOCK_2MIB)) va).
    + replace (present s va) with true; [by apply HQ|]. unfold present. rewrite (proj1 Hblk Hin).
      by apply desc_kind in Hk as [-> _].
    + unfold vmap, block_view. rewrite (proj1 Hblk Hin), Hk. by destruct (has _ 1).
  - eapply kept_trans; [apply K1|apply K2]. by rewrite <- Hblk.
Qed.

(** Make sure a present block has a table of page entries. *)
Lemma ensure_l3 s addr t :
  pt_wf L s -> fits64 addr -> tab s 2 (addr / BLOCK_1GIB) = Some t -> present s addr = true ->
  let a := entry_at t ((addr / BLOCK_2MIB) mod 512) in
  let bs := addr / BLOCK_2MIB * BLOCK_2MIB in
  exists rc s1,
    (if Z.land (rd s a) 3 =? 1 then guest_split_block L s bs else Some (0, s)) = Some (rc, s1) /\
    pt_wf L s1 /\ tabs_grow s s1 /\ same_regs s s1 /\ (forall va, 0 <= va -> kept s s1 va) /\
    ((rc = -1 /\ s1 = s /\ pool_full L s) \/ (rc = 0 /\ exists l3, tab s1 3 (addr / BLOCK_2MIB) = Some l3 /\
       pt_at L (desc_table (rd s1 a) - ipa_base L)%u64 = Some l3)).
Proof.
  intros Hwf Hf Ht Hp a bs.
  assert (0 <= bs <= addr) as Hb0 by (clear -Hf; unfold bs, fits64, BLOCK_2MIB in *; zdm).
  assert (bs / BLOCK_2MIB = addr / BLOCK_2MIB) as Hbd by (clear; unfold bs, BLOCK_2MIB; zdm).
  assert (fits64 bs) as Hbf by (unfold fits64, two64 in *; lia).
  assert (bs / BLOCK_1GIB = addr / BLOCK_1GIB) as Hbg by (by rewrite <- !block_div_512, Hbd).
  destruct (Z.eqb_spec (Z.land (rd s a) 3) 1) as [Hk|Hk].
  - destruct (guest_split_block_spec L s bs t Hwf Hbf) as (rc & s1 & E & H1 & H2 & H3 & H4 & H5);
      [by rewrite Hbg|by unfold present in *; rewrite Hbd|].
    rewrite Hbd in H5. exists rc, s1. by split_and!.
  - exists 0, s. split_and!; try done; [reflexivity..|]. right. split; [done|].
    unfold a in *. rewrite (rd_ent s 2) in Hk |- * by (by rewrite block_div_512).
    assert (Z.land (ent s 2 (addr / BLOCK_2MIB)) 3 = 3) as Hk3.
    { apply desc_kind. unfold present in Hp. split; [done|]. destruct (has _ 2) eqn:E2; [done|].
      exfalso. apply Hk, desc_kind. done. }
    exists (desc_table (ent s 2 (addr / BLOCK_2MIB))).
    assert (tab s 3 (addr / BLOCK_2MIB) = Some (desc_table (ent s 2 (addr / BLOCK_2MIB)))) as Ht3
      by (rewrite tab_S; unfold tnext; by rewrite Hk3).
    split; [done|]. by eapply pt_at_tab; [done| |exact Ht3].
Qed.

(** Splitting if needed, then rewriting the page entries of the covered part. *)
Lemma paged_block (Q : answer_rel) newd start end_ s addr t :
  pt_wf L s -> 0 <= start <= addr -> addr < end_ -> end_ <= 2 ^ 48 ->
  addr mod PAGE_SIZE = 0 -> end_ mod PAGE_SIZE = 0 ->
  tab s 2 (addr / BLOCK_1GIB) = Some t -> present s addr = true ->
  (forall old va, 0 <= va ->
     Q va (page_view old va) true (page_view (newd old (va / PAGE_SIZE * PAGE_SIZE)) va) true) ->
  let a := entry_at t ((addr / BLOCK_2MIB) mod 512) in
  let block_start := addr / BLOCK_2MIB * BLOCK_2MIB in
  let page_end := if end_ <? block_start + BLOCK_2MIB then end_ else block_start + BLOCK_2MIB in
  exists rc s1,
  (if Z.land (rd s a) 3 =? 1 then guest_split_block L s block_start else Some (0, s)) = Some (rc, s1) /\
  ((rc = -1 /\ step_ok Q end_ s addr (-1) s1 addr) \/
   (rc = 0 /\ exists l3 s2 lo hi,
      pt_at L (desc_table (rd s1 a) - ipa_base L)%u64 = Some l3 /\
      pages_loop newd PTES_PER_TABLE s1 l3 (tlbi_request_is_broadcast (cpu_tlbi_req s1)) addr page_end UINT64_MAX 0
        = Some (s2, lo, hi) /\
      step_ok Q end_ s addr 0
        (flush_changes L (tlbi_request_is_broadcast (cpu_tlbi_req s1)) (ipa_base L) lo hi s2) page_end)).
Proof.
  intros Hwf Hs He He48 Ma Me Ht Hp HQ a bs pe.
  assert (0 <= bs <= addr /\ addr < bs + BLOCK_2MIB) as (Hb0&Hba)
    by (clear -Hs; unfold bs, BLOCK_2MIB; zdm).
  destruct (ensure_l3 s addr t Hwf ltac:(unfold fits64, two64; lia) Ht Hp)
    as (rc & s1 & E & W1 & G1 & R1 & K1 & Hcase).
  exists rc, s1. split; [done|].
  destruct Hcase as [(-> & -> & Hfull)|(-> & l3 & Ht3 & Hpt)].
  { left. split; [done|]. right. split_and!; try done. by apply rewrites_refl. }
  right. split; [done|].
  assert (addr < pe /\ pe <= end_ /\ pe <= bs + BLOCK_2MIB /\ (pe = end_ \/ pe = bs + BLOCK_2MIB) /\ pe mod PAGE_SIZE = 0)
    as (P1&P2&P3&P4&P5).
  { assert ((bs + BLOCK_2MIB) mod PAGE_SIZE = 0)
      by (clear; unfold bs, PAGE_SIZE, GUEST_PAGE_SIZE, BLOCK_2MIB; zdm).
    clearbody bs. unfold pe. destruct (Z.ltb_spec end_ (bs + BLOCK_2MIB)); split_and!; auto; lia. }
  assert (0 <= addr / BLOCK_2MIB /\ addr / BLOCK_2MIB * BLOCK_2MIB <= addr) as [Q1 Q2]
    by (clear -Hs; unfold BLOCK_2MIB; zdm).
  destruct (l3_part newd Q s1 (addr / BLOCK_2MIB) l3 addr pe W1 Q1 Ht3 Q2)
    as (s2 & lo & hi & El & HR); [lia|unfold bs in P3; lia|lia|exact Ma|exact P5|exact HQ|].
  exists l3, s2, lo, hi. split; [exact Hpt|]. split; [exact El|]. left. split; [reflexivity|].
  rewrite Z.min_l by lia. split; [by eapply rewrites_pre|]. split; [lia|].
  unfold bs in *. destruct P4; [right|left]; lia.
Qed.

(** ** The two iterations *)

Definition inval_rel : answer_rel := fun _ _ p v' p' => v' = None /\ (p' = true -> p = true).

(** The answer [guest_update_perms] leaves for an address. *)
Definition perm_view (regs : list guest_region_t) (perms : Z) (v : option (Z * Z)) (p : bool) (va : Z)
    : option (Z * Z) :=
  if p then
    Some (match v with
          | Some (out, _) => out
          | None => Z.land (recover_ipa L regs (va / PAGE_SIZE * PAGE_SIZE)) GVA_PT_ADDR_MASK + va mod PAGE_SIZE
          end, norm_perms perms)
  else None.

Definition perm_rel (regs : list guest_region_t) (perms : Z) : answer_rel :=
  fun va v p v' p' => p' = p /\ v' = perm_view regs perms v p va.

#[local] Opaque PTES_PER_TABLE.

Lemma inval_l3_eq s a addr bs be end_ l3 s2 lo hi :
  0 <= bs <= addr -> pt_at L (desc_table (rd s a) - ipa_base L)%u64 = Some l3 ->
  pages_loop (fun _ _ => 0) PTES_PER_TABLE s l3 (tlbi_request_is_broadcast (cpu_tlbi_req s)) addr
    (if end_ <? be then end_ else be) UINT64_MAX 0 = Some (s2, lo, hi) ->
  inval_l3 L s a addr bs be end_ =
  Some (flush_changes L (tlbi_request_is_broadcast (cpu_tlbi_req s)) (ipa_base L) lo hi s2,
        if end_ <? be then end_ else be).
Proof.
  intros Hb Hpt El. unfold inval_l3. rewrite Hpt. run. rewrite inval_pages_eq.
  replace (if bs <? addr then addr else bs) with addr by (destruct (Z.ltb_spec bs addr); lia).
  rewrite El. by run.
Qed.

Lemma perm_l3_eq regs perms s a addr bs be end_ l3 s2 lo hi :
  0 <= bs <= addr -> pt_at L (desc_table (rd s a) - ipa_base L)%u64 = Some l3 ->
  pages_loop (perm_newd regs perms) PTES_PER_TABLE s l3 (tlbi_request_is_broadcast (cpu_tlbi_req s)) addr
    (if end_ <? be then end_ else be) UINT64_MAX 0 = Some (s2, lo, hi) ->
  perm_l3 L regs s a addr bs be end_ perms =
  Some (flush_changes L (tlbi_request_is_broadcast (cpu_tlbi_req s)) (ipa_base L) lo hi s2,
        if end_ <? be then end_ else be).
Proof.
  intros Hb Hpt El. unfold perm_l3. rewrite Hpt. run. rewrite perm_pages_eq.
  replace (if bs <? addr then addr else bs) with addr by (destruct (Z.ltb_spec bs addr); lia).
  rewrite El. by run.
Qed.

Section Iteration.
Context (start end_ : Z).
Hypothesis start_al : start mod PAGE_SIZE = 0.
Hypothesis end_al : end_ mod PAGE_SIZE = 0.
Hypothesis start_pos : 0 <= start.
Hypothesis end_le : end_ <= 2 ^ 48.

(** The block arithmetic of an iteration. *)
Lemma iter_arith addr :
  start <= addr < end_ -> (addr = start \/ addr mod BLOCK_2MIB = 0) ->
  let bs := addr / BLOCK_2MIB * BLOCK_2MIB in
  fits64 addr /\ addr mod PAGE_SIZE = 0 /\ ALIGN_2MIB_DOWN addr = bs /\ (bs + BLOCK_2MIB)%u64 = bs + BLOCK_2MIB /\
  ALIGN_2MIB_UP (addr + 1)%u64 = (addr / BLOCK_2MIB + 1) * BLOCK_2MIB /\
  0 <= bs <= addr /\ addr < bs + BLOCK_2MIB /\ bs mod BLOCK_2MIB = 0 /\ fits64 bs /\ fits64 (bs + BLOCK_2MIB) /\
  (start <= bs -> bs = addr).
Proof.
  intros Ha Hor bs.
  assert (fits64 addr) as Hf by (unfold fits64, two64; lia).
  assert (0 <= bs <= addr /\ addr < bs + BLOCK_2MIB /\ bs mod BLOCK_2MIB = 0) as (?&?&?)
    by (clear -Ha start_pos; unfold bs, BLOCK_2MIB in *; zdm).
  split_and!; try done; try lia.
  - destruct Hor as [->|Hm]; [done|]. clear -Hm. unfold BLOCK_2MIB, PAGE_SIZE, GUEST_PAGE_SIZE in *. zdm.
  - by apply align_block.
  - apply add64_small. unfold fits64, two64, BLOCK_2MIB in *. lia.
  - rewrite add64_small by (unfold fits64, two64; lia).
    rewrite align_up_block by (unfold two64, BLOCK_2MIB; lia). clear. unfold BLOCK_2MIB. zdm.
  - unfold fits64, two64, BLOCK_2MIB in *. lia.
  - unfold fits64, two64, BLOCK_2MIB in *. lia.
  - intros Hsb. destruct Hor as [->|Hm]; [lia|]. clear -Hm. unfold bs, BLOCK_2MIB in *. zdm.
Qed.

Lemma inval_block_ok s addr :
  pt_wf L s -> start <= addr < end_ -> (addr = start \/ addr mod BLOCK_2MIB = 0) ->
  exists rc s1 next, inval_block L start end_ s addr = Some (rc, s1, next) /\
    step_ok inval_rel end_ s addr rc s1 next.
Proof.
  intros Hwf Ha Hor. destruct (iter_arith addr Ha Hor) as (Hf&Hal&Hdn&Hbe&Hup&Hb0&Hb1&Hbm&Hbf&Hbf2&Hsb).
  assert (forall next, present s addr = false -> next = (addr / BLOCK_2MIB + 1) * BLOCK_2MIB ->
    step_ok inval_rel end_ s addr 0 s next) as Habs.
  { intros next Hp Hn. apply absent_block; [exact Hwf|lia|exact Hp|by intros|exact Hn]. }
  assert (addr / BLOCK_2MIB * BLOCK_2MIB + BLOCK_2MIB = (addr / BLOCK_2MIB + 1) * BLOCK_2MIB) as Hnx
    by (clear; rewrite Z.mul_add_distr_r; lia).
  unfold inval_block. rewrite find_l2_entry_spec by done. run.
  rewrite Hdn, Hbe, Hup.
  destruct (tab s 2 (addr / BLOCK_1GIB)) as [t|] eqn:Ht.
  2:{ do 3 eexists. split; [reflexivity|]. apply Habs; [|reflexivity].
      unfold present, ent. by rewrite block_div_512, Ht. }
  pose proof (rd_ent s 2 (addr / BLOCK_2MIB) t ltac:(by rewrite block_div_512)) as Hrd. rewrite Hrd.
  destruct (has (ent s 2 (addr / BLOCK_2MIB)) 1) eqn:Hv; cbn [negb].
  2:{ do 3 eexists. split; [reflexivity|]. apply Habs; [exact Hv|exact Hnx]. }
  destruct (paged_block inval_rel (fun _ _ => 0) start end_ s addr t Hwf ltac:(lia) ltac:(lia) end_le Hal end_al Ht Hv)
    as (rc & s1 & E & Hcase); [by intros|].
  destruct (_ && _) eqn:Hwhole.
  - apply andb_prop in Hwhole as [[Hk Hs]%andb_prop He]. unbool.
    pose proof (Hsb Hs) as Hbs. rewrite !(base_add L s) by done.
    do 3 eexists. split; [reflexivity|]. rewrite Hbs in *.
    apply whole_block; try assumption; try done. lia.
  - cbv zeta in E, Hcase. rewrite Hrd in E. rewrite E. run.
    destruct Hcase as [[-> Hst]|(-> & l3 & s2 & lo & hi & Hpt & El & Hst)]; simpl (_ <? 0); cbv iota.
    { do 3 eexists. split; [reflexivity|exact Hst]. }
    rewrite (inval_l3_eq _ _ _ _ _ _ _ _ _ _ Hb0 Hpt El). run. do 3 eexists. split; [reflexivity|exact Hst].
Qed.

(** Page and block descriptors rewritten with new permissions. *)
Lemma perm_page_rel regs perms old va :
  0 <= va ->
  perm_rel regs perms va (page_view old va) true
    (page_view (perm_newd regs perms old (va / PAGE_SIZE * PAGE_SIZE)) va) true.
Proof.
  intros Hva. split; [done|]. unfold perm_view, perm_newd, page_view. change PT_VALID with 1.
  set (x := if has old 1 then _ else _). destruct (make_page_desc_spec x perms) as (_&Hv&Ha&Hp).
  rewrite Hv, Ha, Hp. unfold x. destruct (has old 1); [|done].
  by rewrite <- Z.land_assoc, Z.land_diag.
Qed.

Lemma perm_block_rel regs perms e va :
  has e 1 = true ->
  perm_rel regs perms va (block_view e va) true
    (block_view (make_block_desc (Z.land e L2_BLOCK_ADDR_MASK) perms) va) true.
Proof.
  intros He. split; [done|]. unfold perm_view, block_view.
  destruct (make_block_desc_spec (Z.land e L2_BLOCK_ADDR_MASK) perms) as (_&Hv&Ha&Hp).
  rewrite Hv, Ha, Hp, He. by rewrite <- Z.land_assoc, Z.land_diag.
Qed.

(** A block that already has the permissions. *)
Lemma same_perm_block regs perms s addr next :
  pt_wf L s -> 0 <= addr < end_ -> Z.land (ent s 2 (addr / BLOCK_2MIB)) 3 = 1 ->
  desc_to_perms (ent s 2 (addr / BLOCK_2MIB)) = perms ->
  next = (addr / BLOCK_2MIB + 1) * BLOCK_2MIB -> step_ok (perm_rel regs perms) end_ s addr 0 s next.
Proof.
  intros Hwf Ha Hk Hp Hn. left. split_and!; [done| |rewrite Hn; unfold BLOCK_2MIB; clear; zdm|by left].
  split_and!; try done; [apply retires_refl|]. intros va Hva. destruct (decide _) as [Hin|]; [|done].
  assert (va / BLOCK_2MIB = addr / BLOCK_2MIB) as Hb.
  { rewrite Hn in Hin. clear -Hin. unfold BLOCK_2MIB in *. zdm. }
  split; [|done]. split; [done|]. pose proof (wf_block _ _ Hwf (addr / BLOCK_2MIB) Hk) as Hnorm.
  unfold perm_view, vmap, present. rewrite Hb, Hk. apply desc_kind in Hk as [-> _]. simpl.
  rewrite Hp in Hnorm |- *. by rewrite Hnorm.
Qed.

Lemma perm_block_ok regs perms s addr :
  pt_wf L s -> start <= addr < end_ -> (addr = start \/ addr mod BLOCK_2MIB = 0) ->
  exists rc s1 next, perm_block L regs start end_ perms s addr = Some (rc, s1, next) /\
    step_ok (perm_rel regs perms) end_ s addr rc s1 next.
Proof.
  intros Hwf Ha Hor. destruct (iter_arith addr Ha Hor) as (Hf&Hal&Hdn&Hbe&Hup&Hb0&Hb1&Hbm&Hbf&Hbf2&Hsb).
  assert (forall next, present s addr = false -> next = (addr / BLOCK_2MIB + 1) * BLOCK_2MIB ->
    step_ok (perm_rel regs perms) end_ s addr 0 s next) as Habs.
  { intros next Hp Hn. apply absent_block; [exact Hwf|lia|exact Hp|by intros|exact Hn]. }
  assert (addr / BLOCK_2MIB * BLOCK_2MIB + BLOCK_2MIB = (addr / BLOCK_2MIB + 1) * BLOCK_2MIB) as Hnx
    by (clear; rewrite Z.mul_add_distr_r; lia).
  unfold perm_block. rewrite find_l2_entry_spec by done. run. rewrite Hdn, Hbe, Hup.
  destruct (tab s 2 (addr / BLOCK_1GIB)) as [t|] eqn:Ht.
  2:{ do 3 eexists. split; [reflexivity|]. apply Habs; [|reflexivity].
      unfold present, ent. by rewrite block_div_512, Ht. }
  pose proof (rd_ent s 2 (addr / BLOCK_2MIB) t ltac:(by rewrite block_div_512)) as Hrd. rewrite Hrd.
  destruct (has (ent s 2 (addr / BLOCK_2MIB)) 1) eqn:Hv; cbn [negb].
  2:{ do 3 eexists. split; [reflexivity|]. apply Habs; [exact Hv|exact Hnx]. }
  destruct (paged_block (perm_rel regs perms) (perm_newd regs perms) start end_ s addr t Hwf
    ltac:(lia) ltac:(lia) end_le Hal end_al Ht Hv (perm_page_rel regs perms)) as (rc & s1 & E & Hcase).
  destruct (_ && (_ <=? end_)) eqn:Hwhole.
  - apply andb_prop in Hwhole as [[Hk Hs]%andb_prop He]. unbool.
    pose proof (Hsb Hs) as Hbs. do 3 eexists. split; [reflexivity|].
    destruct (Z.eqb_spec (desc_to_perms (ent s 2 (addr / BLOCK_2MIB))) perms) as [Hp|Hp]; cbn [negb].
    { apply same_perm_block; first [assumption|lia]. }
    rewrite !(base_add L s) by done. rewrite Hbs in *.
    destruct (make_block_desc_spec (Z.land (ent s 2 (addr / BLOCK_2MIB)) L2_BLOCK_ADDR_MASK) perms) as (Hk1&Hv1&_&Hp1).
    apply whole_block; try assumption; [lia|lia| |].
    + intros _. rewrite Hp1. unfold norm_perms. by repeat case_if.
    + intros va Hva. rewrite Hv1. by apply perm_block_rel.
  - destruct ((Z.land _ 3 =? 1) && (_ =? perms)) eqn:Hsame.
    { apply andb_prop in Hsame as [Hk Hp]. apply Z.eqb_eq in Hk, Hp. do 3 eexists. split; [reflexivity|].
      apply same_perm_block; first [assumption|lia]. }
    cbv zeta in E, Hcase. rewrite Hrd in E. rewrite E. run.
    destruct Hcase as [[-> Hst]|(-> & l3 & s2 & lo & hi & Hpt & El & Hst)]; simpl (_ <? 0); cbv iota.
    { do 3 eexists. split; [reflexivity|exact Hst]. }
    rewrite (perm_l3_eq _ _ _ _ _ _ _ _ _ _ _ _ Hb0 Hpt El). run. do 3 eexists. split; [reflexivity|exact Hst].
Qed.

End Iteration.

(** ** The two operations *)

(** [range_result rej Q a b s rc s']: on success every address of [[a, b)] is
    rewritten as [Q] says, every other one is unchanged, changed answers are
    covered by the TLBI request and the generation moved.  On failure (rejected
    arguments or an exhausted pool) that holds for a prefix [[a, c)] of the
    range, and the generation did not move. *)
Definition range_result (rej : Prop) (Q : answer_rel) (a b : Z) (s : guest_pt) (rc : Z) (s' : guest_pt) : Prop :=
  exists c, a <= c <= b /\ pt_wf L s' /\ tabs_grow s s' /\ ttbr0 s' = ttbr0 s /\ retires s s' /\
  (forall va, 0 <= va ->
    if decide (a <= va < c)
    then Q va (vmap s va) (present s va) (vmap s' va) (present s' va) /\
         (vmap s' va <> vmap s va -> covers (cpu_tlbi_req s') va)
    else kept s s' va) /\
  ((rc = 0 /\ c = b /\ pt_gen s' = (pt_gen s + 1)%u64) \/
   (rc = -1 /\ (rej \/ pool_full L s') /\ pt_gen s' = pt_gen s)).

(** The page range a call rounds out to. *)
Lemma page_range start end_ :
  fits64 start -> 0 <= end_ <= 2 ^ 48 ->
  (UINT64_MAX - (PAGE_SIZE - 1))%u64 <? end_ = false /\
  Z.land start (not64 (PAGE_SIZE - 1)) = ALIGN_DOWN start PAGE_SIZE /\
  Z.land (end_ + PAGE_SIZE - 1)%u64 (not64 (PAGE_SIZE - 1)) = PAGE_ALIGN_UP end_ /\
  ALIGN_DOWN start PAGE_SIZE = start / PAGE_SIZE * PAGE_SIZE /\
  PAGE_ALIGN_UP end_ = (end_ + (PAGE_SIZE - 1)) / PAGE_SIZE * PAGE_SIZE /\
  PAGE_ALIGN_UP end_ <= 2 ^ 48.
Proof.
  intros Hs He.
  assert (PAGE_ALIGN_UP end_ = (end_ + (PAGE_SIZE - 1)) / PAGE_SIZE * PAGE_SIZE) as Hup.
  { rewrite align_up_page by (unfold two64; lia). unfold PAGE_SIZE, GUEST_PAGE_SIZE. clear. zdm. }
  split_and!; try done.
  - apply Z.ltb_ge. rewrite sub64_small; unfold fits64, two64, UINT64_MAX, PAGE_SIZE, GUEST_PAGE_SIZE; lia.
  - unfold PAGE_ALIGN_UP, ALIGN_UP. f_equal.
    unfold PAGE_SIZE, GUEST_PAGE_SIZE, add64, sub64, wrap64, two64 in *. clear. zdm.
  - rewrite align_down_page by done. unfold PAGE_SIZE, GUEST_PAGE_SIZE. clear. zdm.
  - rewrite Hup. unfold PAGE_SIZE, GUEST_PAGE_SIZE. clear -He. zdm.
Qed.

(** Running the walk from the start of a non-empty page range. *)
Lemma walk_result (Q : answer_rel) rej body a b s0 s :
  pt_wf L s0 -> tabs_grow s s0 -> ttbr0 s0 = ttbr0 s -> pt_gen s0 = pt_gen s -> retires s s0 ->
  (forall va, kept s s0 va) -> 0 <= a < b ->
  (forall s addr, pt_wf L s -> a <= addr < b -> (addr = a \/ addr mod BLOCK_2MIB = 0) ->
     exists rc s1 next, body s addr = Some (rc, s1, next) /\ step_ok Q b s addr rc s1 next) ->
  exists rc s', block_walk body (block_fuel a b + 1) s0 b a = Some (rc, s') /\
    range_result rej Q a b s (if rc <? 0 then -1 else 0) (if rc <? 0 then s' else guest_pt_gen_bump s').
Proof.
  intros Hwf G T P R K Hab Hbody.
  destruct (block_walk_spec Q body a b ltac:(lia) Hbody (block_fuel a b + 1) s0 a Hwf ltac:(lia))
    as (rc & s' & c & E & (W'&G'&T'&P'&R'&K') & Hc & Hrc).
  { by left. }
  { intros _. unfold block_fuel, BLOCK_2MIB. clear -Hab. zdm. }
  rewrite Z.min_l in Hc, K' by lia. exists rc, s'. split; [done|].
  assert (Hpt : forall va, 0 <= va ->
    if decide (a <= va < c)
    then Q va (vmap s va) (present s va) (vmap s' va) (present s' va) /\
         (vmap s' va <> vmap s va -> covers (cpu_tlbi_req s') va)
    else kept s s' va).
  { intros va Hva. specialize (K' va Hva). destruct (K va) as [Kv Kp]. rewrite <- Kv, <- Kp.
    destruct (decide _); [done|]. by eapply kept_trans. }
  destruct Hrc as [[-> ->]|[-> Hf]]; simpl.
  - destruct (gen_bump_spec L s' W') as (W2&G2&K2&R2&T2&P2&C2).
    exists b. split_and!; try done; try lia; [by repeat (etrans; [eassumption|])
      |by repeat (eapply retires_trans; [eassumption|])|left; split_and!; [done|done|congruence]].
  - exists c. split_and!; try done; try lia; [by etrans|by eapply retires_trans|].
    right. split_and!; [done|by right|congruence].
Qed.

Lemma invalidate_spec s start end_ :
  pt_wf L s -> fits64 start -> 0 <= end_ <= 2 ^ 48 ->
  let a := ALIGN_DOWN start PAGE_SIZE in
  let b := PAGE_ALIGN_UP end_ in
  exists rc s', guest_invalidate_ptes L s start end_ = Some (rc, s') /\
    (if b <=? a then rc = 0 /\ s' = s else range_result False inval_rel a b s rc s').
Proof.
  intros Hwf Hs He a b. destruct (page_range start end_ Hs He) as (G1&G2&G3&G4&G5&G6).
  unfold guest_invalidate_ptes. rewrite G1, G2, G3. fold a b.
  assert (a mod PAGE_SIZE = 0 /\ b mod PAGE_SIZE = 0 /\ 0 <= a) as (Ma&Mb&Ha0).
  { unfold a, b. rewrite G4, G5. unfold PAGE_SIZE, GUEST_PAGE_SIZE, fits64 in *. clear -Hs. zdm. }
  destruct (Z.leb_spec b a) as [Hba|Hab]; [by do 2 eexists|].
  destruct (walk_result inval_rel False (inval_block L a b) a b s s Hwf) as (rc & s' & -> & HR); try done;
    [apply retires_refl| |].
  { intros s1 addr Hw. by apply inval_block_ok. }
  run. by destruct (rc <? 0); do 2 eexists.
Qed.

Lemma update_perms_spec regs s start end_ perms :
  pt_wf L s -> fits64 start -> 0 <= end_ <= 2 ^ 48 ->
  let a := ALIGN_DOWN start PAGE_SIZE in
  let b := PAGE_ALIGN_UP end_ in
  exists rc s', guest_update_perms L regs s start end_ perms = Some (rc, s') /\
    (if b <=? a then rc = 0 /\ s' = s
     else range_result (has perms MEM_PERM_X = true /\ guest_kbuf_user_va_overlap a (b - a) = true)
            (perm_rel regs perms) a b s rc s').
Proof.
  intros Hwf Hs He a b. destruct (page_range start end_ Hs He) as (G1&G2&G3&G4&G5&G6).
  unfold guest_update_perms. rewrite G1, G2, G3. fold a b in G6 |- *.
  assert (a mod PAGE_SIZE = 0 /\ b mod PAGE_SIZE = 0 /\ 0 <= a) as (Ma&Mb&Ha0).
  { unfold a, b. rewrite G4, G5. unfold PAGE_SIZE, GUEST_PAGE_SIZE, fits64 in *. clear -Hs. zdm. }
  destruct (Z.leb_spec b a) as [Hba|Hab]; [by do 2 eexists|].
  destruct (mark_icache_spec L perms s Hwf) as (W0&G0&K0&R0&T0&P0&_).
  set (s0 := tlbi_mark_icache_if perms s) in *.
  rewrite (proj2 (Z.ltb_lt a b) Hab), andb_true_r, sub64_small by (unfold fits64, two64; lia).
  destruct (has perms MEM_PERM_X && guest_kbuf_user_va_overlap a (b - a)) eqn:Hrej.
  { apply andb_prop in Hrej. do 2 eexists. split; [done|]. exists a. split_and!; try done; try lia.
    - intros va Hva. by rewrite decide_False by lia.
    - right. split_and!; [done|by left|done]. }
  destruct (walk_result (perm_rel regs perms) (has perms MEM_PERM_X = true /\ guest_kbuf_user_va_overlap a (b - a) = true)
    (perm_block L regs a b perms) a b s0 s W0) as (rc & s' & -> & HR); try done.
  { intros s1 addr Hw. by apply perm_block_ok. }
  run. by destruct (rc <? 0); do 2 eexists.
Qed.

(** ** Installing 4 KiB pages *)

(** [paged a b d p noted s s']: the addresses of [[a, b)], all of them in
    present blocks, map to themselves plus [d]; the others are unchanged. *)
Definition paged (a b d p : Z) (noted : Z -> Prop) (s s' : guest_pt) : Prop :=
  pt_wf L s' /\ tabs_grow s s' /\ same_regs s s' /\
  forall va, 0 <= va ->
    if decide (a <= va < b)
    then present s va = true /\ present s' va = true /\ vmap s' va = Some (va + d, norm_perms p) /\
         (vmap s' va <> vmap s va -> noted va)
    else kept s s' va.

Lemma paged_refl a d p noted s : pt_wf L s -> paged a a d p noted s s.
Proof. intros. split_and!; try done. intros va _. by rewrite decide_False by lia. Qed.

Lemma paged_trans a c b d p (n1 n2 : Z -> Prop) s1 s2 s3 :
  a <= c <= b -> (forall va, n1 va -> n2 va) ->
  paged a c d p n1 s1 s2 -> paged c b d p n2 s2 s3 -> paged a b d p n2 s1 s3.
Proof.
  intros Hc Hn (_&G1&R1&K1) (W2&G2&R2&K2). split_and!; [done|by etrans|by etrans|].
  intros va Hva. specialize (K1 va Hva). specialize (K2 va Hva).
  destruct (decide (a <= va < c)), (decide (c <= va < b)), (decide (a <= va < b)); try lia.
  - destruct K1 as (?&?&?&?), K2 as [Kv Kp]. rewrite Kv, Kp. by split_and!; auto.
  - destruct K1 as [Kv Kp], K2 as (?&?&?&?). rewrite <- Kv, <- Kp. done.
  - by eapply kept_trans.
Qed.

(** One iteration of the install loop at the page [v]. *)
Lemma install_page s v d p t s1 l3 :
  pt_wf L s -> 0 <= v -> v + PAGE_SIZE <= 2 ^ 48 -> v mod PAGE_SIZE = 0 -> 0 <= v + d < 2 ^ 48 -> d mod PAGE_SIZE = 0 ->
  present s v = true -> tab s 2 (v / BLOCK_1GIB) = Some t ->
  pt_wf L s1 -> tabs_grow s s1 -> same_regs s s1 -> (forall va, 0 <= va -> kept s s1 va) ->
  tab s1 3 (v / BLOCK_2MIB) = Some l3 ->
  let a := entry_at l3 ((v / PAGE_SIZE) mod 512) in
  let nd := make_page_desc (v + d) p in
  paged v (v + PAGE_SIZE) d p (fun x => rd s1 a <> nd /\ v <= x < v + PAGE_SIZE) s
    (if rd s1 a =? nd then s1 else pte_store_release s1 a nd).
Proof.
  intros Hwf Hv0 Hv48 Hvm Hd Hdm Hp Ht W1 G1 R1 K1 Ht3 a nd.
  destruct (make_page_desc_spec (v + d) p) as (_ & Hnv & Hna & Hnp). fold nd in Hnv, Hna, Hnp.
  rewrite (page_addr_id (v + d)) in Hna; [|lia|unfold PAGE_SIZE, GUEST_PAGE_SIZE in *; clear -Hvm Hdm; zdm].
  set (q := v / PAGE_SIZE). rewrite <- page_div_512 in Ht3. fold q in Ht3.
  assert (Hq : forall x, v <= x < v + PAGE_SIZE <-> x / PAGE_SIZE = q)
    by (unfold q, PAGE_SIZE, GUEST_PAGE_SIZE in *; clear -Hvm; intros; split; intros; zdm).
  assert (Hview : forall x, v <= x < v + PAGE_SIZE -> page_view nd x = Some (x + d, norm_perms p)).
  { intros x Hx. unfold page_view. rewrite Hnv, Hna, Hnp. do 2 f_equal.
    unfold PAGE_SIZE, GUEST_PAGE_SIZE in *. clear -Hx Hvm. zdm. }
  assert (Hpres : forall x, v <= x < v + PAGE_SIZE -> present s x = true).
  { intros x Hx%Hq. unfold present in *. rewrite <- page_div_512, Hx. unfold q. by rewrite page_div_512. }
  assert (rd s1 a = ent s1 3 q) as Hrd by (by apply rd_ent).
  destruct (Z.eqb_spec (rd s1 a) nd) as [Heq|Hne].
  - split_and!; try done. intros x Hx. destruct (decide (v <= x < v + PAGE_SIZE)) as [Hin|]; [|by apply K1].
    destruct (K1 x Hx) as [Kv Kp]. rewrite Kp. split_and!; auto; try (by rewrite Kv).
    destruct (page_entry s1 x l3) as (_ & -> & _).
    { rewrite <- page_div_512. by rewrite (proj1 (Hq x) Hin). }
    rewrite (proj1 (Hq x) Hin), <- Hrd, Heq. by apply Hview.
  - destruct (page_store L s1 q l3 nd W1 Ht3) as (W2&G2&_&K2&V2).
    split_and!; [done|by etrans|done|].
    intros x Hx. destruct (decide (v <= x < v + PAGE_SIZE)) as [Hin|Hout].
    + destruct (V2 x (proj1 (Hq x) Hin)) as [Ev Ep], (K1 x Hx) as [_ Kp].
      change (entry_at l3 (q mod 512)) with a in Ev, Ep. rewrite Ev, Ep, Kp. split_and!; auto.
    + eapply kept_trans; [by apply K1|]. apply K2. by rewrite <- Hq.
Qed.

Lemma install_loop_spec p bcast e d : e <= 2 ^ 48 -> e + d <= 2 ^ 48 -> e mod PAGE_SIZE = 0 -> d mod PAGE_SIZE = 0 ->
  forall fuel s v lo hi, pt_wf L s -> 0 <= v <= e -> 0 <= v + d -> v mod PAGE_SIZE = 0 -> 0 <= lo ->
  (e - v) / PAGE_SIZE <= Z.of_nat fuel ->
  exists rc s' lo' hi' c, install_loop L fuel s p bcast v (v + d) e lo hi = Some (rc, s', lo', hi') /\
    v <= c <= e /\ paged v c d p (fun x => bcast = false -> lo' <= x < hi') s s' /\
    lo' <= lo /\ hi <= hi' /\ 0 <= lo' /\ hi' <= Z.max hi e /\
    ((rc = 0 /\ c = e) \/ (rc = -1 /\ (present s' c = false /\ c < e \/ pool_full L s'))).
Proof.
  intros He48 Hed Hem Hdm. unfold PAGE_SIZE, GUEST_PAGE_SIZE in *.
  induction fuel as [|fuel IH]; intros s v lo hi Hwf Hv Hvd Hvm Hlo Hf; cbn [install_loop];
    (destruct (Z.ltb_spec v e) as [Hlt|Hge];
     [|assert (v = e) as -> by lia; exists 0, s, lo, hi, e; split_and!; try done; try lia; by apply paged_refl]).
  { exfalso. clear -Hf Hlt Hvm Hem. zdm. }
  assert (fits64 v) as Hvf by (unfold fits64, two64; lia).
  assert (v + 4096 <= e) as Hve by (clear -Hlt Hvm Hem; zdm).
  rewrite find_l2_entry_spec by done. run.
  assert (Hfail : forall s1, pt_wf L s1 -> tabs_grow s s1 -> same_regs s s1 -> (forall va, 0 <= va -> kept s s1 va) ->
    (present s1 v = false /\ v < e \/ pool_full L s1) ->
    exists rc s' lo' hi' c, Some (-1, s1, lo, hi) = Some (rc, s', lo', hi') /\ v <= c <= e /\
      paged v c d p (fun x => bcast = false -> lo' <= x < hi') s s' /\
      lo' <= lo /\ hi <= hi' /\ 0 <= lo' /\ hi' <= Z.max hi e /\
      ((rc = 0 /\ c = e) \/ (rc = -1 /\ (present s' c = false /\ c < e \/ pool_full L s')))).
  { intros s1 W1 G1 R1 K1 Hc. exists (-1), s1, lo, hi, v. split_and!; try done; try lia; [|by right].
    split_and!; try done. intros va Hva. rewrite decide_False by lia. by apply K1. }
  destruct (tab s 2 (v / BLOCK_1GIB)) as [t|] eqn:Ht.
  2:{ apply Hfail; try done. left. split; [|lia]. unfold present, ent. by rewrite block_div_512, Ht. }
  pose proof (rd_ent s 2 (v / BLOCK_2MIB) t ltac:(by rewrite block_div_512)) as Hrd. rewrite Hrd.
  change PT_VALID with 1. destruct (has (ent s 2 (v / BLOCK_2MIB)) 1) eqn:Hp; cbn [negb].
  2:{ apply Hfail; try done. by left. }
  destruct (ensure_l3 s v t Hwf Hvf Ht Hp) as (rc & s1 & E & W1 & G1 & R1 & K1 & Hcase). cbv zeta in E.
  rewrite Hrd in E. rewrite align_block, E by done. run.
  destruct Hcase as [(-> & -> & Hfull)|(-> & l3 & Ht3 & Hpt)]; simpl (_ <? 0); cbv iota.
  { apply Hfail; auto. }
  rewrite Hpt. run. rewrite (base_add L s1 v W1 Hvf), l3_index_eq, (base_add L s1 (v + d) W1) by
    (done || unfold fits64, two64; lia).
  pose proof (install_page s v d p t s1 l3 Hwf ltac:(lia) ltac:(unfold PAGE_SIZE, GUEST_PAGE_SIZE; lia) Hvm ltac:(lia) Hdm
    Hp Ht W1 G1 R1 K1 Ht3) as Hpg. cbv zeta in Hpg. unfold PAGE_SIZE, GUEST_PAGE_SIZE in *.
  rewrite !add64_small by (unfold fits64, two64; lia). replace (v + d + 4096) with (v + 4096 + d) by lia.
  set (a := entry_at l3 (v / 4096 mod 512)) in *. set (nd := make_page_desc (v + d) p) in *.
  assert (forall s2 lo1 hi1, paged v (v + 4096) d p (fun x => bcast = false -> lo1 <= x < hi1) s s2 ->
    lo1 <= lo -> hi <= hi1 -> 0 <= lo1 -> hi1 <= Z.max hi (v + 4096) ->
    exists rc s' lo' hi' c, install_loop L fuel s2 p bcast (v + 4096) (v + 4096 + d) e lo1 hi1 = Some (rc, s', lo', hi') /\
    v <= c <= e /\ paged v c d p (fun x => bcast = false -> lo' <= x < hi') s s' /\
    lo' <= lo /\ hi <= hi' /\ 0 <= lo' /\ hi' <= Z.max hi e /\
    ((rc = 0 /\ c = e) \/ (rc = -1 /\ (present s' c = false /\ c < e \/ pool_full L s')))) as Hgo.
  { intros s2 lo1 hi1 HP2 B1 B2 B3 B4. pose proof HP2 as (W2&_).
    destruct (IH s2 (v + 4096) lo1 hi1 W2 ltac:(lia) ltac:(lia)) as (rc & s' & lo' & hi' & c & El & Hc & HP & A1 & A2 & A3 & A4 & A5);
      [clear -Hvm; zdm|lia|clear -Hf; zdm|].
    exists rc, s', lo', hi', c. split_and!; try done; try lia.
    eapply paged_trans; [| |exact HP2|exact HP]; [lia|]. simpl. intros va Hn Hb. specialize (Hn Hb). lia. }
  destruct (Z.eqb_spec (rd s1 a) nd) as [Heq|Hne]; cbn [negb].
  - apply Hgo; try lia. destruct Hpg as (?&?&?&K). split_and!; try done. intros va Hva. specialize (K va Hva).
    destruct (decide _); [|done]. destruct K as (?&?&?&Hn). split_and!; try done. intros Hch. by apply Hn in Hch as [? _].
  - destruct (note_change bcast lo hi v (v + 4096)) as [lo1 hi1] eqn:En.
    apply note_change_spec in En as (N1&N2&N3&N4&N5).
    apply Hgo; try lia. destruct Hpg as (?&?&?&K). split_and!; try done. intros va Hva. specialize (K va Hva).
    destruct (decide _); [|done]. destruct K as (?&?&?&Hn). split_and!; try done. intros Hch Hb.
    apply Hn in Hch as [_ ?]. specialize (N5 Hb). lia.
Qed.

(** What [guest_install_va_pages] promises.  A failure part-way leaves a prefix
    installed; only success covers the changed answers by a TLBI request. *)
Definition page_install_result (rej : Prop) (va len gpa p : Z) (s : guest_pt) (rc : Z) (s' : guest_pt) : Prop :=
  exists c, va <= c <= va + len /\ pt_wf L s' /\ tabs_grow s s' /\ retires s s' /\ ttbr0 s' = ttbr0 s /\
  (forall x, 0 <= x ->
    if decide (va <= x < c)
    then present s x = true /\ present s' x = true /\
         vmap s' x = Some (gpa + (x - va), norm_perms p) /\
         (rc = 0 -> vmap s' x <> vmap s x -> covers (cpu_tlbi_req s') x)
    else kept s s' x) /\
  ((rc = 0 /\ c = va + len /\ pt_gen s' = (pt_gen s + 1)%u64) \/
   (rc = -1 /\ pt_gen s' = pt_gen s /\
    (rej \/ (present s c = false /\ c < va + len) \/ pool_full L s'))).

Lemma page_install_rejected (rej : Prop) va len gpa p s :
  pt_wf L s -> 0 <= len -> rej -> page_install_result rej va len gpa p s (-1) s.
Proof.
  intros. exists va. split_and!; try done; try lia; [apply retires_refl| |right; auto].
  intros x _. by rewrite decide_False by lia.
Qed.

Lemma install_va_pages_spec s va len gpa p :
  pt_wf L s -> 0 <= va -> 0 <= len -> 0 <= gpa -> va + len <= 2 ^ 48 -> gpa + len <= 2 ^ 48 ->
  exists rc s', guest_install_va_pages L s va len gpa p = Some (rc, s') /\
    page_install_result (len = 0 \/ Z.land (Z.lor (Z.lor va len) gpa) (PAGE_SIZE - 1) <> 0 \/
        (has p MEM_PERM_X = true /\ guest_kbuf_user_va_overlap va len = true))
      va len gpa p s rc s'.
Proof.
  intros Hwf Hva Hlen Hgpa Hv48 Hg48. unfold guest_install_va_pages.
  destruct (Z.eqb_spec len 0) as [H0|H0].
  { do 2 eexists. split; [done|]. apply page_install_rejected; auto. }
  destruct (Z.eqb_spec (Z.land (Z.lor (Z.lor va len) gpa) (PAGE_SIZE - 1)) 0) as [Hal|Hal]; cbn [negb].
  2:{ do 2 eexists. split; [done|]. apply page_install_rejected; auto. }
  rewrite sub64_small by (unfold fits64, two64, UINT64_MAX; lia).
  rewrite (proj2 (Z.ltb_ge (UINT64_MAX - len) va)), (proj2 (Z.ltb_ge (UINT64_MAX - len) gpa))
    by (unfold UINT64_MAX; lia). cbn [orb].
  destruct (has p MEM_PERM_X && guest_kbuf_user_va_overlap va len) eqn:Hk.
  { apply andb_prop in Hk. do 2 eexists. split; [done|]. apply page_install_rejected; auto. }
  rewrite (add64_small va len) by (unfold fits64, two64; lia).
  destruct (lor3_aligned va len gpa 12 ltac:(lia) Hal) as (A1&A2&A3).
  destruct (mark_icache_spec L p s Hwf) as (W0&G0&K0&R0&T0&P0&B0). rewrite <- B0.
  set (s0 := tlbi_mark_icache_if p s) in *. set (bcast := tlbi_request_is_broadcast (cpu_tlbi_req s0)).
  destruct (install_loop_spec p bcast (va + len) (gpa - va) Hv48 ltac:(lia)
    ltac:(clear -A1 A2; unfold PAGE_SIZE, GUEST_PAGE_SIZE; zdm) ltac:(clear -A1 A3; unfold PAGE_SIZE, GUEST_PAGE_SIZE; zdm)
    (Z.to_nat (len / PAGE_SIZE)) s0 va UINT64_MAX 0 W0 ltac:(lia) ltac:(lia) A1 ltac:(done))
    as (rc & s1 & lo & hi & c & El & Hc & (W1&G1&S1&K1) & L1 & L2 & L3 & L4 & Hrc).
  { replace (va + len - va) with len by lia. rewrite Z2Nat.id; [lia|].
    clear -Hlen. unfold PAGE_SIZE, GUEST_PAGE_SIZE. zdm. }
  replace (va + (gpa - va)) with gpa in El by lia. rewrite El. run. pose proof S1 as (T1&_&_&P1&C1).
  assert (retires s s1) as Ret1 by (eapply retires_trans; [done|by apply retires_same]).
  destruct Hrc as [[-> ->]|[-> Hbad]]; simpl (_ <? 0); cbv iota; do 2 eexists; (split; [done|]).
  - destruct (flush_changes_spec L s1 0 lo hi W1 eq_refl L3) as (W2&G2&K2&R2&T2&P2&C2);
      [unfold two64; lia|unfold two64, UINT64_MAX in *; lia|].
    rewrite C1 in *. fold bcast in W2, G2, K2, R2, T2, P2, C2. set (s2 := flush_changes _ _ _ _ _ _) in *.
    destruct (gen_bump_spec L s2 W2) as (W3&G3&K3&R3&T3&P3&C3).
    exists (va + len). split_and!; try done; try lia; [by repeat (etrans; [eassumption|])
      |by repeat (eapply retires_trans; [eassumption|])| |left; split_and!; [done|done|congruence]].
    intros x Hx. specialize (K1 x Hx). destruct (K3 x) as [Kv Kp], (K2 x) as [Kv2 Kp2], (K0 x) as [Kv0 Kp0].
    rewrite Kv, Kp, Kv2, Kp2, <- Kv0, <- Kp0. destruct (decide _).
    + destruct K1 as (?&?&Hv&Hn). split_and!; try done; [rewrite Hv; do 2 f_equal; lia|].
      intros _ Hch. rewrite C3. apply C2. by apply Hn.
    + destruct K1. split; congruence.
  - exists c. split_and!; try done; try lia; [by etrans| |].
    + intros x Hx. specialize (K1 x Hx). destruct (K0 x) as [Kv0 Kp0]. rewrite <- Kv0, <- Kp0.
      destruct (decide _); [|destruct K1; split; congruence].
      destruct K1 as (?&?&Hv&_). split_and!; try done. rewrite Hv. do 2 f_equal. lia.
    + right. split_and!; [done|congruence|]. right. destruct Hbad as [[Hb Hlt]|?]; [left|by right].
      split; [|done]. specialize (K1 c ltac:(lia)). rewrite decide_False in K1 by lia.
      destruct K1 as [_ Kp], (K0 c) as [_ Kp0]. congruence.
Qed.

End Pages.
