(* ===== verification/PtSpecs.v ===== *)
(** * What the page-table operations promise

    The theorems the memory syscalls rely on, each about a whole function of
    src/core/guest.c, with the concrete tables of a small guest as witnesses. *)

From S2P Require Import Prelude Tlbi Regions PageTable DescFacts PtStruct PtView PtOps PtPages.

(** ** Concrete tables *)

(** [probe E f v as H] evaluates the observation [f] of the outcome of the run
    that [E] names; [v] is the value found. *)
Tactic Notation "probe" constr(E) constr(f) constr(v) "as" simple_intropattern(H) :=
  lazymatch type of E with
  | ?run = Some (?rc, ?s) =>
      let X := fresh in
      assert (option_map f run = Some v) as X by (vm_compute; reflexivity);
      rewrite E in X; cbn [option_map] in X; injection X as H
  end.

#[local] Notation at_ va := (fun r : Z * guest_pt => vmap (snd r) va).

(** A root table whose entries are all invalid is well formed. *)
Lemma empty_root_wf L s :
  layout_ok L -> pt_pool_base L <= ttbr0 s -> ttbr0 s mod 4096 = 0 -> ttbr0 s + 4096 <= pt_pool_next s ->
  pt_pool_next s <= pt_pool_end L -> pt_pool_next s mod 4096 = 0 ->
  (forall i, 0 <= i < 512 -> rd s (entry_at (ttbr0 s) i) = 0) ->
  tlbi_wf (g_tlbi_range_supported L) (cpu_tlbi_req s) -> pt_wf L s.
Proof.
  intros HL Hr Hra Hrn Hn Hna Hz Ht.
  assert (forall l q, tab s (S l) q = None) as Htab.
  { induction l as [|l IH]; intros q; rewrite tab_S; unfold ent.
    - simpl. destruct (q / 512 =? 0); [|done]. rewrite Hz by (by apply Z.mod_pos_bound). done.
    - by rewrite IH. }
  assert (forall l q, ent s l q = 0) as Hent.
  { intros [|l] q; unfold ent.
    - simpl. destruct (q / 512 =? 0); [|done]. by rewrite Hz by (by apply Z.mod_pos_bound).
    - by rewrite Htab. }
  assert (forall l q t, tab s l q = Some t -> l = 0%nat /\ q = 0 /\ t = ttbr0 s) as Hroot.
  { intros [|l] q t Hl; [|by rewrite Htab in Hl]. simpl in Hl. destruct (Z.eqb_spec q 0); by simplify_eq. }
  split; try done; try lia.
  - intros l q t _ (->&->&->)%Hroot. done.
  - intros l q l' q' t _ _ (->&->&_)%Hroot (->&->&_)%Hroot. done.
  - intros l q _. by rewrite Hent.
  - intros q. by rewrite Hent.
Qed.

(** A 64 MiB guest whose pool holds eight pages from 1 MiB on. *)
Definition ex_layout : layout := mk_layout 67108864 0 1048576 1081344 false.

Lemma ex_layout_ok : layout_ok ex_layout.
Proof. split; vm_compute; intuition congruence. Qed.

Definition ex_pt0 : guest_pt :=
  mk_pt (fun _ => 0) 1052672 1048576 0 0 7 (mk_tlbi TLBI_NONE false 0 0).

Lemma ex_pt0_wf : pt_wf ex_layout ex_pt0.
Proof. apply empty_root_wf; (apply ex_layout_ok || done || (vm_compute; intuition congruence)). Qed.

(** Four blocks of RW data mapped at 4 MiB. *)
Definition ex_pt1 : guest_pt :=
  match guest_extend_page_tables ex_layout ex_pt0 4194304 12582912 3 with
  | Some (_, s) => s
  | None => ex_pt0
  end.

Lemma ex_pt1_wf : pt_wf ex_layout ex_pt1.
Proof.
  destruct (extend_spec ex_layout ex_pt0 4194304 12582912 3 ex_pt0_wf) as (rc & s & E & Hwf & _); [done..|].
  unfold ex_pt1. by rewrite E.
Qed.

(** ** Descriptors *)

(** A page or block descriptor reads back as what it was built from: the
    output address (of an aligned address inside the 48-bit space) and the
    permissions, where every mapping is readable and EL1-only data is writable
    and never executable. *)
Theorem descriptor_roundtrip (pa perms : Z) :
  0 <= pa < 2 ^ 48 -> pa mod PAGE_SIZE = 0 ->
  Z.land (make_page_desc pa perms) GVA_PT_ADDR_MASK = pa /\
  desc_to_perms (make_page_desc pa perms) = norm_perms perms /\
  Z.land (make_page_desc pa perms) 3 = PT_L3_PAGE /\
  (pa mod BLOCK_2MIB = 0 ->
   Z.land (make_block_desc pa perms) L2_BLOCK_ADDR_MASK = pa /\
   desc_to_perms (make_block_desc pa perms) = norm_perms perms /\
   Z.land (make_block_desc pa perms) 3 = PT_BLOCK).
Proof.
  intros Hpa Hal. destruct (make_page_desc_spec pa perms) as (?&_&?&?).
  destruct (make_block_desc_spec pa perms) as (?&_&?&?).
  pose proof (page_addr_id pa Hpa Hal). pose proof (block_addr_id pa Hpa).
  do 3 (split; [done || congruence|]). intros Hb. split; [|done]. transitivity (Z.land pa L2_BLOCK_ADDR_MASK); auto.
Qed.

Lemma descriptor_roundtrip_witness :
  Z.land (make_page_desc 4198400 5) GVA_PT_ADDR_MASK = 4198400 /\
  desc_to_perms (make_page_desc 4198400 5) = 5.
Proof. destruct (descriptor_roundtrip 4198400 5) as (?&?&_); [lia|done|]. by split. Defined.

(** ** Extending the identity map *)

(** [guest_extend_page_tables] on a well-formed state always returns.  Every
    address keeps its answer, or lies in an unmapped block of the rounded range
    and now maps to itself with the requested permissions; on success every
    block of the range is mapped, every new mapping is covered by the pending
    TLBI request and the generation counter moved; failure means a range
    outside the slab or an exhausted table pool. *)
Theorem guest_extend_page_tables_correct (L : layout) (s : guest_pt) (start end_ perms : Z) :
  pt_wf L s -> fits64 start -> fits64 end_ ->
  exists rc s', guest_extend_page_tables L s start end_ perms = Some (rc, s') /\
    install_result L (guest_size L <= start \/ guest_size L < end_)
      (ALIGN_2MIB_DOWN start) (ALIGN_2MIB_UP end_) (fun x => x) perms s rc s'.
Proof. apply extend_spec. Qed.

Lemma guest_extend_page_tables_correct_witness :
  exists s', guest_extend_page_tables ex_layout ex_pt0 4194304 12582912 3 = Some (0, s') /\
    vmap s' 6295552 = Some (6295552, 3) /\ vmap s' 12582912 = None /\
    covers (cpu_tlbi_req s') 6295552.
Proof.
  destruct (guest_extend_page_tables_correct ex_layout ex_pt0 4194304 12582912 3 ex_pt0_wf)
    as (rc & s' & E & _ & _ & _ & _ & _ & K & _); [done..|].
  exists s'. probe E (@fst Z guest_pt) 0 as ->. probe E (at_ 6295552) (Some (6295552, 3)) as Hv1.
  probe E (at_ 12582912) (@None (Z * Z)) as Hv2.
  split; [exact E|]. split; [exact Hv1|]. split; [exact Hv2|].
  destruct (K 6295552 ltac:(lia)) as [[Hk _]|(_ & _ & Hc)]; [|by apply Hc].
  cbn [snd] in Hv1. rewrite Hv1 in Hk. vm_compute in Hk. done.
Defined.

(** ** Non-identity mappings *)

(** [guest_map_va_range] maps exactly the unmapped blocks of a 2 MiB-aligned
    virtual range to the given physical range, in order, and nothing else, with
    the same guarantees on TLBI coverage, generation and failure. *)
Theorem guest_map_va_range_correct (L : layout) (s : guest_pt) (va_base va_limit gpa_start perms : Z) :
  pt_wf L s -> fits64 va_base -> va_limit <= 2 ^ 48 -> fits64 gpa_start ->
  gpa_start + (va_limit - va_base) <= 2 ^ 48 ->
  exists rc s', guest_map_va_range L s va_base va_limit gpa_start perms = Some (rc, s') /\
    install_result L (va_limit <= va_base \/
        Z.land (Z.lor (Z.lor va_base va_limit) gpa_start) (BLOCK_2MIB - 1) <> 0)
      va_base va_limit (fun x => gpa_start + (x - va_base)) perms s rc s'.
Proof. apply map_va_range_spec. Qed.

Lemma guest_map_va_range_correct_witness :
  exists s', guest_map_va_range ex_layout ex_pt1 140737488355328 140737490452480 16777216 5 = Some (0, s') /\
    vmap s' 140737488355428 = Some (16777316, 5) /\ vmap s' 4194304 = Some (4194304, 3).
Proof.
  destruct (guest_map_va_range_correct ex_layout ex_pt1 140737488355328 140737490452480 16777216 5 ex_pt1_wf)
    as (rc & s' & E & _); [conc..|].
  exists s'. probe E (@fst Z guest_pt) 0 as ->.
  probe E (at_ 140737488355428) (Some (16777316, 5)) as ?. probe E (at_ 4194304) (Some (4194304, 3)) as ?.
  split; [exact E|]. split_and!; assumption.
Defined.

(** ** Splitting a block *)

(** splitting the 2 MiB block around a mapped address either fails because
    the pool is exhausted and changes nothing, or leaves a table of page
    entries; in both cases no address changes its answer. *)
Theorem guest_split_block_preserves (L : layout) (s : guest_pt) (va t : Z) :
  pt_wf L s -> fits64 va -> tab s 2 (va / BLOCK_1GIB) = Some t -> present s va = true ->
  exists rc s', guest_split_block L s va = Some (rc, s') /\ pt_wf L s' /\
  (forall x, 0 <= x -> vmap s' x = vmap s x /\ present s' x = present s x) /\
  ((rc = -1 /\ s' = s /\ pool_full L s) \/ (rc = 0 /\ exists l3, tab s' 3 (va / BLOCK_2MIB) = Some l3)).
Proof.
  intros Hwf Hva Ht Hp.
  destruct (guest_split_block_spec L s va t Hwf Hva Ht Hp) as (rc & s' & E & W & _ & _ & K & Hc).
  exists rc, s'. split_and!; try done. destruct Hc as [?|(?&l3&?&?)]; [by left|right; eauto].
Qed.

Lemma guest_split_block_preserves_witness :
  exists s', guest_split_block ex_layout ex_pt1 6295552 = Some (0, s') /\
    vmap s' 6295552 = vmap ex_pt1 6295552.
Proof.
  destruct (guest_split_block_preserves ex_layout ex_pt1 6295552 1056768 ex_pt1_wf)
    as (rc & s' & E & _ & K & Hc); [conc|vm_compute; reflexivity|vm_compute; reflexivity|].
  exists s'. probe E (@fst Z guest_pt) 0 as ->.
  split; [exact E|]. apply K. lia.
Defined.

(** ** Invalidation *)

(** C28: [guest_invalidate_ptes] on a range inside the 48-bit space always
    returns.  On success no address of the page-rounded range is mapped, every
    other address keeps its answer, every address that lost its mapping is
    covered by the pending TLBI request, and the generation counter moved.  It
    fails only when splitting a partly covered block finds the pool exhausted,
    and then a prefix of the range has been invalidated. *)
Theorem guest_invalidate_ptes_correct (L : layout) (s : guest_pt) (start end_ : Z) :
  pt_wf L s -> fits64 start -> 0 <= end_ <= 2 ^ 48 ->
  let a := ALIGN_DOWN start PAGE_SIZE in
  let b := PAGE_ALIGN_UP end_ in
  exists rc s', guest_invalidate_ptes L s start end_ = Some (rc, s') /\
    (if b <=? a then rc = 0 /\ s' = s else range_result L False inval_rel a b s rc s').
Proof. apply invalidate_spec. Qed.

Lemma guest_invalidate_ptes_correct_witness :
  exists s', guest_invalidate_ptes ex_layout ex_pt1 4198400 6295552 = Some (0, s') /\
    range_result ex_layout False inval_rel 4198400 6295552 ex_pt1 0 s' /\
    vmap s' 4194304 = Some (4194304, 3) /\ vmap s' 4198400 = None.
Proof.
  destruct (guest_invalidate_ptes_correct ex_layout ex_pt1 4198400 6295552 ex_pt1_wf)
    as (rc & s' & E & HR); [conc..|].
  exists s'. probe E (@fst Z guest_pt) 0 as ->.
  probe E (at_ 4194304) (Some (4194304, 3)) as ?. probe E (at_ 4198400) (@None (Z * Z)) as ?.
  split; [exact E|]. split_and!; assumption.
Defined.

(** ** Permission changes *)

(** C27: [guest_update_perms] on a range inside the 48-bit space always returns.
    On success every address of the page-rounded range whose block is present
    maps where it did (a page that had been invalidated is rebuilt from the
    region tracker) with exactly the new permissions, addresses in absent
    blocks stay unmapped, nothing outside the range changes, and changed answers
    are covered by the pending TLBI request.  It fails only for an executable
    mapping of the kbuf alias or an exhausted pool. *)
Theorem guest_update_perms_correct (L : layout) (regs : list guest_region_t) (s : guest_pt)
    (start end_ perms : Z) :
  pt_wf L s -> fits64 start -> 0 <= end_ <= 2 ^ 48 ->
  let a := ALIGN_DOWN start PAGE_SIZE in
  let b := PAGE_ALIGN_UP end_ in
  exists rc s', guest_update_perms L regs s start end_ perms = Some (rc, s') /\
    (if b <=? a then rc = 0 /\ s' = s
     else range_result L (has perms MEM_PERM_X = true /\ guest_kbuf_user_va_overlap a (b - a) = true)
            (perm_rel L regs perms) a b s rc s').
Proof. apply update_perms_spec. Qed.

Lemma guest_update_perms_correct_witness :
  exists s', guest_update_perms ex_layout [] ex_pt1 4198400 6291456 5 = Some (0, s') /\
    vmap s' 4194304 = Some (4194304, 3) /\ vmap s' 4198400 = Some (4198400, 5) /\
    vmap s' 6291456 = Some (6291456, 3).
Proof.
  destruct (guest_update_perms_correct ex_layout [] ex_pt1 4198400 6291456 5 ex_pt1_wf)
    as (rc & s' & E & HR); [conc..|].
  exists s'. probe E (@fst Z guest_pt) 0 as ->.
  probe E (at_ 4194304) (Some (4194304, 3)) as ?. probe E (at_ 4198400) (Some (4198400, 5)) as ?.
  probe E (at_ 6291456) (Some (6291456, 3)) as ?. split; [exact E|]. split_and!; assumption.
Defined.

(** ** Installing pages *)

(** [guest_install_va_pages] installs the pages of an aligned range that lies
    in present blocks, in order and with exactly the requested permissions, and
    changes no other address; on success the changed answers are covered by the
    pending TLBI request.  It fails for malformed arguments, an executable kbuf
    alias, a hole in the present blocks, or an exhausted pool. *)
Theorem guest_install_va_pages_correct (L : layout) (s : guest_pt) (va len gpa perms : Z) :
  pt_wf L s -> 0 <= va -> 0 <= len -> 0 <= gpa -> va + len <= 2 ^ 48 -> gpa + len <= 2 ^ 48 ->
  exists rc s', guest_install_va_pages L s va len gpa perms = Some (rc, s') /\
    page_install_result L (len = 0 \/ Z.land (Z.lor (Z.lor va len) gpa) (PAGE_SIZE - 1) <> 0 \/
        (has perms MEM_PERM_X = true /\ guest_kbuf_user_va_overlap va len = true))
      va len gpa perms s rc s'.
Proof. apply install_va_pages_spec. Qed.

Lemma guest_install_va_pages_correct_witness :
  exists s', guest_install_va_pages ex_layout ex_pt1 4198400 8192 20480 3 = Some (0, s') /\
    vmap s' 4198401 = Some (20481, 3) /\ vmap s' 4206592 = Some (4206592, 3).
Proof.
  destruct (guest_install_va_pages_correct ex_layout ex_pt1 4198400 8192 20480 3 ex_pt1_wf)
    as (rc & s' & E & _); [lia..|].
  exists s'. probe E (@fst Z guest_pt) 0 as ->.
  probe E (at_ 4198401) (Some (20481, 3)) as ?. probe E (at_ 4206592) (Some (4206592, 3)) as ?.
  split; [exact E|]. split_and!; assumption.
Defined.
