(* ===== verification/Gva.v ===== *)
(** * Guest pointers: src/proved/gva.h and the walkers of src/core/guest.c

    A guest address given to a system call is translated by a software walk of
    the page tables, through a one-entry per-thread cache, to an offset in the
    slab or in one of the extra IPA ranges, and from there to a host pointer.
    [guest_t] holds what the walkers read besides the tables of [PageTable]. *)

From S2P Require Import Prelude Tlbi Regions PageTable.

(** ** src/proved/gva.h *)

(** The offset the caller receives, [None] for the 0 result. *)
Definition gva_pt_table_offset (desc base guest_size : Z) : option Z :=
  let ipa := Z.land desc GVA_PT_ADDR_MASK in
  if ipa <? base then None
  else
    let candidate := (ipa - base)%u64 in
    if (guest_size <? GVA_PT_TABLE_BYTES) || ((guest_size - GVA_PT_TABLE_BYTES)%u64 <? candidate)
    then None else Some candidate.

(** [*gpa] and [*chunk], [None] for the 0 result. *)
Definition gva_leaf_target (ipa base gva granule : Z) : option (Z * Z) :=
  if ipa <? base then None
  else
    let offset := gva mod granule in
    Some (((ipa - base) + offset)%u64, (granule - offset)%u64).

Definition gva_chunk_clamp (chunk gpa region_end limit total : Z) : Z :=
  let chunk := if (region_end - gpa)%u64 <? chunk then (region_end - gpa)%u64 else chunk in
  if (limit - total)%u64 <? chunk then (limit - total)%u64 else chunk.

Definition gva_span_ok (gva len : Z) : bool :=
  if len =? 0 then false else gva <=? (UINT64_MAX - len)%u64.

(** ** The guest's backing memory *)

Record guest_mapping_t := mk_mapping {
  m_gpa : Z;
  m_host_va : Z;
  m_size : Z;
  m_hv_perms : Z;
  m_owns_host : bool
}.

Record guest_overflow_t := mk_overflow {
  o_host_base : Z;
  o_ipa_start : Z;
  o_size : Z;
  o_next : Z
}.

Definition GUEST_MAX_MAPPINGS : nat := 8.
Definition GUEST_MAX_OVERFLOW : nat := 4.
Definition GUEST_OVERFLOW_SIZE : Z := 1073741824.

(** [g_id] is the address of the [guest_t]; [mappings] and [overflow] are the
    arrays up to [n_mappings] and [noverflow]. *)
Record guest_t := mk_guest {
  g_id : Z;
  g_layout : layout;
  host_base : Z;
  mappings : list guest_mapping_t;
  overflow : list guest_overflow_t;
  overflow_ipa_next : Z
}.

Definition set_mappings (l : list guest_mapping_t) (g : guest_t) : guest_t :=
  mk_guest (g_id g) (g_layout g) (host_base g) l (overflow g) (overflow_ipa_next g).
Definition set_overflow (l : list guest_overflow_t) (n : Z) (g : guest_t) : guest_t :=
  mk_guest (g_id g) (g_layout g) (host_base g) (mappings g) l n.

Definition in_mapping (gpa : Z) (m : guest_mapping_t) : bool :=
  (m_gpa m <=? gpa) && (gpa <? (m_gpa m + m_size m)%u64).
Definition in_overflow (gpa : Z) (o : guest_overflow_t) : bool :=
  (o_ipa_start o <=? gpa) && (gpa <? (o_ipa_start o + o_size o)%u64).

Definition guest_find_mapping (g : guest_t) (gpa : Z) : option guest_mapping_t :=
  if gpa <? guest_size (g_layout g) then None else List.find (in_mapping gpa) (mappings g).

Definition guest_find_overflow (g : guest_t) (gpa : Z) : option guest_overflow_t :=
  if gpa <? guest_size (g_layout g) then None else List.find (in_overflow gpa) (overflow g).

(** ** The per-thread translation cache *)

Record gva_tlb_t := mk_gva_tlb {
  t_owner : Z;
  t_base_gva : Z;
  t_base_gpa : Z;
  t_size : Z;
  t_perms : Z;
  t_gen : Z
}.

Definition guest_tlb_flush (t : gva_tlb_t) : gva_tlb_t :=
  mk_gva_tlb (t_owner t) (t_base_gva t) (t_base_gpa t) 0 (t_perms t) (t_gen t).

(** [gva_translation_t]: offset and bytes left in the granule. *)
Notation gva_translation_t := (Z * Z)%type (only parsing).

Definition tlb_hit (g : guest_t) (gen : Z) (t : gva_tlb_t) (gva required : Z) : bool :=
  negb (t_size t =? 0) && (t_owner t =? g_id g) && (t_gen t =? gen) &&
  (t_base_gva t <=? gva) && ((gva - t_base_gva t)%u64 <? t_size t) &&
  (Z.land required (t_perms t) =? required).

(** The tail shared by the page and the block branch: permissions, target,
    backing, and the new cache entry. *)
Definition translate_leaf (g : guest_t) (gen : Z) (t : gva_tlb_t) (gva required desc ipa granule : Z)
    : option gva_translation_t * gva_tlb_t :=
  let base := ipa_base (g_layout g) in
  let perms := desc_to_perms desc in
  if has perms MEM_PERM_EL1_ONLY then (None, t)
  else if negb (Z.land perms required =? required) then (None, t)
  else
    match gva_leaf_target ipa base gva granule with
    | None => (None, t)
    | Some (gpa, chunk) =>
        if (guest_size (g_layout g) <=? gpa) &&
           match guest_find_mapping g gpa with None => true | _ => false end &&
           match guest_find_overflow g gpa with None => true | _ => false end
        then (None, t)
        else (Some (gpa, chunk),
              mk_gva_tlb (g_id g) (Z.land gva (not64 (granule - 1))) (ipa - base)%u64 granule perms gen)
    end.

(** The inner [None] is the -1 result; the outer one the abort of [pt_at]. *)
Definition gva_translate_perm (g : guest_t) (s : guest_pt) (t : gva_tlb_t) (gva required : Z)
    : option (option gva_translation_t * gva_tlb_t) :=
  let L := g_layout g in
  let gen := pt_gen s in
  if tlb_hit g gen t gva required then
    Some (Some ((t_base_gpa t + (gva - t_base_gva t))%u64, ((t_base_gva t + t_size t) - gva)%u64), t)
  else
    let base := ipa_base L in
    l0 ← pt_at L (ttbr0 s - base)%u64;
    let l0_idx := u32 (gva / (512 * BLOCK_1GIB)) in
    if 512 <=? l0_idx then Some (None, t)
    else
      let l0e := rd s (entry_at l0 l0_idx) in
      if negb (has l0e PT_VALID) then Some (None, t)
      else
        match gva_pt_table_offset l0e base (guest_size L) with
        | None => Some (None, t)
        | Some l1_off =>
            l1 ← pt_at L l1_off;
            let l1e := rd s (entry_at l1 (u32 ((gva / BLOCK_1GIB) mod 512))) in
            if negb (has l1e PT_VALID) then Some (None, t)
            else
              match gva_pt_table_offset l1e base (guest_size L) with
              | None => Some (None, t)
              | Some l2_off =>
                  l2 ← pt_at L l2_off;
                  let l2e := rd s (entry_at l2 (u32 ((gva / BLOCK_2MIB) mod 512))) in
                  if negb (has l2e PT_VALID) then Some (None, t)
                  else if has l2e PT_TABLE then
                    match gva_pt_table_offset l2e base (guest_size L) with
                    | None => Some (None, t)
                    | Some l3_off =>
                        l3 ← pt_at L l3_off;
                        let l3e := rd s (entry_at l3 (u32 ((gva / PAGE_SIZE) mod 512))) in
                        if negb (has l3e PT_VALID) then Some (None, t)
                        else
                          Some (translate_leaf g gen t gva required l3e (Z.land l3e GVA_PT_ADDR_MASK)
                                  PAGE_SIZE)
                    end
                  else
                    Some (translate_leaf g gen t gva required l2e (Z.land l2e L2_BLOCK_ADDR_MASK)
                            BLOCK_2MIB)
              end
        end.

(** ** Contiguous extent *)

(** End of the backing region of [gpa]; [None] when nothing backs it. *)
Definition region_end (g : guest_t) (gpa : Z) : option Z :=
  if gpa <? guest_size (g_layout g) then Some (guest_size (g_layout g))
  else
    match guest_find_mapping g gpa with
    | Some m => Some (m_gpa m + m_size m)%u64
    | None =>
        match guest_find_overflow g gpa with
        | Some o => Some (o_ipa_start o + o_size o)%u64
        | None => None
        end
    end.

(** Loop state: [total], [next_gva], [expect_gpa], [cur] and the cache. *)
Record avail_state := mk_avail {
  av_total : Z;
  av_next_gva : Z;
  av_expect_gpa : Z;
  av_cur : gva_translation_t;
  av_tlb : gva_tlb_t
}.

Definition avail_body (g : guest_t) (s : guest_pt) (required limit : Z) (x : avail_state)
    : avail_state + option (Z * gva_tlb_t) :=
  let '(mk_avail total next_gva expect_gpa cur t) := x in
  let '(cur_gpa, cur_chunk) := cur in
  match region_end g cur_gpa with
  | None => inr (Some (total, t))
  | Some rend =>
      if rend <=? cur_gpa then inr (Some (total, t))
      else
        let chunk := gva_chunk_clamp cur_chunk cur_gpa rend limit total in
        let total := (total + chunk)%u64 in
        if total =? limit then inr (Some (total, t))
        else if chunk <? cur_chunk then inr (Some (total, t))
        else if (UINT64_MAX - chunk)%u64 <? next_gva then inr (Some (total, t))
        else
          let next_gva := (next_gva + chunk)%u64 in
          if (UINT64_MAX - chunk)%u64 <? expect_gpa then inr (Some (total, t))
          else
            let expect_gpa := (expect_gpa + chunk)%u64 in
            match gva_translate_perm g s t next_gva required with
            | None => inr None
            | Some (None, t) => inr (Some (total, t))
            | Some (Some cur, t) =>
                if negb (fst cur =? expect_gpa) then inr (Some (total, t))
                else inl (mk_avail total next_gva expect_gpa cur t)
            end
  end.

(** Every iteration adds at least one byte to [total], which stays at most
    [limit]. *)
Definition gva_contiguous_avail (g : guest_t) (s : guest_pt) (t : gva_tlb_t) (gva required : Z)
    (first : gva_translation_t) (limit : Z) : option (Z * gva_tlb_t) :=
  if limit =? 0 then Some (0, t)
  else loop (limit + 1) (avail_body g s required limit) (mk_avail 0 gva (fst first) first t).

(** ** Host pointers *)

(** The pointer ([None] for NULL) and [*avail], which is 0 when the caller
    passes no [avail] pointer ([want] is false). *)
Definition gva_resolve_perm (g : guest_t) (s : guest_pt) (t : gva_tlb_t) (gva : Z) (want : bool)
    (required avail_limit : Z) : option (option (Z * Z) * gva_tlb_t) :=
  '(first, t) ← gva_translate_perm g s t gva required;
  match first with
  | None => Some (None, t)
  | Some first =>
      '(bytes, t) ← (if want then gva_contiguous_avail g s t gva required first avail_limit
                     else Some (0, t));
      let gpa := fst first in
      let clamp cap := if bytes <? cap then bytes else cap in
      if gpa <? guest_size (g_layout g) then
        Some (Some (host_base g + gpa, clamp (guest_size (g_layout g) - gpa)%u64), t)
      else
        match guest_find_mapping g gpa with
        | Some m =>
            Some (Some (m_host_va m + (gpa - m_gpa m)%u64, clamp ((m_gpa m + m_size m) - gpa)%u64), t)
        | None =>
            match guest_find_overflow g gpa with
            | Some o =>
                Some (Some (o_host_base o + (gpa - o_ipa_start o)%u64,
                            clamp ((o_ipa_start o + o_size o) - gpa)%u64), t)
            | None => Some (None, t)
            end
        end
  end.
