(* ===== verification/GvaFacts.v ===== *)
(** * The guest-pointer walkers against the address map

    [haddr g s req gva] is what a guest access means: the host address of the
    byte that the tables map at [gva], when EL0 holds the permissions [req]
    there and the output address is backed by host memory.  The lemmas show that
    the cached walk computes it. *)

From S2P Require Import Prelude Tlbi Regions PageTable DescFacts PtStruct PtView Gva.

(** ** Backing memory *)

Definition backing (g : guest_t) (gpa : Z) : option Z :=
  if gpa <? guest_size (g_layout g) then Some (host_base g + gpa)
  else
    match guest_find_mapping g gpa with
    | Some m => Some (m_host_va m + (gpa - m_gpa m))
    | None =>
        match guest_find_overflow g gpa with
        | Some o => Some (o_host_base o + (gpa - o_ipa_start o))
        | None => None
        end
    end.

Definition grants (perms required : Z) : bool :=
  negb (has perms MEM_PERM_EL1_ONLY) && (Z.land perms required =? required).

Definition haddr (g : guest_t) (s : guest_pt) (required gva : Z) : option Z :=
  match vmap s gva with
  | Some (gpa, p) => if grants p required then backing g gpa else None
  | None => None
  end.

(** The extra ranges: above the slab, inside the 64-bit space, disjoint. *)
Definition m_range (m : guest_mapping_t) : Z * Z := (m_gpa m, m_gpa m + m_size m).
Definition o_range (o : guest_overflow_t) : Z * Z := (o_ipa_start o, o_ipa_start o + o_size o).
Definition ranges (g : guest_t) : list (Z * Z) := map m_range (mappings g) ++ map o_range (overflow g).

Definition apart (a b : Z * Z) : Prop := snd a <= fst b \/ snd b <= fst a.
Definition range_ok (lo : Z) (r : Z * Z) : Prop := lo <= fst r /\ fst r < snd r < two64.

Record backing_ok (g : guest_t) : Prop := {
  bo_size : 0 <= guest_size (g_layout g);
  bo_ranges : forall r, r ∈ ranges g -> range_ok (guest_size (g_layout g)) r;
  bo_apart : forall i j a b, ranges g !! i = Some a -> ranges g !! j = Some b -> i <> j -> apart a b
}.

(** A predicate that holds of one element only is found at that element. *)
Lemma find_unique {A} (p : A -> bool) (l : list A) i x :
  l !! i = Some x -> p x = true -> (forall j y, l !! j = Some y -> p y = true -> j = i) ->
  List.find p l = Some x.
Proof.
  revert i. induction l as [|y l IH]; intros i Hi Hp Hu; [done|]. simpl.
  destruct (p y) eqn:Hy.
  - rewrite <- (Hu 0%nat y) in Hi by done. by simplify_eq/=.
  - destruct i as [|i]; simplify_eq/=; [congruence|]. apply (IH i); [done..|].
    intros j z Hj Hz. by injection (Hu (S j) z Hj Hz).
Qed.

Lemma find_lookup {A} (p : A -> bool) (l : list A) x :
  List.find p l = Some x -> exists i, l !! i = Some x /\ p x = true.
Proof.
  induction l as [|y l IH]; [done|]. simpl. destruct (p y) eqn:Hy.
  - intros. simplify_eq. by exists 0%nat.
  - intros (i & ? & ?)%IH. by exists (S i).
Qed.

Lemma find_none_all {A} (p : A -> bool) (l : list A) i x :
  List.find p l = None -> l !! i = Some x -> p x = false.
Proof. intros Hn Hi. apply (List.find_none _ _ Hn), list_elem_of_In. by eapply list_elem_of_lookup_2. Qed.

Section Backing.
Context (g : guest_t) (Hok : backing_ok g).

Lemma mapping_lookup i m : mappings g !! i = Some m -> ranges g !! i = Some (m_range m).
Proof. intros H. apply lookup_app_l_Some. by rewrite list_lookup_fmap, H. Qed.

Lemma overflow_lookup i o : overflow g !! i = Some o ->
  ranges g !! (length (mappings g) + i)%nat = Some (o_range o).
Proof.
  intros H. unfold ranges. rewrite lookup_app_r by (rewrite length_map; lia). rewrite length_map.
  replace (length (mappings g) + i - length (mappings g))%nat with i by lia.
  by rewrite list_lookup_fmap, H.
Qed.

Lemma in_mapping_range i m x : mappings g !! i = Some m ->
  in_mapping x m = true <-> fst (m_range m) <= x < snd (m_range m).
Proof.
  intros Hi. pose proof (bo_ranges g Hok (m_range m)) as Hr.
  destruct Hr as (?&?&?); [by eapply list_elem_of_lookup_2, mapping_lookup|].
  unfold in_mapping. cbn [m_range fst snd] in *. pose proof (bo_size g Hok).
  rewrite add64_small, andb_true_iff, Z.leb_le, Z.ltb_lt by (unfold fits64; lia). done.
Qed.

Lemma in_overflow_range i o x : overflow g !! i = Some o ->
  in_overflow x o = true <-> fst (o_range o) <= x < snd (o_range o).
Proof.
  intros Hi. pose proof (bo_ranges g Hok (o_range o)) as Hr.
  destruct Hr as (?&?&?); [by eapply list_elem_of_lookup_2, overflow_lookup|].
  unfold in_overflow. cbn [o_range fst snd] in *. pose proof (bo_size g Hok).
  rewrite add64_small, andb_true_iff, Z.leb_le, Z.ltb_lt by (unfold fits64; lia). done.
Qed.

(** At most one range holds an address. *)
Lemma range_unique i j a b x :
  ranges g !! i = Some a -> ranges g !! j = Some b ->
  fst a <= x < snd a -> fst b <= x < snd b -> i = j.
Proof.
  intros Hi Hj Ha Hb. destruct (decide (i = j)) as [|Hne]; [done|].
  destruct (bo_apart g Hok _ _ _ _ Hi Hj Hne); lia.
Qed.

Lemma find_mapping_at i m x : mappings g !! i = Some m -> m_gpa m <= x < m_gpa m + m_size m ->
  guest_find_mapping g x = Some m.
Proof.
  intros Hi Hx. unfold guest_find_mapping.
  destruct (bo_ranges g Hok (m_range m)) as (?&?&?); [by eapply list_elem_of_lookup_2, mapping_lookup|].
  rewrite (proj2 (Z.ltb_ge _ _)) by (cbn in *; lia).
  eapply (find_unique _ _ i); [done|by apply (in_mapping_range i)|].
  intros j y Hj Hy. apply (in_mapping_range j) in Hy; [|done].
  eapply range_unique; [by apply mapping_lookup|by apply mapping_lookup|exact Hy|done].
Qed.

Lemma find_overflow_at i o x : overflow g !! i = Some o -> o_ipa_start o <= x < o_ipa_start o + o_size o ->
  guest_find_mapping g x = None /\ guest_find_overflow g x = Some o.
Proof.
  intros Hi Hx. unfold guest_find_mapping, guest_find_overflow.
  destruct (bo_ranges g Hok (o_range o)) as (?&?&?); [by eapply list_elem_of_lookup_2, overflow_lookup|].
  rewrite (proj2 (Z.ltb_ge _ _)) by (cbn in *; lia). split.
  - destruct (List.find _ _) as [m|] eqn:E; [exfalso|done].
    apply find_lookup in E as (j & Hj & Hm). apply (in_mapping_range j) in Hm; [|done].
    pose proof (range_unique _ _ _ _ x (mapping_lookup _ _ Hj) (overflow_lookup _ _ Hi) Hm Hx).
    apply lookup_lt_Some in Hj. lia.
  - eapply (find_unique _ _ i); [done|by apply (in_overflow_range i)|].
    intros j y Hj Hy. apply (in_overflow_range j) in Hy; [|done].
    enough ((length (mappings g) + j)%nat = (length (mappings g) + i)%nat) by lia.
    eapply range_unique; [by apply overflow_lookup|by apply overflow_lookup|exact Hy|done].
Qed.

Lemma find_mapping_bounds x m : guest_find_mapping g x = Some m ->
  0 <= m_gpa m <= x /\ x < m_gpa m + m_size m < two64 /\ guest_size (g_layout g) <= m_gpa m /\
  exists i, mappings g !! i = Some m.
Proof.
  unfold guest_find_mapping. destruct (x <? _); [done|]. intros (i & Hi & Hm)%find_lookup.
  apply (in_mapping_range i) in Hm; [|done]. pose proof (bo_size g Hok).
  destruct (bo_ranges g Hok (m_range m)) as (?&?&?); [by eapply list_elem_of_lookup_2, mapping_lookup|].
  cbn in *. split_and!; try lia. by exists i.
Qed.

Lemma find_overflow_bounds x o : guest_find_overflow g x = Some o ->
  0 <= o_ipa_start o <= x /\ x < o_ipa_start o + o_size o < two64 /\
  guest_size (g_layout g) <= o_ipa_start o /\ exists i, overflow g !! i = Some o.
Proof.
  unfold guest_find_overflow. destruct (x <? _); [done|]. intros (i & Hi & Hm)%find_lookup.
  apply (in_overflow_range i) in Hm; [|done]. pose proof (bo_size g Hok).
  destruct (bo_ranges g Hok (o_range o)) as (?&?&?); [by eapply list_elem_of_lookup_2, overflow_lookup|].
  cbn in *. split_and!; try lia. by exists i.
Qed.

(** The region around a backed address is backed contiguously up to its end. *)
Lemma backing_region gpa :
  0 <= gpa ->
  match region_end g gpa with
  | Some e => exists h, backing g gpa = Some h /\ gpa < e < two64 + guest_size (g_layout g) /\
              forall x, gpa <= x < e -> backing g x = Some (h + (x - gpa)) /\ region_end g x = Some e
  | None => backing g gpa = None
  end.
Proof.
  intros H0. pose proof (bo_size g Hok). unfold region_end.
  destruct (Z.ltb_spec gpa (guest_size (g_layout g))) as [Hlt|Hge].
  { eexists. unfold backing. rewrite (proj2 (Z.ltb_lt _ _) Hlt). split; [done|]. split; [unfold two64; lia|].
    intros x Hx. rewrite (proj2 (Z.ltb_lt _ _)) by lia. split; [f_equal; lia|done]. }
  destruct (guest_find_mapping g gpa) as [m|] eqn:Em.
  { destruct (find_mapping_bounds gpa m Em) as (?&?&?&i&Hi). rewrite add64_small by (unfold fits64; lia).
    eexists. unfold backing at 1. rewrite (proj2 (Z.ltb_ge _ _) Hge), Em. split; [done|]. split; [lia|].
    intros x Hx. unfold backing. rewrite (proj2 (Z.ltb_ge _ _)) by lia.
    rewrite (find_mapping_at i m x) by (done || lia). rewrite add64_small by (unfold fits64; lia).
    split; [f_equal; lia|done]. }
  destruct (guest_find_overflow g gpa) as [o|] eqn:Eo.
  2:{ unfold backing. by rewrite (proj2 (Z.ltb_ge _ _) Hge), Em, Eo. }
  destruct (find_overflow_bounds gpa o Eo) as (?&?&?&i&Hi). rewrite add64_small by (unfold fits64; lia).
  eexists. unfold backing at 1. rewrite (proj2 (Z.ltb_ge _ _) Hge), Em, Eo. split; [done|]. split; [lia|].
  intros x Hx. unfold backing. rewrite (proj2 (Z.ltb_ge _ _)) by lia.
  destruct (find_overflow_at i o x) as [-> ->]; [done|lia|]. rewrite add64_small by (unfold fits64; lia).
  split; [f_equal; lia|done].
Qed.

End Backing.

(** ** One translation *)

(** [[gva, gva + n)] maps to [[gpa, gpa + n)] with permissions [p]. *)
Definition maps_run (s : guest_pt) (gva gpa p n : Z) : Prop :=
  forall i, 0 <= i < n -> vmap s (gva + i) = Some (gpa + i, p).

(** A live cache entry describes a whole page or block of the tables. *)
Record live_tlb (s : guest_pt) (t : gva_tlb_t) : Prop := {
  lt_size : t_size t = PAGE_SIZE \/ t_size t = BLOCK_2MIB;
  lt_gva : 0 <= t_base_gva t /\ t_base_gva t mod t_size t = 0 /\ t_base_gva t + t_size t <= 2 ^ 48;
  lt_gpa : 0 <= t_base_gpa t /\ t_base_gpa t + t_size t <= 2 ^ 48;
  lt_perms : has (t_perms t) MEM_PERM_EL1_ONLY = false;
  lt_map : maps_run s (t_base_gva t) (t_base_gpa t) (t_perms t) (t_size t)
}.

(** Only an entry of this guest and of the current generation is used. *)
Definition tlb_ok (g : guest_t) (s : guest_pt) (t : gva_tlb_t) : Prop :=
  t_size t <> 0 -> t_owner t = g_id g -> t_gen t = pt_gen s -> live_tlb s t.

(** What a translation may answer. *)
Definition translates (g : guest_t) (s : guest_pt) (required gva : Z) (r : option (Z * Z)) : Prop :=
  match r with
  | Some (gpa, chunk) => exists p,
      grants p required = true /\ 1 <= chunk <= BLOCK_2MIB /\ (gva + chunk) mod PAGE_SIZE = 0 /\
      gva + chunk <= 2 ^ 48 /\ 0 <= gpa /\ gpa + chunk <= 2 ^ 48 /\ maps_run s gva gpa p chunk
  | None => haddr g s required gva = None
  end.

Lemma translates_vmap g s required gva gpa chunk :
  translates g s required gva (Some (gpa, chunk)) -> haddr g s required gva = backing g gpa.
Proof.
  intros (p & Hg & Hc & _ & _ & _ & _ & Hr). unfold haddr.
  specialize (Hr 0 ltac:(lia)). rewrite !Z.add_0_r in Hr. by rewrite Hr, Hg.
Qed.

Lemma mod_shift x n y : 0 < n -> x mod n = 0 -> (x + y) mod n = y mod n.
Proof. intros Hn Hx. by rewrite Z.add_mod, Hx, Z.add_0_l, Z.mod_mod by lia. Qed.

Lemma mod_trans_page x n : n = PAGE_SIZE \/ n = BLOCK_2MIB -> x mod n = 0 -> x mod PAGE_SIZE = 0.
Proof. unfold PAGE_SIZE, GUEST_PAGE_SIZE, BLOCK_2MIB. intros [-> | ->]; zdm. Qed.

Section Translate.
Context (g : guest_t) (s : guest_pt) (Hwf : pt_wf (g_layout g) s).

Lemma hit_spec t gva required :
  tlb_ok g s t -> tlb_hit g (pt_gen s) t gva required = true -> fits64 gva ->
  translates g s required gva
    (Some ((t_base_gpa t + (gva - t_base_gva t))%u64, ((t_base_gva t + t_size t) - gva)%u64)).
Proof.
  intros Hok Hh Hf. unfold tlb_hit in Hh. unbool.
  destruct Hok as [Hs (Hb0 & Hbm & Hb) (Hp0 & Hp) He Hm]; [done..|].
  assert (fits64 (gva - t_base_gva t)) as Hd by (unfold fits64, two64 in *; lia).
  rewrite (sub64_small gva (t_base_gva t)) in * by done.
  assert (1 <= t_size t <= BLOCK_2MIB) by (unfold PAGE_SIZE, GUEST_PAGE_SIZE, BLOCK_2MIB in *; lia).
  rewrite (add64_small (t_base_gpa t)) by (unfold fits64, two64 in *; lia).
  rewrite sub64_small by (unfold fits64, two64 in *; lia).
  exists (t_perms t). split_and!; try lia.
  - unfold grants. rewrite He. cbn [negb andb]. rewrite Z.land_comm. by apply Z.eqb_eq.
  - replace (gva + _) with (t_base_gva t + t_size t) by lia. apply (mod_trans_page _ (t_size t) Hs).
    rewrite Z.add_mod, Hbm, Z_mod_same_full by lia. done.
  - intros i Hi. replace (gva + i) with (t_base_gva t + (gva - t_base_gva t + i)) by lia.
    rewrite Hm by lia. do 2 f_equal. lia.
Qed.

(** The tail of the walk at a leaf that maps the granule around [gva]. *)
Lemma leaf_spec t gva required desc ipa granule :
  tlb_ok g s t -> 0 <= gva < 2 ^ 48 -> granule = PAGE_SIZE \/ granule = BLOCK_2MIB ->
  0 <= ipa < 2 ^ 48 -> ipa mod granule = 0 ->
  maps_run s (gva - gva mod granule) ipa (desc_to_perms desc) granule ->
  exists r t', translate_leaf g (pt_gen s) t gva required desc ipa granule = (r, t') /\
    tlb_ok g s t' /\ translates g s required gva r.
Proof.
  intros Hok Hva Hgr Hipa Hal Hm. unfold translate_leaf, gva_leaf_target.
  rewrite (lo_base _ (wf_layout _ _ Hwf)).
  set (p := desc_to_perms desc) in *.
  assert (0 < granule <= BLOCK_2MIB /\ 0 <= gva mod granule < granule /\
          (gva - gva mod granule) mod granule = 0 /\ gva - gva mod granule + granule <= 2 ^ 48 /\
          ipa + granule <= 2 ^ 48 /\ 0 <= gva - gva mod granule) as (Hg0 & Hmod & Hba & Hbe & Hie & Hb0).
  { clear -Hgr Hva Hipa Hal. unfold PAGE_SIZE, GUEST_PAGE_SIZE, BLOCK_2MIB in *. destruct Hgr as [-> | ->]; zdm. }
  assert (vmap s gva = Some (ipa + gva mod granule, p)) as Hv.
  { rewrite <- (Hm (gva mod granule)) by lia. f_equal. lia. }
  destruct (has p MEM_PERM_EL1_ONLY) eqn:He.
  { exists None, t. split_and!; try done. unfold translates, haddr, grants. by rewrite Hv, He. }
  destruct (Z.eqb_spec (Z.land p required) required) as [Hr|Hr]; cbn [negb].
  2:{ exists None, t. split_and!; try done. unfold translates, haddr, grants.
      by rewrite Hv, He, (proj2 (Z.eqb_neq _ _) Hr). }
  rewrite (proj2 (Z.ltb_ge ipa 0)), sub64_0_r, Z.sub_0_r by (unfold fits64, two64; lia).
  unfold PAGE_SIZE, GUEST_PAGE_SIZE, BLOCK_2MIB in Hg0.
  rewrite add64_small, sub64_small by (unfold fits64, two64; lia).
  assert (Z.land gva (not64 (granule - 1)) = gva - gva mod granule) as ->.
  { destruct Hgr as [-> | ->]; [apply (land_not_ones gva 12)|apply (land_not_ones gva 21)];
      unfold fits64, two64; lia. }
  case_if.
  { exists None, t. split_and!; try done. unfold translates, haddr, backing.
    rewrite Hv. case_if; [|done]. apply andb_prop in Heqb as [[Hs E1]%andb_prop E2]. apply Z.leb_le in Hs.
    rewrite (proj2 (Z.ltb_ge _ _) Hs).
    destruct (guest_find_mapping _ _); [done|]. by destruct (guest_find_overflow _ _). }
  do 2 eexists. split; [done|]. split.
  - intros _ _ _. split; cbn; [done|split_and!; done|lia|done|done].
  - exists p. split_and!; try lia.
    + unfold grants. rewrite He, Hr. by rewrite Z.eqb_refl.
    + unfold BLOCK_2MIB. lia.
    + apply (mod_trans_page _ granule Hgr).
      replace (gva + (granule - gva mod granule)) with ((gva - gva mod granule) + granule) by lia.
      rewrite mod_shift by (done || lia). apply Z_mod_same_full.
    + intros i Hi. replace (gva + i) with (gva - gva mod granule + (gva mod granule + i)) by lia.
      rewrite Hm by lia. do 2 f_equal. lia.
Qed.

(** The walk's bound on a table descriptor accepts every table. *)
Lemma table_offset_spec l q t : (l <= 2)%nat -> tab s (S l) q = Some t ->
  gva_pt_table_offset (ent s l q) (ipa_base (g_layout g)) (guest_size (g_layout g)) = Some t /\
  pt_at (g_layout g) t = Some t.
Proof.
  intros Hl Ht. destruct (wf_tab_bounds _ s (S l) q t Hwf ltac:(lia) Ht) as (?&?&?&?&?).
  split; [|apply pt_at_ok; [apply Hwf|lia..]].
  rewrite tab_S in Ht. unfold tnext in Ht. destruct (Z.eqb_spec (Z.land (ent s l q) 3) 3); [|done].
  injection Ht as <-. unfold gva_pt_table_offset. fold (desc_table (ent s l q)).
  rewrite (lo_base _ (wf_layout _ _ Hwf)), sub64_0_r by done.
  pose proof (lo_size _ (wf_layout _ _ Hwf)). unfold GVA_PT_TABLE_BYTES.
  rewrite sub64_small by (unfold fits64, two64; lia).
  rewrite (proj2 (Z.ltb_ge _ 0)), (proj2 (Z.ltb_ge _ 4096)), (proj2 (Z.ltb_ge _ (desc_table _))) by lia. done.
Qed.

Lemma vmap_no_table gva : tab s 2 (gva / BLOCK_1GIB) = None -> vmap s gva = None.
Proof. intros H. unfold vmap, ent at 1. by rewrite block_div_512, H. Qed.

Lemma vmap_no_entry gva : has (ent s 2 (gva / BLOCK_2MIB)) 1 = false -> vmap s gva = None.
Proof. intros H. unfold vmap. by rewrite H. Qed.

Lemma haddr_unmapped required gva : vmap s gva = None -> haddr g s required gva = None.
Proof. intros H. unfold haddr. by rewrite H. Qed.

(** The block and the page around an address answer alike. *)
Lemma div_granule x n i : 0 < n -> 0 <= i < n -> (x - x mod n + i) / n = x / n /\ (x - x mod n + i) mod n = i.
Proof.
  intros Hn Hi. pose proof (Z.div_mod x n ltac:(lia)).
  replace (x - x mod n + i) with (i + (x / n) * n) by lia.
  rewrite Z.div_add, Z.mod_add, Z.div_small, Z.mod_small by lia. lia.
Qed.

Lemma block_run gva : let e := ent s 2 (gva / BLOCK_2MIB) in
  has e 1 = true -> has e 2 = false ->
  maps_run s (gva - gva mod BLOCK_2MIB) (Z.land e L2_BLOCK_ADDR_MASK) (desc_to_perms e) BLOCK_2MIB.
Proof.
  intros e Hv Ht i Hi. unfold vmap. destruct (div_granule gva BLOCK_2MIB i ltac:(done) Hi) as [-> ->].
  fold e. rewrite Hv. destruct (Z.eqb_spec (Z.land e 3) 3) as [E|]; [|done].
  apply desc_kind in E as [_ E]. congruence.
Qed.

Lemma page_run gva : let e := ent s 3 (gva / PAGE_SIZE) in
  has (ent s 2 (gva / BLOCK_2MIB)) 1 = true -> has (ent s 2 (gva / BLOCK_2MIB)) 2 = true -> has e 1 = true ->
  maps_run s (gva - gva mod PAGE_SIZE) (Z.land e GVA_PT_ADDR_MASK) (desc_to_perms e) PAGE_SIZE.
Proof.
  intros e Hv Ht He i Hi. unfold vmap. rewrite <- page_div_512.
  destruct (div_granule gva PAGE_SIZE i ltac:(done) Hi) as [-> ->].
  rewrite page_div_512. fold e. rewrite Hv, He, (proj2 (proj1 (desc_kind _))) by done. done.
Qed.

Lemma translate_spec t gva required :
  tlb_ok g s t -> fits64 gva ->
  exists r t', gva_translate_perm g s t gva required = Some (r, t') /\
    tlb_ok g s t' /\ translates g s required gva r.
Proof.
  intros Hok Hf. unfold gva_translate_perm.
  destruct (tlb_hit g (pt_gen s) t gva required) eqn:Eh.
  { do 2 eexists. split; [done|]. split; [done|by apply hit_spec]. }
  rewrite (pt_at_tab _ s 0 0 _ Hwf ltac:(lia) (wf_root s)). run.
  change (512 * BLOCK_1GIB) with BLOCK_512GIB. fold (l0_index gva). rewrite l0_index_eq by done.
  set (q := gva / BLOCK_1GIB).
  assert (0 <= q) by (unfold q, BLOCK_1GIB, fits64 in *; zdm).
  assert (forall x, u32 (x mod 512) = x mod 512) as Hu by (intros; unfold u32; zdm). rewrite !Hu. clear Hu.
  assert (Hnone : vmap s gva = None -> exists r t', Some (@None (Z * Z), t) = Some (r, t') /\
    tlb_ok g s t' /\ translates g s required gva r).
  { intros Hn. exists None, t. split_and!; try done. by apply haddr_unmapped. }
  destruct (Z.leb_spec 512 (q / 512)) as [Hbig|Hsm].
  { apply Hnone, vmap_no_table. fold q. pose proof (proj2 (tab_high s q _ Hbig)) as E.
    by replace (q / 512 * 512 + q mod 512) with q in E by zdm. }
  assert (0 <= gva < 2 ^ 48) as Hva by (clear -Hf Hsm; unfold q, BLOCK_1GIB, fits64 in *; zdm).
  destruct (descend _ s 0 (q / 512) (ttbr0 s) Hwf ltac:(lia)) as [Hr0 H0]; [apply tab1_root; zdm|].
  replace (q / 512 mod 512) with (q / 512) in Hr0 by zdm. rewrite Hr0. change PT_VALID with 1.
  destruct (has (ent s 0 (q / 512)) 1); cbn [negb].
  2:{ apply Hnone, vmap_no_table. fold q. rewrite tab_S. unfold ent. by rewrite H0. }
  destruct H0 as (t1 & Ht1 & _ & _). destruct (table_offset_spec 0 _ _ ltac:(lia) Ht1) as [-> ->]. run.
  destruct (descend _ s 1 q t1 Hwf ltac:(lia) Ht1) as [Hr1 H1]. rewrite Hr1.
  destruct (has (ent s 1 q) 1); cbn [negb].
  2:{ by apply Hnone, vmap_no_table. }
  destruct H1 as (t2 & Ht2 & _ & _). destruct (table_offset_spec 1 _ _ ltac:(lia) Ht2) as [-> ->]. run.
  rewrite (rd_ent s 2) by (by rewrite block_div_512).
  destruct (has (ent s 2 (gva / BLOCK_2MIB)) 1) eqn:Hv2; cbn [negb].
  2:{ by apply Hnone, vmap_no_entry. }
  change PT_TABLE with 2. destruct (has (ent s 2 (gva / BLOCK_2MIB)) 2) eqn:Hk2.
  - assert (tab s 3 (gva / BLOCK_2MIB) = Some (desc_table (ent s 2 (gva / BLOCK_2MIB)))) as Ht3.
    { rewrite tab_S. unfold tnext. by rewrite (proj2 (proj1 (desc_kind _))). }
    destruct (table_offset_spec 2 _ _ ltac:(lia) Ht3) as [-> ->]. run.
    rewrite (rd_ent s 3) by (by rewrite page_div_512).
    destruct (has (ent s 3 (gva / PAGE_SIZE)) 1) eqn:Hv3; cbn [negb].
    2:{ apply Hnone. unfold vmap. by rewrite Hv2, (proj2 (proj1 (desc_kind _))), Hv3. }
    destruct (leaf_spec t gva required (ent s 3 (gva / PAGE_SIZE))
                (Z.land (ent s 3 (gva / PAGE_SIZE)) GVA_PT_ADDR_MASK) PAGE_SIZE Hok Hva)
      as (r & t' & -> & ?); [by left|apply page_addr_range..|by apply page_run|]. by exists r, t'.
  - destruct (leaf_spec t gva required (ent s 2 (gva / BLOCK_2MIB))
                (Z.land (ent s 2 (gva / BLOCK_2MIB)) L2_BLOCK_ADDR_MASK) BLOCK_2MIB Hok Hva)
      as (r & t' & -> & ?); [by right|apply block_addr_range..|by apply block_run|]. by exists r, t'.
Qed.

End Translate.

(** ** Contiguous extents and host pointers *)

Section Resolve.
Context (g : guest_t) (s : guest_pt) (Hwf : pt_wf (g_layout g) s) (Hbk : backing_ok g).

(** [[gva, gva + n)] maps to [[gpa, gpa + n)], readable or writable as asked. *)
Definition granted_run (required gva gpa n : Z) : Prop :=
  forall i, 0 <= i < n -> exists p, vmap s (gva + i) = Some (gpa + i, p) /\ grants p required = true.

Record avail_inv (required gva gpa limit : Z) (x : avail_state) : Prop := {
  ai_total : 0 <= av_total x < limit;
  ai_gva : av_next_gva x = gva + av_total x;
  ai_gpa : av_expect_gpa x = gpa + av_total x;
  ai_cur : fst (av_cur x) = gpa + av_total x;
  ai_here : translates g s required (gva + av_total x) (Some (av_cur x));
  ai_tlb : tlb_ok g s (av_tlb x);
  ai_run : granted_run required gva gpa (av_total x)
}.

Definition avail_post (required gva gpa limit : Z) (r : Z * gva_tlb_t) : Prop :=
  0 <= fst r <= limit /\ tlb_ok g s (snd r) /\ granted_run required gva gpa (fst r) /\
  (backing g gpa <> None -> 1 <= fst r).

Lemma clamp_spec chunk gpa rend limit total :
  1 <= chunk <= BLOCK_2MIB -> 0 <= gpa < rend -> rend < two64 -> 0 <= total < limit -> limit < two64 ->
  let c := gva_chunk_clamp chunk gpa rend limit total in
  1 <= c /\ c <= chunk /\ c <= rend - gpa /\ c <= limit - total.
Proof.
  intros Hc Hg Hr Ht Hl. cbv zeta. unfold gva_chunk_clamp.
  rewrite !sub64_small by (unfold fits64; lia).
  destruct (Z.ltb_spec (rend - gpa) chunk); case_ifs; lia.
Qed.

Lemma granted_run_extend required gva gpa n p c :
  granted_run required gva gpa n -> grants p required = true -> maps_run s (gva + n) (gpa + n) p c ->
  granted_run required gva gpa (n + c).
Proof.
  intros Hr Hg Hm i Hi. destruct (decide (i < n)); [apply Hr; lia|]. exists p. split; [|done].
  replace (gva + i) with (gva + n + (i - n)) by lia. rewrite Hm by lia. do 2 f_equal. lia.
Qed.

Lemma region_end_bound gpa e : 0 <= gpa -> region_end g gpa = Some e -> gpa < e < two64.
Proof.
  intros H0 He. pose proof (backing_region g Hbk gpa H0) as Hb. rewrite He in Hb.
  destruct Hb as (_ & _ & Hb & _). split; [lia|]. revert He. unfold region_end.
  pose proof (lo_size _ (wf_layout _ _ Hwf)).
  destruct (gpa <? _); [intros; simplify_eq; unfold two64; lia|].
  destruct (guest_find_mapping g gpa); [intros; simplify_eq; apply wrap64_fits|].
  destruct (guest_find_overflow g gpa); intros; simplify_eq. apply wrap64_fits.
Qed.

Lemma avail_step required gva gpa limit x :
  0 <= gva -> fits64 limit -> avail_inv required gva gpa limit x ->
  match avail_body g s required limit x with
  | inl y => avail_inv required gva gpa limit y /\ 0 <= limit - av_total y < limit - av_total x
  | inr (Some r) => avail_post required gva gpa limit r
  | inr None => False
  end.
Proof.
  destruct x as [total next expect [cg cc] t].
  intros Hgva Hlim [Ht Hn He Hc (p & Hg & Hk & Hal & Hend & Hp0 & Hpe & Hm) Htlb Hrun]. cbn in Ht, Hn, He, Hc, Hk, Hal, Hend, Hp0, Hpe, Hm, Htlb, Hrun.
  subst next expect cg. cbn [avail_body].
  pose proof (backing_region g Hbk (gpa + total) Hp0) as Hb.
  destruct (region_end g (gpa + total)) as [rend|] eqn:Er.
  2:{ split_and!; cbn; try done; try lia. intros Hne. destruct (decide (total = 0)) as [->|]; [|lia].
      by rewrite Z.add_0_r in Hb. }
  pose proof (region_end_bound _ _ Hp0 Er) as [Hre1 Hre2]. clear Hb.
  rewrite (proj2 (Z.leb_gt _ _) Hre1).
  pose proof (clamp_spec cc (gpa + total) rend limit total Hk) as Hcl. cbv zeta in Hcl.
  destruct Hcl as (Hc1 & Hc2 & Hc3 & Hc4); [lia|done|done|unfold fits64 in Hlim; lia|].
  set (c := gva_chunk_clamp cc (gpa + total) rend limit total) in *. clearbody c.
  assert (granted_run required gva gpa (total + c)) as Hrun'.
  { eapply granted_run_extend; [done|done|]. intros i Hi. apply Hm. lia. }
  unfold fits64, BLOCK_2MIB in *. rewrite (add64_small total) by (unfold fits64; lia).
  assert (forall t', tlb_ok g s t' -> avail_post required gva gpa limit (total + c, t')) as Hstop.
  { intros t' Ht'. split_and!; cbn; try done; lia. }
  destruct (Z.eqb_spec (total + c) limit); [by apply Hstop|].
  destruct (Z.ltb_spec c cc); [by apply Hstop|].
  rewrite !(sub64_small UINT64_MAX) by (unfold fits64, two64, UINT64_MAX; lia).
  destruct (Z.ltb_spec (UINT64_MAX - c) (gva + total)); [by apply Hstop|].
  destruct (Z.ltb_spec (UINT64_MAX - c) (gpa + total)); [by apply Hstop|].
  rewrite !add64_small by (unfold fits64, two64, UINT64_MAX in *; lia).
  destruct (translate_spec g s Hwf t (gva + total + c) required Htlb) as (r & t' & -> & Ht' & Hr);
    [unfold fits64, two64, UINT64_MAX in *; lia|].
  destruct r as [[cg' cc']|]; [|by apply Hstop]. cbn [fst].
  destruct (Z.eqb_spec cg' (gpa + total + c)) as [->|]; cbn [negb]; [|by apply Hstop].
  split; [|cbn; lia]. split; cbn; try done; try lia. by rewrite Z.add_assoc.
Qed.

Lemma contiguous_spec t gva required first limit :
  0 <= gva -> fits64 limit -> 1 <= limit -> tlb_ok g s t -> translates g s required gva (Some first) ->
  exists r, gva_contiguous_avail g s t gva required first limit = Some r /\
    avail_post required gva (fst first) limit r.
Proof.
  intros Hgva Hlim Hl Ht Hf. unfold gva_contiguous_avail. rewrite (proj2 (Z.eqb_neq limit 0)) by lia.
  eapply (loop_rule _ (avail_inv required gva (fst first) limit) (fun x => limit - av_total x));
    [|split|]; cbn; rewrite ?Z.add_0_r; try done; try lia.
  - intros x Hx. by apply avail_step.
  - intros i Hi. lia.
Qed.

(** What a resolved pointer stands for. *)
Definition resolves (required limit gva : Z) (want : bool) (r : option (Z * Z)) : Prop :=
  match r with
  | Some (h, avail) =>
      haddr g s required gva = Some h /\ 0 <= avail <= limit /\ (want = true -> 1 <= limit -> 1 <= avail) /\
      forall i, 0 <= i < avail -> haddr g s required (gva + i) = Some (h + i)
  | None => haddr g s required gva = None
  end.

(** The clamp of [gva_resolve_perm] to the end of the region of the first byte. *)
Lemma resolve_clamp required limit gva want gpa bytes e h :
  region_end g gpa = Some e -> backing g gpa = Some h -> 0 <= gpa ->
  haddr g s required gva = Some h -> 0 <= bytes <= limit -> granted_run required gva gpa bytes ->
  (want = true -> 1 <= limit -> 1 <= bytes) ->
  resolves required limit gva want (Some (h, if bytes <? (e - gpa)%u64 then bytes else (e - gpa)%u64)).
Proof.
  intros He Hb Hg Hh Hby Hrun Hw. pose proof (region_end_bound _ _ Hg He).
  rewrite sub64_small by (unfold fits64; lia).
  pose proof (backing_region g Hbk gpa Hg) as Hr. rewrite He in Hr. destruct Hr as (h' & Hb' & _ & Hr).
  simplify_eq. split_and!; [done|case_ifs; lia..|intros Hw1 Hl; specialize (Hw Hw1 Hl); case_ifs; lia|].
  intros i Hi. assert (i < bytes /\ i < e - gpa) as [? ?] by (revert Hi; case_ifs; lia).
  destruct (Hrun i ltac:(lia)) as (p & Hv & Hp). unfold haddr. rewrite Hv, Hp.
  destruct (Hr (gpa + i)) as [-> _]; [lia|]. f_equal. lia.
Qed.

Lemma resolve_spec t gva want required limit :
  tlb_ok g s t -> fits64 gva -> fits64 limit ->
  exists r t', gva_resolve_perm g s t gva want required limit = Some (r, t') /\
    tlb_ok g s t' /\ resolves required limit gva want r.
Proof.
  intros Ht Hgva Hlim. unfold gva_resolve_perm.
  destruct (translate_spec g s Hwf t gva required Ht Hgva) as (r & t1 & -> & Ht1 & Hr). run.
  destruct r as [[gpa chunk]|]; [|by exists None, t1].
  pose proof (translates_vmap _ _ _ _ _ _ Hr) as Hh.
  assert (0 <= gpa) as Hg0 by (by destruct Hr as (?&_&_&_&_&?&_)).
  assert (exists bytes t2,
    (if want then gva_contiguous_avail g s t1 gva required (gpa, chunk) limit else Some (0, t1)) = Some (bytes, t2) /\
    tlb_ok g s t2 /\ 0 <= bytes <= limit /\ granted_run required gva gpa bytes /\
    (backing g gpa <> None -> want = true -> 1 <= limit -> 1 <= bytes)) as (bytes & t2 & -> & Ht2 & Hby & Hrun & Hw).
  { unfold fits64 in Hgva, Hlim. destruct want; [|exists 0, t1; split_and!; try done; try lia; intros i Hi; lia].
    destruct (decide (limit = 0)) as [->|].
    { exists 0, t1. split_and!; try done; try lia. intros i Hi; lia. }
    destruct (contiguous_spec t1 gva required (gpa, chunk) limit) as ([b t2] & E & Hp & Hq & Hr' & Hs); try done; try lia.
    cbn [fst snd] in *. exists b, t2. split_and!; try done; try lia. intros. by apply Hs. }
  run. cbn [fst].
  assert (forall h e cap, region_end g gpa = Some e -> backing g gpa = Some h -> cap = (e - gpa)%u64 ->
    resolves required limit gva want (Some (h, if bytes <? cap then bytes else cap))) as Hcl.
  { intros h e cap He Hbg ->. apply resolve_clamp; try done; [congruence|]. intros. apply Hw; congruence. }
  unfold region_end, backing in Hcl, Hh.
  destruct (Z.ltb_spec gpa (guest_size (g_layout g))).
  { do 2 eexists. split; [done|]. split; [done|]. by eapply Hcl. }
  destruct (guest_find_mapping g gpa) as [m|] eqn:Em.
  { destruct (find_mapping_bounds g Hbk gpa m Em) as (?&?&_).
    do 2 eexists. split; [done|]. split; [done|]. rewrite (sub64_small gpa) by (unfold fits64; lia).
    eapply Hcl; [done..|]. by rewrite add64_small by (unfold fits64; lia). }
  destruct (guest_find_overflow g gpa) as [o|] eqn:Eo; [|by exists None, t2].
  destruct (find_overflow_bounds g Hbk gpa o Eo) as (?&?&_).
  do 2 eexists. split; [done|]. split; [done|]. rewrite (sub64_small gpa) by (unfold fits64; lia).
  eapply Hcl; [done..|]. by rewrite add64_small by (unfold fits64; lia).
Qed.
End Resolve.
