(* ===== verification/Backing.v ===== *)
(** * Extra IPA ranges: the mapping and overflow tables of src/core/guest.c

    Memory outside the slab is recorded in two arrays of [guest_t]: explicit
    mappings, and 1 GiB overflow segments from which 2 MiB blocks are bumped.
    Each entry stands for a stage-2 mapping and, when the table allocated it, for
    a host buffer; the host's account of both is behind the class [HostVm]. *)

From S2P Require Import Prelude Tlbi Regions PageTable Gva GvaFacts.

(** ** The host's memory and stage-2 calls

    [vm_buffers] and [vm_stage2] observe the live anonymous buffers (address and
    size) and the mapped stage-2 ranges (IPA and size). *)

Class HostVm (W : Type) := {
  host_mmap : W -> Z -> option Z * W;
  host_munmap : W -> Z -> Z -> W;
  hv_vm_map : W -> Z -> Z -> Z -> Z -> bool * W;
  hv_vm_unmap : W -> Z -> Z -> bool * W;
  vm_buffers : W -> list (Z * Z);
  vm_stage2 : W -> list (Z * Z)
}.

Class HostVmLaws (W : Type) `{!HostVm W} : Prop := {
  mmap_some w n p w' : host_mmap w n = (Some p, w') ->
    p <> 0 /\ vm_buffers w' ≡ₚ (p, n) :: vm_buffers w /\ vm_stage2 w' = vm_stage2 w;
  mmap_none w n w' : host_mmap w n = (None, w') -> vm_buffers w' = vm_buffers w /\ vm_stage2 w' = vm_stage2 w;
  munmap_live w p n l : vm_buffers w ≡ₚ (p, n) :: l ->
    vm_buffers (host_munmap w p n) ≡ₚ l /\ vm_stage2 (host_munmap w p n) = vm_stage2 w;
  map_ok w h ipa n f w' : hv_vm_map w h ipa n f = (true, w') ->
    vm_stage2 w' ≡ₚ (ipa, n) :: vm_stage2 w /\ vm_buffers w' = vm_buffers w;
  map_fail w h ipa n f w' : hv_vm_map w h ipa n f = (false, w') ->
    vm_stage2 w' = vm_stage2 w /\ vm_buffers w' = vm_buffers w;
  unmap_ok w ipa n w' l : hv_vm_unmap w ipa n = (true, w') -> vm_stage2 w ≡ₚ (ipa, n) :: l ->
    vm_stage2 w' ≡ₚ l /\ vm_buffers w' = vm_buffers w;
  unmap_fail w ipa n w' : hv_vm_unmap w ipa n = (false, w') ->
    vm_stage2 w' = vm_stage2 w /\ vm_buffers w' = vm_buffers w
}.

(** [HV_MEMORY_READ | HV_MEMORY_WRITE | HV_MEMORY_EXEC] *)
Definition HV_MEMORY_RWX : Z := 7.

Section Tables.
Context {W : Type} `{!HostVm W}.

(** ** Explicit mappings *)

Definition guest_mapping_overlaps (g : guest_t) (gpa size : Z) : bool :=
  if size =? 0 then true
  else
    let end_ := (gpa + size)%u64 in
    if end_ <? gpa then true
    else if gpa <? guest_size (g_layout g) then true
    else
      existsb (fun m => (gpa <? (m_gpa m + m_size m)%u64) && (m_gpa m <? end_)) (mappings g) ||
      existsb (fun o => (gpa <? (o_ipa_start o + o_size o)%u64) && (o_ipa_start o <? end_)) (overflow g).

(** [host_va] is [*host_va_inout], 0 for NULL; it is returned updated. *)
Definition guest_add_mapping (g : guest_t) (w : W) (gpa size hv_perms host_va : Z)
    : Z * guest_t * W * Z :=
  let fail w := (-1, g, w, host_va) in
  if size =? 0 then fail w
  else if negb (Z.land gpa (PAGE_SIZE - 1) =? 0) || negb (Z.land size (PAGE_SIZE - 1) =? 0) then fail w
  else if negb (host_va =? 0) && negb (Z.land host_va (PAGE_SIZE - 1) =? 0) then fail w
  else if (GUEST_MAX_MAPPINGS <=? length (mappings g))%nat then fail w
  else if guest_mapping_overlaps g gpa size then fail w
  else
    let '(buf, w, allocated) :=
      if host_va =? 0 then let '(p, w) := host_mmap w size in (p, w, true)
      else (Some host_va, w, false) in
    match buf with
    | None => fail w
    | Some va =>
        let '(ok, w) := hv_vm_map w va gpa size hv_perms in
        if negb ok then fail (if allocated then host_munmap w va size else w)
        else (0, set_mappings (mappings g ++ [mk_mapping gpa va size hv_perms allocated]) g, w, va)
    end.

(** ** Overflow segments *)

(** The first segment with a free block: the list with that block taken, and the
    block's address. *)
Fixpoint overflow_bump (l : list guest_overflow_t) : option (Z * list guest_overflow_t) :=
  match l with
  | [] => None
  | o :: l =>
      if (o_next o + BLOCK_2MIB)%u64 <=? o_size o then
        Some ((o_ipa_start o + o_next o)%u64,
              mk_overflow (o_host_base o) (o_ipa_start o) (o_size o) (o_next o + BLOCK_2MIB)%u64 :: l)
      else
        match overflow_bump l with
        | Some (ipa, l') => Some (ipa, o :: l')
        | None => None
        end
  end.

(** One round of the [do ... while (moved)] scan: [inl] is the moved position. *)
Definition skip_body (l : list guest_mapping_t) (seg_size : Z) (seg_ipa : Z) : Z + option (option Z) :=
  let seg_end := (seg_ipa + seg_size)%u64 in
  match List.find (fun m => (seg_ipa <? (m_gpa m + m_size m)%u64) && (m_gpa m <? seg_end)) l with
  | Some m =>
      let m_end := (m_gpa m + m_size m)%u64 in
      let seg_ipa := if seg_ipa <? m_end then m_end else seg_ipa in
      if (seg_ipa + seg_size)%u64 <? seg_ipa then inr (Some None) else inl seg_ipa
  | None => inr (Some (Some seg_ipa))
  end.

(** [None] is an exhausted loop bound; every round passes one mapping for good. *)
Definition guest_overflow_alloc (g : guest_t) (w : W) : option (Z * guest_t * W) :=
  match overflow_bump (overflow g) with
  | Some (ipa, l) => Some (ipa, set_overflow l (overflow_ipa_next g) g, w)
  | None =>
      if (GUEST_MAX_OVERFLOW <=? length (overflow g))%nat then Some (UINT64_MAX, g, w)
      else
        let seg_ipa := overflow_ipa_next g in
        let seg_ipa := if seg_ipa <? guest_size (g_layout g) then guest_size (g_layout g) else seg_ipa in
        let seg_size := GUEST_OVERFLOW_SIZE in
        if (seg_ipa + seg_size)%u64 <? seg_ipa then Some (UINT64_MAX, g, w)
        else
          pos ← loop (Z.of_nat (length (mappings g)) + 1) (skip_body (mappings g) seg_size) seg_ipa;
          match pos with
          | None => Some (UINT64_MAX, g, w)
          | Some seg_ipa =>
              let '(host, w) := host_mmap w seg_size in
              match host with
              | None => Some (UINT64_MAX, g, w)
              | Some host =>
                  let '(ok, w) := hv_vm_map w host seg_ipa seg_size HV_MEMORY_RWX in
                  if negb ok then Some (UINT64_MAX, g, host_munmap w host seg_size)
                  else
                    Some (seg_ipa,
                          set_overflow (overflow g ++ [mk_overflow host seg_ipa seg_size BLOCK_2MIB])
                            (seg_ipa + seg_size)%u64 g, w)
              end
          end
  end.

(** ** Teardown *)

Definition release_overflow (w : W) (o : guest_overflow_t) : W :=
  if negb (o_host_base o =? 0) && negb (o_size o =? 0)
  then host_munmap (snd (hv_vm_unmap w (o_ipa_start o) (o_size o))) (o_host_base o) (o_size o)
  else w.

Definition release_overflow_segments (g : guest_t) (w : W) (reset_anchor : Z) : guest_t * W :=
  (set_overflow [] reset_anchor g, fold_left release_overflow (overflow g) w).

Definition release_mapping (w : W) (m : guest_mapping_t) : W :=
  let w := if negb (m_host_va m =? 0) && negb (m_size m =? 0)
           then snd (hv_vm_unmap w (m_gpa m) (m_size m)) else w in
  if m_owns_host m && negb (m_host_va m =? 0) then host_munmap w (m_host_va m) (m_size m) else w.

Definition release_extra_mappings (g : guest_t) (w : W) : guest_t * W :=
  (set_mappings [] g, fold_left release_mapping (mappings g) w).

End Tables.
