(* ===== verification/BackingSpecs.v ===== *)
(** * The extra-range tables stay disjoint and leak nothing

    [tables_ok] ties the two arrays of [guest_t] to each other (disjoint ranges
    above the slab, the invariant [backing_ok] the pointer walkers rely on) and
    to the host: besides what was there before, the host holds exactly one
    stage-2 mapping per entry and one buffer per owned entry. *)

From S2P Require Import Prelude Tlbi Regions PageTable Gva GvaFacts Backing.

Definition m_stage2 (m : guest_mapping_t) : Z * Z := (m_gpa m, m_size m).
Definition o_stage2 (o : guest_overflow_t) : Z * Z := (o_ipa_start o, o_size o).
Definition m_buffer (m : guest_mapping_t) : list (Z * Z) :=
  if m_owns_host m then [(m_host_va m, m_size m)] else [].
Definition o_buffer (o : guest_overflow_t) : Z * Z := (o_host_base o, o_size o).

Definition overflow_ok (next : Z) (o : guest_overflow_t) : Prop :=
  o_size o = GUEST_OVERFLOW_SIZE /\ 0 <= o_next o <= o_size o /\ o_host_base o <> 0 /\
  o_ipa_start o + o_size o <= next.

Definition tables_stage2 (g : guest_t) : list (Z * Z) :=
  map m_stage2 (mappings g) ++ map o_stage2 (overflow g).
Definition tables_buffers (g : guest_t) : list (Z * Z) :=
  concat (map m_buffer (mappings g)) ++ map o_buffer (overflow g).

(** [bufs] and [s2] are what the host holds for others. *)
Record tables_ok {W} `{!HostVm W} (bufs s2 : list (Z * Z)) (g : guest_t) (w : W) : Prop := {
  to_backing : backing_ok g;
  to_mappings : Forall (fun m => m_host_va m <> 0) (mappings g);
  to_overflow : Forall (overflow_ok (overflow_ipa_next g)) (overflow g);
  to_next : fits64 (overflow_ipa_next g);
  to_stage2 : vm_stage2 w ≡ₚ tables_stage2 g ++ s2;
  to_buffers : vm_buffers w ≡ₚ tables_buffers g ++ bufs
}.

(** ** Disjointness under insertion *)

Lemma apart_sym a b : apart a b -> apart b a.
Proof. unfold apart. lia. Qed.

(** Inserting a range apart from all others keeps them pairwise apart. *)
Lemma apart_insert (l1 l2 : list (Z * Z)) r :
  (forall i j a b, (l1 ++ l2) !! i = Some a -> (l1 ++ l2) !! j = Some b -> i <> j -> apart a b) ->
  (forall a, a ∈ l1 ++ l2 -> apart a r) ->
  forall i j a b, (l1 ++ r :: l2) !! i = Some a -> (l1 ++ r :: l2) !! j = Some b -> i <> j -> apart a b.
Proof.
  intros Hp Hr. set (n := length l1).
  (* position [k] of the longer list is [r] itself or a position of the shorter *)
  assert (forall k a, (l1 ++ r :: l2) !! k = Some a ->
    (k = n /\ a = r) \/
    (k <> n /\ (l1 ++ l2) !! (if (k <? n)%nat then k else (k - 1)%nat) = Some a)) as Hk.
  { intros k a Hk. destruct (decide (k < n)%nat) as [Hlt|Hge].
    - right. split; [lia|]. rewrite (proj2 (Nat.ltb_lt _ _) Hlt). rewrite lookup_app_l in * by done. done.
    - rewrite lookup_app_r in Hk by (fold n; lia). fold n in Hk.
      destruct (decide (k = n)) as [->|Hne]; [left; rewrite Nat.sub_diag in Hk; by simplify_eq/=|right].
      split; [done|]. rewrite (proj2 (Nat.ltb_ge _ _)) by lia. rewrite lookup_app_r by (fold n; lia). fold n.
      replace (k - n)%nat with (S (k - 1 - n)) in Hk by lia. done. }
  intros i j a b Hi Hj Hne.
  destruct (Hk _ _ Hi) as [[-> ->]|[Hi1 Hi2]], (Hk _ _ Hj) as [[-> ->]|[Hj1 Hj2]]; [done|..].
  - apply apart_sym, Hr. by eapply list_elem_of_lookup_2.
  - apply Hr. by eapply list_elem_of_lookup_2.
  - eapply Hp; [exact Hi2|exact Hj2|]. destruct (Nat.ltb_spec i n), (Nat.ltb_spec j n); lia.
Qed.

Section Add.
Context {W : Type} `{!HostVm W, !HostVmLaws W}.
Context (bufs s2 : list (Z * Z)).

(** The overlap test is exact on well-formed tables. *)
Lemma overlaps_spec g gpa size :
  backing_ok g -> fits64 gpa -> 0 <= size < two64 ->
  guest_mapping_overlaps g gpa size = false ->
  range_ok (guest_size (g_layout g)) (gpa, gpa + size) /\
  forall r, r ∈ ranges g -> apart r (gpa, gpa + size).
Proof.
  intros Hok Hg Hs. unfold guest_mapping_overlaps.
  destruct (Z.eqb_spec size 0); [done|]. destruct (Z.ltb_spec (gpa + size)%u64 gpa) as [|Hw]; [done|].
  assert (gpa + size < two64) as Hlt.
  { destruct (Z.lt_ge_cases (gpa + size) two64) as [|Hge]; [done|exfalso].
    unfold fits64 in Hg. unfold add64, wrap64 in Hw.
    rewrite <- (Zmod_unique (gpa + size) two64 1 (gpa + size - two64)) in Hw by lia. lia. }
  rewrite add64_small in * by (unfold fits64 in *; lia).
  destruct (Z.ltb_spec gpa (guest_size (g_layout g))) as [|Hge]; [done|].
  intros [H1 H2]%orb_false_elim. split; [split; cbn; lia|]. intros r Hr.
  pose proof (bo_ranges g Hok r Hr) as (? & ? & ?). pose proof (bo_size g Hok).
  unfold ranges in Hr. apply elem_of_app in Hr as [Hr|Hr]; apply list_elem_of_fmap in Hr as (x & -> & Hx);
    cbn in *; apply list_elem_of_In in Hx; unfold apart; cbn.
  - destruct (Z.lt_ge_cases (m_gpa x) (gpa + size)) as [Ha|]; [|lia].
    destruct (Z.lt_ge_cases gpa (m_gpa x + m_size x)) as [Hb|]; [|lia]. exfalso.
    enough (existsb (fun m => (gpa <? (m_gpa m + m_size m)%u64) && (m_gpa m <? gpa + size)) (mappings g) = true) by congruence.
    apply existsb_exists. exists x. split; [done|]. rewrite add64_small by (unfold fits64; lia).
    apply andb_true_intro. split; by apply Z.ltb_lt.
  - destruct (Z.lt_ge_cases (o_ipa_start x) (gpa + size)) as [Ha|]; [|lia].
    destruct (Z.lt_ge_cases gpa (o_ipa_start x + o_size x)) as [Hb|]; [|lia]. exfalso.
    enough (existsb (fun o => (gpa <? (o_ipa_start o + o_size o)%u64) && (o_ipa_start o <? gpa + size)) (overflow g) = true) by congruence.
    apply existsb_exists. exists x. split; [done|]. rewrite add64_small by (unfold fits64; lia).
    apply andb_true_intro. split; by apply Z.ltb_lt.
Qed.

Lemma ranges_add_mapping g m :
  ranges (set_mappings (mappings g ++ [m]) g) = map m_range (mappings g) ++ m_range m :: map o_range (overflow g).
Proof. unfold ranges. cbn. rewrite map_app. cbn. by rewrite <- app_assoc. Qed.

Lemma backing_ok_add_mapping g m :
  backing_ok g -> range_ok (guest_size (g_layout g)) (m_range m) ->
  (forall r, r ∈ ranges g -> apart r (m_range m)) ->
  backing_ok (set_mappings (mappings g ++ [m]) g).
Proof.
  intros Hok Hr Ha. split; [apply Hok| |]; rewrite ranges_add_mapping.
  - intros r [Hin|[->|Hin]%elem_of_cons]%elem_of_app; [|done|];
      apply (bo_ranges g Hok); unfold ranges; apply elem_of_app; auto.
  - apply apart_insert; [apply (bo_apart g Hok)|done].
Qed.

Lemma backing_ok_add_overflow g o n :
  backing_ok g -> range_ok (guest_size (g_layout g)) (o_range o) ->
  (forall r, r ∈ ranges g -> apart r (o_range o)) ->
  backing_ok (set_overflow (overflow g ++ [o]) n g).
Proof.
  intros Hok Hr Ha.
  assert (ranges (set_overflow (overflow g ++ [o]) n g) = ranges g ++ [o_range o]) as E.
  { unfold ranges. cbn. rewrite map_app. cbn. by rewrite app_assoc. }
  split; [apply Hok| |]; rewrite E.
  - intros r [Hin|Hin%list_elem_of_singleton]%elem_of_app; [by apply (bo_ranges g Hok)|by subst].
  - apply apart_insert; rewrite app_nil_r; [apply (bo_apart g Hok)|done].
Qed.

Lemma find_app {A} (p : A -> bool) l1 l2 :
  List.find p (l1 ++ l2) = match List.find p l1 with Some x => Some x | None => List.find p l2 end.
Proof. induction l1 as [|x l1 IH]; [done|]. simpl. by destruct (p x). Qed.

(** An address of the new range is in no older one. *)
Lemma fresh_not_found g r x :
  backing_ok g -> guest_size (g_layout g) <= x -> (forall a, a ∈ ranges g -> apart a r) ->
  fst r <= x < snd r -> guest_find_mapping g x = None /\ guest_find_overflow g x = None.
Proof.
  intros Hok Hx Ha Hin. split.
  - destruct (guest_find_mapping g x) as [m|] eqn:E; [exfalso|done].
    destruct (find_mapping_bounds g Hok x m E) as (?&?&_&i&Hi).
    destruct (Ha (m_range m)); [by eapply list_elem_of_lookup_2, mapping_lookup|cbn in *; lia..].
  - destruct (guest_find_overflow g x) as [o|] eqn:E; [exfalso|done].
    destruct (find_overflow_bounds g Hok x o E) as (?&?&_&i&Hi).
    destruct (Ha (o_range o)); [by eapply list_elem_of_lookup_2, overflow_lookup|cbn in *; lia..].
Qed.

Lemma backing_add_mapping g m x :
  backing_ok g -> range_ok (guest_size (g_layout g)) (m_range m) ->
  (forall r, r ∈ ranges g -> apart r (m_range m)) -> 0 <= x ->
  backing (set_mappings (mappings g ++ [m]) g) x =
  if (m_gpa m <=? x) && (x <? m_gpa m + m_size m) then Some (m_host_va m + (x - m_gpa m)) else backing g x.
Proof.
  intros Hok (Hr1 & Hr2 & Hr3) Ha Hx. cbn in Hr1, Hr2, Hr3. pose proof (bo_size g Hok).
  set (g' := set_mappings (mappings g ++ [m]) g). unfold backing.
  change (g_layout g') with (g_layout g). change (host_base g') with (host_base g).
  change (guest_find_overflow g' x) with (guest_find_overflow g x).
  assert (guest_find_mapping g' x = match guest_find_mapping g x with
    | Some m' => Some m'
    | None => if (m_gpa m <=? x) && (x <? m_gpa m + m_size m) then Some m else None end) as ->.
  { unfold guest_find_mapping, g'. cbn. destruct (Z.ltb_spec x (guest_size (g_layout g))).
    - rewrite (proj2 (Z.leb_gt _ _)) by lia. done.
    - rewrite find_app. cbn. unfold in_mapping. rewrite add64_small by (unfold fits64; lia).
      by destruct (_ && _). }
  destruct ((m_gpa m <=? x) && (x <? m_gpa m + m_size m)) eqn:E; unbool.
  - destruct (fresh_not_found g (m_range m) x) as [-> _]; [done|lia|done|done|].
    by rewrite (proj2 (Z.ltb_ge _ _)) by lia.
  - by destruct (guest_find_mapping g x).
  - by destruct (guest_find_mapping g x).
Qed.

(** ** Adding a mapping *)

Lemma tables_host_change g w w' :
  tables_ok bufs s2 g w -> vm_stage2 w' ≡ₚ vm_stage2 w -> vm_buffers w' ≡ₚ vm_buffers w -> tables_ok bufs s2 g w'.
Proof. intros [] E1 E2. split; try done; by rewrite ?E1, ?E2. Qed.

Definition mapping_added (g : guest_t) (gpa size hv_perms va : Z) (g' : guest_t) : Prop :=
  exists owns, mappings g' = mappings g ++ [mk_mapping gpa va size hv_perms owns] /\
    overflow g' = overflow g /\
    (forall x, 0 <= x -> backing g' x =
       if (gpa <=? x) && (x <? gpa + size) then Some (va + (x - gpa)) else backing g x).

Lemma tables_ok_add_mapping g w w' m :
  tables_ok bufs s2 g w -> m_host_va m <> 0 -> range_ok (guest_size (g_layout g)) (m_range m) ->
  (forall r, r ∈ ranges g -> apart r (m_range m)) ->
  vm_stage2 w' ≡ₚ m_stage2 m :: vm_stage2 w -> vm_buffers w' ≡ₚ m_buffer m ++ vm_buffers w ->
  tables_ok bufs s2 (set_mappings (mappings g ++ [m]) g) w'.
Proof.
  intros [Hb Hm Ho Hn Hs Hbf] Hva Hr Ha E1 E2. split; cbn; [by apply backing_ok_add_mapping| |done|done| |].
  - apply Forall_app. split; [done|]. by constructor.
  - rewrite E1, Hs. unfold tables_stage2. cbn. rewrite map_app. cbn. solve_Permutation.
  - rewrite E2, Hbf. unfold tables_buffers. cbn. rewrite map_app, concat_app. cbn. rewrite app_nil_r. solve_Permutation.
Qed.

Lemma add_mapping_spec g w gpa size hv_perms host_va rc g' w' va :
  tables_ok bufs s2 g w -> fits64 gpa -> fits64 size -> fits64 host_va ->
  guest_add_mapping g w gpa size hv_perms host_va = (rc, g', w', va) ->
  tables_ok bufs s2 g' w' /\
  ((rc = 0 /\ mapping_added g gpa size hv_perms va g') \/ (rc = -1 /\ g' = g /\ va = host_va)).
Proof.
  intros Hok Hg Hs Hh. unfold guest_add_mapping.
  assert (forall w1, tables_ok bufs s2 g w1 -> (-1, g, w1, host_va) = (rc, g', w', va) ->
    tables_ok bufs s2 g' w' /\ ((rc = 0 /\ mapping_added g gpa size hv_perms va g') \/ (rc = -1 /\ g' = g /\ va = host_va)))
    as Hfail by (intros w1 H1 [= <- <- <- <-]; split; [done|by right]).
  destruct (Z.eqb_spec size 0); [by apply Hfail|].
  destruct (negb _ || negb _); [by apply Hfail|]. destruct (negb _ && negb _); [by apply Hfail|].
  destruct (_ <=? _)%nat; [by apply Hfail|].
  destruct (guest_mapping_overlaps g gpa size) eqn:Eo; [by apply Hfail|].
  destruct (overlaps_spec g gpa size (to_backing _ _ _ _ Hok) Hg Hs Eo) as [Hr Ha].
  (* the mapping step, from a state that may already hold the new buffer *)
  assert (forall w1 p owns, p <> 0 -> vm_stage2 w1 = vm_stage2 w ->
    vm_buffers w1 ≡ₚ (if owns : bool then [(p, size)] else []) ++ vm_buffers w ->
    (let '(ok, w2) := hv_vm_map w1 p gpa size hv_perms in
     if negb ok then (-1, g, (if owns then host_munmap w2 p size else w2), host_va)
     else (0, set_mappings (mappings g ++ [mk_mapping gpa p size hv_perms owns]) g, w2, p)) = (rc, g', w', va) ->
    tables_ok bufs s2 g' w' /\ ((rc = 0 /\ mapping_added g gpa size hv_perms va g') \/ (rc = -1 /\ g' = g /\ va = host_va)))
    as Hmap.
  { intros w1 p owns Hp E1 E2. destruct (hv_vm_map w1 p gpa size hv_perms) as [ok w2] eqn:Em. destruct ok; cbn [negb].
    - destruct (map_ok _ _ _ _ _ _ Em) as [E3 E4]. intros [= <- <- <- <-]. split.
      + eapply tables_ok_add_mapping; [done|done|done|done| |]; cbn.
        * by rewrite E3, E1.
        * rewrite E4, E2. unfold m_buffer. cbn. by destruct owns.
      + left. split; [done|]. exists owns. split_and!; try done. intros x Hx.
        apply (backing_add_mapping g (mk_mapping gpa p size hv_perms owns)); [apply Hok|done..].
    - destruct (map_fail _ _ _ _ _ _ Em) as [E3 E4]. apply Hfail. destruct owns.
      + rewrite <- E4 in E2. destruct (munmap_live _ _ _ _ E2) as [E5 E6].
        eapply tables_host_change; [done|by rewrite E6, E3, E1|done].
      + eapply tables_host_change; [done|by rewrite E3, E1|by rewrite E4, E2]. }
  destruct (Z.eqb_spec host_va 0) as [->|Hne].
  - destruct (host_mmap w size) as [[p|] w1] eqn:Ep.
    + destruct (mmap_some _ _ _ _ Ep) as (Hp & E1 & E2). by apply (Hmap w1 p true).
    + destruct (mmap_none _ _ _ Ep) as (E1 & E2). apply Hfail. eapply tables_host_change; [done|by rewrite E2|by rewrite E1].
  - by apply (Hmap w host_va false).
Qed.

(** ** Overflow segments *)

Lemma filter_length_lt {A} (p q : A -> bool) (l : list A) x :
  (forall y, q y = true -> p y = true) -> In x l -> p x = true -> q x = false ->
  (length (List.filter q l) < length (List.filter p l))%nat.
Proof.
  intros Himp. assert (forall l, length (List.filter q l) <= length (List.filter p l))%nat as Hle.
  { induction l0 as [|y l0 IH]; cbn; [done|]. destruct (q y) eqn:Eq; [rewrite (Himp _ Eq); cbn; lia|].
    destruct (p y); cbn; lia. }
  induction l as [|y l IH]; cbn; [done|]. intros [->|Hin] Hp Hq.
  - rewrite Hp, Hq. cbn. specialize (Hle l). lia.
  - specialize (IH Hin Hp Hq). destruct (q y) eqn:Eq; [rewrite (Himp _ Eq); cbn; lia|]. destruct (p y); cbn; lia.
Qed.

Lemma wraps x n : fits64 x -> 0 <= n < two64 -> ((x + n)%u64 <? x) = (two64 <=? x + n).
Proof.
  unfold fits64. intros Hx Hn. unfold add64, wrap64. destruct (Z.leb_spec two64 (x + n)).
  - rewrite <- (Zmod_unique (x + n) two64 1 (x + n - two64)) by lia. apply Z.ltb_lt. lia.
  - rewrite Z.mod_small by lia. apply Z.ltb_ge. lia.
Qed.

Lemma skip_spec (l : list guest_mapping_t) size lo :
  (forall m, In m l -> 0 <= m_gpa m /\ m_gpa m < m_gpa m + m_size m < two64) -> 0 < size < two64 ->
  0 <= lo -> lo + size < two64 ->
  exists r, loop (Z.of_nat (length l) + 1) (skip_body l size) lo = Some r /\
    match r with
    | Some p => lo <= p /\ p + size < two64 /\ forall m, In m l -> apart (m_range m) (p, p + size)
    | None => True
    end.
Proof.
  intros Hl Hs Hlo Hfit.
  set (ends := fun x (m : guest_mapping_t) => x <? m_gpa m + m_size m).
  eapply (loop_rule _ (fun x => lo <= x /\ x + size < two64) (fun x => Z.of_nat (length (List.filter (ends x) l)))).
  2:{ done. }
  2:{ pose proof (filter_length_le (ends lo) l). lia. }
  intros x [Hx Hxs]. unfold skip_body. rewrite (add64_small x) by (unfold fits64; lia).
  set (ov := fun m : guest_mapping_t => (x <? (m_gpa m + m_size m)%u64) && (m_gpa m <? x + size)).
  destruct (List.find ov l) as [m|] eqn:Ef.
  - apply List.find_some in Ef as [Hin Hov]. destruct (Hl m Hin) as [Hm0 Hm]. unfold ov in Hov. cbv zeta.
    rewrite !(add64_small (m_gpa m)) by (unfold fits64; lia). rewrite add64_small in Hov by (unfold fits64; lia). unbool. rewrite (proj2 (Z.ltb_lt x (m_gpa m + m_size m))) by done.
    rewrite wraps by (unfold fits64; lia). destruct (Z.leb_spec two64 (m_gpa m + m_size m + size)); [done|].
    split; [lia|]. split; [lia|]. apply inj_lt. apply (filter_length_lt _ _ _ m); [|done|by apply Z.ltb_lt|apply Z.ltb_ge; lia].
    unfold ends. intros y Hy%Z.ltb_lt. apply Z.ltb_lt. lia.
  - split; [done|]. split; [done|]. intros m Hin. pose proof (List.find_none _ _ Ef m Hin) as Hov.
    destruct (Hl m Hin). unfold ov in Hov. rewrite add64_small in Hov by (unfold fits64; lia).
    unfold apart. cbn. unbool; lia.
Qed.

(** Addresses inside blocks already handed out. *)
Definition handed_out (g : guest_t) (x : Z) : Prop :=
  exists o, o ∈ overflow g /\ o_ipa_start o <= x < o_ipa_start o + o_next o.

(** [ipa] is a fresh block: backed, handed out by this call and not before. *)
Definition block_granted (g : guest_t) (ipa : Z) (g' : guest_t) : Prop :=
  mappings g' = mappings g /\ guest_size (g_layout g) <= ipa /\ ipa + BLOCK_2MIB < two64 /\
  (exists h, forall x, ipa <= x < ipa + BLOCK_2MIB -> backing g' x = Some (h + (x - ipa))) /\
  (forall x, ipa <= x < ipa + BLOCK_2MIB -> ~ handed_out g x) /\
  (forall x, handed_out g' x <-> handed_out g x \/ ipa <= x < ipa + BLOCK_2MIB).

Lemma bump_spec next l ipa l' :
  Forall (overflow_ok next) l -> fits64 next -> (forall o, o ∈ l -> 0 <= o_ipa_start o) ->
  overflow_bump l = Some (ipa, l') ->
  exists l1 o l2, l = l1 ++ o :: l2 /\ ipa = o_ipa_start o + o_next o /\ o_next o + BLOCK_2MIB <= o_size o /\
    l' = l1 ++ mk_overflow (o_host_base o) (o_ipa_start o) (o_size o) (o_next o + BLOCK_2MIB) :: l2.
Proof.
  intros Hl Hn. revert l' Hl. induction l as [|o l IH]; intros l' Hl H0; [done|]. cbn.
  apply Forall_cons_1 in Hl as [(Hsz & Hnx & Hb & He) Hl].
  pose proof (H0 o ltac:(left)) as Ho. unfold fits64 in Hn. unfold GUEST_OVERFLOW_SIZE in Hsz.
  rewrite !add64_small by (unfold fits64, BLOCK_2MIB, two64 in *; lia).
  destruct (Z.leb_spec (o_next o + BLOCK_2MIB) (o_size o)).
  - intros [= <- <-]. by exists [], o, l.
  - destruct (overflow_bump l) as [[ipa' l1']|] eqn:E; [|done]. intros [= <- <-].
    destruct (IH l1' Hl) as (l1 & o' & l2 & -> & ? & ? & ->); [intros o' Ho'; apply H0; by right|done|].
    by exists (o :: l1), o', l2.
Qed.

Lemma overflow_start_nonneg g o : backing_ok g -> o ∈ overflow g ->
  guest_size (g_layout g) <= o_ipa_start o /\ 0 <= o_ipa_start o /\ o_ipa_start o + o_size o < two64.
Proof.
  intros Hok [i Hi]%list_elem_of_lookup.
  destruct (bo_ranges g Hok (o_range o)) as (? & ? & ?); [by eapply list_elem_of_lookup_2, overflow_lookup|].
  pose proof (bo_size g Hok). cbn in *. lia.
Qed.

(** A bumped segment answers for the same range. *)
Lemma backing_overflow_at g o x :
  backing_ok g -> o ∈ overflow g -> o_ipa_start o <= x < o_ipa_start o + o_size o ->
  backing g x = Some (o_host_base o + (x - o_ipa_start o)).
Proof.
  intros Hok Hin Hx. destruct (overflow_start_nonneg g o Hok Hin) as (? & ? & ?).
  apply list_elem_of_lookup in Hin as [i Hi]. unfold backing. rewrite (proj2 (Z.ltb_ge _ _)) by lia.
  by destruct (find_overflow_at g Hok i o x Hi Hx) as [-> ->].
Qed.

Lemma bump_granted g w l1 o l2 :
  tables_ok bufs s2 g w -> overflow g = l1 ++ o :: l2 -> o_next o + BLOCK_2MIB <= o_size o ->
  let o' := mk_overflow (o_host_base o) (o_ipa_start o) (o_size o) (o_next o + BLOCK_2MIB) in
  let g' := set_overflow (l1 ++ o' :: l2) (overflow_ipa_next g) g in
  tables_ok bufs s2 g' w /\ block_granted g (o_ipa_start o + o_next o) g'.
Proof.
  intros [Hb Hm Ho Hn Hs Hbf] El Hfit o' g'. unfold BLOCK_2MIB in *.
  assert (forall B (f : guest_overflow_t -> B), f o' = f o -> map f (overflow g') = map f (overflow g)) as Hmap.
  { intros B f Hf. unfold g'. cbn. rewrite El, !map_app. cbn. by rewrite Hf. }
  assert (ranges g' = ranges g) as Hrg by (unfold ranges; rewrite (Hmap _ o_range) by done; done).
  assert (backing_ok g') as Hb' by (split; rewrite ?Hrg; apply Hb).
  assert (o ∈ overflow g) as Hin by (rewrite El; apply elem_of_app; right; left).
  assert (o' ∈ overflow g') as Hin' by (unfold g'; cbn; apply elem_of_app; right; left).
  pose proof (proj1 (Forall_forall _ _) Ho o ltac:(by apply list_elem_of_In)) as (Hsz & Hnx & Hhb & Hend).
  destruct (overflow_start_nonneg g o Hb Hin) as (? & ? & ?).
  split; [split|].
  - done.
  - done.
  - unfold g'. cbn. rewrite El in Ho. apply Forall_app in Ho as [Ho1 [_ Ho2]%Forall_cons_1].
    apply Forall_app. split; [done|]. constructor; [|done]. unfold overflow_ok, o'. cbn. split_and!; done || lia.
  - done.
  - unfold tables_stage2. by rewrite (Hmap _ o_stage2) by done.
  - unfold tables_buffers. by rewrite (Hmap _ o_buffer) by done.
  - split; [done|]. split; [lia|]. split; [unfold BLOCK_2MIB; lia|]. unfold BLOCK_2MIB. split_and!.
    + exists (o_host_base o + o_next o). intros x Hx. rewrite (backing_overflow_at g' o' x Hb' Hin') by (cbn; lia).
      f_equal. cbn. lia.
    + intros x Hx (p & [i Hi]%list_elem_of_lookup & Hp).
      apply list_elem_of_lookup in Hin as [j Hj].
      assert (Hpo : overflow_ok (overflow_ipa_next g) p)
        by (eapply Forall_forall; [exact Ho|]; apply list_elem_of_In; by eapply list_elem_of_lookup_2).
      destruct Hpo as (? & ? & _).
      pose proof (range_unique g Hb _ _ _ _ x (overflow_lookup g _ _ Hi) (overflow_lookup g _ _ Hj)) as E.
      cbn in E. specialize (E ltac:(lia) ltac:(lia)). assert (i = j) as -> by lia. simplify_eq. lia.
    + intros x. unfold handed_out, g'. cbn. rewrite El. split.
      * intros (p & Hp & Hx). apply elem_of_app in Hp as [Hp|[->|Hp]%elem_of_cons].
        -- left. exists p. split; [apply elem_of_app; by left|done].
        -- cbn in Hx. destruct (Z.lt_ge_cases x (o_ipa_start o + o_next o)); [left|right; lia].
           exists o. split; [apply elem_of_app; right; left|lia].
        -- left. exists p. split; [apply elem_of_app; right; by right|done].
      * intros [(p & Hp & Hx)|Hx].
        -- apply elem_of_app in Hp as [Hp|[->|Hp]%elem_of_cons].
           ++ exists p. split; [apply elem_of_app; by left|done].
           ++ exists o'. split; [apply elem_of_app; right; left|cbn; lia].
           ++ exists p. split; [apply elem_of_app; right; by right|done].
        -- exists o'. split; [apply elem_of_app; right; left|cbn; lia].
Qed.

(** A new segment above every other one and clear of the mappings. *)
Lemma segment_granted g w w' host seg :
  tables_ok bufs s2 g w -> host <> 0 -> guest_size (g_layout g) <= seg -> overflow_ipa_next g <= seg ->
  seg + GUEST_OVERFLOW_SIZE < two64 ->
  (forall m, In m (mappings g) -> apart (m_range m) (seg, seg + GUEST_OVERFLOW_SIZE)) ->
  vm_stage2 w' ≡ₚ (seg, GUEST_OVERFLOW_SIZE) :: vm_stage2 w ->
  vm_buffers w' ≡ₚ (host, GUEST_OVERFLOW_SIZE) :: vm_buffers w ->
  let g' := set_overflow (overflow g ++ [mk_overflow host seg GUEST_OVERFLOW_SIZE BLOCK_2MIB])
              (seg + GUEST_OVERFLOW_SIZE) g in
  tables_ok bufs s2 g' w' /\ block_granted g seg g'.
Proof.
  intros [Hb Hm Ho Hn Hs Hbf] Hh Hsz Hnx Hfit Hmap E1 E2 g'. pose proof (bo_size g Hb).
  set (o := mk_overflow host seg GUEST_OVERFLOW_SIZE BLOCK_2MIB) in *. unfold GUEST_OVERFLOW_SIZE, BLOCK_2MIB in *.
  assert (forall p, p ∈ overflow g -> overflow_ok (overflow_ipa_next g) p) as Hoin
    by (intros p Hp; eapply Forall_forall; [exact Ho|]; by apply list_elem_of_In).
  assert (backing_ok g') as Hb'.
  { apply backing_ok_add_overflow; [done|split; cbn; lia|]. intros r [Hr|Hr]%elem_of_app.
    - apply list_elem_of_fmap in Hr as (m & -> & Hin). by apply Hmap, list_elem_of_In.
    - apply list_elem_of_fmap in Hr as (p & -> & Hin). destruct (Hoin p Hin) as (_ & _ & _ & Hp). left. cbn. lia. }
  assert (o ∈ overflow g') as Hin' by (unfold g'; cbn; apply elem_of_app; right; left).
  split; [split|].
  - done.
  - done.
  - unfold g'. cbn. apply Forall_app. split.
    + eapply Forall_impl; [|exact Ho]. intros p (? & ? & ? & ?). unfold overflow_ok. split_and!; done || lia.
    + constructor; [|done]. unfold overflow_ok, GUEST_OVERFLOW_SIZE. cbn. split_and!; done || lia.
  - unfold g', fits64. cbn. lia.
  - rewrite E1, Hs. unfold tables_stage2, g'. cbn. rewrite map_app. cbn. unfold o_stage2 at 3. cbn. solve_Permutation.
  - rewrite E2, Hbf. unfold tables_buffers, g'. cbn. rewrite map_app. cbn. unfold o_buffer at 3. cbn. solve_Permutation.
  - split; [done|]. split; [lia|]. split; [unfold BLOCK_2MIB; lia|]. unfold BLOCK_2MIB. split_and!.
    + exists host. intros x Hx. rewrite (backing_overflow_at g' o x Hb' Hin') by (cbn; lia). done.
    + intros x Hx (p & Hp & Hxp). destruct (Hoin p Hp) as (? & ? & _ & ?). lia.
    + intros x. unfold handed_out, g'. cbn. split.
      * intros (p & [Hp|Hp%list_elem_of_singleton]%elem_of_app & Hx); [left; eauto|]. subst p. cbn in Hx. right. lia.
      * intros [(p & Hp & Hx)|Hx]; [exists p; split; [apply elem_of_app; by left|done]|].
        exists o. split; [apply elem_of_app; right; left|cbn; lia].
Qed.

Lemma overflow_alloc_spec g w :
  tables_ok bufs s2 g w -> fits64 (guest_size (g_layout g)) ->
  exists ipa g' w', guest_overflow_alloc g w = Some (ipa, g', w') /\ tables_ok bufs s2 g' w' /\
  ((ipa = UINT64_MAX /\ g' = g) \/ block_granted g ipa g').
Proof.
  intros Hok Hgs. pose proof (to_backing _ _ _ _ Hok) as Hb. unfold guest_overflow_alloc.
  destruct (overflow_bump (overflow g)) as [[ipa l]|] eqn:Eb.
  { apply (bump_spec (overflow_ipa_next g)) in Eb as (l1 & o & l2 & El & -> & Hfit & ->); [|apply Hok..|].
    - do 3 eexists. split; [done|]. destruct (bump_granted g w l1 o l2 Hok El Hfit) as [? ?]. split; [done|by right].
    - intros o Ho. by apply (overflow_start_nonneg g). }
  assert (forall w1, vm_stage2 w1 ≡ₚ vm_stage2 w -> vm_buffers w1 ≡ₚ vm_buffers w -> exists ipa g' w',
    Some (UINT64_MAX, g, w1) = Some (ipa, g', w') /\ tables_ok bufs s2 g' w' /\
    ((ipa = UINT64_MAX /\ g' = g) \/ block_granted g ipa g')) as Hfail.
  { intros w1 H1 H2. do 3 eexists. split; [done|]. split; [by eapply tables_host_change|by left]. }
  destruct (_ <=? _)%nat; [by apply Hfail|]. pose proof (to_next _ _ _ _ Hok) as Hn. pose proof (bo_size g Hb) as H0.
  set (seg := if overflow_ipa_next g <? guest_size (g_layout g) then guest_size (g_layout g) else overflow_ipa_next g).
  assert (overflow_ipa_next g <= seg /\ guest_size (g_layout g) <= seg /\ fits64 seg) as (Hs1 & Hs2 & Hs3)
    by (unfold seg, fits64 in *; case_ifs; lia). clearbody seg.
  rewrite wraps by (done || (unfold GUEST_OVERFLOW_SIZE, two64; lia)).
  destruct (Z.leb_spec two64 (seg + GUEST_OVERFLOW_SIZE)) as [|Hfit]; [by apply Hfail|].
  destruct (skip_spec (mappings g) GUEST_OVERFLOW_SIZE seg) as (r & -> & Hr);
    [|unfold GUEST_OVERFLOW_SIZE, two64; lia|lia|done|].
  { intros m [i Hi]%list_elem_of_In%list_elem_of_lookup.
    destruct (bo_ranges g Hb (m_range m)) as (? & ? & ?); [by eapply list_elem_of_lookup_2, mapping_lookup|]. cbn in *. lia. }
  run. destruct r as [pos|]; [|by apply Hfail]. destruct Hr as (Hp1 & Hp2 & Hp3).
  destruct (host_mmap w GUEST_OVERFLOW_SIZE) as [[host|] w1] eqn:Em.
  2:{ destruct (mmap_none _ _ _ Em) as [E1 E2]. apply Hfail; by rewrite ?E1, ?E2. }
  destruct (mmap_some _ _ _ _ Em) as (Hh & E1 & E2).
  destruct (hv_vm_map w1 host pos GUEST_OVERFLOW_SIZE HV_MEMORY_RWX) as [ok w2] eqn:Ev. destruct ok; cbn [negb].
  - destruct (map_ok _ _ _ _ _ _ Ev) as [E3 E4]. rewrite add64_small by (unfold fits64, GUEST_OVERFLOW_SIZE in *; lia).
    do 3 eexists. split; [done|].
    destruct (segment_granted g w w2 host pos Hok Hh) as [? ?]; [lia..|done| |by rewrite E4|by split; [|right]].
    by rewrite E3, E2.
  - destruct (map_fail _ _ _ _ _ _ Ev) as [E3 E4]. rewrite <- E4 in E1.
    destruct (munmap_live _ _ _ _ E1) as [E5 E6]. apply Hfail; [by rewrite E6, E3, E2|done].
Qed.

End Add.

(** ** Teardown *)

(** A host that unmaps every range it holds. *)
Class HostUnmaps (W : Type) `{!HostVm W} : Prop := {
  unmap_total w ipa n : (ipa, n) ∈ vm_stage2 w -> exists w', hv_vm_unmap w ipa n = (true, w')
}.

Section Release.
Context {W : Type} `{!HostVm W, !HostVmLaws W, !HostUnmaps W}.

Lemma unmap_live (w : W) ipa n l :
  vm_stage2 w ≡ₚ (ipa, n) :: l ->
  vm_stage2 (snd (hv_vm_unmap w ipa n)) ≡ₚ l /\ vm_buffers (snd (hv_vm_unmap w ipa n)) = vm_buffers w.
Proof.
  intros E. destruct (unmap_total w ipa n) as [w' Hw]; [rewrite E; left|].
  rewrite Hw. by apply (unmap_ok _ _ _ _ _ Hw).
Qed.

Lemma release_overflow_all l (w : W) S B :
  Forall (fun o => o_host_base o <> 0 /\ o_size o <> 0) l ->
  vm_stage2 w ≡ₚ map o_stage2 l ++ S -> vm_buffers w ≡ₚ map o_buffer l ++ B ->
  vm_stage2 (fold_left release_overflow l w) ≡ₚ S /\ vm_buffers (fold_left release_overflow l w) ≡ₚ B.
Proof.
  revert w. induction l as [|o l IH]; intros w Hl E1 E2; [done|]. cbn.
  apply Forall_cons_1 in Hl as [[Hb Hs] Hl]. cbn in E1, E2.
  destruct (unmap_live w _ _ _ E1) as [F1 F2]. rewrite <- F2 in E2. destruct (munmap_live _ _ _ _ E2) as [F3 F4].
  apply IH; [done| |]; unfold release_overflow;
    rewrite (proj2 (Z.eqb_neq _ _) Hb), (proj2 (Z.eqb_neq _ _) Hs); cbn [negb andb]; [by rewrite F4|done].
Qed.

Lemma release_mapping_all l (w : W) S B :
  Forall (fun m => m_host_va m <> 0 /\ m_size m <> 0) l ->
  vm_stage2 w ≡ₚ map m_stage2 l ++ S -> vm_buffers w ≡ₚ concat (map m_buffer l) ++ B ->
  vm_stage2 (fold_left release_mapping l w) ≡ₚ S /\ vm_buffers (fold_left release_mapping l w) ≡ₚ B.
Proof.
  revert w. induction l as [|m l IH]; intros w Hl E1 E2; [done|]. cbn.
  apply Forall_cons_1 in Hl as [[Hb Hs] Hl]. cbn in E1, E2.
  destruct (unmap_live w _ _ _ E1) as [F1 F2]. rewrite <- F2 in E2.
  assert (release_mapping w m = if m_owns_host m
    then host_munmap (snd (hv_vm_unmap w (m_gpa m) (m_size m))) (m_host_va m) (m_size m)
    else snd (hv_vm_unmap w (m_gpa m) (m_size m))) as ->.
  { unfold release_mapping. rewrite (proj2 (Z.eqb_neq _ _) Hb), (proj2 (Z.eqb_neq _ _) Hs). cbn [negb andb].
    by rewrite andb_true_r. }
  unfold m_buffer in E2. destruct (m_owns_host m); cbn in E2.
  - destruct (munmap_live _ _ _ _ E2) as [F3 F4]. apply IH; [done|by rewrite F4|done].
  - by apply IH.
Qed.

Lemma release_spec (g : guest_t) (w : W) bufs s2 anchor :
  tables_ok bufs s2 g w ->
  let '(g1, w1) := release_extra_mappings g w in
  let '(g2, w2) := release_overflow_segments g1 w1 anchor in
  mappings g2 = [] /\ overflow g2 = [] /\ overflow_ipa_next g2 = anchor /\
  vm_stage2 w2 ≡ₚ s2 /\ vm_buffers w2 ≡ₚ bufs.
Proof.
  intros [Hb Hm Ho Hn Hs Hbf]. cbn. do 3 (split; [done|]).
  destruct (release_mapping_all (mappings g) w (map o_stage2 (overflow g) ++ s2) (map o_buffer (overflow g) ++ bufs))
    as [E1 E2].
  - apply Forall_forall. intros m Hin. split; [by eapply Forall_forall in Hm|].
    apply list_elem_of_In, list_elem_of_lookup in Hin as [i Hi].
    destruct (bo_ranges g Hb (m_range m)) as (? & ? & ?); [by eapply list_elem_of_lookup_2, mapping_lookup|].
    cbn in *. lia.
  - rewrite Hs. unfold tables_stage2. by rewrite app_assoc.
  - rewrite Hbf. unfold tables_buffers. by rewrite app_assoc.
  - apply release_overflow_all; [|done|done]. eapply Forall_impl; [|exact Ho].
    intros o (Hsz & _ & ? & _). rewrite Hsz. done.
Qed.

End Release.

(** ** A concrete host *)

Module ListVm.

(** Live buffers, stage-2 ranges, and the next buffer address. *)
Record vm := mk_vm { v_bufs : list (Z * Z); v_s2 : list (Z * Z); v_next : positive }.

Fixpoint rem1 (x : Z * Z) (l : list (Z * Z)) : list (Z * Z) :=
  match l with
  | [] => []
  | y :: l => if decide (x = y) then l else y :: rem1 x l
  end.

Lemma rem1_perm x l : x ∈ l -> l ≡ₚ x :: rem1 x l.
Proof.
  induction l as [|y l IH]; [by intros ?%elem_of_nil|]. cbn. destruct (decide (x = y)) as [->|Hne]; [done|].
  intros [->|Hin]%elem_of_cons; [done|]. rewrite (IH Hin) at 1. apply Permutation_swap.
Qed.

Lemma rem1_cancel x l l' : l ≡ₚ x :: l' -> rem1 x l ≡ₚ l'.
Proof.
  intros E. apply (Permutation_cons_inv (a := x)). rewrite <- E. symmetry. apply rem1_perm. rewrite E. left.
Qed.

(** The hypervisor refuses a range it does not hold. *)
#[export] Instance vm_ops : HostVm vm := {
  host_mmap w n := (Some (Zpos (v_next w) * 65536),
                    mk_vm ((Zpos (v_next w) * 65536, n) :: v_bufs w) (v_s2 w) (v_next w + 1));
  host_munmap w p n := mk_vm (rem1 (p, n) (v_bufs w)) (v_s2 w) (v_next w);
  hv_vm_map w _ ipa n _ := (true, mk_vm (v_bufs w) ((ipa, n) :: v_s2 w) (v_next w));
  hv_vm_unmap w ipa n := if decide ((ipa, n) ∈ v_s2 w)
    then (true, mk_vm (v_bufs w) (rem1 (ipa, n) (v_s2 w)) (v_next w)) else (false, w);
  vm_buffers := v_bufs;
  vm_stage2 := v_s2
}.

#[export] Instance vm_laws : HostVmLaws vm.
Proof.
  split; cbn.
  - intros w n p w' [= <- <-]. done.
  - done.
  - intros w p n l E. split; [by apply rem1_cancel|done].
  - intros w h ipa n f w' [= <-]. done.
  - done.
  - intros w ipa n w' l. destruct (decide _); [|done]. intros [= <-] E. split; [by apply rem1_cancel|done].
  - intros w ipa n w'. destruct (decide _); [done|]. by intros [= <-].
Qed.

#[export] Instance vm_unmaps : HostUnmaps vm.
Proof. split. cbn. intros w ipa n Hin. rewrite decide_True by done. by eexists. Qed.

End ListVm.

Import ListVm.

(** A 64 MiB guest without extra ranges on an empty host. *)
Definition ex_slab : guest_t := mk_guest 1 (mk_layout 67108864 0 1048576 1081344 false) 4294967296 [] [] 67108864.
Definition ex_vm : vm := mk_vm [] [] 1.

Lemma ex_slab_ok : tables_ok [] [] ex_slab ex_vm.
Proof. split; cbn; try done. split; cbn; [lia|by intros r ?%elem_of_nil|done]. Qed.

(** ** Theorems *)

(** adding an extra IPA mapping keeps the tables well formed (ranges disjoint,
    above the slab and inside the address space) and the host account exact.  On
    success precisely the new range becomes backed, by the address returned; a
    failure leaves the tables alone and leaks neither a host buffer nor a
    stage-2 mapping. *)
Theorem guest_add_mapping_correct {W} `{!HostVm W, !HostVmLaws W} (bufs s2 : list (Z * Z)) (g : guest_t) (w : W)
    (gpa size hv_perms host_va : Z) :
  tables_ok bufs s2 g w -> fits64 gpa -> fits64 size -> fits64 host_va ->
  let '(rc, g', w', va) := guest_add_mapping g w gpa size hv_perms host_va in
  tables_ok bufs s2 g' w' /\
  ((rc = 0 /\ mapping_added g gpa size hv_perms va g') \/ (rc = -1 /\ g' = g /\ va = host_va)).
Proof.
  intros. destruct (guest_add_mapping g w gpa size hv_perms host_va) as [[[rc g'] w'] va] eqn:E.
  by eapply add_mapping_spec.
Qed.

Lemma guest_add_mapping_correct_witness :
  let '(rc, g', w', va) := guest_add_mapping ex_slab ex_vm 137438953472 8192 3 0 in
  rc = 0 /\ va = 65536 /\ backing g' 137438957568 = Some 69632 /\ tables_ok [] [] g' w'.
Proof.
  pose proof (guest_add_mapping_correct [] [] ex_slab ex_vm 137438953472 8192 3 0 ex_slab_ok) as H.
  specialize (H ltac:(conc) ltac:(conc) ltac:(conc)). vm_compute guest_add_mapping in H |- *.
  destruct H as [Hok _]. split; [reflexivity|]. split; [reflexivity|]. split; [reflexivity|exact Hok].
Defined.

(** allocating an overflow block always returns.  A block is fresh: it lies
    above the slab inside the address space, it is backed contiguously, no
    address of it was handed out before, and the blocks handed out grow by
    exactly it; a refused allocation changes no table and leaks nothing.  The
    tables stay well formed and the host account exact. *)
Theorem guest_overflow_alloc_correct {W} `{!HostVm W, !HostVmLaws W} (bufs s2 : list (Z * Z)) (g : guest_t) (w : W) :
  tables_ok bufs s2 g w -> fits64 (guest_size (g_layout g)) ->
  exists ipa g' w', guest_overflow_alloc g w = Some (ipa, g', w') /\ tables_ok bufs s2 g' w' /\
  ((ipa = UINT64_MAX /\ g' = g) \/ block_granted g ipa g').
Proof. apply overflow_alloc_spec. Qed.

(** The segment is placed past a mapping that was in the way. *)
Lemma guest_overflow_alloc_correct_witness :
  exists g1 w1 g2 w2, guest_add_mapping ex_slab ex_vm 67108864 2097152 3 0 = (0, g1, w1, 65536) /\
    guest_overflow_alloc g1 w1 = Some (69206016, g2, w2) /\ tables_ok [] [] g2 w2.
Proof.
  pose proof (add_mapping_spec [] [] ex_slab ex_vm 67108864 2097152 3 0) as H.
  destruct (guest_add_mapping ex_slab ex_vm 67108864 2097152 3 0) as [[[rc g1] w1] va] eqn:E.
  destruct (H rc g1 w1 va ex_slab_ok ltac:(conc) ltac:(conc) ltac:(conc) eq_refl) as [Hok _].
  vm_compute in E. injection E as <- <- <- <-.
  destruct (guest_overflow_alloc_correct [] [] _ _ Hok) as (ipa & g2 & w2 & E2 & Hok2 & _); [conc|].
  do 2 eexists. exists g2, w2. split; [reflexivity|]. split; [|exact Hok2].
  pose proof E2 as E3. vm_compute in E3. injection E3 as <- _ _. exact E2.
Defined.

(** Tearing down the extra ranges (on exec and on exit) empties both tables
    and gives back to the host exactly the stage-2 mappings and the buffers the
    tables had taken, no more and no less. *)
Theorem extra_ranges_released {W} `{!HostVm W, !HostVmLaws W, !HostUnmaps W} (bufs s2 : list (Z * Z))
    (g : guest_t) (w : W) (anchor : Z) :
  tables_ok bufs s2 g w ->
  let '(g1, w1) := release_extra_mappings g w in
  let '(g2, w2) := release_overflow_segments g1 w1 anchor in
  mappings g2 = [] /\ overflow g2 = [] /\ overflow_ipa_next g2 = anchor /\
  vm_stage2 w2 ≡ₚ s2 /\ vm_buffers w2 ≡ₚ bufs.
Proof. apply release_spec. Qed.

Lemma extra_ranges_released_witness :
  exists g1 w1, guest_add_mapping ex_slab ex_vm 67108864 4096 3 0 = (0, g1, w1, 65536) /\
    vm_buffers w1 = [(65536, 4096)] /\ vm_stage2 w1 = [(67108864, 4096)] /\
    let '(g2, w2) := release_extra_mappings g1 w1 in
    let '(g3, w3) := release_overflow_segments g2 w2 0 in
    vm_stage2 w3 ≡ₚ [] /\ vm_buffers w3 ≡ₚ [].
Proof.
  pose proof (add_mapping_spec [] [] ex_slab ex_vm 67108864 4096 3 0) as H.
  destruct (guest_add_mapping ex_slab ex_vm 67108864 4096 3 0) as [[[rc g1] w1] va] eqn:E.
  destruct (H rc g1 w1 va ex_slab_ok ltac:(conc) ltac:(conc) ltac:(conc) eq_refl) as [Hok _].
  pose proof (extra_ranges_released [] [] g1 w1 0 Hok) as HR.
  vm_compute in E. injection E as <- <- <- <-. do 2 eexists. split; [reflexivity|]. split; [reflexivity|].
  split; [reflexivity|]. destruct (release_extra_mappings _ _) as [g2 w2].
  destruct (release_overflow_segments g2 w2 0) as [g3 w3]. destruct HR as (_ & _ & _ & H1 & H2). by split.
Defined.

(** The segment placed past a mapping of a single page starts in the middle of a
    2 MiB block, and the block mapper refuses the block it hands out. *)
Lemma overflow_block_misaligned :
  exists g1 w1 g2 w2, guest_add_mapping ex_slab ex_vm 67108864 4096 3 0 = (0, g1, w1, 65536) /\
    guest_overflow_alloc g1 w1 = Some (67112960, g2, w2) /\ 67112960 mod BLOCK_2MIB = 4096 /\
    forall s, guest_map_va_range (g_layout g2) s 140737488355328 140737490452480 67112960 3 = Some (-1, s).
Proof. do 4 eexists. split; [reflexivity|]. split; [vm_compute; reflexivity|]. split; [done|]. intros s. reflexivity. Qed.
