(* ===== verification/Segments.v ===== *)
(** * Stage-2 segments and file overlays: src/syscall/mem.c

    The slab is mapped into the hypervisor in segments, because only a range that
    was mapped as a whole can be unmapped.  A MAP_SHARED file mapping is an
    overlay: the host memory of part of the slab is replaced by a mapping of the
    file, and the segments over it are unmapped and mapped again so that the
    guest sees the new pages. *)

From S2P Require Import Prelude Tlbi Regions PageTable Gva GvaFacts Backing.

(** ** The host's fixed mappings and thread control

    [host_backing h a] observes what the host maps at address [a]: a file and an
    offset, or anonymous memory. *)

Class HostSlab (W : Type) := {
  mmap_fixed : W -> Z -> Z -> option (Z * Z) -> Z * W;    (* 0 or a negative errno *)
  fcntl_getfl : W -> Z -> Z;
  thread_quiesce_siblings : W -> bool * W;
  thread_resume_siblings : W -> W;
  host_backing : W -> Z -> option (Z * Z)
}.

Class HostSlabLaws (W : Type) `{!HostVm W, !HostSlab W} : Prop := {
  fixed_ok w p n f w' : mmap_fixed w p n f = (0, w') ->
    (forall a, host_backing w' a =
       if (p <=? a) && (a <? p + n)
       then match f with Some (fd, off) => Some (fd, off + (a - p)) | None => None end
       else host_backing w a) /\
    vm_stage2 w' = vm_stage2 w /\ vm_buffers w' = vm_buffers w;
  fixed_fail w p n f rc w' : mmap_fixed w p n f = (rc, w') -> rc <> 0 ->
    rc < 0 /\ host_backing w' = host_backing w /\ vm_stage2 w' = vm_stage2 w /\ vm_buffers w' = vm_buffers w;
  quiesce_frame w b w' : thread_quiesce_siblings w = (b, w') ->
    host_backing w' = host_backing w /\ vm_stage2 w' = vm_stage2 w /\ vm_buffers w' = vm_buffers w;
  resume_frame w :
    host_backing (thread_resume_siblings w) = host_backing w /\
    vm_stage2 (thread_resume_siblings w) = vm_stage2 w /\ vm_buffers (thread_resume_siblings w) = vm_buffers w;
  hv_map_backing w h ipa n f : host_backing (snd (hv_vm_map w h ipa n f)) = host_backing w;
  hv_unmap_backing w ipa n : host_backing (snd (hv_vm_unmap w ipa n)) = host_backing w
}.

Record hvf_segment_t := mk_seg { sg_ipa : Z; sg_len : Z }.
Definition sg_end (s : hvf_segment_t) : Z := (sg_ipa s + sg_len s)%u64.

Definition GUEST_MAX_HVF_SEGMENTS : nat := Z.to_nat 256.
Definition HVF_SEGMENT_FLAGS : Z := HV_MEMORY_RWX.

(** [while (lo <= hi)] *)
Fixpoint seg_find_loop (l : list hvf_segment_t) (ipa : Z) (fuel : nat) (lo hi : Z) : option nat :=
  match fuel with
  | O => None
  | S fuel =>
      if lo <=? hi then
        let mid := (lo + hi) / 2 in
        match l !! Z.to_nat mid with
        | None => None
        | Some s =>
            if (sg_ipa s <=? ipa) && (ipa <? sg_end s) then Some (Z.to_nat mid)
            else if ipa <? sg_ipa s then seg_find_loop l ipa fuel lo (mid - 1)
            else seg_find_loop l ipa fuel (mid + 1) hi
        end
      else None
  end.

(** [None] for -1. *)
Definition hvf_segment_find (l : list hvf_segment_t) (ipa : Z) : option nat :=
  seg_find_loop l ipa (S (length l)) 0 (Z.of_nat (length l) - 1).

Section Segments.
Context {W : Type} `{!HostVm W, !HostSlab W}.

(** [g->host_base] and [g->shm_fd] *)
Variable host_base : Z.
Variable shm_fd : Z.

Definition hv_map_seg (w : W) (s : hvf_segment_t) : bool * W :=
  hv_vm_map w (host_base + sg_ipa s) (sg_ipa s) (sg_len s) HVF_SEGMENT_FLAGS.
Definition hv_unmap_seg (w : W) (s : hvf_segment_t) : bool * W := hv_vm_unmap w (sg_ipa s) (sg_len s).

Definition hvf_restore_slab_backing (w : W) (ipa len : Z) : Z * W :=
  mmap_fixed w (host_base + ipa) len (if 0 <=? shm_fd then Some (shm_fd, ipa) else None).

(** The mapping loop of the split with its recovery: [done] are the pieces
    already mapped. *)
Fixpoint map_pieces (w : W) (orig : hvf_segment_t) (done todo : list hvf_segment_t) : bool * W :=
  match todo with
  | [] => (true, w)
  | p :: todo =>
      let '(ok, w) := hv_map_seg w p in
      if ok then map_pieces w orig (done ++ [p]) todo
      else
        let w := fold_left (fun w s => snd (hv_unmap_seg w s)) done w in
        (false, snd (hv_map_seg w orig))
  end.

Definition split_pieces (orig : hvf_segment_t) (start end_ : Z) : list hvf_segment_t :=
  (if sg_ipa orig <? start then [mk_seg (sg_ipa orig) (start - sg_ipa orig)%u64] else []) ++
  [mk_seg start (end_ - start)%u64] ++
  (if end_ <? sg_end orig then [mk_seg end_ (sg_end orig - end_)%u64] else []).

Definition hvf_segment_split (l : list hvf_segment_t) (w : W) (aligned_start aligned_end : Z)
    : Z * list hvf_segment_t * W :=
  match hvf_segment_find l aligned_start with
  | None => (- LINUX_EFAULT, l, w)
  | Some idx =>
      match l !! idx with
      | None => (- LINUX_EFAULT, l, w)
      | Some orig =>
          if sg_end orig <? aligned_end then (- LINUX_EFAULT, l, w)
          else if (aligned_start =? sg_ipa orig) && (aligned_end =? sg_end orig) then (0, l, w)
          else
            let pieces := split_pieces orig aligned_start aligned_end in
            if (GUEST_MAX_HVF_SEGMENTS <? length l + length pieces - 1)%nat then (- LINUX_ENOMEM, l, w)
            else
              let '(ok, w) := hv_unmap_seg w orig in
              if negb ok then (- LINUX_EIO, l, w)
              else
                let '(ok, w) := map_pieces w orig [] pieces in
                if negb ok then (- LINUX_EIO, l, w)
                else (0, take idx l ++ pieces ++ drop (idx + 1) l, w)
      end
  end.

Definition hvf_segment_split_range_boundaries (l : list hvf_segment_t) (w : W) (aligned_start aligned_end : Z)
    : Z * list hvf_segment_t * W :=
  match hvf_segment_find l aligned_start ≫= (fun i => l !! i) with
  | None => (- LINUX_EFAULT, l, w)
  | Some s =>
      let '(err, l, w) :=
        if sg_ipa s <? aligned_start then hvf_segment_split l w aligned_start (sg_end s) else (0, l, w) in
      if err <? 0 then (err, l, w)
      else
        match hvf_segment_find l (aligned_end - 1)%u64 ≫= (fun i => l !! i) with
        | None => (- LINUX_EFAULT, l, w)
        | Some s =>
            let '(err, l, w) :=
              if aligned_end <? sg_end s then hvf_segment_split l w (sg_ipa s) aligned_end else (0, l, w) in
            if err <? 0 then (err, l, w) else (0, l, w)
        end
  end.

(** The segments, or a negative errno. *)
Definition collect_body (l : list hvf_segment_t) (aligned_end : Z) (max_segments : nat)
    (x : Z * list hvf_segment_t) : (Z * list hvf_segment_t) + option (Z + list hvf_segment_t) :=
  let '(cursor, out) := x in
  if cursor <? aligned_end then
    match hvf_segment_find l cursor ≫= (fun i => l !! i) with
    | None => inr (Some (inl (- LINUX_EFAULT)))
    | Some s =>
        if negb (sg_ipa s =? cursor) then inr (Some (inl (- LINUX_EFAULT)))
        else if (max_segments <=? length out)%nat then inr (Some (inl (- LINUX_ENOMEM)))
        else inl ((cursor + sg_len s)%u64, out ++ [s])
    end
  else inr (Some (if cursor =? aligned_end then inr out else inl (- LINUX_EFAULT))).

Definition hvf_segment_collect_range (l : list hvf_segment_t) (aligned_start aligned_end : Z) (max_segments : nat)
    : option (Z + list hvf_segment_t) :=
  loop (Z.of_nat max_segments + 2) (collect_body l aligned_end max_segments) (aligned_start, []).

Definition hvf_remap_segments_best_effort (w : W) (l : list hvf_segment_t) : W :=
  fold_left (fun w s => snd (hv_map_seg w s)) l w.

(** The unmapping loop with its rollback: [done] are the segments already
    unmapped. *)
Fixpoint unmap_segments (w : W) (done todo : list hvf_segment_t) : bool * W :=
  match todo with
  | [] => (true, w)
  | s :: todo =>
      let '(ok, w) := hv_unmap_seg w s in
      if negb ok then (false, hvf_remap_segments_best_effort w done)
      else unmap_segments w (done ++ [s]) todo
  end.

(** The detached segments, or a negative errno. *)
Definition hvf_detach_range_segments (l : list hvf_segment_t) (w : W) (ipa len : Z)
    : option ((Z + list hvf_segment_t) * list hvf_segment_t * W) :=
  let aligned_start := ALIGN_2MIB_DOWN ipa in
  let aligned_end := ALIGN_2MIB_UP (ipa + len)%u64 in
  let '(err, l, w) := hvf_segment_split_range_boundaries l w aligned_start aligned_end in
  if err <? 0 then Some (inl err, l, w)
  else
    r ← hvf_segment_collect_range l aligned_start aligned_end GUEST_MAX_HVF_SEGMENTS;
    match r with
    | inl err => Some (inl err, l, w)
    | inr segs =>
        let '(ok, w) := unmap_segments w [] segs in
        if ok then Some (inr segs, l, w) else Some (inl (- LINUX_EIO), l, w)
    end.

(** The mapping loop of the overlay: stops at the first refusal. *)
Fixpoint map_segments (w : W) (l : list hvf_segment_t) : bool * W :=
  match l with
  | [] => (true, w)
  | s :: l => let '(ok, w) := hv_map_seg w s in if ok then map_segments w l else (false, w)
  end.

Definition hvf_apply_file_overlay_quiesced (l : list hvf_segment_t) (w : W) (ipa len fd file_off : Z)
    : option (Z * list hvf_segment_t * W) :=
  '(r, l, w) ← hvf_detach_range_segments l w ipa len;
  match r with
  | inl err => Some (err, l, w)
  | inr segs =>
      let '(err, w) := mmap_fixed w (host_base + ipa) len (Some (fd, file_off)) in
      if negb (err =? 0) then Some (err, l, hvf_remap_segments_best_effort w segs)
      else
        let '(ok, w) := map_segments w segs in
        if ok then Some (0, l, w)
        else
          let w := snd (hvf_restore_slab_backing w ipa len) in
          Some (- LINUX_EIO, l, hvf_remap_segments_best_effort w segs)
  end.

(** [O_ACCMODE] is 3, [O_RDONLY] 0. *)
Definition overlay_fd_writable (w : W) (fd : Z) : bool :=
  let fl := fcntl_getfl w fd in
  if fl <? 0 then true else negb (Z.land fl 3 =? 0).

Definition hvf_apply_file_overlay (l : list hvf_segment_t) (w : W) (ipa len fd file_off : Z)
    : option (Z * list hvf_segment_t * W) :=
  if negb (overlay_fd_writable w fd) then Some (- LINUX_EACCES, l, w)
  else
    let '(ok, w) := thread_quiesce_siblings w in
    if negb ok then Some (- LINUX_EINTR, l, w)
    else
      '(err, l, w) ← hvf_apply_file_overlay_quiesced l w ipa len fd file_off;
      Some (err, l, thread_resume_siblings w).

Definition hvf_remove_file_overlay_quiesced (l : list hvf_segment_t) (w : W) (ipa len : Z)
    : option (Z * list hvf_segment_t * W) :=
  '(r, l, w) ← hvf_detach_range_segments l w ipa len;
  match r with
  | inl err => Some (err, l, w)
  | inr segs =>
      let '(err, w) := hvf_restore_slab_backing w ipa len in
      if err <? 0 then Some (err, l, hvf_remap_segments_best_effort w segs)
      else
        let '(ok, w) := map_segments w segs in
        Some (if ok then 0 else - LINUX_EIO, l, w)
  end.

Definition hvf_remove_file_overlay (l : list hvf_segment_t) (w : W) (ipa len : Z)
    : option (Z * list hvf_segment_t * W) :=
  let '(ok, w) := thread_quiesce_siblings w in
  if negb ok then Some (- LINUX_EINTR, l, w)
  else
    '(err, l, w) ← hvf_remove_file_overlay_quiesced l w ipa len;
    Some (err, l, thread_resume_siblings w).

End Segments.
