(* ===== verification/SegFacts.v ===== *)
(** * Facts about the stage-2 segments

    The segments tile the slab ([tiles]); splitting keeps the tiling and adds the
    requested boundaries, and the stage-2 ranges follow the segments ([held]). *)

From stdpp Require Import sets.
From S2P Require Import Prelude Tlbi Regions PageTable Gva GvaFacts Backing Segments.

(** ** Tilings *)

(** [l] tiles the addresses from [lo] to [hi]. *)
Fixpoint tiles (lo : Z) (l : list hvf_segment_t) (hi : Z) : Prop :=
  match l with
  | [] => lo = hi
  | s :: l => sg_ipa s = lo /\ 0 < sg_len s /\ tiles (lo + sg_len s) l hi
  end.

(** Where segments begin, and the end of the slab. *)
Definition bounds (l : list hvf_segment_t) (top : Z) : list Z := map sg_ipa l ++ [top].

Lemma tiles_le lo l hi : tiles lo l hi -> lo <= hi.
Proof.
  revert lo. induction l as [|s l IH]; intros lo; cbn [tiles]; [lia|].
  intros (? & ? & Hl). apply IH in Hl. lia.
Qed.

Lemma tiles_app lo l1 l2 hi : tiles lo (l1 ++ l2) hi <-> exists mid, tiles lo l1 mid /\ tiles mid l2 hi.
Proof.
  revert lo. induction l1 as [|s l1 IH]; intros lo; cbn [tiles app].
  - split; [intros H; by exists lo | by intros (mid & -> & H)].
  - split.
    + intros (? & ? & (mid & ? & ?)%IH). by exists mid.
    + intros (mid & (? & ? & ?) & ?). split_and!; [done..|]. apply IH. by exists mid.
Qed.

Lemma tiles_lookup lo l hi i s : tiles lo l hi -> l !! i = Some s ->
  lo <= sg_ipa s /\ 0 < sg_len s /\ sg_ipa s + sg_len s <= hi /\
  tiles lo (take i l) (sg_ipa s) /\ tiles (sg_ipa s + sg_len s) (drop (i + 1) l) hi.
Proof.
  intros Ht Hi. pose proof (take_drop_middle _ _ _ Hi) as E.
  rewrite <- E in Ht. apply tiles_app in Ht as (mid & H1 & <- & Hp & H2).
  pose proof (tiles_le _ _ _ H1). pose proof (tiles_le _ _ _ H2).
  rewrite Nat.add_1_r. by split_and!.
Qed.

Lemma tiles_before lo l hi i j s t : tiles lo l hi -> l !! i = Some s -> l !! j = Some t -> (i < j)%nat ->
  sg_ipa s + sg_len s <= sg_ipa t.
Proof.
  intros Ht Hi Hj Hij. destruct (tiles_lookup _ _ _ _ _ Ht Hi) as (_ & _ & _ & _ & H2).
  apply (tiles_lookup _ _ _ (j - (i + 1)) t) in H2 as (? & _); [lia|].
  rewrite lookup_drop. rewrite <- Hj. f_equal. lia.
Qed.

Lemma tiles_cover lo l hi x : tiles lo l hi -> lo <= x < hi ->
  exists i s, l !! i = Some s /\ sg_ipa s <= x < sg_ipa s + sg_len s.
Proof.
  revert lo. induction l as [|s l IH]; intros lo; cbn [tiles]; [lia|].
  intros (Hs & Hp & Hl) Hx. destruct (Z.lt_ge_cases x (sg_ipa s + sg_len s)).
  - exists 0%nat, s. split; [done|lia].
  - destruct (IH _ Hl ltac:(lia)) as (i & t & Hi & Ht). by exists (S i), t.
Qed.

Lemma tiles_first lo l top : tiles lo l top -> lo ∈ bounds l top.
Proof. destruct l as [|s l]; cbn [tiles]; unfold bounds; cbn; [intros ->|intros (<- & _)]; set_solver. Qed.

(** A boundary splits the tiling. *)
Lemma tiles_at l top b lo : tiles lo l top -> b ∈ bounds l top ->
  exists l1 l2, l = l1 ++ l2 /\ tiles lo l1 b /\ tiles b l2 top.
Proof.
  unfold bounds. intros Ht Hb. apply elem_of_app in Hb as [Hb|Hb].
  - apply list_elem_of_fmap in Hb as (s & -> & Hs). apply list_elem_of_split in Hs as (l1 & l2 & ->).
    exists l1, (s :: l2). split; [done|]. apply tiles_app in Ht as (mid & H1 & H2).
    assert (mid = sg_ipa s) as -> by (by destruct H2 as (<- & _)). done.
  - apply list_elem_of_singleton in Hb as ->. exists l, []. by rewrite app_nil_r.
Qed.

Lemma bounds_range l top b lo : tiles lo l top -> b ∈ bounds l top -> lo <= b <= top.
Proof.
  intros Ht Hb. destruct (tiles_at _ _ _ _ Ht Hb) as (l1 & l2 & _ & H1 & H2).
  split; [by eapply tiles_le | by eapply tiles_le].
Qed.

(** ** The search *)

Section Find.
Context (top : Z) (Htop : top <= 2 ^ 48).

Lemma sg_end_exact lo l i s : 0 <= lo -> tiles lo l top -> l !! i = Some s -> sg_end s = sg_ipa s + sg_len s.
Proof using Htop. intros ? Ht Hi. destruct (tiles_lookup _ _ _ _ _ Ht Hi) as (? & ? & ? & _). unfold sg_end. by u64. Qed.

Lemma seg_find_loop_hit l x i s : tiles 0 l top -> l !! i = Some s -> sg_ipa s <= x < sg_ipa s + sg_len s ->
  forall fuel lo hi, 0 <= lo <= Z.of_nat i -> Z.of_nat i <= hi < Z.of_nat (length l) ->
    (Z.to_nat (hi - lo + 1) < fuel)%nat -> seg_find_loop l x fuel lo hi = Some i.
Proof using Htop.
  intros Ht Hi Hx. induction fuel as [|fuel IH]; intros lo hi Hlo Hhi Hf; [lia|].
  cbn [seg_find_loop]. rewrite (proj2 (Z.leb_le lo hi)) by lia.
  assert (lo <= (lo + hi) / 2 <= hi) as Hm by zdm. set (mid := (lo + hi) / 2) in *.
  destruct (lookup_lt_is_Some_2 l (Z.to_nat mid) ltac:(lia)) as [t Et]. rewrite Et.
  rewrite (sg_end_exact 0 l _ t ltac:(lia) Ht Et).
  destruct (Nat.lt_trichotomy (Z.to_nat mid) i) as [Hlt|[Heq|Hgt]].
  - pose proof (tiles_before _ _ _ _ _ _ _ Ht Et Hi Hlt).
    pose proof (tiles_lookup _ _ _ _ _ Ht Et).
    rewrite (proj2 (Z.ltb_ge x (sg_ipa t + sg_len t))), andb_false_r, (proj2 (Z.ltb_ge x (sg_ipa t))) by lia.
    apply IH; lia.
  - rewrite Heq in *. assert (t = s) as -> by congruence.
    rewrite (proj2 (Z.leb_le _ _)), (proj2 (Z.ltb_lt _ _)) by lia. done.
  - pose proof (tiles_before _ _ _ _ _ _ _ Ht Hi Et Hgt).
    rewrite (proj2 (Z.leb_gt (sg_ipa t) x)), (proj2 (Z.ltb_lt x (sg_ipa t))) by lia. cbn [andb].
    apply IH; lia.
Qed.

Lemma segment_find_hit l x : tiles 0 l top -> 0 <= x < top ->
  exists i s, hvf_segment_find l x = Some i /\ l !! i = Some s /\ sg_ipa s <= x < sg_ipa s + sg_len s.
Proof using Htop.
  intros Ht Hx. destruct (tiles_cover _ _ _ _ Ht Hx) as (i & s & Hi & Hs). exists i, s. split_and!; [|done|lia..].
  pose proof (lookup_lt_Some _ _ _ Hi). unfold hvf_segment_find.
  apply (seg_find_loop_hit l x i s Ht Hi Hs); lia.
Qed.

(** Two segments of a tiling that hold the same address are the same. *)
Lemma tiles_same l i j s t x : tiles 0 l top -> l !! i = Some s -> l !! j = Some t ->
  sg_ipa s <= x < sg_ipa s + sg_len s -> sg_ipa t <= x < sg_ipa t + sg_len t -> i = j.
Proof.
  intros Ht Hi Hj Hs Hx. destruct (Nat.lt_trichotomy i j) as [H|[H|H]]; [|done|].
  - pose proof (tiles_before _ _ _ _ _ _ _ Ht Hi Hj H). lia.
  - pose proof (tiles_before _ _ _ _ _ _ _ Ht Hj Hi H). lia.
Qed.

(** ** The run of segments between two boundaries *)

Lemma collect_spec l a b : tiles 0 l top -> (length l <= GUEST_MAX_HVF_SEGMENTS)%nat ->
  a ∈ bounds l top -> b ∈ bounds l top -> a <= b ->
  exists l1 segs l3, hvf_segment_collect_range l a b GUEST_MAX_HVF_SEGMENTS = Some (inr segs) /\
    l = l1 ++ segs ++ l3 /\ tiles a segs b.
Proof using Htop.
  intros Ht Hn Ha Hb Hab. pose proof (bounds_range _ _ _ _ Ht Ha). pose proof (bounds_range _ _ _ _ Ht Hb).
  destruct (tiles_at _ _ _ _ Ht Ha) as (l1 & l2 & -> & H1 & H2).
  assert (b ∈ bounds l2 top) as Hb2.
  { unfold bounds in *. rewrite map_app, <- app_assoc in Hb. apply elem_of_app in Hb as [Hb|Hb]; [|done].
    apply list_elem_of_fmap in Hb as (s & -> & [i Hi]%list_elem_of_lookup).
    pose proof (tiles_lookup _ _ _ _ _ H1 Hi). lia. }
  destruct (tiles_at _ _ _ _ H2 Hb2) as (segs & l3 & -> & H3 & H4).
  exists l1, segs, l3. split_and!; [|done|done].
  set (l := l1 ++ segs ++ l3) in *.
  enough (exists r, hvf_segment_collect_range l a b GUEST_MAX_HVF_SEGMENTS = Some r /\ r = inr segs) as (r & Er & ->)
    by done.
  apply (loop_rule _ (fun x => exists rest, segs = snd x ++ rest /\ tiles (fst x) rest b /\ a <= fst x)
    (fun x => Z.of_nat (length segs) - Z.of_nat (length (snd x)))).
  - intros [c out] (rest & -> & Hr & Hc). cbn [fst snd] in *. cbn [collect_body].
    pose proof (tiles_le _ _ _ Hr). destruct rest as [|s rest]; cbn [tiles] in Hr.
    + subst c. rewrite Z.ltb_irrefl, Z.eqb_refl. by rewrite app_nil_r.
    + destruct Hr as (Hs & Hp & Hr). pose proof (tiles_le _ _ _ Hr).
      rewrite (proj2 (Z.ltb_lt c b)) by lia.
      destruct (segment_find_hit l c Ht ltac:(lia)) as (i & t & -> & Hi & Hti). cbn [mbind option_bind]. rewrite Hi.
      assert (l !! (length l1 + length out)%nat = Some s) as Hl.
      { subst l. rewrite <- (app_assoc out). rewrite lookup_app_r, lookup_app_r by lia.
        by replace (_ - _ - _)%nat with 0%nat by lia. }
      assert (t = s) as ->.
      { assert (i = length l1 + length out)%nat as -> by (eapply tiles_same; eauto; lia). congruence. }
      rewrite (proj2 (Z.eqb_eq _ _)) by done. cbn [negb].
      assert (length out < GUEST_MAX_HVF_SEGMENTS)%nat as Hlt.
      { subst l. rewrite !length_app in Hn. cbn [length] in Hn. lia. }
      rewrite (proj2 (Nat.leb_gt _ _)) by done. cbn [fst snd].
      assert ((c + sg_len s)%u64 = c + sg_len s) as -> by (by u64).
      split; [|rewrite !length_app; cbn [length]; lia].
      exists rest. rewrite <- app_assoc. split_and!; [done|done|lia].
  - exists segs. by split_and!.
  - cbn [snd length]. subst l. rewrite !length_app in Hn. lia.
Qed.
End Find.

(** ** The stage-2 ranges follow the segments *)

Section Held.
Context {W : Type} `{HVm : !HostVm W, HVl : !HostVmLaws W, HSl : !HostSlab W, HSll : !HostSlabLaws W}.
Variable host_base : Z.
(** Stage-2 ranges above the slab. *)
Variable others : list (Z * Z).

Definition seg_range (s : hvf_segment_t) : Z * Z := (sg_ipa s, sg_len s).

(** The mapped ranges are those of [l] and the others. *)
Definition held (w : W) (l : list hvf_segment_t) : Prop := vm_stage2 w ≡ₚ map seg_range l ++ others.

(** A hypervisor that refuses no map of a free range and no unmap of a mapped
    one. *)
Definition hv_reliable : Prop :=
  (forall (w : W) h ipa n f, 0 < n ->
     Forall (fun r => fst r + snd r <= ipa \/ ipa + n <= fst r) (vm_stage2 w) ->
     fst (hv_vm_map w h ipa n f) = true) /\
  (forall (w : W) ipa n l, vm_stage2 w ≡ₚ (ipa, n) :: l -> fst (hv_vm_unmap w ipa n) = true).

Lemma map_seg_ok w s w' l1 l2 : hv_map_seg host_base w s = (true, w') -> held w (l1 ++ l2) -> held w' (l1 ++ s :: l2).
Proof using HVl.
  unfold hv_map_seg, held. intros E H. destruct (map_ok _ _ _ _ _ _ E) as [E1 _]. rewrite E1, H, !map_app. cbn [map].
  rewrite <- !app_assoc. apply (Permutation_middle (map seg_range l1)).
Qed.

Lemma unmap_seg_ok w s w' l1 l2 : hv_unmap_seg w s = (true, w') -> held w (l1 ++ s :: l2) -> held w' (l1 ++ l2).
Proof using HVl.
  unfold hv_unmap_seg, held. intros E H. destruct (unmap_ok _ _ _ _ (map seg_range (l1 ++ l2) ++ others) E) as [E1 _]; [|by rewrite E1].
  { rewrite H, !map_app. cbn [map]. rewrite <- !app_assoc. symmetry. apply (Permutation_middle (map seg_range l1)). }
Qed.

Lemma seg_backing w s :
  host_backing (snd (hv_map_seg host_base w s)) = host_backing w /\
  host_backing (snd (hv_unmap_seg w s)) = host_backing w.
Proof using HSll. split; [apply hv_map_backing | apply hv_unmap_backing]. Qed.

Context (top : Z) (Hothers : Forall (fun r => top <= fst r) others).

Lemma map_seg_true w s l1 l2 l : hv_reliable -> tiles 0 (l1 ++ s :: l2) top -> held w l -> l ⊆ l1 ++ l2 ->
  fst (hv_map_seg host_base w s) = true.
Proof using Hothers HVl.
  intros [Hm _] Ht Hh Hl. apply tiles_app in Ht as (mid & H1 & <- & Hp & H2). apply Hm; [done|].
  unfold held in Hh. rewrite Hh. pose proof (tiles_le _ _ _ H2). apply Forall_app. split.
  - apply Forall_map, list.Forall_forall. intros t Ht%Hl. unfold seg_range. cbn [fst snd].
    apply elem_of_app in Ht as [[i Hi]%list_elem_of_lookup|[i Hi]%list_elem_of_lookup].
    + pose proof (tiles_lookup _ _ _ _ _ H1 Hi). lia.
    + pose proof (tiles_lookup _ _ _ _ _ H2 Hi). lia.
  - apply (list.Forall_impl _ _ _ Hothers). lia.
Qed.

Lemma unmap_seg_true w s l1 l2 : hv_reliable -> held w (l1 ++ s :: l2) -> fst (hv_unmap_seg w s) = true.
Proof using.
  intros [_ Hu] Hh. eapply Hu. unfold held in Hh. rewrite Hh, map_app. cbn [map]. rewrite <- app_assoc.
  symmetry. apply (Permutation_middle (map seg_range l1)).
Qed.

(** *** Runs of maps and unmaps *)

Lemma map_segments_spec todo w l1 l3 : tiles 0 (l1 ++ todo ++ l3) top ->
  host_backing (snd (map_segments host_base w todo)) = host_backing w /\
  (held w (l1 ++ l3) -> fst (map_segments host_base w todo) = true \/ hv_reliable ->
    fst (map_segments host_base w todo) = true /\ held (snd (map_segments host_base w todo)) (l1 ++ todo ++ l3)).
Proof using Hothers HVl HSll.
  revert w l1. induction todo as [|s todo IH]; intros w l1 Ht; [by split|]. cbn [map_segments].
  pose proof (proj1 (seg_backing w s)) as Hb.
  destruct (hv_map_seg host_base w s) as [ok w1] eqn:E. cbn [snd] in Hb.
  change (l1 ++ (s :: todo) ++ l3) with (l1 ++ [s] ++ todo ++ l3) in *.
  destruct ok; cbn [snd fst].
  - rewrite app_assoc in Ht. destruct (IH w1 (l1 ++ [s]) Ht) as [Hb' Hh']. rewrite Hb'. split; [done|].
    intros Hh. apply (map_seg_ok _ _ _ _ _ E) in Hh. rewrite <- !app_assoc in Hh'. exact (Hh' Hh).
  - split; [done|]. intros Hh [?|Hr]; [done|]. exfalso.
    assert (fst (hv_map_seg host_base w s) = true) as Ht'; [|by rewrite E in Ht'].
    apply (map_seg_true w s l1 (todo ++ l3) (l1 ++ l3) Hr Ht Hh). set_solver.
Qed.

Lemma map_pieces_segments w orig did todo :
  fst (map_pieces host_base w orig did todo) = fst (map_segments host_base w todo) /\
  (fst (map_segments host_base w todo) = true ->
     snd (map_pieces host_base w orig did todo) = snd (map_segments host_base w todo)).
Proof.
  revert w did. induction todo as [|s todo IH]; intros w did; [done|]. cbn [map_pieces map_segments].
  destruct (hv_map_seg host_base w s) as [[] w1]; [apply IH|done].
Qed.

Lemma fold_backing (f : W -> hvf_segment_t -> bool * W) l w :
  (forall w s, host_backing (snd (f w s)) = host_backing w) ->
  host_backing (fold_left (fun w s => snd (f w s)) l w) = host_backing w.
Proof. intros Hf. revert w. induction l as [|s l IH]; intros w; [done|]. cbn. by rewrite IH, Hf. Qed.

Lemma map_pieces_backing w orig did todo :
  host_backing (snd (map_pieces host_base w orig did todo)) = host_backing w.
Proof using HSll.
  revert w did. induction todo as [|s todo IH]; intros w did; [done|]. cbn [map_pieces].
  pose proof (proj1 (seg_backing w s)) as Hb. destruct (hv_map_seg host_base w s) as [[] w1]; cbn [snd] in *.
  - by rewrite IH.
  - rewrite (proj1 (seg_backing _ _)), fold_backing; [done|]. intros; apply seg_backing.
Qed.

Lemma remap_backing w l : host_backing (hvf_remap_segments_best_effort host_base w l) = host_backing w.
Proof using HSll. apply fold_backing. intros; apply seg_backing. Qed.

(** A remap that meets no refusal is the plain run of maps. *)
Lemma remap_segments w l : fst (map_segments host_base w l) = true ->
  hvf_remap_segments_best_effort host_base w l = snd (map_segments host_base w l).
Proof.
  revert w. induction l as [|s l IH]; intros w; [done|]. cbn.
  destruct (hv_map_seg host_base w s) as [[] w1]; [apply IH|done].
Qed.

Lemma remap_held w l1 segs l3 : hv_reliable -> tiles 0 (l1 ++ segs ++ l3) top -> held w (l1 ++ l3) ->
  held (hvf_remap_segments_best_effort host_base w segs) (l1 ++ segs ++ l3).
Proof using Hothers HVl HSll.
  intros Hr Ht Hh. destruct (map_segments_spec segs w l1 l3 Ht) as [_ H].
  destruct (H Hh (or_intror Hr)) as [H1 H2]. by rewrite remap_segments.
Qed.

Lemma unmap_segments_spec todo w did l1 l3 :
  host_backing (snd (unmap_segments host_base w did todo)) = host_backing w /\
  (held w (l1 ++ todo ++ l3) -> fst (unmap_segments host_base w did todo) = true \/ hv_reliable ->
    fst (unmap_segments host_base w did todo) = true /\
    held (snd (unmap_segments host_base w did todo)) (l1 ++ l3)).
Proof using HVl HSll.
  revert w did. induction todo as [|s todo IH]; intros w did; [by split|]. cbn [unmap_segments].
  pose proof (proj2 (seg_backing w s)) as Hb.
  destruct (hv_unmap_seg w s) as [ok w1] eqn:E. cbn [snd] in Hb. destruct ok; cbn [negb snd fst].
  - destruct (IH w1 (did ++ [s])) as [Hb' Hh']. rewrite Hb'. split; [exact Hb|].
    intros Hh. apply Hh'. exact (unmap_seg_ok _ _ _ _ _ E Hh).
  - split; [by rewrite remap_backing|]. intros Hh [?|Hr]; [discriminate|]. exfalso.
    pose proof (unmap_seg_true w s l1 (todo ++ l3) Hr Hh) as Ht. by rewrite E in Ht.
Qed.

(** *** Splitting *)

Context (Htop : top <= 2 ^ 48).

(** What a split from [l], [w] to [l'], [w'] keeps: the tiling, its bounds up to
    [bs], the capacity, the host memory, and the stage-2 account unless the
    hypervisor refused; on success the boundaries [bs] exist. *)
Record split_result (bs : list Z) (l : list hvf_segment_t) (w : W) (rc : Z) (l' : list hvf_segment_t) (w' : W) : Prop := {
  sr_rc : rc <= 0;
  sr_tiles : tiles 0 l' top;
  sr_len : (length l' <= GUEST_MAX_HVF_SEGMENTS)%nat;
  sr_backing : host_backing w' = host_backing w;
  sr_held : rc = 0 \/ hv_reliable -> held w l -> held w' l';
  sr_new b : b ∈ bounds l' top -> b ∈ bounds l top \/ b ∈ bs;
  sr_old b : b ∈ bounds l top -> b ∈ bounds l' top;
  sr_got : rc = 0 -> forall b, b ∈ bs -> b ∈ bounds l' top
}.

Lemma split_refl bs l w rc w' : rc <= 0 -> tiles 0 l top -> (length l <= GUEST_MAX_HVF_SEGMENTS)%nat ->
  host_backing w' = host_backing w -> (rc = 0 \/ hv_reliable -> held w l -> held w' l) ->
  (rc = 0 -> forall b, b ∈ bs -> b ∈ bounds l top) -> split_result bs l w rc l w'.
Proof. intros. by split; auto. Qed.

Lemma split_trans bs1 bs2 l w l1 w1 rc l2 w2 : split_result bs1 l w 0 l1 w1 -> split_result bs2 l1 w1 rc l2 w2 ->
  split_result (bs1 ++ bs2) l w rc l2 w2.
Proof.
  intros [] []. split; [done|done|done|congruence| | | |].
  - intros Hr Hh. auto.
  - intros b [Hb|Hb]%sr_new1; [|set_solver]. apply sr_new0 in Hb. set_solver.
  - auto.
  - intros -> b [Hb|Hb]%elem_of_app; auto.
Qed.

Lemma pieces_tile orig s e : sg_end orig = sg_ipa orig + sg_len orig -> 0 <= sg_ipa orig <= s -> s < e ->
  e <= sg_ipa orig + sg_len orig <= top ->
  tiles (sg_ipa orig) (split_pieces orig s e) (sg_ipa orig + sg_len orig).
Proof using Htop.
  intros He Hs Hse Hend. unfold split_pieces. rewrite He.
  assert (tiles s ([mk_seg s (e - s)%u64] ++
    (if e <? sg_ipa orig + sg_len orig then [mk_seg e (sg_ipa orig + sg_len orig - e)%u64] else []))
    (sg_ipa orig + sg_len orig)) as Ht.
  { cbn [app tiles sg_ipa sg_len]. assert ((e - s)%u64 = e - s) as -> by (by u64). split_and!; [done|lia|].
    case_if; cbn [tiles sg_ipa sg_len]; [|lia].
    assert ((sg_ipa orig + sg_len orig - e)%u64 = sg_ipa orig + sg_len orig - e) as -> by (by u64). lia. }
  case_if.
  - apply tiles_app. exists s. split; [|exact Ht]. cbn [tiles sg_ipa sg_len].
    assert ((s - sg_ipa orig)%u64 = s - sg_ipa orig) as -> by (by u64). lia.
  - replace (sg_ipa orig) with s at 1 by lia. exact Ht.
Qed.

Lemma pieces_bounds orig s e hi l2 : sg_end orig = hi -> sg_ipa orig <= s -> e <= hi -> hi ∈ l2 ->
  forall b, b ∈ map sg_ipa (split_pieces orig s e) ++ l2 <-> b = sg_ipa orig \/ b = s \/ b = e \/ b ∈ l2.
Proof.
  intros He Hs Hhi Hl b. unfold split_pieces. rewrite He.
  assert (~ e < hi -> b = e -> b ∈ l2) by (intros ? ->; by replace e with hi by lia).
  destruct (Z.ltb_spec (sg_ipa orig) s), (Z.ltb_spec e hi); cbn [app map sg_ipa]; rewrite ?elem_of_cons;
    intuition (subst; auto; lia).
Qed.

Lemma bounds_app l1 l2 b : b ∈ bounds (l1 ++ l2) top <-> b ∈ map sg_ipa l1 \/ b ∈ bounds l2 top.
Proof. unfold bounds. rewrite map_app, <- app_assoc. apply elem_of_app. Qed.

(** Replacing a segment by its pieces. *)
Lemma pieces_result l1 orig l2 s e w rc w' (ps := split_pieces orig s e) :
  tiles 0 (l1 ++ orig :: l2) top -> sg_end orig = sg_ipa orig + sg_len orig ->
  sg_ipa orig <= s -> s < e -> e <= sg_ipa orig + sg_len orig ->
  (length (l1 ++ ps ++ l2) <= GUEST_MAX_HVF_SEGMENTS)%nat -> rc <= 0 ->
  host_backing w' = host_backing w ->
  (rc = 0 \/ hv_reliable -> held w (l1 ++ orig :: l2) -> held w' (l1 ++ ps ++ l2)) ->
  split_result [s; e] (l1 ++ orig :: l2) w rc (l1 ++ ps ++ l2) w'.
Proof using Htop.
  intros Ht He Hs Hse Hhi Hn Hrc Hb Hh. apply tiles_app in Ht as (mid & H1 & <- & Hp & H2).
  pose proof (tiles_le _ _ _ H1). pose proof (tiles_le _ _ _ H2).
  assert (forall b, b ∈ bounds (l1 ++ ps ++ l2) top <-> b ∈ map sg_ipa l1 \/ b = sg_ipa orig \/ b = s \/ b = e \/ b ∈ bounds l2 top)
    as Hbs.
  { intros b. rewrite bounds_app. unfold bounds. rewrite map_app, <- app_assoc. subst ps.
    rewrite (pieces_bounds _ _ _ (sg_ipa orig + sg_len orig)); [done|done|done|lia|]. by apply tiles_first. }
  assert (forall b, b ∈ bounds (l1 ++ orig :: l2) top <-> b ∈ map sg_ipa l1 \/ b = sg_ipa orig \/ b ∈ bounds l2 top) as Hbo.
  { intros b. rewrite bounds_app. unfold bounds. cbn [map app]. by rewrite elem_of_cons. }
  split; [done| |done|done|done| | |].
  - apply tiles_app. exists (sg_ipa orig). split; [done|]. apply tiles_app.
    exists (sg_ipa orig + sg_len orig). split; [|done]. apply pieces_tile; lia.
  - intros b. rewrite Hbs, Hbo, elem_of_cons, list_elem_of_singleton. tauto.
  - intros b. rewrite Hbs, Hbo. tauto.
  - intros _ b. rewrite Hbs, elem_of_cons, list_elem_of_singleton. tauto.
Qed.

Lemma segment_split_spec l w s e rc l' w' : tiles 0 l top -> (length l <= GUEST_MAX_HVF_SEGMENTS)%nat ->
  0 <= s < e -> e <= top -> hvf_segment_split host_base l w s e = (rc, l', w') ->
  split_result [s; e] l w rc l' w'.
Proof using Hothers HVl HSll Htop.
  intros Ht Hn Hse He. unfold hvf_segment_split.
  destruct (segment_find_hit top Htop l s Ht ltac:(lia)) as (i & orig & -> & Hi & Hs). rewrite Hi.
  pose proof (sg_end_exact top Htop 0 l i orig ltac:(lia) Ht Hi) as Hend. rewrite Hend.
  case_if; [intros [= <- <- <-]; by apply split_refl|].
  destruct (tiles_lookup _ _ _ _ _ Ht Hi) as (Ho1 & Ho2 & Ho3 & Htl & Htr).
  pose proof (take_drop_middle _ _ _ Hi) as El. rewrite <- Nat.add_1_r in El.
  set (l1 := take i l) in *. set (l2 := drop (i + 1) l) in *. clearbody l1 l2. subst l. clear Hi.
  case_if.
  { intros [= <- <- <-]. apply split_refl; [done..|]. intros _ b. rewrite elem_of_cons, list_elem_of_singleton, bounds_app.
    pose proof (tiles_first _ _ _ Htr) as Hhi. unfold bounds in *. cbn [map app]. rewrite elem_of_cons.
    intros [->| ->]; [right; left; lia|]. right; right. by replace e with (sg_ipa orig + sg_len orig) by lia. }
  destruct (Nat.ltb_spec GUEST_MAX_HVF_SEGMENTS (length (l1 ++ orig :: l2) + length (split_pieces orig s e) - 1));
    [intros [= <- <- <-]; by apply split_refl|].
  pose proof (proj2 (seg_backing w orig)) as Hb1.
  destruct (hv_unmap_seg w orig) as [ok w1] eqn:E1. cbn [snd] in Hb1. destruct ok; cbn [negb].
  2:{ intros [= <- <- <-]. apply split_refl; [done..| |done]. intros [?|Hr] Hh; [done|].
      pose proof (unmap_seg_true w orig l1 l2 Hr Hh) as Hc. by rewrite E1 in Hc. }
  set (ps := split_pieces orig s e) in *.
  assert (tiles 0 (l1 ++ ps ++ l2) top) as Htp.
  { apply tiles_app. exists (sg_ipa orig). split; [done|]. apply tiles_app.
    exists (sg_ipa orig + sg_len orig). split; [|done]. apply pieces_tile; lia. }
  destruct (map_pieces_segments w1 orig [] ps) as [Ef Es].
  pose proof (map_pieces_backing w1 orig [] ps) as Hb2.
  destruct (map_segments_spec ps w1 l1 l2 Htp) as [_ Hm].
  destruct (map_pieces host_base w1 orig [] ps) as [ok w2] eqn:E2. cbn [fst snd] in *. destruct ok; cbn [negb].
  - intros [= <- <- <-]. apply pieces_result; [done|done|lia..|fold ps; rewrite !length_app in *; cbn [length] in *; lia|done|congruence|].
    intros _ Hh. rewrite (Es (eq_sym Ef)).
    apply (Hm (unmap_seg_ok _ _ _ _ _ E1 Hh)). left. by rewrite <- Ef.
  - intros [= <- <- <-]. apply split_refl; [done..|congruence| |done]. intros [?|Hr] Hh; [done|].
    destruct (Hm (unmap_seg_ok _ _ _ _ _ E1 Hh) (or_intror Hr)) as [Hc _]. congruence.
Qed.
Lemma split_weaken bs bs' l w rc l' w' : split_result bs l w rc l' w' -> (forall b, b ∈ bs -> b ∈ bs' \/ b ∈ bounds l top) ->
  (rc = 0 -> forall b, b ∈ bs' -> b ∈ bounds l' top) -> split_result bs' l w rc l' w'.
Proof. intros [] Hbs Hgot. split; try done. intros b [Hb|Hb]%sr_new0; [by left|]. destruct (Hbs b Hb); tauto. Qed.

Lemma end_bound l i s : tiles 0 l top -> l !! i = Some s -> sg_ipa s + sg_len s ∈ bounds l top.
Proof.
  intros Ht Hi. destruct (tiles_lookup _ _ _ _ _ Ht Hi) as (_ & _ & _ & _ & Htr).
  pose proof (take_drop_middle _ _ _ Hi) as El. rewrite <- Nat.add_1_r in El. rewrite <- El.
  apply bounds_app. right. apply tiles_first in Htr. unfold bounds in *. cbn [map app]. rewrite elem_of_cons. by right.
Qed.

Lemma start_bound l i s : l !! i = Some s -> sg_ipa s ∈ bounds l top.
Proof. intros Hi. unfold bounds. apply elem_of_app. left. apply list_elem_of_fmap. exists s. split; [done|]. by eapply list_elem_of_lookup_2. Qed.

Lemma split_boundaries_spec l w s e rc l' w' : tiles 0 l top -> (length l <= GUEST_MAX_HVF_SEGMENTS)%nat ->
  0 <= s < e -> e <= top -> hvf_segment_split_range_boundaries host_base l w s e = (rc, l', w') ->
  split_result [s; e] l w rc l' w'.
Proof using Hothers HVl HSll Htop.
  intros Ht Hn Hse He. unfold hvf_segment_split_range_boundaries.
  destruct (segment_find_hit top Htop l s Ht ltac:(lia)) as (i & t & -> & Hi & Hs). run. rewrite Hi.
  pose proof (sg_end_exact top Htop 0 l i t ltac:(lia) Ht Hi) as Hend.
  destruct (tiles_lookup _ _ _ _ _ Ht Hi) as (_ & _ & Hle & _).
  destruct (if sg_ipa t <? s then _ else _) as [[r1 l1] w1] eqn:E1.
  assert (split_result [s] l w r1 l1 w1) as R1.
  { revert E1. case_if.
    - rewrite Hend. intros E%segment_split_spec; [|done|done|lia|lia].
      apply (split_weaken _ _ _ _ _ _ _ E).
      + intros b. rewrite elem_of_cons, !list_elem_of_singleton. intros [->| ->]; [by left|right]. by eapply end_bound.
      + intros -> b Hb%list_elem_of_singleton. subst b. apply (sr_got _ _ _ _ _ _ E eq_refl). set_solver.
    - intros [= <- <- <-]. apply split_refl; [done..|]. intros _ b Hb%list_elem_of_singleton. subst b.
      replace s with (sg_ipa t) by lia. by eapply start_bound. }
  pose proof (sr_rc _ _ _ _ _ _ R1). case_if.
  { intros [= <- <- <-]. apply (split_weaken _ _ _ _ _ _ _ R1); [set_solver|lia]. }
  assert (r1 = 0) as -> by lia.
  pose proof (sr_tiles _ _ _ _ _ _ R1) as Ht1. pose proof (sr_len _ _ _ _ _ _ R1) as Hn1.
  assert ((e - 1)%u64 = e - 1) as -> by (by u64).
  destruct (segment_find_hit top Htop l1 (e - 1) Ht1 ltac:(lia)) as (j & t2 & -> & Hj & Hs2). run. rewrite Hj.
  rewrite (sg_end_exact top Htop 0 l1 j t2 ltac:(lia) Ht1 Hj).
  destruct (tiles_lookup _ _ _ _ _ Ht1 Hj) as (Hp2 & _).
  destruct (if e <? sg_ipa t2 + sg_len t2 then _ else _) as [[r2 l2] w2] eqn:E2.
  assert (split_result [e] l1 w1 r2 l2 w2) as R2.
  { revert E2. case_if.
    - intros E%segment_split_spec; [|done|done|lia|lia].
      apply (split_weaken _ _ _ _ _ _ _ E).
      + intros b. rewrite elem_of_cons, !list_elem_of_singleton. intros [->| ->]; [right|by left]. by eapply start_bound.
      + intros -> b Hb%list_elem_of_singleton. subst b. apply (sr_got _ _ _ _ _ _ E eq_refl). set_solver.
    - intros [= <- <- <-]. apply split_refl; [done..|]. intros _ b Hb%list_elem_of_singleton. subst b.
      replace e with (sg_ipa t2 + sg_len t2) by lia. by eapply end_bound. }
  pose proof (sr_rc _ _ _ _ _ _ R2). intros E.
  assert ((r2, l2, w2) = (rc, l', w')) as [= -> -> ->].
  { revert E. case_if; [done|]. by replace r2 with 0 by lia. }
  exact (split_trans [s] [e] _ _ _ _ _ _ _ R1 R2).
Qed.

(** *** Detaching *)

(** The 2 MiB-aligned hull of a range. *)
Definition hull_lo (ipa : Z) : Z := ALIGN_2MIB_DOWN ipa.
Definition hull_hi (ipa len : Z) : Z := ALIGN_2MIB_UP (ipa + len)%u64.

Lemma detach_spec l w ipa len : tiles 0 l top -> (length l <= GUEST_MAX_HVF_SEGMENTS)%nat ->
  0 <= hull_lo ipa < hull_hi ipa len -> hull_hi ipa len <= top ->
  exists r l' w', hvf_detach_range_segments host_base l w ipa len = Some (r, l', w') /\
    match r with
    | inl rc => rc < 0 /\ split_result [hull_lo ipa; hull_hi ipa len] l w rc l' w'
    | inr segs => exists l1 l3, l' = l1 ++ segs ++ l3 /\ tiles (hull_lo ipa) segs (hull_hi ipa len) /\
        (exists w1, split_result [hull_lo ipa; hull_hi ipa len] l w 0 l' w1) /\
        host_backing w' = host_backing w /\ (held w l -> held w' (l1 ++ l3))
    end.
Proof using Hothers HVl HSll Htop.
  intros Ht Hn Hse He. unfold hvf_detach_range_segments. cbv zeta. fold (hull_lo ipa) (hull_hi ipa len).
  destruct (hvf_segment_split_range_boundaries host_base l w (hull_lo ipa) (hull_hi ipa len)) as [[rc l'] w1] eqn:E.
  apply split_boundaries_spec in E as R; [|done..]. pose proof (sr_rc _ _ _ _ _ _ R). case_if.
  { exists (inl rc), l', w1. split; [done|]. split; [lia|exact R]. }
  assert (rc = 0) as -> by lia.
  destruct (collect_spec top Htop l' (hull_lo ipa) (hull_hi ipa len)) as (l1 & segs & l3 & -> & -> & Htl);
    [apply (sr_tiles _ _ _ _ _ _ R)|apply (sr_len _ _ _ _ _ _ R)|apply (sr_got _ _ _ _ _ _ R eq_refl); set_solver..|lia|]. run.
  destruct (unmap_segments_spec segs w1 [] l1 l3) as [Hb Hh].
  destruct (unmap_segments host_base w1 [] segs) as [ok w2] eqn:Eu. cbn [fst snd] in *. destruct ok.
  - exists (inr segs), (l1 ++ segs ++ l3), w2. split; [done|]. exists l1, l3. split; [done|]. split; [done|]. split; [by exists w1|].
    split; [rewrite Hb; apply (sr_backing _ _ _ _ _ _ R)|].
    intros Hw. apply Hh; [apply (sr_held _ _ _ _ _ _ R); auto|by left].
  - exists (inl (- LINUX_EIO)), (l1 ++ segs ++ l3), w2. split; [done|]. split; [done|].
    destruct R as [? ? ? Hb' Hheld ? ? ?]. split; try done; [congruence|].
    intros [?|Hr] Hw; [done|]. destruct Hh as [? _]; [auto|by right|done].
Qed.
End Held.

(** ** What every operation leaves alone

    A relation that holds across each host call holds across the operations. *)

Class HostStep {W : Type} `{HostVm W, HostSlab W} (R : W -> W -> Prop) : Prop := {
  step_map w h ipa n f : R w (snd (hv_vm_map w h ipa n f));
  step_unmap w ipa n : R w (snd (hv_vm_unmap w ipa n));
  step_fixed w p n f : R w (snd (mmap_fixed w p n f));
  step_quiesce w : R w (snd (thread_quiesce_siblings w));
  step_resume w : R w (thread_resume_siblings w)
}.

Section Frame.
Context {W : Type} `{HVm : !HostVm W, HSl : !HostSlab W} (R : W -> W -> Prop) `{HPre : !PreOrder R, HSt : !HostStep R}.
Variable host_base shm_fd : Z.

Lemma fold_frame (f : W -> hvf_segment_t -> bool * W) l w :
  (forall w s, R w (snd (f w s))) -> R w (fold_left (fun w s => snd (f w s)) l w).
Proof using HPre. intros Hf. revert w. induction l as [|s l IH]; intros w; cbn; [done|]. etrans; [apply Hf|apply IH]. Qed.

Lemma map_seg_frame w s : R w (snd (hv_map_seg host_base w s)).
Proof using HSt. apply step_map. Qed.
Lemma unmap_seg_frame w s : R w (snd (hv_unmap_seg w s)).
Proof using HSt. apply step_unmap. Qed.
#[local] Hint Resolve map_seg_frame unmap_seg_frame : core.

Lemma map_pieces_frame w orig did todo : R w (snd (map_pieces host_base w orig did todo)).
Proof using HPre HSt.
  revert w did. induction todo as [|s todo IH]; intros w did; cbn [map_pieces]; [done|].
  pose proof (map_seg_frame w s) as H1. destruct (hv_map_seg host_base w s) as [[] w1]; cbn [snd] in *.
  - etrans; [exact H1|apply IH].
  - etrans; [exact H1|]. etrans; [|apply map_seg_frame]. by apply fold_frame.
Qed.

Lemma remap_frame w l : R w (hvf_remap_segments_best_effort host_base w l).
Proof using HPre HSt. by apply fold_frame. Qed.

Lemma map_segments_frame w l : R w (snd (map_segments host_base w l)).
Proof using HPre HSt.
  revert w. induction l as [|s l IH]; intros w; cbn [map_segments]; [done|].
  pose proof (map_seg_frame w s) as H1. destruct (hv_map_seg host_base w s) as [[] w1]; cbn [snd] in *; [|done].
  etrans; [exact H1|apply IH].
Qed.

Lemma unmap_segments_frame w did l : R w (snd (unmap_segments host_base w did l)).
Proof using HPre HSt.
  revert w did. induction l as [|s l IH]; intros w did; cbn [unmap_segments]; [done|].
  pose proof (unmap_seg_frame w s) as H1. destruct (hv_unmap_seg w s) as [[] w1]; cbn [snd negb] in *.
  - etrans; [exact H1|apply IH].
  - etrans; [exact H1|apply remap_frame].
Qed.

Lemma segment_split_frame l w s e rc l' w' : hvf_segment_split host_base l w s e = (rc, l', w') -> R w w'.
Proof using HPre HSt.
  unfold hvf_segment_split. destruct (hvf_segment_find l s) as [i|]; [|by intros [= _ _ <-]].
  destruct (l !! i) as [orig|]; [|by intros [= _ _ <-]].
  case_if; [by intros [= _ _ <-]|]. case_if; [by intros [= _ _ <-]|].
  destruct (Nat.ltb _ _); [by intros [= _ _ <-]|].
  pose proof (unmap_seg_frame w orig) as H1. destruct (hv_unmap_seg w orig) as [[] w1]; cbn [snd negb] in *; [|by intros [= _ _ <-]].
  pose proof (map_pieces_frame w1 orig [] (split_pieces orig s e)) as H2.
  destruct (map_pieces _ _ _ _ _) as [[] w2]; cbn [snd negb] in *; intros [= _ _ <-]; by etrans.
Qed.

Lemma split_boundaries_frame l w s e rc l' w' :
  hvf_segment_split_range_boundaries host_base l w s e = (rc, l', w') -> R w w'.
Proof using HPre HSt.
  unfold hvf_segment_split_range_boundaries. destruct (_ ≫= _) as [t|]; [|by intros [= _ _ <-]].
  destruct (if sg_ipa t <? s then _ else _) as [[r1 l1] w1] eqn:E1.
  assert (R w w1) as H1 by (revert E1; case_if; [apply segment_split_frame|by intros [= _ _ <-]]).
  case_if; [by intros [= _ _ <-]|]. destruct (hvf_segment_find l1 _ ≫= _) as [t2|]; [|by intros [= _ _ <-]].
  destruct (if e <? sg_end t2 then _ else _) as [[r2 l2] w2] eqn:E2.
  assert (R w1 w2) as H2 by (revert E2; case_if; [apply segment_split_frame|by intros [= _ _ <-]]).
  case_if; intros [= _ _ <-]; by etrans.
Qed.

Lemma detach_frame l w ipa len r l' w' : hvf_detach_range_segments host_base l w ipa len = Some (r, l', w') -> R w w'.
Proof using HPre HSt.
  unfold hvf_detach_range_segments. cbv zeta.
  destruct (hvf_segment_split_range_boundaries _ _ _ _ _) as [[rc l1] w1] eqn:E1. apply split_boundaries_frame in E1.
  case_if; [by intros [= _ _ <-]|]. destruct (hvf_segment_collect_range _ _ _ _) as [[err|segs]|]; [| |done]; run.
  - by intros [= _ _ <-].
  - pose proof (unmap_segments_frame w1 [] segs) as H2. destruct (unmap_segments _ _ _ _) as [[] w2]; cbn [snd] in *;
      intros [= _ _ <-]; by etrans.
Qed.

Lemma apply_quiesced_frame l w ipa len fd off rc l' w' :
  hvf_apply_file_overlay_quiesced host_base shm_fd l w ipa len fd off = Some (rc, l', w') -> R w w'.
Proof using HPre HSt.
  unfold hvf_apply_file_overlay_quiesced. destruct (hvf_detach_range_segments _ _ _ _ _) as [[[r l1] w1]|] eqn:E1; [|done].
  run. apply detach_frame in E1. destruct r as [err|segs]; [by intros [= _ _ <-]|].
  pose proof (step_fixed w1 (host_base + ipa) len (Some (fd, off))) as H2.
  destruct (mmap_fixed _ _ _ _) as [err w2]; cbn [snd] in H2.
  case_if; [intros [= _ _ <-]; etrans; [exact E1|]; etrans; [exact H2|apply remap_frame]|].
  pose proof (map_segments_frame w2 segs) as H3. destruct (map_segments _ _ _) as [[] w3]; cbn [snd] in H3; intros [= _ _ <-].
  - etrans; [exact E1|]. by etrans.
  - etrans; [exact E1|]. etrans; [exact H2|]. etrans; [exact H3|]. etrans; [|apply remap_frame].
    unfold hvf_restore_slab_backing. apply step_fixed.
Qed.

Lemma remove_quiesced_frame l w ipa len rc l' w' :
  hvf_remove_file_overlay_quiesced host_base shm_fd l w ipa len = Some (rc, l', w') -> R w w'.
Proof using HPre HSt.
  unfold hvf_remove_file_overlay_quiesced. destruct (hvf_detach_range_segments _ _ _ _ _) as [[[r l1] w1]|] eqn:E1; [|done].
  run. apply detach_frame in E1. destruct r as [err|segs]; [by intros [= _ _ <-]|]. unfold hvf_restore_slab_backing.
  set (src := if 0 <=? shm_fd then _ else _). pose proof (step_fixed w1 (host_base + ipa) len src) as H2.
  destruct (mmap_fixed _ _ _ _) as [err w2]; cbn [snd] in H2.
  case_if; [intros [= _ _ <-]; etrans; [exact E1|]; etrans; [exact H2|apply remap_frame]|].
  pose proof (map_segments_frame w2 segs) as H3. destruct (map_segments _ _ _) as [ok w3]; cbn [snd] in H3; intros [= _ _ <-].
  etrans; [exact E1|]. by etrans.
Qed.

Lemma remove_overlay_frame l w ipa len rc l' w' :
  hvf_remove_file_overlay host_base shm_fd l w ipa len = Some (rc, l', w') -> R w w'.
Proof using HPre HSt.
  unfold hvf_remove_file_overlay. pose proof (step_quiesce w) as H1.
  destruct (thread_quiesce_siblings w) as [[] w1]; cbn [snd negb] in *; [|by intros [= _ _ <-]].
  destruct (hvf_remove_file_overlay_quiesced _ _ _ _ _ _) as [[[err l1] w2]|] eqn:E; [|done]. run.
  apply remove_quiesced_frame in E. intros [= _ _ <-]. etrans; [exact H1|]. etrans; [exact E|apply step_resume].
Qed.
End Frame.
