(* ===== verification/SegSpecs.v ===== *)
(** * Installing and removing file overlays

    The theorems about [hvf_apply_file_overlay] and [hvf_remove_file_overlay]:
    the segments keep tiling the slab at 2 MiB boundaries, the stage-2 account
    follows them, and the host memory under the range, and only there, changes
    between the slab and the file. *)

From stdpp Require Import sets.
From S2P Require Import Prelude Tlbi Regions PageTable Gva GvaFacts Backing BackingSpecs Segments SegFacts.

(** The slab's own backing at offset [x]: the shared memory object or anonymous
    memory. *)
Definition slab_source (shm_fd x : Z) : option (Z * Z) := if 0 <=? shm_fd then Some (shm_fd, x) else None.

(** The segments: a tiling of the slab at 2 MiB boundaries within the table's
    capacity. *)
Record segments_ok (top : Z) (l : list hvf_segment_t) : Prop := {
  so_tiles : tiles 0 l top;
  so_len : (length l <= GUEST_MAX_HVF_SEGMENTS)%nat;
  so_align b : b ∈ bounds l top -> b mod BLOCK_2MIB = 0
}.

Section Overlay.
Context {W : Type} `{HVm : !HostVm W, HVl : !HostVmLaws W, HSl : !HostSlab W, HSll : !HostSlabLaws W}.
Context (host_base shm_fd : Z) (others : list (Z * Z)) (top : Z).
Context (Htop : top <= 2 ^ 48) (Hothers : Forall (fun r => top <= fst r) others).

(** The host memory of [ipa, ipa + len) comes from [src], that of every other
    address is as before. *)
Definition rebacked (w w' : W) (ipa len : Z) (src : Z -> option (Z * Z)) : Prop :=
  forall a, host_backing w' a =
    if (host_base + ipa <=? a) && (a <? host_base + ipa + len) then src (a - host_base) else host_backing w a.

(** The outcome of an overlay operation that gives the range the source [src]. *)
Record overlay_result (src : Z -> option (Z * Z)) (ipa len : Z) (l : list hvf_segment_t) (w : W)
    (rc : Z) (l' : list hvf_segment_t) (w' : W) : Prop := {
  or_rc : rc <= 0;
  or_segments : segments_ok top l';
  or_held : rc = 0 \/ hv_reliable (W := W) -> held others w l -> held others w' l';
  or_done : rc = 0 -> rebacked w w' ipa len src;
  or_frame : exists src', rebacked w w' ipa len src';
  or_undone : rc <> 0 -> hv_reliable (W := W) -> held others w l -> host_backing w' = host_backing w
}.

Lemma rebacked_refl w w' ipa len : host_backing w' = host_backing w ->
  rebacked w w' ipa len (fun x => host_backing w (host_base + x)).
Proof. intros E a. rewrite E. case_if; [|done]. f_equal. lia. Qed.

Lemma rebacked_trans w w1 w2 ipa len src src' : rebacked w w1 ipa len src -> rebacked w1 w2 ipa len src' ->
  rebacked w w2 ipa len src'.
Proof. intros H1 H2 a. rewrite H2, H1. by case_if. Qed.

Lemma rebacked_eq w w1 w2 w3 ipa len src : rebacked w1 w2 ipa len src ->
  host_backing w1 = host_backing w -> host_backing w3 = host_backing w2 -> rebacked w w3 ipa len src.
Proof. intros H1 E1 E2 a. by rewrite E2, H1, E1. Qed.

Lemma fixed_rebacked w w' ipa len f : mmap_fixed w (host_base + ipa) len f = (0, w') ->
  rebacked w w' ipa len (fun x => match f with Some (fd, off) => Some (fd, off + (x - ipa)) | None => None end).
Proof using HSll.
  intros E a. destruct (fixed_ok _ _ _ _ _ E) as [Hb _]. rewrite Hb. case_if; [|done].
  destruct f as [[fd off]|]; [|done]. do 2 f_equal. lia.
Qed.

Lemma hull_ok ipa len : 0 <= ipa -> 0 < len -> ipa + len <= top -> top mod BLOCK_2MIB = 0 ->
  0 <= hull_lo ipa < hull_hi ipa len /\ hull_hi ipa len <= top /\
  hull_lo ipa mod BLOCK_2MIB = 0 /\ hull_hi ipa len mod BLOCK_2MIB = 0.
Proof using Htop.
  unfold hull_lo, hull_hi, BLOCK_2MIB. intros ? ? ? Hm. assert ((ipa + len)%u64 = ipa + len) as -> by (by u64).
  rewrite align_down_2mib, align_up_2mib by (unfold fits64, two64; lia). unfold BLOCK_2MIB. clear Hothers. zdm.
Qed.

Lemma detached_ok bs l w rc l' w' : segments_ok top l -> (forall b, b ∈ bs -> b mod BLOCK_2MIB = 0) ->
  split_result others top bs l w rc l' w' -> segments_ok top l'.
Proof. intros [_ _ Ha] Hbs [_ Ht Hn _ _ Hnew _ _]. split; [done|done|]. intros b [Hb|Hb]%Hnew; auto. Qed.

(** A failed detach is a failed overlay operation. *)
Lemma detach_failed src ipa len bs l w rc l' w' : segments_ok top l -> (forall b, b ∈ bs -> b mod BLOCK_2MIB = 0) ->
  rc < 0 -> split_result others top bs l w rc l' w' -> overlay_result src ipa len l w rc l' w'.
Proof.
  intros Hl Hbs Hrc R. split; [lia|by eapply detached_ok|apply (sr_held _ _ _ _ _ _ _ _ R)|lia| |].
  - eexists. apply rebacked_refl, (sr_backing _ _ _ _ _ _ _ _ R).
  - intros _ _ _. apply (sr_backing _ _ _ _ _ _ _ _ R).
Qed.

(** An operation that only ran between other observations. *)
Lemma overlay_result_frame src ipa len l w w1 rc l' w2 w' :
  host_backing w1 = host_backing w -> vm_stage2 w1 = vm_stage2 w ->
  overlay_result src ipa len l w1 rc l' w2 ->
  host_backing w' = host_backing w2 -> vm_stage2 w' = vm_stage2 w2 ->
  overlay_result src ipa len l w rc l' w'.
Proof.
  intros Eb Es [Hrc Hs Hh Hd [src' Hf] Hu] Eb' Es'.
  assert (held others w l -> held others w1 l) as Hw by (unfold held; by rewrite Es).
  split; [done|done| | | |].
  - intros Hr Hl%Hw. unfold held. rewrite Es'. by apply Hh.
  - intros E0. exact (rebacked_eq _ _ _ _ _ _ _ (Hd E0) Eb Eb').
  - exists src'. exact (rebacked_eq _ _ _ _ _ _ _ Hf Eb Eb').
  - intros H0 Hr Hl%Hw. rewrite Eb', <- Eb. auto.
Qed.

Section Op.
Context (ipa len : Z) (l : list hvf_segment_t) (w : W).
Context (Hipa : 0 <= ipa) (Hlen : 0 < len) (Hend : ipa + len <= top) (Hl : segments_ok top l).

Lemma top_aligned : top mod BLOCK_2MIB = 0.
Proof using Hl. apply (so_align _ _ Hl). apply elem_of_app. right. by apply list_elem_of_singleton. Qed.

Lemma hull_bounds : forall b, b ∈ [hull_lo ipa; hull_hi ipa len] -> b mod BLOCK_2MIB = 0.
Proof using Htop Hipa Hlen Hend Hl.
  destruct (hull_ok ipa len Hipa Hlen Hend top_aligned) as (_ & _ & H1 & H2).
  intros b. rewrite elem_of_cons, list_elem_of_singleton. by intros [->| ->].
Qed.

(** A refused host mapping leaves the memory alone; the detached segments go
    back. *)
Lemma fixed_refused src a segs b w1 w2 p n f rc : segments_ok top (a ++ segs ++ b) -> host_backing w1 = host_backing w ->
  (held others w l -> held others w1 (a ++ b)) -> mmap_fixed w1 p n f = (rc, w2) -> rc <> 0 ->
  overlay_result src ipa len l w rc (a ++ segs ++ b) (hvf_remap_segments_best_effort host_base w2 segs).
Proof using Hothers HVl HSll.
  intros Hok Hb Hheld E Hne. destruct (fixed_fail _ _ _ _ _ _ E Hne) as (Hrc & Hb2 & Hs2 & _).
  assert (host_backing (hvf_remap_segments_best_effort host_base w2 segs) = host_backing w) as Hb3
    by (rewrite remap_backing; congruence).
  split; [lia|done| |done| |done].
  - intros [?|Hr] Hw; [done|]. apply (remap_held host_base others top Hothers); [done|apply Hok|].
    unfold held. rewrite Hs2. by apply Hheld.
  - eexists. by apply rebacked_refl.
Qed.

Lemma apply_quiesced_spec fd off :
  exists rc l' w', hvf_apply_file_overlay_quiesced host_base shm_fd l w ipa len fd off = Some (rc, l', w') /\
    overlay_result (fun x => Some (fd, off + (x - ipa))) ipa len l w rc l' w'.
Proof using Htop Hothers HVl HSll Hipa Hlen Hend Hl.
  unfold hvf_apply_file_overlay_quiesced. destruct (hull_ok ipa len Hipa Hlen Hend top_aligned) as (Hh & Hht & _).
  destruct (detach_spec host_base others top Hothers Htop l w ipa len (so_tiles _ _ Hl) (so_len _ _ Hl) Hh Hht)
    as (r & l1 & w1 & -> & Hr). run. destruct r as [rc|segs].
  { destruct Hr as [? R]. eexists _, _, _. split; [done|]. eapply detach_failed; [done|apply hull_bounds|done|exact R]. }
  destruct Hr as (a & b & -> & Hts & [w0 R] & Hb & Hheld).
  pose proof (detached_ok _ _ _ _ _ _ Hl hull_bounds R) as Hok. pose proof (so_tiles _ _ Hok) as Ht.
  destruct (mmap_fixed w1 (host_base + ipa) len (Some (fd, off))) as [rc w2] eqn:Em.
  destruct (Z.eqb_spec rc 0) as [->|Hne]; cbn [negb].
  2:{ eexists _, _, _. split; [done|]. by eapply fixed_refused. }
  pose proof (fixed_rebacked _ _ _ _ _ Em) as Hre. destruct (fixed_ok _ _ _ _ _ Em) as (_ & Hs2 & _).
  assert (held others w l -> held others w2 (a ++ b)) as Hheld2 by (unfold held in *; by rewrite Hs2).
  destruct (map_segments_spec host_base others top Hothers segs w2 a b Ht) as [Hb3 Hh3].
  destruct (map_segments host_base w2 segs) as [ok w3] eqn:E3. cbn [fst snd] in *. destruct ok.
  - eexists _, _, _. split; [done|].
    assert (rebacked w w3 ipa len (fun x => Some (fd, off + (x - ipa)))) as Hre3 by exact (rebacked_eq _ _ _ _ _ _ _ Hre Hb Hb3).
    split; [done|done| |done|by eexists|done]. intros _ Hw. apply Hh3; auto.
  - eexists _, _, _. split; [done|].
    assert (hv_reliable -> held others w l -> False) as Hno.
    { intros Hr Hw. destruct (Hh3 (Hheld2 Hw) (or_intror Hr)). done. }
    split; [done|done| |done| |].
    + intros [?|Hr] Hw; [done|]. by destruct (Hno Hr Hw).
    + unfold hvf_restore_slab_backing.
      destruct (mmap_fixed w3 _ _ _) as [rc4 w4] eqn:E4. cbn [snd].
      assert (rebacked w w3 ipa len (fun x => Some (fd, off + (x - ipa)))) as Hre3 by exact (rebacked_eq _ _ _ _ _ _ _ Hre Hb Hb3).
      destruct (Z.eq_dec rc4 0) as [->|Hn4].
      * eexists. eapply (rebacked_eq _ _ _ _ _ _ _ (rebacked_trans _ _ _ _ _ _ _ Hre3 (fixed_rebacked _ _ _ _ _ E4)));
          [done|apply remap_backing].
      * destruct (fixed_fail _ _ _ _ _ _ E4 Hn4) as (_ & Hb4 & _). eexists.
        eapply (rebacked_eq _ _ _ _ _ _ _ Hre3); [done|]. by rewrite remap_backing.
    + intros _ Hr Hw. by destruct (Hno Hr Hw).
Qed.

Lemma remove_quiesced_spec :
  exists rc l' w', hvf_remove_file_overlay_quiesced host_base shm_fd l w ipa len = Some (rc, l', w') /\
    overlay_result (slab_source shm_fd) ipa len l w rc l' w' /\
    (host_backing w' = host_backing w \/ rebacked w w' ipa len (slab_source shm_fd)).
Proof using Htop Hothers HVl HSll Hipa Hlen Hend Hl.
  unfold hvf_remove_file_overlay_quiesced. destruct (hull_ok ipa len Hipa Hlen Hend top_aligned) as (Hh & Hht & _).
  destruct (detach_spec host_base others top Hothers Htop l w ipa len (so_tiles _ _ Hl) (so_len _ _ Hl) Hh Hht)
    as (r & l1 & w1 & -> & Hr). run. destruct r as [rc|segs].
  { destruct Hr as [? R]. eexists _, _, _. split; [done|]. split; [|left; apply (sr_backing _ _ _ _ _ _ _ _ R)].
    eapply detach_failed; [done|apply hull_bounds|done|exact R]. }
  destruct Hr as (a & b & -> & Hts & [w0 R] & Hb & Hheld).
  pose proof (detached_ok _ _ _ _ _ _ Hl hull_bounds R) as Hok. pose proof (so_tiles _ _ Hok) as Ht.
  unfold hvf_restore_slab_backing.
  destruct (mmap_fixed w1 (host_base + ipa) len _) as [rc w2] eqn:Em.
  destruct (Z.eq_dec rc 0) as [->|Hne].
  2:{ rewrite (proj2 (Z.ltb_lt rc 0)) by (by eapply fixed_fail). eexists _, _, _. split; [done|].
      split; [by eapply fixed_refused|]. left. rewrite remap_backing. rewrite <- Hb. by eapply fixed_fail. }
  pose proof (fixed_rebacked _ _ _ _ _ Em) as Hre. destruct (fixed_ok _ _ _ _ _ Em) as (_ & Hs2 & _). cbn [Z.ltb Z.compare].
  assert (held others w l -> held others w2 (a ++ b)) as Hheld2 by (unfold held in *; by rewrite Hs2).
  destruct (map_segments_spec host_base others top Hothers segs w2 a b Ht) as [Hb3 Hh3].
  destruct (map_segments host_base w2 segs) as [ok w3] eqn:E3. cbn [fst snd] in *.
  assert (rebacked w w3 ipa len (slab_source shm_fd)) as Hre3.
  { intros x. rewrite (rebacked_eq _ _ _ _ _ _ _ Hre Hb Hb3 x). case_if; [|done]. unfold slab_source. case_if; [|done].
    do 2 f_equal. lia. }
  eexists _, _, _. split; [done|]. split; [|by right]. destruct ok.
  - split; [done|done| |done|by eexists|done]. intros _ Hw. apply Hh3; auto.
  - assert (hv_reliable -> held others w l -> False) as Hno.
    { intros Hr Hw. destruct (Hh3 (Hheld2 Hw) (or_intror Hr)). done. }
    split; [done|done| |done|by eexists|].
    + intros [?|Hr] Hw; [done|]. by destruct (Hno Hr Hw).
    + intros _ Hr Hw. by destruct (Hno Hr Hw).
Qed.

(** An operation that did nothing. *)
Lemma overlay_nothing src rc w' : rc < 0 -> host_backing w' = host_backing w -> vm_stage2 w' = vm_stage2 w ->
  overlay_result src ipa len l w rc l w'.
Proof using Hl.
  intros ? Eb Es. split; [lia|done| |lia| |done].
  - intros _. unfold held. by rewrite Es.
  - eexists. by apply rebacked_refl.
Qed.
End Op.

Lemma apply_overlay_spec ipa len l w fd off : 0 <= ipa -> 0 < len -> ipa + len <= top -> segments_ok top l ->
  exists rc l' w', hvf_apply_file_overlay host_base shm_fd l w ipa len fd off = Some (rc, l', w') /\
    (rc = 0 -> overlay_fd_writable w fd = true) /\
    overlay_result (fun x => Some (fd, off + (x - ipa))) ipa len l w rc l' w'.
Proof using Htop Hothers HVl HSll.
  intros Hipa Hlen Hend Hl. unfold hvf_apply_file_overlay.
  destruct (overlay_fd_writable w fd); cbn [negb].
  2:{ eexists _, _, _. split; [done|]. split; [done|]. by apply overlay_nothing. }
  destruct (thread_quiesce_siblings w) as [ok w1] eqn:E. destruct (quiesce_frame _ _ _ E) as (Eb & Es & _).
  destruct ok; cbn [negb]; [|eexists _, _, _; split; [done|]; split; [done|]; by apply overlay_nothing].
  destruct (apply_quiesced_spec ipa len l w1 Hipa Hlen Hend Hl fd off) as (rc & l' & w2 & -> & R). run.
  destruct (resume_frame w2) as (Eb' & Es' & _).
  eexists _, _, _. split; [done|]. split; [done|]. exact (overlay_result_frame _ _ _ _ _ _ _ _ _ _ Eb Es R Eb' Es').
Qed.

Lemma remove_overlay_spec ipa len l w : 0 <= ipa -> 0 < len -> ipa + len <= top -> segments_ok top l ->
  exists rc l' w', hvf_remove_file_overlay host_base shm_fd l w ipa len = Some (rc, l', w') /\
    overlay_result (slab_source shm_fd) ipa len l w rc l' w' /\
    (host_backing w' = host_backing w \/ rebacked w w' ipa len (slab_source shm_fd)).
Proof using Htop Hothers HVl HSll.
  intros Hipa Hlen Hend Hl. unfold hvf_remove_file_overlay.
  destruct (thread_quiesce_siblings w) as [ok w1] eqn:E. destruct (quiesce_frame _ _ _ E) as (Eb & Es & _).
  destruct ok; cbn [negb]; [|eexists _, _, _; split; [done|]; split; [by apply overlay_nothing|by left]].
  destruct (remove_quiesced_spec ipa len l w1 Hipa Hlen Hend Hl) as (rc & l' & w2 & -> & R & Hor). run.
  destruct (resume_frame w2) as (Eb' & Es' & _).
  eexists _, _, _. split; [done|]. split; [exact (overlay_result_frame _ _ _ _ _ _ _ _ _ _ Eb Es R Eb' Es')|].
  destruct Hor as [Hor|Hor]; [left; congruence|right; exact (rebacked_eq _ _ _ _ _ _ _ Hor Eb Eb')].
Qed.
End Overlay.

(** ** A concrete host *)

Module SlabVm.
Import ListVm.

(** The hypervisor's lists, and the fixed mappings made so far, newest first. *)
Record world := mk_world { w_vm : vm; w_spans : list (Z * Z * option (Z * Z)) }.

Definition free_at (ipa n : Z) (r : Z * Z) : bool := (fst r + snd r <=? ipa) || (ipa + n <=? fst r).

Fixpoint backing_at (spans : list (Z * Z * option (Z * Z))) (a : Z) : option (Z * Z) :=
  match spans with
  | [] => None
  | (p, n, f) :: spans =>
      if (p <=? a) && (a <? p + n)
      then match f with Some (fd, off) => Some (fd, off + (a - p)) | None => None end
      else backing_at spans a
  end.

(** A range that is already mapped is refused. *)
#[export] Instance world_vm : HostVm world := {
  host_mmap w n := let '(p, v) := host_mmap (w_vm w) n in (p, mk_world v (w_spans w));
  host_munmap w p n := mk_world (host_munmap (w_vm w) p n) (w_spans w);
  hv_vm_map w h ipa n f :=
    if forallb (free_at ipa n) (vm_stage2 (w_vm w))
    then let '(ok, v) := hv_vm_map (w_vm w) h ipa n f in (ok, mk_world v (w_spans w)) else (false, w);
  hv_vm_unmap w ipa n := let '(ok, v) := hv_vm_unmap (w_vm w) ipa n in (ok, mk_world v (w_spans w));
  vm_buffers w := vm_buffers (w_vm w);
  vm_stage2 w := vm_stage2 (w_vm w)
}.

#[export] Instance world_slab : HostSlab world := {
  mmap_fixed w p n f := (0, mk_world (w_vm w) ((p, n, f) :: w_spans w));
  fcntl_getfl w fd := 2;
  thread_quiesce_siblings w := (true, w);
  thread_resume_siblings w := w;
  host_backing w := backing_at (w_spans w)
}.

#[export] Instance world_vm_laws : HostVmLaws world.
Proof.
  split; cbn.
  - intros w n p w' [= <- <-]. done.
  - done.
  - intros w p n l E. split; [by apply rem1_cancel|done].
  - intros w h ipa n f w'. destruct (forallb _ _); [|done]. by intros [= <-].
  - intros w h ipa n f w'. destruct (forallb _ _); [done|]. by intros [= <-].
  - intros w ipa n w' l. destruct (decide _); [|done]. intros [= <-] E. split; [by apply rem1_cancel|done].
  - intros w ipa n w'. destruct (decide _); [done|]. by intros [= <-].
Qed.

#[export] Instance world_slab_laws : HostSlabLaws world.
Proof.
  split; cbn.
  - by intros w p n f w' [= <-].
  - intros w p n f rc w' [= <- <-] ?. done.
  - by intros w b w' [= <- <-].
  - done.
  - intros w h ipa n f. by destruct (forallb _ _).
  - intros w ipa n. by destruct (decide _).
Qed.

Lemma world_reliable : hv_reliable (W := world).
Proof.
  split; cbn.
  - intros w h ipa n f _ Hf. assert (forallb (free_at ipa n) (v_s2 (w_vm w)) = true) as ->; [|done].
    apply forallb_forall. intros r Hr%list_elem_of_In. rewrite list.Forall_forall in Hf. specialize (Hf r Hr).
    unfold free_at. apply orb_true_iff. rewrite !Z.leb_le. exact Hf.
  - intros w ipa n l E. rewrite decide_True; [done|]. rewrite E. left.
Qed.

End SlabVm.

Import SlabVm.

(** A 64 MiB slab mapped as one segment. *)
Definition ex_segments : list hvf_segment_t := [mk_seg 0 67108864].
Definition ex_world : world := mk_world (ListVm.mk_vm [] [(0, 67108864)] 1) [].

Lemma ex_segments_ok : segments_ok 67108864 ex_segments.
Proof.
  split; [done|unfold GUEST_MAX_HVF_SEGMENTS; cbn; lia|]. intros b. unfold bounds. cbn [map app ex_segments sg_ipa].
  rewrite elem_of_cons, list_elem_of_singleton. by intros [->| ->].
Qed.

(** ** Theorems *)

(** C37: installing a file overlay returns; the segments still tile the slab at
    2 MiB boundaries within the table's capacity.  On success the descriptor was
    writable, the host memory of the range comes from the file at the right
    offsets and no other host memory changed.  After a success, and after a
    failure with a hypervisor that refuses nothing sound, every segment is mapped
    and nothing else of the slab is; such a failure also leaves the host memory as
    it was.  A failure never touches host memory outside the range. *)
Theorem hvf_apply_file_overlay_correct {W} `{!HostVm W, !HostVmLaws W, !HostSlab W, !HostSlabLaws W}
    (host_base shm_fd : Z) (others : list (Z * Z)) (top ipa len fd off : Z) (l : list hvf_segment_t) (w : W) :
  top <= 2 ^ 48 -> Forall (fun r => top <= fst r) others -> segments_ok top l ->
  0 <= ipa -> 0 < len -> ipa + len <= top ->
  exists rc l' w', hvf_apply_file_overlay host_base shm_fd l w ipa len fd off = Some (rc, l', w') /\
    (rc = 0 -> overlay_fd_writable w fd = true) /\
    overlay_result host_base others top (fun x => Some (fd, off + (x - ipa))) ipa len l w rc l' w'.
Proof. intros. by apply apply_overlay_spec. Qed.

(** The overlay of 16 KiB at 4 MiB: the segment is split in three, and the
    page at the range's start shows the file's offset 8192. *)
Lemma hvf_apply_file_overlay_correct_witness : exists l' w',
  hvf_apply_file_overlay 4294967296 (-1) ex_segments ex_world 4194304 16384 9 8192 = Some (0, l', w') /\
  l' = [mk_seg 0 4194304; mk_seg 4194304 2097152; mk_seg 6291456 60817408] /\
  host_backing w' (4294967296 + 4194304) = Some (9, 8192) /\ held [] w' l'.
Proof.
  destruct (hvf_apply_file_overlay_correct 4294967296 (-1) [] 67108864 4194304 16384 9 8192 ex_segments ex_world
    ltac:(lia) ltac:(constructor) ex_segments_ok ltac:(lia) ltac:(lia) ltac:(lia)) as (rc & l' & w' & E & _ & R).
  assert (rc = 0 /\ l' = [mk_seg 0 4194304; mk_seg 4194304 2097152; mk_seg 6291456 60817408]) as [-> El].
  { vm_compute in E. by injection E as <- <- _. }
  exists l', w'. split; [exact E|]. split; [exact El|]. split.
  - by rewrite (or_done _ _ _ _ _ _ _ _ _ _ _ R eq_refl).
  - apply (or_held _ _ _ _ _ _ _ _ _ _ _ R); [by left|]. unfold held. reflexivity.
Defined.


