(* ===== verification/Overlay.v ===== *)
(** * Dropping file overlays: cleanup_overlays_in_range of src/syscall/mem.c

    Before a range is unmapped or replaced, the file mappings under it are taken
    out of the slab's host memory.  The walk composes the region array, the
    boundary splits and the stage-2 segments. *)

From S2P Require Import Prelude Tlbi Regions RegionFacts HostFds RegionSplit SplitFacts PageTable Gva Backing Segments SegFacts SegSpecs.

(** Does a region overlapping [host_start, host_end) carry a live overlay?  The
    list is the array from the first region ending above [host_start]. *)
Fixpoint overlay_scan (host_start host_end : Z) (l : list guest_region_t) : bool :=
  match l with
  | [] => false
  | r :: l =>
      if host_end <=? r_start r then false
      else if r_end r <=? host_start then overlay_scan host_start host_end l
      else if region_has_live_overlay r then true
      else overlay_scan host_start host_end l
  end.

(** The distinct overlay ranges (offset and length) under the regions of the
    list, clipped to [host_start, host_end). *)
Fixpoint collect_overlays (host_start host_end : Z) (l : list guest_region_t) (overlays : list (Z * Z)) : list (Z * Z) :=
  match l with
  | [] => overlays
  | r :: l =>
      if (GUEST_MAX_REGIONS <=? length overlays)%nat then overlays
      else if host_end <=? r_start r then overlays
      else if r_end r <=? host_start then collect_overlays host_start host_end l overlays
      else if negb (region_has_live_overlay r) then collect_overlays host_start host_end l overlays
      else
        let s := if host_start <? r_overlay_start r then r_overlay_start r else host_start in
        let e := if r_overlay_end r <? host_end then r_overlay_end r else host_end in
        if e <=? s then collect_overlays host_start host_end l overlays
        else
          let seen := existsb (fun o => (fst o =? s) && (snd o =? (e - s)%u64)) overlays in
          collect_overlays host_start host_end l (if seen then overlays else overlays ++ [(s, (e - s)%u64)])
  end.

Section Cleanup.
Context {H : Type} `{HE : HostEnv H, HVm : !HostVm H, HSl : !HostSlab H}.
(** [g->host_base], [g->shm_fd] and [g->guest_size] *)
Variable host_base shm_fd : Z.

(** The teardown loop: stops at the first failure. *)
Fixpoint remove_overlays (overlays : list (Z * Z)) (l : list hvf_segment_t) (g : tracker H)
    : option (Z * list hvf_segment_t * tracker H) :=
  match overlays with
  | [] => Some (0, l, g)
  | (off, len) :: overlays =>
      '(rc, l, w) ← hvf_remove_file_overlay host_base shm_fd l (host g) off len;
      let g := with_host w g in
      if rc <? 0 then Some (rc, l, g)
      else
        remove_overlays overlays l
          (with_regions (clear_overlay_metadata_range (regions g) off (off + len)%u64) g)
  end.

Definition cleanup_overlays_in_range (l : list hvf_segment_t) (g : tracker H) (start end_ : Z)
    : option (Z * list hvf_segment_t * tracker H) :=
  let hps := host_page_size_cached (H:=H) in
  let host_start := ALIGN_DOWN start hps in
  let host_end := ALIGN_UP end_ hps in
  let tail g := drop (guest_region_first_end_above (regions g) host_start) (regions g) in
  if negb (overlay_scan host_start host_end (tail g)) then Some (0, l, g)
  else
    let '(split_err, _, g) := split_regions_at_bounds g host_start host_end in
    if split_err <? 0 then Some (split_err, l, g)
    else remove_overlays (collect_overlays host_start host_end (tail g) []) l g.

Definition mmap_exec_drop_overlays (l : list hvf_segment_t) (g : tracker H) (guest_size : Z)
    : option (Z * list hvf_segment_t * tracker H) :=
  cleanup_overlays_in_range l g 0 guest_size.

End Cleanup.
