(* ===== verification/OverlayFacts.v ===== *)
(** * Facts about dropping file overlays

    The invariant: host memory that is not the slab's own lies under a live
    overlay recorded by some region ([tracked]), and a recorded overlay lies
    within the host pages of its region ([clipped]).  The cleanup of a range
    leaves the host pages of the range backed by the slab. *)

From stdpp Require Import sets.
From S2P Require Import Prelude Tlbi Regions RegionFacts HostFds RegionSplit SplitFacts PageTable Gva Backing Segments SegFacts SegSpecs Overlay.

(** The same open descriptors. *)
Definition same_open {H} `{HostEnv H, !HostFdLaws H} (h h' : H) : Prop := forall x, fd_open h' x <-> fd_open h x.

#[export] Instance same_fds_pre {H} `{HostEnv H, !HostFdLaws H} : PreOrder (same_open (H:=H)).
Proof. split; [by intros ? ?|]. intros h1 h2 h3 H1 H2 x. by rewrite (H2 x), (H1 x). Qed.

(** Descriptor calls leave the memory maps alone, and memory calls the
    descriptors. *)
Class HostFrame (H : Type) `{HostEnv H, !HostFdLaws H, !HostVm H, !HostSlab H} : Prop := {
  dup_maps h fd : host_backing (snd (host_dup h fd)) = host_backing h /\ vm_stage2 (snd (host_dup h fd)) = vm_stage2 h;
  close_maps h fd : host_backing (host_close h fd) = host_backing h /\ vm_stage2 (host_close h fd) = vm_stage2 h;
  maps_fds :: HostStep (W := H) same_open
}.

(** ** Host pages *)

Section Pages.
Context {H : Type} `{HE : HostEnv H} `{HP : !HostPageOk H}.

#[local] Notation hps := (host_page_size_cached (H:=H)).

Lemma host_page_eq : hps = guest_host_page_size_cached (H:=H).
Proof. done. Qed.

Lemma page_down_div x : fits64 x -> exists p, 0 < p /\ ALIGN_DOWN x hps = p * (x / p) /\
  forall y, 0 <= y <= VA_TOP -> ALIGN_UP y hps = p * ((y + (p - 1)) / p).
Proof using HP.
  rewrite host_page_eq. destruct page_pow2 as (k & Hk & ->). intros Hx. exists (2 ^ k).
  assert (0 < 2 ^ k) by lia. assert (2 ^ k <= 2 ^ 32) by (apply Z.pow_le_mono_r; lia).
  split; [done|]. split.
  - rewrite align_down_pow2 by (done || lia). pose proof (Z.div_mod x (2 ^ k)). lia.
  - intros y Hy. rewrite align_up_pow2; [|lia|lia|unfold VA_TOP, two64 in *; lia].
    pose proof (Z.div_mod (y + (2 ^ k - 1)) (2 ^ k)). lia.
Qed.

(** Rounding is monotone, brackets its argument, and stops at a rounded address. *)
Lemma page_down_mono x y : fits64 y -> 0 <= x <= y -> ALIGN_DOWN x hps <= ALIGN_DOWN y hps.
Proof using HP.
  intros Hy Hx. rewrite host_page_eq. destruct page_pow2 as (k & Hk & ->).
  assert (0 < 2 ^ k) by lia. rewrite !align_down_pow2 by (unfold fits64 in *; lia).
  pose proof (Z.div_mod x (2 ^ k)). pose proof (Z.div_mod y (2 ^ k)).
  pose proof (Z.div_le_mono x y (2 ^ k)). nia.
Qed.

Lemma page_up_mono x y : 0 <= x <= y -> y <= VA_TOP -> ALIGN_UP x hps <= ALIGN_UP y hps.
Proof using HP.
  intros Hx Hy. destruct (page_down_div 0 ltac:(unfold fits64, two64; lia)) as (p & Hp & _ & E). rewrite !E by lia.
  pose proof (Z.div_le_mono (x + (p - 1)) (y + (p - 1)) p). nia.
Qed.

Lemma page_down_le x : fits64 x -> ALIGN_DOWN x hps <= x.
Proof using HP. apply align_down_hps. Qed.

Lemma page_up_ge x : 0 <= x <= VA_TOP -> x <= ALIGN_UP x hps.
Proof using HP. apply align_up_hps. Qed.

Lemma page_up_down x y : 0 <= x -> fits64 y -> y <= VA_TOP -> x <= ALIGN_DOWN y hps -> ALIGN_UP x hps <= ALIGN_DOWN y hps.
Proof using HP.
  intros Hx Hy Hv Hle. destruct (page_down_div y Hy) as (p & Hp & E & Eu). pose proof (page_down_le y Hy).
  rewrite Eu, E in * by lia. enough ((x + (p - 1)) / p <= y / p) by nia.
  assert ((x + (p - 1)) / p < y / p + 1); [|lia]. apply Z.div_lt_upper_bound; lia.
Qed.

Lemma page_down_up x y : 0 <= x <= VA_TOP -> fits64 y -> ALIGN_UP x hps <= y -> ALIGN_UP x hps <= ALIGN_DOWN y hps.
Proof using HP.
  intros Hx Hy Hle. destruct (page_down_div y Hy) as (p & Hp & E & Eu). rewrite Eu, E in * by lia.
  enough ((x + (p - 1)) / p <= y / p) by nia. apply Z.div_le_lower_bound; lia.
Qed.

Lemma page_down_ge x y : fits64 x -> fits64 y -> ALIGN_DOWN x hps <= y -> ALIGN_DOWN x hps <= ALIGN_DOWN y hps.
Proof using HP.
  intros Hx Hy. rewrite host_page_eq. destruct page_pow2 as (k & Hk & ->). assert (0 < 2 ^ k) by lia.
  rewrite !align_down_pow2 by (done || lia). intros Hle.
  pose proof (Z.div_mod x (2 ^ k)). pose proof (Z.div_mod y (2 ^ k)).
  assert (x / 2 ^ k <= y / 2 ^ k) by (apply Z.div_le_lower_bound; lia). nia.
Qed.

Lemma page_up_le x y : 0 <= x <= VA_TOP -> 0 <= y <= VA_TOP -> x <= ALIGN_UP y hps -> ALIGN_UP x hps <= ALIGN_UP y hps.
Proof using HP.
  intros Hx Hy Hle. destruct (page_down_div 0 ltac:(unfold fits64, two64; lia)) as (p & Hp & _ & E). rewrite !E in * by lia.
  enough ((x + (p - 1)) / p <= (y + (p - 1)) / p) by nia.
  assert ((x + (p - 1)) / p < (y + (p - 1)) / p + 1); [|lia]. apply Z.div_lt_upper_bound; lia.
Qed.

Lemma page_down_pos x : fits64 x -> 0 <= ALIGN_DOWN x hps.
Proof using HP. intros Hx. destruct (page_down_div x Hx) as (p & Hp & -> & _). pose proof (Z.div_pos x p). unfold fits64 in *. nia. Qed.
End Pages.

(** ** The overlay invariant *)

Section Inv.
Context {H : Type} `{HE : HostEnv H} `{HP : !HostPageOk H}.

#[local] Notation hps := (host_page_size_cached (H:=H)).

(** [x] lies under the live overlay of [r]. *)
Definition under (r : guest_region_t) (x : Z) : Prop :=
  region_has_live_overlay r = true /\ r_overlay_start r <= x < r_overlay_end r.

Definition clipped (r : guest_region_t) : Prop :=
  forall x, under r x -> ALIGN_DOWN (r_start r) hps <= x < ALIGN_UP (r_end r) hps.

Lemma under_live r x : r_overlay_active r = true -> r_overlay_start r <= x < r_overlay_end r -> under r x.
Proof. intros Ha Hx. split; [|done]. unfold region_has_live_overlay. rewrite Ha. cbn. apply Z.ltb_lt. lia. Qed.

Lemma clip_under r x : r_start r < r_end r ->
  under (region_clip_overlay (H:=H) r) x <->
  under r x /\ ALIGN_DOWN (r_start r) hps <= x < ALIGN_UP (r_end r) hps.
Proof.
  intros Hr. unfold region_clip_overlay. rewrite (proj2 (Z.leb_gt _ _)), orb_false_r by done.
  destruct (region_has_live_overlay r) eqn:El; cbn [negb].
  2:{ unfold under at 2. rewrite El. split; [|by intros [[? _] _]]. intros [Hl _]. done. }
  assert (r_overlay_active r = true) as Ea by (unfold region_has_live_overlay in El; by destruct (r_overlay_active r)).
  set (ps := ALIGN_DOWN _ _). set (pe := ALIGN_UP _ _). clearbody ps pe.
  set (os := if r_overlay_start r <? ps then ps else r_overlay_start r).
  set (oe := if pe <? r_overlay_end r then pe else r_overlay_end r).
  assert (forall y, os <= y < oe <-> (r_overlay_start r <= y < r_overlay_end r) /\ ps <= y < pe) as Hy.
  { intros y. subst os oe. case_if; case_if; lia. }
  clearbody os oe. destruct (Z.leb_spec oe os) as [Hle|Hlt].
  - split; [by intros [? _]|]. intros [[_ Hx] Hp]. assert (os <= x < oe) by (apply Hy; lia). lia.
  - unfold under. cbn [set_overlay r_overlay_start r_overlay_end]. rewrite Hy. split; [tauto|].
    intros [[_ Hx] Hp]. split; [|done]. unfold region_has_live_overlay. cbn. rewrite Ea. by apply Z.ltb_lt.
Qed.

Lemma clip_clipped r : r_start r < r_end r -> clipped (region_clip_overlay (H:=H) r).
Proof.
  intros Hr x Hx. apply (clip_under _ _ Hr) in Hx as [_ Hx]. by rewrite clip_eq, clip_start, clip_end.
Qed.

(** The pieces of a split region share its overlay. *)
Lemma split_under r b fd x : region_ok r -> r_start r < b < r_end r -> clipped r -> under r x ->
  under (region_clip_overlay (H:=H) (set_end b r)) x \/
  under (region_clip_overlay (H:=H) (advance_start b (set_backing_fd fd r))) x.
Proof using HP.
  intros (Hs & He & _) Hb Hc Hx. pose proof (Hc x Hx) as Hp. rewrite !clip_under by (cbn; lia).
  cbn [set_end advance_start set_backing_fd r_start r_end].
  assert (forall r', r_overlay_active r' = r_overlay_active r -> r_overlay_start r' = r_overlay_start r ->
    r_overlay_end r' = r_overlay_end r -> under r' x) as Hu.
  { intros r' E1 E2 E3. unfold under, region_has_live_overlay in *. by rewrite E1, E2, E3. }
  assert (fits64 b) by (unfold fits64, VA_TOP, two64 in *; lia).
  pose proof (page_down_le (H:=H) b ltac:(done)). pose proof (page_up_ge (H:=H) b ltac:(lia)).
  destruct (Z.lt_ge_cases x (ALIGN_UP b hps)).
  - left. split; [by apply Hu|]. lia.
  - right. split; [by apply Hu|]. lia.
Qed.

Context `{HVm : !HostVm H, HSl : !HostSlab H}.
Variable host_base shm_fd top : Z.

Definition slab_backed (w : H) (x : Z) : Prop := host_backing w (host_base + x) = slab_source shm_fd x.

Definition tracked (l : list guest_region_t) (w : H) : Prop :=
  forall x, 0 <= x < top -> slab_backed w x \/ exists r, r ∈ l /\ under r x.

Definition overlays_ok (g : tracker H) : Prop := Forall clipped (regions g) /\ tracked (regions g) (host g).

Context `{HF : !HostFdLaws H, HFr : !HostFrame H}.

Lemma split_maps b g rc u g' : split_step b g rc u g' ->
  host_backing (host g') = host_backing (host g) /\ vm_stage2 (host g') = vm_stage2 (host g).
Proof using HFr.
  intros [|h Hh|l1 r l2 fd h El Hb Hroom Hd]; [done| |]; cbn [with_host with_regions host].
  - destruct Hh as [->|(f & n & Hd & Hn)]; [done|]. pose proof (dup_maps (host g) f) as Hm. by rewrite Hd in Hm.
  - destruct (0 <=? r_backing_fd r); [|by destruct Hd as [_ ->]].
    destruct Hd as [Hd _]. pose proof (dup_maps (host g) (r_backing_fd r)) as Hm. by rewrite Hd in Hm.
Qed.

Lemma split_overlays b g rc u g' : list_ok (regions g) -> split_step b g rc u g' -> overlays_ok g -> overlays_ok g'.
Proof using HP HFr.
  intros [Hc Hok] Hst [Hcl Ht]. destruct (split_maps _ _ _ _ _ Hst) as [Hb _].
  assert (tracked (regions g) (host g')) as Ht'.
  { intros x Hx. destruct (Ht x Hx) as [Hsl|?]; [left|by right]. unfold slab_backed in *. by rewrite Hb. }
  destruct Hst as [|h Hh|l1 r l2 fd h El Hbb Hroom Hd]; [done|done|].
  unfold overlays_ok. cbn [with_host with_regions regions host] in *. rewrite El in *. clear Ht.
  rewrite Forall_app, Forall_cons_iff in Hcl, Hok. destruct Hcl as (Hc1 & Hcr & Hc2). destruct Hok as (_ & Hr & _).
  split.
  - rewrite Forall_app, !Forall_cons_iff. split_and!; [done|apply clip_clipped; cbn; lia..|done].
  - intros x Hx. destruct (Ht' x Hx) as [?|(q & Hq & Hu)]; [by left|right].
    apply elem_of_app in Hq as [Hq|Hq]; [exists q; set_solver|].
    apply elem_of_cons in Hq as [->|Hq]; [|exists q; set_solver].
    destruct (split_under r b fd x Hr Hbb Hcr Hu); eexists; (split; [|eassumption]); set_solver.
Qed.
End Inv.

(** ** Collecting the overlays of a range *)

Definition in_window (hs he : Z) (o : Z * Z) : Prop := hs <= fst o /\ 0 < snd o /\ fst o + snd o <= he.

Lemma collect_overlays_spec hs he l : 0 <= hs -> he < two64 -> forall lo acc, chain lo l -> Forall (in_window hs he) acc ->
  (length acc + length l <= GUEST_MAX_REGIONS)%nat ->
  let out := collect_overlays hs he l acc in
  acc ⊆ out /\ Forall (in_window hs he) out /\
  forall r x, r ∈ l -> r_start r < he -> hs < r_end r -> under r x -> hs <= x < he ->
    exists o, o ∈ out /\ fst o <= x < fst o + snd o.
Proof.
  intros Hhs Hhe. induction l as [|r l IH]; intros lo acc Hc Hacc Hn; cbn [collect_overlays].
  { split; [done|]. split; [done|]. by intros r x ?%elem_of_nil. }
  cbn [length chain] in *. destruct Hc as (Hlo & Hne & Hc).
  rewrite (proj2 (Nat.leb_gt _ _)) by lia.
  (* a region that is skipped *)
  assert (forall out, (acc ⊆ out /\ Forall (in_window hs he) out /\ forall q x, q ∈ l -> r_start q < he -> hs < r_end q -> under q x ->
      hs <= x < he -> exists o, o ∈ out /\ fst o <= x < fst o + snd o) ->
    (r_start r < he -> hs < r_end r -> forall x, under r x -> hs <= x < he -> exists o, o ∈ out /\ fst o <= x < fst o + snd o) ->
    acc ⊆ out /\ Forall (in_window hs he) out /\ forall q x, q ∈ r :: l -> r_start q < he -> hs < r_end q -> under q x ->
      hs <= x < he -> exists o, o ∈ out /\ fst o <= x < fst o + snd o) as Hcons.
  { intros out (? & ? & Hl) Hr. split; [done|]. split; [done|]. intros q x [->|Hq]%elem_of_cons; eauto. }
  destruct (Z.leb_spec he (r_start r)) as [Hbr|Hbr].
  { split; [done|]. split; [done|]. intros q x [->|Hq]%elem_of_cons Hqs; [lia|].
    pose proof (chain_bounds _ _ _ Hc Hq). lia. }
  destruct (Z.leb_spec (r_end r) hs) as [Hbe|Hbe].
  { apply Hcons; [apply (IH (r_end r) acc); [done|done|lia]|lia]. }
  destruct (region_has_live_overlay r) eqn:El; cbn [negb].
  2:{ apply Hcons; [apply (IH (r_end r) acc); [done|done|lia]|]. intros _ _ x [Hl _]. congruence. }
  set (s := if hs <? r_overlay_start r then r_overlay_start r else hs).
  set (e := if r_overlay_end r <? he then r_overlay_end r else he).
  assert (forall x, r_overlay_start r <= x < r_overlay_end r -> hs <= x < he -> s <= x < e) as Hse
    by (intros x ? ?; subst s e; case_if; case_if; lia).
  assert (hs <= s /\ e <= he) as [Hs1 He1] by (subst s e; split; case_if; lia).
  clearbody s e. destruct (Z.leb_spec e s) as [Hes|Hes].
  { apply Hcons; [apply (IH (r_end r) acc); [done|done|lia]|]. intros _ _ x [_ Hx] Hw. pose proof (Hse x Hx Hw). lia. }
  assert ((e - s)%u64 = e - s) as -> by (by u64).
  destruct (existsb _ acc) eqn:Ex.
  - destruct (IH (r_end r) acc Hc Hacc ltac:(lia)) as (Hsub & Hw & Hl). apply Hcons; [done|].
    intros _ _ x [_ Hx] Hxw. apply existsb_exists in Ex as (o & Ho%list_elem_of_In & [E1 E2]%andb_prop).
    apply Z.eqb_eq in E1, E2. exists o. split; [by apply Hsub|]. pose proof (Hse x Hx Hxw). lia.
  - destruct (IH (r_end r) (acc ++ [(s, e - s)]) Hc) as (Hsub & Hw & Hl).
    { apply Forall_app. split; [done|]. constructor; [|constructor]. unfold in_window. cbn. lia. }
    { rewrite length_app. cbn [length]. lia. }
    apply Hcons; [split; [set_solver|done]|]. intros _ _ x [_ Hx] Hxw. exists (s, e - s). split; [apply Hsub; set_solver|].
    pose proof (Hse x Hx Hxw). cbn. lia.
Qed.

Lemma overlay_scan_none hs he l lo : chain lo l -> overlay_scan hs he l = false ->
  forall r x, r ∈ l -> r_start r < he -> hs < r_end r -> ~ under r x.
Proof.
  revert lo. induction l as [|r l IH]; intros lo Hc; cbn [overlay_scan chain] in *; [by intros _ r x ?%elem_of_nil|].
  destruct Hc as (Hlo & Hne & Hc). intros E q x [->|Hq]%elem_of_cons Hs He.
  - rewrite (proj2 (Z.leb_gt he _)), (proj2 (Z.leb_gt _ hs)) in E by lia. intros [Hl _]. by rewrite Hl in E.
  - pose proof (chain_bounds _ _ _ Hc Hq). rewrite (proj2 (Z.leb_gt he _)) in E by lia.
    apply (IH (r_end r)); [done| |done|done|done]. destruct (r_end r <=? hs); [done|]. by destruct (region_has_live_overlay r).
Qed.

(** ** Taking the overlays out *)

(** The array [l'] is [l] with some overlay marks cleared. *)
Definition unmarked (l l' : list guest_region_t) : Prop :=
  Forall2 (fun r r' => r' = r \/ r' = region_clear_overlay r) l l'.

(** What the tracker says apart from the overlay mark. *)
Definition plain_view (l : list guest_region_t) (a : Z) : option attrs :=
  option_map (fun x => mk_attrs (a_gpa x) (a_vma_id x) (a_prot x) (a_flags x) (a_file_off x) (a_shared x)
    (a_noreserve x) (a_backing_ro x) (a_inherited x) false (a_name x)) (view l a).

Lemma unmarked_refl l : unmarked l l.
Proof. apply Forall2_same_length_lookup. split; [done|]. intros i x y -> [= ->]. by left. Qed.

Lemma unmarked_trans l1 l2 l3 : unmarked l1 l2 -> unmarked l2 l3 -> unmarked l1 l3.
Proof.
  unfold unmarked. intros H. revert l3. induction H as [|a b l1 l2 Hab H IH]; intros l3 H3; inversion H3 as [|? c ? l Hbc H']; subst.
  - constructor.
  - constructor; [|by apply IH]. destruct Hab as [->| ->], Hbc as [->| ->]; auto.
Qed.

Lemma unmarked_clear l s e : unmarked l (clear_overlay_metadata_range l s e).
Proof. induction l as [|r l IH]; constructor; [|done]. repeat case_if; auto. Qed.

Lemma unmarked_facts l l' : unmarked l l' ->
  length l' = length l /\ (forall lo, chain lo l -> chain lo l') /\ (Forall region_ok l -> Forall region_ok l') /\
  (forall a, plain_view l' a = plain_view l a) /\ (forall x, fd_count l' x = fd_count l x) /\
  (forall b, cut_at b l -> cut_at b l').
Proof.
  unfold unmarked, cut_at. induction 1 as [|r r' l l' Hr _ (IHn & IHc & IHo & IHv & IHf & IHb)]; [done|].
  assert (r_start r' = r_start r /\ r_end r' = r_end r /\ r_backing_fd r' = r_backing_fd r /\ (region_ok r -> region_ok r') /\
    in_region = in_region) as (Es & Ee & Ef & Eo & _) by (by destruct Hr as [->| ->]).
  split_and!.
  - cbn. by rewrite IHn.
  - intros lo. cbn. rewrite Es, Ee. intuition.
  - rewrite !Forall_cons_iff. intuition.
  - intros a. unfold plain_view in *. rewrite !view_cons. unfold in_region. rewrite Es, Ee. case_if; [|apply IHv].
    by destruct Hr as [->| ->].
  - intros x. cbn. by rewrite Ef, IHf.
  - intros b. rewrite !Forall_cons_iff, Es, Ee. intuition.
Qed.

Section Remove.
Context {H : Type} `{HE : HostEnv H} `{HP : !HostPageOk H} `{HVm : !HostVm H, HVl : !HostVmLaws H, HSl : !HostSlab H, HSll : !HostSlabLaws H}.
Context `{HF : !HostFdLaws H, HFr : !HostFrame H}.
Context (host_base shm_fd : Z) (others : list (Z * Z)) (top : Z).
Context (Htop : top <= 2 ^ 48) (Hothers : Forall (fun r => top <= fst r) others).

#[local] Notation slab_ok := (slab_backed host_base shm_fd).
#[local] Notation ok := (overlays_ok host_base shm_fd top).

(** The outcome of dropping the overlays of a window. *)
Record dropped (hs he : Z) (l : list hvf_segment_t) (g : tracker H) (rc : Z) (l' : list hvf_segment_t) (g' : tracker H)
    : Prop := {
  dr_rc : rc <= 0;
  dr_segments : segments_ok top l';
  dr_overlays : ok g';
  dr_view a : plain_view (regions g') a = plain_view (regions g) a;
  dr_frame a : ~ host_base + hs <= a < host_base + he -> host_backing (host g') a = host_backing (host g) a;
  dr_mono x : 0 <= x < top -> slab_ok (host g) x -> slab_ok (host g') x;
  dr_held : rc = 0 \/ hv_reliable (W := H) -> held others (host g) l -> held others (host g') l'
}.

(** The regions only lose marks, and the descriptors stay. *)
Definition kept_regions (g g' : tracker H) : Prop :=
  unmarked (regions g) (regions g') /\ next_vma_id g' = next_vma_id g /\
  regions_tracker_stale g' = regions_tracker_stale g /\ forall x, fd_open (host g') x <-> fd_open (host g) x.

Lemma remove_one hs he l g off len : segments_ok top l -> ok g -> 0 <= hs -> he <= top -> in_window hs he (off, len) ->
  exists rc l' w', hvf_remove_file_overlay host_base shm_fd l (host g) off len = Some (rc, l', w') /\
    dropped hs he l g rc l' (with_host w' g) /\ (forall x, fd_open w' x <-> fd_open (host g) x) /\
    (rc = 0 -> forall x, off <= x < off + len -> slab_ok w' x).
Proof using Htop Hothers HVl HSll HFr.
  intros Hl [Hc Ht] Hhs Hhe (Ho & Hn & Hon). cbn [fst snd] in *.
  destruct (remove_overlay_spec host_base shm_fd others top Htop Hothers off len l (host g)) as (rc & l' & w' & E & R & Hb);
    [lia|done|lia|done|].
  exists rc, l', w'. split; [done|].
  assert (forall x, 0 <= x < top -> slab_ok (host g) x -> slab_ok w' x) as Hmono.
  { intros x Hx Hs. unfold slab_backed in *. destruct Hb as [->|Hb]; [done|]. rewrite Hb. case_if; [f_equal; lia|done]. }
  split; [|split].
  - split; cbn [with_host host regions]; [apply R|apply R| |done| |done|apply R].
    + split; [done|]. intros x Hx. destruct (Ht x Hx); [left; by apply Hmono|by right].
    + intros a Ha. destruct (or_frame _ _ _ _ _ _ _ _ _ _ _ R) as [src Hf]. rewrite Hf. case_if; [lia|done].
  - exact (remove_overlay_frame same_open host_base shm_fd _ _ _ _ _ _ _ E).
  - intros -> x Hx. unfold slab_backed. rewrite (or_done _ _ _ _ _ _ _ _ _ _ _ R eq_refl). case_if; [f_equal; lia|]. lia.
Qed.

Lemma dropped_trans hs he l g l1 g1 rc l2 g2 : dropped hs he l g 0 l1 g1 -> dropped hs he l1 g1 rc l2 g2 ->
  dropped hs he l g rc l2 g2.
Proof.
  intros D1 D2. split; try apply D2.
  - intros a. by rewrite (dr_view _ _ _ _ _ _ _ D2), (dr_view _ _ _ _ _ _ _ D1).
  - intros a Ha. by rewrite (dr_frame _ _ _ _ _ _ _ D2), (dr_frame _ _ _ _ _ _ _ D1).
  - intros x Hx Hs. apply (dr_mono _ _ _ _ _ _ _ D2 _ Hx), (dr_mono _ _ _ _ _ _ _ D1 _ Hx Hs).
  - intros Hr Hh. apply (dr_held _ _ _ _ _ _ _ D2 Hr), (dr_held _ _ _ _ _ _ _ D1); auto.
Qed.
(** Clearing the marks of a range that the slab backs again. *)
Lemma clear_marks hs he l g off len : segments_ok top l -> ok g ->
  (forall x, off <= x < off + len -> slab_ok (host g) x) ->
  dropped hs he l g 0 l (with_regions (clear_overlay_metadata_range (regions g) off (off + len)) g).
Proof.
  intros Hl [Hc Ht] Hs. pose proof (unmarked_clear (regions g) off (off + len)) as Hu.
  split; cbn [with_regions host regions]; [done|done| |apply (unmarked_facts _ _ Hu)|done|done|done]. split.
  - cbn [with_regions regions]. unfold clear_overlay_metadata_range. apply Forall_map.
    apply (list.Forall_impl _ _ _ Hc). intros r Hr. repeat case_if; try done. by intros x [? _].
  - cbn [with_regions regions host]. intros x Hx. destruct (Ht x Hx) as [?|(r & Hr & Hux)]; [by left|].
    destruct (decide (off <= x < off + len)) as [Hin|Hin]; [left; by apply Hs|right]. exists r. split; [|done].
    apply list_elem_of_fmap. exists r. split; [|done]. destruct Hux as [-> Hux]. cbn [negb].
    case_if; [done|]. unbool. lia.
Qed.

Lemma remove_overlays_spec hs he ovs : 0 <= hs -> he <= top -> forall l g, segments_ok top l -> ok g ->
  Forall (in_window hs he) ovs ->
  exists rc l' g', remove_overlays host_base shm_fd ovs l g = Some (rc, l', g') /\
    dropped hs he l g rc l' g' /\ kept_regions g g' /\
    (rc = 0 -> forall o x, o ∈ ovs -> fst o <= x < fst o + snd o -> slab_ok (host g') x).
Proof using Htop Hothers HVl HSll HFr.
  intros Hhs Hhe. induction ovs as [|[off len] ovs IH]; intros l g Hl Hg Hw; cbn [remove_overlays].
  { exists 0, l, g. split; [done|]. split; [by split|]. split; [|by intros _ o x ?%elem_of_nil].
    split_and!; [apply unmarked_refl|done..]. }
  apply Forall_cons_iff in Hw as [Hw Hws].
  destruct (remove_one hs he l g off len Hl Hg Hhs Hhe Hw) as (rc & l1 & w1 & -> & D1 & Hf1 & Hs1). run. cbv zeta.
  destruct (Z.ltb_spec rc 0) as [Hrc|Hrc].
  { eexists _, _, _. split; [done|]. split; [done|]. split; [|lia]. split_and!; [apply unmarked_refl|done..]. }
  pose proof (dr_rc _ _ _ _ _ _ _ D1). assert (rc = 0) as -> by lia.
  assert ((off + len)%u64 = off + len) as -> by (unfold in_window in Hw; cbn in Hw; by u64).
  set (g1 := with_host w1 g) in *.
  set (g2 := with_regions (clear_overlay_metadata_range (regions g1) off (off + len)) g1).
  assert (dropped hs he l g 0 l1 g2) as D2.
  { eapply dropped_trans; [exact D1|]. apply clear_marks; [apply D1|apply D1|]. by apply Hs1. }
  destruct (IH l1 g2 (dr_segments _ _ _ _ _ _ _ D2) (dr_overlays _ _ _ _ _ _ _ D2) Hws) as (rc & l3 & g3 & E & D3 & (K1 & K2 & K3 & K4) & Hs3).
  exists rc, l3, g3. split; [exact E|]. split; [by eapply dropped_trans|]. split.
  - split_and!; [|done..|].
    + eapply unmarked_trans; [|exact K1]. apply unmarked_clear.
    + intros x. rewrite K4. apply Hf1.
  - intros -> o x [->|Ho]%elem_of_cons Hx; [|by eapply Hs3]. cbn [fst snd] in Hx.
    apply (dr_mono _ _ _ _ _ _ _ D3); [unfold in_window in Hw; cbn in Hw; lia|]. by apply Hs1.
Qed.

(** *** The cleanup *)

Context (Htop_page : ALIGN_UP top (host_page_size_cached (H:=H)) = top).

(** A region cut at both ends of the host window and under whose overlay a
    window address lies overlaps the window. *)
Lemma under_overlaps r x s e : region_ok r -> r_start r < r_end r -> clipped (H:=H) r -> under r x ->
  let hs := ALIGN_DOWN s (host_page_size_cached (H:=H)) in
  let he := ALIGN_UP e (host_page_size_cached (H:=H)) in
  fits64 s -> s <= VA_TOP -> 0 <= e <= VA_TOP -> hs <= x < he -> r_start r < he /\ hs < r_end r.
Proof using HP.
  intros (Hs & He & _) Hne Hc Hu hs he Hfs Hvs Hve Hx. pose proof (Hc x Hu) as Hp. subst hs he. split.
  - destruct (Z.lt_ge_cases (r_start r) (ALIGN_UP e (host_page_size_cached (H:=H)))) as [|Hge]; [done|].
    assert (fits64 (r_start r)) as Hfr by (unfold fits64, VA_TOP, two64 in *; lia).
    pose proof (page_down_up (H:=H) e (r_start r) Hve Hfr Hge). lia.
  - destruct (Z.lt_ge_cases (ALIGN_DOWN s (host_page_size_cached (H:=H))) (r_end r)) as [|Hge]; [done|].
    pose proof (page_up_down (H:=H) (r_end r) s ltac:(lia) Hfs Hvs Hge). lia.
Qed.

(** What a cleanup does to the array besides the marks: cuts at the window's
    ends, ownership kept. *)
Definition recut (g g' : tracker H) : Prop :=
  tracker_wf g' /\ next_vma_id g' = next_vma_id g /\ regions_tracker_stale g' = regions_tracker_stale g /\
  forall F, fd_inv F g -> fd_inv F g'.
Lemma undo_maps g u : host_backing (host (undo_region_split g u)) = host_backing (host g) /\
  vm_stage2 (host (undo_region_split g u)) = vm_stage2 (host g).
Proof using HFr.
  destruct u as [[i orig]|]; [|done]. unfold undo_region_split. cbn [with_host with_regions host].
  destruct (regions g !! _) as [r|]; [|done]. case_if; [apply close_maps|done].
Qed.

Lemma split_bounds_overlays g s e rc us g' : tracker_wf g -> 0 <= s -> 0 <= e ->
  split_regions_at_bounds g s e = (rc, us, g') ->
  host_backing (host g') = host_backing (host g) /\ vm_stage2 (host g') = vm_stage2 (host g) /\ (ok g -> ok g').
Proof using HP HF HFr.
  intros Hwf Hs He E. destruct (split_bounds_spec g s e rc us g' Hwf Hs He E) as (_ & _ & Hrc & _ & _ & Hfail).
  revert E. unfold split_regions_at_bounds.
  destruct (split_regions_at_boundary g s) as [[r1 u1] g1] eqn:E1.
  pose proof (split_boundary_step _ _ _ _ _ (proj1 Hwf) Hs E1) as S1.
  destruct (split_step_wf _ _ _ _ _ Hwf S1) as (W1 & _). destruct (split_maps _ _ _ _ _ S1) as [B1 M1].
  destruct (Z.ltb_spec r1 0).
  { intros [= <- <- <-]. split; [done|]. split; [done|]. apply (split_overlays _ _ _ _ _ _ _ _ (proj1 Hwf) S1). }
  destruct (split_regions_at_boundary g1 e) as [[r2 u2] g2] eqn:E2.
  pose proof (split_boundary_step _ _ _ _ _ (proj1 W1) He E2) as S2. destruct (split_maps _ _ _ _ _ S2) as [B2 M2].
  destruct (Z.ltb_spec r2 0); intros [= <- <- <-].
  - destruct (undo_maps g2 u1) as [B3 M3]. split; [congruence|]. split; [congruence|].
    intros [Hc Ht]. destruct (Hfail ltac:(lia)) as (El & _). unfold overlays_ok. rewrite El. split; [done|].
    intros x Hx. unfold slab_backed. rewrite B3, B2, B1. by apply Ht.
  - split; [congruence|]. split; [congruence|]. intros Hok.
    apply (split_overlays _ _ _ _ _ _ _ _ (proj1 W1) S2), (split_overlays _ _ _ _ _ _ _ _ (proj1 Hwf) S1), Hok.
Qed.

(** A split by itself drops nothing. *)
Lemma split_dropped hs he l g rc s e us g' : segments_ok top l -> tracker_wf g -> ok g -> 0 <= s -> 0 <= e ->
  split_regions_at_bounds g s e = (rc, us, g') -> dropped hs he l g rc l g' /\ recut g g'.
Proof using HP HF HFr.
  intros Hl Hwf Hok Hs He E.
  destruct (split_bounds_spec g s e rc us g' Hwf Hs He E) as (W & V & Hrc & Hfd & Hc & Hfail).
  destruct (split_bounds_overlays g s e rc us g' Hwf Hs He E) as (Hb & Hm & Hov). split.
  - split; [done|done|by apply Hov| |by intros; rewrite Hb| |].
    + intros a. unfold plain_view. by rewrite V.
    + intros x _. unfold slab_backed. by rewrite Hb.
    + intros _. unfold held. by rewrite Hm.
  - assert (next_vma_id g' = next_vma_id g /\ regions_tracker_stale g' = regions_tracker_stale g) as [En Es].
    { destruct (decide (rc = 0)) as [->|Hne]; [|by destruct (Hfail Hne) as (_ & ? & ? & _)].
      revert E. unfold split_regions_at_bounds.
      destruct (split_regions_at_boundary g s) as [[r1 u1] g1] eqn:E1.
      pose proof (split_boundary_step _ _ _ _ _ (proj1 Hwf) Hs E1) as S1.
      destruct (split_step_wf _ _ _ _ _ Hwf S1) as (W1 & _).
      case_if; [intros [= ? _ _]; lia|].
      destruct (split_regions_at_boundary g1 e) as [[r2 u2] g2] eqn:E2.
      pose proof (split_boundary_step _ _ _ _ _ (proj1 W1) He E2) as S2.
      intros [= -> _ <-]. cbn. destruct S1, S2; done. }
    split_and!; [done..|]. intros F HFd. destruct (decide (rc = 0)) as [->|Hne]; [by apply Hfd|].
    destruct (Hfail Hne) as (El & _ & _ & Ho). unfold fd_inv in *. rewrite El. intros x Hx. rewrite Ho. by apply HFd.
Qed.

(** A window address is the slab's or lies under the overlay of a region the
    walk visits. *)
Lemma tracked_tail g s e x : tracker_wf g -> ok g -> fits64 s -> s <= VA_TOP -> 0 <= e <= VA_TOP -> 0 <= x < top ->
  let hs := ALIGN_DOWN s (host_page_size_cached (H:=H)) in
  let he := ALIGN_UP e (host_page_size_cached (H:=H)) in
  hs <= x < he ->
  slab_ok (host g) x \/
  exists r, r ∈ drop (guest_region_first_end_above (regions g) hs) (regions g) /\ r_start r < he /\ hs < r_end r /\ under r x.
Proof using HP.
  intros [[Hc Hrok] _] [Hcl Ht] Hfs Hvs Hve Hxt hs he Hx.
  destruct (Ht x Hxt) as [?|(r & Hr & Hu)]; [by left|right].
  rewrite list.Forall_forall in Hcl, Hrok. pose proof (chain_bounds _ _ _ Hc Hr) as (_ & Hne & _).
  destruct (under_overlaps r x s e (Hrok r Hr) Hne (Hcl r Hr) Hu Hfs Hvs Hve Hx) as [H1 H2].
  exists r. split; [|done]. destruct (first_end_above_split 0 (regions g) hs Hc) as (_ & Hlo & _).
  set (i := guest_region_first_end_above (regions g) hs) in *. rewrite <- (take_drop i (regions g)) in Hr.
  apply elem_of_app in Hr as [Hr|Hr]; [|done]. rewrite list.Forall_forall in Hlo. specialize (Hlo r Hr). fold hs in H2. lia.
Qed.

Lemma chain_tail l i : chain 0 l -> exists lo, chain lo (drop i l).
Proof. intros Hc. rewrite <- (take_drop i l) in Hc. apply chain_app in Hc as [_ Hc]. by eexists. Qed.

Lemma kept_recut g g1 g2 : recut g g1 -> kept_regions g1 g2 -> recut g g2.
Proof.
  intros ([[Hc Ho] Hn] & En & Es & HFd) (Hu & En' & Es' & Hx).
  destruct (unmarked_facts _ _ Hu) as (Ul & Uc & Uo & _ & Uf & _). unfold recut, tracker_wf, nregions in *. rewrite Ul, En', Es'.
  split_and!; [split; auto|done|done|done|]. intros F Hf%HFd. unfold fd_inv in *. intros x Hx0.
  rewrite Hx, Uf. by apply Hf.
Qed.

(** When the scan finds no overlay, no region overlapping the window has one. *)
Lemma scan_quiet l hs he : chain 0 l -> overlay_scan hs he (drop (guest_region_first_end_above l hs) l) = false ->
  forall r x, r ∈ l -> r_start r < he -> hs < r_end r -> ~ under r x.
Proof.
  intros Hch Esc r x Hr Hr1 Hr2. destruct (first_end_above_split 0 l hs Hch) as (_ & Hlo & _).
  set (i := guest_region_first_end_above l hs) in *. rewrite <- (take_drop i l) in Hr.
  apply elem_of_app in Hr as [Hr|Hr]; [rewrite list.Forall_forall in Hlo; specialize (Hlo r Hr); lia|].
  destruct (chain_tail l i Hch) as [lo Hc]. exact (overlay_scan_none _ _ _ _ Hc Esc r x Hr Hr1 Hr2).
Qed.

(** In an array cut at the ends of the host window, the overlays of the regions
    inside stay inside. *)
Lemma cut_quiet g s e r x : tracker_wf g -> ok g ->
  let hs := ALIGN_DOWN s (host_page_size_cached (H:=H)) in
  let he := ALIGN_UP e (host_page_size_cached (H:=H)) in
  cut_at hs (regions g) -> cut_at he (regions g) -> fits64 s -> 0 <= e <= VA_TOP ->
  r ∈ regions g -> r_start r < he -> hs < r_end r -> under r x -> hs <= x < he.
Proof using HP.
  intros [[Hc Hok] _] [Hcl _] hs he C1 C2 Hfs Hve Hr Hr1 Hr2 Hu. unfold cut_at in *.
  rewrite list.Forall_forall in Hok, Hcl, C1, C2.
  pose proof (C1 r Hr). pose proof (C2 r Hr). pose proof (Hcl r Hr x Hu). destruct (Hok r Hr) as (Hs & He & _).
  pose proof (chain_bounds _ _ _ Hc Hr) as (_ & Hne & _).
  assert (fits64 (r_start r)) as Hfr by (unfold fits64, VA_TOP, two64 in *; lia).
  assert (hs <= r_start r) as Hge by lia. assert (r_end r <= he) as Hle by lia.
  pose proof (page_down_ge (H:=H) s (r_start r) Hfs Hfr Hge).
  assert (0 <= r_end r <= VA_TOP) as Hre by lia.
  pose proof (page_up_le (H:=H) (r_end r) e Hre Hve Hle). subst hs he. lia.
Qed.

Lemma cleanup_spec l g s e : tracker_wf g -> segments_ok top l -> ok g -> 0 <= s -> s <= top -> 0 <= e -> e <= top ->
  let hs := ALIGN_DOWN s (host_page_size_cached (H:=H)) in
  let he := ALIGN_UP e (host_page_size_cached (H:=H)) in
  exists rc l' g', cleanup_overlays_in_range host_base shm_fd l g s e = Some (rc, l', g') /\
    dropped hs he l g rc l' g' /\ recut g g' /\ (rc = 0 -> forall x, hs <= x < he -> slab_ok (host g') x) /\
    (rc = 0 -> forall r x, r ∈ regions g' -> r_start r < he -> hs < r_end r -> under r x -> hs <= x < he).
Proof using Htop Hothers Htop_page HP HF HVl HSll HFr.
  intros Hwf Hl Hok Hs0 Hs He0 He hs he.
  assert (fits64 s /\ s <= VA_TOP /\ 0 <= e <= VA_TOP) as (Hfs & Hvs & Hve) by (unfold fits64, VA_TOP, two64; lia).
  assert (0 <= hs) as Hhs by (by apply page_down_pos).
  assert (he <= top) as Hhe.
  { rewrite <- Htop_page. apply page_up_mono; unfold VA_TOP, two64 in *; lia. }
  pose proof (page_up_ge (H:=H) e Hve) as Heu. fold he in Heu.
  unfold cleanup_overlays_in_range. cbv zeta. fold hs he.
  destruct (overlay_scan _ _ _) eqn:Esc; cbn [negb].
  2:{ exists 0, l, g. split; [done|]. split; [by split|]. split; [by split_and!|].
      pose proof (scan_quiet (regions g) hs he (proj1 (proj1 Hwf)) Esc) as Hno.
      split; [|intros _ r x Hr Hr1 Hr2 Hu; by destruct (Hno r x Hr Hr1 Hr2)]. intros _ x Hx.
      destruct (tracked_tail g s e x Hwf Hok Hfs Hvs Hve ltac:(lia) Hx) as [?|(r & Hr & Hr1 & Hr2 & Hu)]; [done|exfalso].
      refine (Hno r x _ Hr1 Hr2 Hu). rewrite <- (take_drop (guest_region_first_end_above (regions g) hs) (regions g)).
      apply elem_of_app. by right. }
  destruct (split_regions_at_bounds g hs he) as [[serr us] g1] eqn:Esp.
  destruct (split_dropped hs he l g serr hs he us g1 Hl Hwf Hok Hhs ltac:(lia) Esp) as [D1 R1].
  pose proof (dr_rc _ _ _ _ _ _ _ D1). destruct (Z.ltb_spec serr 0).
  { exists serr, l, g1. split; [done|]. split; [done|]. split; [done|]. split; lia. }
  assert (serr = 0) as -> by lia. pose proof (proj1 R1) as W1. pose proof (dr_overlays _ _ _ _ _ _ _ D1) as O1.
  set (i := guest_region_first_end_above (regions g1) hs).
  destruct (chain_tail (regions g1) i (proj1 (proj1 W1))) as [lo Hc].
  destruct (collect_overlays_spec hs he (drop i (regions g1)) Hhs ltac:(unfold two64; lia) lo [] Hc ltac:(constructor))
    as (_ & Hwin & Hcov).
  { rewrite length_drop. cbn [length]. destruct W1 as [_ Hn]. unfold nregions in Hn. lia. }
  destruct (remove_overlays_spec hs he (collect_overlays hs he (drop i (regions g1)) []) Hhs Hhe l g1 Hl O1 Hwin)
    as (rc & l2 & g2 & -> & D2 & K2 & Hs2).
  exists rc, l2, g2. split; [done|]. split; [by eapply dropped_trans|]. split; [by eapply kept_recut|].
  split.
  2:{ destruct (split_bounds_spec g hs he 0 us g1 Hwf Hhs ltac:(lia) Esp) as (_ & _ & _ & _ & Hcut & _).
      destruct (Hcut eq_refl) as (C1 & C2 & _). destruct (unmarked_facts _ _ (proj1 K2)) as (_ & _ & _ & _ & _ & Hcu).
      intros _ r x. apply (cut_quiet g2 s e); [|apply D2|by apply Hcu|by apply Hcu|done..].
      apply (kept_recut g g1 g2 R1 K2). }
  intros -> x Hx. destruct (tracked_tail g1 s e x W1 O1 Hfs Hvs Hve ltac:(lia) Hx) as [Hsl|(r & Hr & Hr1 & Hr2 & Hu)].
  - apply (dr_mono _ _ _ _ _ _ _ D2); [lia|done].
  - destruct (Hcov r x Hr Hr1 Hr2 Hu Hx) as (o & Ho & Hox). by apply (Hs2 eq_refl o x).
Qed.
End Remove.

(** ** What a cleanup leaves alone *)

Section CleanupFrame.
Context {H : Type} `{HE : HostEnv H, HVm : !HostVm H, HSl : !HostSlab H} (R : H -> H -> Prop) `{HPre : !PreOrder R, HSt : !HostStep R}.
Context (Hdup : forall w fd, R w (snd (host_dup w fd))) (Hclose : forall w fd, R w (host_close w fd)).
Variable host_base shm_fd : Z.

Lemma split_boundary_frame g b rc u g' : split_regions_at_boundary g b = (rc, u, g') -> R (host g) (host g').
Proof using HPre Hdup.
  unfold split_regions_at_boundary. case_if; [by intros [= _ _ <-]|].
  destruct (regions g !! _) as [r|]; [|by intros [= _ _ <-]]. case_if; [by intros [= _ _ <-]|].
  destruct (Nat.leb _ _); [by intros [= _ _ <-]|].
  assert (R (host g) (snd (if 0 <=? r_backing_fd r then host_dup (host g) (r_backing_fd r) else (r_backing_fd r, host g))))
    as Hd by (case_if; [apply Hdup|done]).
  destruct (if 0 <=? r_backing_fd r then _ else _) as [fd h]. case_if; by intros [= _ _ <-].
Qed.

Lemma undo_frame g u : R (host g) (host (undo_region_split g u)).
Proof using HPre Hclose.
  destruct u as [[i orig]|]; [|done]. cbn. destruct (regions g !! _) as [r|]; [|done]. case_if; [apply Hclose|done].
Qed.

Lemma split_bounds_frame g s e rc us g' : split_regions_at_bounds g s e = (rc, us, g') -> R (host g) (host g').
Proof using HPre Hdup Hclose.
  unfold split_regions_at_bounds. destruct (split_regions_at_boundary g s) as [[r1 u1] g1] eqn:E1.
  apply split_boundary_frame in E1. case_if; [by intros [= _ _ <-]|].
  destruct (split_regions_at_boundary g1 e) as [[r2 u2] g2] eqn:E2. apply split_boundary_frame in E2.
  intros [= _ _ <-]. etrans; [exact E1|]. case_if; [etrans; [exact E2|apply undo_frame]|exact E2].
Qed.

Lemma remove_overlays_frame ovs l g rc l' g' : remove_overlays host_base shm_fd ovs l g = Some (rc, l', g') -> R (host g) (host g').
Proof using HPre HSt.
  revert l g. induction ovs as [|[off len] ovs IH]; intros l g; cbn [remove_overlays]; [by intros [= _ _ <-]|].
  destruct (hvf_remove_file_overlay _ _ _ _ _ _) as [[[rc1 l1] w1]|] eqn:E1; [|done]. run.
  apply (remove_overlay_frame R) in E1. cbv zeta. case_if; [by intros [= _ _ <-]|].
  intros E%IH. by etrans.
Qed.

Lemma cleanup_frame l g s e rc l' g' : cleanup_overlays_in_range host_base shm_fd l g s e = Some (rc, l', g') -> R (host g) (host g').
Proof using HPre HSt Hdup Hclose.
  unfold cleanup_overlays_in_range. cbv zeta. case_if; [by intros [= _ _ <-]|].
  destruct (split_regions_at_bounds _ _ _) as [[serr us] g1] eqn:E1. apply split_bounds_frame in E1.
  case_if; [by intros [= _ _ <-]|]. intros E%remove_overlays_frame. by etrans.
Qed.
End CleanupFrame.
