(* ===== verification/Mm.v ===== *)
(** * The memory syscalls of src/syscall/mem.c: munmap, mprotect and brk

    [mm] is the part of [guest_t] these calls change: the region tracker (with
    the host behind it), the page tables, the mmap allocator's hints, the stage-2
    segments and the break.  [mm_env] holds what is fixed after boot.  The calls
    run under [mmap_lock], so each is one step on this state. *)

From S2P Require Import Prelude Tlbi Regions RegionSplit Gap PageTable Gva Backing Segments Overlay.

(** [memset(p, 0, n)] on host memory; [host_byte] observes a byte of it. *)
Class HostMemset (W : Type) := {
  host_zero : W -> Z -> Z -> W;
  host_byte : W -> Z -> Z
}.

Record mm_env := mk_env {
  e_layout : layout;
  e_host_base : Z;
  e_shm_fd : Z;
  e_interp_base : Z;
  e_stack_base : Z;
  e_brk_base : Z
}.

Record mm (H : Type) := mk_mm {
  m_trk : tracker H;
  m_pt : guest_pt;
  m_alloc : mmap_alloc;
  m_segs : list hvf_segment_t;
  m_brk : Z
}.
Arguments mk_mm {H} _ _ _ _ _.
Arguments m_trk {H} _.
Arguments m_pt {H} _.
Arguments m_alloc {H} _.
Arguments m_segs {H} _.
Arguments m_brk {H} _.

Definition set_trk {H} (t : tracker H) (m : mm H) : mm H := mk_mm t (m_pt m) (m_alloc m) (m_segs m) (m_brk m).
Definition set_pt {H} (s : guest_pt) (m : mm H) : mm H := mk_mm (m_trk m) s (m_alloc m) (m_segs m) (m_brk m).
Definition set_alloc {H} (a : mmap_alloc) (m : mm H) : mm H := mk_mm (m_trk m) (m_pt m) a (m_segs m) (m_brk m).
Definition set_segs {H} (l : list hvf_segment_t) (m : mm H) : mm H := mk_mm (m_trk m) (m_pt m) (m_alloc m) l (m_brk m).
Definition set_brk {H} (b : Z) (m : mm H) : mm H := mk_mm (m_trk m) (m_pt m) (m_alloc m) (m_segs m) b.

(** ** Helpers *)

Definition INFRA_RESERVE : Z := 16777216.    (* 0x01000000 *)

Definition guest_infra_window (c : mm_env) : Z * Z := ((e_interp_base c - INFRA_RESERVE)%u64, e_interp_base c).

Definition guest_range_hits_infra (c : mm_env) (start end_ : Z) : bool :=
  let '(infra_lo, infra_hi) := guest_infra_window c in (start <? infra_hi) && (infra_lo <? end_).

Definition prot_to_perms (prot : Z) : Z :=
  let perms := MEM_PERM_R in
  let perms := if has prot LINUX_PROT_WRITE then Z.lor perms MEM_PERM_W else perms in
  if has prot LINUX_PROT_EXEC then Z.lor perms MEM_PERM_X else perms.

(** The closed-interval binary search for the first region ending above [start]:
    [first] is the last candidate met. *)
Fixpoint overlaps_search (l : list guest_region_t) (start : Z) (fuel : nat) (lo hi : Z) (first : nat) : nat :=
  match fuel with
  | O => first
  | S fuel =>
      if lo <=? hi then
        let mid := (lo + hi) / 2 in
        match l !! Z.to_nat mid with
        | None => first
        | Some r =>
            if start <? r_end r then overlaps_search l start fuel lo (mid - 1) (Z.to_nat mid)
            else overlaps_search l start fuel (mid + 1) hi first
        end
      else first
  end.

Definition region_range_overlaps (l : list guest_region_t) (start end_ : Z) : bool :=
  match l !! overlaps_search l start (S (length l)) 0 (Z.of_nat (length l) - 1) (length l) with
  | Some r => r_start r <? end_
  | None => false
  end.

Section Mm.
Context {H : Type} `{HE : HostEnv H, HVm : !HostVm H, HSl : !HostSlab H, HMs : !HostMemset H}.
Variable c : mm_env.

#[local] Notation L := (e_layout c).

(** ** munmap of one range *)

(** The zeroing loop, over the regions from the first one that ends above
    [unmap_off]. *)
Fixpoint zero_loop (w : H) (unmap_off end_ : Z) (l : list guest_region_t) : H :=
  match l with
  | [] => w
  | r :: l =>
      if end_ <=? r_start r then w
      else if (r_end r <=? unmap_off) || (r_prot r =? LINUX_PROT_NONE) then zero_loop w unmap_off end_ l
      else
        let zstart := if unmap_off <? r_start r then r_start r else unmap_off in
        let zend := if r_end r <? end_ then r_end r else end_ in
        zero_loop (host_zero w (e_host_base c + zstart) (zend - zstart)%u64) unmap_off end_ l
  end.

Definition lower_hints (a : mmap_alloc) (off : Z) : mmap_alloc :=
  let a := if off <? mmap_rw_gap_hint a then set_rw_hint off a else a in
  if off <? mmap_rx_gap_hint a then set_rx_hint off a else a.

Definition munmap_guest_range (m : mm H) (unmap_off end_ : Z) : option (Z * mm H) :=
  if guest_range_hits_infra c unmap_off end_ then Some (- LINUX_EINVAL, m)
  else
    let '(rc, remove_fd, g) := guest_region_remove_prepare (m_trk m) unmap_off end_ in
    if rc <? 0 then Some (- LINUX_ENOMEM, set_trk g m)
    else
      '(cleanup_err, segs, g) ← cleanup_overlays_in_range (e_host_base c) (e_shm_fd c) (m_segs m) g unmap_off end_;
      let m := set_segs segs (set_trk g m) in
      let drop_fd := set_trk (with_host (close_owned (host g) remove_fd) g) in
      if cleanup_err <? 0 then Some (cleanup_err, drop_fd m)
      else
        '(rc, s) ← guest_invalidate_ptes L (m_pt m) unmap_off end_;
        let m := set_pt s m in
        if rc <? 0 then Some (- LINUX_ENOMEM, drop_fd m)
        else
          let first := guest_region_first_end_above (regions g) unmap_off in
          let g := with_host (zero_loop (host g) unmap_off end_ (drop first (regions g))) g in
          let '(_, g) := guest_region_remove_reserved g unmap_off end_ remove_fd in
          Some (0, set_alloc (lower_hints (m_alloc m) unmap_off) (set_trk g m)).

(** ** mprotect *)

Definition mprotect_same_prot_fast_path_safe (prot : Z) : bool :=
  (prot =? LINUX_PROT_NONE) || has prot LINUX_PROT_WRITE || has prot LINUX_PROT_EXEC.

(** The fast-path test both branches make. *)
Definition mprotect_in_sync (m : mm H) (start end_ prot : Z) : bool :=
  mprotect_same_prot_fast_path_safe prot && negb (regions_tracker_stale (m_trk m)) &&
  guest_region_range_prot_uniform (regions (m_trk m)) start end_ prot &&
  negb (guest_region_range_has_noreserve (regions (m_trk m)) start end_).

Definition sys_mprotect (m : mm H) (addr length prot : Z) : option (Z * mm H) :=
  if negb (Z.land addr 4095 =? 0) then Some (- LINUX_EINVAL, m)
  else if length =? 0 then Some (0, m)
  else
    let length := PAGE_ALIGN_UP length in
    if length =? 0 then Some (- LINUX_EINVAL, m)
    else if (UINT64_MAX - length)%u64 <? addr then Some (- LINUX_EINVAL, m)
    else if 281474976710655 <? addr then Some (0, m)                     (* 0x0000FFFFFFFFFFFF *)
    else if guest_size L <=? addr then
      let mprot_end := (addr + length)%u64 in
      if guest_kbuf_user_va_overlap addr length && has prot LINUX_PROT_EXEC then Some (- LINUX_EINVAL, m)
      else if has prot LINUX_PROT_WRITE && guest_region_range_has_ro_shared_backing (regions (m_trk m)) addr mprot_end
      then Some (- LINUX_EACCES, m)
      else if mprotect_in_sync m addr mprot_end prot then Some (0, m)
      else
        '(rc, s) ← (if negb (prot =? LINUX_PROT_NONE)
                    then guest_update_perms L (regions (m_trk m)) (m_pt m) addr mprot_end (prot_to_perms prot)
                    else guest_invalidate_ptes L (m_pt m) addr mprot_end);
        if rc <? 0 then Some (- LINUX_ENOMEM, set_pt s m)
        else Some (0, set_trk (guest_region_set_prot (m_trk m) addr mprot_end prot) (set_pt s m))
    else
      let mprot_off := (addr - ipa_base L)%u64 in
      if (mprot_off <=? guest_size L) && (length <=? (guest_size L - mprot_off)%u64) then
        let mprot_end := (mprot_off + length)%u64 in
        if guest_range_hits_infra c mprot_off mprot_end then Some (- LINUX_EINVAL, m)
        else if has prot LINUX_PROT_WRITE && guest_region_range_has_ro_shared_backing (regions (m_trk m)) mprot_off mprot_end
        then Some (- LINUX_EACCES, m)
        else if mprotect_in_sync m mprot_off mprot_end prot then Some (0, m)
        else
          '(rc, s) ← (if negb (prot =? LINUX_PROT_NONE)
                      then
                        '(rc, s) ← guest_extend_page_tables L (m_pt m) mprot_off mprot_end (prot_to_perms prot);
                        if rc <? 0 then Some (rc, s)
                        else guest_update_perms L (regions (m_trk m)) s mprot_off mprot_end (prot_to_perms prot)
                      else guest_invalidate_ptes L (m_pt m) mprot_off mprot_end);
          if rc <? 0 then Some (- LINUX_ENOMEM, set_pt s m)
          else Some (0, set_trk (guest_region_set_prot (m_trk m) mprot_off mprot_end prot) (set_pt s m))
      else Some (0, m).

(** ** brk *)

Definition HEAP_NAME : string := "[heap]".
Definition MEM_PERM_RW : Z := 3.

Definition heap_piece_is_plain (r : guest_region_t) : bool :=
  (r_start r <? r_end r) && (r_gpa_base r =? r_start r) &&
  (r_prot r =? Z.lor LINUX_PROT_READ LINUX_PROT_WRITE) &&
  (r_flags r =? Z.lor LINUX_MAP_PRIVATE LINUX_MAP_ANONYMOUS) && (r_backing_fd r <? 0) &&
  negb (r_shared r) && negb (r_noreserve r) && negb (r_backing_ro r) && negb (r_inherited_at_fork r) &&
  negb (region_has_live_overlay r) && bool_decide (r_name r = HEAP_NAME).

Definition brk_limit_region (from limit start end_ : Z) : Z :=
  if (limit <=? start) || (end_ <=? from) then limit
  else if start <=? from then from else start.

(** The limit and [*adjoining]. *)
Definition brk_grow_limit (g : tracker H) (from : Z) : Z * option nat :=
  if regions_tracker_stale g then (from, None)
  else
    let limit := if from <? e_stack_base c then e_stack_base c else from in
    let i := guest_region_first_end_above (regions g) from in
    let adjoining :=
      match i with
      | O => None
      | S j =>
          match regions g !! j with
          | Some r => if (r_end r =? from) && heap_piece_is_plain r then Some j else None
          | None => None
          end
      end in
    (match regions g !! i with
     | Some r => brk_limit_region from limit (r_start r) (r_end r)
     | None => limit
     end, adjoining).

Definition set_stale (g : tracker H) : tracker H := mk_tracker (regions g) (next_vma_id g) true (host g).

(** The tracker update of a growth: the piece that ends at the old break is
    widened, or a new record is added. *)
Definition brk_track_growth (g : tracker H) (adjoining : option nat) (old_brk new_off : Z) : tracker H :=
  match adjoining with
  | Some j =>
      match regions g !! j with
      | Some r => with_regions (<[j := set_end new_off r]> (regions g)) g
      | None => g
      end
  | None =>
      if old_brk <? new_off then
        let heap_vma :=
          match guest_region_find (regions g) (e_brk_base c) with
          | Some r => if bool_decide (r_name r = HEAP_NAME) then r_vma_id r else 0
          | None => 0
          end in
        let '(rc, g) := guest_region_add_ex_owned g old_brk new_off (Z.lor LINUX_PROT_READ LINUX_PROT_WRITE)
                          (Z.lor LINUX_MAP_PRIVATE LINUX_MAP_ANONYMOUS) 0 (Some HEAP_NAME) (-1) false heap_vma in
        if rc <? 0 then set_stale g else g
      else g
  end.

Definition sys_brk (m : mm H) (addr : Z) : option (Z * mm H) :=
  let ipa_brk := (ipa_base L + m_brk m)%u64 in
  let ipa_brk_base := (ipa_base L + e_brk_base c)%u64 in
  let old_brk := m_brk m in
  if addr =? 0 then Some (ipa_brk, m)
  else if addr <? ipa_brk_base then Some (ipa_brk, m)
  else
    let new_off := (addr - ipa_base L)%u64 in
    if guest_size L <=? new_off then Some (ipa_brk, m)
    else
      let '(limit, adjoining) := if old_brk <? new_off then brk_grow_limit (m_trk m) old_brk else (0, None) in
      if (old_brk <? new_off) && (limit <=? new_off) then Some (ipa_brk, m)
      else
        let '(rc, shrink_remove_fd, g) :=
          if new_off <? old_brk then guest_region_remove_prepare (m_trk m) new_off old_brk else (0, -1, m_trk m) in
        if rc <? 0 then Some (ipa_brk, set_trk g m)
        else
          '(rc, s) ←
            (if old_brk <? new_off then
               let grow_start := ALIGN_DOWN old_brk GUEST_PAGE_SIZE in
               let grow_end := PAGE_ALIGN_UP new_off in
               '(rc, s) ← guest_extend_page_tables L (m_pt m) grow_start grow_end MEM_PERM_RW;
               if rc <? 0 then Some (rc, s)
               else guest_update_perms L (regions g) s grow_start grow_end MEM_PERM_RW
             else Some (0, m_pt m));
          if rc <? 0 then Some (ipa_brk, set_pt s (set_trk g m))
          else
            let g := if old_brk <? new_off
                     then with_host (host_zero (host g) (e_host_base c + old_brk) (new_off - old_brk)%u64) g else g in
            let g :=
              if new_off <? old_brk then snd (guest_region_remove_reserved g new_off old_brk shrink_remove_fd)
              else if e_brk_base c <? new_off then brk_track_growth g adjoining old_brk new_off
              else snd (guest_region_remove g (e_brk_base c)
                          (if e_brk_base c <? old_brk then old_brk else (e_brk_base c + 1)%u64)) in
            Some ((ipa_base L + new_off)%u64, set_brk new_off (set_pt s (set_trk g m))).

End Mm.
