(* ===== verification/MunmapFacts.v ===== *)
(** * Facts about unmapping one range

    The composition of the region tracker, the overlay cleanup and the page
    tables in [munmap_guest_range]. *)

From stdpp Require Import sets.
From S2P Require Import Prelude Tlbi Regions RegionFacts HostFds RegionSplit SplitFacts Gap PageTable PtStruct PtView PtOps PtPages Gva Backing Segments SegFacts SegSpecs Overlay OverlayFacts Mm.

(** ** The host's memset

    [host_files] observes the contents of the host's files apart from the slab's
    own object [shm]. *)

Class HostMemsetLaws (H : Type) `{HostEnv H, !HostFdLaws H, !HostVm H, !HostSlab H, !HostMemset H} (shm : Z) : Type := {
  host_files_t : Type;
  host_files : H -> host_files_t;
  zero_maps w p n : host_backing (host_zero w p n) = host_backing w /\ vm_stage2 (host_zero w p n) = vm_stage2 w /\
    same_open w (host_zero w p n);
  zero_files w p n : (forall a, p <= a < p + n -> exists x, host_backing w a = slab_source shm x) ->
    host_files (host_zero w p n) = host_files w;
  zero_in w p n a : p <= a < p + n -> host_byte (host_zero w p n) a = 0;
  zero_out w p n a : ~ p <= a < p + n ->
    (forall b, p <= b < p + n -> host_backing w b = None \/ host_backing w b <> host_backing w a) ->
    host_byte (host_zero w p n) a = host_byte w a;
  files_step : HostStep (W := H) (fun w w' => host_files w' = host_files w);
  files_dup w fd : host_files (snd (host_dup w fd)) = host_files w;
  files_close w fd : host_files (host_close w fd) = host_files w;
  bytes_close w fd : host_byte (host_close w fd) = host_byte w
}.
#[export] Existing Instance files_step.

Section Zero.
Context {H : Type} `{HE : HostEnv H, HF : !HostFdLaws H, HVm : !HostVm H, HSl : !HostSlab H, HMs : !HostMemset H}.
Variable c : mm_env.
Context `{HMl : !HostMemsetLaws H (e_shm_fd c)}.

#[local] Notation slab_ok := (slab_backed (e_host_base c) (e_shm_fd c)).

(** The same maps, descriptors and files. *)
Definition same_world (w w' : H) : Prop :=
  host_backing w' = host_backing w /\ vm_stage2 w' = vm_stage2 w /\ same_open w w' /\ host_files w' = host_files w.

Lemma same_world_trans w1 w2 w3 : same_world w1 w2 -> same_world w2 w3 -> same_world w1 w3.
Proof.
  intros (A1 & B1 & C1 & D1) (A2 & B2 & C2 & D2). split_and!; [congruence..| |congruence].
  intros x. by rewrite (C2 x), (C1 x).
Qed.

(** Distinct slab addresses are distinct memory. *)
Lemma slab_source_inj x y : slab_source (e_shm_fd c) x = None \/ slab_source (e_shm_fd c) x <> slab_source (e_shm_fd c) y \/ x = y.
Proof.
  unfold slab_source. case_if; [|by left]. right. destruct (Z.eq_dec x y); [by right|left; congruence].
Qed.

Lemma zero_one w zs ze : 0 <= zs <= ze -> (forall x, zs <= x < ze -> slab_ok w x) ->
  let w' := host_zero w (e_host_base c + zs) (ze - zs) in
  same_world w w' /\ (forall x, zs <= x < ze -> host_byte w' (e_host_base c + x) = 0) /\
  (forall x, ~ zs <= x < ze -> slab_ok w x -> host_byte w' (e_host_base c + x) = host_byte w (e_host_base c + x)).
Proof.
  intros Hz Hsl w'. destruct (zero_maps (shm:=e_shm_fd c) w (e_host_base c + zs) (ze - zs)) as (Hb & Hs & Hf).
  assert (forall a, e_host_base c + zs <= a < e_host_base c + zs + (ze - zs) ->
    host_backing w a = slab_source (e_shm_fd c) (a - e_host_base c)) as Ha.
  { intros a Ha. specialize (Hsl (a - e_host_base c) ltac:(lia)). unfold slab_backed in Hsl.
    by replace (e_host_base c + (a - e_host_base c)) with a in Hsl by lia. }
  split; [split_and!; [done..|]|split].
  - apply zero_files. intros a Hin. eexists. by apply Ha.
  - intros x Hx. apply (zero_in (shm:=e_shm_fd c)). lia.
  - intros x Hx Hslx. apply (zero_out (shm:=e_shm_fd c)); [lia|]. intros b Hin. rewrite (Ha b Hin). unfold slab_backed in Hslx. rewrite Hslx.
    destruct (slab_source_inj (b - e_host_base c) x) as [?|[?|?]]; [by left|by right|lia].
Qed.

Lemma zero_loop_spec off e l : 0 <= off < e -> e < two64 -> forall lo w, chain lo l -> (forall x, off <= x < e -> slab_ok w x) ->
  let w' := zero_loop c w off e l in
  same_world w w' /\
  (forall x r, off <= x < e -> r ∈ l -> in_region x r = true -> r_prot r <> 0 -> host_byte w' (e_host_base c + x) = 0) /\
  (forall x, off <= x < e -> host_byte w (e_host_base c + x) = 0 -> host_byte w' (e_host_base c + x) = 0) /\
  (forall x, ~ off <= x < e -> slab_ok w x -> host_byte w' (e_host_base c + x) = host_byte w (e_host_base c + x)).
Proof.
  intros Hoff He. induction l as [|r l IH]; intros lo w Hc Hsl; cbn [zero_loop].
  { split; [by split_and!|]. split; [by intros x r _ ?%elem_of_nil|]. done. }
  cbn [chain] in Hc. destruct Hc as (Hlo & Hne & Hc).
  destruct (Z.leb_spec e (r_start r)) as [Hbr|Hbr].
  { split; [by split_and!|]. split; [|done]. intros x q Hx Hq Hin. unfold in_region in Hin. unbool.
    apply elem_of_cons in Hq as [->|Hq]; [lia|]. pose proof (chain_bounds _ _ _ Hc Hq). lia. }
  destruct (_ || _) eqn:Eskip.
  { destruct (IH (r_end r) w Hc Hsl) as (S1 & Z1 & K1 & O1). split; [done|]. split; [|done].
    intros x q Hx Hq Hin Hp. apply elem_of_cons in Hq as [->|Hq]; [|by eapply Z1]. exfalso.
    apply orb_true_iff in Eskip as [E|E]; unfold in_region in Hin; unbool; [lia|unfold LINUX_PROT_NONE in *; lia]. }
  apply orb_false_iff in Eskip as [E1 E2]. unbool.
  set (zs := if off <? r_start r then r_start r else off). set (ze := if r_end r <? e then r_end r else e).
  assert (off <= zs /\ zs < ze /\ ze <= e /\ forall x, zs <= x < ze <-> off <= x < e /\ r_start r <= x < r_end r) as (Z1 & Z2 & Z3 & Hzx).
  { subst zs ze. destruct (Z.ltb_spec off (r_start r)), (Z.ltb_spec (r_end r) e); split_and!; lia. }
  clearbody zs ze. assert ((ze - zs)%u64 = ze - zs) as -> by (by u64).
  destruct (zero_one w zs ze ltac:(lia)) as (S1 & B1 & O1); [intros x Hx; apply Hsl; lia|].
  set (w1 := host_zero w (e_host_base c + zs) (ze - zs)) in *.
  destruct (IH (r_end r) w1 Hc) as (S2 & B2 & K2 & O2).
  { intros x Hx. unfold slab_backed. rewrite (proj1 S1). by apply Hsl. }
  split; [by eapply same_world_trans|]. split; [|split].
  - intros x q Hx Hq Hin Hp. apply elem_of_cons in Hq as [->|Hq]; [|by eapply B2]. apply K2; [done|]. apply B1.
    unfold in_region in Hin. unbool. apply Hzx. lia.
  - intros x Hx Hb. apply K2; [done|]. destruct (decide (zs <= x < ze)) as [Hin|Hin]; [by apply B1|].
    rewrite O1; [done|done|by apply Hsl].
  - intros x Hx Hs. rewrite O2; [|done|unfold slab_backed; by rewrite (proj1 S1)]. apply O1; [|done]. rewrite Hzx. tauto.
Qed.
End Zero.

(** ** Removing the regions of a quiet range *)

Section Remove.
Context {H : Type} `{HE : HostEnv H, HP : !HostPageOk H, HF : !HostFdLaws H, HVm : !HostVm H, HSl : !HostSlab H,
  HMs : !HostMemset H, HFr : !HostFrame H}.
Variable c : mm_env.
Context `{HMl : !HostMemsetLaws H (e_shm_fd c)}.

(** Only descriptors were closed. *)
Definition closed_some (w w' : H) : Prop :=
  host_backing w' = host_backing w /\ vm_stage2 w' = vm_stage2 w /\ host_files w' = host_files w /\ host_byte w' = host_byte w.

Lemma closed_refl w : closed_some w w.
Proof. by split_and!. Qed.

Lemma closed_close w w' fd : closed_some w w' -> closed_some w (close_owned w' fd).
Proof.
  intros (A & B & C & D). unfold close_owned. case_if; [|by split_and!].
  destruct (close_maps w' fd) as [A' B']. pose proof (files_close (shm:=e_shm_fd c) w' fd).
  pose proof (bytes_close (shm:=e_shm_fd c) w' fd). split_and!; congruence.
Qed.

Lemma remove_loop_overlays full s e l : s < e -> forall lo stale fd h0 h out stale' fd' h',
  remove_loop full s e l stale fd h = (out, stale', fd', h') -> chain lo l -> Forall (fun r => s < r_end r) l ->
  Forall (clipped (H:=H)) l -> closed_some h0 h ->
  Forall (clipped (H:=H)) out /\ (forall r, r ∈ l -> e <= r_start r -> r ∈ out) /\ closed_some h0 h'.
Proof.
  intros Hse. induction l as [|r l IH]; intros lo stale fd h0 h out stale' fd' h'; cbn [remove_loop].
  { intros [= <- _ _ <-] _ _ _ ?. by split_and!. }
  cbn [chain]. rewrite !Forall_cons_iff. intros E (Hlo & Hne & Hc) [Hr Hrs] [Hcl Hcls] Hh. revert E.
  destruct (Z.leb_spec e (r_start r)) as [Hbr|Hbr].
  { intros [= <- _ _ <-]. split; [by rewrite Forall_cons_iff|]. by split. }
  assert (forall out' : list guest_region_t, (forall q, q ∈ l -> e <= r_start q -> q ∈ out') -> forall q, q ∈ r :: l -> e <= r_start q -> q ∈ out') as Hin.
  { intros out' Ho q [->|Hq]%elem_of_cons Hs; [lia|auto]. }
  destruct (_ && _ && negb full) eqn:Esp.
  { unbool. intros E. assert (exists fd1 fd2, out = guest_region_clip_overlay (H:=H) (set_end s r) ::
      guest_region_clip_overlay (H:=H) (set_backing_fd fd1 (advance_start e r)) :: l /\ fd2 = fd' /\ h' = h) as (fd1 & fd2 & -> & _ & ->).
    { destruct (0 <=? r_backing_fd r); injection E as <- _ <- <-; [by exists fd, (-1)|].
      exists (r_backing_fd r), fd. split; [|done]. do 3 f_equal. }
    rewrite <- !clip_eq, !Forall_cons_iff. split; [split_and!; [apply clip_clipped; cbn; lia..|done]|]. split; [|done].
    apply Hin. intros q Hq _. set_solver. }
  destruct (negb _ && negb _) eqn:Edrop.
  { intros E. destruct (IH _ _ _ h0 _ _ _ _ _ E Hc Hrs Hcls (closed_close _ _ _ Hh)) as (A & B & C). split_and!; [done| |done].
    by apply Hin. }
  destruct (remove_loop full s e l _ _ _) as [[[o st] f] hh] eqn:E1.
  destruct (IH _ _ _ h0 _ _ _ _ _ E1 Hc Hrs Hcls Hh) as (A & B & C). intros [= <- _ _ <-].
  split; [|split; [|done]].
  - rewrite Forall_cons_iff. split; [|done]. rewrite <- clip_eq. apply clip_clipped.
    destruct (Z.ltb_spec (r_start r) s); cbn; [lia|].
    cbn [negb] in Edrop. destruct (e <? r_end r) eqn:Ee; [apply Z.ltb_lt in Ee; lia|done].
  - apply Hin. intros q Hq Hs. apply elem_of_cons. right. by apply B.
Qed.

#[local] Notation ok := (overlays_ok (e_host_base c) (e_shm_fd c)).
#[local] Notation slab_ok := (slab_backed (e_host_base c) (e_shm_fd c)).

Lemma remove_reserved_overlays top g s e fd rc g' : tracker_wf g -> s < e -> ok top g ->
  (forall r x, 0 <= x < top -> r ∈ regions g -> r_start r < e -> s < r_end r -> under r x -> slab_ok (host g) x) ->
  guest_region_remove_reserved g s e fd = (rc, g') -> ok top g' /\ closed_some (host g) (host g').
Proof.
  intros [[Hc Hok] Hn] Hse [Hcl Ht] Hq. unfold guest_region_remove_reserved. rewrite (proj2 (Z.leb_gt _ _)) by done.
  destruct (first_end_above_split 0 (regions g) s Hc) as (Hi & Hb & Ha).
  set (i := guest_region_first_end_above _ _) in *. clearbody i.
  destruct (remove_loop _ _ _ _ _ _ _) as [[[out st] f] h] eqn:E.
  rewrite <- (take_drop i (regions g)) in Hc, Hcl, Ht, Hq. apply chain_app in Hc as [Hc1 Hc2]. apply Forall_app in Hcl as [Hcl1 Hcl2].
  destruct (remove_loop_overlays _ _ _ _ Hse _ _ _ (host g) _ _ _ _ _ E Hc2 Ha Hcl2 (closed_refl _)) as (A & B & C).
  apply (closed_close _ _ f) in C. intros [= _ <-]. cbn [regions host]. split; [|done]. split.
  - cbn [regions]. apply Forall_app. by split.
  - cbn [regions host]. intros x Hx. destruct (Ht x Hx) as [Hs|(r & Hr & Hu)].
    + left. unfold slab_backed in *. by rewrite (proj1 C).
    + destruct (decide (r_start r < e /\ s < r_end r)) as [[H1 H2]|Hno].
      { left. unfold slab_backed. rewrite (proj1 C). exact (Hq r x Hx Hr H1 H2 Hu). }
      right. exists r. split; [|done]. apply elem_of_app in Hr as [Hr|Hr]; apply elem_of_app; [by left|right].
      apply B; [done|]. rewrite list.Forall_forall in Ha. specialize (Ha r Hr). lia.
Qed.
End Remove.

Lemma remove_loop_stale {H} `{HostEnv H} full s e l : forall fd (h : H) out stale' fd' h',
  remove_loop full s e l true fd h = (out, stale', fd', h') -> stale' = true.
Proof.
  induction l as [|r l IH]; intros fd h out stale' fd' h'; cbn [remove_loop orb]; [by intros [= _ <- _ _]|].
  destruct (e <=? r_start r); [by intros [= _ <- _ _]|]. destruct (_ && _ && negb full).
  { destruct (0 <=? r_backing_fd r); by intros [= _ <- _ _]. }
  destruct (negb _ && negb _); [apply IH|]. destruct (remove_loop full s e l true fd h) as [[[o st] f] hh] eqn:E.
  intros [= _ <- _ _]. by apply IH in E.
Qed.

Lemma remove_reserved_stale {H} `{HostEnv H} (g : tracker H) s e fd rc g' : guest_region_remove_reserved g s e fd = (rc, g') ->
  regions_tracker_stale g = true -> regions_tracker_stale g' = true.
Proof.
  unfold guest_region_remove_reserved. destruct (e <=? s); [by intros [= _ <-]|]. intros E Hst. rewrite Hst in E.
  destruct (remove_loop _ _ _ _ _ _ _) as [[[o st] f] hh] eqn:E1. injection E as _ <-. by apply remove_loop_stale in E1.
Qed.

(** ** The whole operation *)

(** The descriptor an operation holds is like a foreign one while it runs. *)
Lemma owns_foreign {H} `{HostEnv H, !HostFdLaws H} (h : H) F cnt fd :
  owns h F (fun x => (cnt x + one_fd fd x)%nat) -> owns h (fun x => F x \/ (x = fd /\ ~ F x)) cnt.
Proof.
  intros Ho x Hx. destruct (Ho x Hx) as (O1 & O2 & O3). unfold one_fd in *.
  destruct (Z.eqb_spec fd x) as [->|Hne].
  - split_and!; [|lia|intros [HF|_]; [apply O3 in HF|]; lia]. rewrite O1. split.
    + intros [HF|Hc]; [by left; left|]. left. right. split; [done|]. intros HF%O3. lia.
    + intros [[HF|_]|Hc]; [by left|right; lia|lia].
  - split_and!; [|lia|intros [HF|[-> _]]; [apply O3 in HF; lia|done]]. rewrite O1. split.
    + intros [HF|Hc]; [by left; left|right; lia].
    + intros [[HF|[-> _]]|Hc]; [by left|done|right; lia].
Qed.

Lemma foreign_owns {H} `{HostEnv H, !HostFdLaws H} (h : H) (F : Z -> Prop) cnt fd : (0 <= fd -> ~ F fd) ->
  owns h (fun x => F x \/ (x = fd /\ ~ F x)) cnt -> owns h F (fun x => (cnt x + one_fd fd x)%nat).
Proof.
  intros Hfd Ho x Hx. destruct (Ho x Hx) as (O1 & O2 & O3). unfold one_fd.
  destruct (Z.eqb_spec fd x) as [->|Hne].
  - specialize (Hfd Hx). assert (cnt x = 0%nat) as E by (apply O3; right; by split).
    rewrite E in *. split_and!; [|lia|done]. rewrite O1. split; [by right|]. intros _. left. right. by split.
  - split_and!; [|lia|intros HF; rewrite O3; [lia|by left]]. rewrite O1. split.
    + intros [[HF|[-> _]]|Hc]; [by left|done|right; lia].
    + intros [HF|Hc]; [by left; left|right; lia].
Qed.

Section Munmap.
Context {H : Type} `{HE : HostEnv H, HP : !HostPageOk H, HF : !HostFdLaws H, HVm : !HostVm H, HVl : !HostVmLaws H,
  HSl : !HostSlab H, HSll : !HostSlabLaws H, HMs : !HostMemset H, HFr : !HostFrame H}.
Variable c : mm_env.
Context `{HMl : !HostMemsetLaws H (e_shm_fd c)}.
Context (others : list (Z * Z)).

#[local] Notation L := (e_layout c).
#[local] Notation top := (guest_size L).
#[local] Notation hps := (host_page_size_cached (H:=H)).

Context (Hothers : Forall (fun r => top <= fst r) others) (Hpage : ALIGN_UP top hps = top).

(** The invariant of the state: sorted disjoint regions, well-formed tables,
    segments tiling the slab, and every file overlay on record. *)
Record mm_ok (m : mm H) : Prop := {
  mo_trk : tracker_wf (m_trk m);
  mo_pt : pt_wf L (m_pt m);
  mo_segs : segments_ok top (m_segs m);
  mo_overlays : overlays_ok (e_host_base c) (e_shm_fd c) top (m_trk m)
}.

(** What a call keeps whatever it returns: the invariant, the ownership of the
    descriptors, the contents of files, the break, and (unless the hypervisor
    refuses sound requests) the stage-2 account. *)
Record mm_kept (m m' : mm H) : Prop := {
  mk_ok : mm_ok m';
  mk_fds F : fd_inv F (m_trk m) -> fd_inv F (m_trk m');
  mk_files : host_files (host (m_trk m')) = host_files (host (m_trk m));
  mk_brk : m_brk m' = m_brk m;
  mk_held : hv_reliable (W := H) -> held others (host (m_trk m)) (m_segs m) -> held others (host (m_trk m')) (m_segs m')
}.

Definition page_lo (off : Z) : Z := ALIGN_DOWN off PAGE_SIZE.
Definition page_hi (e : Z) : Z := PAGE_ALIGN_UP e.

(** The range [off, e) is gone: from the regions, from the tables (rounded out
    to pages) with the stale translations queued for invalidation, and its
    accessible bytes are zero; elsewhere nothing changed, unless the table
    could not record the cut, which the stale mark says. *)
Record unmapped (m : mm H) (off e : Z) (m' : mm H) : Prop := {
  un_gone a : off <= a < e -> view (regions (m_trk m')) a = None;
  un_sub a x : view (regions (m_trk m')) a = Some x -> is_Some (view (regions (m_trk m)) a);
  un_view : regions_tracker_stale (m_trk m') = false ->
    forall a, ~ off <= a < e -> plain_view (regions (m_trk m')) a = plain_view (regions (m_trk m)) a;
  un_map va : 0 <= va ->
    vmap (m_pt m') va = if decide (page_lo off <= va < page_hi e) then None else vmap (m_pt m) va;
  un_tlb va : 0 <= va -> vmap (m_pt m') va <> vmap (m_pt m) va -> covers (cpu_tlbi_req (m_pt m')) va;
  un_keep : retires (m_pt m) (m_pt m');
  un_stale : regions_tracker_stale (m_trk m) = true -> regions_tracker_stale (m_trk m') = true;
  un_gen : pt_gen (m_pt m') = (pt_gen (m_pt m) + 1)%u64;
  un_zero x y : off <= x < e -> view (regions (m_trk m)) x = Some y -> a_prot y <> LINUX_PROT_NONE ->
    host_byte (host (m_trk m')) (e_host_base c + x) = 0;
  un_hint : m_alloc m' = lower_hints (m_alloc m) off
}.

Lemma top_small m : mm_ok m -> top <= 2 ^ 48.
Proof. intros Hm. pose proof (lo_size _ (wf_layout _ _ (mo_pt _ Hm))). lia. Qed.

(** The reservation. *)
Lemma prepare_ok m off e rc fd g : mm_ok m -> guest_region_remove_prepare (m_trk m) off e = (rc, fd, g) ->
  tracker_wf g /\ overlays_ok (e_host_base c) (e_shm_fd c) top g /\ regions g = regions (m_trk m) /\
  regions_tracker_stale g = regions_tracker_stale (m_trk m) /\ host_files (host g) = host_files (host (m_trk m)) /\
  (held others (host (m_trk m)) (m_segs m) -> held others (host g) (m_segs m)) /\ rc <= 0.
Proof using HFr HMl.
  intros Hm E. destruct (prepare_same _ _ _ _ _ _ E) as (Er & Es & _ & Hrc).
  assert (host g = host (m_trk m) \/ exists x, host g = snd (host_dup (host (m_trk m)) x)) as Hh.
  { unfold guest_region_remove_prepare in E. repeat case_match; simplify_eq; auto; right; eexists;
      match goal with Hd : host_dup _ _ = _ |- _ => by rewrite Hd end. }
  assert (host_backing (host g) = host_backing (host (m_trk m)) /\ vm_stage2 (host g) = vm_stage2 (host (m_trk m)) /\
    host_files (host g) = host_files (host (m_trk m))) as (Hb & Hs & Hf).
  { destruct Hh as [->|[x ->]]; [done|]. destruct (dup_maps (host (m_trk m)) x). split_and!; [done..|].
    apply (files_dup (shm:=e_shm_fd c)). }
  destruct Hm as [W _ _ [Ho1 Ho2]]. unfold tracker_wf, nregions, overlays_ok in *. rewrite Er.
  split; [done|]. split; [split; [done|]|].
  - intros x Hx. unfold slab_backed. rewrite Hb. by apply Ho2.
  - split; [done|]. split; [done|]. split; [done|]. split; [unfold held; by rewrite Hs|lia].
Qed.

Lemma prepare_failed m off e rc fd g : mm_ok m -> guest_region_remove_prepare (m_trk m) off e = (rc, fd, g) -> rc < 0 ->
  mm_kept m (set_trk g m) /\ regions g = regions (m_trk m) /\ regions_tracker_stale g = regions_tracker_stale (m_trk m).
Proof using HFr HMl.
  intros Hm E Hrc. destruct (prepare_ok _ _ _ _ _ _ Hm E) as (W0 & O0 & Er & Es & Hf & Hh & _). split; [|by split].
  split; cbn [set_trk m_trk m_brk m_segs]; [by split; try apply Hm| |done|done|auto].
  intros F HFd. destruct (prepare_owns _ _ _ _ _ _ F HFd E) as [Ho Hneg]. eapply owns_negative; [by apply Hneg|done].
Qed.

#[local] Instance files_pre : PreOrder (fun w w' : H => host_files w' = host_files w).
Proof. split; [done|]. intros x y z ? ?. congruence. Qed.

Lemma cleanup_files l g s e rc l' g' :
  cleanup_overlays_in_range (e_host_base c) (e_shm_fd c) l g s e = Some (rc, l', g') ->
  host_files (host g') = host_files (host g).
Proof using HMl.
  apply (cleanup_frame (fun w w' : H => host_files w' = host_files w)); intros; [apply (files_dup (shm:=e_shm_fd c))|apply (files_close (shm:=e_shm_fd c))].
Qed.
(** The state between the cleanup and the page tables. *)
Record cleaned (m : mm H) (off e fd rc : Z) (segs : list hvf_segment_t) (g : tracker H) : Prop := {
  cl_trk : tracker_wf g;
  cl_segs : segments_ok top segs;
  cl_overlays : overlays_ok (e_host_base c) (e_shm_fd c) top g;
  cl_view a : plain_view (regions g) a = plain_view (regions (m_trk m)) a;
  cl_stale : regions_tracker_stale g = regions_tracker_stale (m_trk m);
  cl_files : host_files (host g) = host_files (host (m_trk m));
  cl_held : hv_reliable (W := H) -> held others (host (m_trk m)) (m_segs m) -> held others (host g) segs;
  cl_fds F : fd_inv F (m_trk m) -> owns (host g) F (fun x => (fd_count (regions g) x + one_fd fd x)%nat);
  cl_rc : rc <= 0;
  cl_slab : rc = 0 -> forall x, off <= x < e -> slab_backed (e_host_base c) (e_shm_fd c) (host g) x;
  cl_quiet : rc = 0 -> forall r x, r ∈ regions g -> r_start r < e -> off < r_end r -> under r x ->
    slab_backed (e_host_base c) (e_shm_fd c) (host g) x
}.

Lemma cleanup_cleaned m off e fd g0 : mm_ok m -> 0 <= off < e -> e <= top ->
  guest_region_remove_prepare (m_trk m) off e = (0, fd, g0) ->
  exists rc segs g, cleanup_overlays_in_range (e_host_base c) (e_shm_fd c) (m_segs m) g0 off e = Some (rc, segs, g) /\
    cleaned m off e fd rc segs g.
Proof using Hothers Hpage HP HF HVl HSll HFr HMl.
  intros Hm Hoe He E. pose proof (top_small m Hm) as Htop.
  destruct (prepare_ok _ _ _ _ _ _ Hm E) as (W0 & O0 & Er & Es & Hf & Hh & _).
  destruct (cleanup_spec (e_host_base c) (e_shm_fd c) others top Htop Hothers Hpage (m_segs m) g0 off e W0 (mo_segs _ Hm) O0)
    as (rc & segs & g & Ec & D & (W1 & _ & S1 & F1) & Hsl & Hq); [lia..|].
  assert (fits64 off /\ 0 <= e <= VA_TOP) as [Hfo Hve] by (unfold fits64, VA_TOP, two64; lia).
  pose proof (page_down_le (H:=H) off Hfo) as Hlo. pose proof (page_up_ge (H:=H) e Hve) as Hhi.
  exists rc, segs, g. split; [done|]. split.
  - done.
  - apply D.
  - apply D.
  - intros a. by rewrite (dr_view _ _ _ _ _ _ _ _ _ _ _ D), Er.
  - congruence.
  - by rewrite (cleanup_files _ _ _ _ _ _ _ Ec).
  - intros Hr Hw. apply D; [by right|auto].
  - intros F HFd. destruct (prepare_owns _ _ _ _ _ _ F HFd E) as [Ho _].
    apply (foreign_owns _ F); [|exact (F1 _ (owns_foreign _ _ _ _ Ho))].
    intros Hx HFx. destruct (Ho fd Hx) as (_ & _ & O3). specialize (O3 HFx). unfold one_fd in O3. rewrite Z.eqb_refl in O3. lia.
  - apply D.
  - intros -> x Hx. apply Hsl; [done|lia].
  - intros -> r x Hr H1 H2 Hu. apply Hsl; [done|]. apply (Hq eq_refl r x Hr); [lia|lia|done].
Qed.

(** Leaving early with the reserved descriptor closed. *)
Lemma cleaned_kept m off e fd rc segs g s : cleaned m off e fd rc segs g -> pt_wf L s ->
  mm_kept m (set_trk (with_host (close_owned (host g) fd) g) (set_pt s (set_segs segs (set_trk g m)))).
Proof using HFr HMl.
  intros C Hs. destruct (closed_close c (host g) (host g) fd (closed_refl c _)) as (Hb & Hm & Hf & _).
  split; cbn [set_trk set_pt set_segs m_trk m_pt m_segs m_brk].
  - split; cbn [set_trk set_pt set_segs m_trk m_pt m_segs m_brk]; [apply C|done|apply C|].
    destruct (cl_overlays _ _ _ _ _ _ _ C) as [A B]. split; [exact A|].
    intros x Hx. unfold slab_backed. cbn [with_host host]. rewrite Hb. by apply B.
  - intros F HFd. unfold fd_inv. cbn [with_host host regions].
    eapply owns_close; [|exact (cl_fds _ _ _ _ _ _ _ C F HFd)]. intros x Hx. cbn. lia.
  - cbn [with_host host]. rewrite Hf. apply C.
  - done.
  - intros Hr Hw. unfold held. cbn [with_host host]. rewrite Hm. by apply C.
Qed.

(** The region behind an address of the range, among those the loop visits. *)
(** A reservation that is given back. *)
Lemma reserved_kept m off e fd g s : mm_ok m -> guest_region_remove_prepare (m_trk m) off e = (0, fd, g) -> pt_wf L s ->
  mm_kept m (set_trk (with_host (close_owned (host g) fd) g) (set_pt s m)).
Proof using HFr HMl.
  intros Hm E Hs. destruct (prepare_ok _ _ _ _ _ _ Hm E) as (W0 & O0 & Er & Es & Hf & Hh & _).
  apply (cleaned_kept m off e fd (-1) (m_segs m) g s); [|done].
  split; [done|apply Hm|done|by rewrite Er|done|done|auto| |done|done|done].
  intros F HFd. by apply (prepare_owns _ _ _ _ _ _ F HFd E).
Qed.

(** Dropping [s, e), under which no file is attached, from the tracker. *)
Lemma trim_kept m s e fd g rc g' pt : mm_ok m -> 0 <= s < e -> pt_wf L pt ->
  (forall r x, 0 <= x < top -> r ∈ regions (m_trk m) -> r_start r < e -> s < r_end r -> ~ under r x) ->
  guest_region_remove_prepare (m_trk m) s e = (0, fd, g) -> guest_region_remove_reserved g s e fd = (rc, g') ->
  mm_kept m (set_trk g' (set_pt pt m)) /\ removes (m_trk m) g' s e.
Proof using HP HFr HMl.
  intros Hm Hse Hpt Hq E0 E1. destruct (prepare_ok _ _ _ _ _ _ Hm E0) as (W0 & O0 & Er & Es & Hf & Hh & _).
  destruct (remove_reserved_overlays c top g s e fd rc g' W0 ltac:(lia) O0) as [O1 (Cb & Cs & Cf & _)]; [|exact E1|].
  { intros r x Hx Hr H1 H2 Hu. rewrite Er in Hr. by destruct (Hq r x Hx Hr H1 H2). }
  destruct (remove_reserved_spec g s e fd rc g' W0 ltac:(lia) E1) as (_ & R).
  split; [split; [split; [apply R|exact Hpt|apply Hm|exact O1]| | |done|]|]; cbn [set_trk set_pt m_trk m_segs].
  - intros F HFd. destruct (prepare_owns _ _ _ _ _ _ F HFd E0) as [Ho _]. exact (remove_reserved_owns _ _ _ _ _ _ _ E1 Ho).
  - congruence.
  - intros _ Hw. unfold held. rewrite Cs. by apply Hh.
  - unfold removes, nregions in *. by rewrite Er, Es in R.
Qed.

Lemma accessible_region l l' off x y : chain 0 l -> plain_view l' x = plain_view l x -> view l' x = Some y -> off <= x ->
  exists r, r ∈ drop (guest_region_first_end_above l off) l /\ in_region x r = true /\ r_prot r = a_prot y.
Proof.
  intros Hch Hpv Hv Hx. unfold plain_view in Hpv. rewrite Hv in Hpv.
  destruct (view l x) as [y'|] eqn:Ey; [|done]. unfold view in Ey.
  destruct (region_at l x) as [r|] eqn:Era; [|done]. injection Ey as <-.
  apply region_at_Some in Era as [Hr Hin]. exists r. split_and!; [|done|].
  - destruct (first_end_above_split 0 l off Hch) as (_ & Hlo & _).
    rewrite <- (take_drop (guest_region_first_end_above l off) l) in Hr.
    apply elem_of_app in Hr as [Hr|Hr]; [|done]. rewrite list.Forall_forall in Hlo. specialize (Hlo r Hr).
    unfold in_region in Hin. unbool. lia.
  - cbn [option_map] in Hpv. injection Hpv as _ _ Ep1 _. cbn in Ep1. done.
Qed.

(** The last phase: zero the memory and remove the regions. *)
Lemma unmap_last m off e fd segs g s rc g2 : mm_ok m -> 0 <= off < e -> e <= top -> cleaned m off e fd 0 segs g ->
  guest_invalidate_ptes L (m_pt m) off e = Some (0, s) ->
  let w := zero_loop c (host g) off e (drop (guest_region_first_end_above (regions g) off) (regions g)) in
  guest_region_remove_reserved (with_host w g) off e fd = (rc, g2) ->
  let m' := set_alloc (lower_hints (m_alloc m) off) (set_trk g2 (set_pt s (set_segs segs (set_trk g m)))) in
  mm_kept m m' /\ unmapped m off e m'.
Proof using HP HFr HMl.
  intros Hm Hoe He C Ep w Er. pose proof (top_small m Hm) as Htop.
  assert (fits64 off) as Hfo by (unfold fits64, two64; lia).
  destruct (invalidate_spec L (m_pt m) off e (mo_pt _ Hm) Hfo ltac:(lia)) as (rc' & s' & Ep' & R).
  rewrite Ep in Ep'. injection Ep' as <- <-. cbv zeta in R.
  fold (page_lo off) (page_hi e) in R.
  assert (page_lo off <= off /\ e <= page_hi e) as [Hpl Hph].
  { unfold page_lo, page_hi. rewrite align_down_page, align_up_page by (done || (unfold two64; lia)). unfold PAGE_SIZE, GUEST_PAGE_SIZE. clear. zdm. }
  rewrite (proj2 (Z.leb_gt _ _)) in R by lia. destruct R as (b & Hb & Ws & _ & _ & Hret & Hva & [(_ & -> & Hgen)|(? & _)]); [|done].
  pose proof (cl_trk _ _ _ _ _ _ _ C) as W1. pose proof (proj1 (proj1 W1)) as Hch.
  destruct (chain_tail (regions g) (guest_region_first_end_above (regions g) off) Hch) as [lo Hcd].
  destruct (zero_loop_spec c off e _ Hoe ltac:(unfold two64; lia) lo (host g) Hcd (cl_slab _ _ _ _ _ _ _ C eq_refl)) as ((Zb & Zs & Zo & Zf) & Zin & _).
  fold w in Zb, Zs, Zo, Zf, Zin.
  assert (overlays_ok (e_host_base c) (e_shm_fd c) top (with_host w g)) as O2.
  { destruct (cl_overlays _ _ _ _ _ _ _ C) as [A B]. split; [exact A|]. intros x Hx. unfold slab_backed. cbn [with_host host].
    rewrite Zb. by apply B. }
  destruct (remove_reserved_overlays c top (with_host w g) off e fd rc g2 W1 ltac:(lia) O2) as [O3 (Cb & Cs & Cf & Cy)]; [|exact Er|].
  { intros r x _ Hr H1 H2 Hu. unfold slab_backed. cbn [with_host host]. rewrite Zb. exact (cl_quiet _ _ _ _ _ _ _ C eq_refl r x Hr H1 H2 Hu). }
  destruct (remove_reserved_spec (with_host w g) off e fd rc g2 W1 ltac:(lia) Er) as (_ & W3 & R1 & R2 & R3 & _).
  cbn [with_host host regions] in *.
  split.
  - split; [split; [exact W3|exact Ws|apply C|exact O3]| | | |]; cbn [set_trk set_pt set_segs set_alloc m_trk m_segs m_brk].
    + intros F HFd. eapply remove_reserved_owns; [exact Er|]. cbn [with_host host regions].
      intros x Hx. rewrite (Zo x). by apply (cl_fds _ _ _ _ _ _ _ C F HFd).
    + rewrite Cf, Zf. apply C.
    + done.
    + intros Hr Hw. unfold held. rewrite Cs, Zs. by apply C.
  - split; cbn [set_trk set_pt set_segs set_alloc m_trk m_pt m_segs m_brk m_alloc].
    + done.
    + intros a x Hv%R2. pose proof (cl_view _ _ _ _ _ _ _ C a) as Hp. unfold plain_view in Hp. rewrite Hv in Hp.
      destruct (view (regions (m_trk m)) a); [by eexists|done].
    + intros Hst a Ha. rewrite <- (cl_view _ _ _ _ _ _ _ C a). unfold plain_view. by rewrite R3.
    + intros va Hv. specialize (Hva va Hv). destruct (decide _); [by apply Hva|]. by destruct Hva as [-> _].
    + intros va Hv Hne. specialize (Hva va Hv). destruct (decide _); [by apply Hva|]. by destruct Hva as [Hk _].
    + done.
    + intros Hst. apply (remove_reserved_stale _ _ _ _ _ _ Er). cbn [with_host regions_tracker_stale]. by rewrite (cl_stale _ _ _ _ _ _ _ C).
    + done.
    + intros x y Hx Hv Hp. rewrite Cy. destruct (accessible_region _ _ _ x y Hch (eq_sym (cl_view _ _ _ _ _ _ _ C x)) Hv (proj1 Hx)) as (r & Hr & Hin & Hrp).
      apply (Zin x r Hx Hr Hin). by rewrite Hrp.
    + done.
Qed.
Lemma munmap_spec m off e : mm_ok m -> 0 <= off < e -> e <= top ->
  exists rc m', munmap_guest_range c m off e = Some (rc, m') /\ mm_kept m m' /\ rc <= 0 /\
    (rc = 0 -> guest_range_hits_infra c off e = false /\ unmapped m off e m') /\
    (rc <> 0 -> regions_tracker_stale (m_trk m') = regions_tracker_stale (m_trk m) /\
       forall a, plain_view (regions (m_trk m')) a = plain_view (regions (m_trk m)) a /\
       (0 <= a -> ~ page_lo off <= a < page_hi e -> vmap (m_pt m') a = vmap (m_pt m) a)).
Proof using Hothers Hpage HP HF HVl HSll HFr HMl.
  intros Hm Hoe He. unfold munmap_guest_range. destruct (guest_range_hits_infra c off e) eqn:Ei.
  { eexists _, _. split; [done|]. split; [by split|]. split; [done|]. by split. }
  destruct (guest_region_remove_prepare (m_trk m) off e) as [[rc0 fd] g0] eqn:E0.
  destruct (prepare_ok _ _ _ _ _ _ Hm E0) as (_ & _ & _ & _ & _ & _ & Hrc0).
  destruct (Z.ltb_spec rc0 0) as [Hlt|].
  { destruct (prepare_failed _ _ _ _ _ _ Hm E0 Hlt) as (K & Er & Es). eexists _, _. split; [done|]. split; [done|].
    split; [done|split; [done|intros _; split; [done|intros a; cbn; by rewrite Er]]]. }
  assert (rc0 = 0) as -> by lia.
  destruct (cleanup_cleaned m off e fd g0 Hm Hoe He E0) as (rc & segs & g & -> & C). run. cbv zeta.
  pose proof (cl_rc _ _ _ _ _ _ _ C). destruct (Z.ltb_spec rc 0).
  { eexists _, _. split; [done|]. split; [apply (cleaned_kept m off e fd rc segs g (m_pt m) C), Hm|]. split; [done|]. split; [lia|].
    intros _. split; [apply C|]. intros a. split; [apply C|done]. }
  assert (rc = 0) as -> by lia. cbn [set_segs set_trk m_pt].
  pose proof (top_small m Hm) as Htop. assert (fits64 off) as Hfo by (unfold fits64, two64; lia).
  destruct (invalidate_spec L (m_pt m) off e (mo_pt _ Hm) Hfo ltac:(lia)) as (rcp & s & Ep & R). rewrite Ep. run.
  cbv zeta in R. fold (page_lo off) (page_hi e) in R.
  destruct (Z.ltb_spec rcp 0) as [Hn|Hn].
  { eexists _, _. split; [done|]. destruct (page_hi e <=? page_lo off); [lia|]. destruct R as (b & Hb & Ws & _ & _ & _ & Hva & _).
    split; [exact (cleaned_kept m off e fd 0 segs g s C Ws)|]. split; [done|]. split; [done|].
    intros _. split; [apply C|]. intros a. split; [apply C|]. intros Ha Hout. specialize (Hva a Ha). rewrite decide_False in Hva by lia. by destruct Hva. }
  assert (rcp = 0) as ->.
  { destruct (page_hi e <=? page_lo off); [by destruct R|]. destruct R as (b & _ & _ & _ & _ & _ & _ & [(-> & _)|(-> & _)]); [done|lia]. }
  destruct (guest_region_remove_reserved _ off e fd) as [rcr g2] eqn:E2.
  destruct (unmap_last m off e fd segs g s rcr g2 Hm Hoe He C Ep E2) as [K U].
  eexists _, _. split; [done|]. split; [exact K|]. split; [done|]. by split.
Qed.
End Munmap.
