(* ===== verification/MiniHost.v ===== *)
(** * A small concrete host

    One world with a descriptor table, a hypervisor, fixed mappings and memory,
    that satisfies every law the memory syscalls are proved against.  The slab is
    anonymous memory, so a backed address belongs to a file. *)

From S2P Require Import Prelude Tlbi Regions RegionFacts HostFds RegionSplit PageTable Gva Backing BackingSpecs Segments SegFacts SegSpecs Overlay OverlayFacts Mm MunmapFacts.

Module MiniHost.
Import SlabVm.

(** Descriptors, memory maps, the zeroed ranges, and those of them that met a
    file mapping. *)
Record host_t := mk_host { h_fds : ListHost.t; h_mem : world; h_zeroed : list (Z * Z); h_dirty : list (Z * Z) }.

Definition with_mem (h : host_t) (w : world) : host_t := mk_host (h_fds h) w (h_zeroed h) (h_dirty h).
Definition with_fds (h : host_t) (f : ListHost.t) : host_t := mk_host f (h_mem h) (h_zeroed h) (h_dirty h).

#[export] Instance host_env : HostEnv host_t := {
  host_dup h fd := let '(n, f) := ListHost.dup (h_fds h) fd in (n, with_fds h f);
  host_close h fd := with_fds h (ListHost.close (h_fds h) fd);
  sysconf_pagesize := 16384
}.

#[export] Instance host_vm : HostVm host_t := {
  host_mmap h n := let '(p, w) := host_mmap (h_mem h) n in (p, with_mem h w);
  host_munmap h p n := with_mem h (host_munmap (h_mem h) p n);
  hv_vm_map h a ipa n f := let '(ok, w) := hv_vm_map (h_mem h) a ipa n f in (ok, with_mem h w);
  hv_vm_unmap h ipa n := let '(ok, w) := hv_vm_unmap (h_mem h) ipa n in (ok, with_mem h w);
  vm_buffers h := vm_buffers (h_mem h);
  vm_stage2 h := vm_stage2 (h_mem h)
}.

#[export] Instance host_slab : HostSlab host_t := {
  mmap_fixed h p n f := let '(rc, w) := mmap_fixed (h_mem h) p n f in (rc, with_mem h w);
  fcntl_getfl h fd := 2;
  thread_quiesce_siblings h := (true, h);
  thread_resume_siblings h := h;
  host_backing h := host_backing (h_mem h)
}.

Definition covered (p n : Z) (spans : list (Z * Z * option (Z * Z))) : bool :=
  existsb (fun i => if decide (backing_at spans (p + Z.of_nat i) = None) then false else true) (seq 0 (Z.to_nat n)).

(** Memory that was never zeroed reads as 7. *)
#[export] Instance host_memset : HostMemset host_t := {
  host_zero h p n := mk_host (h_fds h) (h_mem h) ((p, n) :: h_zeroed h)
    (if covered p n (w_spans (h_mem h)) then (p, n) :: h_dirty h else h_dirty h);
  host_byte h a := if existsb (fun r => (fst r <=? a) && (a <? fst r + snd r)) (h_zeroed h) then 0 else 7
}.

#[export] Instance host_page : HostPageOk host_t.
Proof. exists 14. split; [lia|reflexivity]. Qed.

#[export] Program Instance host_fd_laws : HostFdLaws host_t := { fd_open h x := In x (ListHost.fds (h_fds h)) }.
Next Obligation.
  intros h fd nfd h' E. cbn in E. pose proof (dup_spec (HostFdLaws:=ListHost.laws) (h_fds h) fd) as D. cbn in D.
  destruct (ListHost.dup (h_fds h) fd) as [n f]. injection E as <- <-. exact (D n f eq_refl).
Qed.
Next Obligation. intros h fd x. exact (close_spec (HostFdLaws:=ListHost.laws) (h_fds h) fd x). Qed.

#[export] Instance host_vm_laws : HostVmLaws host_t.
Proof.
  split; cbn.
  - intros w n p w' [= <- <-]. done.
  - done.
  - intros w p n l E. split; [by apply ListVm.rem1_cancel|done].
  - intros w h ipa n f w'. destruct (forallb _ _); [|done]. by intros [= <-].
  - intros w h ipa n f w'. destruct (forallb _ _); [done|]. by intros [= <-].
  - intros w ipa n w' l. destruct (decide _); [|done]. intros [= <-] E. split; [by apply ListVm.rem1_cancel|done].
  - intros w ipa n w'. destruct (decide _); [done|]. by intros [= <-].
Qed.

#[export] Instance host_slab_laws : HostSlabLaws host_t.
Proof.
  split; cbn.
  - by intros w p n f w' [= <-].
  - intros w p n f rc w' [= <- <-] ?. done.
  - by intros w b w' [= <- <-].
  - done.
  - intros w h ipa n f. by destruct (forallb _ _).
  - intros w ipa n. by destruct (decide _).
Qed.

#[export] Instance host_frame : HostFrame host_t.
Proof.
  split.
  - intros h fd. cbn. by destruct (ListHost.dup (h_fds h) fd).
  - done.
  - split; intros; intros x; cbn; repeat case_match; done.
Qed.

(** The laws for an anonymous slab. *)
#[export] Instance host_memset_laws : HostMemsetLaws host_t (-1).
Proof.
  unshelve eapply Build_HostMemsetLaws; [exact (list (Z * Z))|exact h_dirty|..].
  - by intros w p n.
  - intros w p n Ha. cbn. replace (covered p n (w_spans (h_mem w))) with false; [done|]. symmetry.
    apply not_true_iff_false. unfold covered. rewrite existsb_exists. intros (i & Hi%in_seq & Hc).
    destruct (Ha (p + Z.of_nat i) ltac:(lia)) as [x Hx]. cbn in Hx. by rewrite decide_True in Hc by exact Hx.
  - intros w p n a Hin. cbn. rewrite (proj2 (Z.leb_le _ _)), (proj2 (Z.ltb_lt _ _)) by lia. done.
  - intros w p n a Hout _. cbn. destruct (Z.leb_spec p a), (Z.ltb_spec a (p + n)); try done. lia.
  - split; intros; cbn; repeat case_match; done.
  - intros w fd. cbn. by destruct (ListHost.dup (h_fds w) fd).
  - done.
  - done.
Defined.

Lemma host_reliable : hv_reliable (W := host_t).
Proof.
  destruct world_reliable as [A B]. split; cbn.
  - intros w h ipa n f Hn Hf. specialize (A (h_mem w) h ipa n f Hn Hf). cbn in A. by destruct (forallb _ _).
  - intros w ipa n l E. specialize (B (h_mem w) ipa n l E). cbn in B. by destruct (decide _).
Qed.
End MiniHost.
