(* ===== verification/MunmapSpecs.v ===== *)
(** * Unmapping a range: theorems

    What [munmap_guest_range] promises on any host that keeps its laws, and what
    it does to a file mapping that shares a host page with the range. *)

From S2P Require Import Prelude Tlbi Regions RegionFacts HostFds RegionSplit Gap PageTable PtStruct PtView PtOps PtPages PtSpecs Gva Backing BackingSpecs Segments SegFacts SegSpecs Overlay OverlayFacts Mm MunmapFacts MiniHost.

Import MiniHost SlabVm.

(** ** A guest with a shared file mapping

    64 MiB with the runtime reserve in the first 16; at 32 MiB a shared mapping
    of 16 KiB of the file behind descriptor 5, installed as an overlay, and an
    anonymous mapping above it. *)

Definition ex_env : mm_env := mk_env ex_layout 4294967296 (-1) 16777216 67108864 20971520.

Definition ex_shared : guest_region_t :=
  mk_region 33554432 33570816 33554432 3 3 LINUX_MAP_SHARED 8192 5 true false false false true 33554432 33570816 "".
Definition ex_private : guest_region_t :=
  mk_region 33570816 33587200 33570816 4 3 34 0 (-1) false false false false false 0 0 "".

Definition ex_host : host_t :=
  mk_host (ListHost.mk 8 [0; 1; 2; 5])
    (mk_world (ListVm.mk_vm [] [(0, 33554432); (33554432, 2097152); (35651584, 31457280)] 1)
       [(4294967296 + 33554432, 16384, Some (5, 8192))]) [] [].

Definition ex_pt2 : guest_pt :=
  match guest_extend_page_tables ex_layout ex_pt0 33554432 35651584 3 with
  | Some (_, s) => s
  | None => ex_pt0
  end.

Lemma ex_pt2_wf : pt_wf ex_layout ex_pt2.
Proof.
  destruct (extend_spec ex_layout ex_pt0 33554432 35651584 3 ex_pt0_wf) as (rc & s & E & Hwf & _); [done..|].
  unfold ex_pt2. by rewrite E.
Qed.

Definition ex_mm : mm host_t :=
  mk_mm (mk_tracker [ex_shared; ex_private] 5 false ex_host) ex_pt2 (mk_alloc 8589934592 268435456 8589934592 268435456 34359738368)
    [mk_seg 0 33554432; mk_seg 33554432 2097152; mk_seg 35651584 31457280] 20971520.

Lemma ex_mm_ok : mm_ok ex_env ex_mm.
Proof.
  split.
  - split; [|cbn; unfold GUEST_MAX_REGIONS; lia]. split; [cbn; lia|].
    repeat constructor; vm_compute; intuition congruence.
  - exact ex_pt2_wf.
  - split; [cbn; lia|unfold GUEST_MAX_HVF_SEGMENTS; cbn; lia|].
    intros b. unfold bounds. cbn. rewrite !elem_of_cons, elem_of_nil. intuition (subst; done).
  - split.
    + constructor; [|constructor; [|constructor]]; intros x [Hl Hx]; [|discriminate Hl]. cbn in Hx.
      assert (ALIGN_DOWN (r_start ex_shared) (host_page_size_cached (H:=host_t)) = 33554432) as -> by reflexivity.
      assert (ALIGN_UP (r_end ex_shared) (host_page_size_cached (H:=host_t)) = 33570816) as -> by reflexivity. lia.
    + intros x Hx. cbn [ex_mm m_trk regions host]. destruct (decide (33554432 <= x < 33570816)) as [Hin|Hin].
      * right. exists ex_shared. split; [left|]. by split.
      * left. unfold slab_backed. cbn. rewrite (proj2 (andb_false_iff _ _)); [done|].
        rewrite Z.leb_gt, Z.ltb_ge. lia.
Qed.

(** ** Theorems *)

(** C21: unmapping a range of the slab always returns, and whatever it returns the
    state invariant holds: regions sorted and disjoint, page tables well formed,
    stage-2 segments tiling the slab, every file overlay on record; descriptors
    are neither leaked nor closed twice, no host file is written (the zeroing
    never meets a file mapping), and with a hypervisor that refuses nothing sound
    every segment stays mapped.  On success the range does not touch the runtime
    reserve; it is gone from the regions and from the page tables, with the old
    translations covered by the pending TLBI request, its accessible bytes are
    zero and nothing else changed but overlay marks.  On failure no region
    changed and no page outside the range lost its mapping. *)
Theorem munmap_guest_range_correct {H}
    `{HE : HostEnv H, HP : !HostPageOk H, HF : !HostFdLaws H, HVm : !HostVm H, HVl : !HostVmLaws H,
      HSl : !HostSlab H, HSll : !HostSlabLaws H, HMs : !HostMemset H, HFr : !HostFrame H}
    (c : mm_env) `{HMl : !HostMemsetLaws H (e_shm_fd c)} (others : list (Z * Z)) (m : mm H) (off e : Z) :
  Forall (fun r => guest_size (e_layout c) <= fst r) others ->
  ALIGN_UP (guest_size (e_layout c)) (host_page_size_cached (H:=H)) = guest_size (e_layout c) ->
  mm_ok c m -> 0 <= off < e -> e <= guest_size (e_layout c) ->
  exists rc m', munmap_guest_range c m off e = Some (rc, m') /\ mm_kept c others m m' /\ rc <= 0 /\
    (rc = 0 -> guest_range_hits_infra c off e = false /\ unmapped c m off e m') /\
    (rc <> 0 -> regions_tracker_stale (m_trk m') = regions_tracker_stale (m_trk m) /\
       forall a, plain_view (regions (m_trk m')) a = plain_view (regions (m_trk m)) a /\
       (0 <= a -> ~ page_lo off <= a < page_hi e -> vmap (m_pt m') a = vmap (m_pt m) a)).
Proof. intros. by apply munmap_spec. Qed.

(** The anonymous mapping of the example is unmapped and zeroed. *)
Lemma munmap_guest_range_correct_witness : exists m',
  munmap_guest_range ex_env ex_mm 33570816 33574912 = Some (0, m') /\
  vmap (m_pt m') 33570816 = None /\ host_byte (host (m_trk m')) (4294967296 + 33570816) = 0 /\
  view (regions (m_trk m')) 33570816 = None.
Proof.
  destruct (munmap_guest_range_correct ex_env [] ex_mm 33570816 33574912 ltac:(constructor) eq_refl ex_mm_ok)
    as (rc & m' & E & _ & _ & Hok & _); [lia|vm_compute; congruence|].
  assert (rc = 0) as ->.
  { assert (option_map fst (munmap_guest_range ex_env ex_mm 33570816 33574912) = Some 0) as X by (vm_compute; reflexivity).
    rewrite E in X. cbn [option_map fst] in X. congruence. }
  destruct (Hok eq_refl) as [_ U]. exists m'. split; [exact E|]. split; [|split].
  - rewrite (un_map _ _ _ _ _ U) by lia. rewrite decide_True; [reflexivity|]. vm_compute. intuition congruence.
  - refine (un_zero _ _ _ _ _ U 33570816 _ _ eq_refl _); [lia|]. vm_compute. congruence.
  - apply (un_gone _ _ _ _ _ U). lia.
Defined.

(** the overlay cleanup works on whole host pages, so unmapping the first
    4 KiB of a 16 KiB shared mapping on a host with 16 KiB pages succeeds and
    takes the file away from under the other 12 KiB as well: the guest still has
    them mapped, writable, as the shared mapping of the file, but their memory is
    the anonymous slab. *)
Theorem munmap_detaches_neighbour_pages : exists m',
  munmap_guest_range ex_env ex_mm 33554432 33558528 = Some (0, m') /\
  vmap (m_pt m') 33558528 = Some (33558528, 3) /\
  option_map (fun x => (a_flags x, a_file_off x, a_prot x)) (view (regions (m_trk m')) 33558528) =
    Some (LINUX_MAP_SHARED, 12288, 3) /\
  host_backing (host (m_trk ex_mm)) (4294967296 + 33558528) = Some (5, 12288) /\
  host_backing (host (m_trk m')) (4294967296 + 33558528) = None.
Proof.
  assert (option_map (fun r => (fst r, vmap (m_pt (snd r)) 33558528,
      option_map (fun x => (a_flags x, a_file_off x, a_prot x)) (view (regions (m_trk (snd r))) 33558528),
      host_backing (host (m_trk (snd r))) (4294967296 + 33558528)))
    (munmap_guest_range ex_env ex_mm 33554432 33558528) =
    Some (0, Some (33558528, 3), Some (LINUX_MAP_SHARED, 12288, 3), None)) as X by (vm_compute; reflexivity).
  destruct (munmap_guest_range ex_env ex_mm 33554432 33558528) as [[rc m']|]; [|discriminate X].
  cbn [option_map fst snd] in X. apply (inj Some) in X. apply pair_equal_spec in X as [X X4].
  apply pair_equal_spec in X as [X X3]. apply pair_equal_spec in X as [X1 X2].
  exists m'. rewrite X1. split; [reflexivity|]. split; [exact X2|]. split; [exact X3|]. split; [|exact X4]. vm_compute. reflexivity.
Qed.
