(* ===== verification/ProtFacts.v ===== *)
(** * Facts about protection changes

    [guest_region_set_prot] keeps the overlay records, and the two page-table
    operations behind [sys_mprotect] agree with the region tracker. *)

From stdpp Require Import sets.
From S2P Require Import Prelude Tlbi Regions RegionFacts HostFds RegionSpecs RegionSplit SplitFacts Gap PageTable DescFacts PtStruct PtView PtOps PtPages Gva Backing Segments SegFacts SegSpecs Overlay OverlayFacts Mm MunmapFacts.

(** ** Overlay records under a protection change *)

(** Every address under an overlay of [l] is under one of [out]. *)
Definition still_under (l out : list guest_region_t) : Prop :=
  forall x r, r ∈ l -> under r x -> exists r', r' ∈ out /\ under r' x.

#[export] Instance still_under_pre : PreOrder still_under.
Proof.
  split.
  - intros l x r Hr Hu. by exists r.
  - intros l1 l2 l3 A B x r Hr Hu. destruct (A x r Hr Hu) as (r' & Hr' & Hu'). by apply (B x r').
Qed.

Lemma under_prot p r x : under (set_prot_field p r) x <-> under r x.
Proof. done. Qed.

Section Prot.
Context {H : Type} `{HE : HostEnv H, HP : !HostPageOk H}.

Lemma clip_prot p r : guest_region_clip_overlay (H:=H) (set_prot_field p r) = set_prot_field p (guest_region_clip_overlay (H:=H) r).
Proof.
  unfold guest_region_clip_overlay. cbn [set_prot_field r_overlay_active r_start r_end r_overlay_start r_overlay_end].
  destruct (_ || _); [done|]. cbv zeta. set (e := if r_overlay_end r <? _ then _ else _). set (s := if _ <? r_overlay_start r then _ else _).
  by destruct (e <=? s).
Qed.

Lemma clipped_prot p r : clipped (H:=H) r -> clipped (H:=H) (set_prot_field p r).
Proof. done. Qed.

Lemma fuses_under l l' : fuses l l' -> Forall (clipped (H:=H)) l -> Forall (clipped (H:=H)) l' /\ still_under l l'.
Proof.
  intros [->|(pre & a & b & post & Hm & -> & ->)] Hc; [by split|].
  apply regions_mergeable_true in Hm as (_ & _ & _ & _ & _ & _ & _ & _ & Ha & Hb & _).
  assert (forall x, ~ under a x) as Na by (intros x [Hl _]; unfold region_has_live_overlay in Hl; by rewrite Ha in Hl).
  assert (forall x, ~ under b x) as Nb by (intros x [Hl _]; unfold region_has_live_overlay in Hl; by rewrite Hb in Hl).
  rewrite Forall_app, !Forall_cons_iff in Hc. destruct Hc as (Hc1 & _ & _ & Hc2). split.
  - rewrite Forall_app, Forall_cons_iff. split_and!; [done| |done]. intros x Hu. by destruct (Na x).
  - intros x r Hr Hu. exists r. split; [|done]. rewrite elem_of_app, !elem_of_cons in Hr.
    destruct Hr as [Hr|[->|[->|Hr]]]; [set_solver|by destruct (Na x)|by destruct (Nb x)|set_solver].
Qed.

Lemma fuses_trans_under l l1 l2 : fuses l1 l2 -> Forall (clipped (H:=H)) l1 /\ still_under l l1 ->
  Forall (clipped (H:=H)) l2 /\ still_under l l2.
Proof. intros F [C S]. destruct (fuses_under _ _ F C) as [C' S']. split; [done|]. by etrans. Qed.

Lemma merge_down_under f n l l1 : Forall (clipped (H:=H)) l1 /\ still_under l l1 ->
  Forall (clipped (H:=H)) (merge_left_down f n l1) /\ still_under l (merge_left_down f n l1).
Proof.
  revert l1. induction n as [|n IH]; intros l1 Hl; cbn [merge_left_down]; [done|].
  apply IH. eapply fuses_trans_under; [apply try_merge_left_fuses|done].
Qed.

(** The right half made by [split_right]. *)
Lemma split_right_clip b r h r' h' : split_right b r h = (r', h') ->
  exists fd, r' = region_clip_overlay (H:=H) (advance_start b (set_backing_fd fd r)).
Proof.
  unfold split_right. destruct (0 <=? r_backing_fd r).
  - destruct (host_dup h (r_backing_fd r)) as [fd h1]. intros [= <- _]. exists fd. by rewrite clip_eq.
  - intros [= <- _]. exists (r_backing_fd r). rewrite clip_eq. done.
Qed.

(** Both halves of a split, as a list. *)
Lemma halves_under b r h r' h' l : region_ok r -> r_start r < b < r_end r -> clipped (H:=H) r -> split_right b r h = (r', h') ->
  clipped (H:=H) (guest_region_clip_overlay (H:=H) (set_end b r)) /\ clipped (H:=H) r' /\
  still_under (r :: l) (guest_region_clip_overlay (H:=H) (set_end b r) :: r' :: l).
Proof using HP.
  intros Hok Hb Hc E. destruct (split_right_clip _ _ _ _ _ E) as [fd ->]. rewrite <- clip_eq.
  split; [apply clip_clipped; cbn; lia|]. split; [apply clip_clipped; cbn; lia|].
  intros x q [->|Hq]%elem_of_cons Hu; [|exists q; set_solver].
  destruct (split_under r b fd x Hok Hb Hc Hu); eexists; (split; [|eassumption]); set_solver.
Qed.
(** The walk: what it has passed keeps its overlays. *)
Lemma set_prot_loop_under s e p l : 0 <= s < e -> forall lo pre fm lm stale h out fm' lm' stale' h' l0,
  set_prot_loop s e p pre l fm lm stale h = (out, fm', lm', stale', h') -> chain lo l -> Forall region_ok l ->
  Forall (fun r => s < r_end r) l -> Forall (clipped (H:=H)) (pre ++ l) -> still_under l0 (pre ++ l) ->
  Forall (clipped (H:=H)) out /\ still_under l0 out.
Proof using HP.
  intros Hse. induction l as [|r l IH]; intros lo pre fm lm stale h out fm' lm' stale' h' l0; cbn [set_prot_loop].
  { intros [= <- _ _ _ _] _ _ _. by rewrite app_nil_r. }
  cbn [chain]. rewrite !Forall_cons_iff. intros E (Hlo & Hne & Hc) [Hr Hrs] [Hre Hres] Hcl Hst.
  rewrite Forall_app, Forall_cons_iff in Hcl. destruct Hcl as (Hc1 & Hcr & Hc2).
  (* continuing past a region with the same overlay *)
  assert (forall pre r', clipped (H:=H) r' -> Forall (clipped (H:=H)) pre -> still_under l0 (pre ++ r' :: l) ->
    forall p' fm lm stale h, set_prot_loop s e p (pre ++ [p']) l fm lm stale h = (out, fm', lm', stale', h') ->
    (p' = r' \/ p' = set_prot_field p r') -> Forall (clipped (H:=H)) out /\ still_under l0 out) as Hgo.
  { intros pre' r' Hcr' Hcp' Hst' p' fm1 lm1 st1 h1 E1 Hp'. apply (IH _ _ _ _ _ _ _ _ _ _ _ l0 E1 Hc Hrs Hres).
    - rewrite <- app_assoc. cbn [app]. rewrite Forall_app, Forall_cons_iff. split_and!; [done| |done]. destruct Hp' as [->| ->]; [done|]. by apply clipped_prot.
    - etrans; [exact Hst'|]. intros x q Hq Hu. rewrite elem_of_app, elem_of_cons in Hq.
      destruct Hq as [Hq|[->|Hq]]; [exists q| |exists q]; rewrite ?elem_of_app, ?list_elem_of_singleton; [auto| |auto].
      exists p'. rewrite !elem_of_app, list_elem_of_singleton. split; [auto|]. by destruct Hp' as [->| ->]. }
  revert E. destruct (Z.leb_spec e (r_start r)) as [Hbr|Hbr]; [intros [= <- _ _ _ _]; split; [rewrite Forall_app, Forall_cons_iff; by split_and!|done]|].
  destruct ((r_start r <? s) && _) eqn:Efull; [intros E; eapply (Hgo pre r); [done|done|exact Hst|exact E|by left]|].
  (* the region after the split at [s] *)
  destruct (if r_start r <? s then _ else _) as [[pre1 r1] h1] eqn:E1.
  assert (clipped (H:=H) r1 /\ Forall (clipped (H:=H)) pre1 /\ still_under l0 (pre1 ++ r1 :: l) /\ region_ok r1 /\ r_start r1 < e)
    as (C1 & P1 & S1 & O1 & B1).
  { destruct (Z.ltb_spec (r_start r) s).
    - destruct (split_right s r h) as [r2 h2] eqn:E2. injection E1 as <- <- <-.
      destruct (halves_under s r h r2 h2 l Hr ltac:(lia) Hcr E2) as (A & B & C).
      destruct (split_right_piece s r h r2 h2 Hr ltac:(lia) E2) as (Ps & Pe & Po & _).
      split; [done|]. split; [by rewrite Forall_app, Forall_singleton|]. split.
      + etrans; [exact Hst|]. intros x q Hq Hu. apply elem_of_app in Hq as [Hq|Hq]; [exists q; split; [|done]; rewrite !elem_of_app; auto|].
        destruct (C x q Hq Hu) as (q' & Hq' & Hu'). exists q'. split; [|done]. rewrite <- app_assoc. apply elem_of_app. by right.
      + split; [done|]. lia.
    - injection E1 as <- <- <-. by split_and!. }
  cbv zeta. destruct (Z.ltb_spec e (r_end r1)).
  - destruct (GUEST_MAX_REGIONS <=? length pre1 + S (length l))%nat; [intros E; eapply (Hgo pre1 r1); [done|done|done|exact E|by right]|].
    destruct (split_right e r1 h1) as [r2 h2] eqn:E2. intros [= <- _ _ _ _].
    destruct (halves_under e r1 h1 r2 h2 l O1 ltac:(lia) C1 E2) as (A & B & C). rewrite clip_prot. split.
    + rewrite Forall_app, !Forall_cons_iff. by split_and!.
    + etrans; [exact S1|]. intros x q Hq Hu. apply elem_of_app in Hq as [Hq|Hq]; [exists q; split; [|done]; rewrite !elem_of_app; auto|].
      destruct (C x q Hq Hu) as (q' & Hq' & Hu'). rewrite !elem_of_cons in Hq'. destruct Hq' as [->|[->|Hq']].
      * eexists. split; [apply elem_of_app; right; left|]. done.
      * exists r2. split; [|done]. rewrite elem_of_app, !elem_of_cons. auto.
      * exists q'. split; [|done]. rewrite elem_of_app, !elem_of_cons. auto.
  - intros E. eapply (Hgo pre1 r1); [done|done|done|exact E|by right].
Qed.

(** The host only duplicated descriptors. *)
Lemma set_prot_loop_host (R : H -> H -> Prop) `{!PreOrder R} (Hdup : forall w fd, R w (snd (host_dup w fd))) s e p l :
  forall pre fm lm stale h out fm' lm' stale' h',
  set_prot_loop s e p pre l fm lm stale h = (out, fm', lm', stale', h') -> R h h'.
Proof.
  assert (forall b r h r' h', split_right b r h = (r', h') -> R h h') as Hsr.
  { intros b r h r' h'. unfold split_right. destruct (0 <=? r_backing_fd r); [|by intros [= _ <-]].
    pose proof (Hdup h (r_backing_fd r)) as Hd. destruct (host_dup h (r_backing_fd r)). by intros [= _ <-]. }
  induction l as [|r l IH]; intros pre fm lm stale h out fm' lm' stale' h'; cbn [set_prot_loop]; [by intros [= _ _ _ _ <-]|].
  destruct (e <=? r_start r); [by intros [= _ _ _ _ <-]|]. destruct (_ && _); [apply IH|].
  destruct (if r_start r <? s then _ else _) as [[pre1 r1] h1] eqn:E1.
  assert (R h h1) as H1.
  { destruct (r_start r <? s); [|by injection E1 as _ _ <-].
    destruct (split_right s r h) as [r2 h2] eqn:E2. injection E1 as _ _ <-. by eapply Hsr. }
  destruct (e <? r_end r1); [|intros E%IH; by etrans].
  destruct (GUEST_MAX_REGIONS <=? length pre1 + S (length l))%nat; [intros E%IH; by etrans|].
  destruct (split_right e r1 h1) as [r2 h2] eqn:E2. apply Hsr in E2. intros [= _ _ _ _ <-]. by etrans.
Qed.
End Prot.

(** ** The page-table half *)

Lemma prot_perms_norm prot : norm_perms (prot_to_perms prot) = prot_to_perms prot.
Proof. unfold prot_to_perms. by destruct (has prot LINUX_PROT_WRITE), (has prot LINUX_PROT_EXEC). Qed.

Section Ptes.
Variable c : mm_env.
#[local] Notation L := (e_layout c).

(** The tables [s'] give the pages of [a, b) the protection [prot]; outside they
    agree with [s], except that absent blocks of [lo, hi) may have been mapped
    to themselves. *)
Record repermed (a b lo hi prot : Z) (s : guest_pt) (rc : Z) (s' : guest_pt) : Prop := {
  rp_wf : pt_wf L s';
  rp_rc : rc = 0 \/ rc = -1;
  rp_out va : 0 <= va -> ~ a <= va < b -> vmap s' va = vmap s va \/
    (lo <= va < hi /\ present s va = false /\ vmap s' va = Some (va, prot_to_perms prot));
  rp_in va : rc = 0 -> a <= va < b ->
    match vmap s' va with
    | Some (_, q) => prot <> LINUX_PROT_NONE /\ q = prot_to_perms prot
    | None => prot = LINUX_PROT_NONE \/ (present s va = false /\ ~ lo <= va < hi)
    end;
  rp_tlb va : rc = 0 -> 0 <= va -> vmap s' va <> vmap s va -> covers (cpu_tlbi_req s') va
}.

(** Removing the pages. *)
Lemma inval_repermed s a b : pt_wf L s -> 0 <= a < b -> b <= 2 ^ 48 -> a mod PAGE_SIZE = 0 -> b mod PAGE_SIZE = 0 ->
  exists rc s', guest_invalidate_ptes L s a b = Some (rc, s') /\ forall lo hi, repermed a b lo hi LINUX_PROT_NONE s rc s'.
Proof.
  intros Hwf Hab Hb Ha4 Hb4. assert (fits64 a) as Hfa by (unfold fits64, two64; lia).
  destruct (invalidate_spec L s a b Hwf Hfa ltac:(lia)) as (rc & s' & E & R). cbv zeta in R.
  assert (ALIGN_DOWN a PAGE_SIZE = a /\ PAGE_ALIGN_UP b = b) as [Ea Eb].
  { rewrite align_down_page, align_up_page by (done || (unfold two64; lia)). unfold PAGE_SIZE, GUEST_PAGE_SIZE in *. clear -Ha4 Hb4. zdm. }
  rewrite Ea, Eb, (proj2 (Z.leb_gt _ _)) in R by lia. exists rc, s'. split; [done|]. intros lo hi.
  destruct R as (k & Hk & Ws & _ & _ & _ & Hva & Hrc). split; [done|destruct Hrc as [[-> _]|[-> _]]; auto| | |].
  - intros va Hv Hout. left. specialize (Hva va Hv). rewrite decide_False in Hva by lia. by destruct Hva.
  - intros va -> Hin. destruct Hrc as [(_ & -> & _)|[? _]]; [|done]. specialize (Hva va ltac:(lia)). rewrite decide_True in Hva by lia.
    destruct Hva as [[-> _] _]. by left.
  - intros va -> Hv Hne. specialize (Hva va Hv). destruct (decide _); [by apply Hva|]. by destruct Hva.
Qed.

(** Changing the permissions of what is there. *)
Lemma update_repermed regs s a b prot : pt_wf L s -> 0 <= a < b -> b <= 2 ^ 48 -> a mod PAGE_SIZE = 0 -> b mod PAGE_SIZE = 0 ->
  prot <> LINUX_PROT_NONE ->
  exists rc s', guest_update_perms L regs s a b (prot_to_perms prot) = Some (rc, s') /\
    repermed a b a a prot s rc s' /\ retires s s' /\ (rc = 0 -> forall va, a <= va < b -> present s va = true -> is_Some (vmap s' va)).
Proof.
  intros Hwf Hab Hb Ha4 Hb4 Hp. assert (fits64 a) as Hfa by (unfold fits64, two64; lia).
  destruct (update_perms_spec L regs s a b (prot_to_perms prot) Hwf Hfa ltac:(lia)) as (rc & s' & E & R). cbv zeta in R.
  assert (ALIGN_DOWN a PAGE_SIZE = a /\ PAGE_ALIGN_UP b = b) as [Ea Eb].
  { rewrite align_down_page, align_up_page by (done || (unfold two64; lia)). unfold PAGE_SIZE, GUEST_PAGE_SIZE in *. clear -Ha4 Hb4. zdm. }
  rewrite Ea, Eb, (proj2 (Z.leb_gt _ _)) in R by lia. exists rc, s'. split; [done|].
  destruct R as (k & Hk & Ws & _ & _ & Hret & Hva & Hrc).
  assert (rc = 0 -> forall va, a <= va < b -> vmap s' va = perm_view L regs (prot_to_perms prot) (vmap s va) (present s va) va) as Hin.
  { intros -> va Hin. destruct Hrc as [(_ & -> & _)|[? _]]; [|done]. specialize (Hva va ltac:(lia)).
    rewrite decide_True in Hva by lia. by destruct Hva as [[_ ->] _]. }
  split; [|split; [done|]].
  - split; [done|destruct Hrc as [[-> _]|[-> _]]; auto| | |].
    + intros va Hv Hout. left. specialize (Hva va Hv). rewrite decide_False in Hva by lia. by destruct Hva.
    + intros va H0 Hi. rewrite (Hin H0 va Hi). unfold perm_view. destruct (present s va) eqn:Epr; [|right; split; [done|lia]].
      split; [done|apply prot_perms_norm].
    + intros va H0 Hv Hne. specialize (Hva va Hv). destruct (decide _); [by apply Hva|]. by destruct Hva.
  - intros H0 va Hi Hpr. rewrite (Hin H0 va Hi). unfold perm_view. rewrite Hpr. by eexists.
Qed.
Lemma block_hull a b : 0 <= a < b -> b <= 2 ^ 48 -> ALIGN_2MIB_DOWN a <= a /\ b <= ALIGN_2MIB_UP b.
Proof.
  intros. rewrite align_down_2mib, align_up_2mib by (unfold fits64, two64; lia). unfold BLOCK_2MIB. clear. zdm.
Qed.

(** Mapping the absent blocks first: afterwards every page of the range is there. *)
Lemma extend_update_repermed regs s a b prot : pt_wf L s -> 0 <= a < b -> b <= guest_size L -> a mod PAGE_SIZE = 0 -> b mod PAGE_SIZE = 0 ->
  prot <> LINUX_PROT_NONE ->
  exists rc s', ('(rc, s1) ← guest_extend_page_tables L s a b (prot_to_perms prot);
                 if rc <? 0 then Some (rc, s1) else guest_update_perms L regs s1 a b (prot_to_perms prot)) = Some (rc, s') /\
    repermed a b (ALIGN_2MIB_DOWN a) (ALIGN_2MIB_UP b) prot s rc s' /\
    (rc = 0 -> forall va, a <= va < b -> is_Some (vmap s' va)).
Proof.
  intros Hwf Hab Hb Ha4 Hb4 Hp. pose proof (lo_size _ (wf_layout _ _ Hwf)) as Hsz.
  assert (fits64 a /\ fits64 b) as [Hfa Hfb] by (unfold fits64, two64; lia).
  destruct (block_hull a b Hab ltac:(lia)) as [Hlo Hhi].
  destruct (extend_spec L s a b (prot_to_perms prot) Hwf Hfa Hfb) as (rc1 & s1 & E1 & W1 & _ & R1 & _ & Hrc1 & K1 & P1 & _).
  rewrite E1. run.
  assert (forall va, 0 <= va -> vmap s1 va = vmap s va \/ (ALIGN_2MIB_DOWN a <= va < ALIGN_2MIB_UP b /\ present s va = false /\
    vmap s1 va = Some (va, prot_to_perms prot) /\ (rc1 = 0 -> covers (cpu_tlbi_req s1) va))) as Hs1.
  { intros va Hv. destruct (K1 va Hv) as [[Hk _]|(Hin & (Hp1 & _ & Hv1) & Hc)]; [by left|right].
    rewrite prot_perms_norm in Hv1. split; [exact Hin|]. split; [exact Hp1|]. split; [exact Hv1|exact Hc]. }
  destruct (Z.ltb_spec rc1 0).
  { exists rc1, s1. split; [done|]. split; [|lia]. split; [done|lia| |lia|lia].
    intros va Hv _. destruct (Hs1 va Hv) as [?|(? & ? & ? & _)]; [by left|by right]. }
  assert (rc1 = 0) as -> by lia.
  destruct (update_repermed regs s1 a b prot W1 Hab ltac:(lia) Ha4 Hb4 Hp) as (rc & s2 & E2 & U & Hret & Hl). exists rc, s2.
  split; [done|]. destruct (P1 eq_refl) as [Hpres _].
  assert (rc = 0 -> forall va, a <= va < b -> is_Some (vmap s2 va)) as Hlive.
  { intros H0 va Hi. apply Hl; [done|done|]. apply Hpres. lia. }
  split; [|done]. split; [apply U|apply U| | |].
  - intros va Hv Hout. destruct (rp_out _ _ _ _ _ _ _ _ U va Hv Hout) as [->|(? & _)]; [|lia].
    destruct (Hs1 va Hv) as [?|(? & ? & ? & _)]; [by left|by right].
  - intros va H0 Hi. pose proof (rp_in _ _ _ _ _ _ _ _ U va H0 Hi) as Hq. destruct (Hlive H0 va Hi) as [[o q] Eq].
    rewrite Eq in *. done.
  - intros va H0 Hv Hne. destruct (decide (vmap s2 va = vmap s1 va)) as [Eq|Hne2].
    + apply Hret. rewrite Eq in Hne. destruct (Hs1 va Hv) as [?|(_ & _ & _ & Hc)]; [done|by apply Hc].
    + exact (rp_tlb _ _ _ _ _ _ _ _ U va H0 Hv Hne2).
Qed.
End Ptes.

(** ** The whole call *)

Section Mprotect.
Context {H : Type} `{HE : HostEnv H, HP : !HostPageOk H, HF : !HostFdLaws H, HVm : !HostVm H, HVl : !HostVmLaws H,
  HSl : !HostSlab H, HSll : !HostSlabLaws H, HMs : !HostMemset H, HFr : !HostFrame H}.
Variable c : mm_env.
Context `{HMl : !HostMemsetLaws H (e_shm_fd c)}.
Context (others : list (Z * Z)).

#[local] Notation L := (e_layout c).
#[local] Notation top := (guest_size L).

(** Only descriptors were duplicated. *)
Definition duped (w w' : H) : Prop :=
  host_backing w' = host_backing w /\ vm_stage2 w' = vm_stage2 w /\ host_files w' = host_files w.

#[local] Instance duped_pre : PreOrder duped.
Proof. split; [by intros w|]. intros x y z (? & ? & ?) (? & ? & ?). split_and!; congruence. Qed.

Lemma set_prot_kept m s e p pt : mm_ok c m -> 0 <= s < e -> pt_wf L pt ->
  mm_kept c others m (set_trk (guest_region_set_prot (m_trk m) s e p) (set_pt pt m)) /\
  prot_changes (m_trk m) (guest_region_set_prot (m_trk m) s e p) s e p.
Proof using HP HFr HMl.
  intros Hm Hse Hpt. pose proof (set_prot_spec (m_trk m) s e p (mo_trk _ _ Hm) Hse) as Hpc. split; [|done].
  set (g' := guest_region_set_prot (m_trk m) s e p) in *.
  assert (overlays_ok (e_host_base c) (e_shm_fd c) top g' /\ duped (host (m_trk m)) (host g')) as [Hov Hd].
  { subst g'. unfold guest_region_set_prot. destruct (mo_trk _ _ Hm) as [[Hc Hok] _]. destruct (mo_overlays _ _ Hm) as [Hcl Htr].
    destruct (first_end_above_split 0 (regions (m_trk m)) s Hc) as (_ & _ & Ha).
    set (i := guest_region_first_end_above _ _) in *. clearbody i.
    destruct (set_prot_loop _ _ _ _ _ _ _ _ _) as [[[[l fm] lm] st] h] eqn:E.
    assert (duped (host (m_trk m)) h) as Hd.
    { refine (set_prot_loop_host duped _ s e p _ _ _ _ _ _ _ _ _ _ _ E). intros w fd. destruct (dup_maps w fd).
      split_and!; [done..|apply (files_dup (shm:=e_shm_fd c))]. }
    destruct (chain_tail (regions (m_trk m)) i Hc) as [lo Hcd].
    assert (Forall region_ok (drop i (regions (m_trk m)))) as Hokd by (by apply Forall_drop).
    destruct (set_prot_loop_under s e p _ Hse lo _ _ _ _ _ _ _ _ _ _ (regions (m_trk m)) E Hcd Hokd Ha) as [C U];
      [by rewrite take_drop|by rewrite take_drop|].
    cbn [regions host]. split; [|done].
    match goal with |- overlays_ok _ _ _ (mk_tracker ?x _ _ _) => assert (Forall (clipped (H:=H)) x /\ still_under (regions (m_trk m)) x) as [C' U'] end.
    { destruct fm, lm; [|done..]. eapply fuses_trans_under; [apply try_merge_left_fuses|]. apply merge_down_under.
      eapply fuses_trans_under; [apply try_merge_right_fuses|done]. }
    split; [done|]. intros x Hx. cbn [regions host]. destruct (Htr x Hx) as [Hs|(r & Hr & Hu)].
    - left. unfold slab_backed in *. by rewrite (proj1 Hd).
    - right. by apply (U' x r). }
  destruct Hd as (Hb & Hs & Hf). split; cbn [set_trk set_pt m_trk m_segs m_brk].
  - split; cbn [set_trk set_pt m_trk m_segs m_pt]; [apply Hpc|done|apply Hm|done].
  - intros F HFd. by apply set_prot_owns.
  - done.
  - done.
  - intros _. unfold held. by rewrite Hs.
Qed.
(** The tables agree with the tracker where the fast path of mprotect trusts it. *)
Definition synced (m : mm H) : Prop :=
  regions_tracker_stale (m_trk m) = false -> forall a x, 0 <= a -> view (regions (m_trk m)) a = Some x ->
  a_noreserve x = false -> mprotect_same_prot_fast_path_safe (a_prot x) = true ->
  match vmap (m_pt m) a with
  | Some (_, q) => a_prot x <> LINUX_PROT_NONE /\ q = prot_to_perms (a_prot x)
  | None => True
  end.

(** The outcome of a protection change of [a, e), in which absent blocks of
    [lo, hi) may have been mapped. *)
Record mprotected (m : mm H) (a e lo hi prot rc : Z) (m' : mm H) : Prop := {
  mp_kept : mm_kept c others m m';
  mp_rc : rc <= 0;
  mp_fail : rc <> 0 -> m_trk m' = m_trk m;
  mp_view : rc = 0 -> regions_tracker_stale (m_trk m') = false -> forall x, view (regions (m_trk m')) x =
    if (a <=? x) && (x <? e) then option_map (set_a_prot prot) (view (regions (m_trk m)) x) else view (regions (m_trk m)) x;
  mp_out va : 0 <= va -> ~ a <= va < e -> vmap (m_pt m') va = vmap (m_pt m) va \/
    (lo <= va < hi /\ present (m_pt m) va = false /\ vmap (m_pt m') va = Some (va, prot_to_perms prot));
  mp_in : rc = 0 -> synced m -> regions_tracker_stale (m_trk m') = false ->
    forall va, a <= va < e -> is_Some (view (regions (m_trk m)) va) ->
    match vmap (m_pt m') va with
    | Some (_, q) => prot <> LINUX_PROT_NONE /\ q = prot_to_perms prot
    | None => True
    end;
  mp_tlb va : rc = 0 -> 0 <= va -> vmap (m_pt m') va <> vmap (m_pt m) va -> covers (cpu_tlbi_req (m_pt m')) va;
  mp_synced : rc = 0 -> synced m ->
    (forall va, lo <= va < hi -> ~ a <= va < e -> present (m_pt m) va = false -> view (regions (m_trk m)) va = None) ->
    synced m'
}.

Lemma mm_kept_refl m : mm_ok c m -> mm_kept c others m m.
Proof. by split. Qed.

Lemma mprotected_refused m a e lo hi prot rc : mm_ok c m -> rc < 0 -> mprotected m a e lo hi prot rc m.
Proof. intros Hm Hrc. split; try lia; [by apply mm_kept_refl|done|by left]. Qed.

Lemma set_prot_loop_stale s e p l : forall pre fm lm h out fm' lm' stale' h',
  set_prot_loop s e p pre l fm lm true h = (out, fm', lm', stale', h') -> stale' = true.
Proof.
  induction l as [|r l IH]; intros pre fm lm h out fm' lm' stale' h'; cbn [set_prot_loop]; [by intros [= _ _ _ <- _]|].
  destruct (e <=? r_start r); [by intros [= _ _ _ <- _]|]. destruct (_ && _); [apply IH|].
  destruct (if r_start r <? s then _ else _) as [[pre1 r1] h1]. cbv zeta. destruct (e <? r_end r1); [|apply IH].
  destruct (GUEST_MAX_REGIONS <=? length pre1 + S (length l))%nat; [apply IH|].
  destruct (split_right e r1 h1) as [r2 h2]. by intros [= _ _ _ <- _].
Qed.

Lemma set_prot_stale (g : tracker H) s e p : regions_tracker_stale (guest_region_set_prot g s e p) = false ->
  regions_tracker_stale g = false.
Proof.
  unfold guest_region_set_prot. destruct (regions_tracker_stale g) eqn:Es; [|done].
  destruct (set_prot_loop _ _ _ _ _ _ _ _ _) as [[[[l fm] lm] st] h] eqn:E. apply set_prot_loop_stale in E. by subst st.
Qed.

(** Tables first, tracker second. *)
Lemma mprotect_finish m a e lo hi prot rc s : mm_ok c m -> 0 <= a < e -> repermed c a e lo hi prot (m_pt m) rc s ->
  let m' := if rc <? 0 then set_pt s m else set_trk (guest_region_set_prot (m_trk m) a e prot) (set_pt s m) in
  mprotected m a e lo hi prot (if rc <? 0 then - LINUX_ENOMEM else 0) m'.
Proof using HP HFr HMl.
  intros Hm Hae R m'. subst m'. destruct (rp_rc _ _ _ _ _ _ _ _ _ R) as [-> | ->]; cbn [Z.ltb Z.compare].
  2:{ split; try done; [|apply R]. split; try done. split; [apply Hm|apply R|apply Hm|apply Hm]. }
  destruct (set_prot_kept m a e prot s Hm Hae (rp_wf _ _ _ _ _ _ _ _ _ R)) as [K (_ & _ & Hv & _)].
  split; cbn [set_trk set_pt m_trk m_pt] in *.
  - done.
  - done.
  - done.
  - intros _. exact Hv.
  - apply R.
  - intros _ _ _ va Hin _. pose proof (rp_in _ _ _ _ _ _ _ _ _ R va eq_refl Hin) as Hq. by destruct (vmap s va) as [[o q]|].
  - intros va _. by apply (rp_tlb _ _ _ _ _ _ _ _ _ R).
  - intros _ Hs Hno Hst va x Hva. cbn [set_trk set_pt m_trk m_pt] in *. rewrite (Hv Hst).
    pose proof (set_prot_stale _ _ _ _ Hst) as Hst0.
    destruct ((a <=? va) && (va <? e)) eqn:Ein; unbool.
    + destruct (view (regions (m_trk m)) va) as [x0|]; [|done]. cbn [option_map]. intros [= <-] _ _. cbn [a_prot set_a_prot].
      pose proof (rp_in _ _ _ _ _ _ _ _ _ R va eq_refl ltac:(lia)) as Hq. by destruct (vmap s va) as [[o q]|].
    + intros Hx Hn Hsafe. destruct (rp_out _ _ _ _ _ _ _ _ _ R va Hva ltac:(lia)) as [->|(Hin & Hpr & _)].
      * exact (Hs Hst0 va x Hva Hx Hn Hsafe).
      * rewrite (Hno va Hin ltac:(lia) Hpr) in Hx. done.
    + intros Hx Hn Hsafe. destruct (rp_out _ _ _ _ _ _ _ _ _ R va Hva ltac:(lia)) as [->|(Hin & Hpr & _)].
      * exact (Hs Hst0 va x Hva Hx Hn Hsafe).
      * rewrite (Hno va Hin ltac:(lia) Hpr) in Hx. done.
Qed.

(** The fast path. *)
Lemma mprotect_fast m a e lo hi prot : mm_ok c m -> a < e -> mprotect_in_sync m a e prot = true -> 0 <= a ->
  mprotected m a e lo hi prot 0 m.
Proof.
  intros Hm Hae E Ha. unfold mprotect_in_sync in E. apply andb_prop in E as [E Hn]. apply andb_prop in E as [E Hu]. apply andb_prop in E as [Hsafe Hst].
  apply negb_true_iff in Hn, Hst. unfold guest_region_range_has_noreserve in Hn. apply negb_false_iff in Hn.
  destruct (mo_trk _ _ Hm) as [[Hc _] _].
  assert (forall va x, a <= va < e -> view (regions (m_trk m)) va = Some x -> a_prot x = prot /\ a_noreserve x = false) as Hv.
  { intros va x Hin. unfold view. destruct (region_at _ va) as [r|] eqn:Er; [|done]. intros [= <-].
    apply region_at_Some in Er as [Hr Hir]. unfold in_region in Hir. unbool.
    unfold guest_region_range_prot_uniform in Hu. rewrite (range_walk_spec 0) in Hu, Hn by done.
    specialize (Hu r Hr ltac:(lia) ltac:(lia)). specialize (Hn r Hr ltac:(lia) ltac:(lia)). cbn. apply Z.eqb_eq in Hu. by apply negb_true_iff in Hn. }
  split; [by apply mm_kept_refl|done|done| |by left| |done|done].
  - intros _ _ x. destruct ((a <=? x) && (x <? e)) eqn:Ein; [|done]. unbool. destruct (view (regions (m_trk m)) x) as [y|] eqn:Ey; [|done].
    destruct (Hv x y ltac:(lia) Ey) as [Hp _]. cbn. unfold set_a_prot. rewrite <- Hp. by destruct y.
  - intros _ Hs _ va Hin [x Hx]. destruct (Hv va x Hin Hx) as [Hp Hnr]. rewrite <- Hp in Hsafe |- *.
    exact (Hs Hst va x ltac:(lia) Hx Hnr Hsafe).
Qed.
Lemma page_len len : 0 < len < 2 ^ 48 -> 0 < PAGE_ALIGN_UP len /\ PAGE_ALIGN_UP len mod PAGE_SIZE = 0 /\
  len <= PAGE_ALIGN_UP len < two64.
Proof. intros. rewrite align_up_page by (unfold two64; lia). unfold PAGE_SIZE, GUEST_PAGE_SIZE, two64. clear -H0. zdm. Qed.

Lemma low_page x : 0 <= x -> (Z.land x 4095 =? 0) = (x mod PAGE_SIZE =? 0).
Proof. intros. f_equal. change 4095 with (Z.ones 12). rewrite Z.land_ones by lia. done. Qed.

Lemma mprotect_spec m addr len prot (e := addr + PAGE_ALIGN_UP len) : mm_ok c m -> 0 <= addr -> 0 < len < 2 ^ 48 -> e <= 2 ^ 48 ->
  e <= top \/ top <= addr ->
  exists rc m', sys_mprotect c m addr len prot = Some (rc, m') /\
    mprotected m addr e (if addr <? top then ALIGN_2MIB_DOWN addr else addr)
      (if addr <? top then ALIGN_2MIB_UP e else addr) prot rc m'.
Proof using HP HFr HMl.
  intros Hm Ha Hlen He Hbr. destruct (page_len len Hlen) as (Hl0 & Hl4 & Hl1). unfold sys_mprotect.
  rewrite low_page by done. destruct (Z.eqb_spec (addr mod PAGE_SIZE) 0) as [Ha4|_]; cbn [negb].
  2:{ do 2 eexists. split; [done|]. by apply mprotected_refused. }
  rewrite (proj2 (Z.eqb_neq len 0)) by lia. cbv zeta. set (n := PAGE_ALIGN_UP len) in *.
  assert (e mod PAGE_SIZE = 0) as He4 by (subst e; rewrite Z.add_mod, Ha4, Hl4 by done; done).
  rewrite (proj2 (Z.eqb_neq n 0)) by lia. assert ((UINT64_MAX - n)%u64 = UINT64_MAX - n) as -> by (unfold UINT64_MAX; by u64).
  rewrite (proj2 (Z.ltb_ge _ addr)) by (unfold UINT64_MAX; lia). rewrite (proj2 (Z.ltb_ge _ addr)) by lia.
  assert ((addr + n)%u64 = e) as Ee by (subst e; by u64).
  destruct (Z.leb_spec top addr) as [Hhi|Hlo].
  - rewrite (proj2 (Z.ltb_ge addr top)) by lia. rewrite Ee.
    case_if; [do 2 eexists; split; [done|]; by apply mprotected_refused|].
    case_if; [do 2 eexists; split; [done|]; by apply mprotected_refused|].
    destruct (mprotect_in_sync m addr e prot) eqn:Ef; [do 2 eexists; split; [done|]; apply mprotect_fast; (done || lia)|].
    destruct (Z.eqb_spec prot LINUX_PROT_NONE) as [->|Hp]; cbn [negb].
    + destruct (inval_repermed c (m_pt m) addr e (mo_pt _ _ Hm) ltac:(lia) He Ha4 He4) as (rc & s & -> & R). run.
      pose proof (mprotect_finish m addr e addr addr _ rc s Hm ltac:(lia) (R _ _)) as F. destruct (rc <? 0); by do 2 eexists.
    + destruct (update_repermed c (regions (m_trk m)) (m_pt m) addr e prot (mo_pt _ _ Hm) ltac:(lia) He Ha4 He4 Hp) as (rc & s & -> & R & _). run.
      pose proof (mprotect_finish m addr e addr addr _ rc s Hm ltac:(lia) R) as F. destruct (rc <? 0); by do 2 eexists.
  - pose proof (top_small c m Hm). rewrite (proj2 (Z.ltb_lt addr top)) by lia. rewrite (lo_base _ (wf_layout _ _ (mo_pt _ _ Hm))).
    assert ((addr - 0)%u64 = addr) as -> by (u64; lia). assert ((top - addr)%u64 = top - addr) as -> by (by u64).
    rewrite (proj2 (Z.leb_le addr top)), (proj2 (Z.leb_le n _)) by lia. cbn [andb]. rewrite Ee.
    case_if; [do 2 eexists; split; [done|]; by apply mprotected_refused|].
    case_if; [do 2 eexists; split; [done|]; by apply mprotected_refused|].
    destruct (mprotect_in_sync m addr e prot) eqn:Ef; [do 2 eexists; split; [done|]; apply mprotect_fast; (done || lia)|].
    destruct (Z.eqb_spec prot LINUX_PROT_NONE) as [->|Hp]; cbn [negb].
    + destruct (inval_repermed c (m_pt m) addr e (mo_pt _ _ Hm) ltac:(lia) He Ha4 He4) as (rc & s & -> & R). run.
      pose proof (mprotect_finish m addr e (ALIGN_2MIB_DOWN addr) (ALIGN_2MIB_UP e) _ rc s Hm ltac:(lia) (R _ _)) as F. destruct (rc <? 0); by do 2 eexists.
    + destruct (extend_update_repermed c (regions (m_trk m)) (m_pt m) addr e prot (mo_pt _ _ Hm) ltac:(lia) ltac:(lia) Ha4 He4 Hp) as (rc & s & -> & R & _). run.
      pose proof (mprotect_finish m addr e _ _ _ rc s Hm ltac:(lia) R) as F. destruct (rc <? 0); by do 2 eexists.
Qed.
End Mprotect.
