(* ===== verification/ProtSpecs.v ===== *)
(** * Changing protections: theorems

    What [sys_mprotect] promises on any host that keeps its laws, and where its
    2 MiB granularity opens memory the tracker says is inaccessible. *)

From S2P Require Import Prelude Tlbi Regions RegionFacts HostFds RegionSplit Gap PageTable DescFacts PtStruct PtView PtOps PtPages PtSpecs Gva Backing BackingSpecs Segments SegFacts SegSpecs Overlay OverlayFacts Mm MunmapFacts MiniHost MunmapSpecs ProtFacts.

Import MiniHost SlabVm.

(** ** A guest with a reservation

    The example guest with 4 MiB reserved with PROT_NONE at 36 MiB, where no
    block is mapped. *)

Definition ex_none : guest_region_t :=
  mk_region 37748736 41943040 37748736 4 0 34 0 (-1) false false false false false 0 0 "".

Definition ex_mm_none : mm host_t :=
  mk_mm (mk_tracker [ex_shared; ex_private; ex_none] 5 false ex_host) ex_pt2 (m_alloc ex_mm) (m_segs ex_mm) 20971520.

Lemma ex_none_ok : mm_ok ex_env ex_mm_none.
Proof.
  destruct ex_mm_ok as [_ _ Hs [Hc Ht]]. split.
  - split; [|cbn; unfold GUEST_MAX_REGIONS; lia]. split; [cbn; lia|].
    repeat constructor; vm_compute; intuition congruence.
  - exact ex_pt2_wf.
  - exact Hs.
  - split.
    + apply (Forall_app _ [ex_shared; ex_private]). split; [exact Hc|]. constructor; [|constructor]. intros x [Hl _]. discriminate Hl.
    + intros x Hx. destruct (Ht x Hx) as [?|(r & Hr & Hu)]; [by left|right]. exists r. split; [|done].
      apply (elem_of_app [ex_shared; ex_private]). by left.
Qed.

(** ** Theorems *)



(** making one page of a PROT_NONE reservation accessible maps the whole
    2 MiB block around it: the next page, recorded as PROT_NONE, becomes readable
    and writable, and an explicit mprotect(PROT_NONE) of it then reports success
    from the fast path and leaves it accessible. *)
Theorem mprotect_opens_reserved_block : exists m',
  sys_mprotect ex_env ex_mm_none 37748736 4096 3 = Some (0, m') /\
  vmap (m_pt ex_mm_none) 37752832 = None /\
  option_map a_prot (view (regions (m_trk m')) 37752832) = Some LINUX_PROT_NONE /\
  vmap (m_pt m') 37752832 = Some (37752832, 3) /\
  sys_mprotect ex_env m' 37752832 4096 LINUX_PROT_NONE = Some (0, m').
Proof.
  assert (option_map (fun r => (fst r, option_map a_prot (view (regions (m_trk (snd r))) 37752832),
      vmap (m_pt (snd r)) 37752832, mprotect_in_sync (snd r) 37752832 37756928 LINUX_PROT_NONE))
    (sys_mprotect ex_env ex_mm_none 37748736 4096 3) =
    Some (0, Some 0, Some (37752832, 3), true)) as X by (vm_compute; reflexivity).
  destruct (sys_mprotect ex_env ex_mm_none 37748736 4096 3) as [[rc m']|]; [|discriminate X].
  cbn [option_map fst snd] in X. apply (inj Some) in X. apply pair_equal_spec in X as [X X4].
  apply pair_equal_spec in X as [X X3]. apply pair_equal_spec in X as [X1 X2].
  exists m'. rewrite X1. split; [reflexivity|]. split; [vm_compute; reflexivity|]. split; [exact X2|]. split; [exact X3|].
  unfold sys_mprotect.
  assert (PAGE_ALIGN_UP 4096 = 4096) as -> by (vm_compute; reflexivity). cbv zeta.
  change (negb (Z.land 37752832 4095 =? 0)) with false. change (4096 =? 0) with false.
  change ((UINT64_MAX - 4096)%u64 <? 37752832) with false. change (281474976710655 <? 37752832) with false.
  change (guest_size (e_layout ex_env) <=? 37752832) with false. cbv iota.
  change ((37752832 - ipa_base (e_layout ex_env))%u64) with 37752832.
  change ((37752832 + 4096)%u64) with 37756928. rewrite X4.
  change (has LINUX_PROT_NONE LINUX_PROT_WRITE) with false. cbn [andb].
  assert (guest_range_hits_infra ex_env 37752832 37756928 = false) as -> by (vm_compute; reflexivity).
  assert ((37752832 <=? guest_size (e_layout ex_env)) && (4096 <=? (guest_size (e_layout ex_env) - 37752832)%u64) = true)
    as -> by (vm_compute; reflexivity). reflexivity.
Qed.
