(* ===== verification/BrkFacts.v ===== *)
(** * Facts about moving the break

    The growth bound keeps the heap clear of every tracked mapping, and the
    tracker records exactly the bytes the break gained or lost. *)

From S2P Require Import Prelude Tlbi Regions RegionFacts HostFds RegionSplit SplitFacts Gap PageTable DescFacts PtStruct PtView PtOps PtPages Gva Backing Segments SegFacts SegSpecs Overlay OverlayFacts Mm MunmapFacts ProtFacts.

(** What the tracker says about a byte of the heap. *)
Definition heap_attrs (vma a : Z) : attrs := mk_attrs a vma 3 34 0 false false false false false HEAP_NAME.

Lemma heap_piece_true r : heap_piece_is_plain r = true ->
  r_start r < r_end r /\ r_gpa_base r = r_start r /\ r_prot r = 3 /\ r_flags r = 34 /\ r_backing_fd r < 0 /\
  r_shared r = false /\ r_noreserve r = false /\ r_backing_ro r = false /\ r_inherited_at_fork r = false /\
  region_has_live_overlay r = false /\ r_name r = HEAP_NAME.
Proof.
  unfold heap_piece_is_plain. rewrite !andb_true_iff, !negb_true_iff, !Z.eqb_eq, !Z.ltb_lt, bool_decide_eq_true. tauto.
Qed.

Lemma plain_attrs r a : heap_piece_is_plain r = true -> 0 <= r_start r <= a -> a < two64 -> attr_at r a = heap_attrs (r_vma_id r) a.
Proof.
  intros (_ & Hg & Hp & Hf & _ & Hs & Hn & Hro & Hi & Hl & Hnm)%heap_piece_true Ha Ht.
  unfold attr_at, heap_attrs. rewrite Hg, Hp, Hf, Hs, Hn, Hro, Hi, Hnm.
  assert ((r_start r + (a - r_start r))%u64 = a) as ->.
  { unfold add64, wrap64. replace (r_start r + (a - r_start r)) with a by lia. apply Z.mod_small. lia. }
  f_equal. unfold region_has_live_overlay in Hl. destruct (r_overlay_active r); [|done]. cbn [andb] in *.
  destruct (Z.leb_spec (r_overlay_start r) a), (Z.ltb_spec a (r_overlay_end r)); try done. unbool. lia.
Qed.

Section Brk.
Context {H : Type} `{HE : HostEnv H, HP : !HostPageOk H, HF : !HostFdLaws H, HVm : !HostVm H, HVl : !HostVmLaws H,
  HSl : !HostSlab H, HSll : !HostSlabLaws H, HMs : !HostMemset H, HFr : !HostFrame H}.
Variable c : mm_env.
Context `{HMl : !HostMemsetLaws H (e_shm_fd c)}.

(** The bound: everything from the break up to it is untracked; the adjoining
    piece is a plain heap record that ends at the break. *)
Lemma grow_limit_spec (g : tracker H) from limit adj : list_ok (regions g) -> 0 <= from ->
  brk_grow_limit c g from = (limit, adj) ->
  from <= limit /\ (from < limit -> regions_tracker_stale g = false /\ limit <= e_stack_base c) /\
  (forall a, from <= a < limit -> view (regions g) a = None) /\
  (from < limit -> Forall (fun r => r_end r <= from \/ limit <= r_start r) (regions g)) /\
  match adj with
  | Some j => exists r, regions g !! j = Some r /\ r_end r = from /\ heap_piece_is_plain r = true
  | None => True
  end.
Proof.
  intros [Hc Hok] Hf. unfold brk_grow_limit. destruct (regions_tracker_stale g) eqn:Es.
  { intros [= <- <-]. split; [lia|]. split; [lia|]. split; [intros; lia|]. split; [lia|done]. }
  destruct (first_end_above_split 0 (regions g) from Hc) as (Hi & Hlo & Hhi).
  set (i := guest_region_first_end_above (regions g) from) in *. cbv zeta.
  set (lim0 := if from <? e_stack_base c then e_stack_base c else from).
  assert (from <= lim0 /\ (from < lim0 -> lim0 = e_stack_base c)) as [Hl0 Hl1] by (subst lim0; case_if; lia). clearbody lim0.
  intros [= <- <-].
  assert (forall l lim, drop i (regions g) = l -> lim = match l with r :: _ => brk_limit_region from lim0 (r_start r) (r_end r) | [] => lim0 end ->
    from <= lim <= lim0 /\ (from < lim -> Forall (fun r => r_end r <= from \/ lim <= r_start r) (regions g))) as Hlim.
  { intros l lim El ->. rewrite <- (take_drop i (regions g)), El in Hc |- *. apply chain_app in Hc as [_ Hc]. rewrite El in Hhi.
    destruct l as [|r l].
    - split; [lia|]. intros _. rewrite app_nil_r. apply (list.Forall_impl _ _ _ Hlo). lia.
    - apply Forall_cons_1 in Hhi as [Hre _]. destruct Hc as (_ & Hne & Hc). unfold brk_limit_region.
      assert (Forall (fun q => r_start r <= r_start q) l) as Hs.
      { apply list.Forall_forall. intros q Hq. pose proof (chain_bounds _ _ _ Hc Hq). lia. }
      rewrite Forall_app, Forall_cons_iff. case_if; [|case_if]; unbool; (split; [lia|]); intros Hgt; try lia.
      + split_and!; [apply (list.Forall_impl _ _ _ Hlo); lia|lia|apply (list.Forall_impl _ _ _ Hs); lia].
      + split_and!; [apply (list.Forall_impl _ _ _ Hlo); lia|lia|apply (list.Forall_impl _ _ _ Hs); lia]. }
  destruct (Hlim (drop i (regions g)) (match regions g !! i with
     | Some r => brk_limit_region from lim0 (r_start r) (r_end r) | None => lim0 end) eq_refl) as [H1 H2].
  { rewrite <- (Nat.add_0_r i) at 1. rewrite <- lookup_drop. by destruct (drop i (regions g)). }
  set (lim := match regions g !! i with Some r => _ | None => _ end) in *. clearbody lim.
  split; [lia|]. split; [intros; split; [done|lia]|]. split; [|split; [exact H2|]].
  - intros a Ha. specialize (H2 ltac:(lia)). unfold view. destruct (region_at (regions g) a) as [r|] eqn:Er; [|done].
    apply region_at_Some in Er as [Hr Hin]. rewrite list.Forall_forall in H2. specialize (H2 r Hr). unfold in_region in Hin. unbool. lia.
  - destruct i as [|j]; [done|]. destruct (regions g !! j) as [r|] eqn:Ej; [|done]. case_if; [|done]. unbool. by exists r.
Qed.

#[local] Notation top := (guest_size (e_layout c)).
#[local] Notation ok := (overlays_ok (e_host_base c) (e_shm_fd c) top).

Lemma plain_not_under r x : heap_piece_is_plain r = true -> forall e, ~ under (set_end e r) x.
Proof. intros (_ & _ & _ & _ & _ & _ & _ & _ & _ & Hl & _)%heap_piece_true e [Hu _]. unfold region_has_live_overlay in *. cbn in Hu. congruence. Qed.

(** Widening the piece that ends at the old break. *)
Lemma widen_spec (g : tracker H) j r old new : tracker_wf g -> ok g -> old < new -> new <= VA_TOP ->
  Forall (fun r => r_end r <= old \/ new <= r_start r) (regions g) ->
  regions g !! j = Some r -> r_end r = old -> heap_piece_is_plain r = true ->
  let g' := with_regions (<[j := set_end new r]> (regions g)) g in
  ok g' /\ (forall F, fd_inv F g -> fd_inv F g') /\ adds g g' old new (heap_attrs (r_vma_id r)).
Proof.
  intros [[Hc Hok] Hn] [Hcl Ht] Hlt Htop Hout Hj He Hp g'. pose proof (heap_piece_true r Hp) as (Hne & _).
  pose proof (take_drop_middle _ _ _ Hj) as El. set (pre := take j (regions g)) in *. set (post := drop (S j) (regions g)) in *.
  assert (<[j := set_end new r]> (regions g) = pre ++ set_end new r :: post) as Ei.
  { rewrite insert_take_drop by (by eapply lookup_lt_Some). done. }
  assert (length (<[j := set_end new r]> (regions g)) = nregions g) as Hlen by apply length_insert.
  subst g'. unfold overlays_ok, fd_inv, adds, tracker_wf, nregions, list_ok, with_regions in *. cbn [regions host regions_tracker_stale].
  rewrite Hlen, Ei. rewrite <- El in Hc, Hok, Hout, Hcl, Ht, Hn |- *. clear Ei El Hlen.
  rewrite Forall_app, Forall_cons_iff in Hok, Hout, Hcl. destruct Hok as (Hok1 & Hok2 & Hok3), Hout as (_ & _ & Hout), Hcl as (Hcl1 & _ & Hcl3).
  apply chain_app in Hc as [Hc1 (Hlo & _ & Hc2)]. split; [split|split; [|split; [split; [split|done]|split; [done|]]]].
  - rewrite Forall_app, Forall_cons_iff. split_and!; [done| |done]. intros x Hu. by destruct (plain_not_under r x Hp new).
  - intros x Hx. destruct (Ht x Hx) as [?|(q & Hq & Hu)]; [by left|right]. exists q. split; [|done].
    rewrite elem_of_app, elem_of_cons in *. destruct Hq as [?|[->|?]]; [by left| |by right; right].
    destruct (plain_not_under r x Hp (r_end r)). by destruct r.
  - intros F. apply owns_ext. intros x Hx. rewrite !fd_count_app. done.
  - apply chain_app. split; [done|]. split_and!; [done|cbn; lia|]. cbn [r_end set_end].
    destruct post as [|q post]; [done|]. destruct Hc2 as (A & B & C). apply Forall_cons_1 in Hout as [Hq _]. split; [lia|done].
  - rewrite Forall_app, Forall_cons_iff. split_and!; [done| |done]. destruct Hok2 as (A & B & C). split_and!; [exact A|exact Htop|exact C].
  - intros a. rewrite !view_app, !view_cons. unfold in_region. cbn [set_end r_start r_end].
    destruct Hok2 as (A & _). destruct ((old <=? a) && (a <? new)) eqn:Ein.
    + unbool. rewrite (proj2 (Z.leb_le _ _)), (proj2 (Z.ltb_lt _ _)) by lia. cbn [andb].
      assert (view pre a = None) as ->.
      { unfold view. destruct (region_at pre a) as [q|] eqn:Eq; [|done]. apply region_at_Some in Eq as [Hq Hin].
        unfold in_region in Hin. unbool. pose proof (chain_bounds _ _ _ Hc1 Hq). lia. }
      f_equal. rewrite <- (plain_attrs r a Hp) by (unfold VA_TOP, two64 in *; lia). done.
    + assert ((r_start r <=? a) && (a <? new) = (r_start r <=? a) && (a <? r_end r)) as -> by (clear -Ein Hne He Hlt; lia).
      done.
Qed.

Lemma add_overlays (g : tracker H) start end_ gpa prot flags off name fd inh vma rc g' : ok g ->
  guest_region_add_ex_owned_gpa g start end_ gpa prot flags off name fd inh vma = (rc, g') ->
  host g' = host g -> ok g'.
Proof.
  intros [Hcl Ht]. unfold guest_region_add_ex_owned_gpa. case_if.
  { intros [= _ <-]. cbn. intros Eh. unfold overlays_ok, tracked. cbn. by rewrite Eh. }
  destruct (if vma =? 0 then _ else _) as [v0 next].
  match goal with |- context [try_merge_right (_ ++ ?x :: _) _] => set (r := x) end.
  assert (forall x, ~ under r x) as Hr.
  { intros x [Hu _]. assert (r_overlay_active r = false) as E by (subst r; by repeat case_match).
    unfold region_has_live_overlay in Hu. by rewrite E in Hu. }
  clearbody r. set (i := region_lower_bound_start _ _). intros [= _ <-] _. clearbody i.
  match goal with |- overlays_ok _ _ _ (mk_tracker ?x _ _ _) => assert (Forall (clipped (H:=H)) x /\ still_under (regions g) x) as [C U] end.
  { eapply fuses_trans_under; [apply try_merge_left_fuses|]. eapply fuses_trans_under; [apply try_merge_right_fuses|].
    rewrite <- (take_drop i (regions g)) in Hcl. rewrite Forall_app in Hcl. destruct Hcl as [Hc1 Hc2]. split.
    - rewrite Forall_app, Forall_cons_iff. split_and!; [done| |done]. intros x Hu. by destruct (Hr x).
    - intros x q Hq Hu. exists q. split; [|done]. rewrite <- (take_drop i (regions g)), elem_of_app in Hq.
      rewrite elem_of_app, elem_of_cons. tauto. }
  split; [exact C|]. intros x Hx. cbn [regions host]. destruct (Ht x Hx) as [?|(q & Hq & Hu)]; [by left|right]. by apply (U x q).
Qed.

(** The record of a growth. *)
Lemma track_growth_spec (g : tracker H) old new limit adj : tracker_wf g -> ok g -> 0 <= old < new -> new < limit -> new <= VA_TOP ->
  brk_grow_limit c g old = (limit, adj) ->
  let g' := brk_track_growth c g adj old new in
  tracker_wf g' /\ ok g' /\ host g' = host g /\ (forall F, fd_inv F g -> fd_inv F g') /\
  ((regions_tracker_stale g' = true /\ regions g' = regions g) \/ exists v, adds g g' old new (heap_attrs v)).
Proof.
  intros W O Hon Hl Hv E. destruct (grow_limit_spec g old limit adj (proj1 W) ltac:(lia) E) as (_ & _ & Hfree & Hout & Hadj).
  unfold brk_track_growth. destruct adj as [j|].
  - destruct Hadj as (r & Hj & He & Hp). rewrite Hj.
    destruct (widen_spec g j r old new W O ltac:(lia) Hv) as (O' & F' & A'); [|done..|].
    { apply (list.Forall_impl _ _ _ (Hout ltac:(lia))). intros. lia. }
    split; [apply A'|]. split; [done|]. split; [done|]. split; [done|]. right. by eexists.
  - rewrite (proj2 (Z.ltb_lt _ _)) by lia. set (vma := match guest_region_find _ _ with Some r => _ | None => _ end). cbv zeta. clearbody vma.
    unfold guest_region_add_ex_owned. destruct (guest_region_add_ex_owned_gpa _ _ _ _ _ _ _ _ _ _ _) as [rc g'] eqn:Ea.
    assert (forall a, old <= a < new -> view (regions g) a = None) as Hfree' by (intros a Ha; apply Hfree; lia).
    pose proof (add_spec _ _ _ _ _ _ _ _ _ _ _ _ _ W Hon Hv Hfree' Ea) as Hs.
    assert (host g' = host g) as Eh by (by destruct Hs as [(_ & _ & _ & _ & _ & ->)|(_ & -> & _)]).
    pose proof (add_overlays _ _ _ _ _ _ _ _ _ _ _ _ _ O Ea Eh) as O'.
    assert (forall F, fd_inv F g -> fd_inv F g') as F'.
    { intros F HF'. eapply add_owns; [|exact Ea]. eapply owns_ext; [|exact HF']. intros x Hx. cbn. unfold one_fd. case_if; unbool; lia. }
    destruct Hs as [(-> & _ & Er & Es & _ & _)|(-> & _ & v & _ & A)]; cbn [Z.ltb Z.compare].
    + split; [|split; [exact O'|split; [exact Eh|split; [exact F'|by left]]]].
      unfold tracker_wf, nregions in *. cbn [set_stale regions]. by rewrite Er.
    + split; [apply A|]. split; [done|]. split; [done|]. split; [done|]. right. exists v. destruct A as (A1 & A2 & A3).
      split; [done|]. split; [done|]. intros a. rewrite A3. destruct ((old <=? a) && (a <? new)) eqn:Ein; [|done]. unbool. f_equal.
      unfold new_attrs, heap_attrs. f_equal.
      unfold add64, wrap64. replace (old + (a - old)) with a by lia. apply Z.mod_small. unfold VA_TOP, two64 in *. lia.
Qed.

(** ** The whole call *)

Context (others : list (Z * Z)).
#[local] Notation L := (e_layout c).

(** No file overlay reaches into [lo, hi). *)
Definition heap_plain (m : mm H) (lo hi : Z) : Prop :=
  (forall x, lo <= x < hi -> slab_backed (e_host_base c) (e_shm_fd c) (host (m_trk m)) x) /\
  Forall (fun r => r_start r < hi -> lo < r_end r -> region_has_live_overlay r = false) (regions (m_trk m)).

(** Dropping [s, e) from the tracker. *)
Lemma heap_trim m s e fd g rc g' : mm_ok c m -> 0 <= s < e -> heap_plain m s e ->
  guest_region_remove_prepare (m_trk m) s e = (0, fd, g) -> guest_region_remove_reserved g s e fd = (rc, g') ->
  mm_kept c others m (set_trk g' m) /\ removes (m_trk m) g' s e.
Proof.
  intros Hm Hse [_ Hq] E0 E1. apply (trim_kept c others m s e fd g rc g' (m_pt m) Hm Hse (mo_pt _ _ Hm)); [|done|done].
  intros r x _ Hr H1 H2 [Hu _]. rewrite list.Forall_forall in Hq. by rewrite (Hq r Hr H1 H2) in Hu.
Qed.

(** The outcome of moving the break to [new]. *)
Record brk_moved (m : mm H) (new : Z) (m' : mm H) : Prop := {
  bk_brk : m_brk m' = new;
  bk_range : e_brk_base c <= new < top;
  bk_free : m_brk m < new -> new < e_stack_base c /\ forall a, m_brk m <= a < new -> view (regions (m_trk m)) a = None;
  bk_track : m_brk m < new -> regions_tracker_stale (m_trk m') = false -> exists v, forall a, view (regions (m_trk m')) a =
    if (m_brk m <=? a) && (a <? new) then Some (heap_attrs v a) else view (regions (m_trk m)) a;
  bk_map va : m_brk m < new -> page_lo (m_brk m) <= va < page_hi new -> exists pa, vmap (m_pt m') va = Some (pa, MEM_PERM_RW);
  bk_out va : 0 <= va -> vmap (m_pt m') va = vmap (m_pt m) va \/ (m_brk m < new /\
    (page_lo (m_brk m) <= va < page_hi new \/
     ALIGN_2MIB_DOWN (page_lo (m_brk m)) <= va < ALIGN_2MIB_UP (page_hi new) /\ present (m_pt m) va = false));
  bk_tlb va : 0 <= va -> vmap (m_pt m') va <> vmap (m_pt m) va -> covers (cpu_tlbi_req (m_pt m')) va;
  bk_zero x : m_brk m <= x < new -> host_byte (host (m_trk m')) (e_host_base c + x) = 0;
  bk_shrink : new < m_brk m -> removes (m_trk m) (m_trk m') new (m_brk m);
  bk_stay : new = m_brk m -> e_brk_base c < new -> m_trk m' = m_trk m
}.

Context (Hbase : 0 <= e_brk_base c) (Hstack : e_stack_base c <= top) (Hstack4 : e_stack_base c mod PAGE_SIZE = 0).

Lemma page_bounds old new : 0 <= old < new -> new < e_stack_base c -> top <= 2 ^ 47 ->
  0 <= page_lo old <= old /\ new <= page_hi new <= top /\ page_lo old mod PAGE_SIZE = 0 /\ page_hi new mod PAGE_SIZE = 0.
Proof using Hstack Hstack4.
  intros Ho Hn Ht. unfold page_lo, page_hi. rewrite align_down_page, align_up_page by (unfold fits64, two64; lia).
  unfold PAGE_SIZE, GUEST_PAGE_SIZE in *. clear -Ho Hn Hstack Hstack4. zdm.
Qed.

(** Growth: tables, memory, tracker. *)
Lemma grow_spec m new limit adj : mm_ok c m -> e_brk_base c <= m_brk m < new -> new < limit ->
  new < top -> heap_plain m (m_brk m) new -> brk_grow_limit c (m_trk m) (m_brk m) = (limit, adj) ->
  exists rc s, ('(rc, s1) ← guest_extend_page_tables L (m_pt m) (page_lo (m_brk m)) (page_hi new) MEM_PERM_RW;
                if rc <? 0 then Some (rc, s1)
                else guest_update_perms L (regions (m_trk m)) s1 (page_lo (m_brk m)) (page_hi new) MEM_PERM_RW) = Some (rc, s) /\
    (rc <> 0 -> mm_kept c others m (set_pt s m)) /\ rc <= 0 /\
    let g := with_host (host_zero (host (m_trk m)) (e_host_base c + m_brk m) (new - m_brk m)%u64) (m_trk m) in
    let m' := set_brk new (set_pt s (set_trk (brk_track_growth c g adj (m_brk m) new) m)) in
    rc = 0 -> mm_kept c others m (set_brk (m_brk m) m') /\ brk_moved m new m'.
Proof using HMl Hbase Hstack Hstack4 HFr HP.
  intros Hm Hon Hl Ht [Hsl _] E. destruct (grow_limit_spec (m_trk m) (m_brk m) limit adj) as (_ & Hlim & Hfree & _);
    [apply Hm|lia|done|]. destruct (Hlim ltac:(lia)) as [_ Hls]. pose proof (lo_size _ (wf_layout _ _ (mo_pt _ _ Hm))) as Htop.
  destruct (page_bounds (m_brk m) new ltac:(lia) ltac:(lia) Htop) as (Hlo & Hhi & Hlo4 & Hhi4).
  destruct (extend_update_repermed c (regions (m_trk m)) (m_pt m) (page_lo (m_brk m)) (page_hi new) 3 (mo_pt _ _ Hm))
    as (rc & s & E' & R & Hlive); [lia|lia|done|done|done|].
  exists rc, s. split; [exact E'|]. split; [|split; [destruct (rp_rc _ _ _ _ _ _ _ _ _ R); lia|]].
  { intros _. split; try done. split; [apply Hm|apply R|apply Hm|apply Hm]. }
  cbv zeta. intros ->.
  assert ((new - m_brk m)%u64 = new - m_brk m) as -> by (apply sub64_small; unfold fits64, two64; lia).
  destruct (zero_one c (host (m_trk m)) (m_brk m) new ltac:(lia) Hsl) as ((Zb & Zs & Zo & Zf) & Zin & _).
  set (w := host_zero _ _ _) in *. set (g := with_host w (m_trk m)).
  assert (ok g) as Og.
  { destruct (mo_overlays _ _ Hm) as [A B]. split; [exact A|]. intros x Hx. unfold slab_backed. subst g. cbn [with_host host]. rewrite Zb. by apply B. }
  destruct (track_growth_spec g (m_brk m) new limit adj (mo_trk _ _ Hm) Og) as (W' & O' & Eh & F' & Hv);
    [lia|lia|unfold VA_TOP, two64; lia|exact E|]. set (g' := brk_track_growth c g adj (m_brk m) new) in *. subst g. cbn [with_host host regions] in *.
  split.
  - split; cbn [set_brk set_pt set_trk m_trk m_pt m_segs m_brk]; [split; [exact W'|apply R|apply Hm|exact O']| | |done|].
    + intros F HFd. apply F'. intros x Hx. cbn [with_host host regions]. rewrite (Zo x). by apply HFd.
    + congruence.
    + intros _. unfold held. rewrite Eh. cbn [with_host host]. by rewrite Zs.
  - split; cbn [set_brk set_pt set_trk m_trk m_pt m_segs m_brk]; [done|lia| | | | | | |lia|lia].
    + intros _. split; [lia|]. intros a Ha. apply Hfree. lia.
    + intros _ Hst. destruct Hv as [[Hs _]|(v & _ & _ & Hv)]; [congruence|]. exists v. exact Hv.
    + intros va _ Hin. pose proof (rp_in _ _ _ _ _ _ _ _ _ R va eq_refl Hin) as Hq. destruct (Hlive eq_refl va Hin) as [[pa q] Eq].
      rewrite Eq in *. exists pa. by destruct Hq as [_ ->].
    + intros va Hva. destruct (decide (page_lo (m_brk m) <= va < page_hi new)) as [Hin|Hout]; [right; split; [lia|by left]|].
      destruct (rp_out _ _ _ _ _ _ _ _ _ R va Hva Hout) as [?|(? & ? & _)]; [by left|right]. split; [lia|by right].
    + intros va. by apply (rp_tlb _ _ _ _ _ _ _ _ _ R).
    + intros x Hx. rewrite Eh. cbn [with_host host]. by apply Zin.
Qed.

(** A break that does not grow changes the tracker only. *)
Lemma lower_moved m new g : e_brk_base c <= new < top -> new <= m_brk m ->
  (new < m_brk m -> removes (m_trk m) g new (m_brk m)) -> (new = m_brk m -> e_brk_base c < new -> g = m_trk m) ->
  brk_moved m new (set_brk new (set_trk g m)).
Proof.
  intros Hr Hle R S. split; cbn [set_brk set_trk m_trk m_pt m_brk]; [done|done|intros; lia..| |done|intros; lia|done|done]. by left.
Qed.

Lemma brk_kept m m' b : mm_kept c others m m' -> mm_kept c others m (set_brk (m_brk m) (set_brk b m')).
Proof. intros [A B C D E]. split; try done. by destruct A. Qed.

Lemma heap_plain_mono m lo hi lo' hi' : heap_plain m lo hi -> lo <= lo' -> hi' <= hi -> heap_plain m lo' hi'.
Proof.
  intros [P1 P2] Hl Hh. split; [intros x Hx; apply P1; lia|]. apply (list.Forall_impl _ _ _ P2).
  intros q Hq H1 H2. apply Hq; lia.
Qed.

(** The result of a call: refused, or moved. *)
Definition brk_result (m : mm H) (addr r : Z) (m' : mm H) : Prop :=
  mm_kept c others m (set_brk (m_brk m) m') /\
  ((r = m_brk m /\ m_brk m' = m_brk m /\ regions (m_trk m') = regions (m_trk m)) \/ (r = addr /\ brk_moved m addr m')).

Lemma refused_result m m' addr : mm_kept c others m m' -> regions (m_trk m') = regions (m_trk m) -> brk_result m addr (m_brk m) m'.
Proof.
  intros K Er. split; [|left; split; [done|split; [apply K|done]]]. rewrite <- (mk_brk _ _ _ _ K) at 1.
  pose proof (brk_kept m m' (m_brk m) K) as K'. by rewrite <- (mk_brk _ _ _ _ K) in K' at 1.
Qed.

(** The tracker update of a break that does not grow. *)
Lemma lower_spec m new : mm_ok c m -> e_brk_base c <= new < top -> new <= m_brk m -> heap_plain m new (m_brk m + 1) ->
  let '(rc, fd, g) := if new <? m_brk m then guest_region_remove_prepare (m_trk m) new (m_brk m) else (0, -1, m_trk m) in
  let g' :=
    if new <? m_brk m then snd (guest_region_remove_reserved g new (m_brk m) fd)
    else if e_brk_base c <? new then g
    else snd (guest_region_remove g (e_brk_base c) (if e_brk_base c <? m_brk m then m_brk m else (e_brk_base c + 1)%u64)) in
  if rc <? 0 then brk_result m new (m_brk m) (set_trk g m) else brk_result m new new (set_brk new (set_trk g' m)).
Proof using HMl Hbase HFr HP.
  intros Hm Hr Hle Hp. destruct (Z.ltb_spec new (m_brk m)) as [Hlt|Hge].
  - destruct (guest_region_remove_prepare (m_trk m) new (m_brk m)) as [[rc fd] g] eqn:E0.
    destruct (prepare_ok c others _ _ _ _ _ _ Hm E0) as (_ & _ & _ & _ & _ & _ & Hrc). cbv zeta.
    destruct (Z.ltb_spec rc 0) as [Hn|Hn].
    { destruct (prepare_failed c others _ _ _ _ _ _ Hm E0 Hn) as (K & Er & _). by apply refused_result. }
    assert (rc = 0) as -> by lia. destruct (guest_region_remove_reserved g new (m_brk m) fd) as [rc2 g'] eqn:E1.
    destruct (heap_trim m new (m_brk m) fd g rc2 g' Hm ltac:(lia)
      (heap_plain_mono _ _ _ new (m_brk m) Hp ltac:(lia) ltac:(lia)) E0 E1) as [K R].
    split; [by apply brk_kept|]. right. split; [done|]. apply lower_moved; [done..|lia].
  - cbv zeta. cbn [Z.ltb Z.compare]. split; [|right; split; [done|apply lower_moved; [done|lia|lia|]]].
    2:{ intros _ Hb. by rewrite (proj2 (Z.ltb_lt _ _)). }
    apply brk_kept. destruct (Z.ltb_spec (e_brk_base c) new) as [Hb|Hb]; [by destruct m; apply mm_kept_refl|].
    pose proof (lo_size _ (wf_layout _ _ (mo_pt _ _ Hm))). rewrite (proj2 (Z.ltb_ge _ _)), add64_small by (unfold fits64, two64; lia).
    unfold guest_region_remove. destruct (guest_region_remove_prepare (m_trk m) (e_brk_base c) (e_brk_base c + 1)) as [[rc fd] g] eqn:E0.
    destruct (prepare_ok c others _ _ _ _ _ _ Hm E0) as (_ & _ & _ & _ & _ & _ & Hrc).
    destruct (Z.ltb_spec rc 0) as [Hn|Hn]; [by apply (prepare_failed c others _ _ _ _ _ _ Hm E0)|].
    assert (rc = 0) as -> by lia. destruct (guest_region_remove_reserved g _ _ fd) as [rc2 g'] eqn:E1.
    by apply (heap_trim m (e_brk_base c) (e_brk_base c + 1) fd g rc2 g' Hm ltac:(lia)
      (heap_plain_mono _ _ _ (e_brk_base c) (e_brk_base c + 1) Hp ltac:(lia) ltac:(lia)) E0 E1).
Qed.

Lemma brk_spec m addr : mm_ok c m -> e_brk_base c <= m_brk m < two64 -> 0 <= addr < two64 ->
  heap_plain m (Z.min (m_brk m) addr) (Z.max (m_brk m) addr + 1) ->
  exists r m', sys_brk c m addr = Some (r, m') /\ brk_result m addr r m'.
Proof using HMl Hbase Hstack Hstack4 HFr HP.
  intros Hm Hb Ha Hp. unfold sys_brk. cbv zeta. pose proof (wf_layout _ _ (mo_pt _ _ Hm)) as HL. pose proof (lo_size _ HL).
  rewrite (lo_base _ HL), !sub64_0_r, !add64_0_l by (unfold fits64; lia).
  assert (exists r m', Some (m_brk m, m) = Some (r, m') /\ brk_result m addr r m') as Hno.
  { eexists _, _. split; [done|]. by apply refused_result; [apply mm_kept_refl|]. }
  destruct (addr =? 0); [exact Hno|]. destruct (Z.ltb_spec addr (e_brk_base c)); [exact Hno|].
  destruct (Z.leb_spec (guest_size L) addr); [exact Hno|].
  destruct (Z.ltb_spec (m_brk m) addr) as [Hg|Hg]; cbn [andb].
  - destruct (brk_grow_limit c (m_trk m) (m_brk m)) as [limit adj] eqn:El. destruct (Z.leb_spec limit addr); [exact Hno|].
    rewrite (proj2 (Z.ltb_ge addr _)) by lia. cbn [Z.ltb Z.compare].
    change (ALIGN_DOWN (m_brk m) GUEST_PAGE_SIZE) with (page_lo (m_brk m)). change (PAGE_ALIGN_UP addr) with (page_hi addr).
    destruct (grow_spec m addr limit adj Hm ltac:(lia) ltac:(lia) ltac:(lia) (heap_plain_mono _ _ _ (m_brk m) addr Hp ltac:(lia) ltac:(lia)) El)
      as (rc & s & -> & Hf & Hrc & Hs). run.
    destruct (Z.ltb_spec rc 0) as [Hn|Hn].
    { eexists _, _. split; [done|]. apply (refused_result m (set_pt s (set_trk (m_trk m) m))); [exact (Hf ltac:(lia))|done]. }
    destruct (Hs ltac:(lia)) as [K M]. rewrite (proj2 (Z.ltb_lt (e_brk_base c) addr)) by lia.
    eexists _, _. split; [done|]. split; [exact K|]. right. split; [done|exact M].
  - pose proof (lower_spec m addr Hm ltac:(lia) Hg (heap_plain_mono _ _ _ addr (m_brk m + 1) Hp ltac:(lia) ltac:(lia))) as S.
    destruct (if addr <? m_brk m then _ else _) as [[rc fd] g] eqn:E0. cbv zeta in S. destruct (Z.ltb_spec rc 0).
    { eexists _, _. split; [done|]. exact S. }
    run. eexists _, _. split; [done|]. cbn [brk_track_growth].
    rewrite (proj2 (Z.ltb_ge (m_brk m) addr)) by lia. exact S.
Qed.
End Brk.
