(* ===== verification/BrkSpecs.v ===== *)
(** * Moving the break: theorems

    What [sys_brk] promises on any host that keeps its laws, and what a shrink
    does to a file mapping inside the heap. *)

From S2P Require Import Prelude Tlbi Regions RegionFacts HostFds RegionSplit Gap PageTable DescFacts PtStruct PtView PtOps PtPages PtSpecs Gva Backing BackingSpecs Segments SegFacts SegSpecs Overlay OverlayFacts Mm MunmapFacts MiniHost MunmapSpecs ProtFacts BrkFacts.

Import MiniHost SlabVm.

(** ** Theorems *)

(** C20: for every argument [sys_brk] returns, and while no file overlay reaches
    into the memory between the old and the requested break the state invariant,
    the descriptors, the host files and the stage-2 account are kept.  It either
    refuses, returning the old break with break and regions unchanged, or
    returns the requested one.  A granted growth stays below the stack and meets
    no tracked mapping; the new bytes are zero and mapped read-write, the tracker
    records exactly them as private anonymous [heap] memory (or is marked
    stale), changed translations are covered by the pending TLBI request, and no
    page outside the range changes except absent 2 MiB blocks at its ends.  A
    shrink removes exactly the released range from the tracker. *)
Theorem sys_brk_correct {H}
    `{HE : HostEnv H, HP : !HostPageOk H, HF : !HostFdLaws H, HVm : !HostVm H, HVl : !HostVmLaws H,
      HSl : !HostSlab H, HSll : !HostSlabLaws H, HMs : !HostMemset H, HFr : !HostFrame H}
    (c : mm_env) `{HMl : !HostMemsetLaws H (e_shm_fd c)} (others : list (Z * Z)) (m : mm H) (addr : Z) :
  0 <= e_brk_base c -> e_stack_base c <= guest_size (e_layout c) -> e_stack_base c mod PAGE_SIZE = 0 ->
  mm_ok c m -> e_brk_base c <= m_brk m < two64 -> 0 <= addr < two64 ->
  heap_plain c m (Z.min (m_brk m) addr) (Z.max (m_brk m) addr + 1) ->
  exists r m', sys_brk c m addr = Some (r, m') /\ brk_result c others m addr r m'.
Proof. intros. by apply brk_spec. Qed.

(** The example's break moves up by two pages. *)
Lemma sys_brk_correct_witness : exists m',
  sys_brk ex_env ex_mm 20979712 = Some (20979712, m') /\
  exists v, view (regions (m_trk m')) 20975616 = Some (heap_attrs v 20975616).
Proof.
  destruct (sys_brk_correct ex_env [] ex_mm 20979712) as (r & m' & E & _ & R);
    [done..|exact ex_mm_ok|done|done| |].
  { split.
    - change (Z.min (m_brk ex_mm) 20979712) with 20971520. change (Z.max (m_brk ex_mm) 20979712 + 1) with 20979713.
      intros x Hx. unfold slab_backed. cbn. rewrite (proj2 (andb_false_iff _ _)); [done|]. rewrite Z.leb_gt, Z.ltb_ge. lia.
    - constructor; [|constructor; [|constructor]]; vm_compute; congruence. }
  assert (option_map (fun p => (fst p, regions_tracker_stale (m_trk (snd p)))) (sys_brk ex_env ex_mm 20979712) =
    Some (20979712, false)) as X by (vm_compute; reflexivity).
  rewrite E in X. cbn [option_map fst snd] in X. apply (inj Some) in X. apply pair_equal_spec in X as [-> X2].
  exists m'. split; [exact E|]. destruct R as [(A & _)|[_ M]]; [vm_compute in A; discriminate A|].
  destruct (bk_track _ _ _ _ M) as [v Hv]; [reflexivity|exact X2|]. exists v. rewrite Hv. reflexivity.
Defined.

(** ** A file mapping inside the heap

    The example guest with the break above its shared mapping, as after a fixed
    shared mapping over part of the heap. *)

Definition ex_mm_heap : mm host_t := set_brk 33570816 ex_mm.

(** shrinking the break below a shared file mapping forgets the mapping but
    leaves the file attached to the memory; growing the break again zeroes those
    bytes through the file. *)
Theorem brk_regrow_zeroes_file : mm_ok ex_env ex_mm_heap /\ exists m1 m2,
  sys_brk ex_env ex_mm_heap 33554432 = Some (33554432, m1) /\
  view (regions (m_trk m1)) 33554432 = None /\
  host_backing (host (m_trk m1)) (e_host_base ex_env + 33554432) = Some (5, 8192) /\
  sys_brk ex_env m1 33562624 = Some (33562624, m2) /\
  host_files (host (m_trk ex_mm_heap)) = [] /\
  host_files (host (m_trk m2)) = [(e_host_base ex_env + 33554432, 8192)].
Proof.
  split; [by destruct ex_mm_ok|].
  assert (option_map (fun p => (fst p, view (regions (m_trk (snd p))) 33554432,
      host_backing (host (m_trk (snd p))) (e_host_base ex_env + 33554432),
      option_map (fun q => (fst q, host_files (host (m_trk (snd q))))) (sys_brk ex_env (snd p) 33562624)))
    (sys_brk ex_env ex_mm_heap 33554432) =
    Some (33554432, None, Some (5, 8192), Some (33562624, [(e_host_base ex_env + 33554432, 8192)]))) as X
    by (vm_compute; reflexivity).
  destruct (sys_brk ex_env ex_mm_heap 33554432) as [[r m1]|]; [|discriminate X].
  cbn [option_map fst snd] in X. apply (inj Some) in X. apply pair_equal_spec in X as [X X4].
  apply pair_equal_spec in X as [X X3]. apply pair_equal_spec in X as [X1 X2].
  destruct (sys_brk ex_env m1 33562624) as [[r2 m2]|] eqn:E2; [|discriminate X4].
  cbn [option_map fst snd] in X4. apply (inj Some) in X4. apply pair_equal_spec in X4 as [X4 X5].
  exists m1, m2. rewrite X1. rewrite X4 in E2. split; [reflexivity|]. split; [exact X2|]. split; [exact X3|]. split; [exact E2|].
  split; [reflexivity|exact X5].
Qed.

(** ** The break at its base

    A one-page mapping placed at the base of a heap that was never grown. *)

Definition ex_at_base : guest_region_t := mk_region 20971520 20975616 20971520 2 3 34 0 (-1) false false false false false 0 0 "".

Definition ex_mm_base : mm host_t := set_trk (mk_tracker [ex_at_base] 5 false ex_host) ex_mm.

(** [brk] of the current break, at the base, drops the first byte of the mapping
    that starts there. *)
Lemma brk_at_base_cuts_mapping :
  option_map (fun p => (fst p, map (fun r => (r_start r, r_end r)) (regions (m_trk (snd p))))) (sys_brk ex_env ex_mm_base 20971520) =
  Some (20971520, [(20971521, 20975616)]).
Proof. vm_compute. reflexivity. Qed.
