(* ===== verification/Threads.v ===== *)
(** * Deferred stack unmaps (src/runtime/thread.c)

    A munmap that meets the live stack of a thread does not remove it: the range
    is noted in the thread's table of deferred unmaps and removed when the thread
    exits.  [thread_entry_t] holds the fields of a slot these operations use; the
    two arrays of a table and its count are one list.  Every function runs under
    [thread_lock], so it is one step; a wait on the condition variable, after
    which the function starts over, is [None]. *)

From S2P Require Import Prelude.

Definition MAX_THREADS : nat := 64.
Definition MAX_DEFERRED_STACK_UNMAPS : nat := 8.

Record thread_entry_t := mk_thread {
  t_active : bool;
  t_guest_tid : Z;
  t_stack_map_start : Z;
  t_stack_map_end : Z;
  t_deferred : list (Z * Z);
  t_busy : Z
}.

Definition set_deferred (l : list (Z * Z)) (t : thread_entry_t) : thread_entry_t :=
  mk_thread (t_active t) (t_guest_tid t) (t_stack_map_start t) (t_stack_map_end t) l (t_busy t).
Definition set_busy (b : Z) (t : thread_entry_t) : thread_entry_t :=
  mk_thread (t_active t) (t_guest_tid t) (t_stack_map_start t) (t_stack_map_end t) (t_deferred t) b.

(** A transaction; [x_thread] is the slot the C pointer designates. *)
Record thread_deferred_stack_unmap_txn_t := mk_txn {
  x_thread : nat;
  x_guest_tid : Z;
  x_start : Z;
  x_end : Z;
  x_deferred : list (Z * Z)
}.

(** ** The table of one thread *)

(** The last entry moves into slot [i] and the count drops by one. *)
Definition swap_remove (i : nat) (l : list (Z * Z)) : list (Z * Z) :=
  let n := (length l - 1)%nat in
  match l !! n with
  | Some x => take n (<[i := x]> l)
  | None => l
  end.

(** The loop that absorbs touching entries; a pass through the body either moves
    on or drops an entry, so the length is enough fuel. *)
Fixpoint absorb (fuel i : nat) (start end_ : Z) (l : list (Z * Z)) : Z * Z * list (Z * Z) :=
  match fuel with
  | O => (start, end_, l)
  | S fuel =>
      match l !! i with
      | None => (start, end_, l)
      | Some (rs, re) =>
          if (end_ <? rs) || (re <? start) then absorb fuel (S i) start end_ l
          else absorb fuel i (if rs <? start then rs else start) (if end_ <? re then re else end_) (swap_remove i l)
      end
  end.

Definition thread_add_deferred_unmap_locked (t : thread_entry_t) (start end_ : Z) : Z * thread_entry_t :=
  if end_ <=? start then (0, t)
  else
    let '(start, end_, l) := absorb (length (t_deferred t)) 0 start end_ (t_deferred t) in
    if (MAX_DEFERRED_STACK_UNMAPS <=? length l)%nat then (-1, set_deferred l t)
    else (0, set_deferred (l ++ [(start, end_)]) t).

Definition thread_can_add_deferred_unmap_locked (t : thread_entry_t) (start end_ : Z) : Z :=
  if end_ <=? start then 0
  else if existsb (fun r => negb ((end_ <? fst r) || (snd r <? start))) (t_deferred t) then 0
  else if (length (t_deferred t) <? MAX_DEFERRED_STACK_UNMAPS)%nat then 0 else -1.

Definition thread_drop_deferred_stack_unmap (t : thread_entry_t) (start end_ : Z) : Z * thread_entry_t :=
  if end_ <=? start then (0, t)
  else
    match list_find (fun r => r = (start, end_)) (t_deferred t) with
    | Some (i, _) => (1, set_deferred (swap_remove i (t_deferred t)) t)
    | None => (0, t)
    end.

(** ** All threads *)

(** Pass 1: the transactions, or [-1] with those collected so far. *)
Fixpoint collect_pass (stop : bool) (start end_ : Z) (max_ranges i : nat) (ts : list thread_entry_t)
    (acc : list thread_deferred_stack_unmap_txn_t) : option (Z * list thread_deferred_stack_unmap_txn_t) :=
  match ts with
  | [] => Some (0, acc)
  | t :: ts =>
      if negb (t_active t) then collect_pass stop start end_ max_ranges (S i) ts acc
      else
        let rs := t_stack_map_start t in
        let re := t_stack_map_end t in
        if (re <=? rs) || (re <=? start) || (end_ <=? rs) then collect_pass stop start end_ max_ranges (S i) ts acc
        else if 0 <? t_busy t then (if stop then Some (-1, acc) else None)
        else if (max_ranges <=? length acc)%nat then Some (-1, acc)
        else
          let ds := if start <? rs then rs else start in
          let de := if re <? end_ then re else end_ in
          if thread_can_add_deferred_unmap_locked t ds de <? 0 then Some (-1, acc)
          else collect_pass stop start end_ max_ranges (S i) ts (acc ++ [mk_txn i (t_guest_tid t) ds de (t_deferred t)])
  end.

(** Pass 2: the commit. *)
Definition commit_txn (ts : list thread_entry_t) (x : thread_deferred_stack_unmap_txn_t) : list thread_entry_t :=
  alter (fun t => let t := snd (thread_add_deferred_unmap_locked t (x_start x) (x_end x)) in set_busy (t_busy t + 1) t)
    (x_thread x) ts.

(** [stop] is what [thread_stop_requested] answers. *)
Definition thread_collect_and_defer_stack_ranges (stop : bool) (ts : list thread_entry_t) (start end_ : Z) (max_ranges : nat)
    : option (Z * list thread_deferred_stack_unmap_txn_t * list thread_entry_t) :=
  if (end_ <=? start) || (max_ranges =? 0)%nat then Some (0, [], ts)
  else
    '(rc, txns) ← collect_pass stop start end_ max_ranges 0 ts [];
    if rc <? 0 then Some (-1, txns, ts)
    else Some (Z.of_nat (length txns), txns, foldl commit_txn ts txns).

(** The slot still belongs to the thread the transaction names. *)
Definition txn_valid (t : thread_entry_t) (x : thread_deferred_stack_unmap_txn_t) : bool :=
  t_active t && (t_guest_tid t =? x_guest_tid x).

Definition thread_finish_deferred_stack_ranges (ts : list thread_entry_t) (txns : list thread_deferred_stack_unmap_txn_t)
    : list thread_entry_t :=
  foldl (fun ts x => alter (fun t =>
    if negb (txn_valid t x) || (t_busy t <=? 0) then t else set_busy (t_busy t - 1) t) (x_thread x) ts) ts txns.

Definition thread_rollback_deferred_stack_ranges (ts : list thread_entry_t) (txns : list thread_deferred_stack_unmap_txn_t)
    : list thread_entry_t :=
  foldl (fun ts x => alter (fun t =>
    if negb (txn_valid t x) then t
    else
      let t := set_deferred (x_deferred x) t in
      if 0 <? t_busy t then set_busy (t_busy t - 1) t else t) (x_thread x) ts) ts txns.

(** On exit: the thread has no stack any more; its deferred ranges are returned. *)
Definition thread_prepare_deferred_stack_unmaps_for_cleanup (t : thread_entry_t) (max_ranges : nat)
    : option (list (Z * Z) * thread_entry_t) :=
  if (max_ranges =? 0)%nat then Some ([], t)
  else if 0 <? t_busy t then None
  else Some (take max_ranges (t_deferred t), mk_thread (t_active t) (t_guest_tid t) 0 0 (t_deferred t) (t_busy t)).
