(* ===== verification/ThreadFacts.v ===== *)
(** * Facts about deferred stack unmaps

    The table of a thread is a set of separated ranges; adding one takes the
    union.  Collecting, then rolling back, restores the threads exactly. *)

From Stdlib Require Import Sorting.Permutation.
From stdpp Require Import sets.
From S2P Require Import Prelude Threads.

(** ** Sets of separated ranges *)

Definition in_ranges (l : list (Z * Z)) (a : Z) : Prop := exists r, r ∈ l /\ fst r <= a < snd r.

(** Neither overlapping nor adjacent. *)
Definition apart (r q : Z * Z) : Prop := snd r < fst q \/ snd q < fst r.

Definition separated (l : list (Z * Z)) : Prop := ForallOrdPairs apart l.

Lemma in_ranges_cons r l a : in_ranges (r :: l) a <-> fst r <= a < snd r \/ in_ranges l a.
Proof.
  unfold in_ranges. split.
  - intros (q & [->|Hq]%elem_of_cons & Ha); [by left|right]. by exists q.
  - intros [Ha|(q & Hq & Ha)]; [exists r|exists q]; rewrite elem_of_cons; auto.
Qed.

Lemma in_ranges_perm l l' : l ≡ₚ l' -> forall a, in_ranges l a <-> in_ranges l' a.
Proof. intros Hp a. unfold in_ranges. by setoid_rewrite Hp. Qed.

Lemma separated_cons r l : separated (r :: l) <-> Forall (apart r) l /\ separated l.
Proof. split; [by inversion 1|]. intros [A B]. by constructor. Qed.

Lemma separated_perm l l' : l ≡ₚ l' -> separated l -> separated l'.
Proof.
  induction 1 as [|r l l' Hp IH|r q l|l1 l2 l3 _ IH1 _ IH2]; rewrite ?separated_cons, ?Forall_cons_iff; [done| | |tauto].
  - intros [A B]. split; [by rewrite <- Hp|by apply IH].
  - unfold apart. intuition lia.
Qed.

Lemma swap_remove_perm i l r : l !! i = Some r -> l ≡ₚ r :: swap_remove i l.
Proof.
  intros Hi. unfold swap_remove. destruct l as [|x0 l0] using rev_ind; [done|]. clear IHl0.
  rewrite length_app, Nat.add_sub, lookup_app_r, Nat.sub_diag by lia. cbn.
  destruct (decide (i < length l0)%nat) as [Hlt|Hge].
  - rewrite insert_app_l, take_app_length' by (rewrite ?length_insert; lia). rewrite lookup_app_l in Hi by done.
    rewrite (insert_take_drop l0 i x0 Hlt). rewrite <- (take_drop_middle l0 i r Hi) at 1. solve_Permutation.
  - apply lookup_lt_Some in Hi as Hi'. rewrite length_app in Hi'. cbn in Hi'. assert (i = length l0) as -> by lia.
    rewrite lookup_app_r, Nat.sub_diag in Hi by lia. injection Hi as <-.
    rewrite insert_app_r_alt, take_app_length by lia. solve_Permutation.
Qed.

Lemma swap_remove_take i l : (i < length l)%nat -> take i (swap_remove i l) = take i l.
Proof.
  intros Hi. unfold swap_remove. destruct (l !! (length l - 1)%nat) as [x|]; [|done].
  rewrite take_take, Nat.min_l, take_insert_ge by lia. done.
Qed.

Lemma swap_remove_length i l : (i < length l)%nat -> length (swap_remove i l) = (length l - 1)%nat.
Proof.
  intros Hi. destruct (lookup_lt_is_Some_2 l i Hi) as [r Hr]. apply swap_remove_perm, Permutation_length in Hr. cbn in Hr. lia.
Qed.

(** Absorbing the touching entries: the union is the same set, and what is left
    is apart from the widened candidate. *)
Lemma absorb_spec fuel : forall i s e l s' e' l', (length l - i <= fuel)%nat -> s < e ->
  Forall (fun r => fst r < snd r) l -> separated l -> Forall (apart (s, e)) (take i l) ->
  absorb fuel i s e l = (s', e', l') ->
  s' < e' /\ separated ((s', e') :: l') /\ Forall (fun r => fst r < snd r) l' /\
  (forall a, in_ranges ((s', e') :: l') a <-> in_ranges ((s, e) :: l) a) /\ (length l' <= length l)%nat /\
  (length l' = length l -> Forall (apart (s, e)) l).
Proof.
  induction fuel as [|fuel IH]; intros i s e l s' e' l' Hf Hse Hne Hsep Hap; cbn [absorb].
  { intros [= <- <- <-]. rewrite take_ge in Hap by lia. rewrite separated_cons. by split_and!. }
  destruct (l !! i) as [[rs re]|] eqn:Ei.
  2:{ intros [= <- <- <-]. apply lookup_ge_None in Ei. rewrite take_ge in Hap by lia. rewrite separated_cons. by split_and!. }
  assert (i < length l)%nat as Hi by (by eapply lookup_lt_Some).
  destruct (Z.ltb_spec e rs) as [H1|H1], (Z.ltb_spec re s) as [H2|H2]; cbn [orb].
  1-3: intros E; apply IH in E; [done|lia|done..|]; rewrite (take_S_r _ _ _ Ei), Forall_app; split; [done|];
    constructor; [unfold apart; cbn; lia|constructor].
  pose proof (swap_remove_perm _ _ _ Ei) as Hp. pose proof Hne as Hne0. pose proof Hsep as Hsep0.
  rewrite Hp in Hne0. apply (separated_perm _ _ Hp) in Hsep0. apply Forall_cons_1 in Hne0 as [Hr Hne0]. cbn in Hr.
  apply separated_cons in Hsep0 as [Har Hsep0]. set (l1 := swap_remove i l) in *.
  assert (take i l1 = take i l) as Et by (by apply swap_remove_take).
  assert (length l1 = (length l - 1)%nat) as El by (by apply swap_remove_length).
  intros E. apply IH in E as (A & B & C & D & F & _); [|lia|case_if; case_if; lia|done|done|].
  - split_and!; [done..| |lia|lia]. intros a. rewrite D, !in_ranges_cons, (in_ranges_perm _ _ Hp a), in_ranges_cons. cbn [fst snd].
    assert ((if rs <? s then rs else s) <= a < (if e <? re then re else e) <-> (s <= a < e \/ rs <= a < re)) as ->; [|tauto].
    case_if; case_if; unbool; lia.
  - rewrite Et. rewrite <- Et in Hap |- *. apply list.Forall_forall. intros q Hq. rewrite list.Forall_forall in Hap. specialize (Hap q Hq).
    assert (q ∈ l1) as Hq1 by (rewrite <- (take_drop i l1), elem_of_app; by left).
    rewrite list.Forall_forall in Har, Hne0. specialize (Har q Hq1). specialize (Hne0 q Hq1). unfold apart in *. cbn [fst snd] in *. case_if; case_if; unbool; lia.
Qed.

(** ** One thread *)

(** The invariant of a table. *)
Record table_ok (l : list (Z * Z)) : Prop := {
  tb_nonempty : Forall (fun r => fst r < snd r) l;
  tb_separated : separated l;
  tb_length : (length l <= MAX_DEFERRED_STACK_UNMAPS)%nat
}.

Lemma add_deferred_spec t s e : table_ok (t_deferred t) -> s < e ->
  thread_can_add_deferred_unmap_locked t s e = 0 ->
  exists l, thread_add_deferred_unmap_locked t s e = (0, set_deferred l t) /\ table_ok l /\
    forall a, in_ranges l a <-> s <= a < e \/ in_ranges (t_deferred t) a.
Proof.
  intros [Hne Hs Hl] Hse Hcan. unfold thread_add_deferred_unmap_locked, thread_can_add_deferred_unmap_locked in *.
  rewrite (proj2 (Z.leb_gt _ _)) in * by done.
  destruct (absorb _ _ _ _ _) as [[s' e'] l'] eqn:E.
  apply absorb_spec in E as (A & B & C & D & F & G); [|lia|done|done|done|constructor].
  assert (length l' < MAX_DEFERRED_STACK_UNMAPS)%nat as Hlt.
  { destruct (existsb _ _) eqn:Ex.
    - destruct (decide (length l' = length (t_deferred t))) as [El|]; [|lia]. specialize (G El). apply existsb_exists in Ex as (r & Hr & Hb).
      rewrite Forall_forall in G. specialize (G r Hr). unfold apart in G. cbn [fst snd] in G. unbool. lia.
    - destruct (Nat.ltb_spec (length (t_deferred t)) MAX_DEFERRED_STACK_UNMAPS); [lia|done]. }
  rewrite (proj2 (Nat.leb_gt _ _)) by done. exists (l' ++ [(s', e')]).
  assert (l' ++ [(s', e')] ≡ₚ (s', e') :: l') as Hp by solve_Permutation. split; [done|]. split.
  - split; [rewrite Hp; by constructor|by apply (separated_perm _ _ (symmetry Hp))|rewrite length_app; cbn; lia].
  - intros a. by rewrite (in_ranges_perm _ _ Hp a), D, in_ranges_cons.
Qed.

Lemma drop_deferred_spec t s e : table_ok (t_deferred t) -> s < e ->
  let '(rc, t') := thread_drop_deferred_stack_unmap t s e in
  table_ok (t_deferred t') /\ t' = set_deferred (t_deferred t') t /\
  if decide ((s, e) ∈ t_deferred t) then rc = 1 /\ t_deferred t ≡ₚ (s, e) :: t_deferred t' else rc = 0 /\ t' = t.
Proof.
  intros [Hne Hs Hl] Hse. unfold thread_drop_deferred_stack_unmap. rewrite (proj2 (Z.leb_gt _ _)) by done.
  destruct (list_find _ _) as [[i r]|] eqn:E.
  - apply list_find_Some in E as (Hi & -> & _). rewrite decide_True by (by eapply list_elem_of_lookup_2).
    pose proof (swap_remove_perm _ _ _ Hi) as Hp. cbn [t_deferred set_deferred]. split; [|by split].
    pose proof (Permutation_length Hp) as Hlen. cbn in Hlen. pose proof Hs as Hs'. apply (separated_perm _ _ Hp), separated_cons in Hs' as [_ ?].
    rewrite Hp, Forall_cons_iff in Hne. split; [apply Hne|done|lia].
  - apply list_find_None in E. rewrite list.Forall_forall in E. split; [done|]. split; [by destruct t|].
    rewrite decide_False; [done|]. intros Hin. by apply (E _ Hin).
Qed.

(** ** All threads *)

(** A fold of updates at distinct slots. *)
Lemma fold_alter {X T} (f : X -> T -> T) (key : X -> nat) xs : NoDup (map key xs) -> forall (ts : list T) i,
  let ts' := foldl (fun ts x => alter (f x) (key x) ts) ts xs in
  (forall x, x ∈ xs -> key x = i -> ts' !! i = f x <$> ts !! i) /\
  ((forall x, x ∈ xs -> key x <> i) -> ts' !! i = ts !! i).
Proof.
  induction xs as [|x xs IH]; intros Hnd ts i; cbn [foldl map] in *; [split; [intros x Hx; by apply elem_of_nil in Hx|done]|].
  apply list.NoDup_cons in Hnd as [Hx Hnd]. destruct (IH Hnd (alter (f x) (key x) ts) i) as [A B]. split.
  - intros y [->|Hy]%elem_of_cons Hk.
    + rewrite B; [by rewrite <- Hk, list_lookup_alter_eq|]. intros z Hz Hkz. apply Hx. rewrite Hk, <- Hkz. by apply list_elem_of_fmap_2.
    + rewrite (A y Hy Hk), list_lookup_alter_ne; [done|]. intros Heq. apply Hx. rewrite Heq, <- Hk. by apply list_elem_of_fmap_2.
  - intros Hno. rewrite B; [|intros y Hy; apply Hno, elem_of_cons; by right]. apply list_lookup_alter_ne, Hno, elem_of_cons. by left.
Qed.

Definition on_stack (t : thread_entry_t) (a : Z) : Prop :=
  t_active t = true /\ t_stack_map_start t <= a < t_stack_map_end t.

(** The transaction for the thread in slot [i], if its stack meets the range. *)
Definition txn_of (start end_ : Z) (i : nat) (t : thread_entry_t) : option thread_deferred_stack_unmap_txn_t :=
  let rs := t_stack_map_start t in
  let re := t_stack_map_end t in
  if negb (t_active t) || (re <=? rs) || (re <=? start) || (end_ <=? rs) then None
  else Some (mk_txn i (t_guest_tid t) (Z.max rs start) (Z.min re end_) (t_deferred t)).

Fixpoint txns_from (start end_ : Z) (i : nat) (ts : list thread_entry_t) : list thread_deferred_stack_unmap_txn_t :=
  match ts with
  | [] => []
  | t :: ts =>
      match txn_of start end_ i t with
      | Some x => x :: txns_from start end_ (S i) ts
      | None => txns_from start end_ (S i) ts
      end
  end.

Lemma txns_from_elem start end_ ts : forall i x, x ∈ txns_from start end_ i ts <->
  exists j t, ts !! j = Some t /\ txn_of start end_ (i + j) t = Some x.
Proof.
  induction ts as [|t ts IH]; intros i x; cbn [txns_from].
  { split; [by intros ?%elem_of_nil|]. by intros (j & t & Hj & _). }
  assert (x ∈ txns_from start end_ (S i) ts <-> exists j t', (t :: ts) !! S j = Some t' /\ txn_of start end_ (i + S j) t' = Some x) as IH'.
  { rewrite IH. split; intros (j & t' & Hj & Hx); exists j, t'; (split; [exact Hj|]); by rewrite <- Nat.add_succ_comm in *. }
  transitivity (txn_of start end_ i t = Some x \/ x ∈ txns_from start end_ (S i) ts).
  { destruct (txn_of start end_ i t) as [y|]; [|naive_solver]. rewrite elem_of_cons. naive_solver. }
  rewrite IH'. split.
  - intros [Hx|(j & t' & Hj & Hx)]; [exists 0%nat, t; by rewrite Nat.add_0_r|by exists (S j), t'].
  - intros ([|j] & t' & Hj & Hx); [left|right; by exists j, t']. injection Hj as <-. by rewrite Nat.add_0_r in Hx.
Qed.

Lemma txn_of_Some start end_ i t x : start < end_ -> txn_of start end_ i t = Some x ->
  x_thread x = i /\ x_guest_tid x = t_guest_tid t /\ x_deferred x = t_deferred t /\ t_active t = true /\
  start <= x_start x < x_end x /\ x_end x <= end_ /\ (x_start x = start \/ x_start x = t_stack_map_start t) /\
  (x_end x = end_ \/ x_end x = t_stack_map_end t) /\
  forall a, x_start x <= a < x_end x <-> on_stack t a /\ start <= a < end_.
Proof.
  intros Hse. unfold txn_of, on_stack. destruct (_ || _) eqn:E; [done|]. intros [= <-]. cbn. unbool.
  destruct (t_active t); [|done]. split_and!; try done; try lia.
Qed.

Lemma txns_from_NoDup start end_ ts : start < end_ -> forall i, NoDup (map x_thread (txns_from start end_ i ts)).
Proof.
  intros Hse. induction ts as [|t ts IH]; intros i; cbn [txns_from map]; [by apply list.NoDup_nil|].
  destruct (txn_of start end_ i t) as [x|] eqn:E; [|apply IH]. cbn [map]. apply list.NoDup_cons. split; [|apply IH].
  intros (y & Hy & (j & t' & _ & Ht)%txns_from_elem)%list_elem_of_fmap.
  apply txn_of_Some in E as [Ex _]; [|done]. apply txn_of_Some in Ht as [Ey _]; [|done]. lia.
Qed.

(** Between calls no transaction is in flight. *)
Definition thread_ok (t : thread_entry_t) : Prop := table_ok (t_deferred t) /\ t_busy t = 0.

Lemma collect_pass_spec stop start end_ max ts : start < end_ -> Forall thread_ok ts -> forall i acc,
  (length acc + length ts <= max)%nat ->
  exists rc txns, collect_pass stop start end_ max i ts acc = Some (rc, txns) /\
    (rc = -1 \/ (rc = 0 /\ txns = acc ++ txns_from start end_ i ts /\
     forall j t x, ts !! j = Some t -> txn_of start end_ (i + j) t = Some x ->
       thread_can_add_deferred_unmap_locked t (x_start x) (x_end x) = 0)).
Proof.
  intros Hse Hok. induction Hok as [|t ts [_ Hb] Hok IH]; intros i acc Hlen; cbn [collect_pass txns_from length] in *.
  { exists 0, acc. split; [done|]. right. rewrite app_nil_r. split; [done|]. split; [done|]. by intros j. }
  assert (txn_of start end_ i t = None -> exists rc txns, collect_pass stop start end_ max (S i) ts acc = Some (rc, txns) /\
    (rc = -1 \/ (rc = 0 /\ txns = acc ++ txns_from start end_ (S i) ts /\
     forall j t' x, (t :: ts) !! j = Some t' -> txn_of start end_ (i + j) t' = Some x ->
       thread_can_add_deferred_unmap_locked t' (x_start x) (x_end x) = 0))) as Hskip.
  { intros Hn. destruct (IH (S i) acc ltac:(lia)) as (rc & txns & E & R). exists rc, txns. split; [done|].
    destruct R as [?|(? & ? & R)]; [by left|right]. split; [done|]. split; [done|]. intros [|j] t' x Hj Hx.
    - injection Hj as <-. rewrite Nat.add_0_r in Hx. congruence.
    - rewrite Nat.add_succ_r in Hx. exact (R j t' x Hj Hx). }
  unfold txn_of in *. destruct (t_active t) eqn:Ea; cbn [negb orb] in *; [|by apply Hskip].
  destruct (_ || _ || _) eqn:Eo; [by apply Hskip|]. clear Hskip. rewrite Hb. cbn [Z.ltb Z.compare].
  rewrite (proj2 (Nat.leb_gt _ _)) by lia.
  assert ((if start <? t_stack_map_start t then t_stack_map_start t else start) = Z.max (t_stack_map_start t) start) as -> by (case_if; lia).
  assert ((if t_stack_map_end t <? end_ then t_stack_map_end t else end_) = Z.min (t_stack_map_end t) end_) as -> by (case_if; lia).
  destruct (Z.ltb_spec (thread_can_add_deferred_unmap_locked t (Z.max (t_stack_map_start t) start) (Z.min (t_stack_map_end t) end_)) 0) as [Hc|Hc].
  { eexists _, _. split; [done|]. by left. }
  set (x0 := mk_txn i _ _ _ _). destruct (IH (S i) (acc ++ [x0])) as (rc & txns & E & R); [rewrite length_app; cbn; lia|].
  exists rc, txns. split; [done|]. destruct R as [?|(? & -> & R)]; [by left|right]. split; [done|]. rewrite <- app_assoc. split; [done|].
  intros [|j] t' x Hj Hx.
  - injection Hj as <-. rewrite Nat.add_0_r, Ea in Hx. cbn [negb orb] in Hx. rewrite Eo in Hx. injection Hx as <-. cbn.
    unfold thread_can_add_deferred_unmap_locked in Hc |- *. by repeat case_match.
  - rewrite Nat.add_succ_r in Hx. exact (R j t' x Hj Hx).
Qed.

(** What a completed munmap of [start, end_) leaves in a thread. *)
Definition deferred_over (start end_ : Z) (t t' : thread_entry_t) : Prop :=
  exists l, t' = set_deferred l t /\ table_ok l /\
    forall a, in_ranges l a <-> in_ranges (t_deferred t) a \/ (on_stack t a /\ start <= a < end_).

Lemma commit_slot start end_ i t x : thread_ok t -> start < end_ -> txn_of start end_ i t = Some x ->
  thread_can_add_deferred_unmap_locked t (x_start x) (x_end x) = 0 ->
  let t1 := set_busy (t_busy (snd (thread_add_deferred_unmap_locked t (x_start x) (x_end x))) + 1)
              (snd (thread_add_deferred_unmap_locked t (x_start x) (x_end x))) in
  (if negb (txn_valid t1 x) then t1
   else
     let t2 := set_deferred (x_deferred x) t1 in
     if 0 <? t_busy t2 then set_busy (t_busy t2 - 1) t2 else t2) = t /\
  deferred_over start end_ t (if negb (txn_valid t1 x) || (t_busy t1 <=? 0) then t1 else set_busy (t_busy t1 - 1) t1).
Proof.
  intros [Ht Hb] Hse Hx Hc. apply txn_of_Some in Hx as (_ & Htid & Hd & Ha & H1 & H2 & _ & _ & Hin); [|done].
  destruct (add_deferred_spec t (x_start x) (x_end x) Ht ltac:(lia) Hc) as (l & -> & Hl & Hu). cbn [snd]. cbv zeta.
  unfold txn_valid. cbn [set_busy set_deferred t_active t_guest_tid t_busy t_deferred]. rewrite Ha, Htid, Hb, Z.eqb_refl, Hd. cbn.
  destruct t; cbn in *; subst. split; [done|]. exists l. split; [done|]. split; [done|].
  intros a. rewrite Hu, Hin. tauto.
Qed.

(** Collecting never waits between calls; it refuses without a change, or the
    transactions are the parts of live stacks in the range, a rollback restores
    the threads exactly, and finishing leaves exactly those parts deferred. *)
Lemma defer_spec stop start end_ ts : start < end_ -> Forall thread_ok ts -> (length ts <= MAX_THREADS)%nat ->
  exists rc txns ts', thread_collect_and_defer_stack_ranges stop ts start end_ MAX_THREADS = Some (rc, txns, ts') /\
    ((rc = -1 /\ ts' = ts) \/
     (rc = Z.of_nat (length txns) /\ txns = txns_from start end_ 0 ts /\
      thread_rollback_deferred_stack_ranges ts' txns = ts /\
      Forall2 (deferred_over start end_) ts (thread_finish_deferred_stack_ranges ts' txns))).
Proof.
  intros Hse Hok Hlen. unfold thread_collect_and_defer_stack_ranges. rewrite (proj2 (Z.leb_gt _ _)) by done. cbn [orb Nat.eqb MAX_THREADS].
  destruct (collect_pass_spec stop start end_ MAX_THREADS ts Hse Hok 0 []) as (rc & txns & -> & R); [done|]. run.
  destruct R as [->|(-> & -> & Hcan)]; [eexists _, _, _; split; [done|by left]|]. cbn [Z.ltb Z.compare app].
  eexists _, _, _. split; [done|]. right. split; [done|]. split; [done|].
  pose proof (txns_from_NoDup start end_ ts Hse 0) as Hnd. set (txns := txns_from start end_ 0 ts) in *.
  assert (forall i, (exists t x, ts !! i = Some t /\ txn_of start end_ i t = Some x /\ x ∈ txns /\ x_thread x = i) \/
    ((forall x, x ∈ txns -> x_thread x <> i) /\ forall t, ts !! i = Some t -> txn_of start end_ i t = None)) as Hslot.
  { intros i. destruct (ts !! i) as [t|] eqn:Et; [destruct (txn_of start end_ i t) as [x|] eqn:Ex|].
    - left. exists t, x. split; [done|]. split; [done|]. split; [apply txns_from_elem; by exists i, t|by apply txn_of_Some in Ex as [? _]].
    - right. split; [|by intros t' [= <-]]. intros x (j & t' & Hj & Hx)%txns_from_elem. pose proof Hx as [Ej _]%txn_of_Some; [|done].
      intros Hi. cbn in Ej. assert (j = i) as -> by lia. simplify_eq. cbn in Hx. congruence.
    - right. split; [|done]. intros x (j & t' & Hj & Hx)%txns_from_elem. apply txn_of_Some in Hx as [Ej _]; [|done].
      intros Hi. cbn in Ej. assert (j = i) as -> by lia. congruence. }
  unfold thread_rollback_deferred_stack_ranges, thread_finish_deferred_stack_ranges, commit_txn. split.
  - apply list_eq. intros i. destruct (Hslot i) as [(t & x & Et & Ex & Hx & Hi)|[Hno _]].
    + rewrite (proj1 (fold_alter _ x_thread txns Hnd _ i) x Hx Hi), (proj1 (fold_alter _ x_thread txns Hnd _ i) x Hx Hi), Et. cbn [fmap option_fmap option_map].
      f_equal. rewrite Forall_lookup in Hok. by apply (commit_slot start end_ i t x (Hok i t Et) Hse Ex), (Hcan i).
    + by rewrite (proj2 (fold_alter _ x_thread txns Hnd _ i) Hno), (proj2 (fold_alter _ x_thread txns Hnd _ i) Hno).
  - apply Forall2_lookup. intros i. destruct (Hslot i) as [(t & x & Et & Ex & Hx & Hi)|[Hno Hn]].
    + rewrite (proj1 (fold_alter _ x_thread txns Hnd _ i) x Hx Hi), (proj1 (fold_alter _ x_thread txns Hnd _ i) x Hx Hi), Et. cbn [fmap option_fmap option_map].
      constructor. rewrite Forall_lookup in Hok. by apply (commit_slot start end_ i t x (Hok i t Et) Hse Ex), (Hcan i).
    + rewrite (proj2 (fold_alter _ x_thread txns Hnd _ i) Hno), (proj2 (fold_alter _ x_thread txns Hnd _ i) Hno).
      destruct (ts !! i) as [t|] eqn:Et; constructor. rewrite Forall_lookup in Hok. destruct (Hok i t Et) as [Ht _].
      exists (t_deferred t). split; [by destruct t|]. split; [done|]. intros a. specialize (Hn t eq_refl). unfold txn_of in Hn.
      destruct (_ || _) eqn:E; [|done]. unfold on_stack. unbool; intuition (congruence || lia).
Qed.

(** Ranges of transactions. *)
Lemma txn_ranges start end_ ts : start < end_ -> let l := map (fun x => (x_start x, x_end x)) (txns_from start end_ 0 ts) in
  (forall a, in_ranges l a <-> start <= a < end_ /\ exists t, t ∈ ts /\ on_stack t a) /\
  Forall (fun r => start <= fst r < snd r /\ snd r <= end_ /\
    (fst r = start \/ exists t, t ∈ ts /\ fst r = t_stack_map_start t) /\
    (snd r = end_ \/ exists t, t ∈ ts /\ snd r = t_stack_map_end t)) l.
Proof.
  intros Hse l. split.
  - intros a. split.
    + intros (r & (x & -> & (j & t & Hj & Hx)%txns_from_elem)%list_elem_of_fmap & Ha). cbn in Ha.
      apply txn_of_Some in Hx as (_ & _ & _ & _ & _ & _ & _ & _ & Hin); [|done]. apply Hin in Ha as [Ho Ha].
      split; [done|]. exists t. split; [by eapply list_elem_of_lookup_2|done].
    + intros (Ha & t & (j & Hj)%list_elem_of_lookup_1 & Ho).
      destruct (txn_of start end_ j t) as [x|] eqn:Ex.
      * exists (x_start x, x_end x). split; [apply (list_elem_of_fmap_2 (fun x => (x_start x, x_end x))), txns_from_elem; by exists j, t|].
        apply txn_of_Some in Ex as (_ & _ & _ & _ & _ & _ & _ & _ & Hin); [|done]. by apply Hin.
      * exfalso. unfold txn_of in Ex. destruct Ho as [Hact Ho]. rewrite Hact in Ex. cbn in Ex. destruct (_ || _) eqn:E; [|done]. unbool; lia.
  - apply list.Forall_forall. intros r (x & -> & (j & t & Hj & Hx)%txns_from_elem)%list_elem_of_fmap. cbn [fst snd].
    apply txn_of_Some in Hx as (_ & _ & _ & _ & H1 & H2 & H3 & H4 & _); [|done]. apply list_elem_of_lookup_2 in Hj.
    split; [done|]. split; [done|]. split; [destruct H3; eauto|destruct H4; eauto].
Qed.
