(* ===== verification/Munmap.v ===== *)
(** * sys_munmap and the exit of a thread (src/syscall/mem.c)

    The state is the address space and the thread table.  The stacks of live
    threads inside the range are kept and noted; the gaps between them are
    unmapped.  [qsort] is the C library's, known by its contract. *)

From Stdlib Require Import Sorting.Sorted Sorting.Permutation.
From S2P Require Import Prelude Tlbi Regions RegionSplit Gap PageTable Gva Backing Segments Overlay Mm Threads.

Definition compare_range_pair (ra rb : Z * Z) : Z :=
  if fst ra <? fst rb then -1 else if fst rb <? fst ra then 1 else 0.

(** What qsort(3) promises: the same elements, in an order the comparison
    agrees with. *)
Class Qsort := {
  qsort_ranges : list (Z * Z) -> list (Z * Z);
  qsort_perm l : Permutation (qsort_ranges l) l;
  qsort_sorted l : Sorted (fun a b => compare_range_pair a b <= 0) (qsort_ranges l)
}.

Section Munmap.
Context {H : Type} `{HE : HostEnv H, HVm : !HostVm H, HSl : !HostSlab H, HMs : !HostMemset H, HQ : Qsort}.
Variable c : mm_env.
#[local] Notation L := (e_layout c).

(** The walk over the sorted ranges to keep, with the unmap after its end. *)
Fixpoint munmap_gaps (m : mm H) (cursor end_ : Z) (ranges : list (Z * Z)) : option (Z * mm H) :=
  match ranges with
  | [] => if cursor <? end_ then munmap_guest_range c m cursor end_ else Some (0, m)
  | (keep_start, keep_end) :: ranges =>
      if cursor <? end_ then
        '(rc, m) ← (if cursor <? keep_start
                    then munmap_guest_range c m cursor (if keep_start <? end_ then keep_start else end_)
                    else Some (0, m));
        if rc <? 0 then Some (rc, m)
        else munmap_gaps m (if cursor <? keep_end then keep_end else cursor) end_ ranges
      else Some (0, m)
  end.

Definition sys_munmap (stop : bool) (m : mm H) (ts : list thread_entry_t) (addr len : Z)
    : option (Z * mm H * list thread_entry_t) :=
  if negb (Z.land addr 4095 =? 0) || (len =? 0) then Some (- LINUX_EINVAL, m, ts)
  else
    let length := PAGE_ALIGN_UP len in
    if length =? 0 then Some (- LINUX_EINVAL, m, ts)
    else if (UINT64_MAX - length)%u64 <? addr then Some (- LINUX_EINVAL, m, ts)
    else if 281474976710655 <? addr then Some (0, m, ts)    (* 0x0000FFFFFFFFFFFF *)
    else if guest_size L <=? addr then
      let e := (addr + length)%u64 in
      if region_range_overlaps (regions (m_trk m)) addr e then
        let '(rc, remove_fd, g) := guest_region_remove_prepare (m_trk m) addr e in
        if rc <? 0 then Some (- LINUX_ENOMEM, set_trk g m, ts)
        else
          '(rc, s) ← guest_invalidate_ptes L (m_pt m) addr e;
          if rc <? 0 then
            Some (- LINUX_ENOMEM, set_trk (with_host (close_owned (host g) remove_fd) g) (set_pt s m), ts)
          else Some (0, set_trk (snd (guest_region_remove_reserved g addr e remove_fd)) (set_pt s m), ts)
      else Some (0, m, ts)
    else
      let unmap_off := (addr - ipa_base L)%u64 in
      if (unmap_off <=? guest_size L) && (length <=? (guest_size L - unmap_off)%u64) then
        let e := (unmap_off + length)%u64 in
        '(nranges, txns, ts1) ← thread_collect_and_defer_stack_ranges stop ts unmap_off e MAX_THREADS;
        if nranges <? 0 then Some (- LINUX_ENOMEM, m, ts1)
        else
          let ranges := map (fun x => (x_start x, x_end x)) txns in
          let ranges := if 1 <? nranges then qsort_ranges ranges else ranges in
          '(rc, m) ← munmap_gaps m unmap_off e ranges;
          if rc <? 0 then Some (rc, m, thread_rollback_deferred_stack_ranges ts1 txns)
          else Some (0, m, thread_finish_deferred_stack_ranges ts1 txns)
      else Some (0, m, ts).

(** The loop over the ranges of an exiting thread. *)
Fixpoint cleanup_loop (m : mm H) (t : thread_entry_t) (ranges : list (Z * Z)) : option (mm H * thread_entry_t) :=
  match ranges with
  | [] => Some (m, t)
  | (s, e) :: ranges =>
      '(rc, m) ← munmap_guest_range c m s e;
      if rc <? 0 then cleanup_loop m t ranges
      else cleanup_loop m (snd (thread_drop_deferred_stack_unmap t s e)) ranges
  end.

(** [None] when the thread has to wait for a munmap in flight. *)
Definition mem_cleanup_deferred_stack_unmaps (m : mm H) (t : thread_entry_t) : option (mm H * thread_entry_t) :=
  '(ranges, t) ← thread_prepare_deferred_stack_unmaps_for_cleanup t MAX_DEFERRED_STACK_UNMAPS;
  cleanup_loop m t ranges.
End Munmap.
