(* ===== verification/SysMunmapFacts.v ===== *)
(** * Facts about sys_munmap

    The gaps between the ranges to keep, unmapped one after the other, amount to
    one removal of their union. *)

From Stdlib Require Import Sorting.Sorted Sorting.Permutation.
From stdpp Require Import sets.
From S2P Require Import Prelude Tlbi Regions RegionFacts HostFds RegionSplit SplitFacts Gap PageTable DescFacts PtStruct PtView PtOps PtPages Gva Backing Segments SegFacts SegSpecs Overlay OverlayFacts Mm MunmapFacts ProtFacts Threads ThreadFacts Munmap.

(** ** The overlap test *)

Lemma overlaps_search_spec l start fuel : forall lo hi, 0 <= lo -> hi < Z.of_nat (length l) -> lo <= hi + 1 -> hi - lo < Z.of_nat fuel ->
  (forall j r, Z.of_nat j < lo -> l !! j = Some r -> r_end r <= start) ->
  (forall j r, hi < Z.of_nat j -> l !! j = Some r -> start < r_end r) ->
  (forall i j r q, (i <= j)%nat -> l !! i = Some r -> l !! j = Some q -> r_end r <= r_end q) ->
  let i := overlaps_search l start fuel lo hi (Z.to_nat (hi + 1)) in
  (i <= length l)%nat /\ (forall j r, (j < i)%nat -> l !! j = Some r -> r_end r <= start) /\
  (forall j r, (i <= j)%nat -> l !! j = Some r -> start < r_end r).
Proof.
  induction fuel as [|fuel IH]; intros lo hi Hlo Hhi Hle Hf Hb Ha Hmono; cbn [overlaps_search].
  { split; [lia|]. split; intros j r Hj Hr; [apply (Hb j r)|apply (Ha j r)]; (lia || done). }
  destruct (Z.leb_spec lo hi) as [Hlh|Hlh].
  2:{ split; [lia|]. split; intros j r Hj Hr; [apply (Hb j r)|apply (Ha j r)]; (lia || done). }
  cbv zeta. set (mid := (lo + hi) / 2). assert (lo <= mid <= hi) as Hm by (subst mid; clear -Hlh; zdm).
  destruct (lookup_lt_is_Some_2 l (Z.to_nat mid) ltac:(lia)) as [r Er]. rewrite Er.
  destruct (Z.ltb_spec start (r_end r)) as [Hlt|Hge].
  - replace (Z.to_nat mid) with (Z.to_nat (mid - 1 + 1)) by lia. apply IH; try done; try lia.
    intros j q Hj Hq. assert (Z.to_nat mid <= j)%nat as Hmj by lia. pose proof (Hmono _ _ _ _ Hmj Er Hq). lia.
  - apply IH; try done; try lia. intros j q Hj Hq. assert (j <= Z.to_nat mid)%nat as Hmj by lia. pose proof (Hmono _ _ _ _ Hmj Hq Er). lia.
Qed.

Lemma elem_drop {A} (l : list A) i j q : (i < j)%nat -> l !! j = Some q -> q ∈ drop (S i) l.
Proof. intros Hij Hj. apply list_elem_of_lookup_2 with (i := (j - S i)%nat). rewrite lookup_drop. by replace (S i + (j - S i))%nat with j by lia. Qed.

Lemma chain_ends lo l : chain lo l -> forall i j r q, (i <= j)%nat -> l !! i = Some r -> l !! j = Some q -> r_end r <= r_end q.
Proof.
  intros Hc i j r q Hij Hi Hj. destruct (decide (i = j)) as [->|Hne]; [simplify_eq; lia|].
  rewrite <- (take_drop_middle l i r Hi) in Hc. apply chain_app in Hc as (_ & _ & _ & Hc).
  pose proof (chain_bounds _ _ _ Hc (elem_drop l i j q ltac:(lia) Hj)). lia.
Qed.

(** [region_range_overlaps] decides whether a region meets the range. *)
Lemma range_overlaps_spec l start end_ : chain 0 l ->
  region_range_overlaps l start end_ = true <-> exists r, r ∈ l /\ r_start r < end_ /\ start < r_end r.
Proof.
  intros Hc. unfold region_range_overlaps. pose proof (overlaps_search_spec l start (S (length l)) 0 (Z.of_nat (length l) - 1)) as S.
  replace (Z.to_nat (Z.of_nat (length l) - 1 + 1)) with (length l) in S by lia. cbv zeta in S.
  set (i := overlaps_search _ _ _ _ _ _) in *. clearbody i.
  destruct S as (Hi & Hb & Ha); [lia|lia|lia|lia|lia| |exact (chain_ends _ _ Hc)|].
  { intros j r Hj Hr%lookup_lt_Some. lia. }
  split.
  - destruct (l !! i) as [r|] eqn:Er; [|done]. intros Hlt%Z.ltb_lt. exists r. split; [by eapply list_elem_of_lookup_2|].
    split; [done|]. by apply (Ha i).
  - intros (r & (j & Hj)%list_elem_of_lookup_1 & Hs & He).
    assert (i <= j)%nat as Hij by (destruct (decide (i <= j)%nat); [done|]; specialize (Hb j r ltac:(lia) Hj); lia).
    pose proof (lookup_lt_Some _ _ _ Hj). destruct (lookup_lt_is_Some_2 l i ltac:(lia)) as [q Eq]. rewrite Eq. apply Z.ltb_lt.
    destruct (decide (i = j)) as [->|Hne]; [congruence|].
    rewrite <- (take_drop_middle l i q Eq) in Hc. apply chain_app in Hc as (_ & _ & Hne' & Hc).
    pose proof (chain_bounds _ _ _ Hc (elem_drop l i j r ltac:(lia) Hj)). lia.
Qed.

(** ** The gaps *)

Section SysMunmap.
Context {H : Type} `{HE : HostEnv H, HP : !HostPageOk H, HF : !HostFdLaws H, HVm : !HostVm H, HVl : !HostVmLaws H,
  HSl : !HostSlab H, HSll : !HostSlabLaws H, HMs : !HostMemset H, HFr : !HostFrame H}.
Variable c : mm_env.
Context `{HMl : !HostMemsetLaws H (e_shm_fd c)}.
Context (others : list (Z * Z)).

#[local] Notation L := (e_layout c).
#[local] Notation top := (guest_size L).

Context (Hothers : Forall (fun r => top <= fst r) others) (Hpage : ALIGN_UP top (host_page_size_cached (H:=H)) = top).

(** Exactly the addresses of [P] are gone. *)
Record unmapped_on (m : mm H) (P : Z -> Prop) (m' : mm H) : Prop := {
  uo_gone a : P a -> view (regions (m_trk m')) a = None;
  uo_sub a x : view (regions (m_trk m')) a = Some x -> is_Some (view (regions (m_trk m)) a);
  uo_view : regions_tracker_stale (m_trk m') = false ->
    forall a, ~ P a -> plain_view (regions (m_trk m')) a = plain_view (regions (m_trk m)) a;
  uo_unmap va : 0 <= va -> P va -> vmap (m_pt m') va = None;
  uo_map va : 0 <= va -> ~ P va -> vmap (m_pt m') va = vmap (m_pt m) va;
  uo_mono va : 0 <= va -> vmap (m_pt m') va = None \/ vmap (m_pt m') va = vmap (m_pt m) va;
  uo_tlb va : 0 <= va -> vmap (m_pt m') va <> vmap (m_pt m) va -> covers (cpu_tlbi_req (m_pt m')) va;
  uo_keep : retires (m_pt m) (m_pt m');
  uo_stale : regions_tracker_stale (m_trk m) = true -> regions_tracker_stale (m_trk m') = true
}.

(** At most the addresses of [P] were touched. *)
Definition touched_on (m : mm H) (P : Z -> Prop) (m' : mm H) : Prop :=
  (regions_tracker_stale (m_trk m) = true -> regions_tracker_stale (m_trk m') = true) /\
  (regions_tracker_stale (m_trk m') = false -> forall a, ~ P a -> plain_view (regions (m_trk m')) a = plain_view (regions (m_trk m)) a) /\
  (forall va, 0 <= va -> ~ P va -> vmap (m_pt m') va = vmap (m_pt m) va).

Lemma mm_kept_trans m1 m2 m3 : mm_kept c others m1 m2 -> mm_kept c others m2 m3 -> mm_kept c others m1 m3.
Proof. intros [A B C D E] [A' B' C' D' E']. split; [done|auto|congruence|congruence|auto]. Qed.

Lemma unmapped_on_nil m P : (forall a, ~ P a) -> unmapped_on m P m.
Proof.
  intros Hn. split; [intros a Hp; by destruct (Hn a)|intros a x Hv; by eexists|done|intros va _ Hp; by destruct (Hn va)|done|by right|by intros va _ []|apply retires_refl|done].
Qed.

Lemma unmapped_on_trans m1 m2 m3 P Q R : unmapped_on m1 P m2 -> unmapped_on m2 Q m3 -> (forall a, R a <-> P a \/ Q a) ->
  unmapped_on m1 R m3.
Proof.
  intros U V HR. assert (forall a, ~ R a <-> ~ P a /\ ~ Q a) as HN by (intros a; rewrite HR; tauto).
  assert (regions_tracker_stale (m_trk m3) = false -> regions_tracker_stale (m_trk m2) = false) as Hst.
  { intros H3. destruct (regions_tracker_stale (m_trk m2)) eqn:E; [|done]. by rewrite (uo_stale _ _ _ V E) in H3. }
  split.
  - intros a [Hp|Hq]%HR; [|by apply (uo_gone _ _ _ V)]. destruct (view (regions (m_trk m3)) a) eqn:E; [|done].
    apply (uo_sub _ _ _ V) in E as [y E]. by rewrite (uo_gone _ _ _ U a Hp) in E.
  - intros a x Hv. destruct (uo_sub _ _ _ V a x Hv) as [y Hy]. exact (uo_sub _ _ _ U a y Hy).
  - intros H3 a [Hp Hq]%HN. rewrite (uo_view _ _ _ V H3 a Hq). exact (uo_view _ _ _ U (Hst H3) a Hp).
  - intros va Hva [Hp|Hq]%HR; [|by apply (uo_unmap _ _ _ V)].
    destruct (uo_mono _ _ _ V va Hva) as [?| ->]; [done|by apply (uo_unmap _ _ _ U)].
  - intros va Hva [Hp Hq]%HN. by rewrite (uo_map _ _ _ V), (uo_map _ _ _ U).
  - intros va Hva. destruct (uo_mono _ _ _ V va Hva) as [?| ->]; [by left|by apply (uo_mono _ _ _ U)].
  - intros va Hva Hne. destruct (decide (vmap (m_pt m3) va = vmap (m_pt m2) va)) as [E|E]; [|by apply (uo_tlb _ _ _ V)].
    apply (uo_keep _ _ _ V), (uo_tlb _ _ _ U); congruence.
  - eapply retires_trans; [apply U|apply V].
  - intros Hs. apply V, U, Hs.
Qed.

Lemma touched_trans m1 m2 m3 P Q R : unmapped_on m1 P m2 -> touched_on m2 Q m3 -> (forall a, R a <-> P a \/ Q a) -> touched_on m1 R m3.
Proof.
  intros U (V1 & V2 & V3) HR. assert (forall a, ~ R a <-> ~ P a /\ ~ Q a) as HN by (intros a; rewrite HR; tauto).
  split; [intros Hs; apply V1, U, Hs|]. split.
  - intros H3 a [Hp Hq]%HN. rewrite (V2 H3 a Hq). apply (uo_view _ _ _ U); [|done].
    destruct (regions_tracker_stale (m_trk m2)) eqn:E; [|done]. by rewrite (V1 eq_refl) in H3.
  - intros va Hva [Hp Hq]%HN. by rewrite V3, (uo_map _ _ _ U).
Qed.

Definition aligned (x : Z) : Prop := x mod PAGE_SIZE = 0.

(** One gap with page-aligned ends. *)
Lemma gap_spec m off e : mm_ok c m -> 0 <= off < e -> e <= top -> aligned off -> aligned e ->
  exists rc m', munmap_guest_range c m off e = Some (rc, m') /\ mm_kept c others m m' /\ rc <= 0 /\
    (rc = 0 -> unmapped_on m (fun a => off <= a < e) m') /\ (rc <> 0 -> touched_on m (fun a => off <= a < e) m').
Proof using Hothers Hpage HP HF HVl HSll HFr HMl.
  intros Hm Hoe He Ha Hb. destruct (munmap_spec c others Hothers Hpage m off e Hm Hoe He) as (rc & m' & E & K & Hrc & S & F).
  exists rc, m'. split; [done|]. split; [done|]. split; [done|].
  assert (page_lo off = off /\ page_hi e = e) as [El Eh].
  { unfold page_lo, page_hi, aligned in *. pose proof (lo_size _ (wf_layout _ _ (mo_pt _ _ Hm))).
    rewrite align_down_page, align_up_page by (unfold fits64, two64; lia). unfold PAGE_SIZE, GUEST_PAGE_SIZE in *. clear -Ha Hb. zdm. }
  split; intros Hr.
  - destruct (S Hr) as [_ U]. split.
    + apply U.
    + apply U.
    + apply U.
    + intros va Hva Hin. rewrite (un_map _ _ _ _ _ U va Hva), El, Eh. by rewrite decide_True.
    + intros va Hva Hin. rewrite (un_map _ _ _ _ _ U va Hva), El, Eh. by rewrite decide_False.
    + intros va Hva. rewrite (un_map _ _ _ _ _ U va Hva). destruct (decide _); auto.
    + apply U.
    + apply U.
    + apply U.
  - destruct (F Hr) as [Es Ho]. rewrite El, Eh in Ho. split; [congruence|]. split; [intros _ a _; apply Ho|]. intros va Hva Hn. by apply Ho.
Qed.

Lemma unmapped_on_ext m P Q m' : unmapped_on m P m' -> (forall a, Q a <-> P a) -> unmapped_on m Q m'.
Proof.
  intros U HQ. refine (unmapped_on_trans m m' m' P (fun _ => False) Q U _ _); [by apply unmapped_on_nil; auto|]. intros a. rewrite HQ. tauto.
Qed.

Lemma touched_weaken m P Q m' : touched_on m P m' -> (forall a, P a -> Q a) -> touched_on m Q m'.
Proof. intros (A & B & C) HQ. split; [done|]. split; [intros Hs a Hn; apply B; auto|]. intros va Hva Hn. apply C; auto. Qed.

Lemma sorted_starts r ranges : Sorted (fun a b => compare_range_pair a b <= 0) (r :: ranges) -> Forall (fun q => fst r <= fst q) ranges.
Proof.
  intros Hs. apply Sorted_extends in Hs.
  - apply (list.Forall_impl _ _ _ Hs). intros q. unfold compare_range_pair. repeat case_if; unbool; lia.
  - intros x y z. unfold compare_range_pair. repeat case_if; unbool; lia.
Qed.

(** All gaps. *)
Lemma gaps_spec e ranges : e <= top -> aligned e ->
  Sorted (fun a b => compare_range_pair a b <= 0) ranges ->
  Forall (fun r => fst r < snd r /\ aligned (fst r) /\ aligned (snd r)) ranges -> forall m cursor,
  mm_ok c m -> 0 <= cursor -> aligned cursor ->
  let P a := cursor <= a < e /\ ~ in_ranges ranges a in
  exists rc m', munmap_gaps c m cursor e ranges = Some (rc, m') /\ mm_kept c others m m' /\ rc <= 0 /\
    (rc = 0 -> unmapped_on m P m') /\ (rc <> 0 -> touched_on m P m').
Proof using Hothers Hpage HP HF HVl HSll HFr HMl.
  intros He Hea. induction ranges as [|[ks ke] ranges IH]; intros Hs Hok m cursor Hm Hc Hca P; cbn [munmap_gaps];
    (destruct (Z.ltb_spec cursor e) as [Hlt|Hge];
     [|exists 0, m; split; [done|]; split; [by apply mm_kept_refl|]; split; [done|]; split; [|done];
       intros _; apply unmapped_on_nil; intros a [Ha _]; lia]).
  - destruct (gap_spec m cursor e Hm ltac:(lia) He Hca Hea) as (rc & m' & E & K & Hrc & S & F). exists rc, m'.
    assert (forall a, P a <-> cursor <= a < e) as HP' by (intros a; subst P; cbv beta; unfold in_ranges; set_solver).
    split; [done|]. split; [done|]. split; [done|].
    split; intros Hr; [by apply (unmapped_on_ext _ _ _ _ (S Hr))|]. apply (touched_weaken _ _ _ _ (F Hr)). intros a. by rewrite HP'.
  - pose proof (sorted_starts _ _ Hs) as Hst. apply Sorted_inv in Hs as [Hs _].
    rewrite Forall_cons_iff in Hok. destruct Hok as [(Hk & Hka & Hkb) Hok]. cbn [fst snd] in *.
    set (cursor' := if cursor <? ke then ke else cursor). assert (cursor' = Z.max cursor ke) as Ec by (subst cursor'; case_if; lia).
    assert (aligned cursor') as Hca' by (subst cursor'; by case_if). clearbody cursor'. set (P' a := cursor' <= a < e /\ ~ in_ranges ranges a).
    set (g := if ks <? e then ks else e). assert (g = Z.min ks e) as Eg by (subst g; case_if; lia).
    assert (aligned g) as Hga by (subst g; by case_if). clearbody g.
    assert (forall a, P a <-> cursor <= a < g \/ P' a) as Hsplit.
    { intros a. subst P P'. cbv beta. rewrite in_ranges_cons. cbn [fst snd].
      assert (in_ranges ranges a -> ks <= a) as Hin by (intros (q & Hq & Ha); rewrite list.Forall_forall in Hst; specialize (Hst q Hq); lia).
      destruct (decide (a < ks)); split; [intros [? ?]; left; lia|intros [?|[? ?]]; [|lia]|intros [? ?]; right|intros [?|[? ?]]; [lia|]];
        (split; [lia|]); (intros [?|?%Hin]; lia) || (intros [?|?]; [lia|auto]) || tauto. }
    assert (exists rc m1, (if cursor <? ks then munmap_guest_range c m cursor g else Some (0, m)) = Some (rc, m1) /\ mm_kept c others m m1 /\ rc <= 0 /\
      (rc = 0 -> unmapped_on m (fun a => cursor <= a < g) m1) /\ (rc <> 0 -> touched_on m (fun a => cursor <= a < g) m1)) as
      (rc1 & m1 & -> & K1 & Hrc1 & S1 & F1).
    { destruct (Z.ltb_spec cursor ks); [apply gap_spec; [done|lia|lia|done|done]|]. exists 0, m. split; [done|]. split; [by apply mm_kept_refl|].
      split; [done|]. split; [|done]. intros _. apply unmapped_on_nil. lia. }
    run. destruct (Z.ltb_spec rc1 0).
    { exists rc1, m1. split; [done|]. split; [done|]. split; [done|]. split; [lia|]. intros Hr. apply (touched_weaken _ _ _ _ (F1 Hr)).
      intros a Ha. apply Hsplit. by left. }
    destruct (IH Hs Hok m1 cursor' ltac:(apply K1) ltac:(lia) Hca') as (rc & m2 & E & K & Hrc & S & F).
    exists rc, m2. split; [done|]. split; [exact (mm_kept_trans _ _ _ K1 K)|]. split; [done|]. specialize (S1 ltac:(lia)).
    split; intros Hr; [exact (unmapped_on_trans _ _ _ _ _ _ S1 (S Hr) Hsplit)|exact (touched_trans _ _ _ _ _ _ S1 (F Hr) Hsplit)].
Qed.

(** ** The calls *)

Context `{HQ : Qsort}.

Definition stack_aligned (t : thread_entry_t) : Prop := aligned (t_stack_map_start t) /\ aligned (t_stack_map_end t).

(** The ranges the walk gets: sorted, aligned, with the same union. *)
Lemma kept_ranges start e ts : start < e -> aligned start -> aligned e -> Forall stack_aligned ts ->
  let l := map (fun x => (x_start x, x_end x)) (txns_from start e 0 ts) in
  let ranges := if 1 <? Z.of_nat (length (txns_from start e 0 ts)) then qsort_ranges l else l in
  Sorted (fun a b => compare_range_pair a b <= 0) ranges /\
  Forall (fun r => fst r < snd r /\ aligned (fst r) /\ aligned (snd r)) ranges /\
  forall a, in_ranges ranges a <-> start <= a < e /\ exists t, t ∈ ts /\ on_stack t a.
Proof.
  intros Hse Hsa Hea Hts l ranges. destruct (txn_ranges start e ts Hse) as [Hin Hfa]. fold l in Hin, Hfa.
  assert (Sorted (fun a b => compare_range_pair a b <= 0) ranges /\ ranges ≡ₚ l) as [Hso Hp].
  { subst ranges. destruct (Z.ltb_spec 1 (Z.of_nat (length (txns_from start e 0 ts)))) as [Hn|Hn]; [split; [apply qsort_sorted|apply qsort_perm]|].
    split; [|done]. assert (length l <= 1)%nat as Hl by (subst l; rewrite length_map; lia).
    destruct l as [|x [|y l']]; [constructor|by repeat constructor|cbn in Hl; lia]. }
  split; [done|]. rewrite Hp. split; [|intros a; by rewrite (in_ranges_perm _ _ Hp a)].
  apply (list.Forall_impl _ _ _ Hfa). intros r (H1 & H2 & H3 & H4). rewrite list.Forall_forall in Hts. split; [lia|].
  split; [destruct H3 as [->|(t & Ht & ->)]|destruct H4 as [->|(t & Ht & ->)]]; try done; by apply (Hts t Ht).
Qed.

Lemma sys_munmap_low stop m ts addr len (e := addr + PAGE_ALIGN_UP len) : mm_ok c m -> 0 <= addr -> aligned addr -> 0 < len < 2 ^ 48 -> e <= top ->
  Forall thread_ok ts -> Forall stack_aligned ts -> (length ts <= MAX_THREADS)%nat ->
  let P a := addr <= a < e /\ ~ exists t, t ∈ ts /\ on_stack t a in
  exists rc m' ts', sys_munmap c stop m ts addr len = Some (rc, m', ts') /\ mm_kept c others m m' /\ rc <= 0 /\
    (rc = 0 -> unmapped_on m P m' /\ Forall2 (deferred_over addr e) ts ts') /\ (rc <> 0 -> touched_on m P m' /\ ts' = ts).
Proof using Hothers Hpage HP HF HVl HSll HFr HMl.
  intros Hm Ha Ha4 Hlen He Hok Hst Hn P. destruct (page_len len Hlen) as (Hl0 & Hl4 & Hl1). unfold sys_munmap, aligned in *.
  rewrite low_page, Ha4 by done. cbn [negb Z.eqb orb]. rewrite (proj2 (Z.eqb_neq len 0)) by lia. cbv zeta. set (n := PAGE_ALIGN_UP len) in *.
  assert (e mod PAGE_SIZE = 0) as He4 by (subst e; rewrite Z.add_mod, Ha4, Hl4 by done; done). pose proof (top_small c m Hm).
  rewrite (proj2 (Z.eqb_neq n 0)) by lia. assert ((UINT64_MAX - n)%u64 = UINT64_MAX - n) as -> by (unfold UINT64_MAX; by u64).
  rewrite (proj2 (Z.ltb_ge _ addr)) by (unfold UINT64_MAX; lia). rewrite (proj2 (Z.ltb_ge _ addr)), (proj2 (Z.leb_gt top addr)) by lia.
  rewrite (lo_base _ (wf_layout _ _ (mo_pt _ _ Hm))).
  assert ((addr - 0)%u64 = addr) as -> by (u64; lia). assert ((top - addr)%u64 = top - addr) as -> by (by u64).
  assert ((addr + n)%u64 = e) as -> by (subst e; by u64). rewrite (proj2 (Z.leb_le addr top)), (proj2 (Z.leb_le n _)) by lia. cbn [andb].
  destruct (defer_spec stop addr e ts ltac:(lia) Hok Hn) as (rc & txns & ts1 & -> & R). run.
  destruct R as [[-> ->]|(-> & -> & Hrb & Hfin)].
  { eexists _, _, _. split; [done|]. split; [by apply mm_kept_refl|]. split; [done|]. split; [done|]. intros _. split; [by split|done]. }
  rewrite (proj2 (Z.ltb_ge _ 0)) by lia.
  destruct (kept_ranges addr e ts ltac:(lia) Ha4 He4 Hst) as (Hso & Hfa & Hin). cbv zeta in Hso, Hfa, Hin. set (ranges := if 1 <? _ then _ else _) in *.
  destruct (gaps_spec e ranges He He4 Hso Hfa m addr Hm Ha Ha4) as (rc & m' & -> & K & Hrc & S & F). run.
  assert (forall a, P a <-> addr <= a < e /\ ~ in_ranges ranges a) as HP' by (intros a; rewrite Hin; subst P; cbv beta; tauto).
  destruct (Z.ltb_spec rc 0) as [Hneg|Hpos]; eexists _, _, _; (split; [done|]); (split; [done|]); (split; [lia|]); (split; [try lia|try lia]).
  - intros Hr. split; [|exact Hrb]. apply (touched_weaken _ _ _ _ (F Hr)). intros a. by rewrite HP'.
  - intros _. split; [|exact Hfin]. by apply (unmapped_on_ext _ _ _ _ (S ltac:(lia))).
Qed.

(** A range above the slab: only tables and tracker are involved. *)
Lemma high_removed m addr e fd g s : mm_ok c m -> 0 <= addr < e -> top <= addr -> e <= 2 ^ 48 -> aligned addr -> aligned e ->
  Forall (fun r => r_end r <= top \/ top <= r_start r) (regions (m_trk m)) ->
  guest_region_remove_prepare (m_trk m) addr e = (0, fd, g) -> guest_invalidate_ptes L (m_pt m) addr e = Some (0, s) ->
  let m' := set_trk (snd (guest_region_remove_reserved g addr e fd)) (set_pt s m) in
  mm_kept c others m m' /\ unmapped_on m (fun a => addr <= a < e) m'.
Proof using Hpage HP HFr HMl.
  intros Hm Hae Htop He Ha4 He4 Hno E0 Ep m'. pose proof (top_small c m Hm) as Ht.
  assert (fits64 addr) as Hfa by (unfold fits64, two64; lia).
  destruct (invalidate_spec L (m_pt m) addr e (mo_pt _ _ Hm) Hfa ltac:(lia)) as (rc' & s' & Ep' & R). rewrite Ep in Ep'. injection Ep' as <- <-.
  cbv zeta in R. assert (ALIGN_DOWN addr PAGE_SIZE = addr /\ PAGE_ALIGN_UP e = e) as [El Eh].
  { rewrite align_down_page, align_up_page by (done || (unfold two64; lia)). unfold aligned, PAGE_SIZE, GUEST_PAGE_SIZE in *. clear -Ha4 He4. zdm. }
  rewrite El, Eh, (proj2 (Z.leb_gt _ _)) in R by lia. destruct R as (b & Hb & Ws & _ & _ & Hret & Hva & [(_ & -> & _)|(? & _)]); [|done].
  destruct (guest_region_remove_reserved g addr e fd) as [rc g'] eqn:E1. cbn [snd] in m'.
  destruct (trim_kept c others m addr e fd g rc g' s Hm Hae Ws) as [K (W' & R1 & R2 & R3 & _)]; [|done|done|].
  { intros r x Hx Hr H1 H2 Hu. rewrite list.Forall_forall in Hno. destruct (Hno r Hr) as [?|Hrt]; [lia|].
    destruct (mo_trk _ _ Hm) as [[Hc Hok] _]. pose proof (chain_bounds _ _ _ Hc Hr) as Hcb. rewrite list.Forall_forall in Hok. destruct (Hok r Hr) as (B1 & B2 & _).
    destruct (mo_overlays _ _ Hm) as [Hcl _]. rewrite list.Forall_forall in Hcl. pose proof (Hcl r Hr x Hu) as [Hlo _].
    assert (fits64 (r_start r)) as Hfr by (unfold fits64, VA_TOP, two64 in *; lia).
    assert (0 <= top <= VA_TOP) as Hv by (unfold VA_TOP, two64; lia).
    pose proof (page_down_up (H:=H) top (r_start r) Hv Hfr ltac:(rewrite Hpage; lia)) as Hd. rewrite Hpage in Hd. lia. }
  split; [exact K|]. split; cbn [m' set_trk set_pt m_trk m_pt].
  - exact R1.
  - intros a x Hv%R2. by eexists.
  - intros Hst a Ha. unfold plain_view. by rewrite R3.
  - intros va Hv Hin. specialize (Hva va Hv). rewrite decide_True in Hva by done. by apply Hva.
  - intros va Hv Hin. specialize (Hva va Hv). rewrite decide_False in Hva by done. by destruct Hva.
  - intros va Hv. specialize (Hva va Hv). destruct (decide _); [left; by apply Hva|right; by destruct Hva].
  - intros va Hv Hne. specialize (Hva va Hv). destruct (decide _); [by apply Hva|by destruct Hva].
  - done.
  - intros Hs. apply (remove_reserved_stale _ _ _ _ _ _ E1). by rewrite (proj1 (proj2 (prepare_same _ _ _ _ _ _ E0))).
Qed.

Lemma sys_munmap_high stop m ts addr len (e := addr + PAGE_ALIGN_UP len) : mm_ok c m -> 0 <= addr -> aligned addr -> 0 < len < 2 ^ 48 ->
  top <= addr -> e <= 2 ^ 48 -> Forall (fun r => r_end r <= top \/ top <= r_start r) (regions (m_trk m)) ->
  let P a := addr <= a < e in
  exists rc m', sys_munmap c stop m ts addr len = Some (rc, m', ts) /\ mm_kept c others m m' /\ rc <= 0 /\
    (rc = 0 -> (m' = m /\ forall a, P a -> view (regions (m_trk m)) a = None) \/ unmapped_on m P m') /\ (rc <> 0 -> touched_on m P m').
Proof using Hpage HP HFr HMl.
  intros Hm Ha Ha4 Hlen Htop He Hno P. destruct (page_len len Hlen) as (Hl0 & Hl4 & Hl1). unfold sys_munmap, aligned in *.
  rewrite low_page, Ha4 by done. cbn [negb Z.eqb orb]. rewrite (proj2 (Z.eqb_neq len 0)) by lia. cbv zeta. set (n := PAGE_ALIGN_UP len) in *.
  assert (e mod PAGE_SIZE = 0) as He4 by (subst e; rewrite Z.add_mod, Ha4, Hl4 by done; done). pose proof (top_small c m Hm).
  rewrite (proj2 (Z.eqb_neq n 0)) by lia. assert ((UINT64_MAX - n)%u64 = UINT64_MAX - n) as -> by (unfold UINT64_MAX; by u64).
  rewrite (proj2 (Z.ltb_ge _ addr)) by (unfold UINT64_MAX; lia). rewrite (proj2 (Z.ltb_ge _ addr)), (proj2 (Z.leb_le top addr)) by lia.
  assert ((addr + n)%u64 = e) as -> by (subst e; by u64). destruct (mo_trk _ _ Hm) as [[Hc _] _].
  pose proof (range_overlaps_spec (regions (m_trk m)) addr e Hc) as Hro. destruct (region_range_overlaps _ addr e).
  2:{ eexists _, _. split; [done|]. split; [by apply mm_kept_refl|]. split; [done|]. split; [|done]. intros _. left. split; [done|].
      intros a Ha'. unfold view. destruct (region_at _ a) as [r|] eqn:Er; [|done]. apply region_at_Some in Er as [Hr Hin].
      unfold in_region in Hin. unbool. assert (false = true) by (apply Hro; exists r; lia || (split; [done|subst P; cbv beta in *; lia])). done. }
  destruct (guest_region_remove_prepare (m_trk m) addr e) as [[rc fd] g] eqn:E0.
  destruct (prepare_ok c others _ _ _ _ _ _ Hm E0) as (_ & _ & Er & Es & _ & _ & Hrc). destruct (Z.ltb_spec rc 0) as [Hn|Hn].
  { destruct (prepare_failed c others _ _ _ _ _ _ Hm E0 Hn) as (K & _ & _). eexists _, _. split; [done|]. split; [done|]. split; [done|]. split; [done|].
    intros _. split; [cbn; congruence|]. split; [cbn; by rewrite Er|done]. }
  assert (rc = 0) as -> by lia. assert (fits64 addr) as Hfa by (unfold fits64, two64; lia).
  destruct (inval_repermed c (m_pt m) addr e (mo_pt _ _ Hm) ltac:(lia) He Ha4 He4) as (rcp & s & Ep & R). specialize (R addr addr). rewrite Ep. run.
  destruct (rp_rc _ _ _ _ _ _ _ _ _ R) as [->| ->]; cbn [Z.ltb Z.compare].
  - destruct (high_removed m addr e fd g s Hm ltac:(lia) Htop He Ha4 He4 Hno E0 Ep) as [K U].
    eexists _, _. split; [done|]. split; [exact K|]. split; [done|]. split; [|done]. intros _. by right.
  - eexists _, _. split; [done|]. split; [exact (reserved_kept c others m addr e fd g s Hm E0 (rp_wf _ _ _ _ _ _ _ _ _ R))|]. split; [done|]. split; [done|].
    intros _. split; [cbn; congruence|]. split; [cbn; by rewrite Er|]. intros va Hv Hout. cbn.
    destruct (rp_out _ _ _ _ _ _ _ _ _ R va Hv Hout) as [?|(? & _)]; [done|lia].
Qed.

(** ** The exit of a thread *)

Definition range_in_slab (r : Z * Z) : Prop := 0 <= fst r < snd r /\ snd r <= top /\ aligned (fst r) /\ aligned (snd r).

(** The addresses of [dn] are gone and at most those of [all] were touched. *)
Record ranges_gone (m : mm H) (dn all : list (Z * Z)) (m' : mm H) : Prop := {
  rg_kept : mm_kept c others m m';
  rg_view a : in_ranges dn a -> view (regions (m_trk m')) a = None;
  rg_map a : in_ranges dn a -> vmap (m_pt m') a = None;
  rg_touched : touched_on m (in_ranges all) m'
}.

(** One more range, apart from those already gone. *)
Lemma ranges_gone_step m m1 dn all r : mm_ok c m -> ranges_gone m dn all m1 -> range_in_slab r -> Forall range_in_slab dn -> Forall (apart r) dn ->
  exists rc m2, munmap_guest_range c m1 (fst r) (snd r) = Some (rc, m2) /\ rc <= 0 /\
    ranges_gone m (if rc <? 0 then dn else r :: dn) (r :: all) m2.
Proof using Hothers Hpage HP HF HVl HSll HFr HMl.
  intros Hm [K V M T] (Hr & Ht & Ha & Hb) Hdn Hap.
  destruct (munmap_spec c others Hothers Hpage m1 (fst r) (snd r) (mk_ok _ _ _ _ K) Hr Ht) as (rc & m2 & E & K2 & Hrc & U0 & F0).
  destruct (gap_spec m1 (fst r) (snd r) (mk_ok _ _ _ _ K) Hr Ht Ha Hb) as (rc' & m2' & E' & _ & _ & U & F).
  rewrite E in E'. injection E' as <- <-. exists rc, m2. split; [done|]. split; [done|].
  assert (forall a, in_ranges dn a -> 0 <= a /\ ~ fst r <= a < snd r) as Hout.
  { intros a (q & Hq & Hin). rewrite list.Forall_forall in Hdn, Hap. destruct (Hdn q Hq) as (? & _). specialize (Hap q Hq). unfold apart in Hap. lia. }
  assert (touched_on m (in_ranges (r :: all)) m2) as T2.
  { destruct T as (T1 & T2 & T3). assert (touched_on m1 (fun a => fst r <= a < snd r) m2) as (S1 & S2 & S3).
    { destruct (decide (rc = 0)) as [H0|H0]; [|by apply F]. pose proof (U H0) as Ux. split; [apply Ux|]. split; [apply Ux|]. apply Ux. }
    split; [auto|]. setoid_rewrite in_ranges_cons. split.
    - intros Hs a Hn. rewrite (S2 Hs) by tauto. apply T2; [|tauto]. destruct (regions_tracker_stale (m_trk m1)) eqn:Es; [|done]. by rewrite (S1 eq_refl) in Hs.
    - intros va Hv Hn. rewrite S3, T3 by tauto. done. }
  assert (forall a, in_ranges dn a -> view (regions (m_trk m2)) a = None /\ vmap (m_pt m2) a = None) as Hold.
  { intros a Hin. destruct (Hout a Hin) as [Ha0 Hna]. destruct (decide (rc = 0)) as [H0|H0].
    - pose proof (U H0) as Ux. split; [|by rewrite (uo_map _ _ _ Ux a Ha0 Hna), M].
      destruct (view (regions (m_trk m2)) a) eqn:Ev; [|done]. apply (uo_sub _ _ _ Ux) in Ev as [y Ey]. by rewrite V in Ey.
    - destruct (F H0) as (_ & _ & S3). split; [|by rewrite S3, M]. destruct (F0 H0) as [_ Hp]. destruct (Hp a) as [Hv _]. unfold plain_view in Hv.
      rewrite (V a Hin) in Hv. by destruct (view (regions (m_trk m2)) a). }
  destruct (Z.ltb_spec rc 0); (split; [exact (mm_kept_trans _ _ _ K K2)| | |exact T2]); try (intros a Hin; by apply Hold).
  - intros a [Hin|Hin]%in_ranges_cons; [|by apply Hold]. by apply (uo_gone _ _ _ (U ltac:(lia))).
  - intros a [Hin|Hin]%in_ranges_cons; [|by apply Hold]. apply (uo_unmap _ _ _ (U ltac:(lia))); [lia|done].
Qed.

Lemma ranges_gone_perm m dn all dn' all' m' : ranges_gone m dn all m' -> dn ≡ₚ dn' -> all ≡ₚ all' -> ranges_gone m dn' all' m'.
Proof.
  intros [K V M T] Hd Hall. split; [done| | |apply (touched_weaken _ _ _ _ T); intros a; by apply in_ranges_perm];
    intros a; rewrite <- (in_ranges_perm _ _ Hd a); auto.
Qed.

Lemma cleanup_loop_spec m rs : mm_ok c m -> Forall range_in_slab rs -> separated rs -> forall m1 t dn all kept,
  ranges_gone m dn all m1 -> Forall range_in_slab dn -> Forall (fun r => Forall (apart r) dn) rs ->
  table_ok (t_deferred t) -> t_deferred t ≡ₚ rs ++ kept ->
  exists m' t' dn' failed, cleanup_loop c m1 t rs = Some (m', t') /\ rs ≡ₚ dn' ++ failed /\
    ranges_gone m (dn' ++ dn) (rs ++ all) m' /\ table_ok (t_deferred t') /\ t_deferred t' ≡ₚ failed ++ kept /\ t' = set_deferred (t_deferred t') t.
Proof using Hothers Hpage HP HF HVl HSll HFr HMl.
  intros Hm. induction rs as [|[s e] rs IH]; intros Hrs Hsep m1 t dn all kept G Hdn Hap Htb Hp; cbn [cleanup_loop].
  { exists m1, t, [], []. split; [done|]. split; [done|]. split; [done|]. split; [done|]. split; [done|]. by destruct t. }
  apply Forall_cons_iff in Hrs as [Hr Hrs], Hap as [Hap1 Hap]. apply separated_cons in Hsep as [Hs1 Hsep].
  destruct (ranges_gone_step m m1 dn all (s, e) Hm G Hr Hdn Hap1) as (rc & m2 & E & Hrc & G2). cbn [fst snd] in E. rewrite E. run.
  destruct (Z.ltb_spec rc 0) as [Hn|Hn].
  - assert (t_deferred t ≡ₚ rs ++ (s, e) :: kept) as Hp' by (rewrite Hp; solve_Permutation).
    destruct (IH Hrs Hsep m2 t dn ((s, e) :: all) ((s, e) :: kept) G2 Hdn Hap Htb Hp') as (m' & t' & dn' & failed & El & Hf & G' & Htb' & Ht' & Eq).
    exists m', t', dn', ((s, e) :: failed). split; [done|]. split; [rewrite Hf; solve_Permutation|].
    split; [apply (ranges_gone_perm _ _ _ _ _ _ G'); [done|solve_Permutation]|]. split; [done|]. split; [rewrite Ht'; solve_Permutation|done].
  - pose proof Hr as (Hse & _). pose proof (drop_deferred_spec t s e Htb ltac:(cbn in Hse; lia)) as Hd.
    destruct (thread_drop_deferred_stack_unmap t s e) as [rcd t2]. cbn [snd]. destruct Hd as (Htb2 & Et2 & Hd).
    rewrite decide_True in Hd by (rewrite Hp; apply elem_of_cons; by left). destruct Hd as [_ Hd].
    assert (t_deferred t2 ≡ₚ rs ++ kept) as Hp' by (apply (Permutation_cons_inv (a:=(s, e))); by rewrite <- Hd, Hp).
    destruct (IH Hrs Hsep m2 t2 ((s, e) :: dn) ((s, e) :: all) kept G2) as (m' & t' & dn' & failed & El & Hf & G' & Htb' & Ht' & Eq).
    + by constructor.
    + apply list.Forall_forall. intros r Hri. constructor; [rewrite list.Forall_forall in Hs1; specialize (Hs1 r Hri); unfold apart in *; tauto|].
      rewrite list.Forall_forall in Hap. by apply Hap.
    + done.
    + done.
    + exists m', t', ((s, e) :: dn'), failed. split; [done|]. split; [by rewrite Hf|].
      split; [apply (ranges_gone_perm _ _ _ _ _ _ G'); solve_Permutation|]. split; [done|]. split; [done|]. rewrite Eq, Et2. by destruct t'.
Qed.

(** The whole cleanup. *)
Lemma mem_cleanup_spec m t : mm_ok c m -> thread_ok t -> Forall range_in_slab (t_deferred t) ->
  exists m' t' dn, mem_cleanup_deferred_stack_unmaps c m t = Some (m', t') /\ t_deferred t ≡ₚ dn ++ t_deferred t' /\
    ranges_gone m dn (t_deferred t) m' /\ thread_ok t' /\ (forall a, ~ on_stack t' a).
Proof using Hothers Hpage HP HF HVl HSll HFr HMl.
  intros Hm [Htb Hbusy] Hin. unfold mem_cleanup_deferred_stack_unmaps, thread_prepare_deferred_stack_unmaps_for_cleanup. cbn [Nat.eqb MAX_DEFERRED_STACK_UNMAPS].
  rewrite Hbusy. cbn [Z.ltb Z.compare]. run. rewrite take_ge by apply Htb. set (t1 := mk_thread _ _ 0 0 _ _).
  destruct (cleanup_loop_spec m (t_deferred t) Hm Hin (tb_separated _ Htb) m t1 [] [] []) as (m' & t' & dn & failed & E & Hp & G & Htb' & Ht' & Eq).
  - split; [by apply mm_kept_refl| | |]; [by intros a (? & ?%elem_of_nil & _)..|by split].
  - constructor.
  - apply list.Forall_forall. intros r _. constructor.
  - exact Htb.
  - by rewrite app_nil_r.
  - rewrite !app_nil_r in *. exists m', t', dn. split; [exact E|]. split; [by rewrite Ht'|]. split; [done|]. split; [split; [done|by rewrite Eq]|].
    intros a [_ Ha]. rewrite Eq in Ha. cbn in Ha. lia.
Qed.
End SysMunmap.
