(* ===== verification/SysMunmapSpecs.v ===== *)
(** * sys_munmap and thread exit: theorems *)

From Stdlib Require Import Sorting.Sorted Sorting.Permutation.
From stdpp Require Import sorting.
From S2P Require Import Prelude Tlbi Regions RegionFacts HostFds RegionSplit Gap PageTable DescFacts PtStruct PtView PtOps PtPages PtSpecs Gva Backing BackingSpecs Segments SegFacts SegSpecs Overlay OverlayFacts Mm MunmapFacts MiniHost MunmapSpecs ProtFacts Threads ThreadFacts Munmap SysMunmapFacts.

Import MiniHost SlabVm.

(** A sort that keeps the contract. *)
Definition by_start (a b : Z * Z) : Prop := fst a <= fst b.

#[local] Instance by_start_dec : RelDecision by_start.
Proof. intros a b. unfold by_start. apply _. Defined.

#[local] Instance by_start_total : Total by_start.
Proof. intros a b. unfold by_start. lia. Qed.

#[export] Program Instance merge_qsort : Qsort := { qsort_ranges := merge_sort by_start }.
Next Obligation. intros l. apply merge_sort_Permutation. Qed.
Next Obligation.
  intros l. pose proof (Sorted_merge_sort by_start l) as Hs. induction Hs as [|a l' Hs IH Hd]; constructor; [done|].
  destruct Hd as [|b l'' Hab]; constructor. unfold by_start, compare_range_pair in *. repeat case_if; unbool; lia.
Qed.

(** A thread whose stack is the middle half of the example's anonymous mapping,
    and an idle slot. *)
Definition ex_thread : thread_entry_t := mk_thread true 2 33574912 33583104 [] 0.
Definition ex_threads : list thread_entry_t := [mk_thread false 0 0 0 [] 0; ex_thread].

Lemma ex_threads_ok : Forall thread_ok ex_threads /\ Forall stack_aligned ex_threads.
Proof. split; repeat constructor; vm_compute; congruence || lia. Qed.

(** ** Theorems *)

(** C1: unmapping a page-aligned range of the slab while threads run returns and
    keeps the state invariant, the descriptors, the host files and the stage-2
    account.  On success exactly the addresses of the range outside the stacks
    of live threads are gone, from tracker and tables, with the pending TLBI
    request covering them; stacks and everything else stay mapped as they were,
    and in each thread's table exactly the part of its stack inside the range
    was added to what was deferred before.  On failure the thread table is
    exactly as it was and nothing outside the range was touched.  This holds for
    whatever order the C library's qsort gives ranges with equal starts. *)
Theorem sys_munmap_correct {H}
    `{HE : HostEnv H, HP : !HostPageOk H, HF : !HostFdLaws H, HVm : !HostVm H, HVl : !HostVmLaws H,
      HSl : !HostSlab H, HSll : !HostSlabLaws H, HMs : !HostMemset H, HFr : !HostFrame H, HQ : Qsort}
    (c : mm_env) `{HMl : !HostMemsetLaws H (e_shm_fd c)} (others : list (Z * Z)) (stop : bool) (m : mm H)
    (ts : list thread_entry_t) (addr len : Z) :
  let top := guest_size (e_layout c) in
  let e := addr + PAGE_ALIGN_UP len in
  Forall (fun r => top <= fst r) others -> ALIGN_UP top (host_page_size_cached (H:=H)) = top ->
  mm_ok c m -> 0 <= addr -> aligned addr -> 0 < len < 2 ^ 48 -> e <= top ->
  Forall thread_ok ts -> Forall stack_aligned ts -> (length ts <= MAX_THREADS)%nat ->
  let P a := addr <= a < e /\ ~ exists t, t ∈ ts /\ on_stack t a in
  exists rc m' ts', sys_munmap c stop m ts addr len = Some (rc, m', ts') /\ mm_kept c others m m' /\ rc <= 0 /\
    (rc = 0 -> unmapped_on m P m' /\ Forall2 (deferred_over addr e) ts ts') /\ (rc <> 0 -> touched_on m P m' /\ ts' = ts).
Proof. intros. by apply sys_munmap_low. Qed.

(** The whole anonymous mapping is unmapped around the thread's stack. *)
Lemma sys_munmap_correct_witness : exists m' ts',
  sys_munmap ex_env false ex_mm ex_threads 33570816 16384 = Some (0, m', ts') /\
  view (regions (m_trk m')) 33570816 = None /\ vmap (m_pt m') 33574912 = vmap (m_pt ex_mm) 33574912 /\
  map t_deferred ts' = [[]; [(33574912, 33583104)]].
Proof.
  destruct ex_threads_ok as [Hok Hal].
  destruct (sys_munmap_correct ex_env [] false ex_mm ex_threads 33570816 16384) as (rc & m' & ts' & E & _ & _ & S & _);
    [constructor|reflexivity|exact ex_mm_ok|lia|reflexivity|lia|vm_compute; congruence|exact Hok|exact Hal|cbn; unfold MAX_THREADS; lia|].
  assert (option_map (fun p => (fst (fst p), map t_deferred (snd p))) (sys_munmap ex_env false ex_mm ex_threads 33570816 16384) =
    Some (0, [[]; [(33574912, 33583104)]])) as X by (vm_compute; reflexivity).
  rewrite E in X. cbn [option_map fst snd] in X. apply (inj Some) in X. apply pair_equal_spec in X as [-> X2].
  exists m', ts'. split; [exact E|]. destruct (S eq_refl) as [U _]. split; [|split; [|exact X2]].
  - apply (uo_gone _ _ _ U). split; [vm_compute; split; congruence|].
    intros (t & [->|[->|[]%elem_of_nil]%elem_of_cons]%elem_of_cons & Ha & Hs); [discriminate Ha|]. cbn in Hs. lia.
  - apply (uo_map _ _ _ U); [lia|]. intros [_ Hn]. apply Hn. exists ex_thread. split; [right; left|]. split; [reflexivity|cbn; lia].
Defined.

(** Unmapping a range above the slab returns, keeps the state invariant and
    the threads, and on success either no region met the range and nothing
    changed, or exactly the range is gone from tracker and tables; on failure
    nothing outside the range was touched. *)
Theorem sys_munmap_high_correct {H}
    `{HE : HostEnv H, HP : !HostPageOk H, HF : !HostFdLaws H, HVm : !HostVm H, HVl : !HostVmLaws H,
      HSl : !HostSlab H, HSll : !HostSlabLaws H, HMs : !HostMemset H, HFr : !HostFrame H, HQ : Qsort}
    (c : mm_env) `{HMl : !HostMemsetLaws H (e_shm_fd c)} (others : list (Z * Z)) (stop : bool) (m : mm H)
    (ts : list thread_entry_t) (addr len : Z) :
  let top := guest_size (e_layout c) in
  let e := addr + PAGE_ALIGN_UP len in
  ALIGN_UP top (host_page_size_cached (H:=H)) = top -> mm_ok c m -> 0 <= addr -> aligned addr -> 0 < len < 2 ^ 48 ->
  top <= addr -> e <= 2 ^ 48 -> Forall (fun r => r_end r <= top \/ top <= r_start r) (regions (m_trk m)) ->
  let P a := addr <= a < e in
  exists rc m', sys_munmap c stop m ts addr len = Some (rc, m', ts) /\ mm_kept c others m m' /\ rc <= 0 /\
    (rc = 0 -> (m' = m /\ forall a, P a -> view (regions (m_trk m)) a = None) \/ unmapped_on m P m') /\ (rc <> 0 -> touched_on m P m').
Proof. intros. by apply sys_munmap_high. Qed.

(** Nothing is tracked above the example's slab. *)
Lemma sys_munmap_high_correct_witness : exists m',
  sys_munmap ex_env false ex_mm ex_threads 8589934592 4096 = Some (0, m', ex_threads) /\ view (regions (m_trk m')) 8589934592 = None.
Proof.
  destruct (sys_munmap_high_correct ex_env [] false ex_mm ex_threads 8589934592 4096) as (rc & m' & E & _ & _ & S & _);
    [reflexivity|exact ex_mm_ok|lia|reflexivity|lia|vm_compute; congruence|vm_compute; congruence|constructor; [left; vm_compute; congruence|constructor; [left; vm_compute; congruence|constructor]]|].
  assert (option_map (fun p => fst (fst p)) (sys_munmap ex_env false ex_mm ex_threads 8589934592 4096) = Some 0) as X by (vm_compute; reflexivity).
  rewrite E in X. cbn [option_map fst snd] in X. apply (inj Some) in X. subst rc. exists m'. split; [exact E|].
  assert (8589934592 <= 8589934592 < 8589934592 + PAGE_ALIGN_UP 4096) as Hin by (vm_compute; split; congruence).
  destruct (S eq_refl) as [[-> Hn]|U]; [exact (Hn _ Hin)|exact (uo_gone _ _ _ U _ Hin)].
Defined.

(** When a thread exits, every range its table deferred is unmapped from
    tracker and tables or is still in the table because its unmap failed; the
    table stays well formed, the thread has no stack any more, and nothing
    outside the deferred ranges was touched. *)
Theorem mem_cleanup_deferred_correct {H}
    `{HE : HostEnv H, HP : !HostPageOk H, HF : !HostFdLaws H, HVm : !HostVm H, HVl : !HostVmLaws H,
      HSl : !HostSlab H, HSll : !HostSlabLaws H, HMs : !HostMemset H, HFr : !HostFrame H}
    (c : mm_env) `{HMl : !HostMemsetLaws H (e_shm_fd c)} (others : list (Z * Z)) (m : mm H) (t : thread_entry_t) :
  Forall (fun r => guest_size (e_layout c) <= fst r) others ->
  ALIGN_UP (guest_size (e_layout c)) (host_page_size_cached (H:=H)) = guest_size (e_layout c) ->
  mm_ok c m -> thread_ok t -> Forall (range_in_slab c) (t_deferred t) ->
  exists m' t' dn, mem_cleanup_deferred_stack_unmaps c m t = Some (m', t') /\ t_deferred t ≡ₚ dn ++ t_deferred t' /\
    ranges_gone c others m dn (t_deferred t) m' /\ thread_ok t' /\ (forall a, ~ on_stack t' a).
Proof. intros. by apply mem_cleanup_spec. Qed.

(** The thread's stack was unmapped before it exits. *)
Lemma mem_cleanup_deferred_correct_witness : exists m' t',
  mem_cleanup_deferred_stack_unmaps ex_env ex_mm (set_deferred [(33574912, 33583104)] ex_thread) = Some (m', t') /\
  t_deferred t' = [] /\ view (regions (m_trk m')) 33574912 = None /\ vmap (m_pt m') 33574912 = None.
Proof.
  destruct (mem_cleanup_deferred_correct ex_env [] ex_mm (set_deferred [(33574912, 33583104)] ex_thread)) as (m' & t' & dn & E & Hp & G & _);
    [constructor|reflexivity|exact ex_mm_ok|repeat constructor; vm_compute; lia|repeat constructor; vm_compute; congruence|].
  assert (option_map (fun p => t_deferred (snd p)) (mem_cleanup_deferred_stack_unmaps ex_env ex_mm (set_deferred [(33574912, 33583104)] ex_thread)) =
    Some []) as X by (vm_compute; reflexivity).
  rewrite E in X. cbn [option_map fst snd] in X. apply (inj Some) in X. rewrite X, app_nil_r in Hp.
  assert (in_ranges dn 33574912) as Hin by (apply (in_ranges_perm _ _ Hp); eexists; split; [left|cbn; lia]).
  exists m', t'. split; [exact E|]. split; [exact X|]. split; [exact (rg_view _ _ _ _ _ _ G _ Hin)|exact (rg_map _ _ _ _ _ _ G _ Hin)].
Defined.

(** ** A stack that does not end on a page boundary

    As clone3 may give it: the unmap of the rest of the last page takes that
    whole page away from the running thread, although its bytes below the end
    of the stack are only deferred. *)

Definition ex_odd_thread : thread_entry_t := mk_thread true 2 33570816 33583000 [] 0.

Lemma munmap_cuts_unaligned_stack :
  option_map (fun p => (fst (fst p), map t_deferred (snd p), vmap (m_pt (snd (fst p))) 33582000,
      bool_decide (is_Some (view (regions (m_trk (snd (fst p)))) 33582000))))
    (sys_munmap ex_env false ex_mm [ex_odd_thread] 33570816 16384) =
  Some (0, [[(33570816, 33583000)]], None, true) /\
  vmap (m_pt ex_mm) 33582000 = Some (33582000, 3).
Proof. vm_compute. split; reflexivity. Qed.
