(* ===== verification/FdTable.v ===== *)
(** * The guest descriptor table (src/syscall/fdtable.c)

    [fds] is the state behind [fd_lock]: the table, the free bitmap, the two
    counters, the bitmap the EL1 read path consults, the heaps of lifetimes and
    of directory streams (a freed cell is [None], an address is never reused), and
    the host.  Calls into other modules that only act
    on their own tables (epoll registrations, per-type teardown, pty tables,
    readiness watches) are recorded in [f_log], in order, with their arguments.
    Thread-local alias state is passed as an argument.  [rlim] is what
    [sys_rlimit_cur] answers and [single] what [thread_is_single_active] does. *)

From S2P Require Import Prelude Bits Regions.

(** ** Constants (src/syscall/linux-wire.h, src/elfuse-limits.h) *)

Definition FD_TABLE_SIZE : Z := 1024.
Definition FD_BITMAP_WORDS : Z := 16.
Definition FDSET_BITS_PER_WORD : Z := 64.
Definition FDSET_MAX_FDS : Z := 1024.

Definition FD_CLOSED : Z := 0.
Definition FD_STDIO : Z := 1.
Definition FD_REGULAR : Z := 2.
Definition FD_DIR : Z := 3.
Definition FD_PIPE : Z := 4.
Definition FD_SOCKET : Z := 5.
Definition FD_EPOLL : Z := 6.
Definition FD_TIMERFD : Z := 7.
Definition FD_EVENTFD : Z := 8.
Definition FD_SIGNALFD : Z := 9.
Definition FD_INOTIFY : Z := 10.
Definition FD_NETLINK : Z := 12.
Definition FD_PIDFD : Z := 13.
Definition FD_URANDOM : Z := 17.
Definition FD_USBDEV : Z := 18.

Definition LINUX_O_RDONLY : Z := 0.
Definition LINUX_O_WRONLY : Z := 1.
Definition LINUX_O_RDWR : Z := 2.
Definition LINUX_O_ACCMODE : Z := 3.
Definition LINUX_O_APPEND : Z := 1024.
Definition LINUX_O_NONBLOCK : Z := 2048.
Definition LINUX_O_ASYNC : Z := 8192.
Definition LINUX_O_DIRECTORY : Z := 16384.
Definition LINUX_O_NOFOLLOW : Z := 32768.
Definition LINUX_O_DIRECT : Z := 65536.
Definition LINUX_O_LARGEFILE : Z := 131072.
Definition LINUX_O_NOATIME : Z := 262144.
Definition LINUX_O_CLOEXEC : Z := 524288.
Definition LINUX_O_PATH : Z := 2097152.

Definition FASYNC_OWNER_NONE : Z := 0.

Definition FD_DESCRIPTION_FLAGS : Z :=
  Z.lor LINUX_O_ACCMODE (Z.lor LINUX_O_PATH (Z.lor LINUX_O_DIRECTORY (Z.lor LINUX_O_NOFOLLOW
    (Z.lor LINUX_O_DIRECT (Z.lor LINUX_O_LARGEFILE (Z.lor LINUX_O_NONBLOCK (Z.lor LINUX_O_ASYNC
      (Z.lor LINUX_O_APPEND LINUX_O_NOATIME)))))))).

(** ** Data *)

(** [e_dir] names a directory stream for FD_DIR and an epoll instance for
    FD_EPOLL; [e_sock_valid] is the validity mask of the socket option cache. *)
Record fd_entry_t := mk_entry {
  e_type : Z;
  e_host_fd : Z;
  e_lifetime : option nat;
  e_ofd_id : Z;
  e_generation : Z;
  e_linux_flags : Z;
  e_dir : option nat;
  e_proc_path : string;
  e_path_poll_capable : bool;
  e_seals : Z;
  e_can_block : bool;
  e_foreign_description : bool;
  e_nonblock_owned : bool;
  e_fasync_owner_type : Z;
  e_fasync_owner : Z;
  e_sock_valid : Z;
  e_cleanup : option nat
}.

Record fd_lifetime := mk_lifetime {
  lt_refs : Z;
  lt_host_fd : Z;
  lt_type : Z;
  lt_dir : option nat
}.

(** The reference count of a directory stream and the descriptor it adopted. *)
Record dir_stream_t := mk_stream { ds_refcount : Z; ds_host_fd : Z }.

Record fd_alias_spec_t := mk_alias {
  as_ofd_id : Z;
  as_linux_flags : Z;
  as_foreign_description : bool;
  as_nonblock_owned : bool;
  as_path_poll_capable : bool;
  as_src_guest_fd : Z;
  as_src_generation : Z
}.

Record fd_host_probe_t := mk_probe { pr_can_block : bool; pr_nonblock_owned : bool; pr_restore_flags : Z }.

(** Calls into other modules. *)
Inductive peer_call :=
  | EpollNoteClosed (fd ofd_id : Z)
  | EpollInstanceFree (inst : nat)
  | TypeCleanup (fn : nat) (guest_fd : Z)
  | PtyForget (host_fd : Z)
  | AsyncioDisarm (host_fd : Z).

(** What the table asks the host about a descriptor besides dup and close: does
    fstat say a transfer may block, and the status flags. *)
Class FdHost (H : Type) := {
  fstat_may_block : H -> Z -> bool;
  fcntl_getfl : H -> Z -> Z;
  fcntl_setfl : H -> Z -> Z -> Z * H;
  O_NONBLOCK : Z
}.

Record fds (H : Type) := mk_fds {
  f_table : list fd_entry_t;
  f_free : list Z;
  f_next_generation : Z;
  f_next_ofd_id : Z;
  f_urandom : list Z;
  f_lifetimes : list (option fd_lifetime);
  f_streams : list (option dir_stream_t);
  f_log : list peer_call;
  f_host : H
}.
Arguments mk_fds {H} _ _ _ _ _ _ _ _ _.
Arguments f_table {H} _.
Arguments f_free {H} _.
Arguments f_next_generation {H} _.
Arguments f_next_ofd_id {H} _.
Arguments f_urandom {H} _.
Arguments f_lifetimes {H} _.
Arguments f_streams {H} _.
Arguments f_log {H} _.
Arguments f_host {H} _.

(** An entry of a zeroed table. *)
Definition zero_entry : fd_entry_t :=
  mk_entry FD_CLOSED 0 None 0 0 0 None "" false 0 false false false 0 0 0 None.

(** ** Bitmaps of 64-bit words *)

Definition bitmap_set (words : list Z) (i : Z) : list Z :=
  alter (fun w => Z.lor w (Z.shiftl 1 (Z.land i 63))) (Z.to_nat (Z.shiftr i 6)) words.
Definition bitmap_clear (words : list Z) (i : Z) : list Z :=
  alter (fun w => Z.land w (not64 (Z.shiftl 1 (Z.land i 63)))) (Z.to_nat (Z.shiftr i 6)) words.

(** proved/fdset.h *)
Definition fdset_slot (fd : Z) : option (Z * Z) :=
  if (fd <? 0) || (FDSET_MAX_FDS <=? fd) then None
  else Some (fd / FDSET_BITS_PER_WORD, fd mod FDSET_BITS_PER_WORD).

(** The walk over the words from [word] on, the first with a mask. *)
Fixpoint find_free_words (words : list Z) (word mask : Z) : Z :=
  match words with
  | [] => -1
  | w :: words =>
      let free_bits := Z.land w mask in
      if negb (free_bits =? 0) then word * FDSET_BITS_PER_WORD + bit_ctz64 free_bits
      else find_free_words words (word + 1) UINT64_MAX
  end.

Definition fd_bitmap_find_free (words : list Z) (minfd : Z) : Z :=
  let minfd := if minfd <? 0 then 0 else minfd in
  match fdset_slot minfd with
  | None => -1
  | Some (word, bit) =>
      find_free_words (drop (Z.to_nat word) words) word (wrap64 (Z.shiftl UINT64_MAX bit))
  end.

(** [RANGE_CHECK(fd, 0, FD_TABLE_SIZE)] on an int. *)
Definition fd_in_range (fd : Z) : bool := (0 <=? fd) && (fd <? FD_TABLE_SIZE).

Definition rlimit_nofile_cur (rlim : Z) : Z := if FD_TABLE_SIZE <? rlim then FD_TABLE_SIZE else rlim.

(** ** Per-type facts *)

Definition fd_type_accmode (type : Z) : Z :=
  if (type =? FD_EVENTFD) || (type =? FD_SIGNALFD) || (type =? FD_TIMERFD) || (type =? FD_EPOLL) ||
     (type =? FD_PIDFD) || (type =? FD_NETLINK) then LINUX_O_RDWR
  else if type =? FD_INOTIFY then LINUX_O_RDONLY
  else -1.

Definition fd_flags_with_accmode (type linux_flags : Z) : Z :=
  let accmode := fd_type_accmode type in
  if accmode <? 0 then linux_flags else Z.lor (Z.land linux_flags (Z.lnot LINUX_O_ACCMODE)) accmode.

Definition fd_type_is_synthetic (type : Z) : bool :=
  (type =? FD_EVENTFD) || (type =? FD_SIGNALFD) || (type =? FD_TIMERFD) || (type =? FD_INOTIFY) ||
  (type =? FD_NETLINK) || (type =? FD_PIDFD) || (type =? FD_EPOLL) || (type =? FD_USBDEV).

Definition fd_nonblock_shadowed (type : Z) (nonblock_owned : bool) : bool :=
  nonblock_owned || fd_type_is_synthetic type.

(** The teardown registered for a type; the registry is indexed by type. *)
Definition FD_TYPE_REGISTRY_SIZE : Z := 32.
Definition fd_register_cleanup (registry : list (option nat)) (type : Z) (cleanup : option nat) : list (option nat) :=
  if (type <? 0) || (FD_TYPE_REGISTRY_SIZE <=? type) then registry else <[Z.to_nat type := cleanup]> registry.
Definition fd_cleanup_for_type (registry : list (option nat)) (type : Z) : option nat :=
  if (type <? 0) || (FD_TYPE_REGISTRY_SIZE <=? type) then None else mjoin (registry !! Z.to_nat type).

Section FdTable.
Context {H : Type} `{HE : HostEnv H, HX : !FdHost H}.

Definition set_table (l : list fd_entry_t) (s : fds H) : fds H :=
  mk_fds l (f_free s) (f_next_generation s) (f_next_ofd_id s) (f_urandom s) (f_lifetimes s) (f_streams s) (f_log s) (f_host s).
Definition set_free (l : list Z) (s : fds H) : fds H :=
  mk_fds (f_table s) l (f_next_generation s) (f_next_ofd_id s) (f_urandom s) (f_lifetimes s) (f_streams s) (f_log s) (f_host s).
Definition set_urandom (l : list Z) (s : fds H) : fds H :=
  mk_fds (f_table s) (f_free s) (f_next_generation s) (f_next_ofd_id s) l (f_lifetimes s) (f_streams s) (f_log s) (f_host s).
Definition set_next (gen ofd : Z) (s : fds H) : fds H :=
  mk_fds (f_table s) (f_free s) gen ofd (f_urandom s) (f_lifetimes s) (f_streams s) (f_log s) (f_host s).
Definition set_lifetimes (m : list (option fd_lifetime)) (s : fds H) : fds H :=
  mk_fds (f_table s) (f_free s) (f_next_generation s) (f_next_ofd_id s) (f_urandom s) m (f_streams s) (f_log s) (f_host s).
Definition set_streams (m : list (option dir_stream_t)) (s : fds H) : fds H :=
  mk_fds (f_table s) (f_free s) (f_next_generation s) (f_next_ofd_id s) (f_urandom s) (f_lifetimes s) m (f_log s) (f_host s).
Definition set_host (h : H) (s : fds H) : fds H :=
  mk_fds (f_table s) (f_free s) (f_next_generation s) (f_next_ofd_id s) (f_urandom s) (f_lifetimes s) (f_streams s) (f_log s) h.
Definition peer (c : peer_call) (s : fds H) : fds H :=
  mk_fds (f_table s) (f_free s) (f_next_generation s) (f_next_ofd_id s) (f_urandom s) (f_lifetimes s) (f_streams s) (f_log s ++ [c]) (f_host s).

Definition slot (s : fds H) (fd : Z) : fd_entry_t := nth (Z.to_nat fd) (f_table s) zero_entry.
Definition put_slot (s : fds H) (fd : Z) (e : fd_entry_t) : fds H := set_table (<[Z.to_nat fd := e]> (f_table s)) s.
Definition lifetime_at (s : fds H) (l : nat) : option fd_lifetime := mjoin (f_lifetimes s !! l).
Definition stream_at (s : fds H) (d : nat) : option dir_stream_t := mjoin (f_streams s !! d).
Definition is_open (e : fd_entry_t) : bool := negb (e_type e =? FD_CLOSED).

Definition fd_bitmap_set_free (s : fds H) (fd : Z) : fds H := set_free (bitmap_set (f_free s) fd) s.
Definition fd_bitmap_set_used (s : fds H) (fd : Z) : fds H := set_free (bitmap_clear (f_free s) fd) s.

(** The bitmap of the shim; nothing happens outside the table. *)
Definition shim_globals_mark_urandom_fd (s : fds H) (fd : Z) (is_urandom : bool) : fds H :=
  if (fd <? 0) || (FD_TABLE_SIZE <=? fd) then s
  else set_urandom (if is_urandom then bitmap_set (f_urandom s) fd else bitmap_clear (f_urandom s) fd) s.

(** ** Probing the host *)

Definition host_fd_may_block (h : H) (host_fd : Z) : bool := (0 <=? host_fd) && fstat_may_block h host_fd.

Definition type_may_block (h : H) (type host_fd : Z) : bool :=
  if (type =? FD_PIPE) || (type =? FD_SOCKET) then true
  else if (type =? FD_STDIO) || (type =? FD_REGULAR) then host_fd_may_block h host_fd
  else false.

Definition fd_set_nonblock (h : H) (fd : Z) : Z * H :=
  let flags := fcntl_getfl h fd in
  if flags <? 0 then (-1, h) else fcntl_setfl h fd (Z.lor flags O_NONBLOCK).

Definition fd_probe_host (h : H) (alias : option fd_alias_spec_t) (type host_fd : Z) : fd_host_probe_t * H :=
  let can_block := type_may_block h type host_fd in
  match alias with
  | Some spec => (mk_probe can_block (as_nonblock_owned spec) (-1), h)
  | None =>
      if negb can_block || (type =? FD_STDIO) then (mk_probe can_block false (-1), h)
      else
        let old_flags := fcntl_getfl h host_fd in
        let '(rc, h) := fd_set_nonblock h host_fd in
        let owned := 0 <=? rc in
        (mk_probe can_block owned
           (if owned && (0 <=? old_flags) && (Z.land old_flags O_NONBLOCK =? 0) then old_flags else -1), h)
  end.

Definition fd_probe_rollback (h : H) (probe : fd_host_probe_t) (host_fd : Z) : H :=
  if pr_restore_flags probe <? 0 then h else snd (fcntl_setfl h host_fd (pr_restore_flags probe)).

(** ** Publishing a slot *)

(** The description state taken again from the live source. *)
Definition refresh_alias (s : fds H) (spec : fd_alias_spec_t) : fd_alias_spec_t :=
  let src := slot s (as_src_guest_fd spec) in
  if (0 <=? as_src_guest_fd spec) && fd_in_range (as_src_guest_fd spec) &&
     is_open src && (e_generation src =? as_src_generation spec)
  then mk_alias (e_ofd_id src)
         (Z.lor (Z.land (as_linux_flags spec) (Z.lnot FD_DESCRIPTION_FLAGS)) (Z.land (e_linux_flags src) FD_DESCRIPTION_FLAGS))
         (e_foreign_description src) (e_nonblock_owned src) (e_path_poll_capable src)
         (as_src_guest_fd spec) (as_src_generation spec)
  else spec.

(** The type, descriptor and cleared lifetime are written before the source of an
    alias is read, which matters when an alias replaces its own source. *)
Definition fd_init_entry (s : fds H) (fd type host_fd : Z) (cleanup : option nat) (probe : fd_host_probe_t)
    (alias : option fd_alias_spec_t) : fds H :=
  let s := fd_bitmap_set_used s fd in
  let e := slot s fd in
  let s := put_slot s fd (mk_entry type host_fd None (e_ofd_id e) (e_generation e) (e_linux_flags e) (e_dir e) (e_proc_path e)
             (e_path_poll_capable e) (e_seals e) (e_can_block e) (e_foreign_description e) (e_nonblock_owned e)
             (e_fasync_owner_type e) (e_fasync_owner e) (e_sock_valid e) (e_cleanup e)) in
  let alias := option_map (refresh_alias s) alias in
  let '(ofd_id, next_ofd) :=
    match alias with
    | Some spec => if negb (as_ofd_id spec =? 0) then (as_ofd_id spec, f_next_ofd_id s)
                   else (f_next_ofd_id s, (f_next_ofd_id s + 1)%u64)
    | None => (f_next_ofd_id s, (f_next_ofd_id s + 1)%u64)
    end in
  let generation := f_next_generation s in
  let accmode := fd_type_accmode type in
  let seeded := if accmode <? 0 then 0 else accmode in
  let linux_flags :=
    match alias with
    | Some spec => if negb (as_linux_flags spec =? 0) then fd_flags_with_accmode type (as_linux_flags spec) else seeded
    | None => seeded
    end in
  let e := mk_entry type host_fd None ofd_id generation linux_flags None ""
             (match alias with Some spec => as_path_poll_capable spec | None => false end) 0 (pr_can_block probe)
             (match alias with Some spec => as_foreign_description spec | None => type =? FD_STDIO end)
             (match alias with Some spec => as_nonblock_owned spec | None => pr_nonblock_owned probe end)
             FASYNC_OWNER_NONE 0 0 cleanup in
  shim_globals_mark_urandom_fd (set_next (generation + 1)%u64 next_ofd (put_slot s fd e)) fd false.

Definition fd_refresh_urandom_bitmap (s : fds H) (fd : Z) : fds H :=
  if negb (fd_in_range fd) then s
  else
    let e := slot s fd in
    shim_globals_mark_urandom_fd s fd
      ((e_type e =? FD_URANDOM) && negb (Z.land (e_linux_flags e) LINUX_O_ACCMODE =? LINUX_O_WRONLY)).

(** ** Allocation *)

Definition fd_alloc_locked (rlim : Z) (s : fds H) (minfd type host_fd : Z) (cleanup : option nat) (probe : fd_host_probe_t)
    (alias : option fd_alias_spec_t) : Z * fds H :=
  let fd := fd_bitmap_find_free (f_free s) minfd in
  let fd := if (0 <=? fd) && (rlimit_nofile_cur rlim <=? fd) then -1 else fd in
  if fd <? 0 then (-1, set_host (fd_probe_rollback (f_host s) probe host_fd) s)
  else (fd, fd_init_entry s fd type host_fd cleanup probe alias).

(** Probe, then the locked part. *)
Definition with_probe {R} (s : fds H) (alias : option fd_alias_spec_t) (type host_fd : Z) (k : fds H -> fd_host_probe_t -> R) : R :=
  let '(probe, h) := fd_probe_host (f_host s) alias type host_fd in k (set_host h s) probe.

Definition fd_alloc (rlim : Z) (alias : option fd_alias_spec_t) (s : fds H) (type host_fd : Z) (cleanup : option nat) : Z * fds H :=
  with_probe s alias type host_fd (fun s probe => fd_alloc_locked rlim s 0 type host_fd cleanup probe alias).

(** The publication of [dir] and the flags in the same critical section. *)
Definition publish_dir (s : fds H) (fd : Z) (dir : option nat) (linux_flags : Z) : fds H :=
  let e := slot s fd in
  put_slot s fd (mk_entry (e_type e) (e_host_fd e) (e_lifetime e) (e_ofd_id e) (e_generation e)
    (fd_flags_with_accmode (e_type e) linux_flags) dir (e_proc_path e) (e_path_poll_capable e) (e_seals e) (e_can_block e)
    (e_foreign_description e) (e_nonblock_owned e) (e_fasync_owner_type e) (e_fasync_owner e) (e_sock_valid e) (e_cleanup e)).

(** The critical section of the allocators that also publish a directory. *)
Definition alloc_dir_locked (rlim : Z) (s : fds H) (minfd type host_fd : Z) (cleanup : option nat) (probe : fd_host_probe_t)
    (alias : option fd_alias_spec_t) (dir : option nat) (linux_flags : Z) : Z * fds H :=
  let '(fd, s) := fd_alloc_locked rlim s minfd type host_fd cleanup probe alias in
  if 0 <=? fd then (fd, publish_dir s fd dir linux_flags) else (fd, s).

Definition fd_alloc_dir_from (rlim : Z) (alias : option fd_alias_spec_t) (s : fds H) (minfd type host_fd : Z) (cleanup : option nat)
    (dir : option nat) (linux_flags : Z) : Z * Z * fds H :=
  with_probe s alias type host_fd (fun s probe =>
    let '(fd, s) := alloc_dir_locked rlim s minfd type host_fd cleanup probe alias dir linux_flags in
    (fd, if 0 <=? fd then e_generation (slot s fd) else 0, s)).

Definition fd_alloc_dir (rlim : Z) (alias : option fd_alias_spec_t) (s : fds H) (type host_fd : Z) (cleanup : option nat)
    (dir : option nat) (linux_flags : Z) : Z * fds H :=
  with_probe s alias type host_fd (fun s probe => alloc_dir_locked rlim s 0 type host_fd cleanup probe alias dir linux_flags).

(** The generation of the new slot is the second result. *)
Definition fd_alloc_from (rlim : Z) (alias : option fd_alias_spec_t) (s : fds H) (minfd type host_fd : Z) (cleanup : option nat)
    : Z * Z * fds H :=
  with_probe s alias type host_fd (fun s probe =>
    let '(fd, s) := fd_alloc_locked rlim s minfd type host_fd cleanup probe alias in
    (fd, if 0 <=? fd then e_generation (slot s fd) else 0, s)).

Definition fd_reserve_ofd_id (s : fds H) : Z * fds H :=
  (f_next_ofd_id s, set_next (f_next_generation s) (f_next_ofd_id s + 1)%u64 s).

Definition fd_reexec_slot_available (rlim : Z) (s : fds H) (minfd : Z) : bool :=
  let minfd := if minfd <? 0 then 0 else minfd in
  let limit := rlimit_nofile_cur rlim in
  let limit := if FD_TABLE_SIZE <? limit then FD_TABLE_SIZE else limit in
  existsb (fun e => (e_type e =? FD_CLOSED) || has (e_linux_flags e) LINUX_O_CLOEXEC)
    (drop (Z.to_nat minfd) (take (Z.to_nat limit) (f_table s))).

(** ** Closing *)

(** The slot's lifetime is detached, not released: it is the second result. *)
Definition fd_mark_closed_unlocked (s : fds H) (fd : Z) : fds H * option nat :=
  let e := slot s fd in
  let s := shim_globals_mark_urandom_fd s fd false in
  let s := put_slot s fd (mk_entry FD_CLOSED (-1) None 0 (e_generation e) 0 None "" false 0 (e_can_block e)
             (e_foreign_description e) (e_nonblock_owned e) FASYNC_OWNER_NONE 0 (e_sock_valid e) (e_cleanup e)) in
  let s := fd_bitmap_set_free s fd in
  (peer (EpollNoteClosed fd (e_ofd_id e)) s, e_lifetime e).

Definition fd_mark_closed (s : fds H) (fd : Z) : fds H * option nat := fd_mark_closed_unlocked s fd.

Definition fd_snapshot_locked (s : fds H) (fd : Z) (close_it : bool) : option fd_entry_t * fds H :=
  let e := slot s fd in
  if e_type e =? FD_CLOSED then (None, s)
  else (Some e, if close_it then fst (fd_mark_closed_unlocked s fd) else s).

Definition fd_snapshot_and_close (s : fds H) (fd : Z) : option fd_entry_t * fds H :=
  if negb (fd_in_range fd) then (None, s) else fd_snapshot_locked s fd true.

Definition fd_snapshot_and_close_relaxed (single : bool) (s : fds H) (fd : Z) : option fd_entry_t * fds H :=
  if negb (fd_in_range fd) then (None, s)
  else if negb single then fd_snapshot_and_close s fd
  else fd_snapshot_locked s fd true.

Definition fd_close_regular_relaxed (single : bool) (s : fds H) (fd : Z) : option Z * fds H :=
  if negb (fd_in_range fd) || negb single then (None, s)
  else
    let e := slot s fd in
    if negb (e_type e =? FD_REGULAR) || bool_decide (is_Some (e_dir e)) || bool_decide (is_Some (e_cleanup e)) ||
       bool_decide (is_Some (e_lifetime e)) then (None, s)
    else (Some (e_host_fd e), fst (fd_mark_closed_unlocked s fd)).

(** ** References *)

Definition dir_stream_ref_locked (s : fds H) (d : nat) : fds H :=
  set_streams (alter (option_map (fun ds => mk_stream (ds_refcount ds + 1) (ds_host_fd ds))) d (f_streams s)) s.

(** The last reference closes the descriptor the stream adopted. *)
Definition dir_stream_release (s : fds H) (d : nat) : fds H :=
  match stream_at s d with
  | None => s
  | Some ds =>
      if ds_refcount ds - 1 =? 0
      then set_host (host_close (f_host s) (ds_host_fd ds)) (set_streams (<[d := None]> (f_streams s)) s)
      else set_streams (<[d := Some (mk_stream (ds_refcount ds - 1) (ds_host_fd ds))]> (f_streams s)) s
  end.

(** [spare] says a preallocated object is at hand; [None] is the C NULL. *)
Definition fd_lifetime_pin_spare (malloc_ok : bool) (s : fds H) (fd : Z) (spare : bool) : option nat * fds H :=
  let e := slot s fd in
  if negb (fd_in_range fd) then (None, s)
  else if (e_type e =? FD_CLOSED) || (e_host_fd e <? 0) then (None, s)
  else
    match e_lifetime e with
    | Some l =>
        (Some l, set_lifetimes (alter (option_map (fun x => mk_lifetime (lt_refs x + 1) (lt_host_fd x) (lt_type x) (lt_dir x))) l
                   (f_lifetimes s)) s)
    | None =>
        if spare || malloc_ok then
          let l := length (f_lifetimes s) in
          let dir := if e_type e =? FD_DIR then e_dir e else None in
          let s := match dir with Some d => dir_stream_ref_locked s d | None => s end in
          let s := put_slot s fd (mk_entry (e_type e) (e_host_fd e) (Some l) (e_ofd_id e) (e_generation e) (e_linux_flags e) (e_dir e)
                     (e_proc_path e) (e_path_poll_capable e) (e_seals e) (e_can_block e) (e_foreign_description e)
                     (e_nonblock_owned e) (e_fasync_owner_type e) (e_fasync_owner e) (e_sock_valid e) (e_cleanup e)) in
          (Some l, set_lifetimes (f_lifetimes s ++ [Some (mk_lifetime 2 (e_host_fd e) (e_type e) dir)]) s)
        else (None, s)
    end.

Definition fd_lifetime_pin_locked (malloc_ok : bool) (s : fds H) (fd : Z) : option nat * fds H :=
  fd_lifetime_pin_spare malloc_ok s fd false.

(** One pass of [fd_host_ref_acquire]: an error, a retry with an allocation, or
    the pinned lifetime with the descriptor. *)
Inductive acquire_result := AcqBadf | AcqNomem | AcqRetry | AcqOk (host_fd : Z) (l : nat).

Definition acquire_pass (s : fds H) (fd : Z) (spare : bool) : acquire_result * fds H :=
  match fst (fd_snapshot_locked s fd false) with
  | None => (AcqBadf, s)
  | Some out =>
      if e_host_fd out <? 0 then (AcqBadf, s)
      else if bool_decide (is_Some (e_lifetime out)) || spare then
        match fd_lifetime_pin_spare false s fd spare with
        | (None, s) => (AcqNomem, s)
        | (Some l, s) => (AcqOk (e_host_fd out) l, s)
        end
      else (AcqRetry, s)
  end.

(** The passes with nothing in between; [malloc_ok] answers each allocation. *)
Fixpoint fd_host_ref_acquire (fuel : nat) (malloc_ok : nat -> bool) (s : fds H) (fd : Z) (spare : bool) : option (acquire_result * fds H) :=
  match fuel with
  | O => None
  | S fuel =>
      if negb (fd_in_range fd) then Some (AcqBadf, s)
      else
        match acquire_pass s fd spare with
        | (AcqRetry, s) => if malloc_ok fuel then fd_host_ref_acquire fuel malloc_ok s fd true else Some (AcqNomem, s)
        | r => Some r
        end
  end.

(** Dropping a reference; the last one gives the descriptor back. *)
Definition fd_lifetime_release (s : fds H) (l : nat) : fds H :=
  match lifetime_at s l with
  | None => s
  | Some x =>
      if negb (lt_refs x =? 1)
      then set_lifetimes (<[l := Some (mk_lifetime (lt_refs x - 1) (lt_host_fd x) (lt_type x) (lt_dir x))]> (f_lifetimes s)) s
      else
        let s := set_lifetimes (<[l := None]> (f_lifetimes s)) s in
        match lt_dir x with
        | Some d => dir_stream_release s d
        | None => if negb (lt_type x =? FD_STDIO) then set_host (host_close (f_host s) (lt_host_fd x)) s else s
        end
  end.

(** ** Teardown of a removed entry *)

(** The other modules are told first. *)
Definition cleanup_peers (s : fds H) (guest_fd : Z) (snap : fd_entry_t) : fds H :=
  let s := match e_dir snap with
           | Some i => if e_type snap =? FD_EPOLL then peer (EpollInstanceFree i) s else s
           | None => s
           end in
  let s := match e_cleanup snap with Some fn => peer (TypeCleanup fn guest_fd) s | None => s end in
  let s := peer (PtyForget (e_host_fd snap)) s in
  if has (e_linux_flags snap) LINUX_O_ASYNC ||
     ((e_type snap =? FD_SOCKET) && negb (e_fasync_owner_type snap =? FASYNC_OWNER_NONE))
  then peer (AsyncioDisarm (e_host_fd snap)) s else s.

Definition fd_cleanup_entry (s : fds H) (guest_fd : Z) (snap : fd_entry_t) : fds H :=
  let stream := if e_type snap =? FD_DIR then e_dir snap else None in
  let s := cleanup_peers s guest_fd snap in
  let s := match e_lifetime snap with
           | Some l => fd_lifetime_release s l
           | None => match stream with
                     | Some _ => s
                     | None => if negb (e_type snap =? FD_STDIO) then set_host (host_close (f_host s) (e_host_fd snap)) s else s
                     end
           end in
  match stream with Some d => dir_stream_release s d | None => s end.

(** ** Allocation at a fixed slot *)

(** The critical section: the previous occupant, if any, is the last result. *)
Definition alloc_at_locked (alias : option fd_alias_spec_t) (s : fds H) (fd type host_fd : Z) (cleanup : option nat)
    (probe : fd_host_probe_t) (dir : option (option nat * Z)) : Z * fds H * option fd_entry_t :=
  let e := slot s fd in
  let '(old, s) := if is_open e then (Some e, peer (EpollNoteClosed fd (e_ofd_id e)) s) else (None, s) in
  let s := fd_init_entry s fd type host_fd cleanup probe alias in
  let s := match dir with Some (d, flags) => publish_dir s fd d flags | None => s end in
  (e_generation (slot s fd), s, old).

Definition finish_at (fd : Z) (r : Z * fds H * option fd_entry_t) : Z * Z * fds H :=
  let '(gen, s, old) := r in
  (fd, gen, match old with Some snap => fd_cleanup_entry s fd snap | None => s end).

Definition fd_alloc_dir_at (rlim : Z) (alias : option fd_alias_spec_t) (s : fds H) (fd type host_fd : Z) (cleanup : option nat)
    (dir : option nat) (linux_flags : Z) : Z * Z * fds H :=
  if negb (fd_in_range fd) then (-1, 0, s)
  else if rlimit_nofile_cur rlim <=? fd then (-1, 0, s)
  else with_probe s alias type host_fd (fun s probe =>
    finish_at fd (alloc_at_locked alias s fd type host_fd cleanup probe (Some (dir, linux_flags)))).

Definition fd_alloc_at (rlim : Z) (alias : option fd_alias_spec_t) (s : fds H) (fd type host_fd : Z) (cleanup : option nat) : Z * Z * fds H :=
  if negb (fd_in_range fd) then (-1, 0, s)
  else if rlimit_nofile_cur rlim <=? fd then (-1, 0, s)
  else with_probe s alias type host_fd (fun s probe => finish_at fd (alloc_at_locked alias s fd type host_fd cleanup probe None)).

Definition fd_alloc_at_relaxed (rlim : Z) (single : bool) (alias : option fd_alias_spec_t) (s : fds H) (fd type host_fd : Z)
    (cleanup : option nat) : Z * Z * fds H :=
  if negb (fd_in_range fd) then (-1, 0, s)
  else if rlimit_nofile_cur rlim <=? fd then (-1, 0, s)
  else if negb single || is_open (slot s fd) then fd_alloc_at rlim alias s fd type host_fd cleanup
  else with_probe s alias type host_fd (fun s probe =>
    let s := fd_init_entry s fd type host_fd cleanup probe alias in (fd, e_generation (slot s fd), s)).

Definition fd_alloc_from_relaxed (rlim : Z) (single : bool) (alias : option fd_alias_spec_t) (s : fds H) (minfd type host_fd : Z)
    (cleanup : option nat) : Z * Z * fds H :=
  if negb single then fd_alloc_from rlim alias s minfd type host_fd cleanup
  else with_probe s alias type host_fd (fun s probe =>
    let '(fd, s) := fd_alloc_locked rlim s minfd type host_fd cleanup probe alias in
    (fd, if 0 <=? fd then e_generation (slot s fd) else 0, s)).

(** The alias-aware entry points: the plain allocators with the inheritance. *)
Definition fd_alloc_alias (rlim : Z) (spec : fd_alias_spec_t) (s : fds H) (type host_fd : Z) (cleanup : option nat) : Z * fds H :=
  fd_alloc rlim (Some spec) s type host_fd cleanup.

Definition fd_alloc_alias_at (rlim : Z) (spec : fd_alias_spec_t) (s : fds H) (fd type host_fd : Z) (cleanup : option nat) : Z * Z * fds H :=
  fd_alloc_at rlim (Some spec) s fd type host_fd cleanup.

Definition fd_alloc_alias_relaxed (rlim : Z) (single : bool) (spec : fd_alias_spec_t) (s : fds H) (fixed_fd minfd type host_fd : Z)
    (cleanup : option nat) : Z * Z * fds H :=
  if 0 <=? fixed_fd then fd_alloc_at_relaxed rlim single (Some spec) s fixed_fd type host_fd cleanup
  else fd_alloc_from_relaxed rlim single (Some spec) s minfd type host_fd cleanup.

Definition fd_alloc_alias_dir (rlim : Z) (spec : fd_alias_spec_t) (s : fds H) (fixed_fd minfd type host_fd : Z) (cleanup : option nat)
    (dir : option nat) (linux_flags : Z) : Z * Z * fds H :=
  if 0 <=? fixed_fd then fd_alloc_dir_at rlim (Some spec) s fixed_fd type host_fd cleanup dir linux_flags
  else fd_alloc_dir_from rlim (Some spec) s minfd type host_fd cleanup dir linux_flags.

(** ** Retiring a published slot *)

(** The critical section: is the slot still ours, and the detached lifetime. *)
Definition retire_locked (s : fds H) (fd host_fd : Z) : bool * option nat * fds H :=
  let e := slot s fd in
  if is_open e && (e_host_fd e =? host_fd) then let '(s, l) := fd_mark_closed_unlocked s fd in (true, l, s) else (false, None, s).

Definition fd_retire_published (s : fds H) (fd host_fd : Z) : fds H :=
  if negb (fd_in_range fd) then (if 0 <=? host_fd then set_host (host_close (f_host s) host_fd) s else s)
  else
    let '(still_ours, lifetime, s) := retire_locked s fd host_fd in
    match lifetime with
    | Some l => fd_lifetime_release s l
    | None => if still_ours && (0 <=? host_fd) then set_host (host_close (f_host s) host_fd) s else s
    end.

(** ** Lookups *)

Definition fd_to_host (s : fds H) (fd : Z) : Z :=
  if negb (fd_in_range fd) then -1 else if negb (is_open (slot s fd)) then -1 else e_host_fd (slot s fd).

Definition fd_snapshot (s : fds H) (fd : Z) : option fd_entry_t :=
  if negb (fd_in_range fd) then None else fst (fd_snapshot_locked s fd false).

Definition fd_current_generation (s : fds H) (fd : Z) : Z :=
  match fd_snapshot s fd with Some e => e_generation e | None => 0 end.

Definition fd_get_type (s : fds H) (fd : Z) : Z := if negb (fd_in_range fd) then FD_CLOSED else e_type (slot s fd).

Definition fd_to_host_dup (s : fds H) (fd : Z) : Z * fds H :=
  if negb (fd_in_range fd) then (-1, s)
  else if negb (is_open (slot s fd)) then (-1, s)
  else let '(n, h) := host_dup (f_host s) (e_host_fd (slot s fd)) in (n, set_host h s).

Definition fd_snapshot_and_dup (s : fds H) (fd : Z) : Z * option fd_entry_t * fds H :=
  match fd_snapshot s fd with
  | None => (-1, None, s)
  | Some e =>
      if 0 <=? e_host_fd e then let '(n, h) := host_dup (f_host s) (e_host_fd e) in (n, Some e, set_host h s) else (-1, Some e, s)
  end.

(** The third result is [*out_shared_dir]. *)
Definition fd_snapshot_and_dup_or_share_dir (s : fds H) (fd : Z) : Z * option fd_entry_t * bool * fds H :=
  match fd_snapshot s fd with
  | None => (-1, None, false, s)
  | Some e =>
      match (if e_type e =? FD_DIR then e_dir e else None) with
      | Some d => (e_host_fd e, Some e, true, dir_stream_ref_locked s d)
      | None => let '(n, e, s) := fd_snapshot_and_dup s fd in (n, e, false, s)
      end
  end.

(** The fields the blocking decision needs. *)
Record fd_block_state_t := mk_block_state {
  bs_type : Z; bs_generation : Z; bs_seals : Z; bs_can_block : bool; bs_nonblock_owned : bool; bs_guest_nonblock : bool
}.

Definition fd_block_state_of (e : fd_entry_t) : fd_block_state_t :=
  mk_block_state (e_type e) (e_generation e) (e_seals e) (e_can_block e) (e_nonblock_owned e) (has (e_linux_flags e) LINUX_O_NONBLOCK).

Definition fd_block_state (s : fds H) (fd : Z) : fd_block_state_t :=
  if negb (fd_in_range fd) then mk_block_state FD_CLOSED 0 0 false false false else fd_block_state_of (slot s fd).

Definition fd_guest_nonblock (s : fds H) (fd : Z) : bool := bs_guest_nonblock (fd_block_state s fd).

(** ** Sweeps over the aliases of a description *)

Fixpoint words_walk (word : Z) (words : list Z) : list Z :=
  match words with
  | [] => []
  | w :: words => word_walk 64 word (not64 w) ++ words_walk (word + 1) words
  end.

Definition fd_for_each_alias_locked (s : fds H) (fd generation : Z) (fn : fds H -> Z -> fds H) : fds H :=
  if negb (fd_in_range fd) then s
  else
    let e := slot s fd in
    if negb (is_open e) || negb (e_generation e =? generation) then s
    else
      let ofd_id := e_ofd_id e in
      if ofd_id =? 0 then s
      else foldl (fun s i => if is_open (slot s i) && (e_ofd_id (slot s i) =? ofd_id) then fn s i else s) s (words_walk 0 (f_free s)).

Definition with_flags (flags : Z) (e : fd_entry_t) : fd_entry_t :=
  mk_entry (e_type e) (e_host_fd e) (e_lifetime e) (e_ofd_id e) (e_generation e) flags (e_dir e) (e_proc_path e)
    (e_path_poll_capable e) (e_seals e) (e_can_block e) (e_foreign_description e) (e_nonblock_owned e)
    (e_fasync_owner_type e) (e_fasync_owner e) (e_sock_valid e) (e_cleanup e).

Definition shadow_bits (mask value flags : Z) : Z := Z.lor (Z.land flags (Z.lnot mask)) (Z.land value mask).

Definition set_shadow_bits_slot (mask value : Z) (s : fds H) (fd : Z) : fds H :=
  put_slot s fd (with_flags (shadow_bits mask value (e_linux_flags (slot s fd))) (slot s fd)).

Definition fd_set_shadow_flags (s : fds H) (fd generation mask value : Z) : fds H :=
  fd_for_each_alias_locked s fd generation (set_shadow_bits_slot mask value).

Definition fd_apply_guest_nonblock (s : fds H) (fd : Z) (on : bool) : bool * fds H :=
  if negb (fd_in_range fd) then (false, s)
  else
    let e := slot s fd in
    let shadowed := is_open e && fd_nonblock_shadowed (e_type e) (e_nonblock_owned e) in
    (shadowed, if shadowed
               then fd_for_each_alias_locked s fd (e_generation e)
                      (set_shadow_bits_slot LINUX_O_NONBLOCK (if on then LINUX_O_NONBLOCK else 0))
               else s).

Definition fd_publish_linux_flags (s : fds H) (fd linux_flags : Z) : fds H :=
  if negb (fd_in_range fd) then s
  else put_slot s fd (with_flags (fd_flags_with_accmode (e_type (slot s fd)) linux_flags) (slot s fd)).

(** ** Directory streams (src/syscall/fs.c) *)

(** [fdopendir] adopts [host_fd]; the first reference is the caller's.  The
    arguments say whether malloc and fdopendir succeed.  The close-on-exec flag,
    which the code saves and puts back around fdopendir, is not part of the host
    model. *)
Definition dir_stream_new (malloc_ok fdopendir_ok : bool) (s : fds H) (host_fd : Z) : option nat * fds H :=
  if negb malloc_ok then (None, s)
  else if negb fdopendir_ok then (None, s)
  else (Some (length (f_streams s)), set_streams (f_streams s ++ [Some (mk_stream 1 host_fd)]) s).

Definition dir_stream_acquire (s : fds H) (fd : Z) : option nat * fds H :=
  if negb (fd_in_range fd) then (None, s)
  else
    let e := slot s fd in
    match (if e_type e =? FD_DIR then e_dir e else None) with
    | Some d => (Some d, dir_stream_ref_locked s d)
    | None => (None, s)
    end.

(** ** Start *)

Definition stdio_entry (h : H) (n : Z) : fd_entry_t :=
  mk_entry FD_STDIO n None (n + 1) (n + 1) 0 None "" false 0 (host_fd_may_block h n) true false 0 0 0 None.

(** The lifetimes and streams of a fresh process are empty; the shim's bitmap
    starts cleared. *)
Definition fdtable_init (h : H) : fds H :=
  let s := mk_fds ([stdio_entry h 0; stdio_entry h 1; stdio_entry h 2] ++ replicate 1021 zero_entry) (replicate 16 UINT64_MAX)
             4 4 (replicate 16 0) [] [] [] h in
  fd_bitmap_set_used (fd_bitmap_set_used (fd_bitmap_set_used s 0) 1) 2.
End FdTable.
