(* ===== verification/FdFacts.v ===== *)
(** * Facts about the descriptor table

    Bitmap arithmetic, the agreement of the free bitmap with the table, and
    what an allocation does. *)

From S2P Require Import Prelude Bits Regions HostFds FdTable.

(** ** Bitmaps *)

Definition bitmap_get (words : list Z) (i : Z) : bool := Z.testbit (nth (Z.to_nat (i / 64)) words 0) (i mod 64).

Definition words_ok (n : nat) (words : list Z) : Prop := length words = n /\ Forall fits64 words.

Lemma shift_index i : 0 <= i -> Z.shiftr i 6 = i / 64 /\ Z.land i 63 = i mod 64.
Proof. intros Hi. rewrite Z.shiftr_div_pow2 by lia. change 63 with (Z.ones 6). by rewrite Z.land_ones by lia. Qed.

Lemma nth_alter (f : Z -> Z) (words : list Z) a b : (a < length words)%nat ->
  nth b (alter f a words) 0 = if decide (a = b) then f (nth b words 0) else nth b words 0.
Proof.
  intros Ha. destruct (decide (a = b)) as [->|Hne].
  - destruct (lookup_lt_is_Some_2 words b Ha) as [w Hw]. rewrite (nth_lookup_Some _ _ _ _ Hw). apply nth_lookup_Some. by rewrite list_lookup_alter_eq, Hw.
  - rewrite !nth_lookup. by rewrite list_lookup_alter_ne.
Qed.

Lemma words_alter n f words a : words_ok n words -> (forall w, fits64 w -> fits64 (f w)) -> words_ok n (alter f a words).
Proof. intros [Hl Hf] Hw. split; [by rewrite length_alter|]. apply Forall_alter; [done|]. intros; by apply Hw. Qed.

Lemma bitmap_alter n words i j f (g : bool -> bool) : words_ok n words -> 0 <= i < 64 * Z.of_nat n -> 0 <= j ->
  (forall w k, fits64 w -> 0 <= k < 64 -> Z.testbit (f w) k = if k =? i mod 64 then g (Z.testbit w k) else Z.testbit w k) ->
  bitmap_get (alter f (Z.to_nat (i / 64)) words) j = if i =? j then g (bitmap_get words j) else bitmap_get words j.
Proof.
  intros [Hl Hf] Hi Hj Hfw. unfold bitmap_get. rewrite nth_alter by (rewrite Hl; zdm).
  destruct (decide (Z.to_nat (i / 64) = Z.to_nat (j / 64))) as [E|E].
  - rewrite Hfw; [|rewrite nth_lookup; destruct (words !! _) eqn:Ew; [by apply (Forall_lookup_1 _ _ _ _ Hf Ew)|cbn; unfold fits64, two64; lia]|zdm].
    destruct (Z.eqb_spec i j) as [->|Hne]; [by rewrite Z.eqb_refl|]. rewrite (proj2 (Z.eqb_neq _ _)); [done|]. zdm.
  - destruct (Z.eqb_spec i j) as [->|]; [done|done].
Qed.

Lemma bitmap_set_spec n words i : words_ok n words -> 0 <= i < 64 * Z.of_nat n ->
  words_ok n (bitmap_set words i) /\ forall j, 0 <= j -> bitmap_get (bitmap_set words i) j = (i =? j) || bitmap_get words j.
Proof.
  intros Hw Hi. unfold bitmap_set. destruct (shift_index i ltac:(lia)) as [-> ->]. assert (0 <= i mod 64 < 64) as Hm by zdm. split.
  - apply words_alter; [done|]. intros w Hf. auto with word64.
  - intros j Hj. rewrite (bitmap_alter n _ i j _ (fun _ => true)); [by destruct (i =? j)|done|done|done|].
    intros w k Hf Hk. rewrite Z.lor_spec, one_bit, (Z.eqb_sym k) by lia. destruct (i mod 64 =? k); [apply orb_true_r|apply orb_false_r].
Qed.

Lemma bitmap_clear_spec n words i : words_ok n words -> 0 <= i < 64 * Z.of_nat n ->
  words_ok n (bitmap_clear words i) /\ forall j, 0 <= j -> bitmap_get (bitmap_clear words i) j = negb (i =? j) && bitmap_get words j.
Proof.
  intros Hw Hi. unfold bitmap_clear. destruct (shift_index i ltac:(lia)) as [-> ->]. assert (0 <= i mod 64 < 64) as Hm by zdm. split.
  - apply words_alter; [done|]. intros w Hf. auto with word64.
  - intros j Hj. rewrite (bitmap_alter n _ i j _ (fun _ => false)); [by destruct (i =? j)|done|done|done|].
    intros w k Hf Hk. rewrite Z.land_spec, not64_spec, one_bit, (Z.eqb_sym k), (proj2 (Z.ltb_lt k 64)) by lia.
    destruct (i mod 64 =? k); [apply andb_false_r|apply andb_true_r].
Qed.

(** The search: the lowest set bit at or above a position. *)
Lemma find_free_words_spec words : forall word mask bit, 0 <= word -> Forall fits64 words ->
  0 <= bit < 64 -> (forall k, 0 <= k < 64 -> Z.testbit mask k = (bit <=? k)) ->
  let r := find_free_words words word mask in
  let get i := Z.testbit (nth (Z.to_nat (i / 64 - word)) words 0) (i mod 64) in
  let lo := word * 64 + bit in
  let hi := (word + Z.of_nat (length words)) * 64 in
  (r = -1 /\ forall i, lo <= i < hi -> get i = false) \/
  (lo <= r < hi /\ get r = true /\ forall i, lo <= i < r -> get i = false).
Proof.
  induction words as [|w words IH]; intros word mask bit Hw Hf Hb Hm; cbn [find_free_words length]; cbv zeta.
  { left. split; [done|]. lia. }
  apply Forall_cons_1 in Hf as [Hfw Hf].
  assert (fits64 (Z.land w mask)) as Hfl by auto with word64.
  assert (forall i, i / 64 = word -> nth (Z.to_nat (i / 64 - word)) (w :: words) 0 = w) as Hhd by (intros i ->; by rewrite Z.sub_diag).
  assert (forall i, 64 * (word + 1) <= i -> nth (Z.to_nat (i / 64 - word)) (w :: words) 0 = nth (Z.to_nat (i / 64 - (word + 1))) words 0) as Htl.
  { intros i Hi. assert (word + 1 <= i / 64) by zdm. by replace (Z.to_nat (i / 64 - word)) with (S (Z.to_nat (i / 64 - (word + 1)))) by lia. }
  destruct (Z.eqb_spec (Z.land w mask) 0) as [E|E]; cbn [negb].
  - assert (forall k, bit <= k < 64 -> Z.testbit w k = false) as Hz.
    { intros k Hk. assert (Z.testbit (Z.land w mask) k = false) as Hl by (by rewrite E, Z.bits_0).
      rewrite Z.land_spec, Hm, (proj2 (Z.leb_le bit k)), andb_true_r in Hl by lia. done. }
    assert (forall i, word * 64 + bit <= i < 64 * (word + 1) -> Z.testbit (nth (Z.to_nat (i / 64 - word)) (w :: words) 0) (i mod 64) = false) as Hfirst.
    { intros i Hi. assert (i / 64 = word) as Ei by zdm. rewrite (Hhd i Ei). apply Hz. clear -Hi Ei. zdm. }
    destruct (IH (word + 1) UINT64_MAX 0 ltac:(lia) Hf ltac:(lia)) as [[-> Hno]|(Hr & Hg & Hlow)].
    { intros k Hk. unfold UINT64_MAX. change 18446744073709551615 with (Z.ones 64). rewrite Z.ones_spec_low by lia. symmetry. apply Z.leb_le. lia. }
    + left. split; [done|]. intros i Hi. destruct (Z.lt_ge_cases i (64 * (word + 1))); [apply Hfirst; lia|]. rewrite Htl by lia. apply Hno. lia.
    + right. split; [lia|]. split; [rewrite Htl by lia; exact Hg|]. intros i Hi.
      destruct (Z.lt_ge_cases i (64 * (word + 1))); [apply Hfirst; lia|]. rewrite Htl by lia. apply Hlow. lia.
  - destruct (ctz_spec _ Hfl E) as (Hk & Ht & Hlow). set (k := bit_ctz64 (Z.land w mask)) in *. clearbody k.
    rewrite Z.land_spec, Hm in Ht by lia. apply andb_prop in Ht as [Ht Hbk%Z.leb_le]. right. unfold FDSET_BITS_PER_WORD.
    split; [lia|]. assert (forall j, 0 <= j < 64 -> (word * 64 + j) / 64 = word /\ (word * 64 + j) mod 64 = j) as Hdm by (intros; zdm).
    split; [destruct (Hdm k Hk) as [Ed Em]; by rewrite (Hhd _ Ed), Em|].
    intros i Hi. assert (exists j, bit <= j < k /\ i = word * 64 + j) as (j & Hj & ->) by (exists (i - word * 64); lia).
    destruct (Hdm j ltac:(lia)) as [Ed Em]. rewrite (Hhd _ Ed), Em. specialize (Hlow j ltac:(lia)).
    rewrite Z.land_spec, Hm, (proj2 (Z.leb_le bit j)), andb_true_r in Hlow by lia. done.
Qed.

Lemma find_free_spec words minfd : words_ok 16 words ->
  let r := fd_bitmap_find_free words minfd in
  let lo := Z.max 0 minfd in
  (r = -1 /\ forall i, lo <= i < FD_TABLE_SIZE -> bitmap_get words i = false) \/
  (lo <= r < FD_TABLE_SIZE /\ bitmap_get words r = true /\ forall i, lo <= i < r -> bitmap_get words i = false).
Proof.
  intros [Hl Hf]. unfold fd_bitmap_find_free, fdset_slot, FDSET_MAX_FDS, FDSET_BITS_PER_WORD, FD_TABLE_SIZE. cbv zeta.
  assert ((if minfd <? 0 then 0 else minfd) = Z.max 0 minfd) as -> by (case_if; unbool; lia). set (lo := Z.max 0 minfd) in *.
  assert (0 <= lo) by lia. clearbody lo. rewrite (proj2 (Z.ltb_ge lo 0)) by lia. cbn [orb].
  destruct (Z.leb_spec 1024 lo); [left; split; [done|lia]|].
  assert (0 <= lo / 64 < 16 /\ 0 <= lo mod 64 < 64 /\ lo / 64 * 64 + lo mod 64 = lo) as (Hd & Hm & Hdm) by zdm.
  destruct (find_free_words_spec (drop (Z.to_nat (lo / 64)) words) (lo / 64) (wrap64 (Z.shiftl UINT64_MAX (lo mod 64))) (lo mod 64)) as [A|A];
    [lia|by apply Forall_drop|done| | |].
  { intros k Hk. unfold wrap64. change two64 with (2 ^ 64). rewrite Z.mod_pow2_bits_low, Z.shiftl_spec by lia.
    destruct (Z.leb_spec (lo mod 64) k); [|apply Z.testbit_neg_r; lia]. change UINT64_MAX with (Z.ones 64). apply Z.ones_spec_low. lia. }
  all: rewrite Hdm, length_drop, Hl in A; replace ((lo / 64 + Z.of_nat (16 - Z.to_nat (lo / 64))) * 64) with 1024 in A by lia.
  all: assert (forall i, lo <= i -> Z.testbit (nth (Z.to_nat (i / 64 - lo / 64)) (drop (Z.to_nat (lo / 64)) words) 0) (i mod 64) = bitmap_get words i) as Hg
    by (intros i Hi; unfold bitmap_get; assert (lo / 64 <= i / 64) by zdm; rewrite !nth_lookup, lookup_drop; do 3 f_equal; lia).
  - left. destruct A as [-> A]. split; [done|]. intros i Hi. rewrite <- Hg by lia. by apply A.
  - right. destruct A as (A & B & C). split; [done|]. split; [rewrite <- Hg by lia; exact B|]. intros i Hi. rewrite <- Hg by lia. by apply C.
Qed.

Lemma words_walk_spec words : forall word, Forall fits64 words -> 0 <= word ->
  forall i, i ∈ words_walk word words <->
    word * 64 <= i < (word + Z.of_nat (length words)) * 64 /\ Z.testbit (nth (Z.to_nat (i / 64 - word)) words 0) (i mod 64) = false.
Proof.
  induction words as [|w words IH]; intros word Hf Hw i; cbn [words_walk length].
  { rewrite elem_of_nil. split; [done|lia]. }
  apply Forall_cons_1 in Hf as [Hfw Hf]. rewrite elem_of_app, IH by (done || lia).
  rewrite word_walk_spec by (auto with word64; lia). split.
  - intros [(k & Hk & Ht & ->)|[Hi Ht]].
    + assert ((word * 64 + k) / 64 = word /\ (word * 64 + k) mod 64 = k) as [-> ->] by zdm. rewrite Z.sub_diag. change (Z.to_nat 0) with 0%nat. cbn [nth].
      rewrite not64_spec, (proj2 (Z.ltb_lt k 64)), xorb_true_r in Ht by lia. split; [lia|]. by apply negb_true_iff in Ht.
    + assert (word + 1 <= i / 64) by zdm. split; [lia|]. replace (Z.to_nat (i / 64 - word)) with (S (Z.to_nat (i / 64 - (word + 1)))) by lia. done.
  - intros [Hi Ht]. destruct (Z.lt_ge_cases i ((word + 1) * 64)) as [Hlt|Hge].
    + left. assert (i / 64 = word /\ i = word * 64 + i mod 64 /\ 0 <= i mod 64 < 64) as (E & Ei & Hm) by zdm.
      exists (i mod 64). split; [done|]. split; [|done]. rewrite E, Z.sub_diag in Ht. change (Z.to_nat 0) with 0%nat in Ht. cbn [nth] in Ht.
      rewrite not64_spec, (proj2 (Z.ltb_lt _ 64)), Ht by lia. done.
    + right. assert (word + 1 <= i / 64) by zdm. split; [lia|].
      replace (Z.to_nat (i / 64 - word)) with (S (Z.to_nat (i / 64 - (word + 1)))) in Ht by lia. done.
Qed.

Lemma walk_used words i : words_ok 16 words -> i ∈ words_walk 0 words <-> 0 <= i < 1024 /\ bitmap_get words i = false.
Proof. intros [Hl Hf]. rewrite words_walk_spec, Hl by (done || lia). unfold bitmap_get. by rewrite Z.sub_0_r. Qed.

Lemma full_words i : 0 <= i < 1024 -> bitmap_get (replicate 16 UINT64_MAX) i = true /\ bitmap_get (replicate 16 0) i = false.
Proof.
  intros [Hi Hi']. unfold bitmap_get. assert (0 <= i / 64 < 16 /\ 0 <= i mod 64 < 64) as [Hd Hm] by zdm.
  rewrite !nth_lookup, !lookup_replicate_2 by lia. cbn [default]. split; [|apply Z.bits_0]. change UINT64_MAX with (Z.ones 64). apply Z.ones_spec_low. lia.
Qed.

Lemma replicate_words w : fits64 w -> words_ok 16 (replicate 16 w).
Proof. intros Hw. split; [apply length_replicate|]. by apply Forall_replicate. Qed.

(** ** The invariant of the table *)

Definition in_tbl (fd : Z) : Prop := 0 <= fd < FD_TABLE_SIZE.

Section Table.
Context {H : Type} `{HE : HostEnv H, HX : !FdHost H}.
Implicit Types s : fds H.

(** The free bitmap is the set of closed slots, the shim's bitmap only names
    open urandom slots, and the identities handed out are distinct and below the
    counters. *)
Record tbl_ok s : Prop := {
  to_len : length (f_table s) = 1024%nat;
  to_free : words_ok 16 (f_free s);
  to_shim : words_ok 16 (f_urandom s);
  to_agree : forall i, in_tbl i -> bitmap_get (f_free s) i = negb (is_open (slot s i));
  to_urandom : forall i, in_tbl i -> bitmap_get (f_urandom s) i = true -> e_type (slot s i) = FD_URANDOM;
  to_gen : forall i, in_tbl i -> 0 <= e_generation (slot s i) < f_next_generation s;
  to_gen_open : forall i, in_tbl i -> is_open (slot s i) = true -> 0 < e_generation (slot s i);
  to_gen_inj : forall i j, in_tbl i -> in_tbl j -> e_generation (slot s i) = e_generation (slot s j) ->
    e_generation (slot s i) = 0 \/ i = j;
  to_ofd : forall i, in_tbl i -> 0 <= e_ofd_id (slot s i) < f_next_ofd_id s;
  to_ofd_open : forall i, in_tbl i -> is_open (slot s i) = true -> 0 < e_ofd_id (slot s i);
  to_next : 0 < f_next_generation s /\ 0 < f_next_ofd_id s
}.

(** Neither counter is about to wrap. *)
Definition tbl_room s : Prop := f_next_generation s + 1 < two64 /\ f_next_ofd_id s + 1 < two64.

Definition alias_ok s (alias : option fd_alias_spec_t) : Prop :=
  match alias with Some spec => 0 <= as_ofd_id spec < f_next_ofd_id s | None => True end.

Lemma slot_put s fd e i : length (f_table s) = 1024%nat -> in_tbl fd -> in_tbl i ->
  slot (put_slot s fd e) i = if i =? fd then e else slot s i.
Proof.
  intros Hl Hf Hi. unfold slot, put_slot, in_tbl, FD_TABLE_SIZE in *. cbn [f_table set_table]. rewrite !nth_lookup.
  destruct (Z.eqb_spec i fd) as [->|Hne].
  - by rewrite list_lookup_insert_eq by (rewrite Hl; lia).
  - rewrite list_lookup_insert_ne by lia. done.
Qed.

Lemma put_len s fd e : length (f_table (put_slot s fd e)) = length (f_table s).
Proof. apply length_insert. Qed.

Lemma in_range_iff fd : fd_in_range fd = true <-> in_tbl fd.
Proof. unfold fd_in_range, in_tbl. rewrite andb_true_iff, Z.leb_le, Z.ltb_lt. done. Qed.

Lemma mark_urandom_eq s fd b : in_tbl fd ->
  shim_globals_mark_urandom_fd s fd b = set_urandom (if b then bitmap_set (f_urandom s) fd else bitmap_clear (f_urandom s) fd) s.
Proof.
  intros [Hf Hf']. unfold shim_globals_mark_urandom_fd. by rewrite (proj2 (Z.ltb_ge fd 0)), (proj2 (Z.leb_gt FD_TABLE_SIZE fd)) by done.
Qed.

(** Replacing one slot, with the bitmaps and the counters that go with it. *)
Lemma tbl_replace s s' fd e (b : bool) :
  tbl_ok s -> in_tbl fd ->
  f_table s' = <[Z.to_nat fd := e]> (f_table s) ->
  f_free s' = (if is_open e then bitmap_clear (f_free s) fd else bitmap_set (f_free s) fd) ->
  f_urandom s' = (if b then bitmap_set (f_urandom s) fd else bitmap_clear (f_urandom s) fd) ->
  (b = true -> e_type e = FD_URANDOM) ->
  f_next_generation s <= f_next_generation s' -> f_next_ofd_id s <= f_next_ofd_id s' ->
  0 <= e_generation e < f_next_generation s' ->
  (is_open e = true -> 0 < e_generation e /\ 0 < e_ofd_id e) ->
  (forall j, in_tbl j -> j <> fd -> e_generation (slot s j) <> e_generation e \/ e_generation e = 0) ->
  0 <= e_ofd_id e < f_next_ofd_id s' ->
  tbl_ok s' /\ (forall i, in_tbl i -> slot s' i = if i =? fd then e else slot s i).
Proof.
  intros [] Hf Et Ef Eu Hb Hg Ho Hge Hopen Hinj Hofd.
  assert (forall i, in_tbl i -> slot s' i = if i =? fd then e else slot s i) as Hs.
  { intros i Hi. unfold slot at 1. rewrite Et. by apply (slot_put s fd e i). }
  assert (0 <= fd < 64 * Z.of_nat 16) as Hf' by (unfold in_tbl, FD_TABLE_SIZE in Hf; lia).
  destruct (bitmap_set_spec 16 (f_free s) fd ltac:(done) Hf') as [S1 S2], (bitmap_clear_spec 16 (f_free s) fd ltac:(done) Hf') as [C1 C2].
  destruct (bitmap_set_spec 16 (f_urandom s) fd ltac:(done) Hf') as [U1 U2], (bitmap_clear_spec 16 (f_urandom s) fd ltac:(done) Hf') as [V1 V2].
  split; [|exact Hs]. split; try lia.
  - by rewrite Et, length_insert.
  - rewrite Ef. by destruct (is_open e).
  - rewrite Eu. by destruct b.
  - intros i Hi. rewrite Ef, Hs by done. pose proof Hi as [Hi0 _]. destruct (Z.eqb_spec i fd) as [->|Hne].
    + destruct (is_open e); [rewrite C2|rewrite S2]; rewrite ?Z.eqb_refl; done.
    + destruct (is_open e); [rewrite C2|rewrite S2]; rewrite ?(proj2 (Z.eqb_neq fd i)) by congruence; try done; cbn [negb andb orb]; by apply to_agree0.
  - intros i Hi. rewrite Eu, Hs by done. pose proof Hi as [Hi0 _]. destruct (Z.eqb_spec i fd) as [->|Hne].
    + destruct b; [by intros; apply Hb|]. rewrite V2, Z.eqb_refl by done. done.
    + destruct b; [rewrite U2|rewrite V2]; rewrite ?(proj2 (Z.eqb_neq fd i)) by congruence; try done; cbn [negb andb orb]; by apply to_urandom0.
  - intros i Hi. rewrite Hs by done. case_if; [done|]. specialize (to_gen0 i Hi). lia.
  - intros i Hi. rewrite Hs by done. case_if; [intros Ho'; by apply Hopen|by apply to_gen_open0].
  - intros i j Hi Hj. rewrite !Hs by done. destruct (Z.eqb_spec i fd) as [->|Hi'], (Z.eqb_spec j fd) as [->|Hj']; intros E.
    + by right.
    + destruct (Hinj j Hj Hj'); [congruence|by left].
    + destruct (Hinj i Hi Hi'); [congruence|left; congruence].
    + by apply to_gen_inj0.
  - intros i Hi. rewrite Hs by done. case_if; [done|]. specialize (to_ofd0 i Hi). lia.
  - intros i Hi. rewrite Hs by done. case_if; [intros Ho'; by apply Hopen|by apply to_ofd_open0].
Qed.

(** What stays of the state when only the table side moves. *)
Definition same_heap s s' : Prop :=
  f_lifetimes s' = f_lifetimes s /\ f_streams s' = f_streams s /\ f_host s' = f_host s.

(** One slot replaced by [e], nothing else in the table. *)
Definition slot_set s s' (fd : Z) (e : fd_entry_t) : Prop :=
  f_table s' = <[Z.to_nat fd := e]> (f_table s) /\ forall i, in_tbl i -> slot s' i = if i =? fd then e else slot s i.

Lemma slot_set_at s s' fd e : in_tbl fd -> slot_set s s' fd e -> slot s' fd = e.
Proof. intros Hf [_ Hs]. by rewrite Hs, Z.eqb_refl. Qed.

Lemma insert_twice (l : list fd_entry_t) i a b : <[i := b]> (<[i := a]> l) = <[i := b]> l.
Proof. apply list_insert_insert_eq. Qed.

Lemma refresh_ofd s spec N : (forall i, in_tbl i -> 0 <= e_ofd_id (slot s i) < N) -> 0 <= as_ofd_id spec < N ->
  0 <= as_ofd_id (refresh_alias s spec) < N.
Proof. intros Hs Ha. unfold refresh_alias. case_if; [|done]. unbool. cbn [as_ofd_id]. apply Hs, in_range_iff. tauto. Qed.

(** The entry a publication writes. *)
Record published s (fd type host_fd : Z) (cleanup : option nat) (probe : fd_host_probe_t) (alias : option fd_alias_spec_t)
    (e : fd_entry_t) : Prop := {
  pu_type : e_type e = type;
  pu_host : e_host_fd e = host_fd;
  pu_lifetime : e_lifetime e = None;
  pu_dir : e_dir e = None;
  pu_cleanup : e_cleanup e = cleanup;
  pu_can_block : e_can_block e = pr_can_block probe;
  pu_generation : e_generation e = f_next_generation s;
  pu_fresh : alias = None -> e_ofd_id e = f_next_ofd_id s /\ e_nonblock_owned e = pr_nonblock_owned probe /\
    e_linux_flags e = Z.max 0 (fd_type_accmode type);
  pu_alias : forall spec, alias = Some spec -> as_src_guest_fd spec <> fd -> in_tbl (as_src_guest_fd spec) ->
    let src := slot s (as_src_guest_fd spec) in
    is_open src = true -> e_generation src = as_src_generation spec ->
    e_ofd_id e = e_ofd_id src /\ e_nonblock_owned e = e_nonblock_owned src /\ e_foreign_description e = e_foreign_description src
}.

Lemma accmode_seed type : (if fd_type_accmode type <? 0 then 0 else fd_type_accmode type) = Z.max 0 (fd_type_accmode type).
Proof. case_if; unbool; lia. Qed.

Lemma init_spec s fd type host_fd cleanup probe alias :
  tbl_ok s -> tbl_room s -> alias_ok s alias -> in_tbl fd -> type <> FD_CLOSED ->
  let s' := fd_init_entry s fd type host_fd cleanup probe alias in
  exists e, published s fd type host_fd cleanup probe alias e /\ tbl_ok s' /\ slot_set s s' fd e /\ same_heap s s' /\
    f_log s' = f_log s /\ f_next_generation s' = f_next_generation s + 1 /\ f_next_ofd_id s <= f_next_ofd_id s'.
Proof.
  intros Hok [Hr1 Hr2] Ha Hf Hty. unfold fd_init_entry. cbv zeta.
  set (s1 := put_slot (fd_bitmap_set_used s fd) fd _).
  assert (forall i, in_tbl i -> e_ofd_id (slot s1 i) = e_ofd_id (slot s i) /\ (i <> fd -> slot s1 i = slot s i)) as Hs1.
  { intros i Hi. unfold s1. rewrite slot_put by (done || apply Hok). change (slot (fd_bitmap_set_used s fd) ?x) with (slot s x).
    destruct (Z.eqb_spec i fd) as [->|]; [|done]. split; [done|congruence]. }
  assert (exists ofd nxt,
    match option_map (refresh_alias s1) alias with
    | Some spec => if negb (as_ofd_id spec =? 0) then (as_ofd_id spec, f_next_ofd_id s1) else (f_next_ofd_id s1, (f_next_ofd_id s1 + 1)%u64)
    | None => (f_next_ofd_id s1, (f_next_ofd_id s1 + 1)%u64)
    end = (ofd, nxt) /\ 0 < ofd < nxt /\ f_next_ofd_id s <= nxt /\ (alias = None -> ofd = f_next_ofd_id s) /\
    (forall spec, alias = Some spec -> as_ofd_id (refresh_alias s1 spec) <> 0 -> ofd = as_ofd_id (refresh_alias s1 spec))) as (ofd & nxt & -> & Hofd & Hnxt & Hnone & Hsome).
  { change (f_next_ofd_id s1) with (f_next_ofd_id s). destruct (to_next s Hok) as [_ Hn].
    rewrite add64_small by (unfold fits64; lia). destruct alias as [spec|]; cbn [option_map].
    - assert (0 <= as_ofd_id (refresh_alias s1 spec) < f_next_ofd_id s) as Hb.
      { apply refresh_ofd; [|done]. intros i Hi. rewrite (proj1 (Hs1 i Hi)). by apply (to_ofd s Hok). }
      destruct (Z.eqb_spec (as_ofd_id (refresh_alias s1 spec)) 0) as [E|E]; cbn [negb]; do 2 eexists; (split; [reflexivity|]);
        (split_and!; [lia|lia|lia|done|]); intros ? [= <-] ?; done.
    - do 2 eexists. split; [reflexivity|]. split_and!; [lia|lia|lia|done|done]. }
  set (e := mk_entry type host_fd None ofd _ _ None _ _ _ _ _ _ _ _ _ _). exists e.
  change (f_next_generation s1) with (f_next_generation s). rewrite mark_urandom_eq, add64_small by (done || unfold fits64; destruct (to_next s Hok); lia).
  split.
  - split; try done.
    + intros ->. split; [by apply Hnone|]. split; [done|apply accmode_seed].
    + intros spec -> Hne Hin src Hop Hg. cbn [e_ofd_id e_nonblock_owned e_foreign_description e option_map].
      assert (as_ofd_id (refresh_alias s1 spec) = e_ofd_id src /\ as_nonblock_owned (refresh_alias s1 spec) = e_nonblock_owned src /\
              as_foreign_description (refresh_alias s1 spec) = e_foreign_description src) as (R1 & R2 & R3).
      { unfold refresh_alias. rewrite (proj2 (Hs1 _ Hin) Hne). fold src.
        rewrite (proj2 (in_range_iff _) Hin), Hop, Hg, Z.eqb_refl, (proj2 (Z.leb_le 0 _)) by (apply Hin). done. }
      rewrite R2, R3. split; [|done]. rewrite <- R1. apply Hsome; [done|]. rewrite R1. pose proof (to_ofd_open s Hok _ Hin Hop). unfold src. lia.
  - destruct (to_next s Hok) as [Hng Hno]. assert (is_open e = true) as Hop by (unfold is_open; cbn; apply negb_true_iff; by apply Z.eqb_neq).
    match goal with |- tbl_ok ?x /\ _ => destruct (tbl_replace s x fd e false Hok Hf) as [T1 T2] end.
    + cbn. apply insert_twice.
    + by rewrite Hop.
    + done.
    + done.
    + cbn. lia.
    + cbn. lia.
    + cbn. lia.
    + cbn. lia.
    + intros j Hj Hne. left. cbn. pose proof (to_gen s Hok j Hj). lia.
    + cbn. lia.
    + split; [exact T1|]. split; [split; [cbn; apply insert_twice|exact T2]|]. done.
Qed.

Lemma mark_closed_spec s fd : tbl_ok s -> in_tbl fd ->
  let '(s', l) := fd_mark_closed_unlocked s fd in
  exists e, is_open e = false /\ l = e_lifetime (slot s fd) /\ tbl_ok s' /\ slot_set s s' fd e /\ same_heap s s' /\
    f_log s' = f_log s ++ [EpollNoteClosed fd (e_ofd_id (slot s fd))] /\
    f_next_generation s' = f_next_generation s /\ f_next_ofd_id s' = f_next_ofd_id s.
Proof.
  intros Hok Hf. unfold fd_mark_closed_unlocked. cbv zeta. rewrite mark_urandom_eq by done.
  set (e := mk_entry FD_CLOSED _ _ _ _ _ _ _ _ _ _ _ _ _ _ _ _). exists e. split; [done|]. split; [done|].
  pose proof (to_gen s Hok fd Hf) as Hg. destruct (to_next s Hok) as [Hng Hno].
  match goal with |- tbl_ok ?x /\ _ => destruct (tbl_replace s x fd e false Hok Hf) as [T1 T2] end; try done.
  - intros j Hj Hne. cbn. destruct (Z.eq_dec (e_generation (slot s fd)) 0) as [E|E]; [by right|left].
    intros Heq. destruct (to_gen_inj s Hok j fd Hj Hf Heq); [congruence|done].
Qed.

(** Replacing an entry by one with the same identity. *)
Lemma keep_identity s fd e : tbl_ok s -> in_tbl fd ->
  e_type e = e_type (slot s fd) -> e_generation e = e_generation (slot s fd) -> e_ofd_id e = e_ofd_id (slot s fd) ->
  tbl_ok (put_slot s fd e) /\ slot_set s (put_slot s fd e) fd e.
Proof.
  intros Hok Hf Et Eg Eo. pose proof Hok as [].
  assert (forall i, in_tbl i -> slot (put_slot s fd e) i = if i =? fd then e else slot s i) as Hs by (intros; by apply slot_put).
  assert (forall i, in_tbl i -> e_type (slot (put_slot s fd e) i) = e_type (slot s i) /\
    e_generation (slot (put_slot s fd e) i) = e_generation (slot s i) /\ e_ofd_id (slot (put_slot s fd e) i) = e_ofd_id (slot s i)) as Hid.
  { intros i Hi. rewrite Hs by done. destruct (Z.eqb_spec i fd) as [->|]; done. }
  split; [|by split]. split; try done.
  - by rewrite put_len.
  - intros i Hi. unfold is_open. destruct (Hid i Hi) as (-> & _ & _). by apply to_agree0.
  - intros i Hi. destruct (Hid i Hi) as (-> & _ & _). by apply to_urandom0.
  - intros i Hi. destruct (Hid i Hi) as (_ & -> & _). by apply to_gen0.
  - intros i Hi. unfold is_open. destruct (Hid i Hi) as (-> & -> & _). by apply to_gen_open0.
  - intros i j Hi Hj. destruct (Hid i Hi) as (_ & -> & _), (Hid j Hj) as (_ & -> & _). by apply to_gen_inj0.
  - intros i Hi. destruct (Hid i Hi) as (_ & _ & ->). by apply to_ofd0.
  - intros i Hi. unfold is_open. destruct (Hid i Hi) as (-> & _ & ->). by apply to_ofd_open0.
Qed.

(** ** Allocation *)

Lemma alloc_locked_spec rlim s minfd type host_fd cleanup probe alias :
  tbl_ok s -> tbl_room s -> alias_ok s alias -> type <> FD_CLOSED ->
  let '(fd, s') := fd_alloc_locked rlim s minfd type host_fd cleanup probe alias in
  let lo := Z.max 0 minfd in
  let hi := Z.min FD_TABLE_SIZE rlim in
  (fd = -1 /\ (forall i, lo <= i < hi -> is_open (slot s i) = true) /\
     s' = set_host (fd_probe_rollback (f_host s) probe host_fd) s) \/
  (lo <= fd < hi /\ is_open (slot s fd) = false /\ (forall i, lo <= i < fd -> is_open (slot s i) = true) /\
     s' = fd_init_entry s fd type host_fd cleanup probe alias).
Proof.
  intros Hok Hr Ha Hty. unfold fd_alloc_locked. cbv zeta.
  assert (rlimit_nofile_cur rlim = Z.min FD_TABLE_SIZE rlim) as -> by (unfold rlimit_nofile_cur; case_if; unbool; lia).
  assert (forall i, 0 <= i < FD_TABLE_SIZE -> bitmap_get (f_free s) i = false -> is_open (slot s i) = true) as Hused.
  { intros i Hi Hg. rewrite (to_agree s Hok i Hi) in Hg. by apply negb_false_iff in Hg. }
  destruct (find_free_spec (f_free s) minfd (to_free s Hok)) as [[-> Hno]|(Hb & Hg & Hlow)]; cbn [Z.leb Z.ltb Z.compare andb].
  - left. split; [done|]. split; [|done]. intros i Hi. apply Hused; [lia|]. apply Hno. lia.
  - set (r := fd_bitmap_find_free (f_free s) minfd) in *. clearbody r. rewrite (proj2 (Z.leb_le 0 r)) by lia. cbn [andb].
    destruct (Z.leb_spec (Z.min FD_TABLE_SIZE rlim) r); cbn [Z.ltb Z.compare].
    + left. split; [done|]. split; [|done]. intros i Hi. apply Hused; [lia|]. apply Hlow. lia.
    + rewrite (proj2 (Z.ltb_ge r 0)) by lia. right. split; [lia|]. split; [|split; [|done]].
      * rewrite (to_agree s Hok r ltac:(unfold in_tbl; lia)) in Hg. by apply negb_true_iff in Hg.
      * intros i Hi. apply Hused; [lia|]. apply Hlow. lia.
Qed.

(** ** Sweeps *)

Lemma shadow_bits_idem mask value flags : shadow_bits mask value (shadow_bits mask value flags) = shadow_bits mask value flags.
Proof.
  unfold shadow_bits. apply Z.bits_inj'. intros k Hk. rewrite !Z.lor_spec, !Z.land_spec, !Z.lor_spec, !Z.land_spec, !Z.lnot_spec by lia.
  by destruct (Z.testbit flags k), (Z.testbit mask k), (Z.testbit value k).
Qed.

(** The flags of a slot that names [ofd], after the sweep. *)
Definition swept (ofd mask value : Z) (e : fd_entry_t) : fd_entry_t :=
  if is_open e && (e_ofd_id e =? ofd) then with_flags (shadow_bits mask value (e_linux_flags e)) e else e.

Lemma swept_idem ofd mask value e : swept ofd mask value (swept ofd mask value e) = swept ofd mask value e.
Proof.
  unfold swept at 2 3. destruct (is_open e && (e_ofd_id e =? ofd)) eqn:E; [|unfold swept; by rewrite E].
  unfold swept. change (is_open (with_flags ?f e)) with (is_open e). cbn [e_ofd_id with_flags]. rewrite E. unfold with_flags. cbn. by rewrite shadow_bits_idem.
Qed.

Definition sweep_step (ofd mask value : Z) s (i : Z) : fds H :=
  if is_open (slot s i) && (e_ofd_id (slot s i) =? ofd) then set_shadow_bits_slot mask value s i else s.

Lemma sweep_step_spec ofd mask value s i : tbl_ok s -> in_tbl i ->
  tbl_ok (sweep_step ofd mask value s i) /\ same_heap s (sweep_step ofd mask value s i) /\
  forall j, in_tbl j -> slot (sweep_step ofd mask value s i) j = if i =? j then swept ofd mask value (slot s j) else slot s j.
Proof.
  intros Hok Hi. unfold sweep_step, set_shadow_bits_slot, swept. destruct (is_open (slot s i) && _) eqn:E.
  - destruct (keep_identity s i (with_flags (shadow_bits mask value (e_linux_flags (slot s i))) (slot s i)) Hok Hi) as [K1 [_ K2]]; [done..|].
    split; [done|]. split; [done|]. intros j Hj. rewrite K2, Z.eqb_sym by done. destruct (Z.eqb_spec i j) as [->|]; [by rewrite E|done].
  - split; [done|]. split; [done|]. intros j Hj. destruct (Z.eqb_spec i j) as [->|]; [by rewrite E|done].
Qed.

Lemma sweep_spec ofd mask value l : forall s, tbl_ok s -> (forall i, i ∈ l -> in_tbl i) ->
  let s' := foldl (sweep_step ofd mask value) s l in
  tbl_ok s' /\ same_heap s s' /\
  forall j, in_tbl j -> slot s' j = if bool_decide (j ∈ l) then swept ofd mask value (slot s j) else slot s j.
Proof.
  induction l as [|i l IH]; intros s Hok Hl; cbn [foldl]; cbv zeta.
  { split; [done|]. split; [done|]. done. }
  destruct (sweep_step_spec ofd mask value s i Hok) as (A & (B1 & B2 & B3) & C); [apply Hl; left|].
  destruct (IH _ A) as (A' & (B1' & B2' & B3') & C'); [intros; apply Hl; by right|].
  split; [done|]. split; [split_and!; congruence|]. intros j Hj. rewrite C', C by done. destruct (Z.eqb_spec i j) as [->|Hne].
  - rewrite (bool_decide_true (j ∈ j :: l)) by left. case_bool_decide; [apply swept_idem|done].
  - assert (bool_decide (j ∈ i :: l) = bool_decide (j ∈ l)) as -> by (apply bool_decide_ext; rewrite elem_of_cons; intuition congruence). done.
Qed.
End Table.
