(* ===== verification/FdOwn.v ===== *)
(** * Who owns a host descriptor

    A host descriptor the table deals with has one owner at a time: a caller
    that opened it, a slot (or a removed slot awaiting teardown), a lifetime
    object or a directory stream.  [linked] says so together with the reference
    counts; the lemmas move ownership between the owners and drop it. *)

From S2P Require Import Prelude Regions HostFds FdTable FdFacts.

(** ** Sums over lists *)

Notation tally := sum_list_with.

Lemma total_perm {A} (f : A -> nat) l l' : l ≡ₚ l' -> tally f l = tally f l'.
Proof. induction 1; cbn; lia. Qed.

Lemma total_insert {A} (f : A -> nat) l i a b : l !! i = Some a -> (tally f (<[i := b]> l) + f a = tally f l + f b)%nat.
Proof.
  revert i. induction l as [|x l IH]; intros [|i] E; try done.
  - injection E as ->. cbn. lia.
  - change (<[S i := b]> (x :: l)) with (x :: <[i := b]> l). cbn [sum_list_with]. specialize (IH i E). lia.
Qed.

Lemma total_lookup {A} (f : A -> nat) l i a : l !! i = Some a -> (f a <= tally f l)%nat.
Proof. revert i. induction l as [|x l IH]; intros [|i] E; cbn in *; simplify_eq; [lia|]. specialize (IH i E). lia. Qed.

Lemma total_zero {A} (f : A -> nat) l : (forall a, a ∈ l -> f a = 0%nat) -> tally f l = 0%nat.
Proof. induction l as [|x l IH]; intros Hz; cbn; [done|]. rewrite Hz, IH; [done| |left]. intros a Ha. apply Hz. by right. Qed.

Lemma total_pos {A} (f : A -> nat) l : (0 < tally f l)%nat -> exists a, a ∈ l /\ (0 < f a)%nat.
Proof.
  induction l as [|x l IH]; cbn; [lia|]. intros Hp. destruct (f x) as [|m] eqn:E.
  - destruct IH as (a & Ha & Hf); [lia|]. exists a. split; [by right|done].
  - exists x. split; [left|lia].
Qed.

(** ** Keys *)

(** What a slot holds: a descriptor, through a lifetime or a stream or on its own. *)
Record key := mk_key { k_fd : Z; k_type : Z; k_life : option nat; k_stream : option nat }.

Definition stream_of (e : fd_entry_t) : option nat := if e_type e =? FD_DIR then e_dir e else None.
Definition key_of (e : fd_entry_t) : key := mk_key (e_host_fd e) (e_type e) (e_lifetime e) (stream_of e).

Definition is_ref (o : option nat) (n : nat) : nat := match o with Some m => if decide (m = n) then 1 else 0 | None => 0 end.

Definition key_owns (x : Z) (k : key) : nat :=
  match k_life k, k_stream k with None, None => if k_type k =? FD_STDIO then 0 else one_fd (k_fd k) x | _, _ => 0 end.
Definition life_owns (x : Z) (o : option fd_lifetime) : nat :=
  match o with
  | Some lt => match lt_dir lt with Some _ => 0 | None => if lt_type lt =? FD_STDIO then 0 else one_fd (lt_host_fd lt) x end
  | None => 0
  end.
Definition stream_owns (x : Z) (o : option dir_stream_t) : nat := match o with Some ds => one_fd (ds_host_fd ds) x | None => 0 end.
Definition life_ref (d : nat) (o : option fd_lifetime) : nat := match o with Some lt => is_ref (lt_dir lt) d | None => 0 end.

(** ** The invariant *)

Section Own.
Context {H : Type} `{HE : HostEnv H, HL : !HostFdLaws H}.
Variable F : Z -> Prop.

Definition owned_by (hand : list Z) (keys : list key) (lifes : list (option fd_lifetime)) (streams : list (option dir_stream_t)) (x : Z) : nat :=
  (tally (fun y => one_fd y x) hand + tally (key_owns x) keys + tally (life_owns x) lifes + tally (stream_owns x) streams)%nat.

Definition life_refs (pins : list (Z * nat)) (keys : list key) (l : nat) : nat :=
  (tally (fun p => is_ref (Some p.2) l) pins + tally (fun k => is_ref (k_life k) l) keys)%nat.

Definition stream_refs (srefs : list nat) (keys : list key) (lifes : list (option fd_lifetime)) (d : nat) : nat :=
  (tally (fun m => is_ref (Some m) d) srefs + tally (fun k => is_ref (k_stream k) d) keys + tally (life_ref d) lifes)%nat.

Definition stream_is (streams : list (option dir_stream_t)) (d : nat) (x : Z) : Prop :=
  exists ds, streams !! d = Some (Some ds) /\ ds_host_fd ds = x.

Record key_ok (lifes : list (option fd_lifetime)) (streams : list (option dir_stream_t)) (k : key) : Prop := {
  ko_life : forall l, k_life k = Some l ->
    exists lt, lifes !! l = Some (Some lt) /\ lt_host_fd lt = k_fd k /\ lt_type lt = k_type k /\ lt_dir lt = k_stream k;
  ko_stream : forall d, k_stream k = Some d -> k_type k = FD_DIR /\ stream_is streams d (k_fd k);
  ko_stdio : k_type k = FD_STDIO -> 0 <= k_fd k -> F (k_fd k)
}.

Record linked (h : H) (keys : list key) (lifes : list (option fd_lifetime)) (streams : list (option dir_stream_t))
    (hand : list Z) (pins : list (Z * nat)) (srefs : list nat) : Prop := {
  lk_own : owns h F (owned_by hand keys lifes streams);
  lk_life : forall l lt, lifes !! l = Some (Some lt) -> lt_refs lt = Z.of_nat (life_refs pins keys l) /\ 0 < lt_refs lt;
  lk_stream : forall d ds, streams !! d = Some (Some ds) -> ds_refcount ds = Z.of_nat (stream_refs srefs keys lifes d) /\ 0 < ds_refcount ds;
  lk_keys : forall k, k ∈ keys -> key_ok lifes streams k;
  lk_lifes : forall l lt, lifes !! l = Some (Some lt) -> key_ok lifes streams (mk_key (lt_host_fd lt) (lt_type lt) None (lt_dir lt));
  lk_pins : forall x l, (x, l) ∈ pins -> exists lt, lifes !! l = Some (Some lt) /\ lt_host_fd lt = x;
  lk_srefs : forall d, d ∈ srefs -> exists ds, streams !! d = Some (Some ds)
}.

Lemma linked_perm h keys keys' lifes streams hand hand' pins pins' srefs srefs' :
  keys ≡ₚ keys' -> hand ≡ₚ hand' -> pins ≡ₚ pins' -> srefs ≡ₚ srefs' ->
  linked h keys lifes streams hand pins srefs -> linked h keys' lifes streams hand' pins' srefs'.
Proof.
  intros Pk Ph Pp Ps []. split.
  - eapply owns_ext; [|exact lk_own0]. intros x Hx. unfold owned_by. by rewrite (total_perm _ _ _ Pk), (total_perm _ _ _ Ph).
  - intros l lt Hl. unfold life_refs. rewrite <- (total_perm _ _ _ Pk), <- (total_perm _ _ _ Pp). by apply lk_life0.
  - intros d ds Hd. unfold stream_refs. rewrite <- (total_perm _ _ _ Pk), <- (total_perm _ _ _ Ps). by apply lk_stream0.
  - intros k. rewrite <- Pk. apply lk_keys0.
  - apply lk_lifes0.
  - intros x l. rewrite <- Pp. apply lk_pins0.
  - intros d. rewrite <- Ps. apply lk_srefs0.
Qed.

(** ** Moving ownership *)

Lemma linked_move h keys keys' lifes streams hand hand' pins pins' srefs srefs' :
  linked h keys lifes streams hand pins srefs ->
  (forall x, 0 <= x -> owned_by hand' keys' lifes streams x = owned_by hand keys lifes streams x) ->
  (forall l, life_refs pins' keys' l = life_refs pins keys l) ->
  (forall d, stream_refs srefs' keys' lifes d = stream_refs srefs keys lifes d) ->
  (forall k, k ∈ keys' -> k ∈ keys \/ key_ok lifes streams k) ->
  (forall x l, (x, l) ∈ pins' -> (x, l) ∈ pins \/ exists lt, lifes !! l = Some (Some lt) /\ lt_host_fd lt = x) ->
  (forall d, d ∈ srefs' -> d ∈ srefs \/ exists ds, streams !! d = Some (Some ds)) ->
  linked h keys' lifes streams hand' pins' srefs'.
Proof.
  intros [] Ho Hl Hs Hk Hp Hd. split.
  - by eapply owns_ext.
  - intros l lt. rewrite Hl. apply lk_life0.
  - intros d ds. rewrite Hs. apply lk_stream0.
  - intros k [Hin|Hk']%Hk; [by apply lk_keys0|done].
  - done.
  - intros x l [Hin|Hp']%Hp; [by apply lk_pins0|done].
  - intros d [Hin|Hd']%Hd; [by apply lk_srefs0|done].
Qed.

(** Dispatch of the side conditions of [linked_move] that are plain counting. *)
Ltac counting :=
  intros; unfold owned_by, life_refs, stream_refs, key_owns; cbn [sum_list_with k_life k_stream k_fd k_type is_ref snd].
Ltac members := intros *; rewrite ?elem_of_cons; naive_solver.

(** A slot that owns its descriptor against a caller that does. *)
Lemma key_to_hand h keys lifes streams hand pins srefs x t : t <> FD_STDIO ->
  linked h (mk_key x t None None :: keys) lifes streams hand pins srefs <-> linked h keys lifes streams (x :: hand) pins srefs.
Proof.
  intros Ht%Z.eqb_neq. split; intros L; (eapply linked_move; [exact L| | | | | |]); try (counting; rewrite ?Ht; lia); try members.
  intros k [->|Hin]%elem_of_cons; [right|by left]. split; cbn; [done|done|]. intros ->. done.
Qed.

(** A slot on a stream against a caller's reference to it. *)
Lemma key_to_sref h keys lifes streams hand pins srefs x d : stream_is streams d x ->
  linked h (mk_key x FD_DIR None (Some d) :: keys) lifes streams hand pins srefs <-> linked h keys lifes streams hand pins (d :: srefs).
Proof.
  intros Hd. split; intros L; (eapply linked_move; [exact L| | | | | |]); try (counting; lia); try members.
  - intros d' [->|Hin]%elem_of_cons; [right|by left]. destruct Hd as (ds & Hd & _). by exists ds.
  - intros k [->|Hin]%elem_of_cons; [right|by left]. split; cbn; [done| |done]. intros ? [= <-]. done.
Qed.

(** A slot with a lifetime against a pin of it. *)
Lemma key_to_pin h keys lifes streams hand pins srefs x t l st :
  linked h (mk_key x t (Some l) st :: keys) lifes streams hand pins srefs ->
  linked h keys lifes streams hand ((x, l) :: pins) (option_list st ++ srefs).
Proof.
  intros L. pose proof (lk_keys _ _ _ _ _ _ _ L _ ltac:(left)) as []. eapply linked_move; [exact L| | | | | |]; try (counting; lia).
  - intros. unfold stream_refs. cbn [sum_list_with k_stream]. destruct st; cbn; lia.
  - members.
  - intros y m [[= -> ->]|Hin]%elem_of_cons; [right|by left]. destruct (ko_life0 l eq_refl) as (lt & E & Ex & _). by exists lt.
  - intros d. destruct st as [d'|]; cbn [option_list app]; [|by left]. intros [->|Hin]%elem_of_cons; [right|by left].
    destruct (ko_stream0 d' eq_refl) as (_ & ds & E & _). by exists ds.
Qed.

(** A standard stream's slot owns nothing. *)
Lemma key_drop_stdio h keys lifes streams hand pins srefs x :
  linked h (mk_key x FD_STDIO None None :: keys) lifes streams hand pins srefs -> linked h keys lifes streams hand pins srefs.
Proof. intros L. eapply linked_move; [exact L| | | | | |]; try (counting; lia); members. Qed.

(** ** Giving a descriptor back *)

Lemma close_hand h keys lifes streams hand pins srefs x :
  linked h keys lifes streams (x :: hand) pins srefs -> linked (host_close h x) keys lifes streams hand pins srefs.
Proof.
  intros []. split; try done. destruct (Z.leb_spec 0 x) as [Hx|Hx].
  - assert (host_close h x = close_owned h x) as -> by (unfold close_owned; by rewrite (proj2 (Z.leb_le 0 x))).
    eapply owns_close; [|exact lk_own0]. intros y Hy. unfold owned_by. cbn [sum_list_with]. lia.
  - intros y Hy. destruct (lk_own0 y Hy) as (O1 & O2 & O3). rewrite close_spec.
    assert (owned_by (x :: hand) keys lifes streams y = owned_by hand keys lifes streams y) as <-.
    { unfold owned_by. cbn [sum_list_with]. unfold one_fd at 1. destruct (Z.eqb_spec x y); lia. }
    split_and!; [|done|done]. rewrite O1. split; [tauto|]. intros. split; [lia|done].
Qed.

Lemma key_ok_mono lifes lifes' streams streams' k :
  (forall l lt, k_life k = Some l -> lifes !! l = Some (Some lt) -> exists lt', lifes' !! l = Some (Some lt') /\
     lt_host_fd lt' = lt_host_fd lt /\ lt_type lt' = lt_type lt /\ lt_dir lt' = lt_dir lt) ->
  (forall d x, k_stream k = Some d -> stream_is streams d x -> stream_is streams' d x) ->
  key_ok lifes streams k -> key_ok lifes' streams' k.
Proof.
  intros Hl Hs []. split; [| |done].
  - intros l Hk. destruct (ko_life0 l Hk) as (lt & E & E1 & E2 & E3). destruct (Hl l lt Hk E) as (lt' & E' & F1 & F2 & F3).
    exists lt'. split; [done|]. split_and!; congruence.
  - intros d Hk. destruct (ko_stream0 d Hk) as [E1 E2]. split; [done|]. by apply Hs.
Qed.

Lemma is_ref_pos o n : (0 < is_ref o n)%nat <-> o = Some n.
Proof. destruct o as [m|]; cbn; [|split; [lia|done]]. destruct (decide (m = n)) as [->|Hne]; [split; [done|lia]|]. split; [lia|]. congruence. Qed.

Lemma is_ref_same n : is_ref (Some n) n = 1%nat.
Proof. cbn. by rewrite decide_True. Qed.

Lemma is_ref_other m n : m <> n -> is_ref (Some m) n = 0%nat.
Proof. intros. cbn. by rewrite decide_False. Qed.

(** A member counts. *)
Lemma total_elem {A} (f : A -> nat) l a : a ∈ l -> (f a <= tally f l)%nat.
Proof. intros [i E]%list_elem_of_lookup. by eapply total_lookup. Qed.

(** Streams: another count, the same descriptor. *)
Lemma stream_recount h keys lifes streams hand pins srefs srefs' d ds r :
  linked h keys lifes streams hand pins srefs -> streams !! d = Some (Some ds) ->
  r = Z.of_nat (stream_refs srefs' keys lifes d) -> 0 < r ->
  (forall d', d' <> d -> stream_refs srefs' keys lifes d' = stream_refs srefs keys lifes d') ->
  (forall d', d' ∈ srefs' -> d' = d \/ d' ∈ srefs) ->
  linked h keys lifes (<[d := Some (mk_stream r (ds_host_fd ds))]> streams) hand pins srefs'.
Proof.
  intros [] Hd Hr Hpos Ho Hs.
  assert (forall d' x, stream_is streams d' x -> stream_is (<[d := Some (mk_stream r (ds_host_fd ds))]> streams) d' x) as Hmono.
  { intros d' x (ds' & E & Ex). destruct (decide (d' = d)) as [->|Hne].
    - rewrite Hd in E. injection E as <-. eexists. split; [apply list_lookup_insert_eq; by eapply lookup_lt_Some|done].
    - exists ds'. by rewrite list_lookup_insert_ne. }
  split; try done.
  - eapply owns_ext; [|exact lk_own0]. intros x Hx. unfold owned_by.
    pose proof (total_insert (stream_owns x) streams d _ (Some (mk_stream r (ds_host_fd ds))) Hd) as E. cbn [stream_owns ds_host_fd] in E. lia.
  - intros d' ds'. destruct (decide (d' = d)) as [->|Hne].
    + rewrite list_lookup_insert_eq by (by eapply lookup_lt_Some). intros [= <-]. done.
    + rewrite list_lookup_insert_ne by done. rewrite Ho by done. apply lk_stream0.
  - intros k Hk. eapply key_ok_mono; [| |by apply lk_keys0]; [naive_solver|intros; by apply Hmono].
  - intros l lt Hl. eapply key_ok_mono; [| |by eapply lk_lifes0]; [naive_solver|intros; by apply Hmono].
  - intros d' [->|[ds' E]%lk_srefs0]%Hs.
    + eexists. apply list_lookup_insert_eq. by eapply lookup_lt_Some.
    + destruct (Hmono d' (ds_host_fd ds')) as (ds'' & E' & _); [by exists ds'|]. by exists ds''.
Qed.

Lemma sref_add h keys lifes streams hand pins srefs d ds :
  linked h keys lifes streams hand pins srefs -> streams !! d = Some (Some ds) ->
  linked h keys lifes (<[d := Some (mk_stream (ds_refcount ds + 1) (ds_host_fd ds))]> streams) hand pins (d :: srefs).
Proof.
  intros L Hd. destruct (lk_stream _ _ _ _ _ _ _ L d ds Hd) as [E Hp]. eapply stream_recount; try done.
  - rewrite E. unfold stream_refs. cbn [sum_list_with]. rewrite is_ref_same. lia.
  - lia.
  - intros d' Hne. unfold stream_refs. cbn [sum_list_with]. rewrite is_ref_other by done. lia.
  - members.
Qed.

Lemma sref_drop h keys lifes streams hand pins srefs d ds :
  linked h keys lifes streams hand pins (d :: srefs) -> streams !! d = Some (Some ds) -> ds_refcount ds <> 1 ->
  linked h keys lifes (<[d := Some (mk_stream (ds_refcount ds - 1) (ds_host_fd ds))]> streams) hand pins srefs.
Proof.
  intros L Hd Hne. destruct (lk_stream _ _ _ _ _ _ _ L d ds Hd) as [E Hp]. eapply stream_recount; try done.
  - rewrite E. unfold stream_refs. cbn [sum_list_with]. rewrite is_ref_same. lia.
  - lia.
  - intros d' Hd'. unfold stream_refs. cbn [sum_list_with]. rewrite is_ref_other by done. lia.
  - members.
Qed.

(** The last reference to a stream. *)
Lemma sref_last h keys lifes streams hand pins srefs d ds :
  linked h keys lifes streams hand pins (d :: srefs) -> streams !! d = Some (Some ds) -> ds_refcount ds = 1 ->
  linked h keys lifes (<[d := None]> streams) (ds_host_fd ds :: hand) pins srefs.
Proof.
  intros [] Hd E1. destruct (lk_stream0 d ds Hd) as [E _]. rewrite E1 in E. unfold stream_refs in E. cbn [sum_list_with] in E.
  rewrite is_ref_same in E.
  assert (forall k, k ∈ keys -> k_stream k <> Some d) as Nk.
  { intros k Hk. rewrite <- is_ref_pos. pose proof (total_elem (fun k => is_ref (k_stream k) d) keys k Hk). cbn beta in *. lia. }
  assert (forall l lt, lifes !! l = Some (Some lt) -> lt_dir lt <> Some d) as Nl.
  { intros l lt Hl. rewrite <- is_ref_pos. pose proof (total_lookup (life_ref d) lifes l _ Hl). cbn [life_ref] in *. lia. }
  assert (forall d', d' ∈ srefs -> d' <> d) as Ns.
  { intros d' Hd' ->. pose proof (total_elem (fun m => is_ref (Some m) d) srefs d Hd') as T. cbn beta in T. rewrite is_ref_same in T. lia. }
  assert (forall d' x, d' <> d -> stream_is streams d' x -> stream_is (<[d := None]> streams) d' x) as Hmono.
  { intros d' x Hne (ds' & E' & Ex). exists ds'. by rewrite list_lookup_insert_ne. }
  split; try done.
  - eapply owns_ext; [|exact lk_own0]. intros x Hx. unfold owned_by. pose proof (total_insert (stream_owns x) streams d _ None Hd) as T.
    cbn [stream_owns] in T. cbn [sum_list_with]. lia.
  - intros d' ds'. destruct (decide (d' = d)) as [->|Hne].
    + rewrite list_lookup_insert_eq by (by eapply lookup_lt_Some). done.
    + rewrite list_lookup_insert_ne by done. intros Hd'. destruct (lk_stream0 d' ds' Hd') as [-> Hp]. split; [|done].
      unfold stream_refs. cbn [sum_list_with]. rewrite is_ref_other by done. lia.
  - intros k Hk. eapply key_ok_mono; [| |by apply lk_keys0]; [naive_solver|]. intros d' x Hs. apply Hmono. intros ->. by apply (Nk k).
  - intros l lt Hl. eapply key_ok_mono; [| |by eapply lk_lifes0]; [naive_solver|]. intros d' x Hs. apply Hmono. intros ->. by apply (Nl l lt).
  - intros d' Hd'. destruct (lk_srefs0 d' ltac:(by right)) as [ds' E']. exists ds'. rewrite list_lookup_insert_ne; [done|]. intros ->. by apply (Ns d').
Qed.

(** Adopting a descriptor into a new stream. *)
Lemma stream_create h keys lifes streams hand pins srefs x :
  linked h keys lifes streams (x :: hand) pins srefs ->
  linked h keys lifes (streams ++ [Some (mk_stream 1 x)]) hand pins (length streams :: srefs).
Proof.
  intros []. assert (forall d' y, stream_is streams d' y -> stream_is (streams ++ [Some (mk_stream 1 x)]) d' y) as Hmono.
  { intros d' y (ds & E & Ey). exists ds. split; [by apply lookup_app_l_Some|done]. }
  assert (streams !! length streams = None) as Hnone by (by apply lookup_ge_None).
  assert (stream_refs srefs keys lifes (length streams) = 0%nat) as Hz.
  { unfold stream_refs. rewrite !total_zero; [done|..].
    - intros [lt|] Hl; [|done]. apply list_elem_of_lookup in Hl as [l Hl]. cbn [life_ref]. destruct (is_ref (lt_dir lt) (length streams)) eqn:E; [done|].
      destruct (ko_stream _ _ _ (lk_lifes0 l lt Hl) (length streams)) as (_ & ds & E' & _); [apply is_ref_pos; cbn; lia|congruence].
    - intros k Hk. destruct (is_ref (k_stream k) (length streams)) eqn:E; [done|].
      destruct (ko_stream _ _ _ (lk_keys0 k Hk) (length streams)) as (_ & ds & E' & _); [apply is_ref_pos; lia|congruence].
    - intros d Hd. destruct (is_ref (Some d) (length streams)) eqn:E; [done|]. assert (Some d = Some (length streams)) as [= ->] by (apply is_ref_pos; lia).
      destruct (lk_srefs0 _ Hd). congruence. }
  split; try done.
  - eapply owns_ext; [|exact lk_own0]. intros y Hy. unfold owned_by. rewrite sum_list_with_app. cbn [sum_list_with stream_owns ds_host_fd]. lia.
  - intros d ds [Hd|[-> Hd]]%lookup_snoc_Some.
    + destruct Hd as [Hlt Hd]. destruct (lk_stream0 d ds Hd) as [-> Hp]. split; [|done]. unfold stream_refs. cbn [sum_list_with].
      rewrite is_ref_other by lia. lia.
    + injection Hd as <-. unfold stream_refs in *. cbn [sum_list_with ds_refcount]. rewrite is_ref_same. lia.
  - intros k Hk. eapply key_ok_mono; [| |by apply lk_keys0]; [naive_solver|intros; by apply Hmono].
  - intros l lt Hl. eapply key_ok_mono; [| |by eapply lk_lifes0]; [naive_solver|intros; by apply Hmono].
  - intros d [->|[ds Hd]%lk_srefs0]%elem_of_cons.
    + eexists. apply lookup_snoc_Some. by right.
    + exists ds. by apply lookup_app_l_Some.
Qed.

(** Lifetimes: another count, the same descriptor. *)
Definition recounted (lt : fd_lifetime) (r : Z) : fd_lifetime := mk_lifetime r (lt_host_fd lt) (lt_type lt) (lt_dir lt).

Lemma recount_lookup (lifes : list (option fd_lifetime)) l lt r l' lt' : lifes !! l = Some (Some lt) ->
  <[l := Some (recounted lt r)]> lifes !! l' = Some (Some lt') ->
  exists lt0, lifes !! l' = Some (Some lt0) /\ lt_host_fd lt' = lt_host_fd lt0 /\ lt_type lt' = lt_type lt0 /\ lt_dir lt' = lt_dir lt0.
Proof.
  intros Hl. destruct (decide (l' = l)) as [->|Hne].
  - rewrite list_lookup_insert_eq by (by eapply lookup_lt_Some). intros [= <-]. by exists lt.
  - rewrite list_lookup_insert_ne by done. intros. by exists lt'.
Qed.

Lemma recount_mono (lifes : list (option fd_lifetime)) l lt r l' lt' : lifes !! l = Some (Some lt) -> lifes !! l' = Some (Some lt') ->
  exists lt0, <[l := Some (recounted lt r)]> lifes !! l' = Some (Some lt0) /\
    lt_host_fd lt0 = lt_host_fd lt' /\ lt_type lt0 = lt_type lt' /\ lt_dir lt0 = lt_dir lt'.
Proof.
  intros Hl Hl'. destruct (decide (l' = l)) as [->|Hne].
  - rewrite list_lookup_insert_eq by (by eapply lookup_lt_Some). eexists. split; [done|]. rewrite Hl in Hl'. by injection Hl' as ->.
  - rewrite list_lookup_insert_ne by done. by exists lt'.
Qed.

Lemma life_recount h keys lifes streams hand pins pins' srefs l lt r :
  linked h keys lifes streams hand pins srefs -> lifes !! l = Some (Some lt) ->
  r = Z.of_nat (life_refs pins' keys l) -> 0 < r ->
  (forall l', l' <> l -> life_refs pins' keys l' = life_refs pins keys l') ->
  (forall x l', (x, l') ∈ pins' -> (x, l') = (lt_host_fd lt, l) \/ (x, l') ∈ pins) ->
  linked h keys (<[l := Some (recounted lt r)]> lifes) streams hand pins' srefs.
Proof.
  intros [] Hl Hr Hpos Ho Hp. pose proof (fun l' lt' => recount_mono lifes l lt r l' lt' Hl) as Hmono.
  pose proof (fun f => total_insert f lifes l _ (Some (recounted lt r)) Hl) as T.
  split; try done.
  - eapply owns_ext; [|exact lk_own0]. intros x Hx. unfold owned_by. specialize (T (life_owns x)). cbn [life_owns recounted lt_dir lt_type lt_host_fd] in T. lia.
  - intros l' lt'. destruct (decide (l' = l)) as [->|Hne].
    + rewrite list_lookup_insert_eq by (by eapply lookup_lt_Some). intros [= <-]. done.
    + rewrite list_lookup_insert_ne by done. rewrite Ho by done. apply lk_life0.
  - intros d ds Hd. destruct (lk_stream0 d ds Hd) as [-> Hpd]. split; [|done]. unfold stream_refs. specialize (T (life_ref d)). cbn [life_ref recounted lt_dir] in T. lia.
  - intros k Hk. eapply key_ok_mono; [| |by apply lk_keys0]; [intros; by apply Hmono|done].
  - intros l' lt' Hl'. destruct (recount_lookup _ _ _ _ _ _ Hl Hl') as (lt0 & E & -> & -> & ->).
    eapply key_ok_mono; [| |by eapply lk_lifes0]; done.
  - intros x l' [[= -> ->]|Hin]%Hp.
    + destruct (Hmono l lt Hl) as (lt0 & E & E1 & _). by exists lt0.
    + destruct (lk_pins0 x l' Hin) as (lt' & E & <-). destruct (Hmono l' lt' E) as (lt0 & E' & E1 & _). by exists lt0.
Qed.

Lemma pin_add h keys lifes streams hand pins srefs l lt :
  linked h keys lifes streams hand pins srefs -> lifes !! l = Some (Some lt) ->
  linked h keys (<[l := Some (recounted lt (lt_refs lt + 1))]> lifes) streams hand ((lt_host_fd lt, l) :: pins) srefs.
Proof.
  intros L Hl. destruct (lk_life _ _ _ _ _ _ _ L l lt Hl) as [E Hp]. eapply life_recount; try done.
  - rewrite E. unfold life_refs. cbn [sum_list_with snd]. rewrite is_ref_same. lia.
  - lia.
  - intros l' Hne. unfold life_refs. cbn [sum_list_with snd]. rewrite is_ref_other by done. lia.
  - members.
Qed.

Lemma pin_drop h keys lifes streams hand pins srefs x l lt :
  linked h keys lifes streams hand ((x, l) :: pins) srefs -> lifes !! l = Some (Some lt) -> lt_refs lt <> 1 ->
  linked h keys (<[l := Some (recounted lt (lt_refs lt - 1))]> lifes) streams hand pins srefs.
Proof.
  intros L Hl Hne. destruct (lk_life _ _ _ _ _ _ _ L l lt Hl) as [E Hp]. eapply life_recount; try done.
  - rewrite E. unfold life_refs. cbn [sum_list_with snd]. rewrite is_ref_same. lia.
  - lia.
  - intros l' Hl'. unfold life_refs. cbn [sum_list_with snd]. rewrite is_ref_other by done. lia.
  - intros y l' Hin. right. by right.
Qed.

(** The last pin: what the lifetime held is held directly again. *)
Lemma pin_last h keys lifes streams hand pins srefs x l lt :
  linked h keys lifes streams hand ((x, l) :: pins) srefs -> lifes !! l = Some (Some lt) -> lt_refs lt = 1 ->
  linked h (mk_key (lt_host_fd lt) (lt_type lt) None (lt_dir lt) :: keys) (<[l := None]> lifes) streams hand pins srefs.
Proof.
  intros [] Hl E1. destruct (lk_life0 l lt Hl) as [E _]. rewrite E1 in E. unfold life_refs in E. cbn [sum_list_with snd] in E. rewrite is_ref_same in E.
  assert (forall k, k ∈ keys -> k_life k <> Some l) as Nk.
  { intros k Hk. rewrite <- is_ref_pos. pose proof (total_elem (fun k => is_ref (k_life k) l) keys k Hk). cbn beta in *. lia. }
  assert (forall y l', (y, l') ∈ pins -> l' <> l) as Np.
  { intros y l' Hin ->. pose proof (total_elem (fun p : Z * nat => is_ref (Some p.2) l) pins _ Hin) as T. cbn [snd] in T. rewrite is_ref_same in T. lia. }
  pose proof (fun f => total_insert f lifes l _ None Hl) as T.
  assert (forall l' lt', l' <> l -> lifes !! l' = Some (Some lt') -> exists lt0, <[l := None]> lifes !! l' = Some (Some lt0) /\
    lt_host_fd lt0 = lt_host_fd lt' /\ lt_type lt0 = lt_type lt' /\ lt_dir lt0 = lt_dir lt') as Hmono.
  { intros l' lt' Hne Hl'. exists lt'. by rewrite list_lookup_insert_ne. }
  split; try done.
  - eapply owns_ext; [|exact lk_own0]. intros y Hy. unfold owned_by. specialize (T (life_owns y)). cbn [life_owns] in T.
    cbn [sum_list_with]. unfold key_owns at 1. cbn [k_life k_stream k_type k_fd]. lia.
  - intros l' lt'. destruct (decide (l' = l)) as [->|Hne]; [by rewrite list_lookup_insert_eq by (by eapply lookup_lt_Some)|].
    rewrite list_lookup_insert_ne by done. intros Hl'. destruct (lk_life0 l' lt' Hl') as [-> Hp]. split; [|done].
    unfold life_refs. cbn [sum_list_with k_life snd]. rewrite is_ref_other by done. cbn [is_ref]. lia.
  - intros d ds Hd. destruct (lk_stream0 d ds Hd) as [-> Hp]. split; [|done]. unfold stream_refs. specialize (T (life_ref d)).
    cbn [life_ref] in T. cbn [sum_list_with k_stream]. lia.
  - intros k [->|Hk]%elem_of_cons; (eapply key_ok_mono; [| |by (eapply lk_lifes0 || apply lk_keys0)]); try done.
    intros l' lt' Hk'. apply Hmono. intros ->. by apply (Nk k).
  - intros l' lt' Hl'. assert (lifes !! l' = Some (Some lt')) as Hl''.
    { destruct (decide (l' = l)) as [->|Hne]; [|by rewrite list_lookup_insert_ne in Hl' by done].
      by rewrite list_lookup_insert_eq in Hl' by (by eapply lookup_lt_Some). }
    eapply key_ok_mono; [| |by eapply lk_lifes0]; done.
  - intros y l' Hin. destruct (lk_pins0 y l' ltac:(by right)) as (lt' & E' & <-). exists lt'. rewrite list_lookup_insert_ne; [done|].
    intros ->. by apply (Np (lt_host_fd lt') l').
Qed.

(** A lifetime for a slot that had none; it takes over a stream reference. *)
Lemma life_create h keys lifes streams hand pins srefs x t st :
  linked h (mk_key x t None st :: keys) lifes streams hand pins (option_list st ++ srefs) ->
  linked h (mk_key x t (Some (length lifes)) st :: keys) (lifes ++ [Some (mk_lifetime 2 x t st)]) streams hand ((x, length lifes) :: pins) srefs.
Proof.
  intros []. set (n := length lifes) in *. assert (lifes !! n = None) as Hnone by (by apply lookup_ge_None).
  assert (life_refs pins keys n = 0%nat) as Hz.
  { unfold life_refs. rewrite !total_zero; [done|..].
    - intros k Hk. destruct (is_ref (k_life k) n) eqn:E; [done|].
      destruct (ko_life _ _ _ (lk_keys0 k ltac:(by right)) n) as (lt & E' & _); [apply is_ref_pos; lia|congruence].
    - intros [y l] Hin. cbn [snd]. destruct (decide (l = n)) as [->|]; [|by apply is_ref_other]. destruct (lk_pins0 y n Hin) as (? & E & _). congruence. }
  assert (forall l lt, lifes !! l = Some (Some lt) -> exists lt', (lifes ++ [Some (mk_lifetime 2 x t st)]) !! l = Some (Some lt') /\
    lt_host_fd lt' = lt_host_fd lt /\ lt_type lt' = lt_type lt /\ lt_dir lt' = lt_dir lt) as Hmono.
  { intros l lt Hl. exists lt. split; [by apply lookup_app_l_Some|done]. }
  assert ((lifes ++ [Some (mk_lifetime 2 x t st)]) !! n = Some (Some (mk_lifetime 2 x t st))) as Hn by (apply lookup_snoc_Some; by right).
  pose proof (lk_keys0 _ ltac:(left)) as [_ Ks Kst]. cbn [k_stream k_type k_fd] in *.
  split.
  - eapply owns_ext; [|exact lk_own0]. intros y Hy. unfold owned_by. rewrite sum_list_with_app. cbn [sum_list_with].
    unfold key_owns at 1 3. cbn [life_owns k_life k_stream k_type k_fd lt_dir lt_type lt_host_fd]. destruct st; cbn iota; lia.
  - intros l lt [[Hlt Hl]|[-> Hl]]%lookup_snoc_Some.
    + destruct (lk_life0 l lt Hl) as [-> Hp]. split; [|done]. unfold life_refs. cbn [sum_list_with k_life snd]. fold n in Hlt. rewrite !is_ref_other by lia. cbn [is_ref]. lia.
    + injection Hl as <-. unfold life_refs in *. cbn [sum_list_with k_life snd lt_refs]. fold n. rewrite !is_ref_same. lia.
  - intros d ds Hd. destruct (lk_stream0 d ds Hd) as [-> Hp]. split; [|done]. unfold stream_refs. rewrite !sum_list_with_app.
    cbn [sum_list_with k_stream life_ref lt_dir]. destruct st as [m|].
    { change (option_list (Some m)) with [m]. cbn [sum_list_with]. lia. }
    change (@option_list nat None) with (@nil nat). cbn [sum_list_with]. change (is_ref None d) with 0%nat. lia.
  - intros k [->|Hk]%elem_of_cons.
    + split; [intros ? [= <-]; by eexists|done|done].
    + eapply key_ok_mono; [intros; by apply Hmono|done|]. apply lk_keys0. by right.
  - intros l lt [[Hlt Hl]|[-> Hl]]%lookup_snoc_Some.
    + eapply key_ok_mono; [| |by eapply lk_lifes0]; done.
    + injection Hl as <-. split; [done|done|done].
  - intros y l [[= -> ->]|Hin]%elem_of_cons; [by eexists|]. destruct (lk_pins0 y l Hin) as (lt & E & <-). destruct (Hmono l lt E) as (lt' & E' & E1 & _). by exists lt'.
  - intros d Hd. apply lk_srefs0. apply elem_of_app. by right.
Qed.
End Own.
