(* ===== verification/FdLife.v ===== *)
(** * Descriptor lifetimes under interleaving

    The threads of the guest share one table.  A state of the system is the table
    together with what the threads hold between two critical sections: host
    descriptors not yet published, pins taken by [fd_host_ref_acquire], removed
    entries whose teardown has not run, and references to directory streams.  A
    step is one critical section or one teardown, by any thread, with any
    arguments the callers may pass. *)

From S2P Require Import Prelude Regions HostFds FdTable FdFacts FdOwn.
From stdpp Require Import relations.
#[local] Open Scope Z_scope.

(** What fcntl does: it opens and closes nothing, and sets what it is asked to
    as far as O_NONBLOCK is concerned; a descriptor that took O_NONBLOCK lets go
    of it again. *)
Class FdHostLaws (H : Type) `{HE : HostEnv H, HL : !HostFdLaws H, HX : !FdHost H} := {
  setfl_open : forall h fd v x, fd_open (snd (fcntl_setfl h fd v)) x <-> fd_open h x;
  setfl_get : forall h fd v, Z.lor v O_NONBLOCK = Z.lor (fcntl_getfl h fd) O_NONBLOCK ->
    0 <= fst (fcntl_setfl h fd v) -> fcntl_getfl (snd (fcntl_setfl h fd v)) fd = v;
  setfl_undo : forall h fd v w, 0 <= fst (fcntl_setfl h fd v) -> Z.lor w O_NONBLOCK = Z.lor v O_NONBLOCK ->
    0 <= fst (fcntl_setfl (snd (fcntl_setfl h fd v)) fd w);
  setfl_fail : forall h fd v, fst (fcntl_setfl h fd v) < 0 -> fcntl_getfl (snd (fcntl_setfl h fd v)) fd = fcntl_getfl h fd;
  nonblock_bit : exists n, 0 <= n /\ O_NONBLOCK = 2 ^ n
}.

Section Life.
Context {H : Type} `{HE : HostEnv H, HL : !HostFdLaws H, HX : !FdHost H, HF : !FdHostLaws H}.
Variable F : Z -> Prop.
Implicit Types s : fds H.

Record sys := mk_sys {
  y_fds : fds H;
  y_hand : list Z;
  y_pins : list (Z * nat);
  y_pend : list (Z * fd_entry_t);
  y_srefs : list nat
}.

(** ** Steps *)

Definition pend_of (fd : Z) (old : option fd_entry_t) : list (Z * fd_entry_t) := match old with Some e => [(fd, e)] | None => [] end.

Inductive step : sys -> sys -> Prop :=
  | st_host s h' hand pins pend srefs : (forall x, fd_open h' x <-> fd_open (f_host s) x) ->
      step (mk_sys s hand pins pend srefs) (mk_sys (set_host h' s) hand pins pend srefs)
  | st_open s n h' hand pins pend srefs : 0 <= n -> ~ fd_open (f_host s) n -> (forall x, fd_open h' x <-> x = n \/ fd_open (f_host s) x) ->
      step (mk_sys s hand pins pend srefs) (mk_sys (set_host h' s) (n :: hand) pins pend srefs)
  | st_nofd s hand pins pend srefs : step (mk_sys s hand pins pend srefs) (mk_sys s (-1 :: hand) pins pend srefs)
  | st_hand_close s x h1 h2 pins pend srefs :
      step (mk_sys s (h1 ++ x :: h2) pins pend srefs) (mk_sys (set_host (host_close (f_host s) x) s) (h1 ++ h2) pins pend srefs)
  | st_alloc rlim minfd type cleanup probe alias s s' fd x h1 h2 pins pend srefs :
      type <> FD_CLOSED -> type <> FD_STDIO -> alias_ok s alias -> tbl_room s ->
      fd_alloc_locked rlim s minfd type x cleanup probe alias = (fd, s') ->
      step (mk_sys s (h1 ++ x :: h2) pins pend srefs) (mk_sys s' (if fd <? 0 then h1 ++ x :: h2 else h1 ++ h2) pins pend srefs)
  | st_alloc_dir rlim minfd cleanup probe alias flags s s' fd x d hand pins pend r1 r2 :
      alias_ok s alias -> tbl_room s -> stream_is (f_streams s) d x ->
      alloc_dir_locked rlim s minfd FD_DIR x cleanup probe alias (Some d) flags = (fd, s') ->
      step (mk_sys s hand pins pend (r1 ++ d :: r2)) (mk_sys s' hand pins pend (if fd <? 0 then r1 ++ d :: r2 else r1 ++ r2))
  | st_alloc_other rlim minfd type cleanup probe alias dir flags s s' fd x h1 h2 pins pend srefs :
      type <> FD_CLOSED -> type <> FD_STDIO -> type <> FD_DIR -> alias_ok s alias -> tbl_room s ->
      alloc_dir_locked rlim s minfd type x cleanup probe alias dir flags = (fd, s') ->
      step (mk_sys s (h1 ++ x :: h2) pins pend srefs) (mk_sys s' (if fd <? 0 then h1 ++ x :: h2 else h1 ++ h2) pins pend srefs)
  | st_alloc_at fd type cleanup probe alias s s' gen old x h1 h2 pins pend srefs :
      in_tbl fd -> type <> FD_CLOSED -> type <> FD_STDIO -> alias_ok s alias -> tbl_room s ->
      alloc_at_locked alias s fd type x cleanup probe None = (gen, s', old) ->
      step (mk_sys s (h1 ++ x :: h2) pins pend srefs) (mk_sys s' (h1 ++ h2) pins (pend_of fd old ++ pend) srefs)
  | st_alloc_dir_at fd cleanup probe alias flags s s' gen old x d hand pins pend r1 r2 :
      in_tbl fd -> alias_ok s alias -> tbl_room s -> stream_is (f_streams s) d x ->
      alloc_at_locked alias s fd FD_DIR x cleanup probe (Some (Some d, flags)) = (gen, s', old) ->
      step (mk_sys s hand pins pend (r1 ++ d :: r2)) (mk_sys s' hand pins (pend_of fd old ++ pend) (r1 ++ r2))
  | st_close fd e s s' hand pins pend srefs : fd_snapshot_and_close s fd = (Some e, s') ->
      step (mk_sys s hand pins pend srefs) (mk_sys s' hand pins ((fd, e) :: pend) srefs)
  | st_close_relaxed single fd x s s' hand pins pend srefs : fd_close_regular_relaxed single s fd = (Some x, s') ->
      step (mk_sys s hand pins pend srefs) (mk_sys s' (x :: hand) pins pend srefs)
  | st_cleanup fd e s hand pins p1 p2 srefs :
      step (mk_sys s hand pins (p1 ++ (fd, e) :: p2) srefs) (mk_sys (fd_cleanup_entry s fd e) hand pins (p1 ++ p2) srefs)
  | st_retire fd x s hand pins pend srefs : in_tbl fd ->
      (is_open (slot s fd) = true -> e_host_fd (slot s fd) = x -> e_type (slot s fd) <> FD_STDIO /\ stream_of (slot s fd) = None) ->
      step (mk_sys s hand pins pend srefs) (mk_sys (fd_retire_published s fd x) hand pins pend srefs)
  | st_acquire fd spare x l s s' hand pins pend srefs : in_tbl fd -> acquire_pass s fd spare = (AcqOk x l, s') ->
      step (mk_sys s hand pins pend srefs) (mk_sys s' hand ((x, l) :: pins) pend srefs)
  | st_unpin x l s hand p1 p2 pend srefs :
      step (mk_sys s hand (p1 ++ (x, l) :: p2) pend srefs) (mk_sys (fd_lifetime_release s l) hand (p1 ++ p2) pend srefs)
  | st_dup fd n s s' hand pins pend srefs : fd_to_host_dup s fd = (n, s') ->
      step (mk_sys s hand pins pend srefs) (mk_sys s' (n :: hand) pins pend srefs)
  | st_share fd x e d s s' hand pins pend srefs : fd_snapshot_and_dup_or_share_dir s fd = (x, Some e, true, s') -> stream_of e = Some d ->
      step (mk_sys s hand pins pend srefs) (mk_sys s' hand pins pend (d :: srefs))
  | st_dup_plain fd x e s s' hand pins pend srefs : fd_snapshot_and_dup_or_share_dir s fd = (x, e, false, s') ->
      step (mk_sys s hand pins pend srefs) (mk_sys s' (x :: hand) pins pend srefs)
  | st_dir_acquire fd d s s' hand pins pend srefs : dir_stream_acquire s fd = (Some d, s') ->
      step (mk_sys s hand pins pend srefs) (mk_sys s' hand pins pend (d :: srefs))
  | st_dir_new malloc_ok fdopendir_ok x d s s' h1 h2 pins pend srefs : dir_stream_new malloc_ok fdopendir_ok s x = (Some d, s') ->
      step (mk_sys s (h1 ++ x :: h2) pins pend srefs) (mk_sys s' (h1 ++ h2) pins pend (d :: srefs))
  | st_dir_release d s hand pins pend r1 r2 :
      step (mk_sys s hand pins pend (r1 ++ d :: r2)) (mk_sys (dir_stream_release s d) hand pins pend (r1 ++ r2))
  | st_shadow fd gen mask value s hand pins pend srefs :
      step (mk_sys s hand pins pend srefs) (mk_sys (fd_set_shadow_flags s fd gen mask value) hand pins pend srefs)
  | st_nonblock fd on s hand pins pend srefs :
      step (mk_sys s hand pins pend srefs) (mk_sys (snd (fd_apply_guest_nonblock s fd on)) hand pins pend srefs)
  | st_flags fd flags s hand pins pend srefs :
      step (mk_sys s hand pins pend srefs) (mk_sys (fd_publish_linux_flags s fd flags) hand pins pend srefs)
  | st_reserve s hand pins pend srefs : tbl_room s ->
      step (mk_sys s hand pins pend srefs) (mk_sys (snd (fd_reserve_ofd_id s)) hand pins pend srefs)
  | st_urandom fd s hand pins pend srefs :
      step (mk_sys s hand pins pend srefs) (mk_sys (fd_refresh_urandom_bitmap s fd) hand pins pend srefs).

(** ** The invariant *)

Definition opens (l : list fd_entry_t) : list key := map key_of (filter (fun e => is_open e = true) l).

Definition keys s (pend : list (Z * fd_entry_t)) : list key := opens (f_table s) ++ opens (map snd pend).

Definition held s keys hand pins srefs : Prop := linked F (f_host s) keys (f_lifetimes s) (f_streams s) hand pins srefs.

Definition inv (y : sys) : Prop :=
  tbl_ok (y_fds y) /\ held (y_fds y) (keys (y_fds y) (y_pend y)) (y_hand y) (y_pins y) (y_srefs y) /\
  (forall fd e, (fd, e) ∈ y_pend y -> is_open e = true).

(** ** Operations that leave the table alone *)

Definition same_tbl s s' : Prop :=
  f_table s' = f_table s /\ f_free s' = f_free s /\ f_urandom s' = f_urandom s /\
  f_next_generation s' = f_next_generation s /\ f_next_ofd_id s' = f_next_ofd_id s.

Lemma same_tbl_ok s s' : same_tbl s s' -> tbl_ok s -> tbl_ok s'.
Proof.
  intros (E1 & E2 & E3 & E4 & E5) []. assert (forall i, slot s' i = slot s i) as Es by (intros; unfold slot; by rewrite E1).
  split; intros; rewrite ?Es, ?E1, ?E2, ?E3, ?E4, ?E5 in *; eauto.
Qed.

Lemma same_tbl_trans s1 s2 s3 : same_tbl s1 s2 -> same_tbl s2 s3 -> same_tbl s1 s3.
Proof. unfold same_tbl. intuition congruence. Qed.

Lemma mjoin_lookup {A} (l : list (option A)) i a : mjoin (l !! i) = Some a <-> l !! i = Some (Some a).
Proof. destruct (l !! i) as [[b|]|]; cbn; naive_solver. Qed.

Lemma alter_lookup {A} (f : A -> A) (l : list A) i a : l !! i = Some a -> alter f i l = <[i := f a]> l.
Proof.
  intros E. apply list_eq. intros j. destruct (decide (j = i)) as [->|Hne].
  - rewrite list_lookup_alter_eq, E, list_lookup_insert_eq by (by eapply lookup_lt_Some). done.
  - by rewrite list_lookup_alter_ne, list_lookup_insert_ne by done.
Qed.

Lemma dir_release_held s ks hand pins srefs d : held s ks hand pins (d :: srefs) ->
  held (dir_stream_release s d) ks hand pins srefs /\ same_tbl s (dir_stream_release s d).
Proof.
  intros L. destruct (lk_srefs _ _ _ _ _ _ _ _ L d ltac:(left)) as [ds Hd]. unfold dir_stream_release, stream_at.
  rewrite (proj2 (mjoin_lookup _ _ _) Hd). destruct (Z.eqb_spec (ds_refcount ds - 1) 0) as [E|E]; (split; [|done]).
  - apply close_hand. eapply sref_last; [exact L|done|lia].
  - eapply sref_drop; [exact L|done|lia].
Qed.

(** Giving back what a slot without a lifetime held. *)
Definition give_back s (k : key) : fds H :=
  match k_stream k with
  | Some d => dir_stream_release s d
  | None => if k_type k =? FD_STDIO then s else set_host (host_close (f_host s) (k_fd k)) s
  end.

Lemma give_back_held s ks hand pins srefs k : k_life k = None -> held s (k :: ks) hand pins srefs ->
  held (give_back s k) ks hand pins srefs /\ same_tbl s (give_back s k).
Proof.
  destruct k as [x t l st]. cbn. intros -> L. unfold give_back. cbn [k_stream k_type k_fd]. destruct st as [d|].
  - pose proof (lk_keys _ _ _ _ _ _ _ _ L _ ltac:(left)) as [_ Hs _]. destruct (Hs d eq_refl) as [E Hd]. cbn in E, Hd. subst t.
    apply dir_release_held. by apply (key_to_sref F _ _ _ _ _ _ _ x d Hd).
  - destruct (Z.eqb_spec t FD_STDIO) as [->|Hne].
    + split; [by eapply key_drop_stdio|done].
    + split; [|done]. apply close_hand. by apply (key_to_hand F _ _ _ _ _ _ _ x t Hne).
Qed.

Lemma life_release_held s ks hand pins srefs x l : held s ks hand ((x, l) :: pins) srefs ->
  held (fd_lifetime_release s l) ks hand pins srefs /\ same_tbl s (fd_lifetime_release s l).
Proof.
  intros L. destruct (lk_pins _ _ _ _ _ _ _ _ L x l ltac:(left)) as (lt & Hl & Hx). unfold fd_lifetime_release, lifetime_at.
  rewrite (proj2 (mjoin_lookup _ _ _) Hl). destruct (Z.eqb_spec (lt_refs lt) 1) as [E|E]; cbn [negb].
  - set (s1 := set_lifetimes (<[l := None]> (f_lifetimes s)) s).
    assert (held s1 (mk_key (lt_host_fd lt) (lt_type lt) None (lt_dir lt) :: ks) hand pins srefs) as L1 by (by eapply pin_last).
    destruct (give_back_held s1 ks hand pins srefs (mk_key (lt_host_fd lt) (lt_type lt) None (lt_dir lt)) eq_refl L1) as [G1 G2]. unfold give_back in G1, G2. cbn [k_stream k_type k_fd] in G1, G2.
    destruct (lt_dir lt); [done|]. destruct (lt_type lt =? FD_STDIO); done.
  - split; [|done]. by eapply pin_drop.
Qed.

Lemma cleanup_held s ks hand pins srefs fd e : held s (key_of e :: ks) hand pins srefs ->
  held (fd_cleanup_entry s fd e) ks hand pins srefs /\ same_tbl s (fd_cleanup_entry s fd e).
Proof.
  intros L. unfold fd_cleanup_entry. cbv zeta. fold (stream_of e). set (s1 := cleanup_peers s fd e).
  assert (same_tbl s s1 /\ same_heap s s1) as [T (E1 & E2 & E3)].
  { unfold s1, cleanup_peers. cbv zeta. destruct (e_dir e), (e_cleanup e), (e_type e =? FD_EPOLL); case_if; done. }
  assert (held s1 (key_of e :: ks) hand pins srefs) as L1 by (unfold held; rewrite E1, E2, E3; exact L). clearbody s1. unfold key_of in L1.
  destruct (e_lifetime e) as [l|].
  - apply key_to_pin in L1. apply life_release_held in L1 as [L2 T2]. destruct (stream_of e) as [d|]; [|split; [exact L2|by eapply same_tbl_trans]].
    apply dir_release_held in L2 as [L3 T3]. split; [exact L3|]. eapply same_tbl_trans; [exact T|]. by eapply same_tbl_trans.
  - apply give_back_held in L1 as [L2 T2]; [|done]. unfold give_back in L2, T2. cbn [k_stream k_type k_fd] in L2, T2.
    destruct (stream_of e) as [d|], (e_type e =? FD_STDIO); (split; [exact L2|by eapply same_tbl_trans]).
Qed.

(** A reference to the stream of a live slot. *)
Lemma stream_ref_held s ks hand pins srefs d x : held s ks hand pins srefs -> stream_is (f_streams s) d x ->
  held (dir_stream_ref_locked s d) ks hand pins (d :: srefs) /\ same_tbl s (dir_stream_ref_locked s d).
Proof.
  intros L (ds & Hd & _). split; [|done]. unfold held, dir_stream_ref_locked. cbn [f_host f_lifetimes f_streams set_streams].
  rewrite (alter_lookup _ _ _ _ Hd). by apply sref_add.
Qed.

(** ** Slots and keys *)

Lemma opens_app l1 l2 : opens (l1 ++ l2) = opens l1 ++ opens l2.
Proof. unfold opens. by rewrite filter_app, map_app. Qed.

Lemma opens_cons e l : opens (e :: l) = opens [e] ++ opens l.
Proof. apply (opens_app [e] l). Qed.

Lemma opens_insert t i e e' : t !! i = Some e -> exists R, opens t ≡ₚ opens [e] ++ R /\ opens (<[i := e']> t) ≡ₚ opens [e'] ++ R.
Proof.
  intros E. exists (opens (take i t) ++ opens (drop (S i) t)). split.
  - rewrite <- (take_drop_middle t i e E) at 1. rewrite opens_app, (opens_cons e). solve_Permutation.
  - rewrite insert_take_drop by (by eapply lookup_lt_Some). rewrite opens_app, (opens_cons e'). solve_Permutation.
Qed.

Lemma opens_open e : is_open e = true -> opens [e] = [key_of e].
Proof. intros E. unfold opens. by rewrite filter_cons_True by done. Qed.

Lemma opens_closed e : is_open e = false -> opens [e] = [].
Proof. intros E. unfold opens. by rewrite filter_cons_False by (by rewrite E). Qed.

Lemma slot_lookup s fd : tbl_ok s -> in_tbl fd -> f_table s !! Z.to_nat fd = Some (slot s fd).
Proof.
  intros Hok [H0 H1]. unfold slot. unfold FD_TABLE_SIZE in *. rewrite nth_lookup.
  destruct (f_table s !! Z.to_nat fd) eqn:E; [done|]. apply lookup_ge_None in E. rewrite (to_len s Hok) in E. lia.
Qed.

(** The keys before and after a change of one slot. *)
Lemma keys_set s s' pend fd e : tbl_ok s -> in_tbl fd -> slot_set s s' fd e ->
  exists R, keys s pend ≡ₚ opens [slot s fd] ++ R /\ keys s' pend ≡ₚ opens [e] ++ R.
Proof.
  intros Hok Hf [Ht _]. destruct (opens_insert (f_table s) (Z.to_nat fd) (slot s fd) e (slot_lookup s fd Hok Hf)) as (R & P1 & P2).
  exists (R ++ opens (map snd pend)). unfold keys. rewrite Ht, P1, P2, !(assoc app). done.
Qed.

Lemma same_heap_held s s' ks hand pins srefs : same_heap s s' -> held s ks hand pins srefs -> held s' ks hand pins srefs.
Proof. intros (E1 & E2 & E3). unfold held. by rewrite E1, E2, E3. Qed.

Lemma same_heap_trans s1 s2 s3 : same_heap s1 s2 -> same_heap s2 s3 -> same_heap s1 s3.
Proof. unfold same_heap. intuition congruence. Qed.

Lemma held_perm s ks ks' hand hand' pins pins' srefs srefs' : ks ≡ₚ ks' -> hand ≡ₚ hand' -> pins ≡ₚ pins' -> srefs ≡ₚ srefs' ->
  held s ks hand pins srefs -> held s ks' hand' pins' srefs'.
Proof. apply linked_perm. Qed.

(** The new occupant of a slot is one key more; the previous one goes to the
    entries awaiting teardown. *)
Lemma keys_publish s s' pend fd e : tbl_ok s -> in_tbl fd -> slot_set s s' fd e -> is_open e = true ->
  keys s' (pend_of fd (if is_open (slot s fd) then Some (slot s fd) else None) ++ pend) ≡ₚ key_of e :: keys s pend.
Proof.
  intros Hok Hf Hs Ho.
  destruct (keys_set s s' pend fd e Hok Hf Hs) as (R & P1 & P2). rewrite (opens_open e Ho) in P2.
  assert (keys s' (pend_of fd (if is_open (slot s fd) then Some (slot s fd) else None) ++ pend) ≡ₚ opens [slot s fd] ++ keys s' pend) as ->.
  { unfold keys. destruct (is_open (slot s fd)) eqn:E; cbn [pend_of app map snd].
    - rewrite (opens_cons (slot s fd)). solve_Permutation.
    - by rewrite opens_closed. }
  rewrite P1, P2. solve_Permutation.
Qed.

Lemma init_key s fd type host_fd cleanup probe alias e : published s fd type host_fd cleanup probe alias e ->
  key_of e = mk_key host_fd type None None.
Proof. intros [P1 P2 P3 P4 _ _ _ _ _]. unfold key_of, stream_of. rewrite P1, P2, P3, P4. by destruct (_ =? _). Qed.

Lemma open_type e : e_type e <> FD_CLOSED -> is_open e = true.
Proof. intros. unfold is_open. by apply negb_true_iff, Z.eqb_neq. Qed.

(** Publication of a directory over a slot just written. *)
Lemma publish_dir_spec s s' fd e dir flags : tbl_ok s -> tbl_ok s' -> in_tbl fd -> slot_set s s' fd e ->
  exists e', tbl_ok (publish_dir s' fd dir flags) /\ slot_set s (publish_dir s' fd dir flags) fd e' /\
    same_heap s' (publish_dir s' fd dir flags) /\ e_type e' = e_type e /\
    key_of e' = mk_key (e_host_fd e) (e_type e) (e_lifetime e) (if e_type e =? FD_DIR then dir else None).
Proof.
  intros Hok Hok' Hf Hs. pose proof (slot_set_at s s' fd e Hf Hs) as Es. destruct Hs as [Ht Hs]. unfold publish_dir. cbv zeta. rewrite !Es.
  set (e' := mk_entry _ _ _ _ _ _ _ _ _ _ _ _ _ _ _ _ _). exists e'.
  destruct (keep_identity s' fd e' Hok' Hf) as [K1 [K2 K3]]; [by rewrite Es..|].
  split; [done|]. split; [split|done].
  - rewrite K2, Ht. apply insert_twice.
  - intros i Hi. rewrite K3, Hs by done. by destruct (i =? fd).
Qed.

(** ** Every step keeps the invariant *)

(** The new slot takes over what [give] says the caller gave up for it. *)
Lemma publish_inv s s' fd e hand hand' pins pend srefs srefs' : in_tbl fd -> inv (mk_sys s hand pins pend srefs) ->
  tbl_ok s' -> slot_set s s' fd e -> same_heap s s' -> is_open e = true ->
  (held s (keys s pend) hand pins srefs -> held s (key_of e :: keys s pend) hand' pins srefs') ->
  inv (mk_sys s' hand' pins (pend_of fd (if is_open (slot s fd) then Some (slot s fd) else None) ++ pend) srefs').
Proof.
  intros Hf (Hok & Hh & Hp) Hok' Hs Hsame Ho Hgive. split; [done|]. split.
  - eapply held_perm; [symmetry; by apply keys_publish|done..|]. eapply same_heap_held; [done|]. by apply Hgive.
  - intros i e0 [Hin|Hin]%elem_of_app; [|by eapply Hp]. destruct (is_open (slot s fd)) eqn:E; [|by apply elem_of_nil in Hin].
    apply list_elem_of_singleton in Hin. by injection Hin as -> ->.
Qed.

Lemma give_hand s ks h1 h2 x t pins srefs : t <> FD_STDIO ->
  held s ks (h1 ++ x :: h2) pins srefs -> held s (mk_key x t None None :: ks) (h1 ++ h2) pins srefs.
Proof.
  intros Ht Hh. apply (key_to_hand F _ _ _ _ _ _ _ x t Ht). eapply held_perm; [done| |done..|exact Hh]. symmetry. apply Permutation_middle.
Qed.

Lemma give_sref s ks r1 r2 x d hand pins : stream_is (f_streams s) d x ->
  held s ks hand pins (r1 ++ d :: r2) -> held s (mk_key x FD_DIR None (Some d) :: ks) hand pins (r1 ++ r2).
Proof.
  intros Hd Hh. apply (key_to_sref F _ _ _ _ _ _ _ x d Hd). eapply held_perm; [done..| |exact Hh]. symmetry. apply Permutation_middle.
Qed.

Lemma linked_host h h' ks lifes streams hand pins srefs : (forall x, fd_open h' x <-> fd_open h x) ->
  linked F h ks lifes streams hand pins srefs -> linked F h' ks lifes streams hand pins srefs.
Proof. intros Hh []. split; try done. intros x Hx. rewrite Hh. by apply lk_own. Qed.

Lemma host_inv s h' hand pins pend srefs : (forall x, fd_open h' x <-> fd_open (f_host s) x) ->
  inv (mk_sys s hand pins pend srefs) -> inv (mk_sys (set_host h' s) hand pins pend srefs).
Proof. intros Hh (Hok & Hl & Hp). split; [by eapply same_tbl_ok; [|exact Hok]|]. split; [by eapply linked_host|done]. Qed.

Lemma rollback_open h probe host_fd x : fd_open (fd_probe_rollback h probe host_fd) x <-> fd_open h x.
Proof. unfold fd_probe_rollback. case_if; [done|apply setfl_open]. Qed.

(** A slot allocated at the lowest free number, with or without a directory. *)
Lemma alloc_inv rlim minfd type cleanup probe alias s s' fd x hand hand' pins pend srefs srefs' (dir : option (option nat * Z)) :
  inv (mk_sys s hand pins pend srefs) -> type <> FD_CLOSED -> alias_ok s alias -> tbl_room s ->
  match dir with
  | Some (d, flags) => alloc_dir_locked rlim s minfd type x cleanup probe alias d flags
  | None => fd_alloc_locked rlim s minfd type x cleanup probe alias
  end = (fd, s') ->
  (held s (keys s pend) hand pins srefs ->
     held s (mk_key x type None (if type =? FD_DIR then mjoin (fst <$> dir) else None) :: keys s pend) hand' pins srefs') ->
  inv (mk_sys s' (if fd <? 0 then hand else hand') pins pend (if fd <? 0 then srefs else srefs')).
Proof.
  intros Hi Hty Ha Hr Heq Hgive. pose proof Hi as (Hok & _).
  pose proof (alloc_locked_spec rlim s minfd type x cleanup probe alias Hok Hr Ha Hty) as Hspec.
  destruct (fd_alloc_locked rlim s minfd type x cleanup probe alias) as [fd0 s0] eqn:E0. destruct Hspec as [(-> & _ & ->)|(Hb & Hcl & _ & ->)].
  - assert (fd = -1 /\ s' = set_host (fd_probe_rollback (f_host s) probe x) s) as [-> ->].
    { destruct dir as [[d flags]|]; [unfold alloc_dir_locked in Heq; rewrite E0 in Heq; cbn in Heq|]; by injection Heq. }
    cbn. apply host_inv; [apply rollback_open|done].
  - assert (in_tbl fd0) as Hf by (unfold in_tbl; lia).
    destruct (init_spec s fd0 type x cleanup probe alias Hok Hr Ha Hf Hty) as (e & Hpub & Hok1 & Hs1 & Hsame & _).
    pose proof (init_key _ _ _ _ _ _ _ _ Hpub) as Hk. set (s1 := fd_init_entry s fd0 type x cleanup probe alias) in *.
    assert (exists e', fd = fd0 /\ tbl_ok s' /\ slot_set s s' fd0 e' /\ same_heap s s' /\ e_type e' = type /\
      key_of e' = mk_key x type None (if type =? FD_DIR then mjoin (fst <$> dir) else None)) as (e' & -> & Hok' & Hs' & Hsame' & Ht' & Hk').
    { destruct dir as [[d flags]|].
      - unfold alloc_dir_locked in Heq. rewrite E0, (proj2 (Z.leb_le 0 fd0)) in Heq by lia. injection Heq as <- <-.
        destruct (publish_dir_spec s s1 fd0 e d flags Hok Hok1 Hf Hs1) as (e' & A & B & C & D & E). exists e'.
        split; [done|]. split; [done|]. split; [done|]. split; [by eapply same_heap_trans|].
        rewrite D, (pu_type _ _ _ _ _ _ _ _ Hpub). split; [done|]. rewrite E, (pu_type _ _ _ _ _ _ _ _ Hpub).
        rewrite (pu_host _ _ _ _ _ _ _ _ Hpub), (pu_lifetime _ _ _ _ _ _ _ _ Hpub). by destruct (type =? FD_DIR).
      - injection Heq as <- <-. exists e. split; [done|]. split; [done|]. split; [done|]. split; [done|].
        split; [apply (pu_type _ _ _ _ _ _ _ _ Hpub)|]. rewrite Hk. by destruct (type =? FD_DIR). }
    rewrite (proj2 (Z.ltb_ge fd0 0)) by lia.
    pose proof (publish_inv s s' fd0 e' hand hand' pins pend srefs srefs' Hf Hi Hok' Hs' Hsame') as Hinv. rewrite Hcl, Hk' in Hinv.
    apply Hinv; [apply open_type; congruence|exact Hgive].
Qed.

(** A slot replaced in place. *)
Lemma alloc_at_inv fd type cleanup probe alias s s' gen old x hand hand' pins pend srefs srefs' (dir : option (option nat * Z)) :
  inv (mk_sys s hand pins pend srefs) -> in_tbl fd -> type <> FD_CLOSED -> alias_ok s alias -> tbl_room s ->
  alloc_at_locked alias s fd type x cleanup probe dir = (gen, s', old) ->
  (held s (keys s pend) hand pins srefs ->
     held s (mk_key x type None (if type =? FD_DIR then mjoin (fst <$> dir) else None) :: keys s pend) hand' pins srefs') ->
  inv (mk_sys s' hand' pins (pend_of fd old ++ pend) srefs').
Proof.
  intros Hi Hf Hty Ha Hr Heq Hgive. pose proof Hi as (Hok & _). unfold alloc_at_locked in Heq. cbv zeta in Heq.
  set (s0 := if is_open (slot s fd) then peer (EpollNoteClosed fd (e_ofd_id (slot s fd))) s else s).
  assert ((if is_open (slot s fd) then (Some (slot s fd), peer (EpollNoteClosed fd (e_ofd_id (slot s fd))) s) else (None, s)) =
    (if is_open (slot s fd) then Some (slot s fd) else None, s0)) as E0 by (unfold s0; by destruct (is_open (slot s fd))).
  rewrite E0 in Heq. clear E0. assert (same_tbl s s0 /\ same_heap s s0) as [T0 S0] by (unfold s0; by destruct (is_open (slot s fd))).
  clearbody s0. assert (tbl_ok s0) as Hok0 by (by eapply same_tbl_ok). destruct T0 as (Et & _ & _ & Eg & Eo).
  assert (tbl_room s0 /\ alias_ok s0 alias) as [Hr0 Ha0] by (unfold tbl_room, alias_ok; by rewrite Eg, Eo).
  destruct (init_spec s0 fd type x cleanup probe alias Hok0 Hr0 Ha0 Hf Hty) as (e & Hpub & Hok1 & Hs1 & Hsame & _).
  set (s1 := fd_init_entry s0 fd type x cleanup probe alias) in *.
  assert (exists e', tbl_ok s' /\ slot_set s0 s' fd e' /\ same_heap s0 s' /\ e_type e' = type /\
      old = (if is_open (slot s fd) then Some (slot s fd) else None) /\
      key_of e' = mk_key x type None (if type =? FD_DIR then mjoin (fst <$> dir) else None)) as (e' & Hok' & Hs' & Hsame' & Ht' & -> & Hk').
  { destruct dir as [[d flags]|]; injection Heq as _ <- <-.
    - destruct (publish_dir_spec s0 s1 fd e d flags Hok0 Hok1 Hf Hs1) as (e' & A & B & C & D & E). exists e'.
      split; [done|]. split; [done|]. split; [by eapply same_heap_trans|].
      rewrite D, (pu_type _ _ _ _ _ _ _ _ Hpub). split; [done|]. split; [done|]. rewrite E, (pu_type _ _ _ _ _ _ _ _ Hpub).
      rewrite (pu_host _ _ _ _ _ _ _ _ Hpub), (pu_lifetime _ _ _ _ _ _ _ _ Hpub). by destruct (type =? FD_DIR).
    - exists e. split; [done|]. split; [done|]. split; [done|]. split; [apply (pu_type _ _ _ _ _ _ _ _ Hpub)|]. split; [done|].
      rewrite (init_key _ _ _ _ _ _ _ _ Hpub). by destruct (type =? FD_DIR). }
  assert (slot_set s s' fd e') as Hs.
  { destruct Hs' as [A B]. split; [by rewrite A, Et|]. intros i Hin. rewrite B by done. unfold slot at 1. by rewrite Et. }
  eapply publish_inv; [done|exact Hi|done|exact Hs|by eapply same_heap_trans|apply open_type; congruence|]. by rewrite Hk'.
Qed.

(** Closing moves the slot's key to the entries awaiting teardown. *)
Lemma mark_closed_keys s pend fd : tbl_ok s -> in_tbl fd -> is_open (slot s fd) = true ->
  let s' := fst (fd_mark_closed_unlocked s fd) in
  tbl_ok s' /\ same_heap s s' /\ keys s pend ≡ₚ key_of (slot s fd) :: keys s' pend.
Proof.
  intros Hok Hf Ho. pose proof (mark_closed_spec s fd Hok Hf) as Hm. destruct (fd_mark_closed_unlocked s fd) as [s' l].
  destruct Hm as (e & Hc & _ & Hok' & Hs & Hsame & _). cbn [fst]. split; [done|]. split; [done|].
  destruct (keys_set s s' pend fd e Hok Hf Hs) as (R & P1 & P2). rewrite opens_closed in P2 by done. rewrite opens_open in P1 by done.
  by rewrite P1, P2.
Qed.

Lemma close_inv fd e s s' hand pins pend srefs : fd_snapshot_and_close s fd = (Some e, s') ->
  inv (mk_sys s hand pins pend srefs) -> inv (mk_sys s' hand pins ((fd, e) :: pend) srefs).
Proof.
  unfold fd_snapshot_and_close, fd_snapshot_locked. destruct (fd_in_range fd) eqn:E; [|done]. apply in_range_iff in E.
  destruct (Z.eqb_spec (e_type (slot s fd)) FD_CLOSED) as [|Hop]; [done|]. intros [= <- <-] (Hok & Hh & Hp). apply open_type in Hop.
  destruct (mark_closed_keys s pend fd Hok E Hop) as (Hok' & Hsame & P). split; [done|]. split.
  - eapply same_heap_held; [exact Hsame|]. eapply held_perm; [|done..|exact Hh]. cbn [y_fds y_pend]. rewrite P. unfold keys. cbn [map snd].
    rewrite (opens_cons (slot s fd)), opens_open by done. solve_Permutation.
  - intros i e0 [[= -> ->]|Hin]%elem_of_cons; [done|by eapply Hp].
Qed.

Lemma close_relaxed_inv single fd x s s' hand pins pend srefs : fd_close_regular_relaxed single s fd = (Some x, s') ->
  inv (mk_sys s hand pins pend srefs) -> inv (mk_sys s' (x :: hand) pins pend srefs).
Proof.
  unfold fd_close_regular_relaxed. destruct (fd_in_range fd) eqn:E; [|done]. apply in_range_iff in E. cbn [negb orb].
  destruct single; [|done]. cbn [negb]. destruct (Z.eqb_spec (e_type (slot s fd)) FD_REGULAR) as [Hty|]; [|done]. cbn [negb orb].
  repeat case_bool_decide; try done. intros [= <- <-] (Hok & Hh & Hp).
  assert (is_open (slot s fd) = true) as Hop by (apply open_type; by rewrite Hty).
  destruct (mark_closed_keys s pend fd Hok E Hop) as (Hok' & Hsame & P). split; [done|]. split; [|done].
  eapply same_heap_held; [exact Hsame|]. apply (key_to_hand F _ _ _ _ _ _ _ (e_host_fd (slot s fd)) FD_REGULAR); [done|].
  eapply held_perm; [|done..|exact Hh]. cbn [y_fds y_pend]. rewrite P. unfold key_of, stream_of. rewrite Hty.
  destruct (e_lifetime (slot s fd)); [by destruct H2|]. done.
Qed.

Lemma cleanup_inv fd e s hand pins p1 p2 srefs : inv (mk_sys s hand pins (p1 ++ (fd, e) :: p2) srefs) ->
  inv (mk_sys (fd_cleanup_entry s fd e) hand pins (p1 ++ p2) srefs).
Proof.
  intros (Hok & Hh & Hp). assert (is_open e = true) as Ho by (eapply Hp; apply elem_of_app; right; left).
  destruct (cleanup_held s (keys s (p1 ++ p2)) hand pins srefs fd e) as [L T].
  { eapply held_perm; [|done..|exact Hh]. cbn [y_fds y_pend]. unfold keys. rewrite !map_app, !opens_app. cbn [map snd].
    rewrite (opens_cons e), opens_open by done. solve_Permutation. }
  split; [by eapply same_tbl_ok|]. split.
  - cbn [y_fds y_pend]. unfold keys in *. destruct T as (-> & _). exact L.
  - intros i e0 Hin. apply (Hp i). apply elem_of_app in Hin as [|]; apply elem_of_app; [by left|right; by right].
Qed.

Lemma same_tbl_inv s s' hand hand' pins pins' pend srefs srefs' : inv (mk_sys s hand pins pend srefs) -> same_tbl s s' ->
  held s' (keys s pend) hand' pins' srefs' -> inv (mk_sys s' hand' pins' pend srefs').
Proof.
  intros (Hok & _ & Hp) T L. split; [by eapply same_tbl_ok|]. split; [|done]. cbn [y_fds y_pend]. unfold keys in *. destruct T as (-> & _). exact L.
Qed.

Lemma retire_inv fd x s hand pins pend srefs : in_tbl fd ->
  (is_open (slot s fd) = true -> e_host_fd (slot s fd) = x -> e_type (slot s fd) <> FD_STDIO /\ stream_of (slot s fd) = None) ->
  inv (mk_sys s hand pins pend srefs) -> inv (mk_sys (fd_retire_published s fd x) hand pins pend srefs).
Proof.
  intros Hf Hpre Hi. unfold fd_retire_published, retire_locked. rewrite (proj2 (in_range_iff fd) Hf). cbn [negb]. cbv zeta.
  destruct (is_open (slot s fd)) eqn:Ho; cbn [andb]; [|done]. destruct (Z.eqb_spec (e_host_fd (slot s fd)) x) as [<-|]; [|done].
  destruct (Hpre eq_refl eq_refl) as [Hty Hst]. clear Hpre. pose proof Hi as (Hok & Hh & Hp).
  destruct (mark_closed_keys s pend fd Hok Hf Ho) as (Hok' & Hsame & P). pose proof (mark_closed_spec s fd Hok Hf) as Hm.
  destruct (fd_mark_closed_unlocked s fd) as [s' l]. destruct Hm as (_ & _ & -> & _). cbn [fst] in *.
  assert (held s' (key_of (slot s fd) :: keys s' pend) hand pins srefs) as L.
  { eapply same_heap_held; [exact Hsame|]. eapply held_perm; [|done..|exact Hh]. exact P. }
  unfold key_of in L. rewrite Hst in L. destruct (e_lifetime (slot s fd)) as [l|].
  - apply key_to_pin in L. apply life_release_held in L as [L T]. split; [by eapply same_tbl_ok|]. split; [|done].
    cbn [y_fds y_pend]. unfold keys in *. destruct T as (-> & _). exact L.
  - apply (key_to_hand F _ _ _ _ _ _ _ _ _ Hty) in L. cbn [andb]. destruct (Z.leb_spec 0 (e_host_fd (slot s fd))) as [Hx|Hx].
    + apply close_hand in L. split; [by eapply same_tbl_ok; [|exact Hok']|]. split; [exact L|done].
    + split; [done|]. split; [|done]. eapply linked_move; [exact L|..]; try done; [|naive_solver..].
      intros y Hy. unfold owned_by. cbn [sum_list_with y_fds y_hand y_pend].
      assert (one_fd (e_host_fd (slot s fd)) y = 0%nat) as -> by (unfold one_fd; by rewrite (proj2 (Z.eqb_neq _ _)) by lia). lia.
Qed.

Lemma keys_slot s pend fd : tbl_ok s -> in_tbl fd -> is_open (slot s fd) = true -> key_of (slot s fd) ∈ keys s pend.
Proof.
  intros Hok Hf Ho. apply elem_of_app. left. unfold opens. apply list_elem_of_fmap. exists (slot s fd). split; [done|].
  apply list_elem_of_filter. split; [done|]. by eapply list_elem_of_lookup_2, slot_lookup.
Qed.

Lemma with_lifetime_key e l :
  key_of (mk_entry (e_type e) (e_host_fd e) l (e_ofd_id e) (e_generation e) (e_linux_flags e) (e_dir e) (e_proc_path e) (e_path_poll_capable e)
    (e_seals e) (e_can_block e) (e_foreign_description e) (e_nonblock_owned e) (e_fasync_owner_type e) (e_fasync_owner e) (e_sock_valid e) (e_cleanup e))
  = mk_key (e_host_fd e) (e_type e) l (stream_of e).
Proof. done. Qed.

Lemma pin_inv malloc_ok spare fd l s s' hand pins pend srefs : in_tbl fd -> fd_lifetime_pin_spare malloc_ok s fd spare = (Some l, s') ->
  inv (mk_sys s hand pins pend srefs) -> inv (mk_sys s' hand ((e_host_fd (slot s fd), l) :: pins) pend srefs).
Proof.
  intros Hf Heq Hi. pose proof Hi as (Hok & Hh & Hp). unfold fd_lifetime_pin_spare in Heq. rewrite (proj2 (in_range_iff fd) Hf) in Heq.
  cbn [negb] in Heq. cbv zeta in Heq. destruct (Z.eqb_spec (e_type (slot s fd)) FD_CLOSED) as [|Hop]; [done|]. apply open_type in Hop.
  cbn [orb] in Heq. destruct (e_host_fd (slot s fd) <? 0); [done|]. pose proof (keys_slot s pend fd Hok Hf Hop) as Hin.
  pose proof (lk_keys _ _ _ _ _ _ _ _ Hh _ Hin) as [Kl Ks _]. cbn [key_of k_life k_stream k_fd k_type] in Kl, Ks.
  destruct (e_lifetime (slot s fd)) as [l0|] eqn:El.
  - injection Heq as <- <-. destruct (Kl l0 eq_refl) as (lt & E & Ef & _ & _). eapply same_tbl_inv; [exact Hi|done|].
    unfold held. cbn [f_host f_lifetimes f_streams set_lifetimes]. rewrite (alter_lookup _ _ _ _ E), <- Ef. by apply (pin_add F).
  - destruct (spare || malloc_ok); [|done]. fold (stream_of (slot s fd)) in Heq. set (e := slot s fd) in *.
    set (s0 := match stream_of e with Some d => dir_stream_ref_locked s d | None => s end) in *.
    assert (held s0 (keys s pend) hand pins (option_list (stream_of e) ++ srefs) /\ same_tbl s s0 /\ f_lifetimes s0 = f_lifetimes s) as (L0 & T0 & EL).
    { unfold s0. destruct (stream_of e) as [d|]; [|done]. destruct (Ks d eq_refl) as [_ Hd]. by destruct (stream_ref_held s _ _ _ _ d _ Hh Hd). }
    clearbody s0. assert (tbl_ok s0) as Hok0 by (by eapply same_tbl_ok).
    assert (slot s0 fd = e /\ keys s0 pend = keys s pend) as [Es Ek] by (unfold e, slot, keys; by destruct T0 as (-> & _)).
    injection Heq as <- <-. rewrite <- EL. set (e' := mk_entry (e_type e) _ (Some _) _ _ _ _ _ _ _ _ _ _ _ _ _ _).
    destruct (keep_identity s0 fd e' Hok0 Hf) as [K1 K2]; [by rewrite Es..|].
    destruct (keys_set s0 (put_slot s0 fd e') pend fd e' Hok0 Hf K2) as (R & P1 & P2). rewrite Es, Ek, (opens_open e Hop) in P1.
    rewrite (opens_open e') in P2 by exact Hop. unfold key_of in P1. rewrite El in P1.
    split; [by eapply same_tbl_ok; [|exact K1]|]. split; [|done].
    eapply held_perm; [symmetry; exact P2|done..|]. unfold e'. rewrite with_lifetime_key.
    apply life_create. by refine (held_perm s0 _ _ _ _ _ _ _ _ P1 _ _ _ L0).
Qed.

Lemma acquire_inv fd spare x l s s' hand pins pend srefs : in_tbl fd -> acquire_pass s fd spare = (AcqOk x l, s') ->
  inv (mk_sys s hand pins pend srefs) -> inv (mk_sys s' hand ((x, l) :: pins) pend srefs).
Proof.
  intros Hf Heq. unfold acquire_pass, fd_snapshot_locked in Heq. cbv zeta in Heq. destruct (e_type (slot s fd) =? FD_CLOSED); [done|]. cbn [fst] in Heq.
  destruct (e_host_fd (slot s fd) <? 0); [done|]. destruct (_ || spare); [|done].
  destruct (fd_lifetime_pin_spare false s fd spare) as [[l0|] s0] eqn:E; [|done]. injection Heq as <- <- <-. by eapply pin_inv.
Qed.

Lemma unpin_inv x l s hand p1 p2 pend srefs : inv (mk_sys s hand (p1 ++ (x, l) :: p2) pend srefs) ->
  inv (mk_sys (fd_lifetime_release s l) hand (p1 ++ p2) pend srefs).
Proof.
  intros Hi. pose proof Hi as (_ & Hh & _). destruct (life_release_held s (keys s pend) hand (p1 ++ p2) srefs x l) as [L T].
  { eapply held_perm; [done|done| |done|exact Hh]. symmetry. apply Permutation_middle. }
  by eapply same_tbl_inv.
Qed.

(** A duplicate, or no descriptor, in the caller's hands. *)
Lemma hand_dup s fd n h' ks hand pins srefs : host_dup (f_host s) fd = (n, h') -> held s ks hand pins srefs ->
  held (set_host h' s) ks (n :: hand) pins srefs.
Proof.
  intros Hd []. split; try done. eapply owns_ext; [|eapply owns_dup; [exact Hd|exact lk_own]]. intros x Hx. unfold owned_by.
  cbn [sum_list_with f_lifetimes f_streams set_host]. lia.
Qed.

Lemma hand_nofd s ks hand pins srefs : held s ks hand pins srefs -> held s ks (-1 :: hand) pins srefs.
Proof.
  intros []. split; try done. eapply owns_ext; [|exact lk_own]. intros x Hx. unfold owned_by. cbn [sum_list_with].
  assert (one_fd (-1) x = 0%nat) as -> by (unfold one_fd; by rewrite (proj2 (Z.eqb_neq _ _)) by lia). lia.
Qed.

Lemma dup_inv fd n s s' hand pins pend srefs : fd_to_host_dup s fd = (n, s') ->
  inv (mk_sys s hand pins pend srefs) -> inv (mk_sys s' (n :: hand) pins pend srefs).
Proof.
  unfold fd_to_host_dup. intros Heq Hi. pose proof Hi as (_ & Hh & _). destruct (negb (fd_in_range fd)); [|destruct (negb (is_open (slot s fd)))].
  1-2: injection Heq as <- <-; eapply same_tbl_inv; [exact Hi|done|by apply hand_nofd].
  destruct (host_dup _ _) as [n' h'] eqn:E. injection Heq as <- <-. eapply same_tbl_inv; [exact Hi|done|by eapply hand_dup].
Qed.

Lemma snapshot_spec s fd e : fd_snapshot s fd = Some e -> in_tbl fd /\ e = slot s fd /\ is_open e = true.
Proof.
  unfold fd_snapshot, fd_snapshot_locked. destruct (fd_in_range fd) eqn:E; [|done]. apply in_range_iff in E. cbn [negb].
  destruct (Z.eqb_spec (e_type (slot s fd)) FD_CLOSED); [done|]. cbn [fst]. intros [= <-]. split; [done|]. split; [done|by apply open_type].
Qed.

Lemma share_inv fd x e d s s' hand pins pend srefs : fd_snapshot_and_dup_or_share_dir s fd = (x, Some e, true, s') -> stream_of e = Some d ->
  inv (mk_sys s hand pins pend srefs) -> inv (mk_sys s' hand pins pend (d :: srefs)).
Proof.
  unfold fd_snapshot_and_dup_or_share_dir. intros Heq Hst Hi. pose proof Hi as (Hok & Hh & _).
  destruct (fd_snapshot s fd) as [e0|] eqn:E; [|done]. apply snapshot_spec in E as (Hf & -> & Ho). fold (stream_of (slot s fd)) in Heq.
  destruct (stream_of (slot s fd)) as [d0|] eqn:Es; [|by destruct (fd_snapshot_and_dup s fd) as [[? ?] ?]].
  injection Heq as <- <- <-. rewrite Es in Hst. injection Hst as ->.
  pose proof (lk_keys _ _ _ _ _ _ _ _ Hh _ (keys_slot s pend fd Hok Hf Ho)) as [_ Ks _]. destruct (Ks d Es) as [_ Hd].
  destruct (stream_ref_held s _ _ _ _ d _ Hh Hd) as [L T]. by eapply same_tbl_inv.
Qed.

Lemma dup_plain_inv fd x e s s' hand pins pend srefs : fd_snapshot_and_dup_or_share_dir s fd = (x, e, false, s') ->
  inv (mk_sys s hand pins pend srefs) -> inv (mk_sys s' (x :: hand) pins pend srefs).
Proof.
  unfold fd_snapshot_and_dup_or_share_dir, fd_snapshot_and_dup. intros Heq Hi. pose proof Hi as (Hok & Hh & _).
  destruct (fd_snapshot s fd) as [e0|] eqn:E.
  - destruct (if e_type e0 =? FD_DIR then e_dir e0 else None); [done|]. destruct (0 <=? e_host_fd e0).
    + destruct (host_dup _ _) as [n' h'] eqn:Ed. injection Heq as <- <- <-. eapply same_tbl_inv; [exact Hi|done|by eapply hand_dup].
    + injection Heq as <- <- <-. eapply same_tbl_inv; [exact Hi|done|by apply hand_nofd].
  - injection Heq as <- <- <-. eapply same_tbl_inv; [exact Hi|done|by apply hand_nofd].
Qed.

Lemma dir_acquire_inv fd d s s' hand pins pend srefs : dir_stream_acquire s fd = (Some d, s') ->
  inv (mk_sys s hand pins pend srefs) -> inv (mk_sys s' hand pins pend (d :: srefs)).
Proof.
  unfold dir_stream_acquire. intros Heq Hi. pose proof Hi as (Hok & Hh & _). destruct (fd_in_range fd) eqn:E; [|done]. apply in_range_iff in E.
  cbn [negb] in Heq. cbv zeta in Heq. fold (stream_of (slot s fd)) in Heq. destruct (stream_of (slot s fd)) as [d0|] eqn:Es; [|done].
  injection Heq as <- <-. assert (is_open (slot s fd) = true) as Ho.
  { apply open_type. unfold stream_of in Es. destruct (Z.eqb_spec (e_type (slot s fd)) FD_DIR) as [->|]; done. }
  pose proof (lk_keys _ _ _ _ _ _ _ _ Hh _ (keys_slot s pend fd Hok E Ho)) as [_ Ks _]. destruct (Ks d0 Es) as [_ Hd].
  destruct (stream_ref_held s _ _ _ _ d0 _ Hh Hd) as [L T]. by eapply same_tbl_inv.
Qed.

(** Changes of flags keep every key. *)
Lemma opens_same l l' : Forall2 (fun e e' => is_open e' = is_open e /\ key_of e' = key_of e) l l' -> opens l' = opens l.
Proof.
  induction 1 as [|e e' l l' [Eo Ek] _ IH]; [done|]. rewrite (opens_cons e), (opens_cons e'), IH. f_equal.
  destruct (is_open e) eqn:E; [by rewrite !opens_open, Ek by congruence|by rewrite !opens_closed by congruence].
Qed.

Lemma keys_same s s' pend : tbl_ok s -> tbl_ok s' ->
  (forall i, in_tbl i -> is_open (slot s' i) = is_open (slot s i) /\ key_of (slot s' i) = key_of (slot s i)) -> keys s' pend = keys s pend.
Proof.
  intros Hok Hok' Hs. unfold keys. f_equal. apply opens_same, Forall2_same_length_lookup. rewrite (to_len s Hok), (to_len s' Hok'). split; [done|].
  intros i e e' E E'. assert (in_tbl (Z.of_nat i)) as Hi.
  { apply lookup_lt_Some in E. rewrite (to_len s Hok) in E. unfold in_tbl, FD_TABLE_SIZE. lia. }
  destruct (Hs _ Hi) as [A B]. pose proof (slot_lookup s _ Hok Hi) as L. pose proof (slot_lookup s' _ Hok' Hi) as L'. rewrite Nat2Z.id in L, L'.
  rewrite E in L. rewrite E' in L'. injection L as ->. injection L' as ->. done.
Qed.

Lemma keys_same_inv s s' hand pins pend srefs : inv (mk_sys s hand pins pend srefs) -> tbl_ok s' -> same_heap s s' ->
  (forall i, in_tbl i -> is_open (slot s' i) = is_open (slot s i) /\ key_of (slot s' i) = key_of (slot s i)) -> inv (mk_sys s' hand pins pend srefs).
Proof.
  intros (Hok & Hh & Hp) Hok' Hsame Hs. split; [done|]. split; [|done]. cbn [y_fds y_pend]. rewrite (keys_same s s' pend Hok Hok' Hs).
  by eapply same_heap_held.
Qed.

Lemma swept_key ofd mask value e : is_open (swept ofd mask value e) = is_open e /\ key_of (swept ofd mask value e) = key_of e.
Proof. unfold swept. by case_if. Qed.

Lemma for_each_spec s fd gen mask value : tbl_ok s ->
  let s' := fd_for_each_alias_locked s fd gen (set_shadow_bits_slot mask value) in
  tbl_ok s' /\ same_heap s s' /\ forall i, in_tbl i ->
    slot s' i = if fd_in_range fd && is_open (slot s fd) && (e_generation (slot s fd) =? gen)
                then swept (e_ofd_id (slot s fd)) mask value (slot s i) else slot s i.
Proof.
  intros Hok. unfold fd_for_each_alias_locked. cbv zeta. destruct (fd_in_range fd) eqn:Ef; cbn [negb andb]; [|done].
  apply in_range_iff in Ef. destruct (is_open (slot s fd)) eqn:Eo; cbn [negb orb andb]; [|done].
  destruct (e_generation (slot s fd) =? gen); cbn [negb]; [|done]. pose proof (to_ofd_open s Hok fd Ef Eo) as Hpos.
  rewrite (proj2 (Z.eqb_neq _ 0)) by lia. fold (sweep_step (H:=H) (e_ofd_id (slot s fd)) mask value).
  assert (forall i, i ∈ words_walk 0 (f_free s) <-> in_tbl i /\ is_open (slot s i) = true) as Hw.
  { intros i. rewrite (walk_used _ i (to_free s Hok)). unfold in_tbl, FD_TABLE_SIZE. split; intros [Hi Hg]; (split; [done|]).
    - rewrite (to_agree s Hok i Hi) in Hg. by apply negb_false_iff in Hg.
    - rewrite (to_agree s Hok i Hi), Hg. done. }
  destruct (sweep_spec (e_ofd_id (slot s fd)) mask value (words_walk 0 (f_free s)) s Hok) as (A & B & C); [intros i Hi; by apply Hw|].
  split; [exact A|]. split; [exact B|]. intros i Hi. rewrite C by done. case_bool_decide as Hin; [done|].
  unfold swept. destruct (is_open (slot s i)) eqn:E; [|done]. exfalso. apply Hin, Hw. done.
Qed.

Lemma shadow_inv s fd gen mask value hand pins pend srefs : inv (mk_sys s hand pins pend srefs) ->
  inv (mk_sys (fd_for_each_alias_locked s fd gen (set_shadow_bits_slot mask value)) hand pins pend srefs).
Proof.
  intros Hi. destruct (for_each_spec s fd gen mask value (proj1 Hi)) as (A & B & C). eapply keys_same_inv; [exact Hi|exact A|exact B|].
  intros i Hin. rewrite C by done. case_if; [apply swept_key|done].
Qed.

Lemma flags_inv s fd flags hand pins pend srefs : inv (mk_sys s hand pins pend srefs) ->
  inv (mk_sys (fd_publish_linux_flags s fd flags) hand pins pend srefs).
Proof.
  intros Hi. pose proof Hi as (Hok & _). unfold fd_publish_linux_flags. destruct (fd_in_range fd) eqn:E; [|done]. apply in_range_iff in E. cbn [negb].
  destruct (keep_identity s fd (with_flags (fd_flags_with_accmode (e_type (slot s fd)) flags) (slot s fd)) Hok E) as [K1 [_ K2]]; [done..|].
  eapply keys_same_inv; [exact Hi|done|done|]. intros i Hin. rewrite K2 by done. by destruct (Z.eqb_spec i fd) as [->|].
Qed.

Lemma reserve_inv s hand pins pend srefs : tbl_room s -> inv (mk_sys s hand pins pend srefs) -> inv (mk_sys (snd (fd_reserve_ofd_id s)) hand pins pend srefs).
Proof.
  intros [_ Hr] Hi. pose proof Hi as (Hok & _). change (tbl_ok s) in Hok. eapply keys_same_inv; [exact Hi| |done|done].
  destruct (to_next s Hok). assert (f_next_ofd_id (snd (fd_reserve_ofd_id s)) = f_next_ofd_id s + 1) as E by (cbn; apply add64_small; unfold fits64; lia).
  destruct Hok. split; try done; [|rewrite E; split; [done|lia]]. intros i Hin. rewrite E. specialize (to_ofd i Hin). change (slot (snd (fd_reserve_ofd_id s)) i) with (slot s i). lia.
Qed.

Lemma urandom_inv s fd hand pins pend srefs : inv (mk_sys s hand pins pend srefs) -> inv (mk_sys (fd_refresh_urandom_bitmap s fd) hand pins pend srefs).
Proof.
  intros Hi. pose proof Hi as (Hok & _). unfold fd_refresh_urandom_bitmap. destruct (fd_in_range fd) eqn:E; [|done]. apply in_range_iff in E. cbn [negb]. cbv zeta.
  rewrite mark_urandom_eq by done. eapply keys_same_inv; [exact Hi| |done|done]. assert (0 <= fd < 64 * Z.of_nat 16) as Hfd by (unfold in_tbl, FD_TABLE_SIZE in E; lia).
  destruct (bitmap_set_spec 16 (f_urandom s) fd (to_shim s Hok) Hfd) as [U1 U2], (bitmap_clear_spec 16 (f_urandom s) fd (to_shim s Hok) Hfd) as [V1 V2].
  pose proof (to_urandom s Hok) as Hu. destruct Hok. split; try done; cbn [f_urandom set_urandom].
  - by case_if.
  - intros i Hin. change (slot (set_urandom ?l s) i) with (slot s i). pose proof Hin as [Hin0 _].
    destruct (Z.eqb_spec (e_type (slot s fd)) FD_URANDOM) as [Et|Et]; cbn [andb]; [case_if|].
    + rewrite U2 by done. destruct (Z.eqb_spec fd i) as [->|]; [done|]. by apply Hu.
    + rewrite V2 by done. destruct (Z.eqb_spec fd i) as [->|]; [done|]. by apply Hu.
    + rewrite V2 by done. destruct (Z.eqb_spec fd i) as [->|]; [done|]. by apply Hu.
Qed.

(** A descriptor opened by the host is the caller's. *)
Lemma open_inv s n h' hand pins pend srefs : 0 <= n -> ~ fd_open (f_host s) n -> (forall x, fd_open h' x <-> x = n \/ fd_open (f_host s) x) ->
  inv (mk_sys s hand pins pend srefs) -> inv (mk_sys (set_host h' s) (n :: hand) pins pend srefs).
Proof.
  intros Hn Hfresh Hopen Hi. pose proof Hi as (_ & Hh & _). eapply same_tbl_inv; [exact Hi|done|]. destruct Hh as [Ho]. split; try done.
  cbn [y_fds y_hand y_pend f_host set_host f_lifetimes f_streams] in *. set (c := owned_by hand (keys s pend) (f_lifetimes s) (f_streams s)) in *.
  apply (owns_ext _ _ (fun x => (one_fd n x + c x)%nat)); [intros x Hx; unfold c, owned_by; cbn [sum_list_with]; lia|]. clearbody c.
  intros x Hx. destruct (Ho x Hx) as (O1 & O2 & O3). rewrite Hopen. unfold one_fd. destruct (Z.eqb_spec n x) as [->|Hne].
  - rewrite O1 in Hfresh. split_and!; [|lia|intros; tauto]. split; [intros _; right; lia|by left].
  - split_and!; [|lia|done]. rewrite O1. intuition congruence.
Qed.

Lemma step_inv y y' : step y y' -> inv y -> inv y'.
Proof.
  intros Hs Hi. destruct Hs.
  - by apply host_inv.
  - by apply open_inv.
  - pose proof Hi as (_ & Hh & _). eapply same_tbl_inv; [exact Hi|done|by apply hand_nofd].
  - pose proof Hi as (_ & Hh & _). eapply same_tbl_inv; [exact Hi|done|]. apply close_hand.
    eapply (held_perm s); [done| |done|done|exact Hh]. symmetry. apply Permutation_middle.
  - pose proof (alloc_inv rlim minfd type cleanup probe alias s s' fd x (h1 ++ x :: h2) (h1 ++ h2) pins pend srefs srefs None Hi) as Ha.
    cbn in Ha. destruct (fd <? 0), (type =? FD_DIR); apply Ha; try done; by apply give_hand.
  - pose proof (alloc_inv rlim minfd FD_DIR cleanup probe alias s s' fd x hand hand pins pend (r1 ++ d :: r2) (r1 ++ r2) (Some (Some d, flags)) Hi) as Ha.
    cbn in Ha. destruct (fd <? 0); apply Ha; try done; by apply give_sref.
  - pose proof (alloc_inv rlim minfd type cleanup probe alias s s' fd x (h1 ++ x :: h2) (h1 ++ h2) pins pend srefs srefs (Some (dir, flags)) Hi) as Ha.
    rewrite (proj2 (Z.eqb_neq type FD_DIR)) in Ha by done. destruct (fd <? 0); apply Ha; try done; by apply give_hand.
  - eapply (alloc_at_inv fd type cleanup probe alias); [exact Hi|done|done|done|done|eassumption|]. cbn. destruct (type =? FD_DIR); by apply give_hand.
  - eapply (alloc_at_inv fd FD_DIR cleanup probe alias); [exact Hi|done|done|done|done|eassumption|]. cbn. by apply give_sref.
  - by eapply close_inv.
  - by eapply close_relaxed_inv.
  - by apply cleanup_inv.
  - by apply retire_inv.
  - by eapply acquire_inv.
  - by eapply unpin_inv.
  - by eapply dup_inv.
  - by eapply share_inv.
  - by eapply dup_plain_inv.
  - by eapply dir_acquire_inv.
  - pose proof Hi as (_ & Hh & _). unfold dir_stream_new in H0. destruct malloc_ok, fdopendir_ok; try done. injection H0 as <- <-. eapply same_tbl_inv; [exact Hi|done|]. apply stream_create.
    eapply (held_perm s); [done| |done|done|exact Hh]. symmetry. apply Permutation_middle.
  - pose proof Hi as (_ & Hh & _). destruct (dir_release_held s (keys s pend) hand pins (r1 ++ r2) d) as [L T].
    { eapply held_perm; [done..| |exact Hh]. symmetry. apply Permutation_middle. }
    by eapply same_tbl_inv.
  - by apply shadow_inv.
  - unfold fd_apply_guest_nonblock. destruct (negb (fd_in_range fd)); [done|]. cbv zeta. cbn [snd]. destruct (is_open (slot s fd) && _); [by apply shadow_inv|done].
  - by apply flags_inv.
  - by apply reserve_inv.
  - by apply urandom_inv.
Qed.

(** ** The start *)

Definition start (h : H) : sys := mk_sys (fdtable_init h) [] [] [] [].

Lemma nth_replicate_default {A} (a : A) n i : nth i (replicate n a) a = a.
Proof. revert i. induction n as [|n IH]; intros [|i]; cbn; [done..|apply IH]. Qed.

Lemma init_slot h i : in_tbl i -> slot (fdtable_init h) i = if i <? 3 then stdio_entry h i else zero_entry.
Proof.
  intros [Hi Hi']. unfold fdtable_init, slot. cbn [f_table fd_bitmap_set_used set_free]. destruct (Z.ltb_spec i 3) as [Hlt|Hge].
  - assert (i = 0 \/ i = 1 \/ i = 2) as [->|[->| ->]] by lia; done.
  - rewrite app_nth2 by (cbn; lia). apply nth_replicate_default.
Qed.

Lemma init_ok h : tbl_ok (fdtable_init h).
Proof.
  destruct (bitmap_clear_spec 16 (replicate 16 UINT64_MAX) 0 (replicate_words UINT64_MAX ltac:(done)) ltac:(lia)) as [W0 G0].
  destruct (bitmap_clear_spec 16 _ 1 W0 ltac:(lia)) as [W1 G1]. destruct (bitmap_clear_spec 16 _ 2 W1 ltac:(lia)) as [W2 G2].
  split; [done|exact W2|by apply replicate_words| | | | | | | |done]; intros i; [..|intros Hi|intros Hi]; [intros Hi..| | |]; rewrite ?init_slot by done.
  - unfold fdtable_init. cbn [f_free fd_bitmap_set_used set_free]. pose proof Hi as [Hi0 _]. rewrite G2, G1, G0, (proj1 (full_words i Hi)), andb_true_r by done.
    destruct (Z.ltb_spec i 3) as [Hlt|Hge].
    + assert (i = 0 \/ i = 1 \/ i = 2) as [->|[->| ->]] by lia; done.
    + by rewrite !(proj2 (Z.eqb_neq _ i)) by lia.
  - unfold fdtable_init. cbn [f_urandom fd_bitmap_set_used set_free]. by rewrite (proj2 (full_words i Hi)).
  - destruct (Z.ltb_spec i 3); cbn; destruct Hi; lia.
  - destruct (Z.ltb_spec i 3); cbn; [destruct Hi; lia|done].
  - intros j Hi Hj. rewrite !init_slot by done. destruct (Z.ltb_spec i 3), (Z.ltb_spec j 3); cbn; destruct Hi, Hj; lia.
  - destruct (Z.ltb_spec i 3); cbn; destruct Hi; lia.
  - destruct (Z.ltb_spec i 3); cbn; [destruct Hi; lia|done].
Qed.

Lemma opens_zero n : opens (replicate n zero_entry) = [].
Proof. induction n as [|n IH]; [done|]. cbn [replicate]. rewrite (opens_cons zero_entry), IH. done. Qed.

Lemma start_inv h : F 0 -> F 1 -> F 2 -> (forall x, 0 <= x -> fd_open h x <-> F x) -> inv (start h).
Proof.
  intros F0 F1 F2 Hh. split; [apply init_ok|]. split; [|intros ? ? []%elem_of_nil].
  assert (keys (fdtable_init h) [] = [mk_key 0 FD_STDIO None None; mk_key 1 FD_STDIO None None; mk_key 2 FD_STDIO None None]) as E.
  { unfold keys, fdtable_init. cbn [f_table fd_bitmap_set_used set_free]. by rewrite opens_app, opens_zero. }
  cbn [y_fds y_pend start y_hand y_pins y_srefs]. rewrite E. split; try done.
  - intros x Hx. change (f_host (fdtable_init h)) with h. rewrite (Hh x Hx). cbn. split; [|lia]. split; [by left|intros [?|?]; [done|lia]].
  - intros k Hk. rewrite !elem_of_cons, elem_of_nil in Hk. destruct Hk as [->|[->|[->|[]]]]; split; done.
  - intros ? ? []%elem_of_nil.
  - intros ? []%elem_of_nil.
Qed.

Lemma reach_inv h y : F 0 -> F 1 -> F 2 -> (forall x, 0 <= x -> fd_open h x <-> F x) -> rtc step (start h) y -> inv y.
Proof.
  intros F0 F1 F2 Hh Hr. pose proof (start_inv h F0 F1 F2 Hh) as Hi. induction Hr as [|y1 y2 y3 Hs _ IH]; [done|]. apply IH. by eapply step_inv.
Qed.
End Life.
