(* ===== verification/FdSpecs.v ===== *)
(** * The descriptor table: theorems

    Allocation takes the lowest free number and undoes its host side effect when
    it fails; the invariant of the table holds in every reachable state; no
    thread ever works on a host descriptor that has been closed, and none is
    leaked; a change of the description's flags reaches all its aliases. *)

From S2P Require Import Prelude Regions HostFds FdTable FdFacts FdOwn FdLife.
From stdpp Require Import relations.
#[local] Open Scope Z_scope.

Section Specs.
Context {H : Type} `{HE : HostEnv H, HL : !HostFdLaws H, HX : !FdHost H, HF : !FdHostLaws H}.
Implicit Types s : fds H.

(** ** The probe *)

Lemma single_bit old n : 0 <= n -> Z.land old (2 ^ n) <> 0 -> Z.lor old (2 ^ n) = old.
Proof.
  intros Hn Hl. assert (Z.testbit old n = true) as Ht.
  { destruct (Z.testbit old n) eqn:E; [done|]. exfalso. apply Hl, Z.bits_inj'. intros k Hk. rewrite Z.land_spec, Z.bits_0, Z.pow2_bits_eqb by lia.
    destruct (Z.eqb_spec n k) as [->|]; [by rewrite E|apply andb_false_r]. }
  apply Z.bits_inj'. intros k Hk. rewrite Z.lor_spec, Z.pow2_bits_eqb by lia. destruct (Z.eqb_spec n k) as [->|]; [by rewrite Ht|apply orb_false_r].
Qed.

Lemma lor_twice a b : Z.lor (Z.lor a b) b = Z.lor a b.
Proof. by rewrite <- Z.lor_assoc, Z.lor_diag. Qed.

(** A failed allocation leaves the descriptor's status flags as they were. *)
Lemma probe_rollback h alias type host_fd probe h' : fd_probe_host h alias type host_fd = (probe, h') ->
  fcntl_getfl (fd_probe_rollback h' probe host_fd) host_fd = fcntl_getfl h host_fd.
Proof.
  unfold fd_probe_host, fd_probe_rollback. destruct alias as [spec|]; [intros [= <- <-]; done|].
  destruct (negb _ || _); [intros [= <- <-]; done|]. unfold fd_set_nonblock. set (old := fcntl_getfl h host_fd).
  destruct (Z.ltb_spec old 0) as [Ho|Ho]; cbn [Z.leb Z.compare]; [intros [= <- <-]; done|].
  pose proof (setfl_get h host_fd (Z.lor old O_NONBLOCK) (lor_twice _ _)) as Hget.
  pose proof (setfl_fail h host_fd (Z.lor old O_NONBLOCK)) as Hfail.
  pose proof (setfl_undo h host_fd (Z.lor old O_NONBLOCK) old) as Hundo.
  destruct (fcntl_setfl h host_fd (Z.lor old O_NONBLOCK)) as [rc h1]. cbn [fst snd] in *. intros [= <- <-]. cbn [pr_restore_flags].
  destruct (Z.leb_spec 0 rc) as [Hr|Hr]; cbn [andb]; [|by apply Hfail]. rewrite (proj2 (Z.leb_le 0 old)) by lia. cbn [andb].
  destruct (Z.eqb_spec (Z.land old O_NONBLOCK) 0) as [E|E].
  - rewrite (proj2 (Z.ltb_ge old 0)) by lia. apply setfl_get; [by rewrite Hget, lor_twice|]. apply Hundo; [done|by rewrite lor_twice].
  - cbn. rewrite Hget by done. destruct nonblock_bit as (n & Hn & En). rewrite En in *. by apply single_bit.
Qed.

(** C30: [fd_alloc_from] on a consistent table gives the lowest closed slot at or above the minimum and
    below both the table size and RLIMIT_NOFILE; it fails exactly when there is none, and then the table is
    untouched and the host descriptor has its old status flags back.  On success only that slot changes, it
    holds the given type and host descriptor, no slot has carried its generation, and it shares the
    description of the source of a dup. *)
Theorem fd_alloc_from_correct rlim alias s minfd type host_fd cleanup fd gen s' :
  tbl_ok s -> tbl_room s -> alias_ok s alias -> type <> FD_CLOSED ->
  fd_alloc_from rlim alias s minfd type host_fd cleanup = (fd, gen, s') ->
  let lo := Z.max 0 minfd in
  let hi := Z.min FD_TABLE_SIZE rlim in
  tbl_ok s' /\
  ((fd = -1 /\ (forall i, lo <= i < hi -> is_open (slot s i) = true) /\ f_table s' = f_table s /\ f_free s' = f_free s /\
    fcntl_getfl (f_host s') host_fd = fcntl_getfl (f_host s) host_fd) \/
   (lo <= fd < hi /\ is_open (slot s fd) = false /\ (forall i, lo <= i < fd -> is_open (slot s i) = true) /\
    (forall i, in_tbl i -> i <> fd -> slot s' i = slot s i) /\
    e_type (slot s' fd) = type /\ e_host_fd (slot s' fd) = host_fd /\ e_lifetime (slot s' fd) = None /\
    gen = e_generation (slot s' fd) /\ (forall i, in_tbl i -> e_generation (slot s i) < gen) /\
    (forall spec, alias = Some spec -> in_tbl (as_src_guest_fd spec) -> is_open (slot s (as_src_guest_fd spec)) = true ->
       e_generation (slot s (as_src_guest_fd spec)) = as_src_generation spec ->
       e_ofd_id (slot s' fd) = e_ofd_id (slot s (as_src_guest_fd spec))))).
Proof.
  intros Hok Hr Ha Hty. unfold fd_alloc_from, with_probe. destruct (fd_probe_host (f_host s) alias type host_fd) as [probe h] eqn:Ep.
  assert (tbl_ok (set_host h s)) as Hok0 by (by eapply same_tbl_ok; [|exact Hok]).
  pose proof (alloc_locked_spec rlim (set_host h s) minfd type host_fd cleanup probe alias Hok0 Hr Ha Hty) as Hs.
  destruct (fd_alloc_locked rlim (set_host h s) minfd type host_fd cleanup probe alias) as [fd0 s0].
  intros [= <- <- <-]. cbv zeta. destruct Hs as [(-> & Hfull & ->)|(Hb & Hcl & Hlow & ->)].
  - split; [by eapply same_tbl_ok; [|exact Hok0]|]. left. split; [done|]. split; [exact Hfull|]. split; [done|]. split; [done|].
    by apply (probe_rollback _ alias type).
  - assert (in_tbl fd0) as Hf by (unfold in_tbl; lia).
    destruct (init_spec (set_host h s) fd0 type host_fd cleanup probe alias Hok0 Hr Ha Hf Hty) as (e & Hpub & Hok1 & Hset & _).
    pose proof (slot_set_at _ _ _ _ Hf Hset) as Es. destruct Hset as [_ Hset]. split; [exact Hok1|]. right.
    rewrite (proj2 (Z.leb_le 0 fd0)) by lia. rewrite !Es. destruct Hpub as [P1 P2 P3 _ _ _ P4 _ P5].
    split; [done|]. split; [exact Hcl|]. split; [exact Hlow|]. split_and!; try done.
    + intros i Hi Hne. rewrite Hset by done. by rewrite (proj2 (Z.eqb_neq i fd0)).
    + intros i Hi. rewrite P4. by apply (to_gen s Hok).
    + intros spec Hal Hin Hop Hg. apply (P5 spec Hal); [|done..]. intros E. rewrite E in Hop. change (is_open (slot s fd0) = false) in Hcl. congruence.
Qed.

(** [fd_set_shadow_flags] changes exactly the open slots that share the description of the addressed
    slot, in the masked bits only, and nothing at all when the slot was closed or reused since its
    generation was read. *)
Theorem fd_set_shadow_flags_correct s fd generation mask value :
  tbl_ok s ->
  let s' := fd_set_shadow_flags s fd generation mask value in
  tbl_ok s' /\ same_heap s s' /\
  forall i, in_tbl i -> slot s' i =
    (if fd_in_range fd && is_open (slot s fd) && (e_generation (slot s fd) =? generation) &&
        is_open (slot s i) && (e_ofd_id (slot s i) =? e_ofd_id (slot s fd))
     then with_flags (Z.lor (Z.land (e_linux_flags (slot s i)) (Z.lnot mask)) (Z.land value mask)) (slot s i)
     else slot s i).
Proof.
  intros Hok. destruct (for_each_spec s fd generation mask value Hok) as (A & B & C). split; [exact A|]. split; [exact B|].
  intros i Hi. unfold fd_set_shadow_flags. rewrite (C i Hi). unfold swept. destruct (_ && is_open (slot s fd) && _); done.
Qed.

Definition usable s (fd : Z) : bool := is_open (slot s fd) && (0 <=? e_host_fd (slot s fd)).

(** The pin a pass takes: on the slot's lifetime, one reference more. *)
Definition pinned s s' (fd host_fd : Z) (l : nat) : Prop :=
  host_fd = e_host_fd (slot s fd) /\ e_lifetime (slot s' fd) = Some l /\
  exists lt, lifetime_at s' l = Some lt /\
    lt_refs lt = match e_lifetime (slot s fd) with Some l0 => default 0 (lt_refs <$> lifetime_at s l0) + 1 | None => 2 end.

Lemma acquire_pass_spec s fd spare : tbl_ok s -> in_tbl fd ->
  (forall l, e_lifetime (slot s fd) = Some l -> exists lt, lifetime_at s l = Some lt) ->
  let '(r, s') := acquire_pass s fd spare in
  match r with
  | AcqBadf => usable s fd = false /\ s' = s
  | AcqNomem => False
  | AcqRetry => usable s fd = true /\ e_lifetime (slot s fd) = None /\ spare = false /\ s' = s
  | AcqOk host_fd l => usable s fd = true /\ pinned s s' fd host_fd l
  end.
Proof.
  intros Hok Hf Hlive. unfold acquire_pass, fd_snapshot_locked, fd_lifetime_pin_spare, usable, pinned, is_open. cbv zeta.
  rewrite (proj2 (in_range_iff fd) Hf). cbn [negb].
  destruct (e_type (slot s fd) =? FD_CLOSED); cbn [fst negb andb]; [done|]. rewrite !Z.leb_antisym.
  destruct (e_host_fd (slot s fd) <? 0); cbn [negb orb]; [done|]. destruct (e_lifetime (slot s fd)) as [l|] eqn:El.
  - rewrite bool_decide_true by (by eexists). cbn [orb]. split; [done|]. split; [done|]. split; [exact El|].
    destruct (Hlive l eq_refl) as [lt Hl]. rewrite Hl. unfold lifetime_at in *. cbn [f_lifetimes set_lifetimes].
    apply mjoin_lookup in Hl. rewrite list_lookup_alter_eq, Hl. eexists. split; [reflexivity|]. done.
  - rewrite bool_decide_false by (by intros [? ?]). cbn [orb]. destruct spare; [|done]. cbn [orb]. split; [done|]. split; [done|].
    set (s0 := match _ with Some d => dir_stream_ref_locked s d | None => s end).
    assert (f_table s0 = f_table s /\ f_lifetimes s0 = f_lifetimes s) as [Et EL] by (unfold s0; by case_match).
    clearbody s0. split.
    + change (slot (set_lifetimes ?l ?x) fd) with (slot x fd). rewrite slot_put, Z.eqb_refl by (done || rewrite Et; apply Hok). done.
    + unfold lifetime_at. cbn [f_lifetimes set_lifetimes put_slot set_table]. rewrite EL, lookup_app_r, Nat.sub_diag by done.
      eexists. split; [reflexivity|]. done.
Qed.

(** [fd_host_ref_acquire] returns after at most two passes, whatever its allocations answer: EBADF for a
    slot that is closed or has no host descriptor, ENOMEM only when a new lifetime could not be allocated,
    and otherwise the slot's descriptor pinned by the slot's lifetime, whose count went up. *)
Theorem fd_host_ref_acquire_returns s fd (malloc_ok : nat -> bool) fuel :
  tbl_ok s -> (forall l, e_lifetime (slot s fd) = Some l -> exists lt, lifetime_at s l = Some lt) ->
  exists r s', fd_host_ref_acquire (2 + fuel) malloc_ok s fd false = Some (r, s') /\
  match r with
  | AcqBadf => (fd_in_range fd = false \/ usable s fd = false) /\ s' = s
  | AcqNomem => usable s fd = true /\ e_lifetime (slot s fd) = None /\ malloc_ok (S fuel) = false /\ s' = s
  | AcqRetry => False
  | AcqOk host_fd l => in_tbl fd /\ usable s fd = true /\ pinned s s' fd host_fd l
  end.
Proof.
  intros Hok Hlive. cbn [Nat.add fd_host_ref_acquire]. destruct (fd_in_range fd) eqn:Ef; cbn [negb]; [|exists AcqBadf, s; split; [done|]; split; [by left|done]].
  pose proof (proj1 (in_range_iff fd) Ef) as Hf. pose proof (acquire_pass_spec s fd false Hok Hf Hlive) as H1. destruct (acquire_pass s fd false) as [[| | |x l] s1].
  - destruct H1 as [Hu ->]. do 2 eexists. split; [done|]. split; [by right|done].
  - done.
  - destruct H1 as (Hu & El & _ & ->). destruct (malloc_ok (S fuel)) eqn:Em; [|by do 2 eexists].
    pose proof (acquire_pass_spec s fd true Hok Hf Hlive) as H2. destruct (acquire_pass s fd true) as [[| | |x l] s2].
    + destruct H2 as [Hu' _]. congruence.
    + done.
    + by destruct H2 as (_ & _ & ? & _).
    + do 2 eexists. split; [done|]. done.
  - do 2 eexists. split; [done|]. done.
Qed.

(** ** Every reachable state *)

Section Reach.
Variable F : Z -> Prop.
Hypothesis std : F 0 /\ F 1 /\ F 2.

Lemma reach h y : (forall x, 0 <= x -> fd_open h x <-> F x) -> rtc step (start h) y -> inv F y.
Proof. destruct std as (F0 & F1 & F2). by apply reach_inv. Qed.

Lemma owner_open y x : inv F y -> 0 <= x -> (F x \/ (0 < owned_by (y_hand y) (keys (y_fds y) (y_pend y)) (f_lifetimes (y_fds y)) (f_streams (y_fds y)) x)%nat) ->
  fd_open (f_host (y_fds y)) x.
Proof. intros (_ & Hh & _) Hx Ho. destruct (lk_own _ _ _ _ _ _ _ _ Hh x Hx) as (O1 & O2 & _). apply O1. destruct Ho; [by left|right; lia]. Qed.

(** What a live key stands for is open. *)
Lemma stream_open y d x : inv F y -> 0 <= x -> stream_is (f_streams (y_fds y)) d x -> fd_open (f_host (y_fds y)) x.
Proof.
  intros Hi Hx (ds & E & <-). apply owner_open; [done|done|]. right. unfold owned_by.
  pose proof (total_lookup (stream_owns (ds_host_fd ds)) _ _ _ E) as T. cbn in T. unfold one_fd in T. rewrite Z.eqb_refl in T. lia.
Qed.

Lemma life_open y l lt : inv F y -> f_lifetimes (y_fds y) !! l = Some (Some lt) -> 0 <= lt_host_fd lt -> fd_open (f_host (y_fds y)) (lt_host_fd lt).
Proof.
  intros Hi E Hx. pose proof Hi as (_ & Hh & _). destruct (lk_lifes _ _ _ _ _ _ _ _ Hh l lt E) as [_ Ks Kf]. cbn in Ks, Kf.
  destruct (lt_dir lt) as [d|] eqn:Ed; [destruct (Ks d eq_refl) as [_ Hd]; by eapply stream_open|].
  apply owner_open; [done|done|]. destruct (Z.eq_dec (lt_type lt) FD_STDIO) as [Et|Et]; [left; by apply Kf|right]. unfold owned_by.
  pose proof (total_lookup (life_owns (lt_host_fd lt)) _ _ _ E) as T. cbn [life_owns] in T. rewrite Ed, (proj2 (Z.eqb_neq _ _) Et) in T.
  unfold one_fd in T. rewrite Z.eqb_refl in T. lia.
Qed.

Lemma key_open y k : inv F y -> k ∈ keys (y_fds y) (y_pend y) -> 0 <= k_fd k -> fd_open (f_host (y_fds y)) (k_fd k).
Proof.
  intros Hi Hk Hx. pose proof Hi as (_ & Hh & _). destruct (lk_keys _ _ _ _ _ _ _ _ Hh k Hk) as [Kl Ks Kf].
  destruct (k_life k) as [l|] eqn:El. { destruct (Kl l eq_refl) as (lt & E & Ex & _). rewrite <- Ex in *. by eapply life_open. }
  destruct (k_stream k) as [d|] eqn:Ed; [destruct (Ks d eq_refl) as [_ Hd]; by eapply stream_open|].
  apply owner_open; [done|done|]. destruct (Z.eq_dec (k_type k) FD_STDIO) as [Et|Et]; [left; by apply Kf|right]. unfold owned_by.
  pose proof (total_elem (key_owns (k_fd k)) _ _ Hk) as T. unfold key_owns at 1 in T. rewrite El, Ed, (proj2 (Z.eqb_neq _ _) Et) in T.
  unfold one_fd in T. rewrite Z.eqb_refl in T. lia.
Qed.

(** C3: In every state the threads can reach by any interleaving of the table's critical sections, teardowns
    and host calls, no host descriptor in use is closed: those of open slots, of removed slots awaiting
    teardown, of directory streams, those pinned by [fd_host_ref_acquire] and those a thread is about to
    publish are open; and each has one owner, so none is closed twice. *)
Theorem fd_descriptors_live h y :
  (forall x, 0 <= x -> fd_open h x <-> F x) -> rtc step (start h) y ->
  let s := y_fds y in
  let live x := 0 <= x -> fd_open (f_host s) x in
  (forall fd, in_tbl fd -> is_open (slot s fd) = true -> live (e_host_fd (slot s fd))) /\
  (forall fd e, (fd, e) ∈ y_pend y -> live (e_host_fd e)) /\
  (forall d ds, stream_at s d = Some ds -> live (ds_host_fd ds)) /\
  (forall x l, (x, l) ∈ y_pins y -> live x) /\
  (forall x, x ∈ y_hand y -> live x) /\
  (forall x, 0 <= x -> (owned_by (y_hand y) (keys s (y_pend y)) (f_lifetimes s) (f_streams s) x <= 1)%nat).
Proof.
  intros Hh Hr s live. pose proof (reach h y Hh Hr) as Hi. pose proof Hi as (Hok & Hl & Hp). split_and!.
  - intros fd Hf Ho Hx. apply (key_open y (key_of (slot s fd)) Hi); [by apply keys_slot|done].
  - intros fd e Hin Hx. apply (key_open y (key_of e) Hi); [|done]. apply elem_of_app. right. unfold opens. apply list_elem_of_fmap. exists e. split; [done|].
    apply list_elem_of_filter. split; [by eapply Hp|]. apply list_elem_of_fmap. by exists (fd, e).
  - intros d ds Hd Hx. apply mjoin_lookup in Hd. apply (stream_open y d); [done|done|]. by exists ds.
  - intros x l Hin Hx. destruct (lk_pins _ _ _ _ _ _ _ _ Hl x l Hin) as (lt & E & <-). by eapply life_open.
  - intros x Hin Hx. apply owner_open; [done|done|]. right. unfold owned_by. pose proof (total_elem (fun y => one_fd y x) _ _ Hin) as T. cbn beta in T.
    unfold one_fd at 1 in T. rewrite Z.eqb_refl in T. lia.
  - intros x Hx. by apply (lk_own _ _ _ _ _ _ _ _ Hl).
Qed.

(** C29: Nothing is leaked: in a reachable state where every slot is closed and no thread holds a descriptor, a
    pin, a removed entry or a stream reference, the open host descriptors are those of the start. *)
Theorem fd_no_leak h y :
  (forall x, 0 <= x -> fd_open h x <-> F x) -> rtc step (start h) y ->
  (forall fd, in_tbl fd -> is_open (slot (y_fds y) fd) = false) ->
  y_hand y = [] -> y_pins y = [] -> y_pend y = [] -> y_srefs y = [] ->
  forall x, 0 <= x -> fd_open (f_host (y_fds y)) x <-> F x.
Proof.
  intros Hh Hr Hc Eh Ep Ee Es x Hx. pose proof (reach h y Hh Hr) as (Hok & Hl & _). rewrite Eh, Ep, Es in Hl.
  assert (keys (y_fds y) (y_pend y) = []) as Ek.
  { rewrite Ee. unfold keys. rewrite app_nil_r. apply elem_of_nil_inv. intros k Hk. apply list_elem_of_fmap in Hk as (e & _ & He).
    apply list_elem_of_filter in He as [Ho Hin]. apply list_elem_of_lookup in Hin as [i E]. pose proof (lookup_lt_Some _ _ _ E) as Hlt.
    rewrite (to_len _ Hok) in Hlt. assert (in_tbl (Z.of_nat i)) as Hi by (unfold in_tbl, FD_TABLE_SIZE; lia).
    pose proof (slot_lookup _ _ Hok Hi) as L. rewrite Nat2Z.id, E in L. injection L as ->. rewrite (Hc _ Hi) in Ho. done. }
  rewrite Ek in Hl. destruct Hl as [Lo Ll Ls _ _ _ _].
  assert (forall l, f_lifetimes (y_fds y) !! l <> None -> f_lifetimes (y_fds y) !! l = Some None) as Nl.
  { intros l. destruct (f_lifetimes (y_fds y) !! l) as [[lt|]|] eqn:E; [|done|done]. destruct (Ll l lt E) as [A B]. cbn in A. lia. }
  assert (tally (life_owns x) (f_lifetimes (y_fds y)) = 0%nat /\ forall d, tally (life_ref d) (f_lifetimes (y_fds y)) = 0%nat) as [Tl Tr].
  { split; [|intros d]; apply total_zero; intros o [l E]%list_elem_of_lookup; pose proof (Nl l) as N; rewrite E in N; by injection (N ltac:(done)) as ->. }
  assert (tally (stream_owns x) (f_streams (y_fds y)) = 0%nat) as Ts.
  { apply total_zero. intros [ds|] [d E]%list_elem_of_lookup; [|done]. destruct (Ls d ds E) as [A B]. unfold stream_refs in A. rewrite Tr in A. cbn in A. lia. }
  destruct (Lo x Hx) as (O1 & _ & _). rewrite O1. unfold owned_by. cbn [sum_list_with]. rewrite Tl, Ts. split; [intros [?|?]; [done|lia]|by left].
Qed.

(** C36: In every reachable state the free bitmap is exactly the set of closed slots, the bitmap the EL1 read
    path consults names only open urandom slots, and no two open slots carry the same generation. *)
Theorem fd_table_consistent h y :
  (forall x, 0 <= x -> fd_open h x <-> F x) -> rtc step (start h) y ->
  let s := y_fds y in
  forall i, in_tbl i ->
    bitmap_get (f_free s) i = negb (is_open (slot s i)) /\
    (bitmap_get (f_urandom s) i = true -> e_type (slot s i) = FD_URANDOM) /\
    (is_open (slot s i) = true -> 0 < e_ofd_id (slot s i) /\
       forall j, in_tbl j -> e_generation (slot s j) = e_generation (slot s i) -> j = i).
Proof.
  intros Hh Hr s i Hi. pose proof (reach h y Hh Hr) as (Hok & _ & _). split; [by apply Hok|]. split; [by apply Hok|]. intros Ho.
  split; [by apply (to_ofd_open _ Hok)|]. intros j Hj Hg. pose proof (to_gen_open _ Hok i Hi Ho). destruct (to_gen_inj _ Hok j i Hj Hi Hg); [|done].
  unfold s in *. lia.
Qed.
End Reach.
End Specs.

(** ** Witnesses *)

(** A host with descriptors and their status flags. *)
Module FlagHost.

Record t := mk { table : ListHost.t; flags : Z -> Z }.

Definition dup (h : t) (fd : Z) : Z * t :=
  let '(n, l) := ListHost.dup (table h) fd in (n, mk l (fun x => if x =? n then flags h fd else flags h x)).

#[global] Instance env : HostEnv t := {
  host_dup := dup; host_close h fd := mk (ListHost.close (table h) fd) (flags h); sysconf_pagesize := 16384 }.

#[global] Program Instance laws : HostFdLaws t := { fd_open h x := In x (ListHost.fds (table h)) }.
Next Obligation.
  intros h fd nfd h'. unfold host_dup, env, dup. destruct (ListHost.dup (table h) fd) as [n l] eqn:E. intros [= <- <-].
  exact (dup_spec (H := ListHost.t) _ _ _ _ E).
Qed.
Next Obligation. intros h fd x. exact (close_spec (H := ListHost.t) (table h) fd x). Qed.

Definition is_fd (h : t) (fd : Z) : bool := existsb (Z.eqb fd) (ListHost.fds (table h)).

#[global] Instance fcntl : FdHost t := {
  fstat_may_block _ _ := true;
  fcntl_getfl h fd := if is_fd h fd then flags h fd else -1;
  fcntl_setfl h fd v := if is_fd h fd then (0, mk (table h) (fun x => if x =? fd then v else flags h x)) else (-1, h);
  O_NONBLOCK := 4 }.

#[global] Instance fcntl_laws : FdHostLaws t.
Proof.
  split; cbn [fcntl_getfl fcntl_setfl fcntl O_NONBLOCK]; intros.
  - by destruct (is_fd h fd).
  - destruct (is_fd h fd) eqn:E; cbn in *; [|lia]. change (is_fd (mk (table h) ?f) fd) with (is_fd h fd). by rewrite E, Z.eqb_refl.
  - destruct (is_fd h fd) eqn:E; cbn in *; [|lia]. change (is_fd (mk (table h) ?f) fd) with (is_fd h fd). by rewrite E.
  - destruct (is_fd h fd) eqn:E; cbn in *; [lia|]. by rewrite E.
  - by exists 2.
Qed.

Definition std (x : Z) : Prop := x = 0 \/ x = 1 \/ x = 2.
Definition boot : t := mk (ListHost.mk 64 [0; 1; 2]) (fun _ => 2).

Lemma boot_std : forall x, 0 <= x -> fd_open boot x <-> std x.
Proof. intros x _. unfold std. cbn. intuition congruence. Qed.
Lemma std_ok : std 0 /\ std 1 /\ std 2.
Proof. unfold std. lia. Qed.

(** One pipe end opened as descriptor 3. *)
Definition opened : t := mk (ListHost.mk 64 [3; 0; 1; 2]) (fun _ => 2).

Definition s1 : fds t := set_host opened (fdtable_init boot).
Definition no_probe : fd_host_probe_t := mk_probe true false (-1).
Definition s2 : fds t := snd (fd_alloc_locked 1024 s1 0 FD_PIPE 3 None no_probe None).
Definition s3 : fds t := snd (acquire_pass s2 3 true).
Definition s4 : fds t := snd (fd_snapshot_and_close s3 3).
Definition s5 : fds t := fd_cleanup_entry s4 3 (slot s3 3).
Definition s6 : fds t := fd_lifetime_release s5 0.

(** The slot is closed and torn down while the descriptor is pinned. *)
Definition y5 : sys := mk_sys s5 [] [(3, 0%nat)] [] [].

Lemma trace_pinned : rtc step (start boot) y5.
Proof.
  unfold y5.
  eapply rtc_l. { eapply (st_open _ 3 opened); [lia|cbn; lia|]. intros x. cbn. intuition congruence. }
  eapply rtc_l. { apply (st_alloc 1024 0 FD_PIPE None no_probe None s1 s2 3 3 []); [done|done|done|vm_compute; done|]. vm_compute. reflexivity. }
  eapply rtc_l. { apply (st_acquire 3 true 3 0 s2 s3); [done|]. vm_compute. reflexivity. }
  eapply rtc_l. { apply (st_close 3 (slot s3 3) s3 s4). vm_compute. reflexivity. }
  unfold s5. apply rtc_once. exact (st_cleanup 3 (slot s3 3) s4 [] [(3, 0%nat)] [] [] []).
Qed.

Definition closed (s : fds t) (fd : Z) : fds t := fd_cleanup_entry (snd (fd_snapshot_and_close s fd)) fd (slot s fd).

Lemma close_one s fd : fst (fd_snapshot_and_close s fd) = Some (slot s fd) -> rtc step (mk_sys s [] [] [] []) (mk_sys (closed s fd) [] [] [] []).
Proof.
  intros E. eapply rtc_l. { apply (st_close fd (slot s fd) s (snd (fd_snapshot_and_close s fd))). rewrite (surjective_pairing (fd_snapshot_and_close s fd)), E. reflexivity. }
  unfold closed. apply rtc_once. exact (st_cleanup fd (slot s fd) _ [] [] [] [] []).
Qed.

Definition s7 : fds t := closed (closed (closed s6 0) 1) 2.

(** The pin is dropped and the standard streams are closed. *)
Definition y7 : sys := mk_sys s7 [] [] [] [].

Lemma trace_quiet : rtc step (start boot) y7.
Proof.
  unfold y7.
  etransitivity; [exact trace_pinned|]. eapply rtc_l. { exact (st_unpin 3 0 s5 [] [] [] [] []). } fold s6.
  unfold s7. etransitivity; [apply (close_one s6 0); vm_compute; reflexivity|].
  etransitivity; [apply (close_one (closed s6 0) 1); vm_compute; reflexivity|]. apply (close_one (closed (closed s6 0) 1) 2). vm_compute. reflexivity.
Qed.

Lemma all_closed (s : fds t) : forallb (fun e => negb (is_open e)) (f_table s) = true -> forall fd, is_open (slot s fd) = false.
Proof.
  intros Hf fd. unfold slot. rewrite nth_lookup. destruct (f_table s !! Z.to_nat fd) as [e|] eqn:E; [|done].
  rewrite forallb_forall in Hf. apply list_elem_of_lookup_2, list_elem_of_In in E. apply Hf in E. by apply negb_true_iff in E.
Qed.
End FlagHost.

Import FlagHost.

Lemma fd_alloc_from_correct_witness :
  let r := fd_alloc_from 1024 None (fdtable_init boot) 1 FD_PIPE 3 None in
  fst (fst r) = 3 /\ tbl_ok (snd r) /\ e_host_fd (slot (snd r) 3) = 3.
Proof.
  cbv zeta. split; [vm_compute; reflexivity|].
  destruct (fd_alloc_from_correct 1024 None (fdtable_init boot) 1 FD_PIPE 3 None 3 _ _ (init_ok boot) ltac:(vm_compute; done) I ltac:(done)
    ltac:(rewrite (surjective_pairing (fd_alloc_from 1024 None (fdtable_init boot) 1 FD_PIPE 3 None)),
            (surjective_pairing (fst (fd_alloc_from 1024 None (fdtable_init boot) 1 FD_PIPE 3 None))); reflexivity)) as [Hok [[E _]|Hs]]; [lia|].
  split; [exact Hok|]. apply Hs.
Defined.

Lemma fd_set_shadow_flags_correct_witness :
  slot (fd_set_shadow_flags (fdtable_init boot) 0 1 LINUX_O_APPEND LINUX_O_APPEND) 1 = slot (fdtable_init boot) 1.
Proof.
  destruct (fd_set_shadow_flags_correct (fdtable_init boot) 0 1 LINUX_O_APPEND LINUX_O_APPEND (init_ok boot)) as (_ & _ & Hs).
  rewrite (Hs 1 ltac:(done)). reflexivity.
Defined.

Lemma fd_host_ref_acquire_returns_witness :
  exists r s', fd_host_ref_acquire 2 (fun _ => true) (fdtable_init boot) 0 false = Some (r, s') /\ r <> AcqRetry.
Proof.
  destruct (fd_host_ref_acquire_returns (fdtable_init boot) 0 (fun _ => true) 0 (init_ok boot)) as (r & s' & E & Hr); [done|].
  exists r, s'. split; [exact E|]. intros ->. exact Hr.
Defined.

Lemma fd_descriptors_live_witness : is_open (slot (y_fds y5) 3) = false /\ fd_open (f_host (y_fds y5)) 3.
Proof.
  split; [vm_compute; reflexivity|].
  exact (proj1 (proj2 (proj2 (proj2 (fd_descriptors_live FlagHost.std std_ok boot y5 boot_std trace_pinned)))) 3 0%nat
    ltac:(unfold y5, y_pins; left) ltac:(lia)).
Defined.

Lemma fd_no_leak_witness : (fd_open (f_host (y_fds y7)) 2 <-> FlagHost.std 2) /\ (fd_open (f_host (y_fds y7)) 3 <-> FlagHost.std 3).
Proof.
  assert (forall fd, in_tbl fd -> is_open (slot (y_fds y7) fd) = false) as Hc by (intros fd _; apply all_closed; vm_compute; reflexivity).
  split; [refine (fd_no_leak FlagHost.std std_ok boot y7 boot_std trace_quiet Hc eq_refl eq_refl eq_refl eq_refl 2 _)
         |refine (fd_no_leak FlagHost.std std_ok boot y7 boot_std trace_quiet Hc eq_refl eq_refl eq_refl eq_refl 3 _)]; lia.
Defined.

Lemma fd_table_consistent_witness : bitmap_get (f_free (y_fds y5)) 3 = negb (is_open (slot (y_fds y5) 3)).
Proof. exact (proj1 (fd_table_consistent FlagHost.std std_ok boot y5 boot_std trace_pinned 3 ltac:(done))). Defined.
