(* ===== verification/GuestCopy.v ===== *)
(** * Copies between host buffers and guest memory: src/core/guest.c

    Host memory is one byte map; the slab, the extra ranges and the caller's
    buffers are all addresses of it.  The page tables live in the slab, so every
    walk of a copy loop reads them from the bytes as they are at that moment
    ([tables]): a copy that overwrote a table would be seen by the next
    iteration.

    A host access can take SIGBUS when the file behind a shared overlay was
    truncated; the recovery pad turns it into a result.  Which ranges fault, and
    what a torn [memcpy] has left in its destination, is the host's. *)

From S2P Require Import Prelude Tlbi Regions PageTable Gva.

Notation mem := (Z -> Z) (only parsing).

Class HostMem := {
  bus : Z -> Z -> bool;                 (* an access to [p, p + n) faults *)
  torn : mem -> Z -> Z -> Z -> mem      (* memory after a faulting copy *)
}.

Definition blit (m : mem) (dst src len : Z) : mem :=
  fun a => if (dst <=? a) && (a <? dst + len) then m (src + (a - dst)) else m a.

(** The little-endian 64-bit word at [a]. *)
Definition word64 (m : mem) (a : Z) : Z :=
  m a + 256 * (m (a + 1) + 256 * (m (a + 2) + 256 * (m (a + 3) + 256 * (m (a + 4) +
    256 * (m (a + 5) + 256 * (m (a + 6) + 256 * m (a + 7))))))).

Definition tables (g : guest_t) (m : mem) (s : guest_pt) : guest_pt :=
  set_mem (fun a => word64 m (host_base g + a)) s.

Section Copy.
Context `{!HostMem}.

(** ** Guarded host accesses *)

Definition guest_host_memcpy (m : mem) (dst src len : Z) : Z * mem :=
  if bus dst len || bus src len then (-1, torn m dst src len) else (0, blit m dst src len).

(** One page-bounded step of the loop below. *)
Definition copy_unit (dst src len done : Z) : Z :=
  let to_d := GUEST_PAGE_SIZE - Z.land (dst + done) (GUEST_PAGE_SIZE - 1) in
  let to_s := GUEST_PAGE_SIZE - Z.land (src + done) (GUEST_PAGE_SIZE - 1) in
  let unit := if to_d <? to_s then to_d else to_s in
  if len - done <? unit then len - done else unit.

Definition copy_partial_body (dst src len : Z) (x : Z * mem) : (Z * mem) + option (Z * mem) :=
  let '(done, m) := x in
  if done <? len then
    let unit := copy_unit dst src len done in
    if bus (dst + done) unit || bus (src + done) unit
    then inr (Some (done, torn m (dst + done) (src + done) unit))
    else inl (done + unit, blit m (dst + done) (src + done) unit)
  else inr (Some (done, m)).

Definition guest_host_copy_partial (m : mem) (dst src len : Z) : option (Z * mem) :=
  loop (len + 1) (copy_partial_body dst src len) (0, m).

(** Offset of the first zero byte among [n] bytes from [p]. *)
Fixpoint memchr0 (m : mem) (p : Z) (n : nat) : option Z :=
  match n with
  | O => None
  | S n => if m p =? 0 then Some 0 else option_map (Z.add 1) (memchr0 m (p + 1) n)
  end.

(** The offset found and [*faulted]. *)
Definition guest_host_memchr (m : mem) (src len : Z) : option Z * bool :=
  if bus src len then (None, true) else (memchr0 m src (Z.to_nat len), false).

(** The [(int)] cast of a length. *)
Definition int_cast (x : Z) : Z := (x + 2147483648) mod 4294967296 - 2147483648.

Definition store_byte (m : mem) (p v : Z) : mem := fun a => if a =? p then v else m a.

(** ** Copies *)

Section Guest.
Variable g : guest_t.
Variable s : guest_pt.

(** Result code, memory and cache. *)
Definition outcome : Type := Z * mem * gva_tlb_t.

Record copy_state := mk_copy { c_copied : Z; c_mem : mem; c_tlb : gva_tlb_t }.

Definition copy_body (gva dst src len required : Z) (x : copy_state) : copy_state + option outcome :=
  let '(mk_copy copied m t) := x in
  if copied <? len then
    match gva_resolve_perm g (tables g m s) t (gva + copied)%u64 true required (len - copied)%u64 with
    | None => inr None
    | Some (None, t) => inr (Some (-1, m, t))
    | Some (Some (ptr, avail), t) =>
        let chunk := (len - copied)%u64 in
        let chunk := if avail <? chunk then avail else chunk in
        let '(rc, m) := if required =? MEM_PERM_R then guest_host_memcpy m (dst + copied) ptr chunk
                        else guest_host_memcpy m ptr (src + copied) chunk in
        if rc <? 0 then inr (Some (-1, m, t)) else inl (mk_copy (copied + chunk)%u64 m t)
    end
  else inr (Some (0, m, t)).

(** Every iteration copies at least one byte. *)
Definition guest_copy (m : mem) (t : gva_tlb_t) (gva dst src len required : Z) : option outcome :=
  if len =? 0 then Some (0, m, t)
  else if ((required =? MEM_PERM_R) && (dst =? 0)) || ((required =? MEM_PERM_W) && (src =? 0))
  then Some (-1, m, t)
  else if negb (gva_span_ok gva len) then Some (-1, m, t)
  else loop (len + 1) (copy_body gva dst src len required) (mk_copy 0 m t).

Definition guest_read (m : mem) (t : gva_tlb_t) (gva dst len : Z) : option outcome :=
  guest_copy m t gva dst 0 len MEM_PERM_R.

Definition guest_write (m : mem) (t : gva_tlb_t) (gva src len : Z) : option outcome :=
  guest_copy m t gva 0 src len MEM_PERM_W.

Definition guest_ptr_bound (m : mem) (t : gva_tlb_t) (gva required len_limit : Z)
    : option (option (Z * Z) * gva_tlb_t) :=
  gva_resolve_perm g (tables g m s) t gva true required len_limit.

Definition guest_read_small (m : mem) (t : gva_tlb_t) (gva dst len : Z) : option outcome :=
  '(r, t) ← guest_ptr_bound m t gva MEM_PERM_R len;
  match r with
  | Some (src, avail) =>
      if len <=? avail then let '(rc, m) := guest_host_memcpy m dst src len in Some (rc, m, t)
      else guest_read m t gva dst len
  | None => guest_read m t gva dst len
  end.

Definition guest_write_small (m : mem) (t : gva_tlb_t) (gva src len : Z) : option outcome :=
  '(r, t) ← guest_ptr_bound m t gva MEM_PERM_W len;
  match r with
  | Some (dst, avail) =>
      if len <=? avail then let '(rc, m) := guest_host_memcpy m dst src len in Some (rc, m, t)
      else guest_write m t gva src len
  | None => guest_write m t gva src len
  end.

(** Bytes written instead of a result code. *)
Definition write_partial_body (gva src len : Z) (x : copy_state) : copy_state + option outcome :=
  let '(mk_copy done m t) := x in
  if done <? len then
    match gva_resolve_perm g (tables g m s) t (gva + done)%u64 true MEM_PERM_W (len - done)%u64 with
    | None => inr None
    | Some (None, t) => inr (Some (done, m, t))
    | Some (Some (dst, avail), t) =>
        let chunk := (len - done)%u64 in
        let chunk := if avail <? chunk then avail else chunk in
        match guest_host_copy_partial m dst (src + done) chunk with
        | None => inr None
        | Some (moved, m) =>
            let done := (done + moved)%u64 in
            if moved <? chunk then inr (Some (done, m, t)) else inl (mk_copy done m t)
        end
    end
  else inr (Some (done, m, t)).

Definition guest_write_partial (m : mem) (t : gva_tlb_t) (gva src len : Z) : option outcome :=
  loop (len + 1) (write_partial_body gva src len) (mk_copy 0 m t).

(** ** Strings *)

(** How the loop of [guest_read_str] ends: a string found, or [break] with
    [copied] and [faulted]. *)
Inductive str_exit :=
  | StrFound (n : Z)
  | StrBreak (copied : Z) (faulted : bool).

Definition read_str_body (gva dst limit : Z) (x : copy_state)
    : copy_state + option (str_exit * mem * gva_tlb_t) :=
  let '(mk_copy copied m t) := x in
  if copied <? limit then
    if (UINT64_MAX - copied)%u64 <? gva then inr (Some (StrBreak copied false, m, t))
    else
      match gva_resolve_perm g (tables g m s) t (gva + copied)%u64 true MEM_PERM_R (limit - copied)%u64 with
      | None => inr None
      | Some (None, t) => inr (Some (StrBreak copied false, m, t))
      | Some (Some (src, avail), t) =>
          let remain := (limit - copied)%u64 in
          let chunk := if avail <? remain then avail else remain in
          let '(nul, faulted) := guest_host_memchr m src chunk in
          if faulted then inr (Some (StrBreak copied true, m, t))
          else
            match nul with
            | Some slen =>
                let '(rc, m) := guest_host_memcpy m (dst + copied) src (slen + 1)%u64 in
                if rc <? 0 then inr (Some (StrBreak copied true, m, t))
                else inr (Some (StrFound (copied + slen)%u64, m, t))
            | None =>
                let '(rc, m) := guest_host_memcpy m (dst + copied) src chunk in
                if rc <? 0 then inr (Some (StrBreak copied true, m, t))
                else inl (mk_copy (copied + chunk)%u64 m t)
            end
      end
  else inr (Some (StrBreak copied false, m, t)).

Definition guest_read_str (m : mem) (t : gva_tlb_t) (gva dst max : Z) : option outcome :=
  if max =? 0 then Some (-1, m, t)
  else
    let limit := (max - 1)%u64 in
    '(e, m, t) ← loop (limit + 1) (read_str_body gva dst limit) (mk_copy 0 m t);
    match e with
    | StrFound n => Some (int_cast n, m, t)
    | StrBreak copied faulted =>
        Some ((if faulted then -2 else -1), store_byte m (dst + copied) 0, t)
    end.

Definition guest_read_str_small (m : mem) (t : gva_tlb_t) (gva dst max : Z) : option outcome :=
  if max =? 0 then Some (-1, m, t)
  else
    let limit := (max - 1)%u64 in
    '(r, t) ← guest_ptr_bound m t gva MEM_PERM_R limit;
    match r with
    | Some (src, avail) =>
        if limit <=? avail then
          let '(nul, faulted) := guest_host_memchr m src limit in
          match nul with
          | Some slen =>
              let '(rc, m) := guest_host_memcpy m dst src (slen + 1)%u64 in
              if rc <? 0 then Some (-2, store_byte m dst 0, t) else Some (int_cast slen, m, t)
          | None =>
              if faulted then Some (-2, store_byte m dst 0, t)
              else guest_read_str m t gva dst max
          end
        else guest_read_str m t gva dst max
    | None => guest_read_str m t gva dst max
    end.

End Guest.
End Copy.
