(* ===== verification/CopyFacts.v ===== *)
(** * The copy loops move the bytes the address map names

    Facts behind the theorems of [CopySpecs]: stores that miss the page-table
    pool leave the address map alone, and one iteration of each loop extends the
    copied prefix. *)

From S2P Require Import Prelude Tlbi Regions PageTable DescFacts PtStruct PtView Gva GvaFacts GuestCopy.

(** ** Stores outside the pool *)

Lemma frame_pool L s m :
  pt_wf L s ->
  (forall t i, pool_page L s t -> 0 <= i < 512 -> m (entry_at t i) = pt_mem s (entry_at t i)) ->
  let s' := set_mem m s in
  pt_wf L s' /\ (forall l q, (l <= 3)%nat -> ent s' l q = ent s l q).
Proof.
  intros Hwf Hm s'.
  assert (forall l q, (l <= 3)%nat -> tab s' l q = tab s l q) as Htab.
  { induction l as [|l IH]; intros q Hl; [done|]. rewrite !tab_S. unfold ent. rewrite IH by lia.
    destruct (tab s l (q / 512)) as [t|] eqn:Ht; [|done]. f_equal. apply Hm; [|by apply Z.mod_pos_bound].
    eapply (wf_page _ _ Hwf); [|exact Ht]. lia. }
  assert (forall l q, (l <= 3)%nat -> ent s' l q = ent s l q) as Hent.
  { intros l q Hl. unfold ent. rewrite Htab by done. destruct (tab s l (q / 512)) as [t|] eqn:Ht; [|done].
    apply Hm; [|by apply Z.mod_pos_bound]. by eapply (wf_page _ _ Hwf); [|exact Ht]. }
  split; [|done]. eapply (wf_transfer L s); try done; simpl.
  - destruct (wf_next _ _ Hwf). lia.
  - apply Hwf.
  - intros; apply Hent; lia.
  - intros. rewrite Hent by lia. apply Hwf.
  - apply Hwf.
Qed.

(** The slab bytes of the page-table pool. *)
Definition in_pool (g : guest_t) (a : Z) : Prop :=
  host_base g + pt_pool_base (g_layout g) <= a < host_base g + pt_pool_end (g_layout g).

Definition same_pool (g : guest_t) (m m' : mem) : Prop := forall a, in_pool g a -> m' a = m a.

#[export] Instance same_pool_preorder g : PreOrder (same_pool g).
Proof. split; [by intros m a|]. intros m1 m2 m3 H1 H2 a Ha. rewrite H2, H1; done. Qed.

Section Frame.
Context (g : guest_t) (s : guest_pt) (m : mem) (Hwf : pt_wf (g_layout g) (tables g m s)).
Context (m' : mem) (Hsame : same_pool g m m').

Lemma tables_same :
  pt_wf (g_layout g) (tables g m' s) /\ forall va, vmap (tables g m' s) va = vmap (tables g m s) va.
Proof.
  destruct (frame_pool _ _ (fun a => word64 m' (host_base g + a)) Hwf) as [Hwf' He].
  { intros t i (Hlo & Hhi & _) Hi. destruct (wf_next _ _ Hwf) as [Hn _]. cbn in Hhi, Hn |- *.
    unfold word64, entry_at. rewrite !Hsame by (unfold in_pool; lia). done. }
  split; [exact Hwf'|]. intros va. unfold vmap. rewrite <- !He by lia. done.
Qed.

Lemma haddr_same required gva : haddr g (tables g m' s) required gva = haddr g (tables g m s) required gva.
Proof. unfold haddr. by rewrite (proj2 tables_same). Qed.

Lemma tlb_same t : tlb_ok g (tables g m s) t -> tlb_ok g (tables g m' s) t.
Proof.
  intros Ht H1 H2 H3. destruct (Ht H1 H2 H3) as [A B C D E]. split; try done.
  intros i Hi. rewrite (proj2 tables_same). by apply E.
Qed.

End Frame.

(** ** The host *)

(** A faulting copy has written nothing but its destination. *)
Class HostMemLaws `{!HostMem} : Prop := {
  torn_frame m dst src len a : ~ (dst <= a < dst + len) -> torn m dst src len a = m a
}.

Definition host_fault `{!HostMem} : Prop := exists p n, bus p n = true.

(** Memory changed between [lo] and [hi] at most. *)
Definition changed_in (lo hi : Z) (m m' : mem) : Prop := forall a, ~ (lo <= a < hi) -> m' a = m a.

#[export] Instance changed_in_preorder lo hi : PreOrder (changed_in lo hi).
Proof. split; [by intros m a|]. intros m1 m2 m3 H1 H2 a Ha. rewrite H2, H1; done. Qed.

Lemma changed_in_weaken lo hi lo' hi' m m' :
  changed_in lo hi m m' -> lo' <= lo -> hi <= hi' -> changed_in lo' hi' m m'.
Proof. intros H ? ? a Ha. apply H. lia. Qed.

Lemma blit_in m dst src len i : 0 <= i < len -> blit m dst src len (dst + i) = m (src + i).
Proof.
  intros Hi. unfold blit. rewrite (proj2 (Z.leb_le _ _)), (proj2 (Z.ltb_lt _ _)) by lia. simpl. f_equal. lia.
Qed.

Lemma blit_out m dst src len : changed_in dst (dst + len) m (blit m dst src len).
Proof. intros a Ha. unfold blit. case_ifs; lia || done. Qed.

Lemma memcpy_spec `{HostMemLaws} m dst src len rc m' :
  guest_host_memcpy m dst src len = (rc, m') ->
  changed_in dst (dst + len) m m' /\ ((rc = 0 /\ m' = blit m dst src len) \/ (rc = -1 /\ host_fault)).
Proof.
  unfold guest_host_memcpy. destruct (bus dst len) eqn:E1; [|destruct (bus src len) eqn:E2]; cbn [orb];
    intros [= <- <-]; (split; [intros a Ha; (by apply torn_frame) || by apply blit_out|]); [right..|by left];
    split; try done; eexists _, _; done.
Qed.

(** ** Resolving during a copy

    All results are about the address map at the start of the copy. *)

Section Loops.
Context `{!HostMem, !HostMemLaws} (g : guest_t) (s : guest_pt) (m0 : mem).
Context (Hwf : pt_wf (g_layout g) (tables g m0 s)) (Hbk : backing_ok g).

#[local] Notation ha := (haddr g (tables g m0 s)).

Lemma resolve_at m t gva required limit :
  same_pool g m0 m -> tlb_ok g (tables g m0 s) t -> fits64 gva -> fits64 limit ->
  exists r t', gva_resolve_perm g (tables g m s) t gva true required limit = Some (r, t') /\
    tlb_ok g (tables g m0 s) t' /\ resolves g (tables g m0 s) required limit gva true r.
Proof.
  intros Hs Ht Hg Hl. destruct (tables_same g s m0 Hwf m Hs) as [Hwf' Hv].
  assert (same_pool g m m0) as Hs' by (intros a Ha; by rewrite Hs).
  destruct (resolve_spec g (tables g m s) Hwf' Hbk t gva true required limit) as (r & t' & -> & Ht' & Hr);
    [by apply (tlb_same g s m0)|done..|].
  exists r, t'. split_and!; [done|by eapply (tlb_same g s m); [|exact Hs'|]|].
  destruct r as [[h avail]|]; unfold resolves in *.
  - destruct Hr as (H1 & H2 & H3 & H4). rewrite (haddr_same g s m0 Hwf m Hs) in H1. do 3 (split; [done|]).
    intros i Hi. rewrite <- (haddr_same g s m0 Hwf m Hs). by apply H4.
  - by rewrite (haddr_same g s m0 Hwf m Hs) in Hr.
Qed.

(** A mapped byte lies below 2^48. *)
Lemma haddr_low required gva h : ha required gva = Some h -> gva < 2 ^ 48.
Proof.
  intros Hh. destruct (Z.lt_ge_cases gva (2 ^ 48)) as [|Hge]; [done|exfalso].
  set (q := gva / BLOCK_1GIB). assert (512 <= q / 512) as Hq by (unfold q, BLOCK_1GIB; zdm).
  assert (vmap (tables g m0 s) gva = None) as Hv.
  { apply vmap_no_table. fold q. pose proof (proj2 (tab_high (tables g m0 s) q _ Hq)) as E.
    by replace (q / 512 * 512 + q mod 512) with q in E by zdm. }
  unfold haddr in Hh. by rewrite Hv in Hh.
Qed.

(** Why a copy of [len] bytes fails. *)
Definition copy_fails (required gva len : Z) : Prop :=
  UINT64_MAX < gva + len \/ (exists i, 0 <= i < len /\ ha required (gva + i) = None) \/ host_fault.

(** ** Reading *)

(** The caller's buffer is neither guest memory nor part of the pool. *)
Record host_buffer (dst len : Z) : Prop := {
  hb_guest : forall x h, ha MEM_PERM_R x = Some h -> ~ (dst <= h < dst + len);
  hb_pool : forall a, dst <= a < dst + len -> ~ in_pool g a
}.

Definition read_prefix (gva dst n : Z) (m : mem) : Prop :=
  forall i, 0 <= i < n -> exists h, ha MEM_PERM_R (gva + i) = Some h /\ m (dst + i) = m0 h.

Lemma buffer_same_pool dst len m : host_buffer dst len -> changed_in dst (dst + len) m0 m -> same_pool g m0 m.
Proof. intros Hb Hc a Ha. apply Hc. intros Hin. by apply (hb_pool _ _ Hb a). Qed.

(** One more chunk. *)
Lemma read_extend gva dst len n c ptr m :
  host_buffer dst len -> changed_in dst (dst + len) m0 m -> 0 <= n -> n + c <= len ->
  read_prefix gva dst n m ->
  (forall i, 0 <= i < c -> ha MEM_PERM_R (gva + n + i) = Some (ptr + i)) ->
  read_prefix gva dst (n + c) (blit m (dst + n) ptr c).
Proof.
  intros Hb Hc Hn Hl Hp Hr i Hi. destruct (decide (i < n)) as [Hlt|Hge].
  - destruct (Hp i ltac:(lia)) as (h & Hh & Hm). exists h. split; [done|].
    rewrite <- Hm. apply blit_out. lia.
  - exists (ptr + (i - n)). rewrite <- (Hr (i - n)) by lia. split; [f_equal; lia|].
    replace (dst + i) with (dst + n + (i - n)) by lia. rewrite blit_in by lia.
    apply Hc. eapply (hb_guest _ _ Hb). apply (Hr (i - n)). lia.
Qed.

Record read_inv (gva dst len : Z) (x : copy_state) : Prop := {
  ri_n : 0 <= c_copied x <= len;
  ri_mem : changed_in dst (dst + len) m0 (c_mem x);
  ri_tlb : tlb_ok g (tables g m0 s) (c_tlb x);
  ri_read : read_prefix gva dst (c_copied x) (c_mem x)
}.

(** What reading [len] bytes at [gva] into [dst] amounts to. *)
Definition read_result (gva dst len : Z) (r : outcome) : Prop :=
  let '(rc, m, t) := r in
  changed_in dst (dst + len) m0 m /\ tlb_ok g (tables g m0 s) t /\
  ((rc = 0 /\ read_prefix gva dst len m) \/ (rc = -1 /\ copy_fails MEM_PERM_R gva len)).

Lemma read_step gva dst src len x :
  host_buffer dst len -> 0 <= gva -> gva + len <= UINT64_MAX -> read_inv gva dst len x ->
  match copy_body g s gva dst src len MEM_PERM_R x with
  | inl y => read_inv gva dst len y /\ 0 <= len - c_copied y < len - c_copied x
  | inr (Some r) => read_result gva dst len r
  | inr None => False
  end.
Proof.
  intros Hb Hg Hl. destruct x as [n m t]. intros [Hn Hm Ht Hp]. cbn in Hn, Hm, Ht, Hp. cbn [copy_body c_copied].
  unfold UINT64_MAX in Hl.
  destruct (Z.ltb_spec n len) as [Hlt|Hge].
  2:{ assert (n = len) as -> by lia. split_and!; try done. by left. }
  rewrite add64_small, !sub64_small by (unfold fits64, two64; lia).
  destruct (resolve_at m t (gva + n) MEM_PERM_R (len - n)) as (r & t' & -> & Ht' & Hr);
    [by eapply buffer_same_pool|done|unfold fits64, two64; lia..|].
  destruct r as [[ptr avail]|].
  2:{ split_and!; try done. right. split; [done|]. right. left. exists n. split; [lia|done]. }
  destruct Hr as (_ & Hav & Hpos & Hrun). specialize (Hpos eq_refl ltac:(lia)).
  assert ((if avail <? len - n then avail else len - n) = avail) as -> by (case_ifs; lia).
  cbn [MEM_PERM_R Z.eqb Pos.eqb].
  destruct (guest_host_memcpy m (dst + n) ptr avail) as [rc m'] eqn:E.
  destruct (memcpy_spec _ _ _ _ _ _ E) as [Hc [[-> ->]|[-> Hf]]]; cbn [Z.ltb Z.compare].
  - rewrite add64_small by (unfold fits64, two64; lia). split; [|cbn; lia]. split; cbn; [lia| |done|].
    + etrans; [exact Hm|]. eapply changed_in_weaken; [exact Hc|lia..].
    + by eapply read_extend; [done..|lia|lia|done|].
  - split_and!; [|done|right; split; [done|by right; right]].
    etrans; [exact Hm|]. eapply changed_in_weaken; [exact Hc|lia..].
Qed.

Lemma span_ok_spec gva len : fits64 gva -> fits64 len -> len <> 0 ->
  gva_span_ok gva len = true <-> gva + len <= UINT64_MAX.
Proof.
  intros Hg Hl Hne. unfold gva_span_ok. rewrite (proj2 (Z.eqb_neq len 0) Hne).
  unfold fits64 in *. rewrite sub64_small by (unfold fits64, UINT64_MAX, two64 in *; lia).
  rewrite Z.leb_le. lia.
Qed.

Lemma read_spec t gva dst len :
  host_buffer dst len -> fits64 gva -> fits64 len -> dst <> 0 -> tlb_ok g (tables g m0 s) t ->
  exists r, guest_read g s m0 t gva dst len = Some r /\ read_result gva dst len r.
Proof.
  intros Hb Hg Hl Hd Ht. unfold guest_read, guest_copy.
  destruct (Z.eqb_spec len 0) as [->|Hne].
  { eexists. split; [done|]. split_and!; try done. left. split; [done|]. intros i Hi. lia. }
  rewrite (proj2 (Z.eqb_neq dst 0) Hd). cbn [MEM_PERM_R MEM_PERM_W Z.eqb Pos.eqb andb orb].
  destruct (gva_span_ok gva len) eqn:Es; cbn [negb].
  2:{ eexists. split; [done|]. split_and!; try done. right. split; [done|]. left.
      destruct (Z.le_gt_cases (gva + len) UINT64_MAX) as [Hle|]; [|done].
      apply span_ok_spec in Hle; [congruence|done..]. }
  apply span_ok_spec in Es; [|done..].
  eapply (loop_rule _ (read_inv gva dst len) (fun x => len - c_copied x)).
  - intros x Hx. apply read_step; [done|apply Hg|done|done].
  - split; cbn; try done; [unfold fits64 in Hl; lia|intros i Hi; lia].
  - cbn. unfold fits64 in Hl. lia.
Qed.

Lemma read_small_spec t gva dst len :
  host_buffer dst len -> fits64 gva -> fits64 len -> dst <> 0 -> tlb_ok g (tables g m0 s) t ->
  exists r, guest_read_small g s m0 t gva dst len = Some r /\ read_result gva dst len r.
Proof.
  intros Hb Hg Hl Hd Ht. unfold guest_read_small, guest_ptr_bound.
  destruct (resolve_at m0 t gva MEM_PERM_R len) as (r & t' & -> & Ht' & Hr); [done..|]. run.
  destruct r as [[ptr avail]|]; [|by apply read_spec].
  destruct (Z.leb_spec len avail) as [Hle|]; [|by apply read_spec].
  destruct Hr as (_ & Hav & _ & Hrun).
  destruct (guest_host_memcpy m0 dst ptr len) as [rc m'] eqn:E. eexists. split; [done|].
  destruct (memcpy_spec _ _ _ _ _ _ E) as [Hc [[-> ->]|[-> Hf]]]; (split; [done|split; [done|]]).
  - left. split; [done|]. rewrite <- (Z.add_0_r dst) at 2. rewrite <- (Z.add_0_l len).
    apply (read_extend gva dst len); [done|done|lia|lia|intros i Hi; lia|].
    intros i Hi. rewrite Z.add_0_r. apply Hrun. lia.
  - right. split; [done|]. by right; right.
Qed.

(** ** Writing *)

(** Memory after the first [n] bytes of a write of [len]: only the bytes the map
    names changed, and a byte not written again holds its source byte. *)
Record wrote (gva src n len : Z) (m : mem) : Prop := {
  wr_frame : forall a, (forall i, 0 <= i < len -> ha MEM_PERM_W (gva + i) <> Some a) -> m a = m0 a;
  wr_data : forall i a, 0 <= i < n -> ha MEM_PERM_W (gva + i) = Some a ->
    (forall j, i < j < len -> ha MEM_PERM_W (gva + j) <> Some a) -> m a = m0 (src + i);
  wr_mapped : forall i, 0 <= i < n -> ha MEM_PERM_W (gva + i) <> None
}.

Lemma wrote_weaken gva src n len len' m : n <= len -> len <= len' -> wrote gva src n len m -> wrote gva src n len' m.
Proof.
  intros Hn Hl [Hf Hd Hm]. split; [|..|done].
  - intros a Ha. apply Hf. intros i Hi. apply Ha. lia.
  - intros i a Hi Ha Hj. apply Hd; [done..|]. intros j Hlt. apply Hj. lia.
Qed.

(** The source buffer is not overwritten, and no table is guest-writable. *)
Record write_buffer (gva src len : Z) : Prop := {
  wb_src : forall i h, 0 <= i < len -> ha MEM_PERM_W (gva + i) = Some h -> ~ (src <= h < src + len);
  wb_pool : forall i h, 0 <= i < len -> ha MEM_PERM_W (gva + i) = Some h -> ~ in_pool g h
}.

Lemma wrote_same_pool gva src n len m : write_buffer gva src len -> wrote gva src n len m -> same_pool g m0 m.
Proof.
  intros Hb Hw a Ha. apply (wr_frame _ _ _ _ _ Hw). intros i Hi Hh. by apply (wb_pool _ _ _ Hb i a).
Qed.

(** One more chunk, possibly torn after [k] bytes. *)
Lemma wrote_extend gva src len n c k ptr m m' :
  write_buffer gva src len -> wrote gva src n n m -> 0 <= n -> n + c <= len -> 0 <= k <= c ->
  (forall i, 0 <= i < c -> ha MEM_PERM_W (gva + n + i) = Some (ptr + i)) ->
  changed_in ptr (ptr + c) m m' -> (forall i, 0 <= i < k -> m' (ptr + i) = m (src + n + i)) ->
  wrote gva src (n + k) (n + c) m'.
Proof.
  intros Hb [Hf Hd Hm] Hn Hl Hk Hr Hout Hin. split.
  - intros a Ha. rewrite Hout; [apply Hf; intros; apply Ha; lia|]. intros Hi.
    apply (Ha (n + (a - ptr))); [lia|]. replace (gva + _) with (gva + n + (a - ptr)) by lia.
    rewrite Hr by lia. f_equal. lia.
  - intros i a Hi Ha Hj. destruct (decide (i < n)) as [Hlt|Hge].
    + assert (~ (ptr <= a < ptr + c)) as Hna.
      { intros Hin'. apply (Hj (n + (a - ptr))); [lia|]. replace (gva + _) with (gva + n + (a - ptr)) by lia.
        rewrite Hr by lia. f_equal. lia. }
      rewrite Hout by done. apply Hd; [lia|done|]. intros j Hj'. apply Hj. lia.
    + specialize (Hr (i - n) ltac:(lia)) as Hri. replace (gva + n + (i - n)) with (gva + i) in Hri by lia.
      simplify_eq. rewrite Hin by lia. replace (src + n + (i - n)) with (src + i) by lia. apply Hf.
      intros j Hj' Hh. apply (wb_src _ _ _ Hb j _ ltac:(lia) Hh). lia.
  - intros i Hi. destruct (decide (i < n)); [apply Hm; lia|].
    replace (gva + i) with (gva + n + (i - n)) by lia. by rewrite Hr by lia.
Qed.

Record write_inv (gva src len : Z) (x : copy_state) : Prop := {
  wi_n : 0 <= c_copied x <= len;
  wi_tlb : tlb_ok g (tables g m0 s) (c_tlb x);
  wi_wrote : wrote gva src (c_copied x) (c_copied x) (c_mem x)
}.

(** What writing [len] bytes from [src] at [gva] amounts to. *)
Definition write_result (gva src len : Z) (r : outcome) : Prop :=
  let '(rc, m, t) := r in
  tlb_ok g (tables g m0 s) t /\
  exists n, 0 <= n <= len /\ wrote gva src n len m /\
    ((rc = 0 /\ n = len) \/ (rc = -1 /\ copy_fails MEM_PERM_W gva len)).

Lemma wrote_nothing gva src : wrote gva src 0 0 m0.
Proof. split; [done|intros; lia..]. Qed.

(** Resolving the next byte of a write. *)
Lemma write_resolve gva src len n m t :
  write_buffer gva src len -> wrote gva src n n m -> 0 <= n < len -> tlb_ok g (tables g m0 s) t ->
  0 <= gva -> gva + n < two64 -> len < two64 ->
  exists r t', gva_resolve_perm g (tables g m s) t (gva + n) true MEM_PERM_W (len - n) = Some (r, t') /\
    tlb_ok g (tables g m0 s) t' /\
    match r with
    | Some (ptr, c) => 1 <= c <= len - n /\ (if c <? len - n then c else len - n) = c /\
        forall i, 0 <= i < c -> ha MEM_PERM_W (gva + n + i) = Some (ptr + i)
    | None => ha MEM_PERM_W (gva + n) = None
    end.
Proof.
  intros Hb Hw Hn Ht Hg Hgn Hl.
  destruct (resolve_at m t (gva + n) MEM_PERM_W (len - n)) as (r & t' & -> & Ht' & Hr);
    [|done|unfold fits64; lia..|].
  { apply (wrote_same_pool gva src n len); [done|]. eapply wrote_weaken; [| |exact Hw]; lia. }
  exists r, t'. split_and!; try done. destruct r as [[ptr c]|]; [|done].
  destruct Hr as (_ & Hc & Hpos & Hrun). specialize (Hpos eq_refl ltac:(lia)).
  split_and!; try lia; [|done]. case_ifs; lia.
Qed.

Lemma write_step gva dst src len x :
  write_buffer gva src len -> 0 <= gva -> gva + len <= UINT64_MAX -> write_inv gva src len x ->
  match copy_body g s gva dst src len MEM_PERM_W x with
  | inl y => write_inv gva src len y /\ 0 <= len - c_copied y < len - c_copied x
  | inr (Some r) => write_result gva src len r
  | inr None => False
  end.
Proof.
  intros Hb Hg Hl. destruct x as [n m t]. intros [Hn Ht Hw]. cbn in Hn, Ht, Hw. cbn [copy_body c_copied].
  unfold UINT64_MAX in Hl. assert (fits64 (gva + n) /\ fits64 (len - n)) as [? ?] by (unfold fits64, two64; lia).
  destruct (Z.ltb_spec n len) as [Hlt|Hge].
  2:{ assert (n = len) as -> by lia. split; [done|]. exists len. split; [lia|]. split; [done|by left]. }
  rewrite add64_small, !sub64_small by done.
  destruct (write_resolve gva src len n m t) as (r & t' & -> & Ht' & Hr); try done; try (unfold two64; lia).
  assert (wrote gva src n len m) as Hw' by (eapply wrote_weaken; [| |exact Hw]; lia).
  destruct r as [[ptr c]|].
  2:{ split; [done|]. exists n. split; [lia|]. split; [done|]. right. split; [done|]. right. left.
      exists n. split; [lia|done]. }
  destruct Hr as (Hc & -> & Hrun). cbn [MEM_PERM_R MEM_PERM_W Z.eqb Pos.eqb].
  destruct (guest_host_memcpy m ptr (src + n) c) as [rc m'] eqn:E.
  destruct (memcpy_spec _ _ _ _ _ _ E) as [Hch [[-> ->]|[-> Hf]]]; cbn [Z.ltb Z.compare].
  - rewrite add64_small by (unfold fits64, two64; lia). split; [|cbn; lia]. split; cbn; [lia|done|].
    eapply wrote_extend; [done|done|lia| |lia|done|done|]; [lia|]. intros i Hi. by apply blit_in.
  - split; [done|]. exists n. split_and!; try lia; [|right; split; [done|by right; right]].
    apply (wrote_weaken _ _ _ (n + c)); [lia..|]. rewrite <- (Z.add_0_r n) at 1.
    eapply wrote_extend; [done|done|lia| |lia|done|done|]; [lia|]. intros; lia.
Qed.

Lemma write_spec t gva src len :
  write_buffer gva src len -> fits64 gva -> fits64 len -> src <> 0 -> tlb_ok g (tables g m0 s) t ->
  exists r, guest_write g s m0 t gva src len = Some r /\ write_result gva src len r.
Proof.
  intros Hb Hg Hl Hd Ht. unfold guest_write, guest_copy.
  assert (wrote gva src 0 len m0) as Hw0.
  { eapply wrote_weaken; [..|apply wrote_nothing]; [lia|apply Hl]. }
  destruct (Z.eqb_spec len 0) as [->|Hne].
  { eexists. split; [done|]. split; [done|]. exists 0. split; [lia|]. split; [done|by left]. }
  rewrite (proj2 (Z.eqb_neq src 0) Hd). cbn [MEM_PERM_R MEM_PERM_W Z.eqb Pos.eqb andb orb].
  destruct (gva_span_ok gva len) eqn:Es; cbn [negb].
  2:{ eexists. split; [done|]. split; [done|]. exists 0. unfold fits64 in Hl. split; [lia|].
      split; [done|]. right. split; [done|]. left. destruct (Z.le_gt_cases (gva + len) UINT64_MAX) as [Hle|]; [|done].
      apply span_ok_spec in Hle; [congruence|done..]. }
  apply span_ok_spec in Es; [|done..]. unfold fits64 in Hg, Hl.
  eapply (loop_rule _ (write_inv gva src len) (fun x => len - c_copied x)).
  - intros x Hx. apply write_step; [done|lia|done|done].
  - split; cbn; try done; [lia|]. apply wrote_nothing.
  - cbn. lia.
Qed.

Lemma write_small_spec t gva src len :
  write_buffer gva src len -> fits64 gva -> fits64 len -> src <> 0 -> tlb_ok g (tables g m0 s) t ->
  exists r, guest_write_small g s m0 t gva src len = Some r /\ write_result gva src len r.
Proof.
  intros Hb Hg Hl Hd Ht. unfold guest_write_small, guest_ptr_bound.
  destruct (resolve_at m0 t gva MEM_PERM_W len) as (r & t' & -> & Ht' & Hr); [done..|]. run.
  destruct r as [[ptr avail]|]; [|by apply write_spec].
  destruct (Z.leb_spec len avail) as [Hle|]; [|by apply write_spec].
  destruct Hr as (_ & Hav & _ & Hrun). unfold fits64 in Hl.
  assert (forall k m', 0 <= k <= len -> changed_in ptr (ptr + len) m0 m' ->
    (forall i, 0 <= i < k -> m' (ptr + i) = m0 (src + i)) -> wrote gva src k len m') as Hw.
  { intros k m' Hk Hc Hm. apply (wrote_extend gva src len 0 len k ptr m0); [done|apply wrote_nothing|lia..| |done|].
    - intros i Hi. rewrite Z.add_0_r. apply Hrun. lia.
    - intros i Hi. rewrite Z.add_0_r. by apply Hm. }
  destruct (guest_host_memcpy m0 ptr src len) as [rc m'] eqn:E. eexists. split; [done|]. split; [done|].
  destruct (memcpy_spec _ _ _ _ _ _ E) as [Hc [[-> ->]|[-> Hf]]].
  - exists len. split_and!; [lia..| |by left]. apply Hw; [lia|done|]. intros. by apply blit_in.
  - exists 0. split_and!; [lia..| |right; split; [done|by right; right]]. apply Hw; [lia|done|]. intros; lia.
Qed.

(** ** Partial writes *)

Lemma copy_unit_bounds dst src len done : done < len -> 1 <= copy_unit dst src len done <= len - done.
Proof.
  intros Hlt. unfold copy_unit, GUEST_PAGE_SIZE. change (4096 - 1) with (Z.ones 12).
  rewrite !Z.land_ones by lia. change (2 ^ 12) with 4096.
  pose proof (Z.mod_pos_bound (dst + done) 4096 ltac:(lia)).
  pose proof (Z.mod_pos_bound (src + done) 4096 ltac:(lia)).
  destruct (Z.ltb_spec (4096 - (dst + done) mod 4096) (4096 - (src + done) mod 4096)); case_ifs; lia.
Qed.

Record partial_inv (dst src len : Z) (m : mem) (x : Z * mem) : Prop := {
  pi_n : 0 <= fst x <= len;
  pi_frame : changed_in dst (dst + len) m (snd x);
  pi_data : forall i, 0 <= i < fst x -> snd x (dst + i) = m (src + i)
}.

Lemma copy_partial_spec m dst src len :
  0 <= len -> (forall i, 0 <= i < len -> ~ (dst <= src + i < dst + len)) ->
  exists r, guest_host_copy_partial m dst src len = Some r /\
    partial_inv dst src len m r /\ (fst r < len -> host_fault).
Proof.
  intros Hl Hdis.
  eapply (loop_rule _ (partial_inv dst src len m) (fun x => len - fst x)); [|split; cbn; try done; lia|cbn; lia].
  intros [n m'] [Hn Hf Hd]. cbn in Hn, Hf, Hd. cbn [copy_partial_body fst].
  destruct (Z.ltb_spec n len) as [Hlt|]; [|split; [done|cbn; lia]].
  pose proof (copy_unit_bounds dst src len n Hlt). set (u := copy_unit dst src len n) in *. clearbody u.
  destruct (bus (dst + n) u || bus (src + n) u) eqn:Eb.
  - split; [|intros _; cbn; apply orb_prop in Eb as [?|?]; by eexists _, _]. split; cbn; [lia| |].
    + intros a Ha. rewrite torn_frame by lia. by apply Hf.
    + intros i Hi. rewrite torn_frame by lia. by apply Hd.
  - split; [|cbn; lia]. split; cbn; [lia| |].
    + intros a Ha. rewrite (blit_out m' (dst + n) (src + n) u) by lia. by apply Hf.
    + intros i Hi. destruct (decide (i < n)).
      { rewrite (blit_out m' (dst + n) (src + n) u) by lia. apply Hd. lia. }
      replace (dst + i) with (dst + n + (i - n)) by lia. rewrite blit_in by lia.
      rewrite Hf by (replace (src + n + (i - n)) with (src + i) by lia; apply Hdis; lia). f_equal. lia.
Qed.

(** Bytes reported, all of them in guest memory; a short count has a cause. *)
Definition partial_result (gva src len : Z) (r : outcome) : Prop :=
  let '(n, m, t) := r in
  0 <= n <= len /\ tlb_ok g (tables g m0 s) t /\ wrote gva src n len m /\
  (n < len -> ha MEM_PERM_W (gva + n) = None \/ host_fault).

Definition write_partial_inv (gva src len : Z) (x : copy_state) : Prop :=
  write_inv gva src len x /\ gva + c_copied x < two64.

Lemma write_partial_step gva src len x :
  write_buffer gva src len -> 0 <= gva -> fits64 len -> write_partial_inv gva src len x ->
  match write_partial_body g s gva src len x with
  | inl y => write_partial_inv gva src len y /\ 0 <= len - c_copied y < len - c_copied x
  | inr (Some r) => partial_result gva src len r
  | inr None => False
  end.
Proof.
  intros Hb Hg Hl. destruct x as [n m t]. intros [[Hn Ht Hw] Hgn]. cbn in Hn, Ht, Hw, Hgn.
  cbn [write_partial_body c_copied]. unfold fits64 in Hl.
  assert (fits64 (gva + n) /\ fits64 (len - n)) as [? ?] by (unfold fits64, two64 in *; lia).
  assert (wrote gva src n len m) as Hw' by (eapply wrote_weaken; [| |exact Hw]; lia).
  destruct (Z.ltb_spec n len) as [Hlt|Hge].
  2:{ split; [lia|]. split; [done|]. split; [done|lia]. }
  rewrite add64_small, !sub64_small by done.
  destruct (write_resolve gva src len n m t) as (r & t' & -> & Ht' & Hr); try done; try lia.
  destruct r as [[ptr c]|].
  2:{ split; [lia|]. split; [done|]. split; [done|]. by left. }
  destruct Hr as (Hc & -> & Hrun).
  destruct (copy_partial_spec m ptr (src + n) c) as ([k m'] & -> & [Hk Hf Hd] & Hflt); [lia| |].
  { intros i Hi Hin. apply (wb_src _ _ _ Hb (n + (src + n + i - ptr)) (src + n + i)); [lia| |lia].
    replace (gva + _) with (gva + n + (src + n + i - ptr)) by lia. rewrite Hrun by lia. f_equal. lia. }
  cbn in Hk, Hf, Hd, Hflt. assert (wrote gva src (n + k) (n + c) m') as Hwk.
  { eapply wrote_extend; [done|done|lia|lia|done|done|done|done]. }
  rewrite add64_small by (unfold fits64; lia).
  destruct (Z.ltb_spec k c) as [Hkc|].
  - split; [lia|]. split; [done|]. split; [|intros; right; by apply Hflt].
    apply (wrote_weaken _ _ _ (n + c)); [lia..|done].
  - assert (k = c) as -> by lia. split; [|cbn; lia]. split; [split; cbn; [lia|done|done]|]. cbn.
    pose proof (haddr_low _ _ _ (Hrun (c - 1) ltac:(lia))). unfold two64. lia.
Qed.

Lemma write_partial_spec t gva src len :
  write_buffer gva src len -> fits64 gva -> fits64 len -> tlb_ok g (tables g m0 s) t ->
  exists r, guest_write_partial g s m0 t gva src len = Some r /\ partial_result gva src len r.
Proof.
  intros Hb Hg Hl Ht. unfold fits64 in Hg.
  eapply (loop_rule _ (write_partial_inv gva src len) (fun x => len - c_copied x)).
  - intros x Hx. apply write_partial_step; [done|lia|done|done].
  - split; [|cbn; lia]. split; cbn; [unfold fits64 in Hl; lia|done|]. apply wrote_nothing.
  - cbn. unfold fits64 in Hl. lia.
Qed.

(** ** Strings *)

Lemma memchr0_spec m p n :
  match memchr0 m p n with
  | Some k => 0 <= k < Z.of_nat n /\ m (p + k) = 0 /\ forall i, 0 <= i < k -> m (p + i) <> 0
  | None => forall i, 0 <= i < Z.of_nat n -> m (p + i) <> 0
  end.
Proof.
  revert p. induction n as [|n IH]; intros p; cbn [memchr0]; [intros; lia|].
  destruct (Z.eqb_spec (m p) 0) as [Hz0|Hz0].
  { rewrite Z.add_0_r. split_and!; [lia..|done|intros; lia]. }
  assert (forall i, 0 <= i -> i <> 0 -> p + i = p + 1 + (i - 1)) as Hs by (intros; lia).
  specialize (IH (p + 1)). destruct (memchr0 m (p + 1) n) as [k|]; cbn [option_map].
  - destruct IH as (Hk & Hz & Hn). split_and!; [lia..| |].
    + by replace (p + (1 + k)) with (p + 1 + k) by lia.
    + intros i Hi. destruct (decide (i = 0)) as [->|]; [by rewrite Z.add_0_r|]. rewrite Hs by lia. apply Hn. lia.
  - intros i Hi. destruct (decide (i = 0)) as [->|]; [by rewrite Z.add_0_r|]. rewrite Hs by lia. apply IH. lia.
Qed.

(** The first [n] bytes at [gva] are readable and not zero. *)
Definition nonzero_prefix (gva n : Z) : Prop :=
  forall i, 0 <= i < n -> exists h, ha MEM_PERM_R (gva + i) = Some h /\ m0 h <> 0.

(** The string at [gva] has length [n] and its bytes, the zero included, are in
    the buffer. *)
Definition string_at (gva dst n : Z) (m : mem) : Prop :=
  nonzero_prefix gva n /\ read_prefix gva dst (n + 1) m /\
  exists h, ha MEM_PERM_R (gva + n) = Some h /\ m0 h = 0.

(** No string ends within the first [limit] readable bytes. *)
Definition no_string (gva limit : Z) : Prop :=
  exists c, 0 <= c <= limit /\ nonzero_prefix gva c /\ (c = limit \/ ha MEM_PERM_R (gva + c) = None).

Definition str_result (gva dst max : Z) (r : outcome) : Prop :=
  let '(rc, m, t) := r in
  changed_in dst (dst + max) m0 m /\ tlb_ok g (tables g m0 s) t /\
  ((0 <= rc < max - 1 /\ string_at gva dst rc m) \/
   ((exists c, 0 <= c < max /\ m (dst + c) = 0) /\
    ((rc = -1 /\ no_string gva (max - 1)) \/ (rc = -2 /\ host_fault)))).

Definition str_inv (gva dst max : Z) (x : copy_state) : Prop :=
  read_inv gva dst max x /\ c_copied x <= max - 1 /\ nonzero_prefix gva (c_copied x).

Definition str_post (gva dst max : Z) (r : str_exit * mem * gva_tlb_t) : Prop :=
  let '(e, m, t) := r in
  changed_in dst (dst + max) m0 m /\ tlb_ok g (tables g m0 s) t /\
  match e with
  | StrFound n => 0 <= n < max - 1 /\ string_at gva dst n m
  | StrBreak c true => 0 <= c <= max - 1 /\ host_fault
  | StrBreak c false => 0 <= c <= max - 1 /\ no_string gva (max - 1)
  end.

(** Searching and copying a chunk that resolves to [ptr]. *)
Lemma chunk_search gva dst max n c ptr m :
  host_buffer dst max -> changed_in dst (dst + max) m0 m -> 0 <= n -> 0 <= c -> n + c <= max ->
  nonzero_prefix gva n -> read_prefix gva dst n m ->
  (forall i, 0 <= i < c -> ha MEM_PERM_R (gva + n + i) = Some (ptr + i)) ->
  match memchr0 m ptr (Z.to_nat c) with
  | Some k => 0 <= k < c /\ string_at gva dst (n + k) (blit m (dst + n) ptr (k + 1))
  | None => nonzero_prefix gva (n + c) /\ read_prefix gva dst (n + c) (blit m (dst + n) ptr c)
  end.
Proof.
  intros Hb Hm Hn Hc Hnc Hz Hp Hrun.
  assert (forall i, 0 <= i < c -> m (ptr + i) = m0 (ptr + i)) as Hsame.
  { intros i Hi. apply Hm. eapply (hb_guest _ _ Hb). by apply Hrun. }
  assert (forall k, k <= c -> (forall i, 0 <= i < k -> m (ptr + i) <> 0) -> nonzero_prefix gva (n + k)) as Hext.
  { intros k Hk Hnz i Hi. destruct (decide (i < n)); [apply Hz; lia|]. exists (ptr + (i - n)).
    rewrite <- Hrun, <- Hsame by lia. split; [f_equal; lia|apply Hnz; lia]. }
  pose proof (memchr0_spec m ptr (Z.to_nat c)) as Hs. rewrite Z2Nat.id in Hs by done.
  destruct (memchr0 m ptr (Z.to_nat c)) as [k|].
  - destruct Hs as (Hk & Hk0 & Hnz). split; [done|]. split_and!.
    + apply Hext; [lia|done].
    + rewrite <- Z.add_assoc. apply (read_extend gva dst max); try done; try lia. intros i Hi. apply Hrun. lia.
    + exists (ptr + k). rewrite Z.add_assoc, Hrun, <- Hsame by lia. done.
  - split; [by apply Hext|]. by apply (read_extend gva dst max).
Qed.

Lemma str_step gva dst max x :
  host_buffer dst max -> fits64 gva -> 1 <= max < two64 -> str_inv gva dst max x ->
  match read_str_body g s gva dst (max - 1) x with
  | inl y => str_inv gva dst max y /\ 0 <= max - 1 - c_copied y < max - 1 - c_copied x
  | inr (Some r) => str_post gva dst max r
  | inr None => False
  end.
Proof.
  intros Hb Hg Hmax. destruct x as [n m t]. intros [[Hn Hm Ht Hp] [Hl Hz]]. cbn in Hn, Hm, Ht, Hp, Hl, Hz.
  cbn [read_str_body c_copied]. unfold fits64 in Hg.
  assert (forall t', tlb_ok g (tables g m0 s) t' -> n = max - 1 \/ ha MEM_PERM_R (gva + n) = None ->
    str_post gva dst max (StrBreak n false, m, t')) as Hstop.
  { intros t' Ht' Hc. split; [done|]. split; [done|]. split; [lia|]. exists n. split; [lia|done]. }
  destruct (Z.ltb_spec n (max - 1)) as [Hlt|]; [|apply Hstop; [done|left; lia]].
  rewrite (sub64_small UINT64_MAX), !(sub64_small (max - 1)) by (unfold fits64, two64, UINT64_MAX in *; lia).
  destruct (Z.ltb_spec (UINT64_MAX - n) gva) as [Hov|Hov].
  { apply Hstop; [done|]. right. destruct (ha MEM_PERM_R (gva + n)) as [h|] eqn:E; [|done].
    apply haddr_low in E. unfold UINT64_MAX in Hov. lia. }
  rewrite add64_small by (unfold fits64, UINT64_MAX, two64 in *; lia).
  destruct (resolve_at m t (gva + n) MEM_PERM_R (max - 1 - n)) as (r & t' & -> & Ht' & Hr);
    [by eapply buffer_same_pool|done|unfold fits64, UINT64_MAX, two64 in *; lia..|].
  destruct r as [[ptr c]|]; [|apply Hstop; [done|by right]].
  destruct Hr as (_ & Hc & Hpos & Hrun). specialize (Hpos eq_refl ltac:(lia)).
  assert ((if c <? max - 1 - n then c else max - 1 - n) = c) as -> by (case_ifs; lia).
  assert (forall m', changed_in (dst + n) (dst + n + c) m m' -> changed_in dst (dst + max) m0 m') as Hch.
  { intros m' Hm'. etrans; [exact Hm|]. eapply changed_in_weaken; [exact Hm'|lia..]. }
  unfold guest_host_memchr. destruct (bus ptr c) eqn:Eb.
  { split; [done|]. split; [done|]. split; [lia|]. by eexists _, _. }
  pose proof (chunk_search gva dst max n c ptr m Hb Hm) as Hs.
  do 6 (specialize (Hs ltac:(lia || done))).
  destruct (memchr0 m ptr (Z.to_nat c)) as [k|].
  - destruct Hs as [Hk Hstr]. rewrite (add64_small k) by (unfold fits64; lia).
    destruct (guest_host_memcpy m (dst + n) ptr (k + 1)) as [rc m'] eqn:E.
    destruct (memcpy_spec _ _ _ _ _ _ E) as [Hc' Hrc].
    specialize (Hch m' ltac:(eapply changed_in_weaken; [exact Hc'|lia..])).
    destruct Hrc as [[-> ->]|[-> Hf]]; cbn [Z.ltb Z.compare]; (split; [done|split; [done|]]); [|split; [lia|done]].
    rewrite add64_small by (unfold fits64; lia). split; [lia|done].
  - destruct Hs as [Hz' Hp'].
    destruct (guest_host_memcpy m (dst + n) ptr c) as [rc m'] eqn:E.
    destruct (memcpy_spec _ _ _ _ _ _ E) as [Hc' [[-> ->]|[-> Hf]]]; cbn [Z.ltb Z.compare]; specialize (Hch _ Hc').
    + rewrite add64_small by (unfold fits64; lia). split; [|cbn; lia].
      split; [split; cbn; [lia|done..]|cbn; split; [lia|done]].
    + split; [done|]. split; [done|]. split; [lia|done].
Qed.

Lemma int_cast_small x : 0 <= x < 2 ^ 31 -> int_cast x = x.
Proof. intros. unfold int_cast. rewrite Z.mod_small by lia. lia. Qed.

Lemma terminate_spec dst max c m : changed_in dst (dst + max) m0 m -> 0 <= c < max ->
  changed_in dst (dst + max) m0 (store_byte m (dst + c) 0) /\
  exists k, 0 <= k < max /\ store_byte m (dst + c) 0 (dst + k) = 0.
Proof.
  intros Hm Hc. unfold store_byte. split.
  - intros a Ha. destruct (Z.eqb_spec a (dst + c)); [lia|by apply Hm].
  - exists c. by rewrite Z.eqb_refl.
Qed.

Lemma read_str_spec t gva dst max :
  host_buffer dst max -> fits64 gva -> 1 <= max <= 2 ^ 31 -> tlb_ok g (tables g m0 s) t ->
  exists r, guest_read_str g s m0 t gva dst max = Some r /\ str_result gva dst max r.
Proof.
  intros Hb Hg Hmax Ht. unfold guest_read_str. rewrite (proj2 (Z.eqb_neq max 0)) by lia.
  rewrite sub64_small by (unfold fits64, two64; lia).
  destruct (loop_rule (read_str_body g s gva dst (max - 1)) (str_inv gva dst max) (fun x => max - 1 - c_copied x)
    (str_post gva dst max)) with (n := max - 1 + 1) (x := mk_copy 0 m0 t) as ([[e m] t'] & -> & Hm & Ht' & He).
  - intros x Hx. apply str_step; [done|done|unfold two64; lia|done].
  - split; [split; cbn; try done; [lia|intros i Hi; lia]|]. cbn. split; [lia|intros i Hi; lia].
  - cbn. lia.
  - run. destruct e as [n|c f].
    + destruct He as [Hn Hstr]. eexists. split; [done|]. split; [done|]. split; [done|]. left.
      by rewrite int_cast_small by lia.
    + eexists. split; [done|]. assert (0 <= c < max) as Hc by (destruct f, He; lia).
      destruct (terminate_spec _ _ _ _ Hm Hc) as [Hm' Hz].
      split; [done|]. split; [done|]. right. split; [done|]. destruct f, He; [right|left]; done.
Qed.

Lemma read_str_small_spec t gva dst max :
  host_buffer dst max -> fits64 gva -> 1 <= max <= 2 ^ 31 -> tlb_ok g (tables g m0 s) t ->
  exists r, guest_read_str_small g s m0 t gva dst max = Some r /\ str_result gva dst max r.
Proof.
  intros Hb Hg Hmax Ht. unfold guest_read_str_small. rewrite (proj2 (Z.eqb_neq max 0)) by lia.
  rewrite sub64_small by (unfold fits64, two64; lia). unfold guest_ptr_bound.
  destruct (resolve_at m0 t gva MEM_PERM_R (max - 1)) as (r & t' & -> & Ht' & Hr);
    [done..|unfold fits64, two64; lia|]. run.
  destruct r as [[ptr avail]|]; [|by apply read_str_spec].
  destruct (Z.leb_spec (max - 1) avail) as [Hle|]; [|by apply read_str_spec].
  destruct Hr as (_ & Hav & _ & Hrun). unfold guest_host_memchr.
  assert (forall m', changed_in dst (dst + max) m0 m' -> host_fault ->
    str_result gva dst max (-2, store_byte m' dst 0, t')) as Hflt.
  { intros m' Hm' Hf. rewrite <- (Z.add_0_r dst) at 2.
    destruct (terminate_spec dst max 0 m' Hm' ltac:(lia)) as [Hm'' Hz].
    split; [done|]. split; [done|]. right. split; [done|by right]. }
  destruct (bus ptr (max - 1)) eqn:Eb.
  { eexists. split; [done|]. apply Hflt; [done|by eexists _, _]. }
  pose proof (chunk_search gva dst max 0 (max - 1) ptr m0 Hb) as Hs. rewrite !Z.add_0_r in Hs.
  do 6 (specialize (Hs ltac:(lia || done || (intros i Hi; lia)))). specialize (Hs ltac:(intros i Hi; apply Hrun; lia)).
  destruct (memchr0 m0 ptr (Z.to_nat (max - 1))) as [k|]; [|by apply read_str_spec].
  destruct Hs as [Hk Hstr]. rewrite Z.add_0_l in Hstr. rewrite add64_small by (unfold fits64, two64; lia).
  destruct (guest_host_memcpy m0 dst ptr (k + 1)) as [rc m'] eqn:E.
  destruct (memcpy_spec _ _ _ _ _ _ E) as [Hc' Hrc].
  assert (changed_in dst (dst + max) m0 m') as Hm' by (eapply changed_in_weaken; [exact Hc'|lia..]).
  destruct Hrc as [[-> ->]|[-> Hf]]; cbn [Z.ltb Z.compare]; eexists; (split; [done|]); [|by apply Hflt].
  split; [done|]. split; [done|]. left. rewrite int_cast_small by lia. done.
Qed.

End Loops.
