(* ===== verification/CopySpecs.v ===== *)
(** * What the guest-pointer accessors promise

    The theorems every system call that touches a guest pointer relies on, with
    the tables of a small guest laid out in host memory as witness. *)

From S2P Require Import Prelude Tlbi Regions PageTable DescFacts PtStruct PtView PtOps PtPages PtSpecs.
From S2P Require Import Gva GvaFacts GuestCopy CopyFacts.

(** ** A concrete guest in host memory *)

(** A host that never faults. *)
Module QuietHost.
#[export] Instance quiet : HostMem := { bus := fun _ _ => false; torn := fun m _ _ _ => m }.
#[export] Instance quiet_laws : HostMemLaws.
Proof. by split. Qed.
End QuietHost.
Import QuietHost.

(** The bytes of the table words, little-endian, and [d] elsewhere. *)
Definition lay_out (g : guest_t) (s : guest_pt) (d : mem) : mem :=
  fun a =>
    let o := a - host_base g in
    if (pt_pool_base (g_layout g) <=? o) && (o <? pt_pool_end (g_layout g))
    then (pt_mem s (o - o mod 8) / 256 ^ (o mod 8)) mod 256 else d a.

(** As [probe], for an observation that is a tuple. *)
Tactic Notation "observe" constr(E) constr(f) constr(v) "as" ident(X) :=
  lazymatch type of E with
  | ?run = Some ?r =>
      assert (option_map f run = Some v) as X by (vm_compute; reflexivity);
      rewrite E in X; cbn [option_map] in X; apply (inj Some) in X
  end.

Lemma digit x n : 0 < n -> x mod 256 + 256 * ((x / 256) mod n) = x mod (256 * n).
Proof. intros. symmetry. by apply Z.rem_mul_r. Qed.

Lemma word64_digits m a x :
  (forall k, 0 <= k < 8 -> m (a + k) = (x / 256 ^ k) mod 256) -> word64 m a = x mod two64.
Proof.
  intros H. unfold word64. rewrite <- (Z.add_0_r a) at 1. rewrite !H by lia.
  change (256 ^ 0) with 1. change (256 ^ 1) with 256. rewrite Z.div_1_r.
  assert (forall k, (0 <=? k) = true -> x / 256 ^ (k + 1) = x / 256 ^ k / 256) as Hd.
  { intros k Hk%Z.leb_le. rewrite Z.pow_add_r, Z.div_div by lia. done. }
  rewrite (Hd 6 eq_refl : x / 256 ^ 7 = _), (Hd 5 eq_refl : x / 256 ^ 6 = _), (Hd 4 eq_refl : x / 256 ^ 5 = _),
    (Hd 3 eq_refl : x / 256 ^ 4 = _), (Hd 2 eq_refl : x / 256 ^ 3 = _), (Hd 1 eq_refl : x / 256 ^ 2 = _).
  change (256 ^ 1) with 256. clear.
  rewrite !digit by lia. done.
Qed.

Lemma lay_out_wf g s d :
  pt_wf (g_layout g) s ->
  (forall a, pt_pool_base (g_layout g) <= a < pt_pool_end (g_layout g) -> a mod 8 = 0 -> fits64 (pt_mem s a)) ->
  pt_wf (g_layout g) (tables g (lay_out g s d) s) /\
  forall va, vmap (tables g (lay_out g s d) s) va = vmap s va.
Proof.
  intros Hwf Hf.
  destruct (frame_pool (g_layout g) s (fun a => word64 (lay_out g s d) (host_base g + a)) Hwf) as [Hwf' He].
  { intros t i (Hlo & Hhi & Hal) Hi. destruct (wf_next _ _ Hwf) as [Hn _].
    unfold entry_at. set (a := t + 8 * i).
    assert (pt_pool_base (g_layout g) <= a /\ a + 8 <= pt_pool_end (g_layout g) /\ a mod 8 = 0) as (Ha1 & Ha2 & Ha3).
    { unfold a. split_and!; [lia|lia|]. clear -Hal. zdm. }
    rewrite (word64_digits _ _ (pt_mem s a)); [apply wrap64_small, Hf; [lia|done]|]. intros k Hk. unfold lay_out.
    replace (host_base g + a + k - host_base g) with (a + k) by lia.
    rewrite (proj2 (Z.leb_le _ _)), (proj2 (Z.ltb_lt _ _)) by lia. cbn [andb].
    assert ((a + k) mod 8 = k) as -> by (clear -Ha3 Hk; zdm). do 3 f_equal. lia. }
  split; [exact Hwf'|]. intros va. unfold vmap. rewrite <- !He by lia. done.
Qed.

Lemma pool_words_fit L s :
  pt_pool_base L mod 8 = 0 ->
  forallb (fun k => let v := pt_mem s (pt_pool_base L + 8 * Z.of_nat k) in (0 <=? v) && (v <? two64))
    (seq 0 (Z.to_nat ((pt_pool_end L - pt_pool_base L + 7) / 8))) = true ->
  forall a, pt_pool_base L <= a < pt_pool_end L -> a mod 8 = 0 -> fits64 (pt_mem s a).
Proof.
  intros Hb H a Ha Hal. rewrite forallb_forall in H.
  assert (a = pt_pool_base L + 8 * ((a - pt_pool_base L) / 8)) as E by zdm.
  specialize (H (Z.to_nat ((a - pt_pool_base L) / 8)) ltac:(apply in_seq; zdm)). cbv zeta in H.
  rewrite Z2Nat.id, <- E in H by zdm. unbool. unfold fits64. lia.
Qed.

(** The guest of [PtSpecs] with its slab at 4 GiB: the string "hi" at guest
    address 4 MiB, and two bytes 7, 8 in a host buffer at 8192. *)
Definition ex_guest : guest_t := mk_guest 1 ex_layout 4294967296 [] [] 67108864.

Definition ex_data : mem := fun a =>
  if a =? 4299161600 then 104 else if a =? 4299161601 then 105
  else if a =? 8192 then 7 else if a =? 8193 then 8 else 0.

Definition ex_mem : mem := lay_out ex_guest ex_pt1 ex_data.
Definition ex_tables : guest_pt := tables ex_guest ex_mem ex_pt1.
Definition ex_tlb : gva_tlb_t := mk_gva_tlb 0 0 0 0 0 0.

Lemma ex_tables_wf : pt_wf ex_layout ex_tables.
Proof.
  apply (lay_out_wf ex_guest ex_pt1 ex_data ex_pt1_wf). apply pool_words_fit; [done|]. vm_compute. reflexivity.
Qed.

Lemma ex_backing_ok : backing_ok ex_guest.
Proof. split; cbn; [lia|by intros r ?%elem_of_nil|done]. Qed.

Lemma ex_tlb_ok : tlb_ok ex_guest ex_tables ex_tlb.
Proof. intros H. exfalso. apply H. reflexivity. Qed.

(** Without extra ranges a guest access stays in the slab. *)
Lemma haddr_slab g s required gva h :
  mappings g = [] -> overflow g = [] -> haddr g s required gva = Some h ->
  host_base g <= h < host_base g + guest_size (g_layout g).
Proof.
  intros Hm Ho. unfold haddr, backing, guest_find_mapping, guest_find_overflow. rewrite Hm, Ho. cbn [List.find].
  destruct (vmap s gva) as [[gpa p]|] eqn:Hv; [|done]. destruct (grants p required); [|done].
  assert (0 <= gpa) as Hp.
  { unfold vmap in Hv. pose proof (page_addr_range (ent s 3 (gva / PAGE_SIZE))).
    pose proof (block_addr_range (ent s 2 (gva / BLOCK_2MIB))).
    pose proof (Z.mod_pos_bound gva PAGE_SIZE ltac:(done)). pose proof (Z.mod_pos_bound gva BLOCK_2MIB ltac:(done)).
    revert Hv. case_ifs; intros; simplify_eq; lia. }
  destruct (Z.ltb_spec gpa (guest_size (g_layout g))).
  - intros. simplify_eq. lia.
  - done.
Qed.

Lemma ex_host_buffer dst len : 0 <= dst -> dst + len <= 4294967296 -> host_buffer ex_guest ex_pt1 ex_mem dst len.
Proof.
  intros Hd Hl. split.
  - intros x h Hh. apply haddr_slab in Hh; [|done..]. cbn in Hh. lia.
  - intros a Ha. unfold in_pool. cbn. lia.
Qed.

(** ** Translation *)

(** C31: the guest-pointer walk, cache included, refines the address map: it
    never aborts; a translation it returns names a run of bytes that the tables
    map contiguously with the permissions asked for, at least one and up to a
    page boundary, and never EL1-only memory; it refuses an address only when no
    such backed mapping exists; and the cache it leaves is again valid. *)
Theorem gva_translate_perm_correct (g : guest_t) (s : guest_pt) (t : gva_tlb_t) (gva required : Z) :
  pt_wf (g_layout g) s -> tlb_ok g s t -> fits64 gva ->
  exists r t', gva_translate_perm g s t gva required = Some (r, t') /\
    tlb_ok g s t' /\ translates g s required gva r.
Proof. intros Hwf. by apply translate_spec. Qed.

(** A first walk fills the cache, the second access hits it. *)
Lemma gva_translate_perm_correct_witness :
  exists t, gva_translate_perm ex_guest ex_tables ex_tlb 4194305 MEM_PERM_W = Some (Some (4194305, 2097151), t) /\
    tlb_ok ex_guest ex_tables t /\ tlb_hit ex_guest (pt_gen ex_tables) t 4194400 MEM_PERM_R = true.
Proof.
  destruct (gva_translate_perm_correct ex_guest ex_tables ex_tlb 4194305 MEM_PERM_W ex_tables_wf ex_tlb_ok)
    as (r & t & E & Ht & _); [done|].
  exists t. observe E (fun x : option (Z * Z) * gva_tlb_t => (fst x, tlb_hit ex_guest (pt_gen ex_tables) (snd x) 4194400 1))
    (Some (4194305, 2097151), true) as X. cbn [fst snd] in X. apply pair_eq in X as [Hr Hh].
  split; [rewrite Hr in E; exact E|]. split; [exact Ht|exact Hh].
Defined.

(** a host pointer handed out for a guest address is the right one: it is the
    host address of that guest byte, and every byte of the extent reported with
    it (at least one when the caller asked for one, never more than asked) is
    the byte the tables map there, inside a single backing region; NULL is
    returned exactly when the first byte is not accessible. *)
Theorem gva_resolve_perm_correct (g : guest_t) (s : guest_pt) (t : gva_tlb_t) (gva : Z) (want : bool)
    (required limit : Z) :
  pt_wf (g_layout g) s -> backing_ok g -> tlb_ok g s t -> fits64 gva -> fits64 limit ->
  exists r t', gva_resolve_perm g s t gva want required limit = Some (r, t') /\
    tlb_ok g s t' /\ resolves g s required limit gva want r.
Proof. intros Hwf Hbk. by apply resolve_spec. Qed.

(** An extent over two blocks, cut at the end of the mapped range. *)
Lemma gva_resolve_perm_correct_witness :
  exists t, gva_resolve_perm ex_guest ex_tables ex_tlb 4194305 true MEM_PERM_R UINT64_MAX
            = Some (Some (4299161601, 8388607), t) /\ tlb_ok ex_guest ex_tables t.
Proof.
  destruct (gva_resolve_perm_correct ex_guest ex_tables ex_tlb 4194305 true MEM_PERM_R UINT64_MAX
              ex_tables_wf ex_backing_ok ex_tlb_ok) as (r & t & E & Ht & _); [done..|].
  exists t. probe E (fun x : option (Z * Z) * gva_tlb_t => fst x) (Some (4299161601, 8388607)) as Hr.
  cbn [fst] in Hr. split; [rewrite Hr in E; exact E|exact Ht].
Defined.

(** ** Copies *)

(** C33: reading guest memory, in the looping and in the single-pointer form,
    returns on every input, changes nothing but the destination buffer, and
    either delivers exactly the bytes the address map names, all of them
    readable by the guest, or fails because the range wraps, a byte of it is not
    readable, or a host page vanished. *)
Theorem guest_read_correct `{!HostMem, !HostMemLaws} (g : guest_t) (s : guest_pt) (m : mem) (t : gva_tlb_t)
    (gva dst len : Z) :
  pt_wf (g_layout g) (tables g m s) -> backing_ok g -> tlb_ok g (tables g m s) t ->
  host_buffer g s m dst len -> fits64 gva -> fits64 len -> dst <> 0 ->
  (exists r, guest_read g s m t gva dst len = Some r /\ read_result g s m gva dst len r) /\
  (exists r, guest_read_small g s m t gva dst len = Some r /\ read_result g s m gva dst len r).
Proof. intros. split; [by apply read_spec|by apply read_small_spec]. Qed.

Lemma guest_read_correct_witness :
  exists m t, guest_read ex_guest ex_pt1 ex_mem ex_tlb 4194304 4096 3 = Some (0, m, t) /\
    m 4096 = 104 /\ m 4097 = 105 /\ m 4098 = 0.
Proof.
  destruct (guest_read_correct ex_guest ex_pt1 ex_mem ex_tlb 4194304 4096 3 ex_tables_wf ex_backing_ok ex_tlb_ok)
    as [(((rc & m) & t) & E & _) _]; [by apply ex_host_buffer|done..|].
  exists m, t. observe E (fun x : outcome => (fst (fst x), snd (fst x) 4096, snd (fst x) 4097, snd (fst x) 4098))
    (0, 104, 105, 0) as X. rewrite !pair_eq in X. destruct X as [[[H1 H2] H3] H4]. cbn [fst snd] in *. split; [rewrite H1 in E; exact E|]. split; [exact H2|]. split; [exact H3|exact H4].
Defined.


Lemma ex_write_buffer : write_buffer ex_guest ex_pt1 ex_mem 4194304 8192 2.
Proof.
  assert (forall i, 0 <= i < 2 -> haddr ex_guest ex_tables MEM_PERM_W (4194304 + i) = Some (4299161600 + i)) as H.
  { intros i Hi. assert (i = 0 \/ i = 1) as [-> | ->] by lia; vm_compute; reflexivity. }
  split; intros i h Hi Hh; fold ex_tables in Hh; rewrite (H i Hi) in Hh; simplify_eq; [lia|]. unfold in_pool. cbn. lia.
Qed.


(** a partial write reports a count that is exact: that many bytes are in
    guest memory, nothing outside the range changed, and a count short of the
    request means that the next byte is not writable or a host page vanished. *)
Theorem guest_write_partial_correct `{!HostMem, !HostMemLaws} (g : guest_t) (s : guest_pt) (m : mem) (t : gva_tlb_t)
    (gva src len : Z) :
  pt_wf (g_layout g) (tables g m s) -> backing_ok g -> tlb_ok g (tables g m s) t ->
  write_buffer g s m gva src len -> fits64 gva -> fits64 len ->
  exists r, guest_write_partial g s m t gva src len = Some r /\ partial_result g s m gva src len r.
Proof. intros. by apply write_partial_spec. Qed.

(** The last byte of the mapped range is written, the next one is not. *)
Lemma guest_write_partial_correct_witness :
  exists m t, guest_write_partial ex_guest ex_pt1 ex_mem ex_tlb 12582911 8192 2 = Some (1, m, t) /\
    m (4294967296 + 12582911) = 7.
Proof.
  assert (write_buffer ex_guest ex_pt1 ex_mem 12582911 8192 2) as Hb.
  { assert (haddr ex_guest ex_tables MEM_PERM_W (12582911 + 0) = Some 4307550207 /\
            haddr ex_guest ex_tables MEM_PERM_W (12582911 + 1) = None) as [H0 H1] by (split; vm_compute; reflexivity).
    split; intros i h Hi Hh; fold ex_tables in Hh; (assert (i = 0 \/ i = 1) as [-> | ->] by lia);
      [rewrite H0 in Hh; apply (inj Some) in Hh; lia|by rewrite H1 in Hh|
       rewrite H0 in Hh; apply (inj Some) in Hh as <-; unfold in_pool; cbn; lia|by rewrite H1 in Hh]. }
  destruct (guest_write_partial_correct ex_guest ex_pt1 ex_mem ex_tlb 12582911 8192 2 ex_tables_wf ex_backing_ok
              ex_tlb_ok Hb) as (((rc & m) & t) & E & _); [done..|].
  exists m, t. observe E (fun x : outcome => (fst (fst x), snd (fst x) 4307550207))
    (1, 7) as X. cbn [fst snd] in X. apply pair_eq in X as [H1 H2].
  cbn [fst snd] in *. split; [rewrite H1 in E; exact E|exact H2].
Defined.

(** reading a string returns on every input and leaves a terminated buffer:
    a length is returned only with the string of that length and its terminator
    copied, and only below [max - 1]; -1 means that no terminator was found in
    the first [max - 1] readable bytes, -2 that a host page vanished.  The fast
    path agrees with the scan. *)
Theorem guest_read_str_correct `{!HostMem, !HostMemLaws} (g : guest_t) (s : guest_pt) (m : mem) (t : gva_tlb_t)
    (gva dst max : Z) :
  pt_wf (g_layout g) (tables g m s) -> backing_ok g -> tlb_ok g (tables g m s) t ->
  host_buffer g s m dst max -> fits64 gva -> 1 <= max <= 2 ^ 31 ->
  (exists r, guest_read_str g s m t gva dst max = Some r /\ str_result g s m gva dst max r) /\
  (exists r, guest_read_str_small g s m t gva dst max = Some r /\ str_result g s m gva dst max r).
Proof. intros. split; [by apply read_str_spec|by apply read_str_small_spec]. Qed.

(** The string "hi" and its terminator fill a buffer of three bytes, but only a
    buffer of four is accepted. *)
Lemma guest_read_str_correct_witness :
  (exists m t, guest_read_str ex_guest ex_pt1 ex_mem ex_tlb 4194304 4096 4 = Some (2, m, t) /\
    m 4096 = 104 /\ m 4097 = 105 /\ m 4098 = 0) /\
  (exists m t, guest_read_str ex_guest ex_pt1 ex_mem ex_tlb 4194304 4096 3 = Some (-1, m, t)).
Proof.
  split.
  - destruct (guest_read_str_correct ex_guest ex_pt1 ex_mem ex_tlb 4194304 4096 4 ex_tables_wf ex_backing_ok ex_tlb_ok)
      as [(((rc & m) & t) & E & _) _]; [by apply ex_host_buffer|done..|].
    exists m, t. observe E (fun x : outcome => (fst (fst x), snd (fst x) 4096, snd (fst x) 4097, snd (fst x) 4098))
    (2, 104, 105, 0) as X. rewrite !pair_eq in X. destruct X as [[[H1 H2] H3] H4]. cbn [fst snd] in *. split; [rewrite H1 in E; exact E|]. split; [exact H2|]. split; [exact H3|exact H4].
  - destruct (guest_read_str_correct ex_guest ex_pt1 ex_mem ex_tlb 4194304 4096 3 ex_tables_wf ex_backing_ok ex_tlb_ok)
      as [(((rc & m) & t) & E & _) _]; [by apply ex_host_buffer|done..|].
    exists m, t. probe E (fun x : outcome => fst (fst x)) (-1) as H1. cbn [fst] in H1. rewrite H1 in E; exact E.
Defined.
