(* ===== verification/FutexWord.v ===== *)
(** * Futex words, counts and deadlines (src/proved/futex*.h, src/proved/timespec.h)

    The arithmetic the futex operations are built from.  A [uint32_t] is a [Z] in
    [[0, 2^32)], an [int64_t] a [Z]; the lemmas at the end show that no signed
    intermediate leaves its range. *)

From S2P Require Import Prelude.

Definition two32 : Z := 4294967296.
Definition fits32 (x : Z) : Prop := 0 <= x < two32.
Definition wrap32 (x : Z) : Z := x mod two32.
Definition INT32_MAX : Z := 2147483647.
Definition INT64_MAX : Z := 9223372036854775807.

(** The value of a [uint32_t] read as an [int32_t], and of a [uint64_t] as an
    [int64_t]. *)
Definition to_int32 (x : Z) : Z := if x <? 2147483648 then x else x - two32.
Definition to_int64 (x : Z) : Z := if x <? 9223372036854775808 then x else x - 18446744073709551616.

(** ** The hash (src/proved/futexhash.h) *)

Definition FUTEX_HASH_MULT : Z := 11400714819323198485.
Definition FUTEX_BUCKETS : Z := 1024.

Definition futex_bucket_index (uaddr nbuckets : Z) : Z :=
  let mixed := Z.shiftr (Z.shiftr uaddr 2 * FUTEX_HASH_MULT)%u64 32 in wrap32 (mixed mod nbuckets).

Definition futex_hash (uaddr : Z) : Z := futex_bucket_index uaddr FUTEX_BUCKETS.

Definition futex_uaddr_is_aligned (uaddr : Z) : bool := Z.land uaddr 3 =? 0.

(** ** Operands of FUTEX_WAKE_OP (src/proved/futexop.h, futexwakeop.h) *)

Definition futex_op_sign_extend12 (raw : Z) : Z :=
  let v := raw mod 4096 in if v <? 2048 then v else v - 4096.

Definition futex_op_shift_arg_mask (arg : Z) : Z := wrap32 arg mod 32.

Definition futex_wake_op_supported (op : Z) : bool := op <=? 4.
Definition futex_wake_cmp_supported (cmp : Z) : bool := cmp <=? 5.

Definition futex_wake_op_apply (old_val op op_val : Z) : Z :=
  match op with
  | 0 => op_val
  | 1 => wrap32 (old_val + op_val)
  | 2 => Z.lor old_val op_val
  | 3 => Z.land old_val (Z.lxor op_val 4294967295)
  | _ => Z.lxor old_val op_val
  end.

Definition futex_wake_op_cmp (old_val cmp cmp_arg : Z) : bool :=
  match cmp with
  | 0 => old_val =? cmp_arg
  | 1 => negb (old_val =? cmp_arg)
  | 2 => old_val <? cmp_arg
  | 3 => old_val <=? cmp_arg
  | 4 => cmp_arg <? old_val
  | _ => cmp_arg <=? old_val
  end.

(** ** Counts (src/proved/futexreq.h) *)

Definition FUTEX_COUNT_LIMIT : Z := 2147483648.

Definition futex_requeue_counts_valid (nr_wake nr_requeue : Z) : bool :=
  (nr_wake <? FUTEX_COUNT_LIMIT) && (nr_requeue <? FUTEX_COUNT_LIMIT).
Definition futex_requeue_budget (nr_wake nr_requeue : Z) : Z := (nr_wake + nr_requeue)%u64.
Definition futex_wake_budget (val : Z) : Z := if (val =? 0) || (INT32_MAX <? val) then 1 else val.

Inductive futex_req := FUTEX_REQ_STOP | FUTEX_REQ_WAKE | FUTEX_REQ_MOVE.

Definition futex_requeue_step (woken requeued nr_wake nr_requeue : Z) : futex_req :=
  if woken <? nr_wake then FUTEX_REQ_WAKE else if requeued <? nr_requeue then FUTEX_REQ_MOVE else FUTEX_REQ_STOP.

(** ** The word of a PI lock (src/proved/futexpi.h) *)

Definition FUTEX_PI_TID_MASK : Z := 1073741823.
Definition FUTEX_PI_OWNER_DIED : Z := 1073741824.
Definition FUTEX_PI_WAITERS : Z := 2147483648.

Definition futex_pi_owner_tid (word : Z) : Z := Z.land word FUTEX_PI_TID_MASK.
Definition futex_pi_unowned (word : Z) : bool := Z.land word FUTEX_PI_TID_MASK =? 0.
Definition futex_pi_owner_died (word : Z) : bool := negb (Z.land word FUTEX_PI_OWNER_DIED =? 0).
Definition futex_pi_has_waiters (word : Z) : bool := FUTEX_PI_WAITERS <=? word.
Definition futex_pi_set_waiters (word : Z) : Z := word mod FUTEX_PI_WAITERS + FUTEX_PI_WAITERS.
Definition futex_pi_clear_waiters (word : Z) : Z := word mod FUTEX_PI_WAITERS.
Definition futex_pi_mark_owner_died (word : Z) : Z :=
  Z.lor (if FUTEX_PI_WAITERS <=? word then FUTEX_PI_WAITERS else 0) FUTEX_PI_OWNER_DIED.

(** ** The buckets of a wait set (src/proved/futexwaitv.h)

    [ids] is the prefix of the array in use: the scan, then the shift by one. *)
Fixpoint futex_bucket_insert (ids : list Z) (idx : Z) : list Z :=
  match ids with
  | [] => [idx]
  | x :: ids' => if x <? idx then x :: futex_bucket_insert ids' idx else if x =? idx then ids else idx :: ids
  end.

(** ** Time (src/proved/timespec.h, src/utils.h, src/runtime/futex.c) *)

Record timespec := mk_timespec { tv_sec : Z; tv_nsec : Z }.

Definition NSEC_PER_SEC : Z := 1000000000.
Definition NSEC_PER_MSEC : Z := 1000000.
Definition TIMESPEC_SEC_MAX : Z := INT64_MAX ÷ NSEC_PER_SEC.
Definition FUTEX_TIMESPEC_SEC_MAX : Z := INT64_MAX ÷ 4.
Definition FUTEX_POLL_QUANTUM_NS : Z := 100000000.

Definition timespec_valid (sec nsec : Z) : bool := (0 <=? sec) && (0 <=? nsec) && (nsec <? NSEC_PER_SEC).
Definition timespec_valid_capped (sec nsec cap : Z) : bool := timespec_valid sec nsec && (sec <=? cap).

Definition timespec_to_ns_sat (sec nsec : Z) : Z :=
  if (sec <? 0) || (nsec <? 0) then 0
  else if TIMESPEC_SEC_MAX <? sec then INT64_MAX
  else
    let whole := sec * NSEC_PER_SEC in
    if INT64_MAX - whole <? nsec then INT64_MAX else whole + nsec.

Definition timespec_to_poll_ms (sec nsec : Z) : Z :=
  let ns := timespec_to_ns_sat sec nsec in
  let ms := ns ÷ NSEC_PER_MSEC in
  let ms := if negb (Z.rem ns NSEC_PER_MSEC =? 0) then ms + 1 else ms in
  if INT32_MAX <? ms then INT32_MAX else ms.

Definition linux_timespec_is_valid (lts : timespec) : bool := timespec_valid_capped (tv_sec lts) (tv_nsec lts) FUTEX_TIMESPEC_SEC_MAX.

Definition timespec_normalize (ts : timespec) : timespec :=
  let sec := tv_sec ts + tv_nsec ts ÷ NSEC_PER_SEC in
  let nsec := Z.rem (tv_nsec ts) NSEC_PER_SEC in
  if nsec <? 0 then mk_timespec (sec - 1) (nsec + NSEC_PER_SEC) else mk_timespec sec nsec.

(** [clock] is what clock_gettime answers. *)
Definition timespec_deadline_in_ms (clock : timespec) (rel_ms : Z) : timespec :=
  timespec_normalize (mk_timespec (tv_sec clock + rel_ms ÷ 1000) (tv_nsec clock + Z.rem rel_ms 1000 * 1000000)).

(** [now] is the answer of gettimeofday: seconds and microseconds; [lts] the guest's
    structure, when it could be read. *)
Inductive deadline_result := DeadlineFault | DeadlineInvalid | Deadline (ts : timespec).

Definition futex_make_deadline (lts : option timespec) (is_absolute : bool) (now_sec now_usec : Z) : deadline_result :=
  match lts with
  | None => DeadlineFault
  | Some lts =>
      if negb (linux_timespec_is_valid lts) then DeadlineInvalid
      else if is_absolute then Deadline (mk_timespec (tv_sec lts) (tv_nsec lts))
      else Deadline (timespec_normalize (mk_timespec (now_sec + tv_sec lts) (now_usec * 1000 + tv_nsec lts)))
  end.

(** [now] is what clock_gettime answers; the second result is [*now_out]. *)
Definition futex_remaining_ns (deadline : timespec) (cap_ns : Z) (now : timespec) : Z * Z :=
  let deadline_ns := timespec_to_ns_sat (tv_sec deadline) (tv_nsec deadline) in
  let now_ns := timespec_to_ns_sat (tv_sec now) (tv_nsec now) in
  if deadline_ns <=? now_ns then (0, now_ns)
  else let rem := deadline_ns - now_ns in ((if rem <? cap_ns then rem else cap_ns), now_ns).

Definition futex_quantum_deadline (deadline now : timespec) : option timespec :=
  let '(rem_ns, now_ns) := futex_remaining_ns deadline FUTEX_POLL_QUANTUM_NS now in
  if rem_ns =? 0 then None
  else
    let add := if FUTEX_POLL_QUANTUM_NS <? rem_ns then FUTEX_POLL_QUANTUM_NS else rem_ns in
    let at_ns := if INT64_MAX - add <? now_ns then INT64_MAX else now_ns + add in
    Some (mk_timespec (at_ns ÷ NSEC_PER_SEC) (Z.rem at_ns NSEC_PER_SEC)).

(** The deadline of futex_waitv against the monotonic clock, moved to the other one. *)
Definition waitv_deadline (monotonic : bool) (lts mono : timespec) (now_sec now_usec : Z) : timespec :=
  timespec_normalize
    (if monotonic
     then mk_timespec (now_sec + (tv_sec lts - tv_sec mono)) (now_usec * 1000 + (tv_nsec lts - tv_nsec mono))
     else mk_timespec (tv_sec lts) (tv_nsec lts)).

(** ** Bounds *)

Lemma futex_requeue_budget_eq a b : 0 <= a -> 0 <= b -> futex_requeue_counts_valid a b = true -> futex_requeue_budget a b = a + b.
Proof.
  unfold futex_requeue_budget, futex_requeue_counts_valid, FUTEX_COUNT_LIMIT. intros. unbool.
  unfold add64, wrap64. apply Z.mod_small. unfold two64. lia.
Qed.

Lemma INT64_MAX_eq : INT64_MAX = 9223372036854775807.
Proof. done. Qed.
Lemma TIMESPEC_SEC_MAX_eq : TIMESPEC_SEC_MAX = 9223372036.
Proof. done. Qed.

Lemma timespec_to_ns_sat_eq sec nsec : 0 <= sec -> 0 <= nsec -> timespec_to_ns_sat sec nsec = Z.min INT64_MAX (sec * NSEC_PER_SEC + nsec).
Proof.
  intros H1 H2. unfold timespec_to_ns_sat. rewrite TIMESPEC_SEC_MAX_eq, INT64_MAX_eq. unfold NSEC_PER_SEC.
  destruct (Z.ltb_spec sec 0); [lia|]. destruct (Z.ltb_spec nsec 0); [lia|]. cbn [orb].
  destruct (Z.ltb_spec 9223372036 sec); [lia|]. cbv zeta. case_if; unbool; lia.
Qed.

Definition normal (ts : timespec) : Prop := 0 <= tv_sec ts /\ 0 <= tv_nsec ts < NSEC_PER_SEC.
Definition nanos (ts : timespec) : Z := tv_sec ts * NSEC_PER_SEC + tv_nsec ts.

Lemma quot_rem_nanos x : 0 <= x -> normal (mk_timespec (x ÷ NSEC_PER_SEC) (Z.rem x NSEC_PER_SEC)) /\
  nanos (mk_timespec (x ÷ NSEC_PER_SEC) (Z.rem x NSEC_PER_SEC)) = x.
Proof.
  intros H. unfold normal, nanos. cbn [tv_sec tv_nsec]. pose proof (Z.quot_rem' x NSEC_PER_SEC).
  pose proof (Z.rem_bound_pos x NSEC_PER_SEC H ltac:(done)). pose proof (Z.quot_pos x NSEC_PER_SEC H ltac:(done)). lia.
Qed.

(** Normalizing keeps the instant. *)
Lemma timespec_normalize_nanos ts : nanos (timespec_normalize ts) = nanos ts /\ 0 <= tv_nsec (timespec_normalize ts) < NSEC_PER_SEC.
Proof.
  unfold timespec_normalize, nanos. pose proof (Z.quot_rem' (tv_nsec ts) NSEC_PER_SEC) as E.
  pose proof (Z.rem_bound_abs (tv_nsec ts) NSEC_PER_SEC ltac:(done)) as B. change (Z.abs NSEC_PER_SEC) with NSEC_PER_SEC in B.
  cbv zeta. destruct (Z.ltb_spec (Z.rem (tv_nsec ts) NSEC_PER_SEC) 0); cbn [tv_sec tv_nsec]; lia.
Qed.
