(* ===== verification/Futex.v ===== *)
(** * The futex queues (src/runtime/futex.c)

    The waiter nodes live on the stacks of the waiting threads; here they are
    numbered cells, and a bucket is the list of the numbers on its chain, head
    first.  Everything a function does while it holds its bucket locks is one
    definition.  Guest memory is reached through [FutexMem]; what other
    vCPUs do to a word between a load and the compare-and-swap that follows is the
    argument [env] of the loops.  Condition variables are recorded as the list
    of signals sent. *)

From S2P Require Import Prelude FutexWord.

(** ** Constants *)

Definition LINUX_EPERM : Z := 1.
Definition LINUX_ESRCH : Z := 3.
Definition LINUX_EAGAIN : Z := 11.
Definition LINUX_EDEADLK : Z := 35.
Definition LINUX_ENOSYS : Z := 38.
Definition LINUX_ETIMEDOUT : Z := 110.

Definition FUTEX_WAIT : Z := 0.
Definition FUTEX_WAKE : Z := 1.
Definition FUTEX_REQUEUE : Z := 3.
Definition FUTEX_CMP_REQUEUE : Z := 4.
Definition FUTEX_WAKE_OP : Z := 5.
Definition FUTEX_LOCK_PI : Z := 6.
Definition FUTEX_UNLOCK_PI : Z := 7.
Definition FUTEX_TRYLOCK_PI : Z := 8.
Definition FUTEX_WAIT_BITSET : Z := 9.
Definition FUTEX_WAKE_BITSET : Z := 10.
Definition FUTEX_CMD_MASK : Z := 127.
Definition FUTEX_BITSET_MATCH_ANY : Z := 4294967295.
Definition FUTEX_SPIN_ITERS : nat := 4096.
Definition FUTEX_WAITV_MAX : Z := 128.
Definition FUTEX2_SIZE_U32 : Z := 2.
Definition FUTEX2_SIZE_MASK : Z := 3.
Definition FUTEX2_VALID_FLAGS : Z := 131.
Definition ROBUST_LIST_LIMIT : nat := 2048.

(** ** Guest memory

    [word_r] and [word_w] say whether guest_ptr and guest_ptr_w give a host
    pointer; [word_load] and [word_store] are the guarded atomics, [None] when the
    host faults; the others are guest_read_small and guest_write_small of one 32-bit
    word or of consecutive 64-bit ones. *)
Class FutexMem (M : Type) := {
  word_r : M -> Z -> bool;
  word_w : M -> Z -> bool;
  word_load : M -> Z -> option Z;
  word_store : M -> Z -> Z -> option M;
  read32 : M -> Z -> option Z;
  read64s : M -> Z -> nat -> option (list Z);
  write32 : M -> Z -> Z -> option M
}.

(** ** Data *)

(** The group of a futex_waitv call is the number of the call. *)
Record futex_waiter_t := mk_waiter {
  w_uaddr : Z;
  w_bitset : Z;
  w_woken : bool;
  w_group : option nat;
  w_pub_bucket : Z;
  w_pub_follows : bool;
  w_home : Z
}.

Inductive sent := CondSignal (w : nat) | GroupSignal (group : nat).

Record futex (M : Type) := mk_futex {
  q_mem : M;
  q_buckets : list (list nat);
  q_nodes : list futex_waiter_t;
  q_counts : list Z;
  q_sent : list sent
}.
Arguments mk_futex {M} _ _ _ _ _.
Arguments q_mem {M} _.
Arguments q_buckets {M} _.
Arguments q_nodes {M} _.
Arguments q_counts {M} _.
Arguments q_sent {M} _.

Definition no_waiter : futex_waiter_t := mk_waiter 0 0 false None 0 false 0.

Section Futex.
Context {M : Type} `{FM : FutexMem M}.
Implicit Types s : futex M.

Definition set_mem (m : M) s : futex M := mk_futex m (q_buckets s) (q_nodes s) (q_counts s) (q_sent s).
Definition set_nodes (l : list futex_waiter_t) s : futex M := mk_futex (q_mem s) (q_buckets s) l (q_counts s) (q_sent s).
Definition set_counts (l : list Z) s : futex M := mk_futex (q_mem s) (q_buckets s) (q_nodes s) l (q_sent s).

Definition node s (w : nat) : futex_waiter_t := nth w (q_nodes s) no_waiter.
Definition chain s (idx : Z) : list nat := nth (Z.to_nat idx) (q_buckets s) [].
Definition set_chain s (idx : Z) (l : list nat) : futex M :=
  mk_futex (q_mem s) (<[Z.to_nat idx := l]> (q_buckets s)) (q_nodes s) (q_counts s) (q_sent s).
Definition send s (x : sent) : futex M := mk_futex (q_mem s) (q_buckets s) (q_nodes s) (q_counts s) (q_sent s ++ [x]).

Definition futex_init (m : M) : futex M := mk_futex m (replicate (Z.to_nat FUTEX_BUCKETS) []) [] (replicate (Z.to_nat FUTEX_BUCKETS) 0) [].

(** ** The counts the shim reads (src/core/shim-globals.c) *)

Definition shim_globals_futex_waiters_get s (bucket : Z) : Z :=
  if FUTEX_BUCKETS <=? bucket then 0 else nth (Z.to_nat bucket) (q_counts s) 0.

Definition shim_globals_futex_waiters_add s (bucket delta : Z) : futex M :=
  if FUTEX_BUCKETS <=? bucket then s
  else set_counts (alter (fun c => wrap32 (c + delta)) (Z.to_nat bucket) (q_counts s)) s.

(** ** Chains *)

Fixpoint remove_first (w : nat) (l : list nat) : list nat :=
  match l with
  | [] => []
  | x :: l => if (x =? w)%nat then l else x :: remove_first w l
  end.

Definition bucket_unlink_locked s (idx : Z) (w : nat) : futex M := set_chain s idx (remove_first w (chain s idx)).

Definition bucket_has_uaddr_locked s (idx uaddr : Z) : bool := existsb (fun w => w_uaddr (node s w) =? uaddr) (chain s idx).

Definition futex_waiter_notify_group s (w : nat) : futex M :=
  match w_group (node s w) with Some group => send s (GroupSignal group) | None => s end.

Definition mark_woken (x : futex_waiter_t) : futex_waiter_t :=
  mk_waiter (w_uaddr x) (w_bitset x) true (w_group x) (w_pub_bucket x) (w_pub_follows x) (w_home x).

(** What happens to a node once it is unlinked. *)
Definition wake_node s (w : nat) : futex M :=
  let s := set_nodes (alter mark_woken w (q_nodes s)) s in
  futex_waiter_notify_group (send s (CondSignal w)) w.

(** The walk of a wake: the nodes that stay, how many were woken, the state. *)
Fixpoint wake_walk s (hits : futex_waiter_t -> bool) (l : list nat) (woken val : Z) : list nat * Z * futex M :=
  match l with
  | [] => ([], woken, s)
  | w :: rest =>
      if woken <? val then
        if hits (node s w) then wake_walk (wake_node s w) hits rest (woken + 1) val
        else let '(kept, n, s) := wake_walk s hits rest woken val in (w :: kept, n, s)
      else (l, woken, s)
  end.

Definition wake_chain s (idx : Z) (hits : futex_waiter_t -> bool) (val : Z) : Z * futex M :=
  let '(kept, n, s) := wake_walk s hits (chain s idx) 0 val in (n, set_chain s idx kept).

Definition futex_wake_first_locked s (idx uaddr : Z) : futex M := snd (wake_chain s idx (fun x => w_uaddr x =? uaddr) 1).

(** ** The futex word *)

Definition futex_word_load s (uaddr : Z) : option Z := word_load (q_mem s) uaddr.

(** [None] is a fault; otherwise the value found and whether it was swapped. *)
Definition futex_word_cas (m : M) (uaddr expected desired : Z) : option (Z * bool * M) :=
  match word_load m uaddr with
  | None => None
  | Some v =>
      if v =? expected then match word_store m uaddr desired with Some m => Some (v, true, m) | None => None end
      else Some (v, false, m)
  end.

Definition futex_should_block s (uaddr expected : Z) : Z :=
  if negb (word_r (q_mem s) uaddr) then - LINUX_EFAULT
  else match futex_word_load s uaddr with
       | None => - LINUX_EFAULT
       | Some current => if negb (current =? expected) then - LINUX_EAGAIN else 0
       end.

(** [reads] are the values the loop sees, [None] for a fault. *)
Fixpoint spin_reads (reads : list (option Z)) (expected : Z) : bool :=
  match reads with
  | [] => false
  | None :: _ => false
  | Some seen :: reads => if negb (seen =? expected) then true else spin_reads reads expected
  end.
Definition futex_spin_word_moved (reads : list (option Z)) (expected : Z) : bool := spin_reads (take FUTEX_SPIN_ITERS reads) expected.

(** A compare-and-swap loop: [edit] gives the value to write, or stops the loop.
    [env] is what the guest does between the load and the swap of a round. *)
Inductive cas_result := CasFault (m : M) | CasStop (v : Z) (m : M) | CasDone (v : Z) (m : M).

Fixpoint cas_loop (fuel : nat) (env : nat -> M -> M) (m : M) (uaddr : Z) (edit : Z -> option Z) : option cas_result :=
  match fuel with
  | O => None
  | S fuel =>
      match word_load m uaddr with
      | None => Some (CasFault m)
      | Some v =>
          match edit v with
          | None => Some (CasStop v m)
          | Some v' =>
              let m := env fuel m in
              match futex_word_cas m uaddr v v' with
              | None => Some (CasFault m)
              | Some (_, true, m) => Some (CasDone v m)
              | Some (_, false, m) => cas_loop fuel env m uaddr edit
              end
          end
      end
  end.

Definition futex_clear_waiters_bit (fuel : nat) (env : nat -> M -> M) s (uaddr : Z) : option (futex M) :=
  r ← cas_loop fuel env (q_mem s) uaddr (fun v => if futex_pi_has_waiters v then Some (futex_pi_clear_waiters v) else None);
  Some (match r with CasFault m | CasStop _ m | CasDone _ m => set_mem m s end).

(** ** FUTEX_WAKE *)

Fixpoint futex_pi_waiter_within s (l : list nat) (uaddr bitset budget : Z) : bool :=
  match l with
  | [] => false
  | w :: l =>
      if budget =? 0 then false
      else if negb (w_uaddr (node s w) =? uaddr) || (Z.land (w_bitset (node s w)) bitset =? 0)
      then futex_pi_waiter_within s l uaddr bitset budget
      else if negb (w_pub_follows (node s w)) then true
      else futex_pi_waiter_within s l uaddr bitset (budget - 1)
  end.

Definition wake_hits (uaddr bitset : Z) (x : futex_waiter_t) : bool := (w_uaddr x =? uaddr) && negb (Z.land (w_bitset x) bitset =? 0).

Definition futex_wake s (uaddr val bitset : Z) : Z * futex M :=
  if bitset =? 0 then (- LINUX_EINVAL, s)
  else if negb (futex_uaddr_is_aligned uaddr) then (- LINUX_EINVAL, s)
  else
    let val := futex_wake_budget val in
    let idx := futex_hash uaddr in
    if futex_pi_waiter_within s (chain s idx) uaddr bitset val then (- LINUX_EINVAL, s)
    else wake_chain s idx (wake_hits uaddr bitset) val.

Definition futex_wake_one s (uaddr : Z) : Z * futex M := futex_wake s uaddr 1 FUTEX_BITSET_MATCH_ANY.

(** ** FUTEX_REQUEUE *)

Fixpoint requeue_meets_pi s (l : list nat) (uaddr checked : Z) : bool :=
  match l with
  | [] => false
  | w :: l =>
      if checked =? 0 then false
      else if negb (w_uaddr (node s w) =? uaddr) then requeue_meets_pi s l uaddr checked
      else if negb (w_pub_follows (node s w)) then true
      else requeue_meets_pi s l uaddr (checked - 1)
  end.

Definition rekey (uaddr : Z) (x : futex_waiter_t) : futex_waiter_t :=
  mk_waiter uaddr (w_bitset x) (w_woken x) (w_group x) (w_pub_bucket x) (w_pub_follows x) (w_home x).
Definition repub (bucket : Z) (x : futex_waiter_t) : futex_waiter_t :=
  mk_waiter (w_uaddr x) (w_bitset x) (w_woken x) (w_group x) bucket (w_pub_follows x) (w_home x).
Definition rehome (home : Z) (x : futex_waiter_t) : futex_waiter_t :=
  mk_waiter (w_uaddr x) (w_bitset x) (w_woken x) (w_group x) (w_pub_bucket x) (w_pub_follows x) home.

(** One waiter unlinked from the source and put at the head of the destination. *)
Definition move_waiter s (w : nat) (uaddr2 idx_dst : Z) : futex M :=
  let s :=
    if w_pub_follows (node s w) then
      let s := shim_globals_futex_waiters_add s idx_dst 1 in
      let s := shim_globals_futex_waiters_add s (w_pub_bucket (node s w)) (-1) in
      set_nodes (alter (repub idx_dst) w (q_nodes s)) s
    else s in
  let s := set_nodes (alter (rekey uaddr2) w (q_nodes s)) s in
  let s := set_chain s idx_dst (w :: chain s idx_dst) in
  let s := set_nodes (alter (rehome idx_dst) w (q_nodes s)) s in
  send s (CondSignal w).

(** The walk over the source chain; [same] says both keys share the bucket. *)
Fixpoint requeue_walk s (l : list nat) (uaddr uaddr2 idx_dst : Z) (same : bool) (woken requeued nr_wake nr_requeue : Z)
    : list nat * Z * Z * futex M :=
  match l with
  | [] => ([], woken, requeued, s)
  | w :: rest =>
      if negb (w_uaddr (node s w) =? uaddr) then
        let '(kept, a, b, s) := requeue_walk s rest uaddr uaddr2 idx_dst same woken requeued nr_wake nr_requeue in
        (w :: kept, a, b, s)
      else
        match futex_requeue_step woken requeued nr_wake nr_requeue with
        | FUTEX_REQ_STOP => (l, woken, requeued, s)
        | FUTEX_REQ_WAKE =>
            requeue_walk (wake_node s w) rest uaddr uaddr2 idx_dst same (woken + 1) requeued nr_wake nr_requeue
        | FUTEX_REQ_MOVE =>
            if same then
              let s := set_nodes (alter (rekey uaddr2) w (q_nodes s)) s in
              let '(kept, a, b, s) := requeue_walk s rest uaddr uaddr2 idx_dst same woken (requeued + 1) nr_wake nr_requeue in
              (w :: kept, a, b, s)
            else requeue_walk (move_waiter s w uaddr2 idx_dst) rest uaddr uaddr2 idx_dst same woken (requeued + 1) nr_wake nr_requeue
        end
  end.

Definition futex_requeue s (uaddr wake_count requeue_count uaddr2 : Z) (do_cmp : bool) (expected : Z) : Z * futex M :=
  if negb (futex_requeue_counts_valid wake_count requeue_count) then (- LINUX_EINVAL, s)
  else if negb (futex_uaddr_is_aligned uaddr) || negb (futex_uaddr_is_aligned uaddr2) then (- LINUX_EINVAL, s)
  else
    let idx_src := futex_hash uaddr in
    let idx_dst := futex_hash uaddr2 in
    let block := if do_cmp then futex_should_block s uaddr expected else 0 in
    if negb (block =? 0) then (block, s)
    else if requeue_meets_pi s (chain s idx_src) uaddr (futex_requeue_budget wake_count requeue_count) then (- LINUX_EINVAL, s)
    else
      let '(kept, woken, requeued, s) :=
        requeue_walk s (chain s idx_src) uaddr uaddr2 idx_dst (idx_src =? idx_dst) 0 0 wake_count requeue_count in
      (woken + requeued, set_chain s idx_src kept).

(** ** FUTEX_WAKE_OP *)

Definition futex_wake_op (fuel : nat) (env : nat -> M -> M) s (uaddr val uaddr2 val2 val3 : Z) : option (Z * futex M) :=
  if negb (futex_uaddr_is_aligned uaddr) || negb (futex_uaddr_is_aligned uaddr2) then Some (- LINUX_EINVAL, s)
  else
    let val := futex_wake_budget val in
    let val2 := futex_wake_budget val2 in
    let wake_op := Z.land (Z.shiftr val3 28) 15 in
    let wake_cmp := Z.land (Z.shiftr val3 24) 15 in
    let op_arg := futex_op_sign_extend12 (Z.shiftr val3 12) in
    let cmp_arg := futex_op_sign_extend12 val3 in
    let op_val := wrap32 op_arg in
    let op_val := if has wake_op 8 then Z.shiftl 1 (futex_op_shift_arg_mask op_arg) else op_val in
    let wake_op := Z.land wake_op 7 in
    if negb (futex_wake_op_supported wake_op) then Some (- LINUX_ENOSYS, s)
    else
      let idx1 := futex_hash uaddr in
      let idx2 := futex_hash uaddr2 in
      if negb (word_w (q_mem s) uaddr2) then Some (- LINUX_EFAULT, s)
      else
        r ← cas_loop fuel env (q_mem s) uaddr2 (fun old => Some (futex_wake_op_apply old wake_op op_val));
        match r with
        | CasFault m | CasStop _ m => Some (- LINUX_EFAULT, set_mem m s)
        | CasDone old_val m =>
            let s := set_mem m s in
            if negb (futex_wake_cmp_supported wake_cmp) then Some (- LINUX_ENOSYS, s)
            else
              let cond_met := futex_wake_op_cmp (to_int32 old_val) wake_cmp cmp_arg in
              if futex_pi_waiter_within s (chain s idx1) uaddr FUTEX_BITSET_MATCH_ANY val ||
                 (cond_met && futex_pi_waiter_within s (chain s idx2) uaddr2 FUTEX_BITSET_MATCH_ANY val2)
              then Some (- LINUX_EINVAL, s)
              else
                let '(woken1, s) := wake_chain s idx1 (fun x => w_uaddr x =? uaddr) val in
                let '(woken2, s) := if cond_met then wake_chain s idx2 (fun x => w_uaddr x =? uaddr2) val2 else (0, s) in
                Some (woken1 + woken2, s)
        end.

(** ** FUTEX_WAIT *)

Definition enqueue s (x : futex_waiter_t) (idx : Z) : nat * futex M :=
  let w := length (q_nodes s) in
  let s := set_nodes (q_nodes s ++ [x]) s in
  (w, set_chain s idx (w :: chain s idx)).

(** The argument checks: an error, or the deadline.  [timeout] is [None] for a null
    pointer, else what reading the structure gives. *)
Definition wait_checks (uaddr bitset : Z) (timeout : option (option timespec)) (is_absolute : bool) (now_sec now_usec : Z)
    : Z + option timespec :=
  if bitset =? 0 then inl (- LINUX_EINVAL)
  else if negb (futex_uaddr_is_aligned uaddr) then inl (- LINUX_EINVAL)
  else match timeout with
       | None => inr None
       | Some lts =>
           match futex_make_deadline lts is_absolute now_sec now_usec with
           | DeadlineFault => inl (- LINUX_EFAULT)
           | DeadlineInvalid => inl (- LINUX_EINVAL)
           | Deadline ts => inr (Some ts)
           end
       end.

(** The spin before the lock: does it see the word moved. *)
Definition wait_spin s (uaddr expected : Z) (deadline : option timespec) (clock : timespec) (reads : list (option Z)) : bool :=
  let try := match deadline with None => true | Some d => 0 <? fst (futex_remaining_ns d FUTEX_POLL_QUANTUM_NS clock) end in
  try && word_r (q_mem s) uaddr && futex_spin_word_moved reads expected.

(** Under the bucket lock: the node linked once the word was seen to match, and
    both steps together, an error or the node. *)
Definition wait_link s (uaddr bitset : Z) : nat * futex M :=
  let idx := futex_hash uaddr in enqueue s (mk_waiter uaddr bitset false None idx true idx) idx.

Definition wait_enqueue s (uaddr expected bitset : Z) : (Z + nat) * futex M :=
  let block := futex_should_block s uaddr expected in
  if negb (block =? 0) then (inl block, s) else let '(w, s) := wait_link s uaddr bitset in (inr w, s).

(** A parked thread: its node, the bucket whose lock it sleeps under, its deadline. *)
Record wait_call := mk_wait { c_node : nat; c_lock : Z; c_deadline : option timespec; c_absolute : bool }.

Inductive wait_next := WaitExit (ret : Z) | WaitSleep (until : timespec) | WaitPoll | WaitAgain.

(** The head of the loop. *)
Definition wait_top s (c : wait_call) (clock : timespec) : wait_next * wait_call :=
  let home := w_home (node s (c_node c)) in
  let c := if home =? c_lock c then c else mk_wait (c_node c) home (c_deadline c) (c_absolute c) in
  if w_woken (node s (c_node c)) then (WaitExit 0, c)
  else match c_deadline c with
       | None => (WaitSleep (timespec_deadline_in_ms clock 100), c)
       | Some d => match futex_quantum_deadline d clock with None => (WaitExit (- LINUX_ETIMEDOUT), c) | Some q => (WaitSleep q, c) end
       end.

(** After the sleep; [stop] is a stop request or a consumed interrupt. *)
Definition wait_slept s (c : wait_call) (stop : bool) : wait_next :=
  if stop then WaitExit (- LINUX_EINTR)
  else if bool_decide (is_Some (c_deadline c)) && w_woken (node s (c_node c)) then WaitExit 0
  else WaitPoll.

(** After the signals were polled with the lock dropped. *)
Definition wait_polled s (c : wait_call) (sig_ready : bool) : wait_next :=
  if w_woken (node s (c_node c)) then WaitExit 0 else if sig_ready then WaitExit (- LINUX_EINTR) else WaitAgain.

(** The way out: the result, whether a restart is forbidden, the bucket to drop
    the charge of. *)
Definition wait_exit s (c : wait_call) (ret : Z) : Z * bool * Z * futex M :=
  let x := node s (c_node c) in
  let s := if w_woken x then s else bucket_unlink_locked s (w_home x) (c_node c) in
  if w_woken x then (0, false, w_pub_bucket x, s)
  else (ret, (ret =? - LINUX_EINTR) && bool_decide (is_Some (c_deadline c)) && negb (c_absolute c), w_pub_bucket x, s).

(** The charge a wait takes before it reads the word, and drops at the end. *)
Definition wait_charge s (uaddr : Z) : futex M := shim_globals_futex_waiters_add s (futex_hash uaddr) 1.
Definition wait_drop s (pub : Z) : futex M := shim_globals_futex_waiters_add s pub (-1).

(** ** PI locks *)

Inductive pi_next := PiReturn (rc : Z) | PiRetry | PiContend | PiParked (w : nat).

(** The fast path of one round; [alive] answers thread_find. *)
Definition pi_try s (uaddr tid : Z) (alive : Z -> bool) : pi_next * futex M :=
  match futex_word_cas (q_mem s) uaddr 0 tid with
  | None => (PiReturn (- LINUX_EFAULT), s)
  | Some (_, true, m) => (PiReturn 0, set_mem m s)
  | Some (expected, false, m) =>
      let owner_tid := futex_pi_owner_tid expected in
      if owner_tid =? tid then (PiReturn (- LINUX_EDEADLK), s)
      else if negb (owner_tid =? 0) && negb (alive owner_tid) then (PiReturn (- LINUX_ESRCH), s)
      else (PiContend, s)
  end.

(** Under the bucket lock: mark the word, then take it over or queue up.  The guest
    also runs between the last look at the word and what follows. *)
Definition pi_contend (fuel : nat) (env : nat -> M -> M) s (uaddr tid : Z) : option (pi_next * futex M) :=
  let idx := futex_hash uaddr in
  r ← cas_loop fuel env (q_mem s) uaddr
        (fun cur => if futex_pi_unowned cur || futex_pi_has_waiters cur then None else Some (futex_pi_set_waiters cur));
  match r with
  | CasFault m => Some (PiReturn (- LINUX_EFAULT), set_mem m s)
  | CasStop cur m | CasDone cur m =>
      let s := set_mem (env fuel m) s in
      if futex_pi_unowned cur then
        if cur =? 0 then Some (PiRetry, s)
        else
          let want := Z.lor tid (Z.land cur FUTEX_PI_OWNER_DIED) in
          let want := if bucket_has_uaddr_locked s idx uaddr then futex_pi_set_waiters want else want in
          match futex_word_cas (q_mem s) uaddr cur want with
          | None => Some (PiReturn (- LINUX_EFAULT), s)
          | Some (_, true, m) => Some (PiReturn 0, set_mem m s)
          | Some (_, false, _) => Some (PiRetry, s)
          end
      else
        let '(w, s) := enqueue s (mk_waiter uaddr FUTEX_BITSET_MATCH_ANY false None idx false 0) idx in
        Some (PiParked w, s)
  end.

(** One pass of the sleeping loop, from the head to the sleep and from there on.
    [None] ends the loop without an error. *)
Definition pi_top s (w : nat) (deadline : option timespec) (clock : timespec) : wait_next :=
  if w_woken (node s w) then WaitExit 0
  else match deadline with
       | None => WaitSleep (timespec_deadline_in_ms clock 100)
       | Some d => match futex_quantum_deadline d clock with None => WaitExit (- LINUX_ETIMEDOUT) | Some q => WaitSleep q end
       end.

Definition pi_slept s (w : nat) (stop : bool) : wait_next :=
  if w_woken (node s w) then WaitExit 0 else if stop then WaitExit (- LINUX_EINTR) else WaitPoll.

Definition pi_polled s (w : nat) (uaddr : Z) (sig_ready : bool) (alive : Z -> bool) : wait_next :=
  if w_woken (node s w) then WaitExit 0
  else if sig_ready then WaitExit (- LINUX_EINTR)
  else match futex_word_load s uaddr with
       | None => WaitExit (- LINUX_EFAULT)
       | Some check =>
           if futex_pi_unowned check then WaitExit 0
           else if negb (alive (futex_pi_owner_tid check)) then WaitExit (- LINUX_ESRCH)
           else WaitAgain
       end.

(** Leaving the queue: an error is returned, otherwise the lock is tried again. *)
Definition pi_exit (fuel : nat) (env : nat -> M -> M) s (w : nat) (uaddr rc : Z) : option (pi_next * futex M) :=
  let idx := futex_hash uaddr in
  let s := bucket_unlink_locked s idx w in
  s ← (if (rc =? - LINUX_ETIMEDOUT) && negb (bucket_has_uaddr_locked s idx uaddr)
       then futex_clear_waiters_bit fuel env s uaddr else Some s);
  Some (if negb (rc =? 0) then PiReturn rc else PiRetry, s).

(** The checks before the first round. *)
Definition pi_checks s (uaddr : Z) (timeout : option (option timespec)) (now_sec now_usec : Z) : Z + option timespec :=
  if negb (futex_uaddr_is_aligned uaddr) then inl (- LINUX_EINVAL)
  else if negb (word_w (q_mem s) uaddr) then inl (- LINUX_EFAULT)
  else match timeout with
       | None => inr None
       | Some lts =>
           match futex_make_deadline lts true now_sec now_usec with
           | DeadlineFault => inl (- LINUX_EFAULT)
           | DeadlineInvalid => inl (- LINUX_EINVAL)
           | Deadline ts => inr (Some ts)
           end
       end.

Definition futex_trylock_pi s (uaddr tid : Z) : Z * futex M :=
  if negb (futex_uaddr_is_aligned uaddr) then (- LINUX_EINVAL, s)
  else if negb (word_w (q_mem s) uaddr) then (- LINUX_EFAULT, s)
  else match futex_word_cas (q_mem s) uaddr 0 tid with
       | None => (- LINUX_EFAULT, s)
       | Some (_, true, m) => (0, set_mem m s)
       | Some (_, false, _) => (- LINUX_EAGAIN, s)
       end.

(** The checks of an unlock, an error below zero, and what it does under the lock. *)
Definition unlock_checks s (uaddr tid : Z) : Z :=
  match read32 (q_mem s) uaddr with
  | None => - LINUX_EFAULT
  | Some cur =>
      if negb (futex_pi_owner_tid cur =? tid) then - LINUX_EPERM
      else if negb (futex_uaddr_is_aligned uaddr) then - LINUX_EINVAL
      else if negb (word_w (q_mem s) uaddr) then - LINUX_EFAULT
      else 0
  end.

Definition unlock_release (fuel : nat) (env : nat -> M -> M) s (uaddr : Z) : option (Z * futex M) :=
  let idx := futex_hash uaddr in
  let s := futex_wake_first_locked s idx uaddr in
  let released := if bucket_has_uaddr_locked s idx uaddr then FUTEX_PI_WAITERS else 0 in
  r ← cas_loop fuel env (q_mem s) uaddr (fun _ => Some released);
  match r with
  | CasFault m | CasStop _ m => Some (- LINUX_EFAULT, set_mem m s)
  | CasDone _ m => Some (0, set_mem m s)
  end.

Definition futex_unlock_pi (fuel : nat) (env : nat -> M -> M) s (uaddr tid : Z) : option (Z * futex M) :=
  let rc := unlock_checks s uaddr tid in if negb (rc =? 0) then Some (rc, s) else unlock_release fuel env s uaddr.

(** ** sys_futex *)

Definition read_timespec (m : M) (gva : Z) : option timespec :=
  match read64s m gva 2 with Some [sec; nsec] => Some (mk_timespec (to_int64 sec) (to_int64 nsec)) | _ => None end.
Definition timeout_arg (m : M) (gva : Z) : option (option timespec) := if gva =? 0 then None else Some (read_timespec m gva).

(** What a call asks for: the function it reaches and its arguments. *)
Inductive futex_request :=
  | ReqWait (uaddr expected timeout_gva bitset : Z) (is_absolute : bool)
  | ReqWake (uaddr val bitset : Z)
  | ReqRequeue (uaddr wake_count requeue_count uaddr2 : Z) (do_cmp : bool) (expected : Z)
  | ReqWakeOp (uaddr val uaddr2 val2 val3 : Z)
  | ReqLockPi (uaddr timeout_gva : Z)
  | ReqUnlockPi (uaddr : Z)
  | ReqTrylockPi (uaddr : Z)
  | ReqNosys.

Definition sys_futex (uaddr op val timeout_gva uaddr2 val3 : Z) : futex_request :=
  let cmd := Z.land op FUTEX_CMD_MASK in
  if cmd =? FUTEX_WAIT then ReqWait uaddr val timeout_gva FUTEX_BITSET_MATCH_ANY false
  else if cmd =? FUTEX_WAKE then ReqWake uaddr val FUTEX_BITSET_MATCH_ANY
  else if cmd =? FUTEX_REQUEUE then ReqRequeue uaddr val (wrap32 timeout_gva) uaddr2 false 0
  else if cmd =? FUTEX_CMP_REQUEUE then ReqRequeue uaddr val (wrap32 timeout_gva) uaddr2 true val3
  else if cmd =? FUTEX_WAKE_OP then ReqWakeOp uaddr val uaddr2 (wrap32 timeout_gva) val3
  else if cmd =? FUTEX_WAIT_BITSET then ReqWait uaddr val timeout_gva val3 true
  else if cmd =? FUTEX_WAKE_BITSET then ReqWake uaddr val val3
  else if cmd =? FUTEX_LOCK_PI then ReqLockPi uaddr timeout_gva
  else if cmd =? FUTEX_UNLOCK_PI then ReqUnlockPi uaddr
  else if cmd =? FUTEX_TRYLOCK_PI then ReqTrylockPi uaddr
  else ReqNosys.

(** ** futex_waitv *)

Record futex_waitv_t := mk_waitv { v_val : Z; v_uaddr : Z; v_flags : Z; v_reserved : Z }.

Fixpoint waitv_decode (l : list Z) : list futex_waitv_t :=
  match l with
  | val :: uaddr :: last :: l => mk_waitv val uaddr (wrap32 last) (Z.shiftr last 32) :: waitv_decode l
  | _ => []
  end.

Definition waitv_elt_valid (e : futex_waitv_t) : bool :=
  (v_reserved e =? 0) && (Z.land (v_flags e) (Z.lnot FUTEX2_VALID_FLAGS) =? 0) &&
  (Z.land (v_flags e) FUTEX2_SIZE_MASK =? FUTEX2_SIZE_U32) && futex_uaddr_is_aligned (v_uaddr e).

Definition LINUX_CLOCK_REALTIME : Z := 0.
Definition LINUX_CLOCK_MONOTONIC : Z := 1.

(** Everything before the first charge: an error, or the deadline and the elements. *)
Definition waitv_checks (m : M) (waiters_gva nr_futexes flags timeout_gva clockid now_sec now_usec : Z) (mono : timespec)
    : Z + (option timespec * list futex_waitv_t) :=
  if negb (flags =? 0) then inl (- LINUX_EINVAL)
  else if (nr_futexes =? 0) || (FUTEX_WAITV_MAX <? nr_futexes) || (waiters_gva =? 0) then inl (- LINUX_EINVAL)
  else if negb (timeout_gva =? 0) && negb (clockid =? LINUX_CLOCK_REALTIME) && negb (clockid =? LINUX_CLOCK_MONOTONIC)
  then inl (- LINUX_EINVAL)
  else
    match match timeout_arg m timeout_gva with
          | None => inr None
          | Some None => inl (- LINUX_EFAULT)
          | Some (Some lts) =>
              if negb (linux_timespec_is_valid lts) then inl (- LINUX_EINVAL)
              else inr (Some (waitv_deadline (clockid =? LINUX_CLOCK_MONOTONIC) lts mono now_sec now_usec))
          end with
    | inl rc => inl rc
    | inr deadline =>
        match read64s m waiters_gva (3 * Z.to_nat nr_futexes) with
        | None => inl (- LINUX_EFAULT)
        | Some l => let elts := waitv_decode l in if forallb waitv_elt_valid elts then inr (deadline, elts) else inl (- LINUX_EINVAL)
        end
    end.

Definition waitv_collect_buckets (elts : list futex_waitv_t) : list Z :=
  foldl (fun ids e => futex_bucket_insert ids (futex_hash (v_uaddr e))) [] elts.

(** Under the locks of all those buckets: the nodes queued, and the error that
    stopped it or 0. *)
Fixpoint waitv_enqueue s (group : nat) (elts : list futex_waitv_t) : list nat * Z * futex M :=
  match elts with
  | [] => ([], 0, s)
  | e :: elts =>
      let idx := futex_hash (v_uaddr e) in
      let block := futex_should_block s (v_uaddr e) (wrap32 (v_val e)) in
      if negb (block =? 0) then ([], block, s)
      else
        let '(w, s) := enqueue s (mk_waiter (v_uaddr e) FUTEX_BITSET_MATCH_ANY false (Some group) idx true idx) idx in
        let '(ws, rc, s) := waitv_enqueue s group elts in (w :: ws, rc, s)
  end.

(** The first woken element. *)
Fixpoint waitv_scan s (ws : list nat) (i : Z) : option Z :=
  match ws with
  | [] => None
  | w :: ws => if w_woken (node s w) then Some i else waitv_scan s ws (i + 1)
  end.

(** One pass, up to the sleep and after it. *)
Definition waitv_top s (ws : list nat) (stop : bool) (deadline : option timespec) (clock : timespec) : wait_next :=
  match waitv_scan s ws 0 with
  | Some i => WaitExit i
  | None =>
      if stop then WaitExit (- LINUX_EINTR)
      else
        let wait_ts := timespec_deadline_in_ms clock 100 in
        WaitSleep (match deadline with
          | Some d => if (tv_sec d <? tv_sec wait_ts) || ((tv_sec d =? tv_sec wait_ts) && (tv_nsec d <? tv_nsec wait_ts)) then d else wait_ts
          | None => wait_ts end)
  end.

Definition waitv_slept s (ws : list nat) (deadline : option timespec) (now_sec now_usec : Z) : wait_next :=
  match deadline with
  | None => WaitAgain
  | Some d =>
      if (tv_sec d <? now_sec) || ((now_sec =? tv_sec d) && (tv_nsec d <=? now_usec * 1000))
      then WaitExit (match waitv_scan s ws 0 with Some i => i | None => - LINUX_ETIMEDOUT end)
      else WaitAgain
  end.

Definition waitv_unlink s (w : nat) : futex M := bucket_unlink_locked s (w_home (node s w)) w.

(** ** Robust lists *)

Definition ROBUST_ENTRY_PI : Z := 1.
Definition robust_untag (p : Z) : Z := Z.land p (Z.lxor 18446744073709551615 ROBUST_ENTRY_PI).

Definition futex_wake_owner_died s (uaddr : Z) : futex M := futex_wake_first_locked s (futex_hash uaddr) uaddr.

Definition robust_futex_gva (p futex_offset : Z) : Z :=
  if 0 <=? futex_offset then (p + futex_offset)%u64 else (p - (- futex_offset))%u64.

Definition robust_reachable (gva : Z) : bool := negb (281474976710655 <? gva) && futex_uaddr_is_aligned gva.

(** The value to leave in a word the dying thread owns. *)
Definition robust_owned (m : M) (gva tid : Z) : option Z :=
  match read32 m gva with
  | None => None
  | Some v => if futex_pi_owner_tid v =? tid then Some (futex_pi_mark_owner_died v) else None
  end.

Definition robust_visit s (gva tid : Z) : futex M :=
  match robust_owned (q_mem s) gva tid with
  | None => s
  | Some v => match write32 (q_mem s) gva v with None => s | Some m => futex_wake_owner_died (set_mem m s) gva end
  end.

Definition robust_next s (p : Z) : option Z := match read64s (q_mem s) p 1 with Some [next] => Some (robust_untag next) | _ => None end.

(** [count] is what is left of ROBUST_LIST_LIMIT. *)
Fixpoint robust_loop (count : nat) s (list_ptr head_entry futex_offset tid : Z) : futex M :=
  match count with
  | O => s
  | S count =>
      if list_ptr =? head_entry then s
      else
        let gva := robust_futex_gva list_ptr futex_offset in
        let s := if robust_reachable gva then robust_visit s gva tid else s in
        match robust_next s list_ptr with
        | None => s
        | Some next => robust_loop count s next head_entry futex_offset tid
        end
  end.

Definition robust_list_walk s (head_gva tid : Z) : futex M :=
  if head_gva =? 0 then s
  else match read64s (q_mem s) head_gva 3 with
       | Some [list_ptr; offset; op_pending] =>
           let futex_offset := to_int64 offset in
           let pending := robust_untag op_pending in
           let s := robust_loop ROBUST_LIST_LIMIT s (robust_untag list_ptr) head_gva futex_offset tid in
           if negb (pending =? 0) && negb (pending =? head_gva) then
             let gva := robust_futex_gva pending futex_offset in
             if robust_reachable gva then robust_visit s gva tid else s
           else s
       | _ => s
       end.
End Futex.
