(* ===== verification/FutexFacts.v ===== *)
(** * Lemmas about the futex queues

    How chains, nodes and counts change under the primitive operations, and closed
    forms for the walks of a wake and of a requeue. *)

From S2P Require Import Prelude FutexWord Futex.

#[local] Open Scope Z_scope.

(** ** Buckets *)

Definition bucket (b : Z) : Prop := 0 <= b < FUTEX_BUCKETS.

Lemma futex_hash_bucket uaddr : bucket (futex_hash uaddr).
Proof.
  unfold bucket, futex_hash, futex_bucket_index, wrap32, FUTEX_BUCKETS, two32.
  set (x := Z.shiftr _ _). pose proof (Z.mod_pos_bound x 1024 ltac:(lia)). rewrite Z.mod_small; lia.
Qed.

Lemma bucket_to_nat b c : bucket b -> bucket c -> Z.to_nat b = Z.to_nat c -> b = c.
Proof. unfold bucket. lia. Qed.

(** ** Removing one element *)

Lemma remove_first_notin w l : w ∉ l -> remove_first w l = l.
Proof.
  induction l as [|x l IH]; cbn; intros N; [done|]. apply not_elem_of_cons in N as [N N'].
  destruct (Nat.eqb_spec x w); [congruence|]. by rewrite IH.
Qed.

Lemma remove_first_app w l1 l2 : w ∉ l1 -> remove_first w (l1 ++ w :: l2) = l1 ++ l2.
Proof.
  induction l1 as [|x l IH]; cbn; intros N; [by rewrite Nat.eqb_refl|].
  apply not_elem_of_cons in N as [N N']. destruct (Nat.eqb_spec x w); [congruence|]. by rewrite IH.
Qed.

Lemma remove_first_elem w x l : NoDup l -> x ∈ remove_first w l <-> x ∈ l /\ x <> w.
Proof.
  induction l as [|y l IH]; cbn; intros N; [by rewrite !elem_of_nil; tauto|]. inversion_clear N as [|? ? N1 N2].
  destruct (Nat.eqb_spec y w) as [->|]; rewrite ?elem_of_cons, ?IH by done; [|naive_solver].
  split; [|naive_solver]. intros H. split; [by right|]. by intros ->.
Qed.

Lemma remove_first_NoDup w l : NoDup l -> NoDup (remove_first w l).
Proof.
  induction l as [|y l IH]; cbn; intros N; [done|]. inversion_clear N as [|? ? N1 N2].
  destruct (Nat.eqb_spec y w); [done|]. constructor; [|by apply IH]. rewrite remove_first_elem by done. tauto.
Qed.

(** ** Reading a state after an update *)

Section Facts.
Context {M : Type} `{FM : FutexMem M}.
Implicit Types s : futex M.

(** The two arrays have their size. *)
Definition shaped s : Prop := length (q_buckets s) = Z.to_nat FUTEX_BUCKETS /\ length (q_counts s) = Z.to_nat FUTEX_BUCKETS.

Lemma chain_set_chain s b l c : shaped s -> bucket b -> bucket c -> chain (set_chain s b l) c = if decide (c = b) then l else chain s c.
Proof.
  intros [L _] B C. unfold chain, set_chain. cbn [q_buckets]. rewrite !nth_lookup. case_decide as D.
  - subst. rewrite list_lookup_insert_eq by (unfold bucket in *; lia). done.
  - rewrite list_lookup_insert_ne; [done|]. intros E. apply D. symmetry. by apply bucket_to_nat.
Qed.

Lemma node_alter s f w x : (w < length (q_nodes s))%nat ->
  node (set_nodes (alter f w (q_nodes s)) s) x = if decide (x = w) then f (node s w) else node s x.
Proof.
  intros L. unfold node, set_nodes. cbn [q_nodes]. rewrite !nth_lookup. case_decide as D.
  - subst. rewrite list_lookup_alter_eq. destruct (lookup_lt_is_Some_2 _ _ L) as [y ->]. done.
  - by rewrite list_lookup_alter_ne.
Qed.

Lemma waiters_get_add s b d c : shaped s -> bucket b -> bucket c ->
  shim_globals_futex_waiters_get (shim_globals_futex_waiters_add s b d) c =
  if decide (c = b) then wrap32 (shim_globals_futex_waiters_get s b + d) else shim_globals_futex_waiters_get s c.
Proof.
  intros [_ L] B C. unfold shim_globals_futex_waiters_get, shim_globals_futex_waiters_add, bucket in *.
  destruct (Z.leb_spec FUTEX_BUCKETS b); [lia|]. destruct (Z.leb_spec FUTEX_BUCKETS c); [lia|].
  cbn [set_counts q_counts]. rewrite !nth_lookup. case_decide as D.
  - subst. rewrite list_lookup_alter_eq. assert (K : (Z.to_nat b < length (q_counts s))%nat) by lia.
    destruct (lookup_lt_is_Some_2 _ _ K) as [y ->]. done.
  - rewrite list_lookup_alter_ne; [done|]. intros E. apply D. lia.
Qed.

Lemma shaped_set_chain s b l : shaped s -> shaped (set_chain s b l).
Proof. unfold shaped, set_chain. cbn. by rewrite length_insert. Qed.
Lemma shaped_add s b d : shaped s -> shaped (shim_globals_futex_waiters_add s b d).
Proof. unfold shaped, shim_globals_futex_waiters_add. case_if; cbn; rewrite ?length_alter; done. Qed.

(** *** Waking one node *)

Lemma wake_node_fields s w :
  q_mem (wake_node s w) = q_mem s /\ q_buckets (wake_node s w) = q_buckets s /\
  q_nodes (wake_node s w) = alter mark_woken w (q_nodes s) /\ q_counts (wake_node s w) = q_counts s.
Proof. unfold wake_node, futex_waiter_notify_group. by destruct (w_group _). Qed.

Lemma wake_node_node s w x : (w < length (q_nodes s))%nat ->
  node (wake_node s w) x = if decide (x = w) then mark_woken (node s w) else node s x.
Proof.
  intros L. destruct (wake_node_fields s w) as (_ & _ & E & _). rewrite <- node_alter by done. unfold node. by rewrite E.
Qed.

Lemma wake_node_length s w : length (q_nodes (wake_node s w)) = length (q_nodes s).
Proof. destruct (wake_node_fields s w) as (_ & _ & -> & _). apply length_alter. Qed.

Lemma wake_node_chain s w b : chain (wake_node s w) b = chain s b.
Proof. unfold chain. by destruct (wake_node_fields s w) as (_ & -> & _ & _). Qed.

(** Several nodes woken in turn. *)
Definition wake_nodes s (W : list nat) : futex M := foldl wake_node s W.

Lemma wake_nodes_cons s w W : wake_nodes s (w :: W) = wake_nodes (wake_node s w) W.
Proof. done. Qed.

Lemma wake_nodes_fields W s :
  q_mem (wake_nodes s W) = q_mem s /\ q_buckets (wake_nodes s W) = q_buckets s /\
  length (q_nodes (wake_nodes s W)) = length (q_nodes s) /\ q_counts (wake_nodes s W) = q_counts s.
Proof.
  revert s. induction W as [|w W IH]; intros s; [done|]. rewrite wake_nodes_cons. destruct (IH (wake_node s w)) as (-> & -> & -> & ->).
  destruct (wake_node_fields s w) as (-> & -> & _ & ->). by rewrite wake_node_length.
Qed.

Lemma wake_nodes_node W s x : Forall (fun w => (w < length (q_nodes s))%nat) W ->
  node (wake_nodes s W) x = if decide (x ∈ W) then mark_woken (node s x) else node s x.
Proof.
  revert s. induction W as [|w W IH]; intros s V.
  - rewrite decide_False by apply not_elem_of_nil. done.
  - rewrite wake_nodes_cons. inversion_clear V as [|? ? V1 V2]. rewrite IH by (rewrite wake_node_length; done). rewrite wake_node_node by done.
    destruct (decide (x = w)) as [->|N].
    + rewrite (decide_True (P := w ∈ w :: W)) by (by left). by case_decide.
    + destruct (decide (x ∈ W)); [rewrite decide_True by (by right)|rewrite decide_False; [|rewrite elem_of_cons; tauto]]; done.
Qed.

(** The signals sent to a woken waiter. *)
Definition signals (w : nat) (x : futex_waiter_t) : list sent :=
  CondSignal w :: match w_group x with Some group => [GroupSignal group] | None => [] end.

Lemma wake_node_sent s w : q_sent (wake_node s w) = q_sent s ++ signals w (node s w).
Proof.
  unfold wake_node, futex_waiter_notify_group, signals.
  assert (E : w_group (node (send (set_nodes (alter mark_woken w (q_nodes s)) s) (CondSignal w)) w) = w_group (node s w)).
  { unfold node, send, set_nodes. cbn. rewrite !nth_lookup, list_lookup_alter_eq. by destruct (q_nodes s !! w). }
  rewrite E. destruct (w_group (node s w)); cbn; by rewrite <- ?app_assoc.
Qed.

Lemma wake_nodes_sent W s : NoDup W -> Forall (fun w => (w < length (q_nodes s))%nat) W ->
  q_sent (wake_nodes s W) = q_sent s ++ flat_map (fun w => signals w (node s w)) W.
Proof.
  revert s. induction W as [|w W IH]; intros s N V; [by rewrite app_nil_r|].
  inversion_clear N as [|? ? N1 N2]. inversion_clear V as [|? ? V1 V2]. rewrite wake_nodes_cons. cbn [flat_map].
  rewrite IH; [|done|by rewrite wake_node_length]. rewrite wake_node_sent, <- app_assoc. do 2 f_equal.
  rewrite !flat_map_concat_map. f_equal. apply map_ext_in. intros x X. apply list_elem_of_In in X.
  rewrite wake_node_node by done. rewrite decide_False; [done|]. by intros ->.
Qed.

(** *** The walk of a wake *)

Definition without (W l : list nat) : list nat := List.filter (fun w => negb (bool_decide (w ∈ W))) l.

Lemma without_nil l : without [] l = l.
Proof. induction l as [|x l IH]; [done|]. cbn. rewrite bool_decide_eq_false_2 by apply not_elem_of_nil. cbn. by f_equal. Qed.

Lemma without_cons_notin w W l : w ∉ l -> without (w :: W) l = without W l.
Proof.
  intros N. apply filter_ext_in. intros x X. apply list_elem_of_In in X. f_equal. apply bool_decide_ext.
  rewrite elem_of_cons. split; [|tauto]. intros [->|]; done.
Qed.

Lemma without_skip W w l : w ∉ W -> without W (w :: l) = w :: without W l.
Proof. intros N. unfold without. cbn. by rewrite bool_decide_eq_false_2. Qed.
Lemma without_drop w W l : without (w :: W) (w :: l) = without (w :: W) l.
Proof. unfold without. cbn. by rewrite bool_decide_eq_true_2 by (by left). Qed.

Definition valid s (w : nat) : Prop := (w < length (q_nodes s))%nat.

Lemma sublist_take_filter {A} (p : A -> bool) n l : take n (List.filter p l) `sublist_of` l.
Proof.
  transitivity (List.filter p l); [apply sublist_take|]. induction l as [|x l IH]; [done|]. cbn. case_if; by constructor.
Qed.

Lemma filter_nodes_ext s s' (p : futex_waiter_t -> bool) l : (forall x, x ∈ l -> node s' x = node s x) ->
  List.filter (fun w => p (node s' w)) l = List.filter (fun w => p (node s w)) l.
Proof. intros E. apply filter_ext_in. intros x X. apply list_elem_of_In in X. by rewrite E. Qed.

Lemma wake_walk_eq hits l s woken val : NoDup l -> Forall (valid s) l -> 0 <= woken <= val ->
  let W := take (Z.to_nat (val - woken)) (List.filter (fun w => hits (node s w)) l) in
  wake_walk s hits l woken val = (without W l, woken + Z.of_nat (length W), wake_nodes s W).
Proof.
  revert s woken. induction l as [|w l IH]; intros s woken N V R; cbn [wake_walk].
  - cbn. rewrite take_nil. cbn. by rewrite Z.add_0_r.
  - inversion_clear N as [|? ? N1 N2]. inversion_clear V as [|? ? V1 V2]. destruct (Z.ltb_spec woken val) as [L|L].
    + cbn [List.filter]. destruct (hits (node s w)) eqn:H.
      * rewrite IH; [|done|eapply Forall_impl; [done|]; intros; unfold valid; by rewrite wake_node_length|lia].
        rewrite (filter_nodes_ext s).
        2:{ intros x X. rewrite wake_node_node by done. rewrite decide_False; [done|]. by intros ->. }
        replace (Z.to_nat (val - woken)) with (S (Z.to_nat (val - (woken + 1)))) by lia. cbn [take].
        rewrite without_drop, without_cons_notin, wake_nodes_cons by done. f_equal. f_equal. cbn [length]. lia.
      * rewrite IH by (done || lia). rewrite without_skip; [done|]. intros X.
        apply N1. eapply elem_of_submseteq; [done|]. apply sublist_submseteq, sublist_take_filter.
    + replace (val - woken) with 0 by lia. cbn [Z.to_nat take length Z.of_nat]. by rewrite without_nil, Z.add_0_r.
Qed.

(** *** The looks ahead for a PI waiter *)

Definition is_pi s (w : nat) : bool := negb (w_pub_follows (node s w)).

Lemma take_S_cons {A} n (x : A) l : 0 < n -> take (Z.to_nat n) (x :: l) = x :: take (Z.to_nat (n - 1)) l.
Proof. intros N. by replace (Z.to_nat n) with (S (Z.to_nat (n - 1))) by lia. Qed.

Lemma futex_pi_waiter_within_eq s l uaddr bitset n : 0 <= n ->
  futex_pi_waiter_within s l uaddr bitset n =
  existsb (is_pi s) (take (Z.to_nat n) (List.filter (fun w => wake_hits uaddr bitset (node s w)) l)).
Proof.
  revert n. induction l as [|w l IH]; intros n N; cbn [futex_pi_waiter_within List.filter]; [by rewrite take_nil|].
  destruct (Z.eqb_spec n 0) as [->|]; [done|]. unfold wake_hits at 1.
  destruct (w_uaddr (node s w) =? uaddr); cbn [negb orb andb]; [|by apply IH].
  destruct (Z.land (w_bitset (node s w)) bitset =? 0); cbn [negb]; [by apply IH|].
  rewrite take_S_cons by lia. cbn [existsb]. unfold is_pi at 1. case_if; [done|]. cbn. apply IH. lia.
Qed.

Lemma requeue_meets_pi_eq s l uaddr n : 0 <= n ->
  requeue_meets_pi s l uaddr n = existsb (is_pi s) (take (Z.to_nat n) (List.filter (fun w => w_uaddr (node s w) =? uaddr) l)).
Proof.
  revert n. induction l as [|w l IH]; intros n N; cbn [requeue_meets_pi List.filter]; [by rewrite take_nil|].
  destruct (Z.eqb_spec n 0) as [->|]; [done|].
  destruct (w_uaddr (node s w) =? uaddr); cbn [negb]; [|by apply IH].
  rewrite take_S_cons by lia. cbn [existsb]. unfold is_pi at 1. case_if; [done|]. cbn. apply IH. lia.
Qed.

(** *** Moving waiters *)

Definition moved (uaddr2 dst : Z) (x : futex_waiter_t) : futex_waiter_t :=
  mk_waiter uaddr2 (w_bitset x) (w_woken x) (w_group x) (if w_pub_follows x then dst else w_pub_bucket x) (w_pub_follows x) dst.

Lemma add_fields s b d :
  q_mem (shim_globals_futex_waiters_add s b d) = q_mem s /\ q_buckets (shim_globals_futex_waiters_add s b d) = q_buckets s /\
  q_nodes (shim_globals_futex_waiters_add s b d) = q_nodes s /\ q_sent (shim_globals_futex_waiters_add s b d) = q_sent s.
Proof. unfold shim_globals_futex_waiters_add. by case_if. Qed.

(** The charge of a moved waiter. *)
Definition recharge s (w : nat) (dst : Z) : futex M :=
  if w_pub_follows (node s w)
  then shim_globals_futex_waiters_add (shim_globals_futex_waiters_add s dst 1) (w_pub_bucket (node s w)) (-1) else s.

Lemma node_add s b d w : node (shim_globals_futex_waiters_add s b d) w = node s w.
Proof. unfold node. by destruct (add_fields s b d) as (_ & _ & -> & _). Qed.

Lemma move_waiter_fields s w uaddr2 dst :
  q_mem (move_waiter s w uaddr2 dst) = q_mem s /\
  q_buckets (move_waiter s w uaddr2 dst) = <[Z.to_nat dst := w :: chain s dst]> (q_buckets s) /\
  q_nodes (move_waiter s w uaddr2 dst) = alter (moved uaddr2 dst) w (q_nodes s) /\
  q_counts (move_waiter s w uaddr2 dst) = q_counts (recharge s w dst).
Proof.
  unfold move_waiter, recharge. rewrite node_add.
  set (s1 := shim_globals_futex_waiters_add s dst 1). set (s2 := shim_globals_futex_waiters_add s1 _ _).
  destruct (add_fields s dst 1) as (A1 & B1 & C1 & _). destruct (add_fields s1 (w_pub_bucket (node s w)) (-1)) as (A2 & B2 & C2 & _).
  fold s1 in A1, B1, C1. fold s2 in A2, B2, C2.
  assert (H : alter (rehome dst) w (alter (rekey uaddr2) w (if w_pub_follows (node s w) then alter (repub dst) w (q_nodes s) else q_nodes s))
            = alter (moved uaddr2 dst) w (q_nodes s)).
  { apply list_eq. intros i. destruct (decide (i = w)) as [->|]; [|by case_if; rewrite !list_lookup_alter_ne].
    destruct (q_nodes s !! w) as [x|] eqn:E.
    - assert (X : node s w = x) by (unfold node; by rewrite nth_lookup, E). rewrite X.
      unfold moved. destruct (w_pub_follows x) eqn:F; rewrite !list_lookup_alter_eq, E; unfold rehome, rekey, repub; cbn; rewrite ?F; reflexivity.
    - case_if; by rewrite !list_lookup_alter_eq, E. }
  destruct (w_pub_follows (node s w)); unfold chain, set_chain, set_nodes, send; cbn [q_mem q_buckets q_nodes q_counts];
    rewrite ?A2, ?A1, ?B2, ?B1, ?C2, ?C1, ?H; done.
Qed.

Lemma move_waiter_node s w uaddr2 dst x : valid s w ->
  node (move_waiter s w uaddr2 dst) x = if decide (x = w) then moved uaddr2 dst (node s w) else node s x.
Proof.
  intros V. destruct (move_waiter_fields s w uaddr2 dst) as (_ & _ & E & _). rewrite <- node_alter by done. unfold node. by rewrite E.
Qed.

Lemma move_waiter_length s w uaddr2 dst : length (q_nodes (move_waiter s w uaddr2 dst)) = length (q_nodes s).
Proof. destruct (move_waiter_fields s w uaddr2 dst) as (_ & _ & -> & _). apply length_alter. Qed.

(** What a requeue does to the waiters it takes along. *)
Definition shift_waiter (same : bool) (uaddr2 dst : Z) s (w : nat) : futex M :=
  if same then set_nodes (alter (rekey uaddr2) w (q_nodes s)) s else move_waiter s w uaddr2 dst.
Definition shifted (same : bool) (uaddr2 dst : Z) (x : futex_waiter_t) : futex_waiter_t :=
  if same then rekey uaddr2 x else moved uaddr2 dst x.
Definition shift_nodes (same : bool) (uaddr2 dst : Z) s (R : list nat) : futex M := foldl (shift_waiter same uaddr2 dst) s R.

Lemma shift_waiter_node same uaddr2 dst s w x : valid s w ->
  node (shift_waiter same uaddr2 dst s w) x = if decide (x = w) then shifted same uaddr2 dst (node s w) else node s x.
Proof. intros V. destruct same; [by apply node_alter|by apply move_waiter_node]. Qed.

Lemma shift_waiter_length same uaddr2 dst s w : length (q_nodes (shift_waiter same uaddr2 dst s w)) = length (q_nodes s).
Proof. destruct same; [apply length_alter|apply move_waiter_length]. Qed.

Lemma forall_valid s s' l : length (q_nodes s') = length (q_nodes s) -> Forall (valid s) l -> Forall (valid s') l.
Proof. intros E. apply Forall_impl. intros x. unfold valid. lia. Qed.

(** The waiters on [uaddr] in a chain. *)
Definition on s (uaddr : Z) (l : list nat) : list nat := List.filter (fun w => w_uaddr (node s w) =? uaddr) l.

Lemma on_ext s s' uaddr w l : w ∉ l -> (forall x, x <> w -> node s' x = node s x) -> on s' uaddr l = on s uaddr l.
Proof. intros N E. apply filter_nodes_ext with (p := fun x => w_uaddr x =? uaddr). intros x X. apply E. by intros ->. Qed.

Lemma on_take_notin s uaddr w l n k : w ∉ l -> w ∉ take n (drop k (on s uaddr l)).
Proof.
  intros N X. apply N. eapply elem_of_submseteq; [done|]. apply sublist_submseteq.
  etransitivity; [apply sublist_take|]. etransitivity; [apply sublist_drop|]. unfold on.
  induction l as [|x l' IH] in N |- *; [done|]. apply not_elem_of_cons in N as [_ N]. cbn. case_if; constructor; auto.
Qed.

(** The second half of the walk, which moves. *)
Lemma requeue_walk_moves uaddr uaddr2 dst same l s woken requeued nw nr :
  NoDup l -> Forall (valid s) l -> nw <= woken -> 0 <= requeued <= nr ->
  let R := take (Z.to_nat (nr - requeued)) (on s uaddr l) in
  requeue_walk s l uaddr uaddr2 dst same woken requeued nw nr =
  (without (if same then [] else R) l, woken, requeued + Z.of_nat (length R), shift_nodes same uaddr2 dst s R).
Proof.
  revert s requeued. induction l as [|w l IH]; intros s requeued N V R1 R2; cbn [requeue_walk].
  { cbn. rewrite take_nil. cbn. rewrite Z.add_0_r. by destruct same. }
  inversion_clear N as [|? ? N1 N2]. inversion_clear V as [|? ? V1 V2]. unfold on. cbn [List.filter]. fold (on s uaddr l).
  destruct (w_uaddr (node s w) =? uaddr) eqn:H; cbn [negb].
  - unfold futex_requeue_step. destruct (Z.ltb_spec woken nw); [lia|]. destruct (Z.ltb_spec requeued nr).
    + specialize (IH (shift_waiter same uaddr2 dst s w) (requeued + 1) N2).
      rewrite (on_ext s _ uaddr w) in IH; [|done|intros x X; rewrite shift_waiter_node by done; by rewrite decide_False].
      specialize (IH (forall_valid s _ l (shift_waiter_length _ _ _ _ _) V2) R1 ltac:(lia)). cbv zeta in IH.
      rewrite take_S_cons by lia. replace (nr - requeued - 1) with (nr - (requeued + 1)) by lia. cbn [length].
      rewrite Nat2Z.inj_succ, <- Z.add_1_l, Z.add_assoc.
      destruct same; unfold shift_waiter in IH; rewrite IH; [by rewrite !without_nil|].
      by rewrite without_drop, without_cons_notin.
    + replace (Z.to_nat (nr - requeued)) with 0%nat by lia. cbn [take length Z.of_nat]. rewrite Z.add_0_r. by destruct same; rewrite without_nil.
  - rewrite IH by done. f_equal. f_equal. f_equal. destruct same; [by rewrite !without_nil|]. rewrite without_skip; [done|].
    rewrite <- (drop_0 (on s uaddr l)). by apply on_take_notin.
Qed.

Lemma requeue_walk_eq uaddr uaddr2 dst same l s woken nw nr :
  NoDup l -> Forall (valid s) l -> 0 <= woken <= nw -> 0 <= nr ->
  let W := take (Z.to_nat (nw - woken)) (on s uaddr l) in
  let R := take (Z.to_nat nr) (drop (Z.to_nat (nw - woken)) (on s uaddr l)) in
  requeue_walk s l uaddr uaddr2 dst same woken 0 nw nr =
  (without (W ++ if same then [] else R) l, woken + Z.of_nat (length W), Z.of_nat (length R),
   shift_nodes same uaddr2 dst (wake_nodes s W) R).
Proof.
  revert s woken. induction l as [|w l IH]; intros s woken N V R1 R2.
  { cbn. rewrite drop_nil, !take_nil. cbn. by rewrite !Z.add_0_r. }
  destruct (decide (woken = nw)) as [->|NE].
  { rewrite Z.sub_diag. cbn [Z.to_nat take drop app length]. rewrite Z.add_0_r. rewrite requeue_walk_moves by (done || lia). by rewrite Z.sub_0_r. }
  cbn [requeue_walk]. inversion_clear N as [|? ? N1 N2]. inversion_clear V as [|? ? V1 V2]. unfold on. cbn [List.filter]. fold (on s uaddr l).
  destruct (w_uaddr (node s w) =? uaddr) eqn:H; cbn [negb].
  - unfold futex_requeue_step. destruct (Z.ltb_spec woken nw); [|lia]. specialize (IH (wake_node s w) (woken + 1) N2).
    rewrite (on_ext s _ uaddr w) in IH; [|done|intros x X; rewrite wake_node_node by done; by rewrite decide_False].
    rewrite IH by (lia || by eapply forall_valid; [apply wake_node_length|]). cbv zeta.
    replace (Z.to_nat (nw - woken)) with (S (Z.to_nat (nw - (woken + 1)))) by lia. cbn [take drop app length].
    rewrite without_drop, without_cons_notin, wake_nodes_cons by done. do 3 f_equal. lia.
  - rewrite IH by done. f_equal. f_equal. f_equal. rewrite without_skip; [done|]. rewrite elem_of_app. intros [X|X].
    + revert X. rewrite <- (drop_0 (on s uaddr l)). by apply on_take_notin.
    + destruct same; [by apply not_elem_of_nil in X|]. revert X. by apply on_take_notin.
Qed.

(** *** The compare-and-swap loops *)

(** What holds of the memory throughout, and what the loop ends with. *)
Lemma cas_loop_rule (P : M -> Prop) (Q : cas_result -> Prop) env u edit fuel m r :
  P m -> (forall k m, P m -> P (env k m)) ->
  (forall m, P m -> Q (CasFault m)) ->
  (forall m v, P m -> word_load m u = Some v -> edit v = None -> Q (CasStop v m)) ->
  (forall m v v' m', P m -> word_load m u = Some v -> edit v = Some v' -> word_store m u v' = Some m' -> Q (CasDone v m')) ->
  cas_loop fuel env m u edit = Some r -> Q r.
Proof.
  intros HP HE HF HS HD. revert m HP. induction fuel as [|fuel IH]; intros m HP; cbn; [done|].
  destruct (word_load m u) as [v|] eqn:L; [|intros [= <-]; auto].
  destruct (edit v) as [v'|] eqn:E; [|intros [= <-]; eauto]. unfold futex_word_cas.
  destruct (word_load (env fuel m) u) as [x|] eqn:L'; [|intros [= <-]; auto].
  destruct (Z.eqb_spec x v) as [->|]; [|by apply IH, HE].
  destruct (word_store (env fuel m) u v') as [m'|] eqn:S; intros [= <-]; [apply (HD (env fuel m) v v'); auto|auto].
Qed.

(** The loop ends once the guest leaves the word alone for one round. *)
Lemma cas_loop_ends env u edit fuel m k : (k < fuel)%nat -> (forall m, word_load (env k m) u = word_load m u) ->
  is_Some (cas_loop fuel env m u edit).
Proof.
  revert m. induction fuel as [|fuel IH]; intros m K H; [lia|]. cbn.
  destruct (word_load m u) as [v|] eqn:L; [|done]. destruct (edit v); [|done]. unfold futex_word_cas.
  destruct (word_load (env fuel m) u) as [x|] eqn:L'; [|done].
  destruct (Z.eqb_spec x v) as [->|N]; [by destruct (word_store _ _ _)|]. apply IH; [|done].
  destruct (decide (k = fuel)) as [->|]; [|lia]. rewrite H in L'. congruence.
Qed.
End Facts.

(** ** Counting *)

Definition cnt {A} (p : A -> bool) (l : list A) : Z := Z.of_nat (length (List.filter p l)).

Lemma cnt_nil {A} (p : A -> bool) : cnt p [] = 0.
Proof. done. Qed.
Lemma cnt_cons {A} (p : A -> bool) x l : cnt p (x :: l) = (if p x then 1 else 0) + cnt p l.
Proof. unfold cnt. cbn. case_if; cbn [length]; lia. Qed.
Lemma cnt_app {A} (p : A -> bool) l1 l2 : cnt p (l1 ++ l2) = cnt p l1 + cnt p l2.
Proof. unfold cnt. rewrite List.filter_app, length_app. lia. Qed.
Lemma cnt_pos {A} (p : A -> bool) l : 0 <= cnt p l.
Proof. unfold cnt. lia. Qed.
Lemma cnt_perm {A} (p : A -> bool) l1 l2 : l1 ≡ₚ l2 -> cnt p l1 = cnt p l2.
Proof. induction 1; rewrite ?cnt_cons; lia. Qed.
Lemma cnt_ext {A} (p q : A -> bool) l : (forall x, x ∈ l -> p x = q x) -> cnt p l = cnt q l.
Proof. intros E. unfold cnt. do 2 f_equal. apply filter_ext_in. intros x X. apply E. by apply list_elem_of_In. Qed.

(** Changing the answer at one element. *)
Lemma cnt_at (p q : nat -> bool) w l : NoDup l -> w ∈ l -> (forall x, x <> w -> p x = q x) ->
  cnt q l = cnt p l - (if p w then 1 else 0) + (if q w then 1 else 0).
Proof.
  induction l as [|x l IH]; intros N W E; [by apply not_elem_of_nil in W|]. inversion_clear N as [|? ? N1 N2]. rewrite !cnt_cons.
  destruct (decide (x = w)) as [->|NE].
  - rewrite (cnt_ext p q l); [lia|]. intros y Y. apply E. by intros ->.
  - rewrite (E x NE), IH by (done || by apply elem_of_cons in W as [->|]). lia.
Qed.

(** A duplicate-free list inside another, all of it counted. *)
Lemma cnt_bound (p : nat -> bool) c l : NoDup c -> (forall w, w ∈ c -> w ∈ l /\ p w = true) -> Z.of_nat (length c) <= cnt p l.
Proof.
  intros N H. unfold cnt. apply inj_le. apply submseteq_length, NoDup_submseteq; [done|].
  intros w W. destruct (H w W). apply list_elem_of_In, filter_In. by rewrite <- list_elem_of_In.
Qed.
