(* ===== verification/FutexCore.v ===== *)
(** * The state of the futex queues between two critical sections

    [core s H P K] relates the queues and the published counts to what the calls in
    progress hold: [H] are the nodes a call still has a charge for, [P] the buckets
    charged without a node, [K] the nodes a call may still have in a chain. *)

From S2P Require Import Prelude FutexWord Futex FutexFacts.

#[local] Open Scope Z_scope.

Lemma submseteq_NoDup {A} (K H : list A) : K ⊆+ H -> NoDup H -> NoDup K.
Proof. intros S N. apply submseteq_Permutation in S as [k E]. rewrite E in N. by apply list.NoDup_app in N as (? & _). Qed.

Lemma submseteq_Forall {A} (Q : A -> Prop) (K H : list A) : K ⊆+ H -> Forall Q H -> Forall Q K.
Proof. intros S. rewrite !list.Forall_forall. intros F x X. apply F. by eapply elem_of_submseteq. Qed.

Section Core.
Context {M : Type} `{FM : FutexMem M}.
Implicit Types s : futex M.

Definition charges s (H : list nat) (P : list Z) (b : Z) : Z :=
  cnt (fun w => w_pub_bucket (node s w) =? b) H + cnt (fun p => p =? b) P.

(** What is true of a node on the chain of bucket [b]. *)
Definition queued s (b : Z) (w : nat) : Prop :=
  w_woken (node s w) = false /\ futex_hash (w_uaddr (node s w)) = b /\ w_pub_bucket (node s w) = b /\
  futex_uaddr_is_aligned (w_uaddr (node s w)) = true /\ (w_pub_follows (node s w) = true -> w_home (node s w) = b).

(** The buckets a node names are buckets. *)
Definition placed (x : futex_waiter_t) : Prop := bucket (w_pub_bucket x) /\ (w_pub_follows x = true -> bucket (w_home x)).

Record core s (H : list nat) (P : list Z) (K : list nat) : Prop := {
  co_shaped : shaped s;
  co_chains : forall b, bucket b -> NoDup (chain s b);
  co_queued : forall b w, bucket b -> w ∈ chain s b -> w ∈ K /\ queued s b w;
  co_held : NoDup H;
  co_valid : Forall (valid s) H;
  co_parked : K ⊆+ H;
  co_linked : forall w, w ∈ K -> w_woken (node s w) = false -> w ∈ chain s (futex_hash (w_uaddr (node s w)));
  co_counts : forall b, bucket b -> shim_globals_futex_waiters_get s b = wrap32 (charges s H P b);
  co_pub : forall w, w ∈ H -> placed (node s w)
}.

Lemma charges_perm s H H' P P' b : H ≡ₚ H' -> P ≡ₚ P' -> charges s H P b = charges s H' P' b.
Proof. intros E1 E2. unfold charges. by rewrite (cnt_perm _ _ _ E1), (cnt_perm _ _ _ E2). Qed.

Lemma core_perm s H H' P P' K K' : H ≡ₚ H' -> P ≡ₚ P' -> K ≡ₚ K' -> core s H P K -> core s H' P' K'.
Proof.
  intros E1 E2 E3 [A B C D E F G I J]. constructor; auto.
  - intros b w Hb W. rewrite <- E3. auto.
  - by rewrite <- E1.
  - by rewrite <- E1.
  - by rewrite <- E1, <- E3.
  - intros w W. rewrite <- E3 in W. auto.
  - intros b Hb. rewrite I by done. by rewrite (charges_perm _ _ _ _ _ b E1 E2).
  - intros w W. rewrite <- E1 in W. auto.
Qed.

Lemma core_valid s H P K b w : core s H P K -> bucket b -> w ∈ chain s b -> valid s w.
Proof.
  intros C Hb W. destruct (co_queued _ _ _ _ C b w Hb W) as [X _]. eapply list.Forall_forall; [by eapply co_valid|].
  eapply elem_of_submseteq; [exact X|by eapply co_parked].
Qed.

Lemma core_chain_valid s H P K b : core s H P K -> bucket b -> Forall (valid s) (chain s b).
Proof. intros C Hb. apply list.Forall_forall. intros w W. by eapply core_valid. Qed.

(** ** Memory and counts *)

Lemma core_mem s H P K m : core s H P K -> core (set_mem m s) H P K.
Proof. by intros []. Qed.

Lemma wrap32_add a b : wrap32 (wrap32 a + b) = wrap32 (a + b).
Proof. unfold wrap32. by rewrite Zplus_mod_idemp_l. Qed.

Lemma core_add s H P P' K p d : bucket p -> (forall b, cnt (fun q => q =? b) P' = cnt (fun q => q =? b) P + if p =? b then d else 0) ->
  core s H P K -> core (shim_globals_futex_waiters_add s p d) H P' K.
Proof.
  intros Hp E C. destruct (add_fields s p d) as (_ & B & N & _).
  assert (X : forall w, node (shim_globals_futex_waiters_add s p d) w = node s w) by (intros; apply node_add).
  assert (Y : forall b, chain (shim_globals_futex_waiters_add s p d) b = chain s b) by (intros; unfold chain; by rewrite B).
  destruct C as [C1 C2 C3 C4 C5 C6 C7 C8 C9]. constructor; unfold queued; auto.
  - by apply shaped_add.
  - intros b Hb. rewrite Y. auto.
  - intros b w Hb. rewrite Y, X. by apply C3.
  - eapply forall_valid; [|exact C5]. by rewrite N.
  - intros w W. rewrite Y, X. auto.
  - intros b Hb. rewrite waiters_get_add by done. unfold charges. rewrite E.
    rewrite (cnt_ext _ (fun w => w_pub_bucket (node s w) =? b)) by (intros; by rewrite X).
    destruct (Z.eqb_spec p b) as [->|NE].
    + rewrite decide_True by done. rewrite C8, wrap32_add by done. unfold charges. f_equal. lia.
    + rewrite decide_False by done. rewrite C8 by done. unfold charges. f_equal. lia.
  - intros w. rewrite X. auto.
Qed.

Lemma core_charge s H P K u : core s H P K -> core (wait_charge s u) H (futex_hash u :: P) K.
Proof. intros C. eapply core_add; [apply futex_hash_bucket| |exact C]. intros b. rewrite cnt_cons. case_if; lia. Qed.

Lemma core_drop s H P K p : bucket p -> core s H (p :: P) K -> core (wait_drop s p) H P K.
Proof. intros B C. eapply core_add; [done| |exact C]. intros b. rewrite cnt_cons. case_if; lia. Qed.

(** A node that is off the chains for good gives its charge back as a bucket. *)
Lemma core_convert s w H P K : w ∉ K -> core s (w :: H) P K -> core s H (w_pub_bucket (node s w) :: P) K.
Proof.
  intros N [C1 C2 C3 C4 C5 C6 C7 C8 C9]. constructor; auto.
  - by inversion C4.
  - by inversion C5.
  - apply submseteq_cons_r in C6 as [?|(K' & E & _)]; [done|]. exfalso. apply N. rewrite E. by left.
  - intros b Hb. rewrite C8 by done. f_equal. unfold charges. rewrite !cnt_cons. lia.
  - intros x X. apply C9. by right.
Qed.

(** ** Taking a node off its chain *)

(** The same counts, and a state that differs in the chains and in one node. *)
Lemma core_unlinked s s' H P K K' b w :
  core s H P K -> bucket b -> shaped s' ->
  length (q_nodes s') = length (q_nodes s) -> q_counts s' = q_counts s ->
  (forall c x, bucket c -> x ∈ chain s' c <-> x ∈ chain s c /\ x <> w) ->
  (forall c, bucket c -> NoDup (chain s' c)) ->
  (forall x, x <> w -> node s' x = node s x) -> (w_pub_bucket (node s' w) = w_pub_bucket (node s w) /\
    w_pub_follows (node s' w) = w_pub_follows (node s w) /\ w_home (node s' w) = w_home (node s w)) ->
  K' ⊆+ K -> (forall x, x ∈ K -> x <> w -> x ∈ K') -> (w ∈ K' -> w_woken (node s' w) = true) ->
  core s' H P K'.
Proof.
  intros [C1 C2 C3 C4 C5 C6 C7 C8 C9] Hb Sh L Cn Ch Nd Nx (Nw & Nf & Nh) K1 K2 K3. constructor; auto.
  - intros c x Hc X. apply Ch in X as [X NE]; [|done]. destruct (C3 c x Hc X) as [? Q]. split; [auto|]. unfold queued in *. by rewrite Nx.
  - by eapply forall_valid.
  - by etransitivity.
  - intros x X U. destruct (decide (x = w)) as [->|NE]; [rewrite K3 in U; done|]. rewrite Nx in * by done.
    apply Ch; [apply futex_hash_bucket|]. split; [|done]. apply C7; [|done]. by eapply elem_of_submseteq.
  - intros c Hc. unfold shim_globals_futex_waiters_get in *. rewrite Cn, C8 by done. f_equal. unfold charges. f_equal.
    apply cnt_ext. intros x _. destruct (decide (x = w)) as [->|NE]; [by rewrite Nw|by rewrite Nx].
  - intros x X. destruct (decide (x = w)) as [->|NE]; [|rewrite Nx by done; auto]. unfold placed. rewrite Nw, Nf, Nh. by apply C9.
Qed.

Lemma core_off_chain s H P K c w : core s H P K -> bucket c -> w ∈ chain s c -> futex_hash (w_uaddr (node s w)) = c.
Proof. intros C Hc W. by destruct (co_queued _ _ _ _ C c w Hc W) as (_ & _ & E & _). Qed.

(** One node unlinked from the middle of its chain. *)
Lemma chain_cut s H P K b w l1 l2 c x : core s H P K -> bucket b -> bucket c -> chain s b = l1 ++ w :: l2 ->
  x ∈ (if decide (c = b) then l1 ++ l2 else chain s c) <-> x ∈ chain s c /\ x <> w.
Proof.
  intros C Hb Hc E. assert (W : w ∈ chain s b) by (rewrite E; apply elem_of_app; right; by left). case_decide as D.
  - subst. pose proof (co_chains _ _ _ _ C b Hb) as N. rewrite E in N |- *. rewrite <- remove_first_app with (w := w).
    + by apply remove_first_elem.
    + apply list.NoDup_app in N as (_ & N & _). intros X. apply (N w X). by left.
  - split; [|tauto]. intros X. split; [done|]. intros ->. apply D.
    rewrite <- (core_off_chain _ _ _ _ c w C Hc X). by eapply core_off_chain.
Qed.

Lemma NoDup_cut {A} (w : A) l1 l2 : NoDup (l1 ++ w :: l2) -> NoDup (l1 ++ l2).
Proof. rewrite <- Permutation_middle. by inversion 1. Qed.

Lemma core_wake1 s H P K b w l1 l2 : core s H P K -> bucket b -> chain s b = l1 ++ w :: l2 ->
  core (set_chain (wake_node s w) b (l1 ++ l2)) H P K.
Proof.
  intros C Hb E. assert (W : w ∈ chain s b) by (rewrite E; apply elem_of_app; right; by left).
  pose proof (core_valid _ _ _ _ _ _ C Hb W) as V. destruct (wake_node_fields s w) as (_ & B & _ & Cn).
  assert (Sh : shaped (wake_node s w)) by (unfold shaped; rewrite B, Cn; apply C).
  assert (Ch : forall c, bucket c -> chain (set_chain (wake_node s w) b (l1 ++ l2)) c = if decide (c = b) then l1 ++ l2 else chain s c).
  { intros c Hc. rewrite chain_set_chain by done. by rewrite wake_node_chain. }
  eapply (core_unlinked s _ H P K K b w); try done.
  - by apply shaped_set_chain.
  - apply wake_node_length.
  - intros c x Hc. rewrite Ch by done. by eapply chain_cut.
  - intros c Hc. rewrite Ch by done. case_decide; [|by apply C]. subst. eapply NoDup_cut. rewrite <- E. by apply C.
  - intros x NE. change (node (set_chain ?s _ _) x) with (node s x). rewrite wake_node_node by done. by rewrite decide_False.
  - change (node (set_chain ?s _ _) w) with (node s w). rewrite wake_node_node by done. by rewrite decide_True.
  - intros _. change (node (set_chain ?s _ _) w) with (node s w). rewrite wake_node_node by done. by rewrite decide_True.
Qed.

(** A call takes its own node off the chain it is in. *)
Lemma core_unpark s H P K w b : bucket b -> (w_woken (node s w) = false -> w ∈ chain s b) ->
  core s H P (w :: K) -> core (bucket_unlink_locked s b w) H P K.
Proof.
  intros Hb Q C. pose proof (co_chains _ _ _ _ C) as N. unfold bucket_unlink_locked.
  assert (Ch : forall c, bucket c -> chain (set_chain s b (remove_first w (chain s b))) c = if decide (c = b) then remove_first w (chain s b) else chain s c).
  { intros c Hc. rewrite chain_set_chain by (done || apply C). done. }
  assert (NK : w ∉ K).
  { pose proof (co_parked _ _ _ _ C) as S. pose proof (co_held _ _ _ _ C) as D. intros X.
    pose proof (submseteq_NoDup _ _ S D) as ND. by inversion ND. }
  eapply (core_unlinked s _ H P (w :: K) K b w); try done.
  - apply shaped_set_chain, C.
  - intros c x Hc. rewrite Ch by done. case_decide as D; [subst; apply remove_first_elem; auto|].
    split; [|tauto]. intros X. split; [done|]. intros ->. destruct (co_queued _ _ _ _ C c w Hc X) as (_ & U & E & _).
    apply D. rewrite <- E. symmetry. rewrite <- (core_off_chain _ _ _ _ b w C Hb (Q U)). done.
  - intros c Hc. rewrite Ch by done. case_decide; [by apply remove_first_NoDup, N|by apply N].
  - by apply submseteq_cons.
  - intros x X NE. by apply elem_of_cons in X as [->|].
Qed.

(** ** Moving a node *)

Lemma move_waiter_chain s w u2 d c : shaped s -> bucket d -> bucket c ->
  chain (move_waiter s w u2 d) c = if decide (c = d) then w :: chain s d else chain s c.
Proof.
  intros Sh Hd Hc. rewrite <- (chain_set_chain s d (w :: chain s d) c) by done. unfold chain, set_chain. cbn [q_buckets].
  by destruct (move_waiter_fields s w u2 d) as (_ & -> & _ & _).
Qed.

Lemma move_waiter_shaped s w u2 d : shaped s -> shaped (move_waiter s w u2 d).
Proof.
  intros Sh. destruct (move_waiter_fields s w u2 d) as (_ & B & _ & Cn). split; [rewrite B, length_insert; apply Sh|].
  rewrite Cn. unfold recharge. case_if; [|apply Sh]. apply shaped_add, shaped_add, Sh.
Qed.

Lemma move_waiter_get s w u2 d c z : shaped s -> bucket d -> bucket c -> w_pub_follows (node s w) = true ->
  bucket (w_pub_bucket (node s w)) -> shim_globals_futex_waiters_get s c = wrap32 z ->
  shim_globals_futex_waiters_get (move_waiter s w u2 d) c =
  wrap32 (z - (if w_pub_bucket (node s w) =? c then 1 else 0) + (if d =? c then 1 else 0)).
Proof.
  intros Sh Hd Hc F Hp G. destruct (move_waiter_fields s w u2 d) as (_ & _ & _ & E).
  unfold shim_globals_futex_waiters_get at 1. rewrite E. unfold recharge. rewrite F.
  set (t := shim_globals_futex_waiters_add s d 1).
  change (if FUTEX_BUCKETS <=? c then 0 else nth (Z.to_nat c) (q_counts ?x) 0) with (shim_globals_futex_waiters_get x c).
  assert (St : shaped t) by (by apply shaped_add). rewrite waiters_get_add by done. unfold t. rewrite !waiters_get_add by done.
  rewrite !(Z.eqb_sym _ c). destruct (Z.eqb_spec c (w_pub_bucket (node s w))) as [<-|]; [rewrite decide_True by done|rewrite decide_False by done];
    destruct (Z.eqb_spec c d) as [<-|]; rewrite ?decide_True, ?decide_False by done; rewrite ?wrap32_add, G, <- ?Z.add_assoc, ?wrap32_add; f_equal; lia.
Qed.

Lemma core_move s H P K b w l1 l2 u2 : core s H P K -> bucket b -> chain s b = l1 ++ w :: l2 -> w_pub_follows (node s w) = true ->
  futex_uaddr_is_aligned u2 = true -> futex_hash u2 <> b ->
  core (set_chain (move_waiter s w u2 (futex_hash u2)) b (l1 ++ l2)) H P K.
Proof.
  intros C Hb E F Al ND. set (d := futex_hash u2) in *. pose proof (futex_hash_bucket u2 : bucket d) as Hd.
  assert (W : w ∈ chain s b) by (rewrite E; apply elem_of_app; right; by left).
  pose proof (core_valid _ _ _ _ _ _ C Hb W) as V. destruct (co_queued _ _ _ _ C b w Hb W) as (Kw & U & Hh & Pb & _ & _).
  assert (Nx : forall x, node (set_chain (move_waiter s w u2 d) b (l1 ++ l2)) x = if decide (x = w) then moved u2 d (node s w) else node s x)
    by (intros; change (node (set_chain ?s _ _) x) with (node s x); by apply move_waiter_node).
  pose proof (move_waiter_shaped s w u2 d (co_shaped _ _ _ _ C)) as Sh.
  assert (Ch : forall c, bucket c -> chain (set_chain (move_waiter s w u2 d) b (l1 ++ l2)) c =
    if decide (c = d) then w :: chain s d else if decide (c = b) then l1 ++ l2 else chain s c).
  { intros c Hc. rewrite chain_set_chain by done. rewrite move_waiter_chain by (done || apply C). repeat case_decide; congruence. }
  assert (Wd : w ∉ chain s d) by (intros X; apply ND; rewrite <- Hh; symmetry; by eapply core_off_chain).
  assert (Cut : forall c x, bucket c -> c <> d -> x ∈ chain (set_chain (move_waiter s w u2 d) b (l1 ++ l2)) c <-> x ∈ chain s c /\ x <> w).
  { intros c x Hc N. rewrite Ch, decide_False by done. by eapply chain_cut. }
  pose proof C as [C1 C2 C3 C4 C5 C6 C7 C8 C9]. constructor; auto.
  - by apply shaped_set_chain.
  - intros c Hc. rewrite Ch by done. case_decide; [constructor; [done|by apply C2]|]. case_decide; [|by apply C2].
    eapply NoDup_cut. rewrite <- E. by apply C2.
  - intros c x Hc X. destruct (decide (x = w)) as [->|NE].
    + destruct (decide (c = d)) as [->|]; [|apply Cut in X as [_ ?]; done]. split; [done|]. unfold queued. rewrite Nx, decide_True by done.
      unfold moved. cbn. rewrite F. auto.
    + assert (X' : x ∈ chain s c).
      { destruct (decide (c = d)) as [->|]; [|by apply Cut in X as [? _]]. rewrite Ch, decide_True in X by done. by apply elem_of_cons in X as [->|]. }
      destruct (C3 c x Hc X') as [? Q]. split; [done|]. unfold queued in *. by rewrite Nx, decide_False by done.
  - eapply forall_valid; [|exact C5]. apply move_waiter_length.
  - intros x X. rewrite Nx. case_decide as D.
    + subst. intros _. unfold moved. cbn [w_uaddr]. rewrite Ch, decide_True by done. by left.
    + intros Ux. specialize (C7 x X Ux). pose proof (futex_hash_bucket (w_uaddr (node s x))) as Hx.
      destruct (decide (futex_hash (w_uaddr (node s x)) = d)) as [Ed|]; [|by apply Cut].
      rewrite Ed in C7 |- *. rewrite Ch, decide_True by done. by right.
  - intros c Hc. unfold charges.
    rewrite (cnt_at (fun x => w_pub_bucket (node s x) =? c) _ w H);
      [|done|by eapply elem_of_submseteq|intros x NE; by rewrite Nx, decide_False].
    rewrite Nx, decide_True by done. unfold moved at 1. cbn [w_pub_bucket]. rewrite F, Pb.
    change (shim_globals_futex_waiters_get (set_chain ?x _ _) c) with (shim_globals_futex_waiters_get x c).
    rewrite (move_waiter_get s w u2 d c (charges s H P c)) by (done || (rewrite Pb; done) || auto).
    rewrite Pb. f_equal. unfold charges. lia.
  - intros x X. rewrite Nx. case_decide; [|auto]. unfold placed, moved. cbn. rewrite F. done.
Qed.

(** A node that only changes its key, within its bucket. *)
Lemma core_rekey s H P K b w l1 l2 u2 : core s H P K -> bucket b -> chain s b = l1 ++ w :: l2 -> w_pub_follows (node s w) = true ->
  futex_uaddr_is_aligned u2 = true -> futex_hash u2 = b ->
  core (set_nodes (alter (rekey u2) w (q_nodes s)) s) H P K.
Proof.
  intros C Hb E F Al Hd. assert (W : w ∈ chain s b) by (rewrite E; apply elem_of_app; right; by left).
  pose proof (core_valid _ _ _ _ _ _ C Hb W) as V. destruct (co_queued _ _ _ _ C b w Hb W) as (Kw & U & Hh & Pb & _ & Ho).
  set (s' := set_nodes _ s). assert (Nx : forall x, node s' x = if decide (x = w) then rekey u2 (node s w) else node s x) by (intros; by apply node_alter).
  assert (Ch : forall c, chain s' c = chain s c) by done.
  destruct C as [C1 C2 C3 C4 C5 C6 C7 C8 C9]. constructor; auto.
  - intros c x Hc. rewrite Ch. intros X. destruct (C3 c x Hc X) as [? Q]. split; [done|]. unfold queued in *. rewrite Nx.
    case_decide; [|done]. subst x. destruct Q as (? & Hc' & ? & ? & ?).
    unfold rekey. cbn [w_woken w_uaddr w_pub_bucket w_pub_follows w_home]. rewrite Hd, <- Hh, Hc'. auto 10.
  - eapply forall_valid; [|exact C5]. apply length_alter.
  - intros x X. rewrite Nx, Ch. case_decide; [|by apply C7]. subst x. intros _. unfold rekey. cbn [w_uaddr]. by rewrite Hd.
  - intros c Hc.
    change (shim_globals_futex_waiters_get s' c) with (shim_globals_futex_waiters_get s c). rewrite C8 by done. f_equal. unfold charges. f_equal.
    apply cnt_ext. intros x _. rewrite Nx. case_decide; [by subst|done].
  - intros x X. rewrite Nx. case_decide; [subst x|auto]. exact (C9 w X).
Qed.

(** ** Queueing a node *)

Lemma node_snoc s x w : node (set_nodes (q_nodes s ++ [x]) s) w = if decide (w = length (q_nodes s)) then x else node s w.
Proof.
  unfold node, set_nodes. cbn [q_nodes]. rewrite !nth_lookup. case_decide as D; [subst; by rewrite list_lookup_middle|].
  destruct (decide (w < length (q_nodes s))%nat); [by rewrite lookup_app_l|].
  rewrite lookup_app_r, (lookup_ge_None_2 (q_nodes s)) by lia. by rewrite lookup_ge_None_2 by (cbn; lia).
Qed.

Lemma core_enqueue s H P K x w s' : w_woken x = false -> w_pub_bucket x = futex_hash (w_uaddr x) ->
  futex_uaddr_is_aligned (w_uaddr x) = true -> (w_pub_follows x = true -> w_home x = futex_hash (w_uaddr x)) ->
  enqueue s x (futex_hash (w_uaddr x)) = (w, s') ->
  core s H (futex_hash (w_uaddr x) :: P) K -> core s' (w :: H) P (w :: K).
Proof.
  intros X1 X2 X3 X4 Eq C. set (b := futex_hash (w_uaddr x)) in *. pose proof (futex_hash_bucket (w_uaddr x) : bucket b) as Hb.
  injection Eq as Ew Es. set (s1 := set_nodes (q_nodes s ++ [x]) s) in *.
  assert (Nx : forall y, node s' y = if decide (y = w) then x else node s y) by (intros; subst; apply node_snoc).
  assert (Ch : forall c, bucket c -> chain s' c = if decide (c = b) then w :: chain s b else chain s c).
  { intros c Hc. rewrite <- Es, <- Ew. rewrite chain_set_chain by (done || apply C). done. }
  assert (Fr : forall y, y ∈ H -> y <> w) by (intros y Y ->; pose proof (proj1 (list.Forall_forall _ _) (co_valid _ _ _ _ C) _ Y); unfold valid in *; lia).
  assert (FrK : forall y, y ∈ K -> y <> w) by (intros y Y; apply Fr; eapply elem_of_submseteq; [exact Y|apply C]).
  assert (L : length (q_nodes s') = S (length (q_nodes s))) by (rewrite <- Es; cbn; rewrite length_app; cbn; lia).
  destruct C as [C1 C2 C3 C4 C5 C6 C7 C8 C9]. constructor.
  - rewrite <- Es. by apply shaped_set_chain.
  - intros c Hc. rewrite Ch by done. case_decide; [|by apply C2]. constructor; [|by apply C2]. intros Y. by destruct (FrK w (proj1 (C3 b w Hb Y))).
  - intros c y Hc. rewrite Ch by done. intros Y.
    assert (D : y = w /\ c = b \/ y ∈ chain s c) by (case_decide; [subst; apply elem_of_cons in Y as [->|]; auto|auto]).
    unfold queued. rewrite Nx. destruct D as [[-> ->]|D]; [rewrite decide_True by done; split; [by left|auto]|].
    destruct (C3 c y Hc D) as [Yk Q]. rewrite decide_False by auto. split; [by right|done].
  - constructor; [|done]. intros Y. by apply (Fr w).
  - constructor; [unfold valid; lia|]. eapply list.Forall_impl; [exact C5|]. unfold valid. intros; lia.
  - by apply submseteq_skip.
  - intros y Y. rewrite Nx. case_decide as D; [subst y; intros _; fold b; rewrite Ch, decide_True by done; by left|].
    apply elem_of_cons in Y as [->|Y]; [done|]. intros U. rewrite Ch by apply futex_hash_bucket.
    case_decide as Db; [rewrite <- Db; right; auto|auto].
  - intros c Hc. replace (shim_globals_futex_waiters_get s' c) with (shim_globals_futex_waiters_get s c) by (by rewrite <- Es).
    rewrite C8 by done. f_equal. unfold charges. rewrite !cnt_cons, Nx, decide_True, X2 by done. fold b.
    rewrite (cnt_ext (fun w0 => w_pub_bucket (node s' w0) =? c) (fun w0 => w_pub_bucket (node s w0) =? c) H); [lia|].
    intros y Y. by rewrite Nx, decide_False by auto.
  - intros y Y. rewrite Nx. case_decide as D.
    + unfold placed. rewrite X2. split; [done|]. intros F. by rewrite X4.
    + apply elem_of_cons in Y as [->|]; [done|auto].
Qed.

(** A woken node is off the chains already. *)
Lemma core_unpark_woken s H P K w : w_woken (node s w) = true -> core s H P (w :: K) -> core s H P K.
Proof.
  intros U [C1 C2 C3 C4 C5 C6 C7 C8 C9]. constructor; auto.
  - intros b x Hb X. destruct (C3 b x Hb X) as [Kx Q]. split; [|done]. apply elem_of_cons in Kx as [->|]; [|done].
    destruct Q as (Ux & _). congruence.
  - etransitivity; [|exact C6]. by apply submseteq_cons.
  - intros x X. apply C7. by right.
Qed.

(** A node that follows its charge is in the chain of its home, or woken. *)
Lemma core_home s H P K w : core s H P K -> w ∈ K -> w_pub_follows (node s w) = true -> w_woken (node s w) = false ->
  w ∈ chain s (w_home (node s w)).
Proof.
  intros C W F U. pose proof (co_linked _ _ _ _ C w W U) as X.
  destruct (co_queued _ _ _ _ C _ w (futex_hash_bucket _) X) as (_ & _ & _ & _ & _ & E). by rewrite E.
Qed.

(** ** What no operation on the queues does

    A node keeps its kind, stays woken once it is, and keeps its place when it is a
    PI waiter; no PI waiter appears at an address. *)

Definition pi_at s (u : Z) : Prop :=
  exists b w, bucket b /\ w ∈ chain s b /\ w_pub_follows (node s w) = false /\ w_uaddr (node s w) = u.

Definition keeps (x x' : futex_waiter_t) : Prop :=
  w_pub_follows x' = w_pub_follows x /\ (w_woken x = true -> w_woken x' = true) /\
  (w_pub_follows x = false -> w_uaddr x' = w_uaddr x /\ w_pub_bucket x' = w_pub_bucket x).

Record quiet s s' : Prop := {
  qt_length : (length (q_nodes s) <= length (q_nodes s'))%nat;
  qt_node : forall w, valid s w -> keeps (node s w) (node s' w);
  qt_mem : q_mem s' = q_mem s;
  qt_pi : forall u, pi_at s' u -> pi_at s u
}.

#[global] Instance keeps_preorder : PreOrder keeps.
Proof.
  split; [by intros x|]. intros x y z (A1 & A2 & A3) (B1 & B2 & B3). split; [congruence|]. split; [auto|].
  intros F. destruct (A3 F) as [E1 E2]. rewrite <- E1, <- E2. apply B3. congruence.
Qed.

#[global] Instance quiet_preorder : PreOrder quiet.
Proof.
  split; [by intros s|]. intros s1 s2 s3 [A1 A2 A3 A4] [B1 B2 B3 B4]. constructor; [lia| |congruence|auto].
  intros w V. etransitivity; [by apply A2|]. apply B2. unfold valid in *. lia.
Qed.

(** The part about the nodes. *)
Definition keep_nodes s s' : Prop := (length (q_nodes s) <= length (q_nodes s'))%nat /\ forall w, valid s w -> keeps (node s w) (node s' w).

Lemma quiet_keeps s s' : quiet s s' -> keep_nodes s s'.
Proof. by intros [? ? _ _]. Qed.

#[global] Instance keep_nodes_preorder : PreOrder keep_nodes.
Proof.
  split; [by intros s|]. intros s1 s2 s3 [A1 A2] [B1 B2]. split; [lia|].
  intros w V. etransitivity; [by apply A2|]. apply B2. unfold valid in *. lia.
Qed.

(** One node changed, and no chain with a new PI waiter. *)
Lemma quiet_intro s s' w : length (q_nodes s') = length (q_nodes s) -> q_mem s' = q_mem s ->
  (forall x, x <> w -> node s' x = node s x) -> keeps (node s w) (node s' w) ->
  (forall c x, bucket c -> x ∈ chain s' c -> w_pub_follows (node s' x) = false -> x ∈ chain s c) ->
  quiet s s'.
Proof.
  intros L Em N Kw Ch. assert (Kx : forall x, keeps (node s x) (node s' x)).
  { intros x. destruct (decide (x = w)) as [->|]; [done|]. by rewrite N. }
  constructor; [lia|auto|done|]. intros u (c & x & Hc & X & F & U). exists c, x.
  destruct (Kx x) as (F' & _ & Pi). rewrite <- F', F. destruct Pi as [Eu _]; [congruence|]. rewrite <- Eu. auto.
Qed.

Lemma quiet_wake1 s b w l1 l2 : shaped s -> bucket b -> valid s w -> chain s b = l1 ++ w :: l2 ->
  quiet s (set_chain (wake_node s w) b (l1 ++ l2)).
Proof.
  intros Sh Hb V E. destruct (wake_node_fields s w) as (Em & B & _ & Cn).
  assert (Nx : forall x, node (set_chain (wake_node s w) b (l1 ++ l2)) x = if decide (x = w) then mark_woken (node s w) else node s x)
    by (intros; by apply wake_node_node).
  apply (quiet_intro s _ w); [apply wake_node_length|done|intros x D; by rewrite Nx, decide_False|rewrite Nx, decide_True by done; by repeat split|].
  intros c x Hc. rewrite chain_set_chain by (done || (unfold shaped; rewrite B, Cn; apply Sh)). rewrite wake_node_chain.
  case_decide; [|done]. subst. rewrite E, !elem_of_app, elem_of_cons. tauto.
Qed.

Lemma quiet_move s b w l1 l2 u2 d : shaped s -> bucket b -> bucket d -> valid s w -> chain s b = l1 ++ w :: l2 ->
  w_pub_follows (node s w) = true -> quiet s (set_chain (move_waiter s w u2 d) b (l1 ++ l2)).
Proof.
  intros Sh Hb Hd V E F. destruct (move_waiter_fields s w u2 d) as (Em & _). pose proof (move_waiter_shaped s w u2 d Sh) as Sh'.
  assert (Nx : forall x, node (set_chain (move_waiter s w u2 d) b (l1 ++ l2)) x = if decide (x = w) then moved u2 d (node s w) else node s x)
    by (intros; by apply move_waiter_node).
  apply (quiet_intro s _ w); [apply move_waiter_length|done|intros x D; by rewrite Nx, decide_False| |].
  - rewrite Nx, decide_True by done. unfold keeps, moved. cbn. split; [done|]. split; [done|]. congruence.
  - intros c x Hc. rewrite chain_set_chain by done. rewrite move_waiter_chain by done. intros X Fx.
    assert (NE : x <> w) by (intros ->; rewrite Nx, decide_True in Fx by done; cbn in Fx; congruence).
    repeat case_decide; subst; rewrite ?E, ?elem_of_app, ?elem_of_cons in *; tauto.
Qed.

Lemma quiet_rekey s w u2 : valid s w -> w_pub_follows (node s w) = true -> quiet s (set_nodes (alter (rekey u2) w (q_nodes s)) s).
Proof.
  intros V F. apply (quiet_intro s _ w); [apply length_alter|done|intros x D; by rewrite node_alter, decide_False| |done].
  rewrite node_alter, decide_True by done. unfold keeps, rekey. cbn. split; [done|]. split; [done|]. congruence.
Qed.

(** ** The walks

    During a walk over bucket [b] the chain is the part kept so far followed by the
    part still ahead; the state [set_chain s b (pre ++ l)] has it. *)

Lemma set_chain_twice s b l l' : set_chain (set_chain s b l) b l' = set_chain s b l'.
Proof. unfold set_chain. cbn. by rewrite list_insert_insert_eq. Qed.
Lemma set_chain_id s b : shaped s -> bucket b -> set_chain s b (chain s b) = s.
Proof.
  intros [L _] Hb. unfold set_chain, chain. rewrite list_insert_id; [by destruct s|]. rewrite nth_lookup.
  assert (K : (Z.to_nat b < length (q_buckets s))%nat) by (unfold bucket in *; lia). by destruct (lookup_lt_is_Some_2 _ _ K) as [x ->].
Qed.

Lemma wake_node_set_chain s b l w : wake_node (set_chain s b l) w = set_chain (wake_node s w) b l.
Proof. unfold wake_node, futex_waiter_notify_group. unfold node. cbn. by destruct (w_group _). Qed.

Lemma add_set_chain s b l p d : shim_globals_futex_waiters_add (set_chain s b l) p d = set_chain (shim_globals_futex_waiters_add s p d) b l.
Proof. unfold shim_globals_futex_waiters_add. by case_if. Qed.

Lemma move_waiter_sent s w u2 d : q_sent (move_waiter s w u2 d) = q_sent s ++ [CondSignal w].
Proof. unfold move_waiter, shim_globals_futex_waiters_add. by repeat case_if. Qed.

Lemma move_waiter_set_chain s b l w u2 d : shaped s -> bucket b -> bucket d -> b <> d ->
  move_waiter (set_chain s b l) w u2 d = set_chain (move_waiter s w u2 d) b l.
Proof.
  intros Sh Hb Hd N. destruct (move_waiter_fields s w u2 d) as (A1 & A2 & A3 & A4).
  destruct (move_waiter_fields (set_chain s b l) w u2 d) as (B1 & B2 & B3 & B4).
  pose proof (move_waiter_sent s w u2 d) as A5. pose proof (move_waiter_sent (set_chain s b l) w u2 d) as B5.
  rewrite chain_set_chain, decide_False in B2 by done. unfold recharge in B4. rewrite !add_set_chain in B4.
  destruct (move_waiter (set_chain s b l) w u2 d). cbn in B1, B2, B3, B4, B5. subst. unfold set_chain. f_equal; try done.
  - rewrite A2. apply list_insert_insert_ne. intros E. apply N. by apply bucket_to_nat.
  - rewrite A4. unfold recharge, node. cbn. by case_if.
Qed.

Lemma core_cut_shaped s H P K b l : core (set_chain s b l) H P K -> shaped s.
Proof.
  intros C. pose proof (co_shaped _ _ _ _ C) as [L1 L2]. split; [|done]. unfold set_chain in L1. cbn in L1. by rewrite length_insert in L1.
Qed.

(** The node a walk is at. *)
Lemma walk_head s H P K b pre w l : bucket b -> core (set_chain s b (pre ++ w :: l)) H P K ->
  shaped s /\ chain (set_chain s b (pre ++ w :: l)) b = pre ++ w :: l /\ valid (set_chain s b (pre ++ w :: l)) w /\ (forall x, x ∈ l -> x <> w).
Proof.
  intros Hb C. pose proof (core_cut_shaped _ _ _ _ _ _ C) as Sh.
  assert (E : chain (set_chain s b (pre ++ w :: l)) b = pre ++ w :: l) by (rewrite chain_set_chain by done; by rewrite decide_True).
  split; [done|]. split; [done|]. split.
  - eapply core_valid; [exact C|exact Hb|]. rewrite E. apply elem_of_app. right. by left.
  - pose proof (co_chains _ _ _ _ C b Hb) as N. rewrite E in N. apply list.NoDup_app in N as (_ & _ & N). apply list.NoDup_cons in N as [N _]. by intros x X ->.
Qed.

Lemma core_wake_walk hits b l s H P K pre woken val kept n s' : bucket b ->
  core (set_chain s b (pre ++ l)) H P K -> wake_walk s hits l woken val = (kept, n, s') ->
  core (set_chain s' b (pre ++ kept)) H P K /\ quiet (set_chain s b (pre ++ l)) (set_chain s' b (pre ++ kept)).
Proof.
  intros Hb. revert s pre woken kept. induction l as [|w l IH]; intros s pre woken kept C; cbn [wake_walk]; [by intros [= <- <- <-]|].
  destruct (woken <? val); [|by intros [= <- <- <-]].
  destruct (walk_head _ _ _ _ _ _ _ _ Hb C) as (_ & E & V & _).
  destruct (hits (node s w)).
  - intros R. pose proof (core_wake1 _ _ _ _ _ _ _ _ C Hb E) as C'.
    pose proof (quiet_wake1 _ _ _ _ _ (co_shaped _ _ _ _ C) Hb V E) as Q.
    rewrite wake_node_set_chain, set_chain_twice in C', Q. destruct (IH _ _ _ _ C' R). split; [done|]. by etransitivity.
  - destruct (wake_walk s hits l woken val) as [[k n'] s1] eqn:R. intros [= <- <- <-].
    specialize (IH s (pre ++ [w]) woken k). rewrite <- !app_assoc in IH. cbn in IH. auto.
Qed.

Lemma core_wake_chain s H P K b hits val n s' : bucket b -> core s H P K -> wake_chain s b hits val = (n, s') ->
  core s' H P K /\ quiet s s'.
Proof.
  intros Hb C. unfold wake_chain. destruct (wake_walk _ _ _ _ _) as [[kept n'] s1] eqn:R. intros [= <- <-].
  pose proof (set_chain_id s b (co_shaped _ _ _ _ C) Hb) as E. rewrite <- E in C. rewrite <- E at 1.
  by apply (core_wake_walk _ _ _ _ _ _ _ [] _ _ _ _ _ Hb C R).
Qed.

Lemma requeue_meets_pi_ext s s' l u k : (forall x, x ∈ l -> node s' x = node s x) -> requeue_meets_pi s' l u k = requeue_meets_pi s l u k.
Proof.
  revert k. induction l as [|w l IH]; intros k E; [done|]. cbn. rewrite E by (by left).
  assert (G : forall k, requeue_meets_pi s' l u k = requeue_meets_pi s l u k) by (intros; apply IH; intros; apply E; by right). by rewrite !G.
Qed.

(** One round of the requeue walk. *)
Lemma core_shift1 s H P K b pre w l u2 : bucket b -> futex_uaddr_is_aligned u2 = true -> w_pub_follows (node s w) = true ->
  core (set_chain s b (pre ++ w :: l)) H P K ->
  let s1 := shift_waiter (b =? futex_hash u2) u2 (futex_hash u2) s w in
  let ch := if b =? futex_hash u2 then pre ++ w :: l else pre ++ l in
  core (set_chain s1 b ch) H P K /\ quiet (set_chain s b (pre ++ w :: l)) (set_chain s1 b ch).
Proof.
  intros Hb Al F C. destruct (walk_head _ _ _ _ _ _ _ _ Hb C) as (Sh & E & V & _).
  unfold shift_waiter. destruct (Z.eqb_spec b (futex_hash u2)) as [Eb|Nb]; cbv zeta.
  - split; [exact (core_rekey _ _ _ _ b w pre l u2 C Hb E F Al (eq_sym Eb))|exact (quiet_rekey _ w u2 V F)].
  - pose proof (core_move _ _ _ _ _ _ _ _ u2 C Hb E F Al (not_eq_sym Nb)) as C'.
    pose proof (quiet_move _ _ _ _ _ u2 _ (co_shaped _ _ _ _ C) Hb (futex_hash_bucket u2) V E F) as Q.
    rewrite move_waiter_set_chain, set_chain_twice in C', Q by (done || apply futex_hash_bucket). done.
Qed.

Lemma core_requeue_walk b l s H P K pre u u2 woken requeued nw nr kept a c s' : bucket b -> futex_uaddr_is_aligned u2 = true ->
  core (set_chain s b (pre ++ l)) H P K -> requeue_meets_pi s l u (nw - woken + (nr - requeued)) = false -> woken <= nw -> requeued <= nr ->
  requeue_walk s l u u2 (futex_hash u2) (b =? futex_hash u2) woken requeued nw nr = (kept, a, c, s') ->
  core (set_chain s' b (pre ++ kept)) H P K /\ quiet (set_chain s b (pre ++ l)) (set_chain s' b (pre ++ kept)).
Proof.
  intros Hb Al. revert s pre woken requeued kept a c. induction l as [|w l IH]; intros s pre woken requeued kept a c C; cbn [requeue_walk requeue_meets_pi].
  { by intros _ _ _ [= <- <- <- <-]. }
  destruct (walk_head _ _ _ _ _ _ _ _ Hb C) as (Sh & E & V & D).
  assert (App : forall k, (pre ++ [w]) ++ k = pre ++ w :: k) by (intros; by rewrite <- app_assoc).
  assert (Skip : forall s1, core (set_chain s1 b (pre ++ w :: l)) H P K -> core (set_chain s1 b ((pre ++ [w]) ++ l)) H P K) by (intros; by rewrite App).
  destruct (w_uaddr (node s w) =? u) eqn:Hu; cbn [negb].
  - unfold futex_requeue_step. destruct (Z.eqb_spec (nw - woken + (nr - requeued)) 0).
    { destruct (Z.ltb_spec woken nw); [lia|]. destruct (Z.ltb_spec requeued nr); [lia|]. by intros _ _ _ [= <- <- <- <-]. }
    destruct (w_pub_follows (node s w)) eqn:F; cbn [negb]; [|done]. intros Pi L1 L2. destruct (Z.ltb_spec woken nw).
    + intros R. pose proof (core_wake1 _ _ _ _ _ _ _ _ C Hb E) as C'.
      pose proof (quiet_wake1 _ _ _ _ _ (co_shaped _ _ _ _ C) Hb V E) as Q. rewrite wake_node_set_chain, set_chain_twice in C', Q.
      edestruct IH as [R1 R2]; [exact C'| | | |exact R|]; [|lia|lia|split; [done|by etransitivity]].
      rewrite (requeue_meets_pi_ext s); [rewrite <- Pi; f_equal; lia|]. intros x X. rewrite wake_node_node by done. by rewrite decide_False by auto.
    + destruct (Z.ltb_spec requeued nr); [|by intros [= <- <- <- <-]]. destruct (core_shift1 _ _ _ _ _ _ _ _ u2 Hb Al F C) as [C' Q].
      assert (Pi' : requeue_meets_pi (shift_waiter (b =? futex_hash u2) u2 (futex_hash u2) s w) l u (nw - woken + (nr - (requeued + 1))) = false).
      { rewrite (requeue_meets_pi_ext s); [rewrite <- Pi; f_equal; lia|]. intros x X. rewrite shift_waiter_node by done. by rewrite decide_False by auto. }
      unfold shift_waiter in C', Q, Pi'. destruct (b =? futex_hash u2).
      * destruct (requeue_walk _ _ _ _ _ _ _ _ _ _) as [[[k a'] c'] s1] eqn:R. intros [= <- <- <- <-].
        assert (L3 : requeued + 1 <= nr) by lia. destruct (IH _ (pre ++ [w]) _ _ _ _ _ (Skip _ C') Pi' L1 L3 R) as [R1 R2]. rewrite !App in R1. rewrite !App in R2.
        split; [done|etransitivity; [exact Q|exact R2]].
      * intros R. assert (L3 : requeued + 1 <= nr) by lia. destruct (IH _ _ _ _ _ _ _ C' Pi' L1 L3 R) as [R1 R2]. split; [done|etransitivity; [exact Q|exact R2]].
  - intros Pi L1 L2. destruct (requeue_walk _ _ _ _ _ _ _ _ _ _) as [[[k a'] c'] s1] eqn:R. intros [= <- <- <- <-].
    assert (Pi' : requeue_meets_pi s l u (nw - woken + (nr - requeued)) = false).
    { destruct (Z.eqb_spec (nw - woken + (nr - requeued)) 0) as [E0|]; [rewrite E0; by destruct l|done]. }
    destruct (IH s (pre ++ [w]) _ _ _ _ _ (Skip _ C) Pi' L1 L2 R) as [R1 R2]. rewrite !App in R1. by rewrite !App in R2.
Qed.

(** ** The operations that only touch the queues *)

Lemma core_futex_wake s H P K u val bitset rc s' : core s H P K -> futex_wake s u val bitset = (rc, s') -> core s' H P K /\ quiet s s'.
Proof.
  intros C. unfold futex_wake. repeat (case_if; [by intros [= <- <-]|]). apply core_wake_chain; [apply futex_hash_bucket|done].
Qed.

Lemma core_wake_first s H P K u : core s H P K ->
  core (futex_wake_first_locked s (futex_hash u) u) H P K /\ quiet s (futex_wake_first_locked s (futex_hash u) u).
Proof.
  intros C. unfold futex_wake_first_locked. destruct (wake_chain _ _ _ _) as [n s'] eqn:R.
  by apply (core_wake_chain _ _ _ _ _ _ _ _ _ (futex_hash_bucket u) C) in R.
Qed.

Lemma core_futex_requeue s H P K u wake_count requeue_count u2 do_cmp expected rc s' : 0 <= wake_count -> 0 <= requeue_count -> core s H P K ->
  futex_requeue s u wake_count requeue_count u2 do_cmp expected = (rc, s') -> core s' H P K /\ quiet s s'.
Proof.
  intros P1 P2 C. unfold futex_requeue. destruct (futex_requeue_counts_valid _ _) eqn:V; cbn [negb]; [|by intros [= <- <-]].
  destruct (negb (futex_uaddr_is_aligned u) || negb (futex_uaddr_is_aligned u2)) eqn:Al; [by intros [= <- <-]|].
  case_if; [by intros [= <- <-]|]. destruct (requeue_meets_pi _ _ _ _) eqn:Pi; [by intros [= <- <-]|].
  destruct (requeue_walk _ _ _ _ _ _ _ _ _ _) as [[[kept a] c] s1] eqn:R. intros [= <- <-].
  pose proof (set_chain_id s _ (co_shaped _ _ _ _ C) (futex_hash_bucket u)) as E. rewrite <- E in C. rewrite <- E at 1.
  apply orb_false_iff in Al as [_ Al%negb_false_iff].
  rewrite futex_requeue_budget_eq, <- (Z.sub_0_r wake_count), <- (Z.sub_0_r requeue_count) in Pi by done.
  exact (core_requeue_walk _ _ _ _ _ _ [] u u2 0 0 _ _ _ _ _ _ (futex_hash_bucket u) Al C Pi P1 P2 R).
Qed.

(** ** Several waiters moved in turn *)

Lemma shift_nodes_cons same u2 d s w R : shift_nodes same u2 d s (w :: R) = shift_nodes same u2 d (shift_waiter same u2 d s w) R.
Proof. done. Qed.

Lemma shift_nodes_node same u2 d R s x : NoDup R -> Forall (valid s) R ->
  node (shift_nodes same u2 d s R) x = if decide (x ∈ R) then shifted same u2 d (node s x) else node s x.
Proof.
  revert s. induction R as [|w R IH]; intros s N V; [by rewrite decide_False by apply not_elem_of_nil|].
  rewrite shift_nodes_cons. apply list.NoDup_cons in N as [N1 N2]. inversion_clear V as [|? ? V1 V2].
  rewrite IH by (done || by eapply forall_valid; [apply shift_waiter_length|]). rewrite !shift_waiter_node by done.
  destruct (decide (x = w)) as [->|NE].
  - rewrite decide_False by done. by rewrite decide_True by (by left).
  - destruct (decide (x ∈ R)); [rewrite decide_True by (by right)|rewrite decide_False; [|rewrite elem_of_cons; tauto]]; done.
Qed.

Lemma shift_nodes_mem same u2 d R s : q_mem (shift_nodes same u2 d s R) = q_mem s.
Proof.
  revert s. induction R as [|w R IH]; intros s; [done|]. rewrite shift_nodes_cons, IH. destruct same; [done|].
  by destruct (move_waiter_fields s w u2 d) as (E & _).
Qed.

(** Within one bucket nothing but the keys changes. *)
Lemma rekey_nodes_fields u2 d R s :
  q_buckets (shift_nodes true u2 d s R) = q_buckets s /\ q_counts (shift_nodes true u2 d s R) = q_counts s /\
  q_sent (shift_nodes true u2 d s R) = q_sent s.
Proof. revert s. induction R as [|w R IH]; intros s; [done|]. rewrite shift_nodes_cons. exact (IH (shift_waiter true u2 d s w)). Qed.

Lemma move_nodes_sent u2 d R s : q_sent (shift_nodes false u2 d s R) = q_sent s ++ map CondSignal R.
Proof.
  revert s. induction R as [|w R IH]; intros s; [by rewrite app_nil_r|]. rewrite shift_nodes_cons, IH. cbn [shift_waiter map].
  by rewrite move_waiter_sent, <- app_assoc.
Qed.

Lemma move_nodes_chain u2 d R s c : shaped s -> bucket d -> bucket c ->
  shaped (shift_nodes false u2 d s R) /\ chain (shift_nodes false u2 d s R) c = if decide (c = d) then rev R ++ chain s d else chain s c.
Proof.
  revert s. induction R as [|w R IH]; intros s Sh Hd Hc.
  { split; [exact Sh|]. case_decide; [by subst|done]. }
  rewrite shift_nodes_cons. destruct (IH (shift_waiter false u2 d s w)) as [Sh' E]; [exact (move_waiter_shaped s w u2 d Sh)|exact Hd|exact Hc|].
  split; [exact Sh'|]. rewrite E. cbn [shift_waiter]. rewrite !move_waiter_chain, (decide_True (P := d = d)) by done.
  case_decide; [|done]. cbn. by rewrite <- app_assoc.
Qed.

Lemma move_nodes_get u2 b d R s c z : shaped s -> bucket b -> bucket d -> bucket c -> NoDup R -> Forall (valid s) R ->
  Forall (fun w => w_pub_follows (node s w) = true /\ w_pub_bucket (node s w) = b) R -> shim_globals_futex_waiters_get s c = wrap32 z ->
  shim_globals_futex_waiters_get (shift_nodes false u2 d s R) c =
  wrap32 (z - (if b =? c then Z.of_nat (length R) else 0) + (if d =? c then Z.of_nat (length R) else 0)).
Proof.
  revert s z. induction R as [|w R IH]; intros s z Sh Hb Hd Hc N V F G.
  { change (shift_nodes false u2 d s []) with s. rewrite G. f_equal. repeat case_if; cbn [length]; lia. }
  rewrite shift_nodes_cons. apply list.NoDup_cons in N as [N1 N2]. inversion_clear V as [|? ? V1 V2]. inversion_clear F as [|? ? [F1 F2] F3].
  rewrite (IH _ (z - (if b =? c then 1 else 0) + (if d =? c then 1 else 0))); [f_equal; repeat case_if; cbn [length]; lia|..]; try done.
  - exact (move_waiter_shaped s w u2 d Sh).
  - eapply forall_valid; [exact (move_waiter_length s w u2 d)|done].
  - rewrite list.Forall_forall in F3 |- *. intros y Y. cbn [shift_waiter]. rewrite move_waiter_node by done.
    rewrite decide_False; [auto|]. by intros ->.
  - cbn [shift_waiter]. rewrite (move_waiter_get s w u2 d c z) by (done || by rewrite F2). by rewrite F2.
Qed.
End Core.
