(* ===== verification/FutexLife.v ===== *)
(** * Futex calls in progress

    The system of all threads inside futex.c at once.  A call is at one of the points
    between two critical sections; a step is one critical section of one call, or a
    call that needs only one, or the guest writing to its memory.  The locks
    themselves are not part of the state: a step is what happens while they are held. *)

From S2P Require Import Prelude FutexWord Futex FutexFacts FutexCore.
From stdpp Require Import relations.

#[local] Open Scope Z_scope.

Section Life.
Context {M : Type} `{FM : FutexMem M}.
Implicit Types s : futex M.

(** ** Calls *)

Inductive call :=
  | Entering (uaddr expected timeout_gva bitset : Z) (is_absolute : bool)
  | Entered (uaddr expected bitset : Z) (deadline : option timespec) (is_absolute : bool)
  | Checked (uaddr bitset : Z) (deadline : option timespec) (is_absolute : bool)
  | Failed (uaddr rc : Z)
  | Waiting (c : wait_call)
  | Exiting (c : wait_call) (ret : Z)
  | Leaving (pub rc : Z)
  | PiEntering (uaddr timeout_gva tid : Z)
  | PiTrying (uaddr tid : Z) (deadline : option timespec)
  | PiContending (uaddr tid : Z) (deadline : option timespec)
  | PiWaiting (uaddr tid : Z) (deadline : option timespec) (w : nat)
  | PiLeaving (uaddr rc : Z)
  | PiUnlocking (uaddr : Z)
  | VecCharging (charged todo : list futex_waitv_t) (deadline : option timespec)
  | VecWaiting (ws : list nat) (deadline : option timespec)
  | VecUnlinking (todo ws : list nat) (rest : list Z) (ret : Z)
  | VecDropping (ws : list nat) (rest : list Z) (ret : Z)
  | RobustMarking (gva v : Z)
  | RobustWaking (gva : Z).

(** The nodes a call has a charge for, the buckets it has charged otherwise, and
    the nodes it may have in a chain. *)
Definition held (c : call) : list nat :=
  match c with
  | Waiting c | Exiting c _ => [c_node c]
  | PiWaiting _ _ _ w => [w]
  | VecWaiting ws _ | VecUnlinking _ ws _ _ | VecDropping ws _ _ => ws
  | _ => []
  end.

Definition plain (c : call) : list Z :=
  match c with
  | Entering u _ _ _ _ | Entered u _ _ _ _ | Checked u _ _ _ | Failed u _ => [futex_hash u]
  | PiEntering u _ _ | PiTrying u _ _ | PiContending u _ _ | PiLeaving u _ => [futex_hash u]
  | Leaving pub _ => [pub]
  | VecCharging charged _ _ => map (fun e => futex_hash (v_uaddr e)) charged
  | VecUnlinking _ _ rest _ | VecDropping _ rest _ => rest
  | _ => []
  end.

Definition parked (c : call) : list nat :=
  match c with
  | Waiting c | Exiting c _ => [c_node c]
  | PiWaiting _ _ _ w => [w]
  | VecWaiting ws _ => ws
  | VecUnlinking todo _ _ _ => todo
  | _ => []
  end.

(** ** Steps *)

(** How the loops of a wait end. *)
Definition wait_ends s (c : wait_call) (ret : Z) : Prop :=
  (exists clock c', wait_top s c clock = (WaitExit ret, c')) \/ (exists stop, wait_slept s c stop = WaitExit ret) \/
  (exists sig_ready, wait_polled s c sig_ready = WaitExit ret).

Definition pi_ends s (w : nat) (u : Z) (deadline : option timespec) (rc : Z) : Prop :=
  (exists clock, pi_top s w deadline clock = WaitExit rc) \/ (exists stop, pi_slept s w stop = WaitExit rc) \/
  (exists sig_ready alive, pi_polled s w u sig_ready alive = WaitExit rc).

Definition waitv_ends s (ws : list nat) (deadline : option timespec) (ret : Z) : Prop :=
  (exists stop clock, waitv_top s ws stop deadline clock = WaitExit ret) \/
  (exists now_sec now_usec, waitv_slept s ws deadline now_sec now_usec = WaitExit ret).

(** Where a round of a PI lock leads. *)
Definition pi_after (u tid : Z) (deadline : option timespec) (n : pi_next) : call :=
  match n with
  | PiReturn rc => PiLeaving u rc
  | PiRetry => PiTrying u tid deadline
  | PiContend => PiContending u tid deadline
  | PiParked w => PiWaiting u tid deadline w
  end.

(** What the guest may do to its memory, given the words some PI lock depends on. *)
Variable may : (Z -> Prop) -> M -> M -> Prop.

Definition plays (U : Z -> Prop) (env : nat -> M -> M) : Prop := forall k m, may U m (env k m).

(** One critical section of a call: the state after it and the call, unless it is over. *)
Inductive call_step s : call -> futex M -> list call -> Prop :=
  | cs_wait_refused u expected gva bitset ab now_sec now_usec rc :
      wait_checks u bitset (timeout_arg (q_mem s) gva) ab now_sec now_usec = inl rc ->
      call_step s (Entering u expected gva bitset ab) s [Failed u rc]
  | cs_wait_accepted u expected gva bitset ab now_sec now_usec d :
      wait_checks u bitset (timeout_arg (q_mem s) gva) ab now_sec now_usec = inr d ->
      call_step s (Entering u expected gva bitset ab) s [Entered u expected bitset d ab]
  | cs_wait_spun u expected bitset d ab clock reads :
      wait_spin s u expected d clock reads = true ->
      call_step s (Entered u expected bitset d ab) s [Failed u (- LINUX_EAGAIN)]
  | cs_wait_moved u expected bitset d ab : futex_should_block s u expected <> 0 ->
      call_step s (Entered u expected bitset d ab) s [Failed u (futex_should_block s u expected)]
  | cs_wait_seen u expected bitset d ab : futex_should_block s u expected = 0 ->
      call_step s (Entered u expected bitset d ab) s [Checked u bitset d ab]
  | cs_wait_link u bitset d ab w s' : wait_link s u bitset = (w, s') ->
      call_step s (Checked u bitset d ab) s' [Waiting (mk_wait w (futex_hash u) d ab)]
  | cs_wait_sleep c clock until c' : wait_top s c clock = (WaitSleep until, c') -> call_step s (Waiting c) s [Waiting c']
  | cs_wait_end c ret : wait_ends s c ret -> call_step s (Waiting c) s [Exiting c ret]
  | cs_wait_exit c ret rc forbid pub s' : wait_exit s c ret = (rc, forbid, pub, s') -> call_step s (Exiting c ret) s' [Leaving pub rc]
  | cs_wait_drop pub rc : call_step s (Leaving pub rc) (wait_drop s pub) []
  | cs_wait_failed u rc : call_step s (Failed u rc) (wait_drop s (futex_hash u)) []
  | cs_pi_refused u gva tid now_sec now_usec rc : pi_checks s u (timeout_arg (q_mem s) gva) now_sec now_usec = inl rc ->
      call_step s (PiEntering u gva tid) s [PiLeaving u rc]
  | cs_pi_accepted u gva tid now_sec now_usec d : pi_checks s u (timeout_arg (q_mem s) gva) now_sec now_usec = inr d ->
      call_step s (PiEntering u gva tid) s [PiTrying u tid d]
  | cs_pi_try u tid d alive n s' : pi_try s u tid alive = (n, s') -> call_step s (PiTrying u tid d) s' [pi_after u tid d n]
  | cs_pi_contend u tid d fuel env n s' : plays (fun x => x = u \/ pi_at s x) env -> pi_contend fuel env s u tid = Some (n, s') ->
      call_step s (PiContending u tid d) s' [pi_after u tid d n]
  | cs_pi_exit u tid d w fuel env rc n s' : pi_ends s w u d rc -> plays (pi_at s) env -> pi_exit fuel env s w u rc = Some (n, s') ->
      call_step s (PiWaiting u tid d w) s' [pi_after u tid d n]
  | cs_pi_drop u rc : call_step s (PiLeaving u rc) (wait_drop s (futex_hash u)) []
  | cs_pi_unlock u fuel env rc s' : plays (pi_at s) env -> unlock_release fuel env s u = Some (rc, s') -> call_step s (PiUnlocking u) s' []
  | cs_vec_charge charged e todo d :
      call_step s (VecCharging charged (e :: todo) d) (wait_charge s (v_uaddr e)) [VecCharging (charged ++ [e]) todo d]
  | cs_vec_enqueue elts d group ws s' : waitv_enqueue s group elts = (ws, 0, s') -> call_step s (VecCharging elts [] d) s' [VecWaiting ws d]
  | cs_vec_refused elts d group ws rc s' : waitv_enqueue s group elts = (ws, rc, s') -> rc <> 0 ->
      call_step s (VecCharging elts [] d) s'
        [VecUnlinking (rev ws) ws (map (fun e => futex_hash (v_uaddr e)) (drop (length ws) elts)) rc]
  | cs_vec_end ws d ret : waitv_ends s ws d ret -> call_step s (VecWaiting ws d) s [VecUnlinking ws ws [] ret]
  | cs_vec_unlink w todo ws rest ret : call_step s (VecUnlinking (w :: todo) ws rest ret) (waitv_unlink s w) [VecUnlinking todo ws rest ret]
  | cs_vec_unlinked ws rest ret : call_step s (VecUnlinking [] ws rest ret) s [VecDropping ws rest ret]
  | cs_vec_drop w ws rest ret :
      call_step s (VecDropping (w :: ws) rest ret) (wait_drop s (w_pub_bucket (node s w))) [VecDropping ws rest ret]
  | cs_vec_drop_rest b rest ret : call_step s (VecDropping [] (b :: rest) ret) (wait_drop s b) [VecDropping [] rest ret]
  | cs_vec_done ret : call_step s (VecDropping [] [] ret) s []
  | cs_robust_mark gva v m : write32 (q_mem s) gva v = Some m -> call_step s (RobustMarking gva v) (set_mem m s) [RobustWaking gva]
  | cs_robust_fail gva v : write32 (q_mem s) gva v = None -> call_step s (RobustMarking gva v) s []
  | cs_robust_wake gva : call_step s (RobustWaking gva) (futex_wake_owner_died s gva) [].

(** A call that has just done its first step. *)
Inductive starts s : futex M -> call -> Prop :=
  | start_wait u expected gva bitset ab : starts s (wait_charge s u) (Entering u expected gva bitset ab)
  | start_lock_pi u gva tid : starts s (wait_charge s u) (PiEntering u gva tid)
  | start_unlock_pi u tid : unlock_checks s u tid = 0 -> starts s s (PiUnlocking u)
  | start_waitv gva nr flags timeout_gva clockid now_sec now_usec mono d elts :
      waitv_checks (q_mem s) gva nr flags timeout_gva clockid now_sec now_usec mono = inr (d, elts) -> starts s s (VecCharging [] elts d)
  | start_robust gva tid v : robust_reachable gva = true -> robust_owned (q_mem s) gva tid = Some v -> starts s s (RobustMarking gva v).

(** Calls that are over after one critical section, and the guest. *)
Inductive whole s : futex M -> Prop :=
  | whole_wake u val bitset rc s' : futex_wake s u val bitset = (rc, s') -> whole s s'
  | whole_requeue u wake_count requeue_count u2 do_cmp expected rc s' : 0 <= wake_count -> 0 <= requeue_count ->
      futex_requeue s u wake_count requeue_count u2 do_cmp expected = (rc, s') -> whole s s'
  | whole_wake_op fuel env u val u2 val2 val3 rc s' : plays (pi_at s) env -> may (pi_at s) (q_mem s) (q_mem s') ->
      futex_wake_op fuel env s u val u2 val2 val3 = Some (rc, s') -> whole s s'
  | whole_trylock u tid rc s' : futex_trylock_pi s u tid = (rc, s') -> whole s s'
  | whole_guest m : may (pi_at s) (q_mem s) m -> whole s (set_mem m s).

Definition sys : Type := futex M * list call.

Inductive step : sys -> sys -> Prop :=
  | step_call s c s' cs l l' : l ≡ₚ c :: l' -> call_step s c s' cs -> step (s, l) (s', cs ++ l')
  | step_start s s' c l : starts s s' c -> step (s, l) (s', c :: l)
  | step_whole s s' l : whole s s' -> step (s, l) (s', l).

Definition reachable (m : M) : sys -> Prop := rtc step (futex_init m, []).
End Life.
