(* ===== verification/FutexInv.v ===== *)
(** * The invariant of the futex calls in progress

    Every critical section preserves [core] and what each call knows of its own node. *)

From S2P Require Import Prelude FutexWord Futex FutexFacts FutexCore FutexLife.
From stdpp Require Import relations.

#[local] Open Scope Z_scope.

Section Inv.
Context {M : Type} `{FM : FutexMem M}.
Context (may : (Z -> Prop) -> M -> M -> Prop).
Implicit Types s : futex M.

Definition follower s (w : nat) : Prop := w_pub_follows (node s w) = true.

Definition call_ok s (c : call) : Prop :=
  match c with
  | Entered u _ _ _ _ | Checked u _ _ _ | PiTrying u _ _ | PiContending u _ _ | PiUnlocking u => futex_uaddr_is_aligned u = true
  | Waiting c => follower s (c_node c)
  | Exiting c ret => follower s (c_node c) /\ (ret = 0 -> w_woken (node s (c_node c)) = true)
  | Leaving pub _ => bucket pub
  | PiWaiting u _ _ w =>
      futex_uaddr_is_aligned u = true /\ w_pub_follows (node s w) = false /\ w_uaddr (node s w) = u /\ w_pub_bucket (node s w) = futex_hash u
  | VecCharging charged todo _ => Forall (fun e => futex_uaddr_is_aligned (v_uaddr e) = true) (charged ++ todo)
  | VecWaiting ws _ => Forall (follower s) ws
  | VecUnlinking todo ws rest _ => Forall (follower s) ws /\ todo ⊆+ ws /\ Forall bucket rest
  | VecDropping ws rest _ => Forall (follower s) ws /\ Forall bucket rest
  | RobustMarking gva v => futex_uaddr_is_aligned gva = true /\ exists x, v = futex_pi_mark_owner_died x
  | _ => True
  end.

Lemma parked_held s c : call_ok s c -> parked c ⊆+ held c.
Proof. destruct c; cbn; try done; intros; (apply submseteq_nil_l || tauto). Qed.

Lemma follower_keep s s' w : keep_nodes s s' -> valid s w -> follower s w -> follower s' w.
Proof. intros [_ Kp] V F. destruct (Kp w V) as (E & _). unfold follower in *. congruence. Qed.

Lemma followers_keep s s' ws : keep_nodes s s' -> Forall (valid s) ws -> Forall (follower s) ws -> Forall (follower s') ws.
Proof. intros Kp V F. rewrite list.Forall_forall in *. intros w W. eapply follower_keep; eauto. Qed.

Lemma call_ok_keep s s' c : keep_nodes s s' -> Forall (valid s) (held c) -> call_ok s c -> call_ok s' c.
Proof.
  intros Kp V. destruct c; cbn in *; try done.
  - inversion_clear V as [|? ? V1 _]. by apply follower_keep.
  - inversion_clear V as [|? ? V1 _]. intros [F U]. split; [by eapply follower_keep|].
    intros E. destruct (proj2 Kp _ V1) as (_ & W & _). auto.
  - inversion_clear V as [|? ? V1 _]. intros (A & F & U & Pb). destruct (proj2 Kp _ V1) as (F' & _ & Pi).
    destruct (Pi F) as [Eu Ep]. repeat split; congruence.
  - by apply followers_keep.
  - intros (F & ?). split; [by eapply followers_keep|done].
  - intros (F & ?). split; [by eapply followers_keep|done].
Qed.

(** ** What the pieces of a call do to the nodes *)

Lemma keep_mem s m : keep_nodes s (set_mem m s).
Proof. split; [done|]. intros w _. change (node (set_mem m s) w) with (node s w). done. Qed.
Lemma keep_set_chain s b l : keep_nodes s (set_chain s b l).
Proof. split; [done|]. intros w _. change (node (set_chain s b l) w) with (node s w). done. Qed.
Lemma keep_add s b d : keep_nodes s (shim_globals_futex_waiters_add s b d).
Proof. destruct (add_fields s b d) as (_ & _ & E & _). split; [by rewrite E|]. intros w _. by rewrite node_add. Qed.

Lemma enqueue_node s x b w s' : enqueue s x b = (w, s') ->
  keep_nodes s s' /\ node s' w = x /\ w = length (q_nodes s) /\ length (q_nodes s') = S (length (q_nodes s)) /\
  (forall y, valid s y -> node s' y = node s y) /\ q_mem s' = q_mem s.
Proof.
  intros [= <- <-]. assert (N : forall y, node (set_chain (set_nodes (q_nodes s ++ [x]) s) b (length (q_nodes s) :: chain (set_nodes (q_nodes s ++ [x]) s) b)) y
    = if decide (y = length (q_nodes s)) then x else node s y) by apply node_snoc.
  assert (L : length (q_nodes s ++ [x]) = S (length (q_nodes s))) by (rewrite length_app; cbn; lia).
  assert (V : forall y, valid s y -> y <> length (q_nodes s)) by (unfold valid; intros; lia).
  split; [split; [cbn; lia|intros y Y; rewrite N, decide_False by auto; done]|]. split; [by rewrite N, decide_True|].
  split; [done|]. split; [done|]. split; [|done]. intros y Y. by rewrite N, decide_False by auto.
Qed.

Lemma wait_checks_aligned u bitset timeout ab now_sec now_usec d :
  wait_checks u bitset timeout ab now_sec now_usec = inr d -> futex_uaddr_is_aligned u = true.
Proof. unfold wait_checks. case_if; [done|]. by destruct (futex_uaddr_is_aligned u). Qed.

Lemma pi_checks_aligned s u timeout now_sec now_usec d : pi_checks s u timeout now_sec now_usec = inr d -> futex_uaddr_is_aligned u = true.
Proof. unfold pi_checks. by destruct (futex_uaddr_is_aligned u). Qed.

Lemma unlock_checks_aligned s u tid : unlock_checks s u tid = 0 -> futex_uaddr_is_aligned u = true.
Proof. unfold unlock_checks. destruct (read32 _ _); [|done]. case_if; [done|]. by destruct (futex_uaddr_is_aligned u). Qed.

Lemma wait_top_node s c clock n c' : wait_top s c clock = (n, c') -> c_node c' = c_node c.
Proof.
  unfold wait_top. set (c1 := if w_home _ =? _ then c else _). assert (E : c_node c1 = c_node c) by (unfold c1; by case_if).
  case_if; [intros [= _ <-]; done|]. destruct (c_deadline c1); [destruct (futex_quantum_deadline _ _)|]; intros [= _ <-]; done.
Qed.

(** A wait that ends well was woken. *)
Lemma wait_ends_zero s c : wait_ends s c 0 -> w_woken (node s (c_node c)) = true.
Proof.
  intros [(clock & c' & E)|[(stop & E)|(sig & E)]].
  - unfold wait_top in E. set (c1 := if w_home _ =? _ then c else _) in E. assert (Ec : c_node c1 = c_node c) by (unfold c1; by case_if).
    rewrite Ec in E. destruct (w_woken _); [done|]. destruct (c_deadline c1); [destruct (futex_quantum_deadline _ _)|]; done.
  - unfold wait_slept in E. destruct stop; [done|]. destruct (w_woken _); [done|]. by rewrite andb_false_r in E.
  - unfold wait_polled in E. destruct (w_woken _); [done|]. by destruct sig.
Qed.

(** ** The critical sections *)

Lemma core_fresh s w H P K : core s (w :: H) P (w :: K) -> w ∉ K.
Proof.
  intros C. pose proof (submseteq_NoDup _ _ (co_parked _ _ _ _ C) (co_held _ _ _ _ C)) as N. by apply list.NoDup_cons in N as [N _].
Qed.

Lemma wait_exit_core s c ret H P K rc forbid pub s' :
  core s (c_node c :: H) P (c_node c :: K) -> follower s (c_node c) -> (ret = 0 -> w_woken (node s (c_node c)) = true) ->
  wait_exit s c ret = (rc, forbid, pub, s') ->
  core s' H (pub :: P) K /\ keep_nodes s s' /\ bucket pub /\ (rc = 0 <-> w_woken (node s (c_node c)) = true).
Proof.
  intros C F Z. unfold wait_exit. set (w := c_node c) in *. pose proof (core_fresh _ _ _ _ _ C) as NK.
  destruct (co_pub _ _ _ _ C w) as [B1 B2]; [by left|]. destruct (w_woken (node s w)) eqn:U; intros [= <- <- <- <-].
  - split; [apply core_convert; [done|]; by apply core_unpark_woken with (w := w)|]. split; [done|]. split; [done|]. tauto.
  - split; [|split; [apply keep_set_chain|split; [done|split; [auto|done]]]].
    change (w_pub_bucket (node s w)) with (w_pub_bucket (node (bucket_unlink_locked s (w_home (node s w)) w) w)).
    apply core_convert; [done|]. apply core_unpark; [auto| |done].
    intros _. eapply core_home; [exact C|by left|done|done].
Qed.

Lemma core_set_mem_keep s H P K m : core s H P K -> core (set_mem m s) H P K /\ keep_nodes s (set_mem m s).
Proof. intros C. split; [by apply core_mem|apply keep_mem]. Qed.

Lemma pi_contend_core fuel env s u tid H P K n s' : futex_uaddr_is_aligned u = true -> core s H (futex_hash u :: P) K ->
  pi_contend fuel env s u tid = Some (n, s') ->
  keep_nodes s s' /\
  match n with
  | PiParked w => core s' (w :: H) P (w :: K) /\ w_pub_follows (node s' w) = false /\ w_uaddr (node s' w) = u /\ w_pub_bucket (node s' w) = futex_hash u
  | _ => core s' H (futex_hash u :: P) K
  end.
Proof.
  intros Al C. unfold pi_contend. destruct (cas_loop _ _ _ _ _) as [[m|cur m|cur m]|]; cbn [mbind option_bind]; [|intros E|intros E|done].
  { intros [= <- <-]. destruct (core_set_mem_keep _ _ _ _ m C). done. }
  all: revert E; set (s1 := set_mem (env fuel m) s); destruct (core_set_mem_keep _ _ _ _ (env fuel m) C) as [C1 K1]; fold s1 in C1, K1.
  all: destruct (futex_pi_unowned cur);
    [case_if; [by intros [= <- <-]|]; destruct (futex_word_cas _ _ _ _) as [[[? []] m']|]; intros [= <- <-];
       [destruct (core_set_mem_keep _ _ _ _ m' C1) as [C2 K2]; split; [by etransitivity|done]|done|done]|].
  all: destruct (enqueue _ _ _) as [w s2] eqn:Eq; intros [= <- <-]; destruct (enqueue_node _ _ _ _ _ Eq) as (K2 & N & _); rewrite N.
  all: split; [by etransitivity|split; [|done]]; eapply core_enqueue; [..|exact Eq|exact C1]; done.
Qed.

Lemma pi_exit_core fuel env s w u rc H P K n s' :
  core s (w :: H) P (w :: K) -> w_uaddr (node s w) = u -> w_pub_bucket (node s w) = futex_hash u ->
  pi_exit fuel env s w u rc = Some (n, s') ->
  core s' H (futex_hash u :: P) K /\ keep_nodes s s' /\ n = if negb (rc =? 0) then PiReturn rc else PiRetry.
Proof.
  intros C U Pb. unfold pi_exit. set (s1 := bucket_unlink_locked s (futex_hash u) w).
  assert (C1 : core s1 H (futex_hash u :: P) K).
  { change (futex_hash u) with (futex_hash u) in Pb. rewrite <- Pb at 1. change (w_pub_bucket (node s w)) with (w_pub_bucket (node s1 w)).
    apply core_convert; [by eapply core_fresh|]. apply core_unpark; [apply futex_hash_bucket| |done].
    intros Uw. rewrite <- U. eapply co_linked; [exact C|by left|done]. }
  destruct (_ && _); cbn.
  - unfold futex_clear_waiters_bit. destruct (cas_loop _ _ _ _ _) as [[m|? m|? m]|]; cbn; [..|done]; intros [= <- <-];
      (split; [by apply core_mem|]); (split; [|done]); (etransitivity; [apply keep_set_chain|apply keep_mem]).
  - intros [= <- <-]. split; [done|]. split; [apply keep_set_chain|done].
Qed.

Lemma unlock_release_core fuel env s u H P K rc s' : core s H P K -> unlock_release fuel env s u = Some (rc, s') -> core s' H P K /\ keep_nodes s s'.
Proof.
  intros C. unfold unlock_release. destruct (core_wake_first s H P K u C) as [C1 Q%quiet_keeps]. set (s1 := futex_wake_first_locked _ _ _) in *.
  destruct (cas_loop _ _ _ _ _) as [[m|? m|? m]|]; cbn; [..|done]; intros [= <- <-];
    (split; [by apply core_mem|]); (etransitivity; [exact Q|apply keep_mem]).
Qed.

Lemma waitv_enqueue_core elts s g H P K ws rc s' : Forall (fun e => futex_uaddr_is_aligned (v_uaddr e) = true) elts ->
  core s H (map (fun e => futex_hash (v_uaddr e)) elts ++ P) K -> waitv_enqueue s g elts = (ws, rc, s') ->
  core s' (ws ++ H) (map (fun e => futex_hash (v_uaddr e)) (drop (length ws) elts) ++ P) (ws ++ K) /\
  Forall (follower s') ws /\ keep_nodes s s' /\ (rc = 0 -> length ws = length elts) /\ q_mem s' = q_mem s.
Proof.
  revert s H K ws. induction elts as [|e elts IH]; intros s H K ws Al C; cbn [waitv_enqueue]; [by intros [= <- <- <-]|].
  inversion_clear Al as [|? ? A1 A2]. destruct (negb _) eqn:B; [intros [= <- <- <-]|].
  { split; [exact C|]. split; [constructor|]. split; [done|]. split; [|done]. intros E. by rewrite E in B. }
  destruct (enqueue _ _ _) as [w s1] eqn:Eq. destruct (waitv_enqueue s1 g elts) as [[ws1 rc1] s2] eqn:R. intros [= <- <- <-].
  destruct (enqueue_node _ _ _ _ _ Eq) as (K1 & N & Ew & L & _ & Em).
  assert (C1 : core s1 (w :: H) (map (fun e => futex_hash (v_uaddr e)) elts ++ P) (w :: K)) by (eapply core_enqueue; [..|exact Eq|exact C]; done).
  destruct (IH _ _ _ _ A2 C1 R) as (C2 & F & K2 & Len & Em2). cbn [length drop].
  split; [eapply core_perm; [..|exact C2]; [symmetry; apply Permutation_middle|done|symmetry; apply Permutation_middle]|].
  split; [constructor; [|done]|split; [by etransitivity|split; [|congruence]]].
  - eapply follower_keep; [exact K2|unfold valid; lia|]. unfold follower. by rewrite N.
  - intros E. f_equal. auto.
Qed.

Lemma futex_wake_op_core fuel env s u val u2 val2 val3 H P K rc s' : core s H P K ->
  futex_wake_op fuel env s u val u2 val2 val3 = Some (rc, s') -> core s' H P K /\ quiet (set_mem (q_mem s') s) s'.
Proof.
  intros C. assert (Id : forall m, core (set_mem m s) H P K /\ quiet (set_mem (q_mem (set_mem m s)) s) (set_mem m s)) by (intros; split; [by apply core_mem|done]).
  assert (Id' : core s H P K /\ quiet (set_mem (q_mem s) s) s) by (split; [done|by destruct s]).
  unfold futex_wake_op. destruct (negb (futex_uaddr_is_aligned u) || _); [by intros [= <- <-]|]. cbv zeta.
  destruct (negb (futex_wake_op_supported _)); [by intros [= <- <-]|]. destruct (negb (word_w _ _)); [by intros [= <- <-]|].
  destruct (cas_loop _ _ _ _ _) as [[m|? m|old m]|]; cbn [mbind option_bind]; [by intros [= <- <-]|by intros [= <- <-]| |done].
  destruct (Id m) as [C1 I1]. set (s1 := set_mem m s) in *. destruct (negb (futex_wake_cmp_supported _)); [by intros [= <- <-]|].
  destruct (futex_pi_waiter_within s1 _ _ _ _ || _); [by intros [= <- <-]|].
  destruct (wake_chain s1 _ _ _) as [n1 s2] eqn:W1. destruct (core_wake_chain _ _ _ _ _ _ _ _ _ (futex_hash_bucket u) C1 W1) as [C2 Q1].
  destruct (if futex_wake_op_cmp _ _ _ then _ else _) as [n2 s3] eqn:W2. intros [= <- <-].
  assert (X : core s3 H P K /\ quiet s2 s3).
  { destruct (futex_wake_op_cmp _ _ _); [by apply (core_wake_chain _ _ _ _ _ _ _ _ _ (futex_hash_bucket u2) C2 W2)|by injection W2 as <- <-]. }
  destruct X as [C3 Q2]. split; [done|]. assert (E : q_mem s3 = m) by (rewrite (qt_mem _ _ Q2), (qt_mem _ _ Q1); done).
  rewrite E. fold s1. by etransitivity.
Qed.

(** ** Every step *)

(** The call is at [cs] in state [s'], and the others hold what they held. *)
Definition advanced s s' (cs : list call) (H : list nat) (P : list Z) (K : list nat) : Prop :=
  core s' (flat_map held cs ++ H) (flat_map plain cs ++ P) (flat_map parked cs ++ K) /\ Forall (call_ok s') cs /\ keep_nodes s s'.

Lemma advanced_one s s' c H P K : core s' (held c ++ H) (plain c ++ P) (parked c ++ K) -> call_ok s' c -> keep_nodes s s' -> advanced s s' [c] H P K.
Proof. intros C O Kp. unfold advanced. cbn. rewrite !app_nil_r. auto. Qed.

(** A step that only says more about the call. *)
Lemma advanced_same s c c' H P K : held c' = held c -> plain c' = plain c -> parked c' = parked c -> call_ok s c' ->
  core s (held c ++ H) (plain c ++ P) (parked c ++ K) -> advanced s s [c'] H P K.
Proof. intros E1 E2 E3 O C. apply advanced_one; [by rewrite E1, E2, E3|done|done]. Qed.

Lemma advanced_drop s b H P K : bucket b -> core s H (b :: P) K -> advanced s (wait_drop s b) [] H P K.
Proof. intros B C. split; [by apply core_drop|]. split; [constructor|apply keep_add]. Qed.

Lemma pi_try_after s u tid alive n s' : pi_try s u tid alive = (n, s') ->
  (s' = s \/ exists m, s' = set_mem m s) /\ match n with PiParked _ | PiRetry => False | _ => True end.
Proof.
  unfold pi_try. destruct (futex_word_cas _ _ _ _) as [[[v []] m]|]; [intros [= <- <-]; eauto|repeat case_if; intros [= <- <-]; eauto|intros [= <- <-]; eauto].
Qed.

Lemma advanced_pi s u tid d n s' H P K : futex_uaddr_is_aligned u = true -> core s' H (futex_hash u :: P) K -> keep_nodes s s' ->
  match n with PiParked _ => False | _ => True end -> advanced s s' [pi_after u tid d n] H P K.
Proof. intros Al C Kp N. by destruct n; [apply advanced_one..|]. Qed.

Lemma call_step_waits s c s' cs H P K : call_ok s c -> core s (held c ++ H) (plain c ++ P) (parked c ++ K) ->
  match c with Entering _ _ _ _ _ | Entered _ _ _ _ _ | Checked _ _ _ _ | Failed _ _ | Waiting _ | Exiting _ _ | Leaving _ _ => True | _ => False end ->
  call_step may s c s' cs -> advanced s s' cs H P K.
Proof.
  intros O C N St. destruct St; try done; cbn in O.
  - by eapply advanced_same; [..|exact C].
  - eapply advanced_same; [..|exact C]; try done. by eapply wait_checks_aligned.
  - by eapply advanced_same; [..|exact C].
  - by eapply advanced_same; [..|exact C].
  - by eapply advanced_same; [..|exact C].
  - destruct (enqueue_node _ _ _ _ _ H0) as (Kp & Nw & _). apply advanced_one; [|unfold call_ok, follower; cbn [c_node]; by rewrite Nw|done].
    eapply core_enqueue; [..|exact H0|exact C]; done.
  - eapply advanced_same; [..|exact C]; cbn; rewrite ?(wait_top_node _ _ _ _ _ H0); done.
  - eapply advanced_same; [..|exact C]; try done. cbn. split; [done|]. intros ->. by apply wait_ends_zero.
  - destruct (wait_exit_core _ _ _ _ _ _ _ _ _ _ C (proj1 O) (proj2 O) H0) as (C' & Kp & B & _). by apply advanced_one.
  - by apply advanced_drop.
  - apply advanced_drop; [apply futex_hash_bucket|done].
Qed.

Lemma call_step_pi s c s' cs H P K : call_ok s c -> core s (held c ++ H) (plain c ++ P) (parked c ++ K) ->
  match c with PiEntering _ _ _ | PiTrying _ _ _ | PiContending _ _ _ | PiWaiting _ _ _ _ | PiLeaving _ _ | PiUnlocking _ | RobustMarking _ _ | RobustWaking _ => True | _ => False end ->
  call_step may s c s' cs -> advanced s s' cs H P K.
Proof.
  intros O C N St. destruct St; try done; cbn in O.
  - by eapply advanced_same; [..|exact C].
  - eapply advanced_same; [..|exact C]; try done. by eapply pi_checks_aligned.
  - destruct (pi_try_after _ _ _ _ _ _ H0) as [[->|[m ->]] Nn]; (apply advanced_pi; [done| | |by destruct n]); [done|done|by apply core_mem|apply keep_mem].
  - destruct (pi_contend_core _ _ _ _ _ _ _ _ _ _ O C H1) as [Kp R]. destruct n; try by apply advanced_pi.
    destruct R as (C' & F). by apply advanced_one.
  - destruct O as (Al & F & U & Pb). destruct (pi_exit_core _ _ _ _ _ _ _ _ _ _ _ C U Pb H2) as (C' & Kp & ->). apply advanced_pi; [done..|]. by case_if.
  - apply advanced_drop; [apply futex_hash_bucket|done].
  - destruct (unlock_release_core _ _ _ _ _ _ _ _ _ C H1) as [C' Kp]. split; [done|]. by split; [constructor|].
  - apply advanced_one; [by apply core_mem|done|apply keep_mem].
  - destruct (core_wake_first _ _ _ _ gva C) as [C' Q%quiet_keeps]. split; [exact C'|]. by split; [constructor|].
Qed.

Lemma call_step_vec s c s' cs H P K : call_ok s c -> core s (held c ++ H) (plain c ++ P) (parked c ++ K) -> K ⊆+ H ->
  match c with VecCharging _ _ _ | VecWaiting _ _ | VecUnlinking _ _ _ _ | VecDropping _ _ _ => True | _ => False end ->
  call_step may s c s' cs -> advanced s s' cs H P K.
Proof.
  intros O C KH N St. destruct St; try done; cbn in O.
  - apply advanced_one; [|unfold call_ok; by rewrite <- app_assoc|apply keep_add]. cbn. rewrite map_app. cbn.
    eapply core_perm; [done| |done|by apply core_charge, C]. by rewrite <- app_assoc, Permutation_middle.
  - rewrite app_nil_r in O. destruct (waitv_enqueue_core _ _ _ _ _ _ _ _ _ O C H0) as (C' & F & Kp & L & _). apply advanced_one; [|done|done].
    rewrite L, drop_all in C' by done. exact C'.
  - rewrite app_nil_r in O. destruct (waitv_enqueue_core _ _ _ _ _ _ _ _ _ O C H0) as (C' & F & Kp & _).
    assert (Rv : rev ws ≡ₚ ws) by (rewrite <- Permutation_rev; done). apply advanced_one; [|split; [done|split; [by rewrite Rv|]]|done].
    + eapply core_perm; [done|done| |exact C']. cbn. by rewrite Rv.
    + apply list.Forall_forall. intros b (e & -> & _)%list_elem_of_fmap. apply futex_hash_bucket.
  - by eapply advanced_same; [..|exact C].
  - destruct O as (F & S & B). assert (W : w ∈ ws) by (eapply elem_of_submseteq; [|exact S]; by left).
    assert (Fw : follower s w) by (by eapply list.Forall_forall in F).
    destruct (co_pub _ _ _ _ C w) as [_ Ho]; [cbn; apply elem_of_app; by left|].
    apply advanced_one; [|split; [done|split; [|done]]|apply keep_set_chain].
    + apply core_unpark; [by apply Ho| |exact C]. intros U. eapply core_home; [exact C|by left|done|done].
    + etransitivity; [|exact S]. by apply submseteq_cons.
  - destruct O as (F & S & B). by eapply advanced_same; [..|exact C].
  - destruct O as (F & B). inversion_clear F as [|? ? F1 F2]. assert (NK : w ∉ K).
    { intros X. pose proof (co_held _ _ _ _ C) as ND. cbn in ND. apply list.NoDup_cons in ND as [ND _]. apply ND, elem_of_app. right. by eapply elem_of_submseteq. }
    destruct (co_pub _ _ _ _ C w) as [Bp _]; [by left|]. apply advanced_one; [|split; [|done]|apply keep_add].
    + apply core_drop; [done|]. apply core_convert; [done|exact C].
    + eapply list.Forall_impl; [exact F2|]. intros x. unfold follower, wait_drop. by rewrite node_add.
  - destruct O as (F & B). inversion_clear B as [|? ? B1 B2]. apply advanced_one; [by apply core_drop|by split|apply keep_add].
Qed.

Lemma call_step_core s c s' cs H P K : call_ok s c -> core s (held c ++ H) (plain c ++ P) (parked c ++ K) -> K ⊆+ H ->
  call_step may s c s' cs -> advanced s s' cs H P K.
Proof.
  intros O C KH St. destruct c; (by apply (call_step_waits _ _ _ _ _ _ _ O C)) || (by apply (call_step_pi _ _ _ _ _ _ _ O C)) || (by apply (call_step_vec _ _ _ _ _ _ _ O C KH)).
Qed.

Definition inv (y : sys) : Prop :=
  core (fst y) (flat_map held (snd y)) (flat_map plain (snd y)) (flat_map parked (snd y)) /\ Forall (call_ok (fst y)) (snd y).

Lemma all_parked_held s l : Forall (call_ok s) l -> flat_map parked l ⊆+ flat_map held l.
Proof. induction 1 as [|c l O _ IH]; [done|]. cbn. by apply submseteq_app; [eapply parked_held|]. Qed.

Lemma calls_keep s s' l : keep_nodes s s' -> Forall (valid s) (flat_map held l) -> Forall (call_ok s) l -> Forall (call_ok s') l.
Proof.
  intros Kp. induction l as [|c l IH]; cbn; intros V O; [constructor|]. apply Forall_app in V as [V1 V2].
  inversion_clear O as [|? ? O1 O2]. constructor; [by eapply call_ok_keep|auto].
Qed.

Lemma inv_perm s l l' : l ≡ₚ l' -> inv (s, l) -> inv (s, l').
Proof.
  intros E [C O]. cbn in *. split; cbn; [|by rewrite <- E]. eapply core_perm; [..|exact C]; by apply Permutation_flat_map.
Qed.

Lemma waitv_checks_aligned (m : M) gva nr flags timeout_gva clockid now_sec now_usec mono d elts :
  waitv_checks m gva nr flags timeout_gva clockid now_sec now_usec mono = inr (d, elts) ->
  Forall (fun e => futex_uaddr_is_aligned (v_uaddr e) = true) elts.
Proof.
  unfold waitv_checks. repeat (case_if; [done|]).
  match goal with |- match ?X with inl _ => _ | inr _ => _ end = _ -> _ => destruct X; [done|] end.
  destruct (read64s _ _ _) as [ws|]; [|done]. destruct (forallb _ _) eqn:F; [|done]. intros [= _ <-].
  rewrite forallb_forall in F. apply list.Forall_forall. intros e E%list_elem_of_In%F.
  unfold waitv_elt_valid in E. by apply andb_prop in E as [_ E].
Qed.

Lemma starts_inv s s' c l : starts s s' c -> inv (s, l) -> inv (s', c :: l).
Proof.
  intros St [C O]. cbn in *. destruct St; (split; cbn; [|constructor]); try done; try by apply core_charge.
  - eapply calls_keep; [apply keep_add|apply C|done].
  - eapply calls_keep; [apply keep_add|apply C|done].
  - by eapply unlock_checks_aligned.
  - by eapply waitv_checks_aligned.
  - cbn. unfold robust_reachable, robust_owned in *. apply andb_prop in H as [_ H]. split; [done|].
    destruct (read32 _ _); [|done]. destruct (_ =? _); [|done]. injection H0 as <-. eauto.
Qed.

Lemma whole_inv s s' l : whole may s s' -> inv (s, l) -> inv (s', l).
Proof.
  intros St [C O]. cbn in *. assert (X : core s' (flat_map held l) (flat_map plain l) (flat_map parked l) /\ keep_nodes s s').
  { destruct St as [u v b rc s' E|u a b u2 dc ex rc s' A B E|f e u v u2 v2 v3 rc s' A B E|u tid rc s' E|m A].
    - destruct (core_futex_wake _ _ _ _ _ _ _ _ _ C E). split; [done|by apply quiet_keeps].
    - destruct (core_futex_requeue _ _ _ _ _ _ _ _ _ _ _ _ A B C E). split; [done|by apply quiet_keeps].
    - destruct (futex_wake_op_core _ _ _ _ _ _ _ _ _ _ _ _ _ C E) as [C' Q%quiet_keeps]. split; [done|]. etransitivity; [apply keep_mem|exact Q].
    - unfold futex_trylock_pi in E. repeat (case_if; [by injection E as <- <-|]). destruct (negb _) in E; [by injection E as <- <-|].
      destruct (negb _) in E; [by injection E as <- <-|]. destruct (futex_word_cas _ _ _ _) as [[[? []] m]|] in E; injection E as <- <-; [|done|done].
      by apply core_set_mem_keep.
    - by apply core_set_mem_keep. }
  destruct X as [C' Kp]. split; [done|]. eapply calls_keep; [exact Kp|apply C|done].
Qed.

Lemma futex_step_inv y y' : step may y y' -> inv y -> inv y'.
Proof.
  intros St. destruct St as [s c s' cs l l' E St|s s' c l St|s s' l St]; [|by apply starts_inv|by apply whole_inv].
  intros [C O]%(inv_perm _ _ _ E). cbn in C, O. inversion_clear O as [|? ? O1 O2].
  destruct (call_step_core _ _ _ _ _ _ _ O1 C (all_parked_held _ _ O2) St) as (C' & O' & Kp).
  assert (V : Forall (valid s) (flat_map held l')) by (pose proof (co_valid _ _ _ _ C) as V; by apply Forall_app in V as [_ V]).
  split; cbn; [by rewrite !flat_map_app|]. apply Forall_app. split; [done|]. by eapply calls_keep.
Qed.

Lemma chain_init (m : M) b : chain (futex_init m) b = [].
Proof. unfold chain, futex_init. cbn [q_buckets]. rewrite nth_lookup. destruct (replicate _ _ !! _) eqn:E; [|done]. by apply lookup_replicate in E as [-> _]. Qed.

Lemma inv_init m : inv (futex_init m, []).
Proof.
  split; [|constructor]. constructor; cbn [fst snd flat_map]; try done.
  - intros b _. rewrite chain_init. constructor.
  - intros b w _. rewrite chain_init. by intros ?%not_elem_of_nil.
  - constructor.
  - by intros w ?%not_elem_of_nil.
  - intros b Hb. unfold shim_globals_futex_waiters_get, futex_init. cbn [q_counts]. case_if; [done|]. rewrite nth_lookup.
    destruct (replicate _ _ !! _) eqn:E; [|done]. by apply lookup_replicate in E as [-> _].
  - by intros w ?%not_elem_of_nil.
Qed.

Lemma reachable_inv m y : reachable may m y -> inv y.
Proof.
  intros R. pose proof (inv_init m) as I. unfold reachable in R. revert I. induction R as [|y y1 y2 St _ IH]; [done|]. intros I. apply IH. by eapply futex_step_inv.
Qed.
End Inv.
