(* ===== verification/FutexPi.v ===== *)
(** * The word of a contended PI lock

    While a FUTEX_LOCK_PI waiter is queued, the word of its lock is not zero, and
    says FUTEX_WAITERS whenever it names an owner.  So neither the lock nor the
    release of user space, which swap 0 and a bare TID, can succeed behind the
    waiter's back. *)

From S2P Require Import Prelude FutexWord Futex FutexFacts FutexCore FutexLife FutexInv.
From stdpp Require Import relations.

#[local] Open Scope Z_scope.

(** What atomic accesses and copies to aligned words do. *)
Class FutexMemLaws (M : Type) `{FM : FutexMem M} := {
  load_store (m : M) a v m' : futex_uaddr_is_aligned a = true -> word_store m a v = Some m' -> word_load m' a = Some v;
  load_store_ne (m : M) a b v m' : futex_uaddr_is_aligned a = true -> futex_uaddr_is_aligned b = true -> a <> b ->
    word_store m a v = Some m' -> word_load m' b = word_load m b;
  load_write (m : M) a v m' : futex_uaddr_is_aligned a = true -> write32 m a v = Some m' -> word_load m' a = Some v;
  load_write_ne (m : M) a b v m' : futex_uaddr_is_aligned a = true -> futex_uaddr_is_aligned b = true -> a <> b ->
    write32 m a v = Some m' -> word_load m' b = word_load m b
}.

(** The protocol of user space on a PI word: take a free lock, release one nobody
    waits for, or, as the owner, change other bits than FUTEX_WAITERS. *)
Inductive guest_edit : Z -> Z -> Prop :=
  | ge_same v : guest_edit v v
  | ge_acquire tid : guest_edit 0 tid
  | ge_release tid : futex_pi_has_waiters tid = false -> futex_pi_unowned tid = false -> guest_edit tid 0
  | ge_owner v v' : futex_pi_unowned v = false -> futex_pi_unowned v' = false -> futex_pi_has_waiters v' = futex_pi_has_waiters v -> guest_edit v v'.

Definition polite {M} `{FutexMem M} (U : Z -> Prop) (m m' : M) : Prop :=
  forall u v', U u -> word_load m' u = Some v' -> exists v, word_load m u = Some v /\ guest_edit v v'.

Definition handoff (v : Z) : Prop := v <> 0 /\ (futex_pi_unowned v = false -> futex_pi_has_waiters v = true).

Lemma handoff_waiters v : futex_pi_has_waiters v = true -> handoff v.
Proof. intros W. split; [|done]. intros ->. done. Qed.

Lemma set_waiters_handoff v : handoff (futex_pi_set_waiters v).
Proof.
  apply handoff_waiters. unfold futex_pi_has_waiters, futex_pi_set_waiters, FUTEX_PI_WAITERS.
  apply Z.leb_le. pose proof (Z.mod_pos_bound v 2147483648 ltac:(lia)). lia.
Qed.

Lemma owner_died_handoff v : handoff (futex_pi_mark_owner_died v).
Proof. unfold futex_pi_mark_owner_died. case_if; (split; [done|]); by vm_compute. Qed.

Lemma guest_edit_handoff v v' : guest_edit v v' -> handoff v -> handoff v'.
Proof.
  intros [x|tid|tid W U|x x' U U' W] [N H]; [done|done|by rewrite H in W by done|].
  apply handoff_waiters. rewrite W. auto.
Qed.

Section Pi.
Context {M : Type} `{FL : FutexMemLaws M}.
Implicit Types s : futex M.

(** The words [U] can be handed on, in memory [m]. *)
Definition safe (U : Z -> Prop) (m : M) : Prop := forall u v, U u -> word_load m u = Some v -> handoff v.

Definition pi_inv s : Prop := safe (pi_at s) (q_mem s).

Lemma safe_mono (U U' : Z -> Prop) m : (forall u, U' u -> U u) -> safe U m -> safe U' m.
Proof. intros S H u v X. by apply H, S. Qed.

Lemma safe_polite U m m' : polite U m m' -> safe U m -> safe U m'.
Proof.
  intros Po S u v' X L. destruct (Po u v' X L) as (v & L' & E). eapply guest_edit_handoff; [exact E|by eapply S].
Qed.

Lemma safe_store U m a x m' : (forall u, U u -> futex_uaddr_is_aligned u = true) -> futex_uaddr_is_aligned a = true ->
  word_store m a x = Some m' -> (U a -> handoff x) -> safe U m -> safe U m'.
Proof.
  intros Al A St Hx S u v X L. destruct (decide (u = a)) as [->|N].
  - rewrite (load_store _ _ _ _ A St) in L. injection L as <-. auto.
  - rewrite (load_store_ne _ a u x m' A (Al _ X) (not_eq_sym N) St) in L. by eapply S.
Qed.

Lemma safe_write U m a x m' : (forall u, U u -> futex_uaddr_is_aligned u = true) -> futex_uaddr_is_aligned a = true ->
  write32 m a x = Some m' -> (U a -> handoff x) -> safe U m -> safe U m'.
Proof.
  intros Al A St Hx S u v X L. destruct (decide (u = a)) as [->|N].
  - rewrite (load_write _ _ _ _ A St) in L. injection L as <-. auto.
  - rewrite (load_write_ne _ a u x m' A (Al _ X) (not_eq_sym N) St) in L. by eapply S.
Qed.

(** Swapping a word that cannot be handed on, as the acquisition of a free lock does. *)
Lemma safe_cas U m a e x v b m' : (forall u, U u -> futex_uaddr_is_aligned u = true) -> futex_uaddr_is_aligned a = true ->
  futex_word_cas m a e x = Some (v, b, m') -> (U a -> handoff e -> handoff x) -> safe U m -> safe U m'.
Proof.
  intros Al A E Hx S. unfold futex_word_cas in E. destruct (word_load m a) as [y|] eqn:L; [|done].
  destruct (Z.eqb_spec y e) as [->|]; [|by injection E as _ _ <-].
  destruct (word_store m a x) as [m1|] eqn:St; [|done]. injection E as _ _ <-. eapply safe_store; eauto.
Qed.

(** A loop that swaps in a value the queue allows. *)
Lemma safe_cas_loop U env fuel m a edit r : (forall u, U u -> futex_uaddr_is_aligned u = true) -> futex_uaddr_is_aligned a = true ->
  plays polite U env -> (forall v v', edit v = Some v' -> U a -> handoff v') -> safe U m -> cas_loop fuel env m a edit = Some r ->
  match r with CasFault m' | CasStop _ m' | CasDone _ m' => safe U m' end.
Proof.
  intros Al A Pl Ed S. apply (cas_loop_rule (safe U) (fun r => match r with CasFault m' | CasStop _ m' | CasDone _ m' => safe U m' end)); auto.
  - intros k m' S'. by eapply safe_polite; [apply Pl|].
  - intros m1 v v' m2 S1 _ E St. eapply safe_store; eauto.
Qed.

(** ** The queues *)

Lemma pi_at_aligned s H P K u : core s H P K -> pi_at s u -> futex_uaddr_is_aligned u = true.
Proof. intros C (b & w & Hb & W & _ & <-). by destruct (co_queued _ _ _ _ C b w Hb W) as (_ & _ & _ & _ & A & _). Qed.

Lemma pi_at_has s H P K u : core s H P K -> pi_at s u -> bucket_has_uaddr_locked s (futex_hash u) u = true.
Proof.
  intros C (b & w & Hb & W & _ & U). destruct (co_queued _ _ _ _ C b w Hb W) as (_ & _ & E & _). rewrite U in E.
  unfold bucket_has_uaddr_locked. apply existsb_exists. exists w. rewrite E, U. split; [by apply list_elem_of_In|apply Z.eqb_refl].
Qed.

Lemma pi_inv_quiet s s' : quiet s s' -> pi_inv s -> pi_inv s'.
Proof. intros Q. unfold pi_inv. rewrite (qt_mem _ _ Q). apply safe_mono, Q. Qed.

Lemma quiet_add s b d : quiet s (shim_globals_futex_waiters_add s b d).
Proof.
  destruct (add_fields s b d) as (Em & Eb & En & _). apply (quiet_intro s _ 0%nat); [by rewrite En|done|intros; apply node_add|by rewrite node_add|].
  intros c x _. unfold chain. by rewrite Eb.
Qed.

Lemma quiet_unlink s b w : shaped s -> bucket b -> quiet s (bucket_unlink_locked s b w).
Proof.
  intros Sh Hb. apply (quiet_intro s _ 0%nat); try done. intros c x Hc. unfold bucket_unlink_locked.
  rewrite chain_set_chain by done. case_decide; [|done]. subst c. intros X _. revert X. generalize (chain s b). intros l.
  induction l as [|y l IH]; cbn; [done|]. destruct (y =? w)%nat; rewrite !elem_of_cons; tauto.
Qed.

(** A new node is the only one that can add an address. *)
Lemma enqueue_pi_at s H P K x w s' : core s H P K -> enqueue s x (futex_hash (w_uaddr x)) = (w, s') ->
  forall u, pi_at s' u -> pi_at s u \/ w_pub_follows x = false /\ u = w_uaddr x.
Proof.
  intros C E u (b & y & Hb & Y & F & U). destruct (enqueue_node _ _ _ _ _ E) as (_ & N & Ew & _ & Nx & _). injection E as _ Es.
  rewrite <- Es in Y. rewrite chain_set_chain in Y by (done || apply C || apply futex_hash_bucket).
  change (chain (set_nodes _ s) ?c) with (chain s c) in Y.
  assert (D : y = w \/ y ∈ chain s b) by (case_decide; [subst b; apply elem_of_cons in Y as [->|]; auto|auto]).
  destruct D as [->|D]; [right; rewrite N in F, U; auto|left]. exists b, y. rewrite <- Nx by (by eapply core_valid). auto.
Qed.

(** ** Critical sections *)

Lemma enqueue_pi_inv s H P K x w s' : core s H P K -> enqueue s x (futex_hash (w_uaddr x)) = (w, s') ->
  (w_pub_follows x = false -> forall v, word_load (q_mem s) (w_uaddr x) = Some v -> handoff v) -> pi_inv s -> pi_inv s'.
Proof.
  intros C E Hx I. destruct (enqueue_node _ _ _ _ _ E) as (_ & _ & _ & _ & _ & Em). unfold pi_inv. rewrite Em. intros u v X L.
  destruct (enqueue_pi_at _ _ _ _ _ _ _ C E u X) as [Y|[F ->]]; [by eapply I|auto].
Qed.

Lemma waitv_enqueue_pi_inv elts s g H P K ws rc s' : Forall (fun e => futex_uaddr_is_aligned (v_uaddr e) = true) elts ->
  core s H (map (fun e => futex_hash (v_uaddr e)) elts ++ P) K -> waitv_enqueue s g elts = (ws, rc, s') -> pi_inv s -> pi_inv s'.
Proof.
  revert s H K ws. induction elts as [|e elts IH]; intros s H K ws Al C; cbn [waitv_enqueue]; [by intros [= <- <- <-]|].
  inversion_clear Al as [|? ? A1 A2]. destruct (negb _); [by intros [= <- <- <-]|].
  destruct (enqueue _ _ _) as [w s1] eqn:Eq. destruct (waitv_enqueue s1 g elts) as [[ws1 rc1] s2] eqn:R. intros [= <- <- <-] I.
  eapply IH; [done| |exact R|eapply enqueue_pi_inv; [exact C|exact Eq|done|done]]. eapply core_enqueue; [..|exact Eq|exact C]; done.
Qed.

(** The loop that marks the word: an owned word ends up marked. *)
Lemma mark_loop_safe s H P K u env fuel m r : futex_uaddr_is_aligned u = true -> core s H P K -> plays polite (fun x => x = u \/ pi_at s x) env ->
  safe (pi_at s) m ->
  cas_loop fuel env m u (fun cur => if futex_pi_unowned cur || futex_pi_has_waiters cur then None else Some (futex_pi_set_waiters cur)) = Some r ->
  match r with
  | CasFault m' => safe (pi_at s) m'
  | CasStop v m' | CasDone v m' => safe (pi_at s) m' /\ (futex_pi_unowned v = false -> safe (fun x => x = u \/ pi_at s x) m')
  end.
Proof.
  intros Al C Pl I. set (U := fun x => x = u \/ pi_at s x) in *.
  assert (Au : forall x, pi_at s x -> futex_uaddr_is_aligned x = true) by (intros; by eapply pi_at_aligned).
  apply (cas_loop_rule (safe (pi_at s)) (fun r => match r with CasFault m => safe (pi_at s) m
      | CasStop v m | CasDone v m => safe (pi_at s) m /\ (futex_pi_unowned v = false -> safe U m) end)); auto.
  - intros k m' S. eapply safe_polite; [|exact S]. intros x v Y. apply (Pl k m'). by right.
  - intros m1 v S L Ed. split; [done|]. intros Uo. rewrite Uo in Ed. cbn in Ed. destruct (futex_pi_has_waiters v) eqn:W; [|done].
    intros x y [->|Y] Ly; [|by eapply S]. rewrite L in Ly. injection Ly as <-. by apply handoff_waiters.
  - intros m1 v v' m' S L Ed St. assert (v' = futex_pi_set_waiters v) as -> by (destruct (_ || _) in Ed; [done|by injection Ed]).
    assert (S' : safe (pi_at s) m') by (eapply safe_store; [done|exact Al|exact St|intros; apply set_waiters_handoff|done]).
    split; [done|]. intros _ x y [->|Y] Ly; [|by eapply S']. rewrite (load_store _ _ _ _ Al St) in Ly. injection Ly as <-. apply set_waiters_handoff.
Qed.

Lemma pi_contend_inv fuel env s u tid H P K n s' : futex_uaddr_is_aligned u = true -> core s H (futex_hash u :: P) K ->
  plays polite (fun x => x = u \/ pi_at s x) env -> pi_contend fuel env s u tid = Some (n, s') -> pi_inv s -> pi_inv s'.
Proof.
  intros Al C Pl E I. unfold pi_contend in E. destruct (cas_loop _ _ _ _ _) as [r|] eqn:R; [|done]. cbn [mbind option_bind] in E.
  apply (mark_loop_safe s _ _ _ _ _ _ _ _ Al C Pl I) in R.
  assert (G : forall v m, safe (pi_at s) m /\ (futex_pi_unowned v = false -> safe (fun x => x = u \/ pi_at s x) m) ->
    pi_inv (set_mem (env fuel m) s) /\ (futex_pi_unowned v = false -> safe (fun x => x = u \/ pi_at s x) (env fuel m))).
  { intros v m [S1 S2]. split; [|intros Uo; eapply safe_polite; [apply Pl|auto]].
    eapply safe_polite; [|exact S1]. intros x y Y. apply (Pl fuel m). by right. }
  destruct r as [m|v m|v m]; [injection E as _ <-; exact R|..].
  all: destruct (G v m R) as [I1 I2]; set (s1 := set_mem (env fuel m) s) in *; pose proof (core_mem _ _ _ _ (env fuel m) C) as C1; fold s1 in C1.
  all: destruct (futex_pi_unowned v) eqn:Uo.
  all: try (destruct (v =? 0); [by injection E as _ <-|]; destruct (futex_word_cas _ _ _ _) as [[[y []] m']|] eqn:Cs; injection E as _ <-; [|done|done];
    eapply safe_cas; [intros x; apply (pi_at_aligned _ _ _ _ _ C1)|exact Al|exact Cs| |exact I1];
    intros Y _; rewrite (pi_at_has s1 _ _ _ u C1 Y); apply set_waiters_handoff).
  all: destruct (enqueue _ _ _) as [w s2] eqn:Eq; injection E as _ <-; (eapply enqueue_pi_inv; [exact C1|exact Eq| |exact I1]);
    intros _ y Ly; (eapply (I2 eq_refl u y); [by left|exact Ly]).
Qed.

Lemma pi_exit_inv fuel env s w u rc H P K n s' : core s (w :: H) P (w :: K) -> w_uaddr (node s w) = u -> futex_uaddr_is_aligned u = true ->
  plays polite (pi_at s) env -> pi_exit fuel env s w u rc = Some (n, s') -> pi_inv s -> pi_inv s'.
Proof.
  intros C U Al Pl E I. unfold pi_exit in E. set (s1 := bucket_unlink_locked s (futex_hash u) w) in *.
  pose proof (quiet_unlink s (futex_hash u) w (co_shaped _ _ _ _ C) (futex_hash_bucket u)) as Q. fold s1 in Q.
  pose proof (pi_inv_quiet _ _ Q I) as I1.
  assert (C1 : core s1 (w :: H) P K).
  { apply core_unpark; [apply futex_hash_bucket| |done]. intros Uw. rewrite <- U. eapply co_linked; [exact C|by left|done]. }
  destruct ((rc =? _) && negb _) eqn:B; cbn [mbind option_bind] in E; [|by injection E as _ <-].
  apply andb_prop in B as [_ B%negb_true_iff].
  unfold futex_clear_waiters_bit in E. destruct (cas_loop _ _ _ _ _) as [r|] eqn:R; [|done]. cbn [mbind option_bind] in E. injection E as _ <-.
  apply (safe_cas_loop (pi_at s1)) in R; [by destruct r|intros x; apply (pi_at_aligned _ _ _ _ _ C1)|done| | |exact I1].
  - intros k m x y Y. apply Pl. by apply Q.
  - intros v v' _ Y. by rewrite (pi_at_has _ _ _ _ _ C1 Y) in B.
Qed.

Lemma unlock_release_inv fuel env s u H P K rc s' : core s H P K -> futex_uaddr_is_aligned u = true -> plays polite (pi_at s) env ->
  unlock_release fuel env s u = Some (rc, s') -> pi_inv s -> pi_inv s'.
Proof.
  intros C Al Pl E I. unfold unlock_release in E. destruct (core_wake_first s H P K u C) as [C1 Q].
  set (s1 := futex_wake_first_locked _ _ _) in *. pose proof (pi_inv_quiet _ _ Q I) as I1.
  destruct (cas_loop _ _ _ _ _) as [r|] eqn:R; [|done]. cbn [mbind option_bind] in E.
  apply (safe_cas_loop (pi_at s1)) in R; [by destruct r; injection E as _ <-|intros x; apply (pi_at_aligned _ _ _ _ _ C1)|done| | |exact I1].
  - intros k m x y Y. apply Pl. by apply Q.
  - intros v v' Ed Y. rewrite (pi_at_has _ _ _ _ _ C1 Y) in Ed. injection Ed as <-. by apply handoff_waiters.
Qed.

Lemma wait_exit_quiet s c ret H P K rc forbid pub s' : core s (c_node c :: H) P K -> follower s (c_node c) ->
  wait_exit s c ret = (rc, forbid, pub, s') -> quiet s s'.
Proof.
  intros C F. destruct (co_pub _ _ _ _ C (c_node c)) as [_ Ho]; [by left|]. unfold wait_exit.
  destruct (w_woken _); intros [= _ _ _ <-]; [done|]. apply quiet_unlink; [apply C|by apply Ho].
Qed.

Lemma acquire_pi_inv s H P K u tid v b m' : core s H P K -> futex_uaddr_is_aligned u = true ->
  futex_word_cas (q_mem s) u 0 tid = Some (v, b, m') -> pi_inv s -> pi_inv (set_mem m' s).
Proof.
  intros C Al E I. eapply safe_cas; [intros x; apply (pi_at_aligned _ _ _ _ _ C)|exact Al|exact E| |exact I]. intros _ [N _]. done.
Qed.

Lemma call_step_pi_inv s c s' cs H P K : call_ok s c -> core s (held c ++ H) (plain c ++ P) (parked c ++ K) ->
  call_step polite s c s' cs -> pi_inv s -> pi_inv s'.
Proof.
  intros O C St I. destruct St; try done; cbn in O; try (eapply pi_inv_quiet; [apply quiet_add|done]).
  - eapply enqueue_pi_inv; [exact C|exact H0|done|done].
  - eapply pi_inv_quiet; [|exact I]. eapply wait_exit_quiet; [exact C|apply O|exact H0].
  - unfold pi_try in H0. destruct (futex_word_cas _ _ _ _) as [[[v []] m]|] eqn:E; [injection H0 as _ <-; by eapply acquire_pi_inv| |by injection H0 as _ <-].
    destruct (futex_pi_owner_tid v =? tid) in H0; [by injection H0 as _ <-|]. destruct (_ && _) in H0; by injection H0 as _ <-.
  - eapply pi_contend_inv; [exact O|exact C|exact H0|exact H1|exact I].
  - destruct O as (Al & _ & U & _). eapply pi_exit_inv; [exact C|exact U|exact Al|exact H1|exact H2|exact I].
  - by eapply unlock_release_inv.
  - rewrite app_nil_r in O. eapply waitv_enqueue_pi_inv; [exact O|exact C|exact H0|exact I].
  - rewrite app_nil_r in O. eapply waitv_enqueue_pi_inv; [exact O|exact C|exact H0|exact I].
  - destruct O as (F & S & _). assert (W : w ∈ ws) by (eapply elem_of_submseteq; [|exact S]; by left).
    destruct (co_pub _ _ _ _ C w) as [_ Ho]; [cbn; apply elem_of_app; by left|].
    eapply pi_inv_quiet; [|exact I]. apply quiet_unlink; [apply C|]. apply Ho. by eapply list.Forall_forall in F.
  - destruct O as (Al & x & ->). eapply safe_write; [intros y; apply (pi_at_aligned _ _ _ _ _ C)|exact Al|exact H0|intros; apply owner_died_handoff|exact I].
  - destruct (core_wake_first _ _ _ _ gva C) as [_ Q]. by eapply pi_inv_quiet.
Qed.

Lemma whole_pi_inv s s' H P K : core s H P K -> whole polite s s' -> pi_inv s -> pi_inv s'.
Proof.
  intros C St I. destruct St as [u v b rc s' E|u a b u2 dc ex rc s' A B E|f e u v u2 v2 v3 rc s' A B E|u tid rc s' E|m A].
  - destruct (core_futex_wake _ _ _ _ _ _ _ _ _ C E). by eapply pi_inv_quiet.
  - destruct (core_futex_requeue _ _ _ _ _ _ _ _ _ _ _ _ A B C E). by eapply pi_inv_quiet.
  - destruct (futex_wake_op_core _ _ _ _ _ _ _ _ _ _ _ _ _ C E) as [C' Q]. eapply pi_inv_quiet; [exact Q|].
    eapply safe_polite; [exact B|exact I].
  - unfold futex_trylock_pi in E. destruct (futex_uaddr_is_aligned u) eqn:Al; cbn [negb] in E; [|by injection E as _ <-].
    destruct (negb _) in E; [by injection E as _ <-|].
    destruct (futex_word_cas _ _ _ _) as [[[? []] m]|] eqn:Cs; injection E as _ <-; [by eapply acquire_pi_inv|done|done].
  - eapply safe_polite; [exact A|exact I].
Qed.

Lemma step_pi_inv y y' : step polite y y' -> inv y -> pi_inv (fst y) -> pi_inv (fst y').
Proof.
  intros St. destruct St as [s c s' cs l l' E St|s s' c l St|s s' l St]; cbn [fst].
  - intros [C O]%(inv_perm _ _ _ E). cbn in C, O. inversion_clear O as [|? ? O1 O2]. by eapply call_step_pi_inv.
  - intros _ I. destruct St; try done; by eapply pi_inv_quiet; [apply quiet_add|].
  - intros [C O]. by eapply whole_pi_inv.
Qed.

Lemma reachable_pi_inv m y : reachable polite m y -> pi_inv (fst y).
Proof.
  assert (I0 : pi_inv (futex_init m)).
  { intros u v (b & w & _ & W & _). rewrite chain_init in W. by apply not_elem_of_nil in W. }
  intros R. pose proof (inv_init m) as I. unfold reachable in R. change (futex_init m) with (fst (futex_init m, @nil call)) in I0.
  revert I I0. induction R as [|y y1 y2 St _ IH]; [done|]. intros I I0. apply IH; [by eapply futex_step_inv|by eapply step_pi_inv].
Qed.
End Pi.
