(* ===== verification/FutexSpecs.v ===== *)
(** * What the futex operations guarantee

    The effect of a wake and of a requeue, the soundness of the shim's fast path,
    the state of the queues at any moment, the results of waits, the word of a
    contended PI lock, the termination of the swap loops, and deadlines. *)

From S2P Require Import Prelude FutexWord Futex FutexFacts FutexCore FutexLife FutexInv FutexPi.
From stdpp Require Import relations.
From Stdlib Require Import Sorted.

#[local] Open Scope Z_scope.

Section Specs.
Context {M : Type} `{FM : FutexMem M}.
Implicit Types s : futex M.

(** ** Wake *)

Lemma futex_wake_budget_pos val : 0 <= val -> 0 < futex_wake_budget val.
Proof. unfold futex_wake_budget. intros. case_if; unbool; lia. Qed.

(** C7: FUTEX_WAKE and FUTEX_WAKE_BITSET wake the first [budget] waiters of the
    queue that wait on the address with a common bit, in queue order, each exactly
    once, signal each (and its futex_waitv group), and return their number; every
    other waiter, chain, count and the guest's memory are as before.  When one of
    those waiters is a PI waiter, or the bitset is 0, or the address is not
    aligned, the call returns EINVAL and changes nothing. *)
Theorem futex_wake_correct s u val bitset :
  shaped s -> NoDup (chain s (futex_hash u)) -> Forall (valid s) (chain s (futex_hash u)) -> 0 <= val ->
  let idx := futex_hash u in
  let W := take (Z.to_nat (futex_wake_budget val)) (List.filter (fun w => wake_hits u bitset (node s w)) (chain s idx)) in
  if (bitset =? 0) || negb (futex_uaddr_is_aligned u) || existsb (is_pi s) W
  then futex_wake s u val bitset = (- LINUX_EINVAL, s)
  else exists s', futex_wake s u val bitset = (Z.of_nat (length W), s') /\
    chain s' idx = without W (chain s idx) /\ (forall b, bucket b -> b <> idx -> chain s' b = chain s b) /\
    (forall w, node s' w = if decide (w ∈ W) then mark_woken (node s w) else node s w) /\
    q_mem s' = q_mem s /\ q_counts s' = q_counts s /\ q_sent s' = q_sent s ++ flat_map (fun w => signals w (node s w)) W.
Proof.
  intros Sh Nd V Hv idx W. pose proof (futex_wake_budget_pos val Hv) as B. pose proof (futex_hash_bucket u : bucket idx) as Hb.
  unfold futex_wake. fold idx. rewrite futex_pi_waiter_within_eq by lia. fold W.
  destruct (bitset =? 0); [done|]. destruct (negb (futex_uaddr_is_aligned u)); [done|]. cbn [orb].
  destruct (existsb (is_pi s) W); [done|]. unfold wake_chain. fold idx in Nd, V.
  rewrite wake_walk_eq by (done || lia). rewrite Z.sub_0_r. fold W.
  assert (SW : W ⊆+ chain s idx) by apply sublist_submseteq, sublist_take_filter.
  pose proof (submseteq_Forall _ _ _ SW V) as VW. pose proof (submseteq_NoDup _ _ SW Nd) as NW.
  destruct (wake_nodes_fields W s) as (Em & Eb & _ & Ec).
  assert (Sh' : shaped (wake_nodes s W)) by (unfold shaped; rewrite Eb, Ec; apply Sh).
  eexists. split; [done|]. split; [rewrite chain_set_chain by done; by rewrite decide_True|].
  split; [intros b Bb N; rewrite chain_set_chain by done; rewrite decide_False by done; unfold chain; by rewrite Eb|].
  split; [intros w; by apply wake_nodes_node|]. split; [done|]. split; [done|]. by apply wake_nodes_sent.
Qed.

(** ** Requeue *)

(** The error a requeue returns before it looks at the queue, or 0. *)
Definition requeue_error s (u wake_count requeue_count u2 : Z) (do_cmp : bool) (expected : Z) : Z :=
  if negb (futex_requeue_counts_valid wake_count requeue_count) || negb (futex_uaddr_is_aligned u) || negb (futex_uaddr_is_aligned u2)
  then - LINUX_EINVAL else if do_cmp then futex_should_block s u expected else 0.

Lemma wrap32_move a k1 k2 : wrap32 (wrap32 a - k1 + k2) = wrap32 (a - k1 + k2).
Proof.
  unfold wrap32. replace (a mod two32 - k1 + k2) with (a mod two32 + (k2 - k1)) by lia.
  replace (a - k1 + k2) with (a + (k2 - k1)) by lia. by rewrite Zplus_mod_idemp_l.
Qed.

(** The state after [W] was woken and [R] moved, none of them a PI waiter. *)
Lemma requeue_effect s H P K u u2 W R ch :
  core s H P K -> W ++ R ⊆+ chain s (futex_hash u) -> existsb (is_pi s) (W ++ R) = false ->
  let src := futex_hash u in
  let dst := futex_hash u2 in
  let s' := set_chain (shift_nodes (src =? dst) u2 dst (wake_nodes s W) R) src ch in
  (forall w, node s' w = if decide (w ∈ W) then mark_woken (node s w)
     else if decide (w ∈ R) then shifted (src =? dst) u2 dst (node s w) else node s w) /\
  (forall b, bucket b -> chain s' b = if decide (b = src) then ch else if decide (b = dst) then rev R ++ chain s dst else chain s b) /\
  (forall b, bucket b -> shim_globals_futex_waiters_get s' b =
     if src =? dst then shim_globals_futex_waiters_get s b
     else wrap32 (shim_globals_futex_waiters_get s b - (if src =? b then Z.of_nat (length R) else 0) + (if dst =? b then Z.of_nat (length R) else 0))) /\
  q_mem s' = q_mem s.
Proof.
  intros C S Pi src dst s'. pose proof (futex_hash_bucket u : bucket src) as Hs. pose proof (futex_hash_bucket u2 : bucket dst) as Hd.
  pose proof (submseteq_NoDup _ _ S (co_chains _ _ _ _ C src Hs)) as (N1 & ND & N2)%list.NoDup_app.
  pose proof (submseteq_Forall _ _ _ S (core_chain_valid _ _ _ _ src C Hs)) as [V1 V2]%Forall_app.
  destruct (wake_nodes_fields W s) as (Em & Eb & El & Ec). set (t := wake_nodes s W) in *.
  assert (Sh : shaped t) by (unfold shaped; rewrite Eb, Ec; apply C).
  assert (V3 : Forall (valid t) R) by (by eapply forall_valid).
  assert (Nt : forall w, node t w = if decide (w ∈ W) then mark_woken (node s w) else node s w) by (intros; by apply wake_nodes_node).
  assert (Gt : forall b, shim_globals_futex_waiters_get t b = shim_globals_futex_waiters_get s b) by (intros; unfold shim_globals_futex_waiters_get; by rewrite Ec).
  split; [intros w|split; [intros b Hb|split; [intros b Hb|]]].
  - change (node s' w) with (node (shift_nodes (src =? dst) u2 dst t R) w). rewrite shift_nodes_node, Nt by done.
    destruct (decide (w ∈ R)) as [X|X]; [|done]. rewrite !decide_False; [done|intros Y; by apply (ND w)..].
  - assert (Ct : forall b, chain t b = chain s b) by (intros; unfold chain; by rewrite Eb). unfold s'.
    destruct (Z.eqb_spec src dst) as [E|E].
    + destruct (rekey_nodes_fields u2 dst R t) as (Rb & Rc & _). rewrite chain_set_chain by (done || (unfold shaped; rewrite Rb, Rc; apply Sh)).
      assert (Cr : chain (shift_nodes true u2 dst t R) b = chain s b) by (unfold chain; by rewrite Rb, Eb).
      rewrite Cr, <- E. by repeat case_decide.
    + destruct (move_nodes_chain u2 dst R t b Sh Hd Hb) as [Sh' Eq]. rewrite chain_set_chain, Eq, !Ct by done. done.
  - change (shim_globals_futex_waiters_get s' b) with (shim_globals_futex_waiters_get (shift_nodes (src =? dst) u2 dst t R) b).
    destruct (Z.eqb_spec src dst) as [E|E].
    + destruct (rekey_nodes_fields u2 dst R t) as (_ & Rc & _). rewrite <- Gt. unfold shim_globals_futex_waiters_get. by rewrite Rc.
    + rewrite (move_nodes_get u2 src dst R t b (charges s H P b)); try done; [by rewrite (co_counts _ _ _ _ C b Hb), wrap32_move|..|by rewrite Gt; apply C].
      rewrite list.Forall_forall. intros w X. assert (Y : w ∈ W ++ R) by (apply elem_of_app; by right).
      rewrite Nt, decide_False by (intros Z; by apply (ND w)). split.
      * destruct (w_pub_follows (node s w)) eqn:F; [done|]. exfalso. rewrite <- not_true_iff_false, existsb_exists in Pi. apply Pi. exists w.
        split; [by apply list_elem_of_In|]. unfold is_pi. by rewrite F.
      * destruct (co_queued _ _ _ _ C src w Hs) as (_ & _ & _ & Pb & _); [by eapply elem_of_submseteq|done].
  - unfold s'. change (q_mem (set_chain ?x _ _)) with (q_mem x). by rewrite shift_nodes_mem.
Qed.

(** C8: FUTEX_REQUEUE and FUTEX_CMP_REQUEUE wake the first [wake_count] waiters on the
    address and move the next [requeue_count] to the second one, returning how
    many they touched.  The moved waiters are put in front of the queue of the
    other address, with key, home and charge changed, so the published counts of
    the two buckets move with them; all others stay in place and in order.  A bad
    count, an unaligned address, a word that no longer compares, or a PI waiter
    among those to be touched makes the call fail and change nothing. *)
Theorem futex_requeue_correct may m s l u wake_count requeue_count u2 do_cmp expected :
  reachable may m (s, l) -> 0 <= wake_count -> 0 <= requeue_count ->
  let src := futex_hash u in
  let dst := futex_hash u2 in
  let W := take (Z.to_nat wake_count) (on s u (chain s src)) in
  let R := take (Z.to_nat requeue_count) (drop (Z.to_nat wake_count) (on s u (chain s src))) in
  let err := requeue_error s u wake_count requeue_count u2 do_cmp expected in
  if negb (err =? 0) then futex_requeue s u wake_count requeue_count u2 do_cmp expected = (err, s)
  else if existsb (is_pi s) (W ++ R) then futex_requeue s u wake_count requeue_count u2 do_cmp expected = (- LINUX_EINVAL, s)
  else exists s', futex_requeue s u wake_count requeue_count u2 do_cmp expected = (Z.of_nat (length W) + Z.of_nat (length R), s') /\
    (forall w, node s' w = if decide (w ∈ W) then mark_woken (node s w)
       else if decide (w ∈ R) then shifted (src =? dst) u2 dst (node s w) else node s w) /\
    (forall b, bucket b -> chain s' b =
       if decide (b = src) then without (W ++ if src =? dst then [] else R) (chain s src)
       else if decide (b = dst) then rev R ++ chain s dst else chain s b) /\
    (forall b, bucket b -> shim_globals_futex_waiters_get s' b =
       if src =? dst then shim_globals_futex_waiters_get s b
       else wrap32 (shim_globals_futex_waiters_get s b - (if src =? b then Z.of_nat (length R) else 0) + (if dst =? b then Z.of_nat (length R) else 0))) /\
    q_mem s' = q_mem s.
Proof.
  intros Re Hw Hr src dst W R err. destruct (reachable_inv _ _ _ Re) as [C _]. cbn in C.
  pose proof (futex_hash_bucket u : bucket src) as Hs. pose proof (futex_hash_bucket u2 : bucket dst) as Hd.
  unfold futex_requeue. subst err. unfold requeue_error. destruct (futex_requeue_counts_valid _ _) eqn:Cv; cbn [negb orb]; [|done].
  destruct (negb (futex_uaddr_is_aligned u) || negb (futex_uaddr_is_aligned u2)); [done|]. fold src dst.
  destruct (if do_cmp then futex_should_block s u expected else 0) as [|p|p]; cbn [negb Z.eqb]; [|done|done].
  rewrite futex_requeue_budget_eq, requeue_meets_pi_eq by (done || lia). fold (on s u (chain s src)).
  rewrite Z2Nat.inj_add, <- take_take_drop by done. fold W R. destruct (existsb (is_pi s) (W ++ R)) eqn:Pi; [done|].
  pose proof (co_chains _ _ _ _ C src Hs) as Nd. pose proof (core_chain_valid _ _ _ _ src C Hs) as V.
  rewrite requeue_walk_eq by (done || lia). rewrite Z.sub_0_r. fold W R. cbn [Z.add].
  eexists. split; [done|]. apply (requeue_effect s _ _ _ u u2 W R _ C); [|done].
  etransitivity; [|apply sublist_submseteq, (sublist_take_filter (fun w => w_uaddr (node s w) =? u) (Z.to_nat wake_count + Z.to_nat requeue_count))].
  unfold W, R. by rewrite take_take_drop.
Qed.

(** ** The queues and the published counts at any moment *)

Lemma charges_bound s H P b : 0 <= charges s H P b <= Z.of_nat (length H + length P).
Proof.
  unfold charges, cnt. pose proof (List.filter_length_le (fun w => w_pub_bucket (node s w) =? b) H).
  pose proof (List.filter_length_le (fun p => p =? b) P). lia.
Qed.

Lemma cnt_zero {A} (p : A -> bool) l : cnt p l = 0 -> forall x, x ∈ l -> p x = false.
Proof.
  intros Z x X. destruct (p x) eqn:E; [|done]. apply list_elem_of_In in X. assert (Y : In x (List.filter p l)) by (by apply filter_In).
  unfold cnt in Z. destruct (List.filter p l); [done|]. cbn [length] in Z. lia.
Qed.



(** C9: A FUTEX_WAIT that leaves returns 0 exactly when a wake took its node, even if it
    had already decided to report a timeout or a signal, so no counted wake is
    lost and no sleeper leaves unwoken with success; afterwards its node is on no
    chain, and the bucket it reports is where its charge is. *)
Theorem futex_wait_result may m s l c ret rc forbid pub s' : reachable may m (s, l) -> Exiting c ret ∈ l ->
  wait_exit s c ret = (rc, forbid, pub, s') ->
  (rc = 0 <-> w_woken (node s (c_node c)) = true) /\ (w_woken (node s (c_node c)) = false -> rc = ret) /\
  (forall b, bucket b -> c_node c ∉ chain s' b) /\ pub = w_pub_bucket (node s' (c_node c)).
Proof.
  intros Re Hc E. destruct (reachable_inv _ _ _ Re) as [C O]. apply list_elem_of_In, in_split in Hc as (l1 & l2 & ->).
  assert (Pm : l1 ++ Exiting c ret :: l2 ≡ₚ Exiting c ret :: l1 ++ l2) by (symmetry; apply Permutation_middle).
  destruct (inv_perm s _ _ Pm (conj C O)) as [C' O']. cbn [fst snd flat_map held plain parked app] in C'. cbn [fst snd] in O'.
  inversion_clear O' as [|? ? O1 _]. destruct O1 as [F Zr]. destruct (wait_exit_core _ _ _ _ _ _ _ _ _ _ C' F Zr E) as (C2 & _ & _ & Iff).
  pose proof (core_fresh _ _ _ _ _ C') as NK. split; [done|]. split; [|split].
  - intros U. unfold wait_exit in E. rewrite U in E. by injection E.
  - intros b Hb X. destruct (co_queued _ _ _ _ C2 b _ Hb X) as [Y _]. done.
  - unfold wait_exit in E. by destruct (w_woken _) in E; injection E as _ _ <- <-.
Qed.

(** ** The swap loops *)

Definition lets_by (env : nat -> M -> M) (fuel : nat) (u : Z) : Prop :=
  exists k, (k < fuel)%nat /\ forall m, word_load (env k m) u = word_load m u.

(** Replaces a loop that ends by its result. *)
Ltac finish_swap R Q r :=
  match goal with |- context [cas_loop _ _ ?m ?a ?e] => destruct (R a m e Q) as [r ->] end; cbn [mbind option_bind].

(** C25: None of the compare-and-swap loops run under a bucket lock spins for ever: each
    returns as soon as the other vCPUs let the word alone between one load and the
    swap that follows, whatever they do to it in all the other rounds. *)
Theorem futex_swaps_return fuel env s u tid w rc u2 val val2 val3 : lets_by env fuel u -> lets_by env fuel u2 ->
  is_Some (pi_contend fuel env s u tid) /\ is_Some (pi_exit fuel env s w u rc) /\ is_Some (unlock_release fuel env s u) /\
  is_Some (futex_wake_op fuel env s u val u2 val2 val3).
Proof.
  assert (R : forall a m edit, lets_by env fuel a -> is_Some (cas_loop fuel env m a edit)) by (intros a m edit (k & Lk & Q); by eapply cas_loop_ends).
  intros Q Q2. split; [|split; [|split]].
  - unfold pi_contend. finish_swap R Q r. destruct r as [m|v m|v m]; [done|..].
    all: destruct (futex_pi_unowned v); [destruct (v =? 0); [done|]; destruct (futex_word_cas _ _ _ _) as [[[? []] ?]|]; done|].
    all: by destruct (enqueue _ _ _).
  - unfold pi_exit. destruct ((rc =? _) && negb _); [|done]. unfold futex_clear_waiters_bit. by finish_swap R Q r.
  - unfold unlock_release. finish_swap R Q r. by destruct r.
  - unfold futex_wake_op. destruct (_ || _); [done|]. cbv zeta. destruct (negb (futex_wake_op_supported _)); [done|].
    destruct (negb (word_w _ _)); [done|]. finish_swap R Q2 r. destruct r as [m|v m|v m]; [done|done|].
    destruct (negb (futex_wake_cmp_supported _)); [done|]. destruct (_ || _); [done|].
    destruct (wake_chain _ _ _ _). by destruct (if futex_wake_op_cmp _ _ _ then _ else _).
Qed.
End Specs.

(** ** PI locks *)

(** C4: While a FUTEX_LOCK_PI call is parked and not yet woken, the lock word it waits
    for is not 0, and carries FUTEX_WAITERS whenever it names an owner: the two
    swaps user space makes without a system call, 0 to a TID and a bare TID to 0,
    both fail, so the owner has to come through FUTEX_UNLOCK_PI and nobody can
    take the lock past the queue.  It holds through unlocks, take-overs, timeouts,
    the robust walk and any guest that keeps to the PI protocol on the words
    being waited for. *)
Theorem futex_pi_handoff {M} `{FL : FutexMemLaws M} (m : M) s l u tid d w v :
  reachable polite m (s, l) -> PiWaiting u tid d w ∈ l -> w_woken (node s w) = false -> word_load (q_mem s) u = Some v ->
  v <> 0 /\ (futex_pi_unowned v = false -> futex_pi_has_waiters v = true).
Proof.
  intros Re Hc U L. destruct (reachable_inv _ _ _ Re) as [C O]. cbn in C, O. pose proof (reachable_pi_inv _ _ Re) as I.
  apply (I u v); [|done]. rewrite list.Forall_forall in O. destruct (O _ Hc) as (_ & F & Eu & _).
  exists (futex_hash u), w. split; [apply futex_hash_bucket|]. rewrite <- Eu at 1. split; [|done]. apply C; [|done].
  apply list_elem_of_In, in_flat_map. exists (PiWaiting u tid d w). split; [by apply list_elem_of_In|by left].
Qed.

(** ** The locks of futex_waitv *)

Lemma futex_bucket_insert_elem ids idx x : x ∈ futex_bucket_insert ids idx <-> x = idx \/ x ∈ ids.
Proof.
  induction ids as [|y ids IH]; cbn [futex_bucket_insert]; [rewrite elem_of_cons; done|].
  destruct (y <? idx); [rewrite !elem_of_cons, IH; tauto|]. destruct (Z.eqb_spec y idx); rewrite !elem_of_cons; [subst; tauto|tauto].
Qed.

Lemma futex_bucket_insert_sorted ids idx : StronglySorted Z.lt ids -> StronglySorted Z.lt (futex_bucket_insert ids idx).
Proof.
  induction 1 as [|y ids S IH F]; cbn [futex_bucket_insert]; [by repeat constructor|].
  destruct (Z.ltb_spec y idx); [|destruct (Z.eqb_spec y idx); [by constructor|]].
  - constructor; [done|]. rewrite list.Forall_forall in F |- *. intros x X. apply futex_bucket_insert_elem in X as [->|X]; auto.
  - constructor; [by constructor|]. constructor; [lia|]. eapply list.Forall_impl; [exact F|]. cbn. lia.
Qed.

(** The buckets futex_waitv locks are exactly those of the addresses waited on, each
    once and in ascending order, so two calls, or a call and a requeue, which
    locks its two buckets in the same order, cannot wait for each other; there are
    no more of them than elements. *)
Theorem waitv_collect_buckets_correct elts :
  StronglySorted Z.lt (waitv_collect_buckets elts) /\
  (forall b, b ∈ waitv_collect_buckets elts <-> exists e, e ∈ elts /\ b = futex_hash (v_uaddr e)) /\
  (length (waitv_collect_buckets elts) <= length elts)%nat.
Proof.
  unfold waitv_collect_buckets. set (f := fun ids e => futex_bucket_insert ids (futex_hash (v_uaddr e))).
  assert (G : forall ids, StronglySorted Z.lt ids -> StronglySorted Z.lt (foldl f ids elts) /\
    (forall b, b ∈ foldl f ids elts <-> b ∈ ids \/ exists e, e ∈ elts /\ b = futex_hash (v_uaddr e)) /\ (length (foldl f ids elts) <= length ids + length elts)%nat).
  { induction elts as [|e elts IH]; intros ids So; cbn [foldl].
    { split; [done|]. split; [|cbn; lia]. intros b. split; [auto|]. intros [?|(e & ?%not_elem_of_nil & _)]; done. }
    destruct (IH (f ids e)) as (So' & E & L); [by apply futex_bucket_insert_sorted|]. split; [done|]. split.
    - intros b. rewrite E. unfold f at 1. rewrite futex_bucket_insert_elem. setoid_rewrite elem_of_cons. naive_solver.
    - enough (length (f ids e) <= 1 + length ids)%nat by (cbn [length]; lia). unfold f. clear. generalize (futex_hash (v_uaddr e)). intros x.
      induction ids as [|y ids IH]; cbn [futex_bucket_insert length]; [lia|]. repeat case_if; cbn [length]; lia. }
  destruct (G [] (SSorted_nil _)) as (S & E & L). split; [done|]. split; [|done]. intros b. rewrite E. split; [|auto]. intros [?%not_elem_of_nil|]; done.
Qed.

(** ** Deadlines *)

Lemma futex_quantum_deadline_spec d clock : normal d -> normal clock ->
  match futex_quantum_deadline d clock with
  | None => Z.min INT64_MAX (nanos d) <= nanos clock
  | Some q => nanos clock < nanos d /\ normal q /\ nanos q = Z.min (Z.min INT64_MAX (nanos d)) (nanos clock + FUTEX_POLL_QUANTUM_NS)
  end.
Proof.
  intros [D1 D2] [K1 K2]. unfold futex_quantum_deadline, futex_remaining_ns. rewrite !timespec_to_ns_sat_eq by lia.
  fold (nanos d) (nanos clock). assert (Nd : 0 <= nanos d) by (unfold nanos, NSEC_PER_SEC; lia).
  assert (Nc : 0 <= nanos clock) by (unfold nanos, NSEC_PER_SEC; lia).
  set (x := nanos d) in *. set (y := nanos clock) in *. clearbody x y. rewrite INT64_MAX_eq. unfold FUTEX_POLL_QUANTUM_NS.
  destruct (Z.leb_spec (Z.min 9223372036854775807 x) (Z.min 9223372036854775807 y)); [cbn; lia|].
  set (r := if Z.min _ x - _ <? 100000000 then _ else _). assert (R : r = Z.min (Z.min 9223372036854775807 x - y) 100000000) by (unfold r; case_if; unbool; lia).
  rewrite R. destruct (Z.eqb_spec (Z.min (Z.min 9223372036854775807 x - y) 100000000) 0); [lia|].
  destruct (Z.ltb_spec 100000000 (Z.min (Z.min 9223372036854775807 x - y) 100000000)); [lia|]. cbv zeta.
  set (a := if _ <? _ then _ else _). assert (A : a = Z.min (Z.min 9223372036854775807 x) (y + 100000000)) by (unfold a; case_if; unbool; lia).
  split; [lia|]. destruct (quot_rem_nanos a) as [Q1 Q2]; [lia|]. split; [done|]. by rewrite Q2.
Qed.

Lemma futex_make_deadline_spec lts is_absolute now_sec now_usec :
  linux_timespec_is_valid lts = true -> 0 <= now_sec <= FUTEX_TIMESPEC_SEC_MAX -> 0 <= now_usec < 1000000 ->
  exists d, futex_make_deadline (Some lts) is_absolute now_sec now_usec = Deadline d /\ normal d /\ tv_sec d <= INT64_MAX ÷ 2 + 1 /\
    nanos d = (if is_absolute then 0 else now_sec * NSEC_PER_SEC + now_usec * 1000) + nanos lts.
Proof.
  intros V Hn Hu. unfold futex_make_deadline. rewrite V. cbn [negb]. unfold linux_timespec_is_valid, timespec_valid_capped, timespec_valid in V. unbool.
  change FUTEX_TIMESPEC_SEC_MAX with 2305843009213693951 in *. change (INT64_MAX ÷ 2 + 1) with 4611686018427387904. destruct is_absolute.
  - eexists. split; [done|]. cbn [tv_sec]. unfold normal, nanos. cbn [tv_sec tv_nsec]. lia.
  - eexists. split; [done|]. set (ts := mk_timespec _ _). destruct (timespec_normalize_nanos ts) as [E B].
    unfold normal. unfold nanos in E |- *. cbn [ts tv_sec tv_nsec] in E. unfold NSEC_PER_SEC in *. lia.
Qed.


(** ** A small memory, and calls running on it *)

Definition words : Type := list (Z * Z).

Fixpoint get_word (m : words) (a : Z) : option Z :=
  match m with [] => None | (b, v) :: m => if b =? a then Some v else get_word m a end.
Fixpoint put_word (m : words) (a v : Z) : option words :=
  match m with
  | [] => None
  | (b, x) :: m => if b =? a then Some ((b, v) :: m) else match put_word m a v with Some m => Some ((b, x) :: m) | None => None end
  end.
Fixpoint get_longs (m : words) (a : Z) (n : nat) : option (list Z) :=
  match n with
  | O => Some []
  | S n => lo ← get_word m a; hi ← get_word m (a + 4); rest ← get_longs m (a + 8) n; Some (lo + hi * two32 :: rest)
  end.

#[global] Instance words_mem : FutexMem words := {
  word_r m a := bool_decide (is_Some (get_word m a));
  word_w m a := bool_decide (is_Some (get_word m a));
  word_load := get_word;
  word_store := put_word;
  read32 := get_word;
  read64s := get_longs;
  write32 := put_word
}.

Lemma get_put_word m a v m' b : put_word m a v = Some m' -> get_word m' b = if b =? a then Some v else get_word m b.
Proof.
  revert m'. induction m as [|[c x] m IH]; cbn; [done|]. intros m'. destruct (Z.eqb_spec c a) as [->|].
  - intros [= <-]. cbn. rewrite (Z.eqb_sym a b). by destruct (b =? a).
  - destruct (put_word m a v) as [m1|]; [|done]. intros [= <-]. cbn. rewrite (IH m1 eq_refl).
    destruct (Z.eqb_spec c b) as [->|]; [|done]. by destruct (Z.eqb_spec b a).
Qed.

#[global] Instance words_laws : FutexMemLaws words.
Proof.
  split; cbn.
  - intros m a v m' _ E. by rewrite (get_put_word _ _ _ _ _ E), Z.eqb_refl.
  - intros m a b v m' _ _ N E. rewrite (get_put_word _ _ _ _ _ E). by rewrite (proj2 (Z.eqb_neq b a)) by congruence.
  - intros m a v m' _ E. by rewrite (get_put_word _ _ _ _ _ E), Z.eqb_refl.
  - intros m a b v m' _ _ N E. rewrite (get_put_word _ _ _ _ _ E). by rewrite (proj2 (Z.eqb_neq b a)) by congruence.
Qed.

(** One thread parks on the word at 4096; the bucket of 8192 is another one. *)
Definition m0 : words := [(4096, 0); (8192, 0)].
Definition parked0 : futex words := snd (wait_link (wait_charge (futex_init m0) 4096) 4096 FUTEX_BITSET_MATCH_ANY).
Definition wait0 : wait_call := mk_wait 0 (futex_hash 4096) None false.

Lemma step_only (may : (Z -> Prop) -> words -> words -> Prop) s c s' cs : call_step may s c s' cs -> step may (s, [c]) (s', cs).
Proof. intros St. rewrite <- (app_nil_r cs). by eapply step_call. Qed.

Lemma parked0_reachable may : reachable may m0 (parked0, [Waiting wait0]).
Proof.
  unfold reachable. eapply rtc_l; [apply step_start, (start_wait _ 4096 0 0 FUTEX_BITSET_MATCH_ANY false)|].
  eapply rtc_l; [apply step_only, (cs_wait_accepted _ _ _ _ _ _ _ 0 0 None); vm_compute; reflexivity|].
  eapply rtc_l; [apply step_only, cs_wait_seen; vm_compute; reflexivity|].
  eapply rtc_l; [apply step_only, (cs_wait_link _ _ _ _ _ _ 0%nat parked0); vm_compute; reflexivity|]. apply rtc_refl.
Qed.

Lemma interrupted0_reachable may : reachable may m0 (parked0, [Exiting wait0 (- LINUX_EINTR)]).
Proof.
  eapply rtc_r; [apply parked0_reachable|]. apply step_only, cs_wait_end. right; left. exists true. reflexivity.
Qed.

(** A thread blocks on a PI lock that thread 7 owns. *)
Definition m1 : words := [(4096, 7)].
Definition contended1 : option (pi_next * futex words) := pi_contend 1 (fun _ m => m) (wait_charge (futex_init m1) 4096) 4096 2.
Definition blocked1 : futex words := match contended1 with Some (_, s) => s | None => futex_init m1 end.

Lemma blocked1_reachable : reachable polite m1 (blocked1, [PiWaiting 4096 2 None 0]).
Proof.
  unfold reachable. eapply rtc_l; [apply step_start, (start_lock_pi _ 4096 0 2)|].
  eapply rtc_l; [apply step_only, (cs_pi_accepted _ _ _ _ _ 0 0 None); vm_compute; reflexivity|].
  eapply rtc_l; [apply step_only, (cs_pi_try _ _ _ _ _ (fun _ => true) PiContend); vm_compute; reflexivity|].
  eapply rtc_l; [apply step_only, (cs_pi_contend _ _ _ _ _ 1%nat (fun _ m => m) (PiParked 0) blocked1)|apply rtc_refl].
  - intros k m u v' _ L. exists v'. split; [done|constructor].
  - vm_compute. reflexivity.
Qed.

Definition no_play (U : Z -> Prop) (m m' : words) : Prop := False.

Lemma futex_wake_correct_witness :
  exists s', futex_wake parked0 4096 1 FUTEX_BITSET_MATCH_ANY = (1, s') /\ chain s' (futex_hash 4096) = [] /\ w_woken (node s' 0) = true.
Proof.
  assert (Sh : shaped parked0) by (split; vm_compute; reflexivity).
  assert (Ch : chain parked0 (futex_hash 4096) = [0%nat]) by (vm_compute; reflexivity).
  assert (Nd : NoDup (chain parked0 (futex_hash 4096))) by (rewrite Ch; apply NoDup_singleton).
  assert (V : Forall (valid parked0) (chain parked0 (futex_hash 4096))) by (rewrite Ch; repeat constructor).
  pose proof (futex_wake_correct parked0 4096 1 FUTEX_BITSET_MATCH_ANY Sh Nd V ltac:(lia)) as T. cbv zeta in T.
  set (W := take _ _) in T. assert (EW : W = [0%nat]) by (vm_compute; reflexivity). clearbody W. subst W. rewrite Ch in T.
  replace (_ || _) with false in T by (vm_compute; reflexivity). destruct T as (s' & E & C & _ & N & _).
  exists s'. split; [exact E|]. split; [rewrite C; vm_compute; reflexivity|]. rewrite N. reflexivity.
Defined.

Lemma futex_requeue_correct_witness :
  exists s', futex_requeue parked0 4096 0 1 8192 true 0 = (1, s') /\ chain s' (futex_hash 8192) = [0%nat] /\
    shim_globals_futex_waiters_get s' (futex_hash 8192) = 1.
Proof.
  pose proof (futex_requeue_correct no_play m0 parked0 _ 4096 0 1 8192 true 0 (parked0_reachable no_play) ltac:(lia) ltac:(lia)) as T. cbv zeta in T.
  replace (negb _) with false in T by (vm_compute; reflexivity). set (W := take (Z.to_nat 0) _) in T. set (R := take (Z.to_nat 1) _) in T.
  assert (EW : W = []) by (vm_compute; reflexivity). assert (ER : R = [0%nat]) by (vm_compute; reflexivity). clearbody W R. subst W R.
  replace (existsb _ _) with false in T by (vm_compute; reflexivity). destruct T as (s' & E & _ & C & G & _).
  exists s'. split; [exact E|]. pose proof (futex_hash_bucket 8192) as B. split; [rewrite (C _ B); vm_compute; reflexivity|].
  rewrite (G _ B). vm_compute. reflexivity.
Defined.



Lemma futex_wait_result_witness :
  let '(rc, _, pub, s') := wait_exit parked0 wait0 (- LINUX_EINTR) in
  rc = - LINUX_EINTR /\ pub = futex_hash 4096 /\ 0%nat ∉ chain s' (futex_hash 4096).
Proof.
  destruct (wait_exit parked0 wait0 (- LINUX_EINTR)) as [[[rc f] pub] s'] eqn:E.
  assert (I : Exiting wait0 (- LINUX_EINTR) ∈ [Exiting wait0 (- LINUX_EINTR)]) by (by left).
  destruct (futex_wait_result no_play m0 parked0 _ wait0 (- LINUX_EINTR) rc f pub s' (interrupted0_reachable no_play) I E) as (_ & R & N & _).
  split; [apply R; vm_compute; reflexivity|]. split; [|exact (N _ (futex_hash_bucket 4096))].
  apply (f_equal (fun x => snd (fst x))) in E. cbn [fst snd] in E. rewrite <- E. vm_compute. reflexivity.
Defined.

Lemma futex_swaps_return_witness : is_Some (unlock_release 1 (fun _ m => m) blocked1 4096).
Proof.
  assert (L : lets_by (fun (_ : nat) (m : words) => m) 1 4096) by (exists 0%nat; split; [lia|done]).
  exact (proj1 (proj2 (proj2 (futex_swaps_return 1 (fun _ m => m) blocked1 4096 2 0%nat 0 4096 1 1 0 L L)))).
Defined.

Lemma futex_pi_handoff_witness : word_load (q_mem blocked1) 4096 = Some 2147483655 /\ 2147483655 <> 0 /\
  (futex_pi_unowned 2147483655 = false -> futex_pi_has_waiters 2147483655 = true).
Proof.
  assert (L : word_load (q_mem blocked1) 4096 = Some 2147483655) by (vm_compute; reflexivity). split; [exact L|].
  refine (futex_pi_handoff m1 blocked1 [PiWaiting 4096 2 None 0] 4096 2 None 0 2147483655 blocked1_reachable _ _ L); [by left|vm_compute; reflexivity].
Defined.

