(* ===== verification/FutexKick.v ===== *)
(** * The signal kick of a parked thread (src/runtime/futex.c)

    A thread asleep in FUTEX_WAIT is told of a queued signal through three fields of
    its thread entry.  The thread and any number of kickers run step by step; a
    step is one atomic access, or what happens under the mutex between two of
    them.  Other threads may take the mutex at any time, which only delays the
    steps below. *)

From S2P Require Import Prelude.
From stdpp Require Import relations.

#[local] Open Scope Z_scope.

(** ** The fields of thread_entry_t, and the operations on them *)

(** The condition variable of a wait is the number of the wait. *)
Record park := mk_park { p_lock : option Z; p_cond : nat; p_kick : bool }.

Definition futex_kick_consume (p : park) : bool * park := (p_kick p, mk_park (p_lock p) (p_cond p) false).
Definition futex_park_publish (p : park) (lock : Z) (cond : nat) : park := mk_park (Some lock) cond (p_kick p).
Definition futex_park_withdraw (p : park) : park := mk_park None (p_cond p) (p_kick p).

(** futex_kick in three steps: the store and the first look, then under the mutex the
    second look, which gives the condition variable to signal. *)
Definition kick_store (p : park) : park := mk_park (p_lock p) (p_cond p) true.
Definition kick_look (p : park) : option Z := p_lock p.
Definition kick_recheck (p : park) (lock : Z) : option nat := if decide (p_lock p = Some lock) then Some (p_cond p) else None.

(** The process-wide interrupt: a one-shot edge. *)
Definition futex_interrupt_request (requested : bool) : bool := true.
Definition futex_interrupt_clear (requested : bool) : bool := false.
Definition futex_interrupt_consume (requested : bool) : bool * bool := (requested, false).

(** ** The thread and the kickers *)

(** Where the thread is; the bucket index is the mutex it holds, except asleep and
    while it is about to retake it. *)
Inductive phase :=
  | Away
  | Locked (b : Z)
  | Published (b : Z)
  | Tested (b : Z)
  | Asleep (b : Z)
  | Retaking (b : Z)
  | Awake (b : Z)
  | Polling (b : Z)
  | Withdrawn (b : Z).

Inductive kicker := Stored | Looked (b : Z) | Rechecking (b : Z).

Record kick_sys := mk_kick { y_park : park; y_wait : nat; y_phase : phase; y_kickers : list kicker }.

Definition holds (ph : phase) (b : Z) : bool :=
  match ph with Locked c | Published c | Tested c | Awake c | Withdrawn c => c =? b | _ => false end.
Definition mutex_free (y : kick_sys) (b : Z) : Prop := holds (y_phase y) b = false /\ Rechecking b ∉ y_kickers y.

(** The wait loop of futex_wait_inner as far as parking goes. *)
Inductive thread_step (y : kick_sys) : kick_sys -> Prop :=
  | ts_enter b : y_phase y = Away -> mutex_free y b -> thread_step y (mk_kick (y_park y) (S (y_wait y)) (Locked b) (y_kickers y))
  | ts_publish b : y_phase y = Locked b ->
      thread_step y (mk_kick (futex_park_publish (y_park y) b (y_wait y)) (y_wait y) (Published b) (y_kickers y))
  | ts_kicked b p : y_phase y = Published b -> futex_kick_consume (y_park y) = (true, p) ->
      thread_step y (mk_kick p (y_wait y) (Awake b) (y_kickers y))
  | ts_tested b p : y_phase y = Published b -> futex_kick_consume (y_park y) = (false, p) ->
      thread_step y (mk_kick p (y_wait y) (Tested b) (y_kickers y))
  | ts_sleep b : y_phase y = Tested b -> thread_step y (mk_kick (y_park y) (y_wait y) (Asleep b) (y_kickers y))
  | ts_wake b : y_phase y = Asleep b -> thread_step y (mk_kick (y_park y) (y_wait y) (Retaking b) (y_kickers y))
  | ts_retake b : y_phase y = Retaking b -> mutex_free y b -> thread_step y (mk_kick (y_park y) (y_wait y) (Awake b) (y_kickers y))
  | ts_poll b : y_phase y = Awake b -> thread_step y (mk_kick (y_park y) (y_wait y) (Polling b) (y_kickers y))
  | ts_again b : y_phase y = Polling b -> mutex_free y b -> thread_step y (mk_kick (y_park y) (y_wait y) (Published b) (y_kickers y))
  | ts_withdraw b : y_phase y = Published b \/ y_phase y = Awake b -> thread_step y (mk_kick (futex_park_withdraw (y_park y)) (y_wait y) (Withdrawn b) (y_kickers y))
  | ts_follow b b' : y_phase y = Withdrawn b -> mutex_free (mk_kick (y_park y) (y_wait y) Away (y_kickers y)) b' ->
      thread_step y (mk_kick (y_park y) (y_wait y) (Locked b') (y_kickers y))
  | ts_leave b : y_phase y = Withdrawn b -> thread_step y (mk_kick (y_park y) (y_wait y) Away (y_kickers y)).

Definition signalled (ph : phase) : phase := match ph with Asleep b => Retaking b | _ => ph end.

(** A kicker; a signal wakes the thread when it sleeps on that condition variable. *)
Inductive kicker_step (y : kick_sys) : kick_sys -> Prop :=
  | ks_store : kicker_step y (mk_kick (kick_store (y_park y)) (y_wait y) (y_phase y) (Stored :: y_kickers y))
  | ks_none l : y_kickers y ≡ₚ Stored :: l -> kick_look (y_park y) = None -> kicker_step y (mk_kick (y_park y) (y_wait y) (y_phase y) l)
  | ks_some l b : y_kickers y ≡ₚ Stored :: l -> kick_look (y_park y) = Some b ->
      kicker_step y (mk_kick (y_park y) (y_wait y) (y_phase y) (Looked b :: l))
  | ks_lock l b : y_kickers y ≡ₚ Looked b :: l -> mutex_free y b -> kicker_step y (mk_kick (y_park y) (y_wait y) (y_phase y) (Rechecking b :: l))
  | ks_signal l b cond : y_kickers y ≡ₚ Rechecking b :: l -> kick_recheck (y_park y) b = Some cond ->
      kicker_step y (mk_kick (y_park y) (y_wait y) (if decide (cond = y_wait y) then signalled (y_phase y) else y_phase y) l)
  | ks_stale l b : y_kickers y ≡ₚ Rechecking b :: l -> kick_recheck (y_park y) b = None ->
      kicker_step y (mk_kick (y_park y) (y_wait y) (y_phase y) l).

Definition kick_step (y y' : kick_sys) : Prop := thread_step y y' \/ kicker_step y y'.
Definition kick_start : kick_sys := mk_kick (mk_park None 0 false) 0 Away [].

(** ** The invariant *)

(** The bucket a park is published for. *)
Definition published (ph : phase) : option Z :=
  match ph with
  | Published b | Tested b | Asleep b | Retaking b | Awake b | Polling b => Some b
  | Away | Locked _ | Withdrawn _ => None
  end.

Definition coming (b : Z) (k : kicker) : Prop := k = Stored \/ k = Looked b \/ k = Rechecking b.

Record kick_inv (y : kick_sys) : Prop := {
  ki_park : p_lock (y_park y) = published (y_phase y);
  ki_cond : is_Some (published (y_phase y)) -> p_cond (y_park y) = y_wait y;
  ki_mutex : forall b, Rechecking b ∈ y_kickers y -> holds (y_phase y) b = false;
  ki_kick : forall b, y_phase y = Tested b \/ y_phase y = Asleep b -> p_kick (y_park y) = true -> exists k, k ∈ y_kickers y /\ coming b k
}.

Lemma thread_step_inv y y' : thread_step y y' -> kick_inv y -> kick_inv y'.
Proof.
  intros St [I1 I2 I3 I4].
  assert (Take : forall c, Rechecking c ∉ y_kickers y -> forall d, Rechecking d ∈ y_kickers y -> (c =? d) = false).
  { intros c N d D. apply Z.eqb_neq. by intros ->. }
  destruct St as [b E [F1 F2]|b E|b p E C|b p E C|b E|b E|b E [F1 F2]|b E|b E [F1 F2]|b [E|E]|b b' E [F1 F2]|b E];
    constructor; cbn in *; rewrite ?E in *; cbn in *; try done; try (by intros ? [?|?]); try (by apply Take);
    try (injection C as C1 <-; cbn; done).
  intros c [?|[= <-]]; [done|]. apply I4. by left.
Qed.

Lemma kicker_step_inv y y' : kicker_step y y' -> kick_inv y -> kick_inv y'.
Proof.
  intros St [I1 I2 I3 I4]. destruct St as [|l E N|l b E S|l b E [F1 F2]|l b cond E R|l b E R]; constructor; cbn in *; try done.
  - intros b [?|X]%elem_of_cons; [done|auto].
  - intros b _ _. exists Stored. split; [by left|by left].
  - intros b X. apply I3. rewrite E. by right.
  - intros b Ph Kk. destruct (I4 b Ph Kk) as (k & X & Cm). unfold kick_look in N. rewrite I1 in N.
    by destruct Ph as [Ph|Ph]; rewrite Ph in N.
  - intros c [?|X]%elem_of_cons; [done|]. apply I3. rewrite E. by right.
  - intros c Ph Kk. unfold kick_look in S. rewrite I1 in S. assert (c = b) as -> by (destruct Ph as [Ph|Ph]; rewrite Ph in S; cbn in S; congruence).
    exists (Looked b). split; [by left|right; by left].
  - intros c [[= ->]|X]%elem_of_cons; [done|]. apply I3. rewrite E. by right.
  - intros c Ph Kk. destruct (I4 c Ph Kk) as (k & X & Cm). rewrite E, elem_of_cons in X. destruct X as [->|X]; [|exists k; split; [by right|done]].
    destruct Cm as [?|[Cm|?]]; [done| |done]. injection Cm as ->. exists (Rechecking c). split; [by left|right; by right].
  - rewrite I1. case_decide; [|done]. by destruct (y_phase y).
  - intros Pb. apply I2. case_decide; [|done]. by destruct (y_phase y).
  - intros c X. assert (Hc : holds (y_phase y) c = false) by (apply I3; rewrite E; by right). case_decide; [|done]. by destruct (y_phase y).
  - intros c Ph Kk. unfold kick_recheck in R. destruct (decide (p_lock (y_park y) = Some b)) as [L|]; [|done]. injection R as <-.
    rewrite I1 in L. rewrite decide_True in Ph by (apply I2; by rewrite L).
    assert (Y : y_phase y = Tested c) by (destruct (y_phase y); cbn in Ph; destruct Ph as [Ph|Ph]; congruence).
    assert (Rb : Rechecking b ∈ y_kickers y) by (rewrite E; by left). apply I3 in Rb. rewrite Y in L, Rb. cbn in L, Rb. injection L as ->. by rewrite Z.eqb_refl in Rb.
  - intros c X. apply I3. rewrite E. by right.
  - intros c Ph Kk. destruct (I4 c Ph Kk) as (k & X & Cm). exists k. split; [|done]. rewrite E, elem_of_cons in X. destruct X as [->|X]; [|done].
    destruct Cm as [?|[?|Cm]]; [done|done|]. injection Cm as ->. exfalso. unfold kick_recheck in R.
    destruct (decide (p_lock (y_park y) = Some c)) as [|N]; [done|]. apply N. rewrite I1. by destruct Ph as [->| ->].
Qed.

Lemma kick_reach_inv y : rtc kick_step kick_start y -> kick_inv y.
Proof.
  intros R. assert (I : kick_inv kick_start) by (constructor; cbn; [done|by intros [? ?]|by intros b ?%not_elem_of_nil|by intros b [?|?]]).
  revert I. induction R as [|y y1 y2 St _ IH]; [done|]. intros I. apply IH. destruct St; [by eapply thread_step_inv|by eapply kicker_step_inv].
Qed.

(** C10: No kick is lost: whenever the thread sleeps with a kick it has not answered, some
    kicker is still on its way to it, and finds, under the mutex, the condition
    variable of that very wait.  And a kicker that does signal, signals the
    condition variable of the wait in progress, which cannot be destroyed under
    it: the thread has not withdrawn its park and does not hold the mutex. *)
Theorem futex_kick_correct y b : rtc kick_step kick_start y ->
  (y_phase y = Asleep b -> p_kick (y_park y) = true ->
    kick_recheck (y_park y) b = Some (y_wait y) /\ exists k, k ∈ y_kickers y /\ coming b k) /\
  (forall cond, Rechecking b ∈ y_kickers y -> kick_recheck (y_park y) b = Some cond ->
    cond = y_wait y /\ published (y_phase y) = Some b /\ holds (y_phase y) b = false).
Proof.
  intros [I1 I2 I3 I4]%kick_reach_inv. unfold kick_recheck. split.
  - intros Ph Kk. rewrite I1, Ph. cbn [published]. rewrite decide_True by done. split; [f_equal; apply I2; by rewrite Ph|]. apply I4; auto.
  - intros cond X R. destruct (decide _) as [L|]; [|done]. injection R as <-. rewrite I1 in L. split; [apply I2; by rewrite L|]. auto.
Qed.

(** A thread asleep in bucket 3, and a kicker that has just set the flag. *)
Definition kicked : kick_sys := mk_kick (mk_park (Some 3) 1 true) 1 (Asleep 3) [Stored].

Lemma kicked_reachable : rtc kick_step kick_start kicked.
Proof.
  eapply rtc_l; [left; apply (ts_enter _ 3); [done|]; split; [done|apply not_elem_of_nil]|].
  eapply rtc_l; [left; by apply (ts_publish _ 3)|]. eapply rtc_l; [left; by apply (ts_tested _ 3)|].
  eapply rtc_l; [left; by apply (ts_sleep _ 3)|]. eapply rtc_l; [right; apply ks_store|]. apply rtc_refl.
Qed.

Lemma futex_kick_correct_witness : kick_recheck (y_park kicked) 3 = Some 1%nat /\ exists k, k ∈ y_kickers kicked /\ coming 3 k.
Proof. exact (proj1 (futex_kick_correct kicked 3 kicked_reachable) eq_refl eq_refl). Defined.
