(* ===== verification/SigQueue.v ===== *)
(** * Pending signals (src/syscall/signal.h, src/syscall/signal.c)

    One set of pending signals, as each thread and the process have it: a bitmask,
    one siginfo per standard signal, a ring of siginfos per real-time signal.  The
    POSIX timers are here too, because taking a timer's signal out of a set ends
    the notification of the timer. *)

From S2P Require Import Prelude Bits.

(** ** Arrays *)

Definition aget {A} `{Inhabited A} (l : list A) (i : Z) : A := l !!! Z.to_nat i.
Definition aset {A} (l : list A) (i : Z) (v : A) : list A := <[Z.to_nat i := v]> l.
Notation "l .[ i ]" := (aget l i) (at level 2, left associativity, format "l .[ i ]").
Notation "l .[ i := v ]" := (aset l i v) (at level 2, left associativity, format "l .[ i := v ]").

(** ** Numbers *)

Definition LINUX_SIGRTMIN : Z := 32.
Definition LINUX_NSIG : Z := 64.
Definition RT_SIGQUEUE_MAX : Z := 32.
Definition RT_SIGNAL_COUNT : Z := LINUX_NSIG - LINUX_SIGRTMIN + 1.
Definition LINUX_SIGKILL : Z := 9.
Definition LINUX_SIGSTOP : Z := 19.
Definition LINUX_SI_USER : Z := 0.
Definition LINUX_SI_TIMER : Z := -2.

Definition sig_bit (signum : Z) : Z := if (signum <? 1) || (LINUX_NSIG <? signum) then 0 else Z.shiftl 1 (signum - 1).
Definition sig_uncatchable (signum : Z) : bool := (signum =? LINUX_SIGKILL) || (signum =? LINUX_SIGSTOP).

(** ** Data *)

Record signal_rt_info_t := mk_info {
  si_signum : Z;
  si_code : Z;
  si_pid : Z;
  si_uid : Z;
  si_int : Z;
  si_ptr : Z
}.

#[global] Instance info_inhabited : Inhabited signal_rt_info_t := populate (mk_info 0 0 0 0 0 0).
#[global] Instance info_eq_dec : EqDecision signal_rt_info_t.
Proof. solve_decision. Defined.

Record signal_pending_t := mk_pending {
  p_pending : Z;
  p_std_valid : list bool;
  p_std_info : list signal_rt_info_t;
  p_rt_queue : list Z;
  p_rt_head : list Z;
  p_rt_info : list (list signal_rt_info_t)
}.

Definition set_pending (v : Z) (p : signal_pending_t) : signal_pending_t :=
  mk_pending v (p_std_valid p) (p_std_info p) (p_rt_queue p) (p_rt_head p) (p_rt_info p).
Definition set_std (valid : list bool) (info : list signal_rt_info_t) (p : signal_pending_t) : signal_pending_t :=
  mk_pending (p_pending p) valid info (p_rt_queue p) (p_rt_head p) (p_rt_info p).
Definition set_ring (queue head : list Z) (info : list (list signal_rt_info_t)) (p : signal_pending_t) : signal_pending_t :=
  mk_pending (p_pending p) (p_std_valid p) (p_std_info p) queue head info.

Definition pending_or (bits : Z) (p : signal_pending_t) : signal_pending_t := set_pending (Z.lor (p_pending p) bits) p.
Definition pending_clear (bits : Z) (p : signal_pending_t) : signal_pending_t := set_pending (Z.land (p_pending p) (not64 bits)) p.

(** A set as memset leaves it. *)
Definition empty_pending : signal_pending_t :=
  mk_pending 0 (replicate 31 false) (replicate 31 inhabitant) (replicate 33 0) (replicate 33 0) (replicate 33 (replicate 32 inhabitant)).

(** ** POSIX timers *)

Inductive posix_timer_notification_t := POSIX_TIMER_NONE | POSIX_TIMER_WAITING | POSIX_TIMER_QUEUED.
#[global] Instance notification_eq_dec : EqDecision posix_timer_notification_t.
Proof. solve_decision. Defined.

Inductive host_clock_t := CLOCK_REALTIME | CLOCK_MONOTONIC.

Record guest_posix_timer_t := mk_timer {
  pt_id : Z;
  pt_guest_clockid : Z;
  pt_signum : Z;
  pt_overruns : Z;
  pt_last_overrun : Z;
  pt_host_clock : host_clock_t;
  pt_value : Z;
  pt_expiry : Z;
  pt_interval : Z;
  pt_used : bool;
  pt_notification : posix_timer_notification_t
}.

Definition POSIX_TIMER_MAX : Z := 64.
Definition zero_timer : guest_posix_timer_t := mk_timer 0 0 0 0 0 CLOCK_REALTIME 0 0 0 false POSIX_TIMER_NONE.
#[global] Instance timer_inhabited : Inhabited guest_posix_timer_t := populate zero_timer.

Definition set_overruns (overruns last : Z) (n : posix_timer_notification_t) (t : guest_posix_timer_t) : guest_posix_timer_t :=
  mk_timer (pt_id t) (pt_guest_clockid t) (pt_signum t) overruns last (pt_host_clock t) (pt_value t) (pt_expiry t) (pt_interval t) (pt_used t) n.
Definition set_expiry (expiry : Z) (t : guest_posix_timer_t) : guest_posix_timer_t :=
  mk_timer (pt_id t) (pt_guest_clockid t) (pt_signum t) (pt_overruns t) (pt_last_overrun t) (pt_host_clock t) (pt_value t) expiry (pt_interval t) (pt_used t)
    (pt_notification t).

(** The slot of the timer, and the timer in it. *)
Definition posix_timer_find_locked (timers : list guest_posix_timer_t) (id : Z) : option (nat * guest_posix_timer_t) :=
  list_find (fun t => pt_used t = true /\ pt_id t = id) timers.

(** The siginfo as the taker sees it, the timers, and whether a timer's notification
    has ended (the waiters of rt_sigtimedwait are then told). *)
Definition posix_timer_dequeued_locked (timers : list guest_posix_timer_t) (info : signal_rt_info_t) : signal_rt_info_t * list guest_posix_timer_t * bool :=
  if negb (si_code info =? LINUX_SI_TIMER) then (info, timers, false)
  else
    match posix_timer_find_locked timers (si_pid info) with
    | None => (info, timers, false)
    | Some (i, t) =>
        (mk_info (si_signum info) (si_code info) (si_pid info) (pt_overruns t) (si_int info) (si_ptr info),
         <[i := set_overruns 0 (pt_overruns t) POSIX_TIMER_NONE t]> timers, true)
    end.

(** ** Putting signals into a set *)

Section Set_ops.
  (** proc_get_pid and proc_get_uid *)
  Variables pid uid : Z.

Definition signal_default_info (signum : Z) : signal_rt_info_t := mk_info signum LINUX_SI_USER pid uid 0 0.

Definition signal_standard_enqueue_locked (p : signal_pending_t) (signum : Z) (info : option signal_rt_info_t) : signal_pending_t :=
  let idx := signum - 1 in
  let bit := sig_bit signum in
  let cur := p_pending p in
  let p :=
    if has cur bit then p
    else set_std (p_std_valid p).[idx := bool_decide (is_Some info)] (p_std_info p).[idx := default (signal_default_info signum) info] p in
  set_pending (Z.lor cur bit) p.

Definition signal_standard_peek_locked (p : signal_pending_t) (signum : Z) : signal_rt_info_t :=
  let idx := signum - 1 in
  if (p_std_valid p).[idx] then (p_std_info p).[idx] else signal_default_info signum.

Definition signal_rt_enqueue_locked (p : signal_pending_t) (signum : Z) (info : option signal_rt_info_t) : signal_pending_t :=
  let idx := signum - LINUX_SIGRTMIN in
  let entry := default (signal_default_info signum) info in
  let p := pending_or (sig_bit signum) p in
  if RT_SIGQUEUE_MAX <=? (p_rt_queue p).[idx] then p
  else
    let tail := ((p_rt_head p).[idx] + (p_rt_queue p).[idx]) mod RT_SIGQUEUE_MAX in
    set_ring (p_rt_queue p).[idx := (p_rt_queue p).[idx] + 1] (p_rt_head p)
      (p_rt_info p).[idx := (p_rt_info p).[idx].[tail := entry]] p.

Definition signal_enqueue_locked (p : signal_pending_t) (signum : Z) (info : option signal_rt_info_t) : signal_pending_t :=
  if LINUX_SIGRTMIN <=? signum then signal_rt_enqueue_locked p signum info else signal_standard_enqueue_locked p signum info.

(** ** Taking signals out of a set *)

(** The siginfo taken, if the queue held one; the set; the timers; whether a timer's
    notification ended. *)
Definition signal_rt_dequeue_locked (timers : list guest_posix_timer_t) (p : signal_pending_t) (signum : Z)
    : option signal_rt_info_t * signal_pending_t * list guest_posix_timer_t * bool :=
  let idx := signum - LINUX_SIGRTMIN in
  if (p_rt_queue p).[idx] <=? 0 then (None, pending_clear (sig_bit signum) p, timers, false)
  else
    let '(info, timers, ended) := posix_timer_dequeued_locked timers (p_rt_info p).[idx].[(p_rt_head p).[idx]] in
    let p :=
      set_ring (p_rt_queue p).[idx := (p_rt_queue p).[idx] - 1]
        (p_rt_head p).[idx := ((p_rt_head p).[idx] + 1) mod RT_SIGQUEUE_MAX] (p_rt_info p) p in
    let p :=
      if (p_rt_queue p).[idx] =? 0 then
        set_ring (p_rt_queue p) (p_rt_head p).[idx := 0] (p_rt_info p) (pending_clear (sig_bit signum) p)
      else p in
    (Some info, p, timers, ended).

(** The dequeue that signal_deliver_one and sigtimedwait_try_dequeue share. *)
Definition take_locked (timers : list guest_posix_timer_t) (p : signal_pending_t) (signum : Z)
    : signal_rt_info_t * signal_pending_t * list guest_posix_timer_t * bool :=
  if LINUX_SIGRTMIN <=? signum then
    let '(info, p, timers, ended) := signal_rt_dequeue_locked timers p signum in
    (default (signal_default_info signum) info, p, timers, ended)
  else
    let '(info, timers, ended) := posix_timer_dequeued_locked timers (signal_standard_peek_locked p signum) in
    (info, pending_clear (sig_bit signum) (set_std (p_std_valid p).[signum - 1 := false] (p_std_info p) p), timers, ended).

End Set_ops.

(** ** Discarding the signals of a timer *)

(** A negative id stands for every timer. *)
Definition timer_entry (id : Z) (info : signal_rt_info_t) : bool :=
  (si_code info =? LINUX_SI_TIMER) && ((id <? 0) || (si_pid info =? id)).

(** The compaction of one ring: after [n] entries, [kept] of them have been written
    back from the head on. *)
Definition compact_entry (head id : Z) (acc : Z * list signal_rt_info_t) (n : Z) : Z * list signal_rt_info_t :=
  let '(kept, ring) := acc in
  let info := ring.[(head + n) mod RT_SIGQUEUE_MAX] in
  if timer_entry id info then acc
  else (kept + 1, ring.[(head + kept) mod RT_SIGQUEUE_MAX := info]).

Definition compact (head id count : Z) (ring : list signal_rt_info_t) : Z * list signal_rt_info_t :=
  foldl (compact_entry head id) (0, ring) (seqZ 0 count).

(** One round of the loop over the pending bits: the set, and whether the round got
    as far as the release of the claim. *)
Definition discard_signal (id : Z) (p : signal_pending_t) (signum : Z) : signal_pending_t * bool :=
  if signum <? LINUX_SIGRTMIN then
    let idx := signum - 1 in
    if negb (p_std_valid p).[idx] || negb (timer_entry id (p_std_info p).[idx]) then (p, false)
    else (pending_clear (sig_bit signum) (set_std (p_std_valid p).[idx := false] (p_std_info p) p), true)
  else
    let idx := signum - LINUX_SIGRTMIN in
    let '(kept, ring) := compact (p_rt_head p).[idx] id (p_rt_queue p).[idx] (p_rt_info p).[idx] in
    let written := set_ring (p_rt_queue p) (p_rt_head p) (p_rt_info p).[idx := ring] p in
    if kept =? (p_rt_queue p).[idx] then (written, false)
    else
      let p := set_ring (p_rt_queue p).[idx := kept] (p_rt_head p) (p_rt_info written) p in
      (if kept =? 0 then pending_clear (sig_bit signum) (set_ring (p_rt_queue p) (p_rt_head p).[idx := 0] (p_rt_info p) p) else p, true).

(** The set, and the signals whose claim is released if this is the shared set. *)
Definition discard_round (id : Z) (acc : signal_pending_t * list Z) (bit : Z) : signal_pending_t * list Z :=
  let '(p, released) := acc in
  let signum := bit + 1 in
  let '(p, changed) := discard_signal id p signum in
  (p, if changed && negb (has (p_pending p) (sig_bit signum)) then released ++ [signum] else released).

Definition posix_timer_discard_pending_locked (p : signal_pending_t) (id : Z) : signal_pending_t * list Z :=
  foldl (discard_round id) (p, []) (set_bits (p_pending p)).
