(* ===== verification/SigQueueFacts.v ===== *)
(** * Pending signals as queues

    A set of pending signals is a queue per signal: at most one entry for a standard
    signal, at most 32 for a real-time one.  The bitmask is the set of nonempty
    queues.  Every operation on a set is the operation on these queues. *)

From S2P Require Import Prelude Bits SigQueue.

(** ** Arrays *)

Lemma length_aset {A} (l : list A) i v : length l.[i := v] = length l.
Proof. apply length_insert. Qed.

Lemma aget_aset {A} `{Inhabited A} (l : list A) i v : 0 <= i < Z.of_nat (length l) -> l.[i := v].[i] = v.
Proof. intros B. unfold aget, aset. apply list_lookup_total_insert_eq. lia. Qed.

Lemma aget_aset_ne {A} `{Inhabited A} (l : list A) i j v : 0 <= i -> 0 <= j -> i <> j -> l.[i := v].[j] = l.[j].
Proof. intros Bi Bj N. unfold aget, aset. apply list_lookup_total_insert_ne. lia. Qed.

Lemma aset_aset {A} (l : list A) i v w : l.[i := v].[i := w] = l.[i := w].
Proof. apply list_insert_insert_eq. Qed.

Lemma aset_id {A} `{Inhabited A} (l : list A) i : l.[i := l.[i]] = l.
Proof.
  unfold aget, aset. destruct (l !! Z.to_nat i) as [v|] eqn:E.
  - rewrite (list_lookup_total_correct _ _ _ E). by apply list_insert_id.
  - apply list_insert_ge. by apply lookup_ge_None.
Qed.

(** ** Bits of signals *)

Lemma sig_bit_fits s : fits64 (sig_bit s).
Proof. unfold sig_bit, LINUX_NSIG. case_if; [done|]. unbool. apply bit_fits. lia. Qed.

Lemma sig_bit_testbit s k : 1 <= s <= 64 -> 0 <= k -> Z.testbit (sig_bit s) k = (k =? s - 1).
Proof.
  intros B K. unfold sig_bit, LINUX_NSIG. rewrite (proj2 (Z.ltb_ge s 1)), (proj2 (Z.ltb_ge 64 s)) by lia. cbn [orb]. rewrite one_bit by lia. apply Z.eqb_sym.
Qed.

Lemma has_sig w s : 1 <= s <= 64 -> has w (sig_bit s) = Z.testbit w (s - 1).
Proof.
  intros B. unfold sig_bit, LINUX_NSIG. rewrite (proj2 (Z.ltb_ge s 1)), (proj2 (Z.ltb_ge 64 s)) by lia. cbn [orb].
  rewrite Z.shiftl_mul_pow2, Z.mul_1_l by lia. apply has_testbit. lia.
Qed.

Lemma testbit_clear w s k : 1 <= s <= 64 -> 0 <= k < 64 -> Z.testbit (Z.land w (not64 (sig_bit s))) k = Z.testbit w k && negb (k =? s - 1).
Proof.
  intros B K. rewrite Z.land_spec, not64_spec, sig_bit_testbit by lia. rewrite (proj2 (Z.ltb_lt k 64)) by lia. by rewrite xorb_true_r.
Qed.

Lemma testbit_or w s k : 1 <= s <= 64 -> 0 <= k -> Z.testbit (Z.lor w (sig_bit s)) k = Z.testbit w k || (k =? s - 1).
Proof. intros B K. by rewrite Z.lor_spec, sig_bit_testbit by lia. Qed.

#[export] Hint Resolve sig_bit_fits : word64.

(** ** The queues of a set *)

Definition ring_list (head count : Z) (ring : list signal_rt_info_t) : list signal_rt_info_t :=
  (fun n => ring.[(head + n) mod 32]) <$> seqZ 0 count.

Definition rt_list (p : signal_pending_t) (idx : Z) : list signal_rt_info_t :=
  ring_list (p_rt_head p).[idx] (p_rt_queue p).[idx] (p_rt_info p).[idx].

Definition valid_signal (s : Z) : Prop := 1 <= s <= 64.

Section Queued.
Context (pid uid : Z).

Definition queued (p : signal_pending_t) (s : Z) : list signal_rt_info_t :=
  if s <? 32 then (if Z.testbit (p_pending p) (s - 1) then [signal_standard_peek_locked pid uid p s] else []) else rt_list p (s - 32).

Record set_ok (p : signal_pending_t) : Prop := {
  so_fits : fits64 (p_pending p);
  so_valid : length (p_std_valid p) = 31%nat;
  so_std : length (p_std_info p) = 31%nat;
  so_queue : length (p_rt_queue p) = 33%nat;
  so_head : length (p_rt_head p) = 33%nat;
  so_info : length (p_rt_info p) = 33%nat;
  so_ring : forall i, 0 <= i < 33 -> length (p_rt_info p).[i] = 32%nat;
  so_heads : forall i, 0 <= i < 33 -> 0 <= (p_rt_head p).[i] < 32;
  so_counts : forall i, 0 <= i < 33 -> 0 <= (p_rt_queue p).[i] <= 32;
  so_bits : forall i, 0 <= i < 33 -> Z.testbit (p_pending p) (31 + i) = (0 <? (p_rt_queue p).[i]);
  so_named : forall s, valid_signal s -> Forall (fun e => si_signum e = s) (queued p s)
}.

Lemma length_ring_list h c r : length (ring_list h c r) = Z.to_nat c.
Proof. unfold ring_list. by rewrite length_fmap, length_seqZ. Qed.

(** The bitmask is the set of nonempty queues. *)
Lemma pending_queued p s : set_ok p -> valid_signal s -> Z.testbit (p_pending p) (s - 1) = bool_decide (queued p s <> []).
Proof.
  intros O B. unfold queued. case_if; unbool; [by destruct (Z.testbit _ _)|]. unfold valid_signal in B.
  replace (s - 1) with (31 + (s - 32)) by lia. rewrite (so_bits p O) by lia. unfold rt_list.
  destruct (Z.ltb_spec 0 (p_rt_queue p).[s - 32]) as [L|L]; symmetry; [apply bool_decide_eq_true|apply bool_decide_eq_false];
    rewrite <- length_zero_iff_nil, length_ring_list; lia.
Qed.

Lemma queued_bit p s : set_ok p -> valid_signal s -> Z.testbit (p_pending p) (s - 1) = true <-> queued p s <> [].
Proof. intros O B. rewrite (pending_queued p s O B). apply bool_decide_eq_true. Qed.

Lemma queued_length p s : set_ok p -> valid_signal s -> Z.of_nat (length (queued p s)) <= if s <? 32 then 1 else 32.
Proof.
  intros O B. unfold queued. unfold valid_signal in B. case_if; unbool; [destruct (Z.testbit _ _); cbn; lia|]. unfold rt_list. rewrite length_ring_list.
  pose proof (so_counts p O (s - 32)). lia.
Qed.

Lemma empty_ok : set_ok empty_pending.
Proof.
  assert (R : forall {A} `{Inhabited A} n (x : A) i, 0 <= i < Z.of_nat n -> (replicate n x).[i] = x).
  { intros A HA n x i B. unfold aget. apply lookup_total_replicate_2. lia. }
  constructor; cbn [empty_pending p_pending p_std_valid p_std_info p_rt_queue p_rt_head p_rt_info]; try (by rewrite length_replicate); try done.
  - intros i B. by rewrite R by lia.
  - intros i B. rewrite R by lia. lia.
  - intros i B. rewrite R by lia. lia.
  - intros i B. rewrite R by lia. by rewrite Z.bits_0.
  - intros s B. unfold valid_signal in B. unfold queued. case_if; unbool; [by rewrite Z.bits_0|]. unfold rt_list. cbn [empty_pending p_rt_queue]. rewrite (R Z _ 33%nat) by lia. done.
Qed.

(** ** Updates of one signal *)

(** [only s q p p']: [p'] is [p] with the queue of [s] replaced by [q]. *)
Definition only (s : Z) (q : list signal_rt_info_t) (p p' : signal_pending_t) : Prop :=
  set_ok p' /\ queued p' s = q /\ forall r, valid_signal r -> r <> s -> queued p' r = queued p r.

Lemma rt_update p i w c h r : set_ok p -> 0 <= i < 33 -> fits64 w -> 0 <= c <= 32 -> 0 <= h < 32 -> length r = 32%nat ->
  (forall k, 0 <= k < 64 -> Z.testbit w k = if k =? 31 + i then 0 <? c else Z.testbit (p_pending p) k) ->
  Forall (fun e => si_signum e = 32 + i) (ring_list h c r) ->
  only (32 + i) (ring_list h c r) p
    (mk_pending w (p_std_valid p) (p_std_info p) (p_rt_queue p).[i := c] (p_rt_head p).[i := h] (p_rt_info p).[i := r]).
Proof.
  intros O Bi Fw Bc Bh Lr Bits Nm. set (p' := mk_pending _ _ _ _ _ _).
  pose proof (so_queue p O) as Lq. pose proof (so_head p O) as Lh. pose proof (so_info p O) as Li.
  assert (Same : forall j, 0 <= j < 33 -> j <> i -> (p_rt_queue p').[j] = (p_rt_queue p).[j] /\ (p_rt_head p').[j] = (p_rt_head p).[j] /\
                    (p_rt_info p').[j] = (p_rt_info p).[j]).
  { intros j Bj N. subst p'. cbn. rewrite !aget_aset_ne by lia. done. }
  assert (Here : (p_rt_queue p').[i] = c /\ (p_rt_head p').[i] = h /\ (p_rt_info p').[i] = r).
  { subst p'. cbn. rewrite !aget_aset by lia. done. }
  assert (Q : queued p' (32 + i) = ring_list h c r).
  { unfold queued. rewrite (proj2 (Z.ltb_ge _ _)) by lia. replace (32 + i - 32) with i by lia. unfold rt_list. by destruct Here as (-> & -> & ->). }
  assert (Other : forall s, valid_signal s -> s <> 32 + i -> queued p' s = queued p s).
  { intros s Bs N. unfold valid_signal in Bs. unfold queued. case_if; unbool.
    - subst p'. cbn [p_pending]. rewrite Bits by lia. by destruct (Z.eqb_spec (s - 1) (31 + i)); [lia|].
    - unfold rt_list. by destruct (Same (s - 32)) as (-> & -> & ->); [lia|lia|]. }
  split; [|done].
  constructor; try (subst p'; cbn; rewrite ?length_aset; by apply O); try done.
  - intros j Bj. destruct (Z.eq_dec j i) as [->|N]; [by destruct Here as (_ & _ & ->)|]. destruct (Same j Bj N) as (_ & _ & ->). by apply O.
  - intros j Bj. destruct (Z.eq_dec j i) as [->|N]; [by destruct Here as (_ & -> & _)|]. destruct (Same j Bj N) as (_ & -> & _). by apply O.
  - intros j Bj. destruct (Z.eq_dec j i) as [->|N]; [by destruct Here as (-> & _ & _)|]. destruct (Same j Bj N) as (-> & _ & _). by apply O.
  - intros j Bj. subst p'. cbn [p_pending]. rewrite Bits by lia. destruct (Z.eqb_spec (31 + j) (31 + i)) as [E|N].
    + assert (j = i) as -> by lia. by destruct Here as (-> & _ & _).
    + destruct (Same j Bj ltac:(lia)) as (-> & _ & _). by apply O.
  - intros s Bs. destruct (Z.eq_dec s (32 + i)) as [->|N]; [by rewrite Q|]. rewrite Other by done. by apply O.
Qed.

Lemma std_update p i w (on b : bool) e : set_ok p -> 0 <= i < 31 -> fits64 w -> (on = true -> b = true -> si_signum e = i + 1) ->
  (forall k, 0 <= k < 64 -> Z.testbit w k = if k =? i then on else Z.testbit (p_pending p) k) ->
  only (i + 1) (if on then [if b then e else signal_default_info pid uid (i + 1)] else []) p
    (mk_pending w (p_std_valid p).[i := b] (p_std_info p).[i := e] (p_rt_queue p) (p_rt_head p) (p_rt_info p)).
Proof.
  intros O Bi Fw Ne Bits. set (p' := mk_pending _ _ _ _ _ _).
  pose proof (so_valid p O) as Lv. pose proof (so_std p O) as Ls.
  assert (Q : queued p' (i + 1) = if on then [if b then e else signal_default_info pid uid (i + 1)] else []).
  { unfold queued. rewrite (proj2 (Z.ltb_lt _ _)) by lia. subst p'. cbn [p_pending]. rewrite Bits by lia. replace (i + 1 - 1) with i by lia. rewrite Z.eqb_refl.
    destruct on; [|done]. unfold signal_standard_peek_locked. cbn [p_std_valid p_std_info]. replace (i + 1 - 1) with i by lia. by rewrite !aget_aset by lia. }
  assert (Other : forall s, valid_signal s -> s <> i + 1 -> queued p' s = queued p s).
  { intros s Bs N. unfold valid_signal in Bs. unfold queued. case_if; [|done]. unbool. subst p'. cbn [p_pending]. rewrite Bits by lia.
    destruct (Z.eqb_spec (s - 1) i); [lia|]. destruct (Z.testbit _ _); [|done].
    unfold signal_standard_peek_locked. cbn [p_std_valid p_std_info]. by rewrite !aget_aset_ne by lia. }
  split; [|done].
  constructor; try (subst p'; cbn; rewrite ?length_aset; by apply O); try done.
  - intros j Bj. subst p'. cbn [p_pending p_rt_queue]. rewrite Bits by lia. destruct (Z.eqb_spec (31 + j) i); [lia|]. by apply O.
  - intros s Bs. destruct (Z.eq_dec s (i + 1)) as [->|N]; [|rewrite Other by done; by apply O].
    rewrite Q. destruct on; [|done]. apply Forall_singleton. destruct b; [by apply Ne|done].
Qed.

(** ** Rings *)

Lemma ring_list_ext h c r r' : (forall n, 0 <= n < c -> r'.[(h + n) mod 32] = r.[(h + n) mod 32]) -> ring_list h c r' = ring_list h c r.
Proof. intros E. apply list_fmap_ext. intros i x X. apply lookup_seqZ in X as [-> Bx]. apply E. lia. Qed.

Lemma ring_list_app h c d r : 0 <= c -> 0 <= d -> ring_list h (c + d) r = ring_list h c r ++ ring_list (h + c) d r.
Proof.
  intros Bc Bd. unfold ring_list. rewrite seqZ_app, fmap_app by lia. f_equal. rewrite (Z.add_comm 0 c), <- (fmap_add_seqZ c 0 d), <- list_fmap_compose.
  apply list_fmap_ext. intros i x _. cbn. by rewrite Z.add_assoc.
Qed.

Lemma ring_list_mod h c r : ring_list (h mod 32) c r = ring_list h c r.
Proof. apply list_fmap_ext. intros i x _. by rewrite Z.add_mod_idemp_l by lia. Qed.

Lemma ring_list_one h r : ring_list h 1 r = [r.[h mod 32]].
Proof. unfold ring_list. change (seqZ 0 1) with [0]. cbn [fmap list_fmap]. by rewrite Z.add_0_r. Qed.

Lemma mod32_ne h a b : 0 <= a < 32 -> 0 <= b < 32 -> a <> b -> (h + a) mod 32 <> (h + b) mod 32.
Proof. intros A B N E. apply N. zdm. Qed.

Lemma ring_list_snoc h c r e : 0 <= c < 32 -> length r = 32%nat -> ring_list h (c + 1) r.[(h + c) mod 32 := e] = ring_list h c r ++ [e].
Proof.
  intros Bc Lr. assert (M : 0 <= (h + c) mod 32 < 32) by (apply Z.mod_pos_bound; lia).
  rewrite ring_list_app, ring_list_one, aget_aset by lia. f_equal. apply ring_list_ext. intros n Bn.
  rewrite aget_aset_ne; [done|lia|apply Z.mod_pos_bound; lia|apply mod32_ne; lia].
Qed.

Lemma ring_list_cons h c r : 0 < c -> ring_list h c r = r.[h mod 32] :: ring_list ((h + 1) mod 32) (c - 1) r.
Proof. intros Bc. replace c with (1 + (c - 1)) at 1 by lia. by rewrite ring_list_app, ring_list_one, ring_list_mod by lia. Qed.

(** ** Queueing *)

Definition entry_of (s : Z) (info : option signal_rt_info_t) : signal_rt_info_t := default (signal_default_info pid uid s) info.

(** A standard signal that is pending already is not queued again; a real-time
    signal is, unless 32 of it are. *)
Definition push (s : Z) (q : list signal_rt_info_t) (e : signal_rt_info_t) : list signal_rt_info_t :=
  if s <? 32 then match q with [] => [e] | _ => q end else if (32 <=? length q)%nat then q else q ++ [e].

Lemma rt_enqueue_only p s info : set_ok p -> 32 <= s <= 64 -> si_signum (entry_of s info) = s ->
  only s (push s (queued p s) (entry_of s info)) p (signal_rt_enqueue_locked pid uid p s info).
Proof.
  intros O Bs Ne. unfold push.
  rewrite (proj2 (Z.ltb_ge s 32)) by lia. unfold signal_rt_enqueue_locked, LINUX_SIGRTMIN, RT_SIGQUEUE_MAX. set (i := s - 32).
  cbn [pending_or set_pending p_pending p_std_valid p_std_info p_rt_queue p_rt_head p_rt_info set_ring]. fold (entry_of s info).
  pose proof (so_counts p O i ltac:(lia)) as Bc. pose proof (so_heads p O i ltac:(lia)) as Bh. pose proof (so_ring p O i ltac:(lia)) as Lr.
  assert (Q : queued p s = rt_list p i) by (unfold queued; by rewrite (proj2 (Z.ltb_ge s 32)) by lia). unfold rt_list in Q.
  assert (Lq : length (queued p s) = Z.to_nat (p_rt_queue p).[i]) by (rewrite Q; apply length_ring_list).
  assert (Bits : forall k, 0 <= k < 64 -> Z.testbit (Z.lor (p_pending p) (sig_bit s)) k = if k =? 31 + i then true else Z.testbit (p_pending p) k).
  { intros k Bk. rewrite testbit_or by lia. replace (31 + i) with (s - 1) by lia. by destruct (k =? s - 1); rewrite ?orb_true_r, ?orb_false_r. }
  assert (N0 : Forall (fun e => si_signum e = 32 + i) (queued p s)) by (replace (32 + i) with s by lia; apply O; unfold valid_signal; lia).
  rewrite Lq. destruct (Z.leb_spec 32 (p_rt_queue p).[i]) as [F|F].
  - rewrite (proj2 (Nat.leb_le _ _)) by lia. rewrite Q in *.
    pose proof (rt_update p i _ (p_rt_queue p).[i] (p_rt_head p).[i] (p_rt_info p).[i] O ltac:(lia) (lor_fits _ _ (so_fits p O) (sig_bit_fits s)) Bc Bh Lr) as U.
    rewrite !aset_id in U. replace (32 + i) with s in * by lia. apply U; [|done]. intros k Bk. rewrite Bits by done. by rewrite (proj2 (Z.ltb_lt 0 _)) by lia.
  - rewrite (proj2 (Nat.leb_gt _ _)) by lia. rewrite Q in *. rewrite <- ring_list_snoc by (done || lia). assert (Bc' : 0 <= (p_rt_queue p).[i] + 1 <= 32) by lia.
    pose proof (rt_update p i _ ((p_rt_queue p).[i] + 1) (p_rt_head p).[i] (p_rt_info p).[i].[((p_rt_head p).[i] + (p_rt_queue p).[i]) mod 32 := entry_of s info]
      O ltac:(lia) (lor_fits _ _ (so_fits p O) (sig_bit_fits s)) Bc' Bh) as U.
    rewrite !aset_id in U. replace (32 + i) with s in * by lia. apply U; [by rewrite length_aset| |].
    + intros k Bk. rewrite Bits by done. by rewrite (proj2 (Z.ltb_lt 0 _)) by lia.
    + rewrite ring_list_snoc by (done || lia). apply Forall_app. split; [done|by apply Forall_singleton].
Qed.

Lemma std_enqueue_only p s info : set_ok p -> 1 <= s < 32 -> si_signum (entry_of s info) = s ->
  only s (push s (queued p s) (entry_of s info)) p (signal_standard_enqueue_locked pid uid p s info).
Proof.
  intros O Bs' Ne. assert (Bs : valid_signal s) by (unfold valid_signal; lia). unfold push.
  rewrite (proj2 (Z.ltb_lt s 32)) by lia. unfold signal_standard_enqueue_locked. rewrite has_sig by done. fold (entry_of s info).
  assert (Bits : forall k, 0 <= k < 64 -> Z.testbit (Z.lor (p_pending p) (sig_bit s)) k = if k =? s - 1 then true else Z.testbit (p_pending p) k).
  { intros k Bk. rewrite testbit_or by lia. by destruct (k =? s - 1); rewrite ?orb_true_r, ?orb_false_r. }
  destruct (Z.testbit (p_pending p) (s - 1)) eqn:T.
  - pose proof (std_update p (s - 1) _ true (p_std_valid p).[s - 1] (p_std_info p).[s - 1] O ltac:(lia) (lor_fits _ _ (so_fits p O) (sig_bit_fits s))) as U.
    rewrite !aset_id in U. replace (s - 1 + 1) with s in U by lia. unfold queued. rewrite (proj2 (Z.ltb_lt s 32)), T by lia.
    apply U; [|done]. intros _ V. pose proof (so_named p O s Bs) as Nq. unfold queued in Nq. rewrite (proj2 (Z.ltb_lt s 32)), T in Nq by lia.
    rewrite Forall_singleton in Nq. unfold signal_standard_peek_locked in Nq. by rewrite V in Nq.
  - unfold queued. rewrite (proj2 (Z.ltb_lt s 32)), T by lia.
    pose proof (std_update p (s - 1) _ true (bool_decide (is_Some info)) (entry_of s info) O ltac:(lia) (lor_fits _ _ (so_fits p O) (sig_bit_fits s))
      ltac:(intros; lia) Bits) as U.
    replace (s - 1 + 1) with s in U by lia. assert (E : (if bool_decide (is_Some info) then entry_of s info else signal_default_info pid uid s) = entry_of s info).
    { destruct info; [by rewrite bool_decide_eq_true_2|done]. }
    by rewrite E in U.
Qed.

Lemma enqueue_only p s info : set_ok p -> valid_signal s -> (forall e, info = Some e -> si_signum e = s) ->
  only s (push s (queued p s) (entry_of s info)) p (signal_enqueue_locked pid uid p s info).
Proof.
  intros O Bs Nm. assert (Ne : si_signum (entry_of s info) = s) by (destruct info; cbn; [by apply Nm|done]). unfold valid_signal in Bs.
  unfold signal_enqueue_locked, LINUX_SIGRTMIN. destruct (Z.leb_spec 32 s); [apply rt_enqueue_only|apply std_enqueue_only]; done || lia.
Qed.

(** ** Taking *)

Lemma take_only timers p s e q : set_ok p -> valid_signal s -> queued p s = e :: q ->
  exists p', take_locked pid uid timers p s =
    ((posix_timer_dequeued_locked timers e).1.1, p', (posix_timer_dequeued_locked timers e).1.2, (posix_timer_dequeued_locked timers e).2) /\
  only s q p p'.
Proof.
  intros O Bs Q. pose proof (so_named p O s Bs) as Nm. rewrite Q in Nm. unfold valid_signal in Bs. unfold take_locked, LINUX_SIGRTMIN.
  assert (Bits : forall k, 0 <= k < 64 -> Z.testbit (Z.land (p_pending p) (not64 (sig_bit s))) k = if k =? s - 1 then false else Z.testbit (p_pending p) k).
  { intros k Bk. rewrite testbit_clear by lia. by destruct (k =? s - 1); rewrite ?andb_false_r, ?andb_true_r. }
  assert (Fw : fits64 (Z.land (p_pending p) (not64 (sig_bit s)))) by (apply land_fits, O).
  unfold queued in Q. destruct (Z.leb_spec 32 s) as [B|B].
  - rewrite (proj2 (Z.ltb_ge s 32)) in Q by lia. unfold signal_rt_dequeue_locked, LINUX_SIGRTMIN, RT_SIGQUEUE_MAX. set (i := s - 32) in *. unfold rt_list in Q.
    pose proof (so_counts p O i ltac:(lia)) as Bc. pose proof (so_heads p O i ltac:(lia)) as Bh. pose proof (so_ring p O i ltac:(lia)) as Lr.
    assert (C0 : 0 < (p_rt_queue p).[i]).
    { destruct (Z.lt_ge_cases 0 (p_rt_queue p).[i]); [done|]. replace (p_rt_queue p).[i] with 0 in Q by lia. done. }
    rewrite (proj2 (Z.leb_gt _ _)) by lia. rewrite ring_list_cons, (Z.mod_small (p_rt_head p).[i]) in Q by lia. injection Q as <- Q.
    set (x := (p_rt_info p).[i].[(p_rt_head p).[i]]). destruct (posix_timer_dequeued_locked timers x) as [[x' timers'] ended] eqn:D. cbn [fst snd].
    cbn [set_ring p_pending p_std_valid p_std_info p_rt_queue p_rt_head p_rt_info pending_clear set_pending].
    rewrite aget_aset by (rewrite (so_queue p O); lia). apply Forall_cons_1 in Nm as [_ Nm]. replace s with (32 + i) in Nm by lia.
    eexists. split; [done|]. destruct (Z.eqb_spec ((p_rt_queue p).[i] - 1) 0) as [E|E].
    + pose proof (rt_update p i _ 0 0 (p_rt_info p).[i] O ltac:(lia) Fw ltac:(lia) ltac:(lia) Lr) as U.
      rewrite aset_id in U. replace (32 + i) with s in U by lia. rewrite E in Q |- *. rewrite aset_aset. subst q. apply U; [|done].
      intros k Bk. rewrite Bits by done. by replace (31 + i) with (s - 1) by lia.
    + assert (Bc' : 0 <= (p_rt_queue p).[i] - 1 <= 32) by lia. assert (Bh' : 0 <= ((p_rt_head p).[i] + 1) mod 32 < 32) by (apply Z.mod_pos_bound; lia).
      pose proof (rt_update p i _ _ _ (p_rt_info p).[i] O ltac:(lia) (so_fits p O) Bc' Bh' Lr) as U.
      rewrite aset_id in U. replace (32 + i) with s in * by lia. rewrite <- Q in Nm |- *. apply U; [|done].
      intros k Bk. destruct (Z.eqb_spec k (31 + i)) as [->|]; [|done]. rewrite (so_bits p O) by lia. by rewrite !(proj2 (Z.ltb_lt _ _)) by lia.
  - rewrite (proj2 (Z.ltb_lt s 32)) in Q by lia. destruct (Z.testbit _ _) eqn:T; [|done]. injection Q as <- <-.
    destruct (posix_timer_dequeued_locked _ _) as [[x' timers'] ended] eqn:D. cbn [fst snd]. eexists. split; [done|].
    pose proof (std_update p (s - 1) _ false false (p_std_info p).[s - 1] O ltac:(lia) Fw ltac:(done) Bits) as U.
    rewrite aset_id in U. by replace (s - 1 + 1) with s in U by lia.
Qed.

(** ** Discarding *)

Definition keeps (id : Z) (l : list signal_rt_info_t) : list signal_rt_info_t := filter (fun e => timer_entry id e = false) l.

Lemma keeps_app id l l' : keeps id (l ++ l') = keeps id l ++ keeps id l'.
Proof. apply list.filter_app. Qed.

Lemma keeps_one id e : keeps id [e] = if timer_entry id e then [] else [e].
Proof. unfold keeps. rewrite list.filter_cons, list.filter_nil. by destruct (timer_entry id e). Qed.

Lemma length_keeps id l : (length (keeps id l) <= length l)%nat.
Proof. apply list.length_filter. Qed.

Lemma elem_of_keeps id l e : e ∈ keeps id l <-> timer_entry id e = false /\ e ∈ l.
Proof. unfold keeps. by rewrite list_elem_of_filter. Qed.

Lemma keeps_Forall id (P : signal_rt_info_t -> Prop) l : Forall P l -> Forall P (keeps id l).
Proof. rewrite !list.Forall_forall. intros H e [_ X]%elem_of_keeps. auto. Qed.

(** Writing back at or below the entry just read never touches an entry still to be
    read. *)
Lemma compact_spec h id r c : 0 <= c <= 32 -> length r = 32%nat ->
  exists r', compact h id c r = (Z.of_nat (length (keeps id (ring_list h c r))), r') /\ length r' = 32%nat /\
    ring_list h (Z.of_nat (length (keeps id (ring_list h c r)))) r' = keeps id (ring_list h c r).
Proof.
  intros Bc Lr. cut (exists r', compact h id c r = (Z.of_nat (length (keeps id (ring_list h c r))), r') /\ length r' = 32%nat /\
    ring_list h (Z.of_nat (length (keeps id (ring_list h c r)))) r' = keeps id (ring_list h c r) /\
    forall m, c <= m < 32 -> r'.[(h + m) mod 32] = r.[(h + m) mod 32]).
  { intros (r' & E & L & Q & _). by exists r'. }
  assert (P0 : 0 <= c) by lia. revert Bc. pattern c. apply Z_lt_induction; [|done]. clear c P0. intros c IH Bc.
  destruct (Z.eq_dec c 0) as [->|N]; [by exists r|].
  destruct (IH (c - 1) ltac:(lia) ltac:(lia)) as (r1 & E1 & L1 & Q1 & K1). set (l1 := ring_list h (c - 1) r) in *.
  assert (El : ring_list h c r = l1 ++ [r.[(h + (c - 1)) mod 32]]).
  { replace c with (c - 1 + 1) at 1 by lia. by rewrite ring_list_app, ring_list_one by lia. }
  assert (Len : 0 <= Z.of_nat (length (keeps id l1)) <= c - 1).
  { pose proof (length_keeps id l1). unfold l1 in *. rewrite length_ring_list in *. lia. }
  assert (Es : seqZ 0 c = seqZ 0 (c - 1) ++ [c - 1]).
  { rewrite <- (Z.sub_add 1 c) at 1. rewrite seqZ_app by lia. by rewrite Z.add_0_l. }
  unfold compact in *. rewrite Es.
  rewrite foldl_app, E1. cbn [foldl compact_entry]. unfold RT_SIGQUEUE_MAX. rewrite (K1 (c - 1)) by lia. rewrite El, keeps_app.
  set (x := r.[(h + (c - 1)) mod 32]). rewrite keeps_one. destruct (timer_entry id x) eqn:T.
  - rewrite app_nil_r. exists r1. split_and!; [done|done|done|]. intros m Bm. apply K1. lia.
  - rewrite length_app. cbn [length]. rewrite Nat2Z.inj_add. change (Z.of_nat 1) with 1. eexists. split_and!; [done|by rewrite length_aset| |].
    + rewrite ring_list_snoc by (done || lia). by rewrite Q1.
    + intros m Bm. rewrite aget_aset_ne; [apply K1; lia|apply Z.mod_pos_bound; lia|apply Z.mod_pos_bound; lia|apply mod32_ne; lia].
Qed.

Lemma discard_std_only id p s : set_ok p -> 1 <= s < 32 -> exists p' changed, discard_signal id p s = (p', changed) /\
  (Z.testbit (p_pending p) (s - 1) = true -> only s (keeps id (queued p s)) p p' /\ (keeps id (queued p s) = [] -> changed = true)).
Proof.
  intros O Bs. unfold discard_signal, LINUX_SIGRTMIN. rewrite (proj2 (Z.ltb_lt s 32)) by lia.
  assert (Q : Z.testbit (p_pending p) (s - 1) = true -> queued p s = [signal_standard_peek_locked pid uid p s]).
  { intros T. unfold queued. by rewrite (proj2 (Z.ltb_lt s 32)), T by lia. }
  unfold signal_standard_peek_locked in Q. destruct (p_std_valid p).[s - 1] eqn:V; cbn [negb orb].
  - destruct (timer_entry id (p_std_info p).[s - 1]) eqn:T; cbn [negb]; eexists _, _; (split; [done|]); intros B; rewrite (Q B), keeps_one, T.
    + split; [|done]. pose proof (std_update p (s - 1) (Z.land (p_pending p) (not64 (sig_bit s))) false false (p_std_info p).[s - 1] O ltac:(lia)
        (land_fits _ _ (so_fits p O)) ltac:(done)) as U.
      rewrite aset_id in U. replace (s - 1 + 1) with s in U by lia. apply U. intros k Bk. rewrite testbit_clear by lia.
      by destruct (k =? s - 1); rewrite ?andb_false_r, ?andb_true_r.
    + split; [|done]. split; [done|]. by rewrite (Q B).
  - eexists _, _. split; [done|]. intros B. rewrite (Q B), keeps_one. cbn. split; [|done]. split; [done|]. by rewrite (Q B).
Qed.

Lemma discard_rt_only id p s : set_ok p -> 32 <= s <= 64 -> exists p' changed, discard_signal id p s = (p', changed) /\
  only s (keeps id (queued p s)) p p' /\ (queued p s <> [] -> keeps id (queued p s) = [] -> changed = true).
Proof.
  intros O Bs. assert (Vs : valid_signal s) by (unfold valid_signal; lia). unfold discard_signal, LINUX_SIGRTMIN. rewrite (proj2 (Z.ltb_ge s 32)) by lia. set (i := s - 32).
  pose proof (so_counts p O i ltac:(lia)) as Bc. pose proof (so_heads p O i ltac:(lia)) as Bh. pose proof (so_ring p O i ltac:(lia)) as Lr.
  assert (Q : queued p s = rt_list p i) by (unfold queued; by rewrite (proj2 (Z.ltb_ge s 32)) by lia). unfold rt_list in Q.
  pose proof (so_named p O s Vs) as Nm. rewrite Q in *.
  destruct (compact_spec (p_rt_head p).[i] id (p_rt_info p).[i] (p_rt_queue p).[i] Bc Lr) as (r' & -> & Lr' & Qr'). set (l := ring_list _ _ _) in *.
  assert (Ll : Z.of_nat (length l) = (p_rt_queue p).[i]) by (unfold l; rewrite length_ring_list; lia). pose proof (length_keeps id l) as Lk.
  assert (Nk : Forall (fun e => si_signum e = 32 + i) (keeps id l)) by (replace (32 + i) with s by lia; by apply keeps_Forall).
  assert (Bk' : 0 <= Z.of_nat (length (keeps id l)) <= 32) by lia.
  assert (Bit : Z.testbit (p_pending p) (31 + i) = (0 <? (p_rt_queue p).[i])) by (apply O; lia).
  destruct (Z.eqb_spec (Z.of_nat (length (keeps id l))) (p_rt_queue p).[i]) as [E|E].
  - eexists _, _. split; [done|]. split.
    + pose proof (rt_update p i (p_pending p) (Z.of_nat (length (keeps id l))) (p_rt_head p).[i] r' O ltac:(lia) (so_fits p O) Bk' Bh Lr') as U.
      rewrite E in U at 3. rewrite !aset_id, Qr' in U. replace (32 + i) with s in * by lia. apply U; [|done].
      intros k Bk. rewrite E. by destruct (Z.eqb_spec k (31 + i)) as [->|].
    + intros N K. exfalso. rewrite K in E. apply N, nil_length_inv. cbn in E. lia.
  - eexists _, _. split; [done|]. split; [|done]. destruct (Z.eqb_spec (Z.of_nat (length (keeps id l))) 0) as [K|K].
    + cbn [set_ring pending_clear set_pending p_pending p_std_valid p_std_info p_rt_queue p_rt_head p_rt_info]. rewrite K in *. assert (K' : keeps id l = []) by (apply nil_length_inv; lia).
      pose proof (rt_update p i (Z.land (p_pending p) (not64 (sig_bit s))) 0 0 r' O ltac:(lia) (land_fits _ _ (so_fits p O)) ltac:(lia) ltac:(lia) Lr') as U.
      rewrite K'. replace (32 + i) with s in * by lia. apply U; [|done]. intros k Bk. rewrite testbit_clear by lia. replace (31 + i) with (s - 1) by lia.
      by destruct (k =? s - 1); rewrite ?andb_false_r, ?andb_true_r.
    + pose proof (rt_update p i (p_pending p) (Z.of_nat (length (keeps id l))) (p_rt_head p).[i] r' O ltac:(lia) (so_fits p O) Bk' Bh Lr') as U.
      rewrite aset_id, Qr' in U. replace (32 + i) with s in * by lia. apply U; [|done].
      intros k Bk. destruct (Z.eqb_spec k (31 + i)) as [->|]; [|done]. rewrite Bit. by rewrite !(proj2 (Z.ltb_lt 0 _)) by lia.
Qed.

(** One round of the loop, on a signal that is pending. *)
Lemma discard_only id p s : set_ok p -> valid_signal s -> queued p s <> [] -> exists p' changed, discard_signal id p s = (p', changed) /\
  only s (keeps id (queued p s)) p p' /\ changed && negb (has (p_pending p') (sig_bit s)) = bool_decide (keeps id (queued p s) = []).
Proof.
  intros O Bs N. assert (R : exists p' changed, discard_signal id p s = (p', changed) /\ only s (keeps id (queued p s)) p p' /\
    (keeps id (queued p s) = [] -> changed = true)).
  { destruct (Z.lt_ge_cases s 32) as [B|B]; unfold valid_signal in Bs.
    - destruct (discard_std_only id p s O ltac:(lia)) as (p' & ch & E & H). exists p', ch. split; [done|]. apply H. by apply queued_bit.
    - destruct (discard_rt_only id p s O ltac:(lia)) as (p' & ch & E & H & C). exists p', ch. auto. }
  destruct R as (p' & ch & E & U & C). exists p', ch. split; [done|]. split; [done|]. destruct U as (O' & Q & _).
  rewrite has_sig, (pending_queued p' s O' Bs), Q by done. destruct (decide (keeps id (queued p s) = [])) as [K|K].
  - by rewrite (C K), (bool_decide_eq_false_2 (_ <> [])), (bool_decide_eq_true_2 (_ = [])) by tauto.
  - rewrite (bool_decide_eq_false_2 (_ = [])), (bool_decide_eq_true_2 (_ <> [])) by done. apply andb_false_r.
Qed.

Lemma discard_loop id bits : forall q acc, set_ok q -> NoDup bits -> (forall i, i ∈ bits -> valid_signal (i + 1) /\ queued q (i + 1) <> []) ->
    exists p' released, foldl (discard_round id) (q, acc) bits = (p', released) /\ set_ok p' /\
      (forall s, valid_signal s -> queued p' s = if bool_decide (s - 1 ∈ bits) then keeps id (queued q s) else queued q s) /\
      (forall s, s ∈ released <-> s ∈ acc \/ (s - 1 ∈ bits /\ keeps id (queued q s) = [])).
Proof.
  induction bits as [|i bits IH]; intros q acc Oq Nd Hb; cbn [foldl].
  { exists q, acc. split_and!; [done|done|done|]. intros s. rewrite elem_of_nil. tauto. }
  apply list.NoDup_cons in Nd as [Ni Nd]. destruct (Hb i ltac:(by left)) as [Vi Qi].
  destruct (discard_only id q (i + 1) Oq Vi Qi) as (q1 & ch & E & (O1 & Q1 & R1) & Ch). cbn [discard_round]. rewrite E, Ch.
  assert (Keep : forall j, j ∈ bits -> j + 1 <> i + 1) by (intros j Hj Ej; assert (j = i) as -> by lia; done).
  destruct (IH q1 (if bool_decide (keeps id (queued q (i + 1)) = []) then acc ++ [i + 1] else acc) O1 Nd) as (p' & rel & Ep & Op & Qp & Rp).
  { intros j Hj. destruct (Hb j ltac:(by right)) as [Vj Qj]. split; [done|]. by rewrite R1 by auto. }
  exists p', rel. split_and!; [done|done| |].
  - intros s Vs. rewrite (Qp s Vs). destruct (Z.eq_dec s (i + 1)) as [->|Ns].
    + rewrite Z.add_simpl_r, bool_decide_eq_false_2 by done. rewrite bool_decide_eq_true_2 by (by left). done.
    + rewrite R1 by done. assert (s - 1 ∈ i :: bits <-> s - 1 ∈ bits) as X by (rewrite elem_of_cons; split; [intros [?|?]; [lia|done]|by right]).
      by rewrite (bool_decide_ext _ _ X).
  - intros s. rewrite Rp. setoid_rewrite elem_of_cons. split.
    + intros [A|[A B]].
      * case_bool_decide as K; [|by left]. apply elem_of_app in A as [A|A%list_elem_of_singleton]; [by left|]. subst s. right. rewrite Z.add_simpl_r. auto.
      * right. destruct (Hb (s - 1) ltac:(by right)) as [Vj _]. rewrite Z.sub_add in Vj. rewrite R1 in B; [auto|done|]. specialize (Keep _ A). lia.
    + intros [A|[[A|A] B]].
      * left. case_bool_decide; [apply elem_of_app; by left|done].
      * left. assert (s = i + 1) as -> by lia. rewrite bool_decide_eq_true_2 by done. apply elem_of_app. right. by left.
      * right. split; [done|]. destruct (Hb (s - 1) ltac:(by right)) as [Vj _]. rewrite Z.sub_add in Vj. rewrite R1; [done|done|]. specialize (Keep _ A). lia.
Qed.

(** The whole loop removes exactly the entries of the timer, everywhere. *)
Lemma discard_all id p : set_ok p -> exists p' released, posix_timer_discard_pending_locked p id = (p', released) /\ set_ok p' /\
  (forall s, valid_signal s -> queued p' s = keeps id (queued p s)) /\
  (forall s, s ∈ released <-> valid_signal s /\ queued p s <> [] /\ queued p' s = []).
Proof.
  intros O. unfold posix_timer_discard_pending_locked.
  assert (Mem : forall i, i ∈ set_bits (p_pending p) <-> valid_signal (i + 1) /\ queued p (i + 1) <> []).
  { intros i. rewrite elem_of_set_bits by apply O. unfold valid_signal. split.
    - intros [B T]. split; [lia|]. apply queued_bit; [done|unfold valid_signal; lia|]. by rewrite Z.add_simpl_r.
    - intros [B N]. apply queued_bit in N; [|done|done]. rewrite Z.add_simpl_r in N. split; [lia|done]. }
  destruct (discard_loop id (set_bits (p_pending p)) p [] O (set_bits_NoDup _ (so_fits p O)) (fun i => proj1 (Mem i))) as (p' & rel & E & O' & Q & R).
  exists p', rel. assert (Q' : forall s, valid_signal s -> queued p' s = keeps id (queued p s)).
  { intros s Vs. rewrite (Q s Vs). case_bool_decide as B; [done|]. rewrite Mem, Z.sub_add in B. destruct (decide (queued p s = [])) as [->|]; [done|tauto]. }
  split_and!; [done|done|done|]. intros s. rewrite R, elem_of_nil, Mem, Z.sub_add. split.
  - intros [[]|[[Vs N] K]]. by rewrite (Q' s Vs).
  - intros (Vs & N & K). rewrite (Q' s Vs) in K. auto.
Qed.

End Queued.
