(* ===== verification/Signal.v ===== *)
(** * Signals: queues, masks, claims and timers (src/syscall/signal.c)

    The state that sig_lock protects and the operations on it.  A function here is
    one critical section, together with what its caller does right before and after
    it without the lock; host services that are told of a change (the signalfd pipe,
    the wakeup pipe, the vCPU kick) are recorded as events.  [cur] is current_thread,
    the index of the calling thread in the thread table; [None] is early startup. *)

From S2P Require Import Prelude Bits FutexWord SigQueue.

(** ** Numbers *)

Definition LINUX_SIGALRM : Z := 14.
Definition LINUX_SIGCHLD : Z := 17.
Definition LINUX_SIGVTALRM : Z := 26.
Definition LINUX_SIGPROF : Z := 27.
Definition LINUX_SIG_DFL : Z := 0.
Definition LINUX_SIG_IGN : Z := 1.
Definition LINUX_SA_SIGINFO : Z := 4.
Definition LINUX_SA_NOCLDWAIT : Z := 2.
Definition LINUX_SA_ONSTACK : Z := 134217728.
Definition LINUX_SA_RESTART : Z := 268435456.
Definition LINUX_SA_NODEFER : Z := 1073741824.
Definition LINUX_SA_RESETHAND : Z := 2147483648.
Definition LINUX_SS_ONSTACK : Z := 1.
Definition LINUX_SS_DISABLE : Z := 2.
Definition LINUX_EAGAIN : Z := 11.
Definition LINUX_ENOSYS : Z := 38.

(** ** Dispositions *)

Inductive sig_disposition_t := SIG_DISP_TERM | SIG_DISP_IGN | SIG_DISP_CORE | SIG_DISP_STOP | SIG_DISP_CONT.

Definition default_dispositions : list sig_disposition_t :=
  [SIG_DISP_IGN;
   SIG_DISP_TERM; SIG_DISP_TERM; SIG_DISP_CORE; SIG_DISP_CORE; SIG_DISP_CORE; SIG_DISP_CORE; SIG_DISP_CORE; SIG_DISP_CORE;
   SIG_DISP_TERM; SIG_DISP_TERM; SIG_DISP_CORE; SIG_DISP_TERM; SIG_DISP_TERM; SIG_DISP_TERM; SIG_DISP_TERM; SIG_DISP_TERM;
   SIG_DISP_IGN; SIG_DISP_CONT; SIG_DISP_STOP; SIG_DISP_STOP; SIG_DISP_STOP; SIG_DISP_STOP; SIG_DISP_IGN; SIG_DISP_CORE;
   SIG_DISP_CORE; SIG_DISP_TERM; SIG_DISP_TERM; SIG_DISP_IGN; SIG_DISP_TERM; SIG_DISP_TERM; SIG_DISP_CORE].

#[global] Instance disposition_inhabited : Inhabited sig_disposition_t := populate SIG_DISP_TERM.

Definition signal_default_disposition (signum : Z) : sig_disposition_t :=
  if (signum <? 1) || (LINUX_NSIG <? signum) then SIG_DISP_IGN
  else if LINUX_SIGRTMIN <=? signum then SIG_DISP_TERM
  else default_dispositions.[signum].

(** ** Data *)

Record linux_sigaction_t := mk_act { sa_handler : Z; sa_flags : Z; sa_restorer : Z; sa_mask : Z }.
#[global] Instance act_inhabited : Inhabited linux_sigaction_t := populate (mk_act 0 0 0 0).

(** The signal fields of thread_entry_t. *)
Record thread_sig := mk_thread {
  th_active : bool;
  th_tid : Z;
  th_blocked : Z;
  th_saved : Z;
  th_saved_valid : bool;
  th_pending : signal_pending_t;
  th_alt_sp : Z;
  th_alt_flags : Z;
  th_alt_size : Z;
  th_on_alt : bool
}.

Definition zero_thread : thread_sig := mk_thread false 0 0 0 false empty_pending 0 0 0 false.
#[global] Instance thread_sig_inhabited : Inhabited thread_sig := populate zero_thread.

Definition set_th_active (v : bool) (t : thread_sig) : thread_sig :=
  mk_thread v (th_tid t) (th_blocked t) (th_saved t) (th_saved_valid t) (th_pending t) (th_alt_sp t) (th_alt_flags t) (th_alt_size t) (th_on_alt t).
Definition set_th_blocked (v : Z) (t : thread_sig) : thread_sig :=
  mk_thread (th_active t) (th_tid t) v (th_saved t) (th_saved_valid t) (th_pending t) (th_alt_sp t) (th_alt_flags t) (th_alt_size t) (th_on_alt t).
Definition set_th_saved (v : Z) (valid : bool) (t : thread_sig) : thread_sig :=
  mk_thread (th_active t) (th_tid t) (th_blocked t) v valid (th_pending t) (th_alt_sp t) (th_alt_flags t) (th_alt_size t) (th_on_alt t).
Definition set_th_pending (p : signal_pending_t) (t : thread_sig) : thread_sig :=
  mk_thread (th_active t) (th_tid t) (th_blocked t) (th_saved t) (th_saved_valid t) p (th_alt_sp t) (th_alt_flags t) (th_alt_size t) (th_on_alt t).
Definition set_th_alt (sp flags size : Z) (on : bool) (t : thread_sig) : thread_sig :=
  mk_thread (th_active t) (th_tid t) (th_blocked t) (th_saved t) (th_saved_valid t) (th_pending t) sp flags size on.

(** The fields of signal_state_t that stand in for a thread before there is one. *)
Record fallback := mk_fallback {
  fb_blocked : Z;
  fb_saved : Z;
  fb_saved_valid : bool;
  fb_alt_sp : Z;
  fb_alt_flags : Z;
  fb_alt_size : Z;
  fb_on_alt : bool
}.

Record timeval := mk_timeval { tv_seconds : Z; tv_usec : Z }.
Record guest_itimer_t := mk_itimer { it_active : bool; it_expiry : timeval; it_interval : timeval }.
Inductive itimer_kind := ITIMER_REAL | ITIMER_VIRTUAL | ITIMER_PROF.

Inductive event :=
  | Notify (signum : Z)
  | Ring
  | Attention
  | Kick (t : nat)
  | Autoreap.

Record posix_timers_t := mk_timers { pts_slots : list guest_posix_timer_t; pts_next_id : Z; pts_next_slot : list Z; pts_need_poll : bool }.

Record signals := mk_signals {
  s_actions : list linux_sigaction_t;
  s_shared : signal_pending_t;
  s_fallback : fallback;
  s_threads : list thread_sig;
  s_hint : Z;
  s_claimed : Z;
  s_owner : list (option nat);
  s_timers : posix_timers_t;
  s_real : guest_itimer_t;
  s_virt : guest_itimer_t;
  s_prof : guest_itimer_t;
  s_parked : Z;
  s_pid : Z;
  s_uid : Z;
  s_events : list event
}.

Definition set_actions a s := mk_signals a (s_shared s) (s_fallback s) (s_threads s) (s_hint s) (s_claimed s) (s_owner s) (s_timers s) (s_real s) (s_virt s) (s_prof s) (s_parked s) (s_pid s) (s_uid s) (s_events s).
Definition set_shared p s := mk_signals (s_actions s) p (s_fallback s) (s_threads s) (s_hint s) (s_claimed s) (s_owner s) (s_timers s) (s_real s) (s_virt s) (s_prof s) (s_parked s) (s_pid s) (s_uid s) (s_events s).
Definition set_fallback f s := mk_signals (s_actions s) (s_shared s) f (s_threads s) (s_hint s) (s_claimed s) (s_owner s) (s_timers s) (s_real s) (s_virt s) (s_prof s) (s_parked s) (s_pid s) (s_uid s) (s_events s).
Definition set_threads l s := mk_signals (s_actions s) (s_shared s) (s_fallback s) l (s_hint s) (s_claimed s) (s_owner s) (s_timers s) (s_real s) (s_virt s) (s_prof s) (s_parked s) (s_pid s) (s_uid s) (s_events s).
Definition set_hint h s := mk_signals (s_actions s) (s_shared s) (s_fallback s) (s_threads s) h (s_claimed s) (s_owner s) (s_timers s) (s_real s) (s_virt s) (s_prof s) (s_parked s) (s_pid s) (s_uid s) (s_events s).
Definition set_claims c o s := mk_signals (s_actions s) (s_shared s) (s_fallback s) (s_threads s) (s_hint s) c o (s_timers s) (s_real s) (s_virt s) (s_prof s) (s_parked s) (s_pid s) (s_uid s) (s_events s).
Definition set_timers t s := mk_signals (s_actions s) (s_shared s) (s_fallback s) (s_threads s) (s_hint s) (s_claimed s) (s_owner s) t (s_real s) (s_virt s) (s_prof s) (s_parked s) (s_pid s) (s_uid s) (s_events s).
Definition set_itimers r v q s := mk_signals (s_actions s) (s_shared s) (s_fallback s) (s_threads s) (s_hint s) (s_claimed s) (s_owner s) (s_timers s) r v q (s_parked s) (s_pid s) (s_uid s) (s_events s).
Definition set_parked n s := mk_signals (s_actions s) (s_shared s) (s_fallback s) (s_threads s) (s_hint s) (s_claimed s) (s_owner s) (s_timers s) (s_real s) (s_virt s) (s_prof s) n (s_pid s) (s_uid s) (s_events s).
Definition emit e s := mk_signals (s_actions s) (s_shared s) (s_fallback s) (s_threads s) (s_hint s) (s_claimed s) (s_owner s) (s_timers s) (s_real s) (s_virt s) (s_prof s) (s_parked s) (s_pid s) (s_uid s) (s_events s ++ e).

Definition set_slots (l : list guest_posix_timer_t) (s : signals) : signals :=
  set_timers (mk_timers l (pts_next_id (s_timers s)) (pts_next_slot (s_timers s)) (pts_need_poll (s_timers s))) s.
Definition upd_thread (i : nat) (f : thread_sig -> thread_sig) (s : signals) : signals := set_threads (alter f i (s_threads s)) s.
Definition thread_at (s : signals) (i : nat) : thread_sig := s_threads s !!! i.

(** ** Masks *)

Definition unmaskable : Z := Z.lor (sig_bit LINUX_SIGKILL) (sig_bit LINUX_SIGSTOP).

(** thread_blocked_ptr, thread_saved_blocked_ptr and thread_saved_valid_ptr, read and
    written. *)
Definition blocked_of (s : signals) (cur : option nat) : Z :=
  match cur with Some i => th_blocked (thread_at s i) | None => fb_blocked (s_fallback s) end.
Definition saved_of (s : signals) (cur : option nat) : Z :=
  match cur with Some i => th_saved (thread_at s i) | None => fb_saved (s_fallback s) end.
Definition saved_valid_of (s : signals) (cur : option nat) : bool :=
  match cur with Some i => th_saved_valid (thread_at s i) | None => fb_saved_valid (s_fallback s) end.
Definition store_blocked (cur : option nat) (v : Z) (s : signals) : signals :=
  match cur with
  | Some i => upd_thread i (set_th_blocked v) s
  | None => let f := s_fallback s in
      set_fallback (mk_fallback v (fb_saved f) (fb_saved_valid f) (fb_alt_sp f) (fb_alt_flags f) (fb_alt_size f) (fb_on_alt f)) s
  end.
Definition store_saved (cur : option nat) (v : Z) (valid : bool) (s : signals) : signals :=
  match cur with
  | Some i => upd_thread i (set_th_saved v valid) s
  | None => let f := s_fallback s in
      set_fallback (mk_fallback (fb_blocked f) v valid (fb_alt_sp f) (fb_alt_flags f) (fb_alt_size f) (fb_on_alt f)) s
  end.

Definition signal_save_blocked (s : signals) (cur : option nat) : Z := blocked_of s cur.
Definition signal_set_blocked (cur : option nat) (mask : Z) (s : signals) : signals := store_blocked cur (Z.land mask (not64 unmaskable)) s.
Definition signal_restore_blocked (cur : option nat) (saved : Z) (s : signals) : signals := store_blocked cur (Z.land saved (not64 unmaskable)) s.
Definition signal_defer_restore_blocked (cur : option nat) (saved : Z) (s : signals) : signals :=
  store_saved cur (Z.land saved (not64 unmaskable)) true s.
Definition signal_restore_saved_blocked (cur : option nat) (s : signals) : signals :=
  if negb (saved_valid_of s cur) then s
  else store_saved cur (saved_of s cur) false (store_blocked cur (saved_of s cur) s).

(** ** The thread table, as far as signals read it *)

Definition thread_pending_union (s : signals) : Z :=
  foldr (fun t u => if th_active t then Z.lor (p_pending (th_pending t)) u else u) 0 (s_threads s).
Definition thread_signal_deliverable (s : signals) (sigbit : Z) : bool :=
  existsb (fun t => th_active t && has sigbit (not64 (th_blocked t))) (s_threads s).
Definition thread_find_locked (s : signals) (tid : Z) : option nat :=
  fst <$> list_find (fun t => th_active t = true /\ th_tid t = tid) (s_threads s).
Definition thread_kick_futex_waiters (s : signals) (cur : option nat) (shared_pending : Z) : list event :=
  omap (fun '(i, t) =>
    if th_active t && negb (bool_decide (cur = Some i)) && has (Z.lor (p_pending (th_pending t)) shared_pending) (not64 (th_blocked t))
    then Some (Kick i) else None) (zip (seq 0 (length (s_threads s))) (s_threads s)).

(** ** Hint, claims and visibility *)

Definition refresh_pending_hint_locked (s : signals) : signals := set_hint (Z.lor (p_pending (s_shared s)) (thread_pending_union s)) s.

Definition shared_claim_release_locked (signum : Z) (s : signals) : signals :=
  set_claims (Z.land (s_claimed s) (not64 (sig_bit signum))) (s_owner s).[signum - 1 := None] s.

(** A claimed signal is hidden while its claimer leaves it unblocked.  A claimed bit
    has an owner; the third case is never reached. *)
Definition hide_claimed (s : signals) (cur : option nat) (shared idx : Z) : Z :=
  let owner := (s_owner s).[idx] in
  if bool_decide (owner = cur) then shared
  else
    match owner with
    | Some o => if has (th_blocked (thread_at s o)) (Z.shiftl 1 idx) then shared else Z.land shared (not64 (Z.shiftl 1 idx))
    | None => shared
    end.
Definition shared_visible_locked (s : signals) (cur : option nat) : Z :=
  let shared := p_pending (s_shared s) in
  foldl (hide_claimed s cur) shared (set_bits (Z.land (s_claimed s) shared)).

Definition own_pending (s : signals) (cur : option nat) : Z := match cur with Some i => p_pending (th_pending (thread_at s i)) | None => 0 end.
Definition self_pending_locked (s : signals) (cur : option nat) : Z := Z.lor (shared_visible_locked s cur) (own_pending s cur).

Definition signal_release_claims_locked (t : nat) (s : signals) : signals * bool :=
  foldl (fun '(s, released) idx =>
    if bool_decide ((s_owner s).[idx] = Some t) then (shared_claim_release_locked (idx + 1) s, true) else (s, released))
    (s, false) (set_bits (s_claimed s)).

(** ** Telling the host *)

Definition attention_raise (cur : option nat) (s : signals) : signals :=
  emit ([Attention; Ring] ++ thread_kick_futex_waiters s cur (p_pending (s_shared s))) s.
Definition ring_parked (s : signals) : signals := if 0 <? s_parked s then emit [Ring] s else s.
Definition signal_notify_waiters (signum : Z) (s : signals) : signals := ring_parked (emit [Notify signum] s).
Definition signal_should_interrupt (s : signals) (signum : Z) : bool :=
  sig_uncatchable signum || thread_signal_deliverable s (sig_bit signum).

Definition signal_release_claims (cur : option nat) (t : nat) (s : signals) : signals :=
  let '(s, released) := signal_release_claims_locked t s in if released then attention_raise cur s else s.
Definition signal_refresh_pending_hint (s : signals) : signals := refresh_pending_hint_locked s.

(** ** Queueing *)

(** signal_queue with no siginfo, signal_queue_info with one. *)
Definition signal_queue_shared (cur : option nat) (signum : Z) (info : option signal_rt_info_t) (s : signals) : signals :=
  if (signum <? 1) || (LINUX_NSIG <? signum) then s
  else
    let s := set_shared (signal_enqueue_locked (s_pid s) (s_uid s) (s_shared s) signum info) s in
    let s := refresh_pending_hint_locked s in
    let s := signal_notify_waiters signum s in
    if signal_should_interrupt s signum then attention_raise cur s else s.
Definition signal_queue (cur : option nat) (signum : Z) (s : signals) : signals := signal_queue_shared cur signum None s.
Definition signal_queue_info (cur : option nat) (signum si_code si_pid si_uid si_int si_ptr : Z) (s : signals) : signals :=
  signal_queue_shared cur signum (Some (mk_info signum si_code si_pid si_uid si_int si_ptr)) s.

Definition signal_queue_thread_common (cur : option nat) (tid signum : Z) (info : option signal_rt_info_t) (s : signals) : bool * signals :=
  if (signum <? 1) || (LINUX_NSIG <? signum) then (false, s)
  else
    match thread_find_locked s tid with
    | None => (false, s)
    | Some t =>
        let s := upd_thread t (fun th => set_th_pending (signal_enqueue_locked (s_pid s) (s_uid s) (th_pending th) signum info) th) s in
        let s := refresh_pending_hint_locked s in
        let blocked := th_blocked (thread_at s t) in
        let s := signal_notify_waiters signum s in
        (true, if sig_uncatchable signum || negb (has blocked (sig_bit signum)) then attention_raise cur s else s)
    end.
Definition signal_queue_thread (cur : option nat) (tid signum : Z) (s : signals) : bool * signals := signal_queue_thread_common cur tid signum None s.
Definition signal_queue_thread_info (cur : option nat) (tid signum si_code si_pid si_uid si_int si_ptr : Z) (s : signals) : bool * signals :=
  signal_queue_thread_common cur tid signum (Some (mk_info signum si_code si_pid si_uid si_int si_ptr)) s.

(** ** Testing *)

Definition signal_pending (s : signals) (cur : option nat) : bool :=
  if Z.land (s_hint s) (not64 (blocked_of s cur)) =? 0 then false
  else negb (Z.land (self_pending_locked s cur) (not64 (blocked_of s cur)) =? 0).

(** What signal_deliver does with a signal the guest has not installed a handler
    for: nothing the guest can see, or the end of the process. *)
Definition discarded (s : signals) (idx : Z) : bool :=
  let act := (s_actions s).[idx] in
  if sa_handler act =? LINUX_SIG_IGN then true
  else if sa_handler act =? LINUX_SIG_DFL then
    match signal_default_disposition (idx + 1) with SIG_DISP_IGN | SIG_DISP_CONT | SIG_DISP_STOP => true | SIG_DISP_TERM | SIG_DISP_CORE => false end
  else false.

(** Whether the wait ends, and whether every handler that would run restarts calls. *)
Definition interruption_round (s : signals) (acc : bool * bool) (idx : Z) : bool * bool :=
  let act := (s_actions s).[idx] in
  if discarded s idx then acc
  else if sa_handler act =? LINUX_SIG_DFL then (true, false)
  else (true, acc.2 && has (sa_flags act) LINUX_SA_RESTART).
Definition signal_pending_interruption (s : signals) (cur : option nat) : bool * bool :=
  if Z.land (s_hint s) (not64 (blocked_of s cur)) =? 0 then (false, false)
  else
    let deliverable := Z.land (self_pending_locked s cur) (not64 (blocked_of s cur)) in
    let '(any_interrupt, all_restart) := foldl (interruption_round s) (false, true) (set_bits deliverable) in
    (any_interrupt, any_interrupt && all_restart).

Definition signal_attention_needed (s : signals) : bool :=
  (negb (s_hint s =? 0) && thread_signal_deliverable s (s_hint s)) ||
  it_active (s_real s) || it_active (s_virt s) || it_active (s_prof s) || pts_need_poll (s_timers s).

Definition signal_signalfd_pending_mask (s : signals) (cur : option nat) : Z := self_pending_locked s cur.

(** ** Waking and claiming *)

(** The first signal of the set that would reach the guest, or 0. *)
Definition signal_first_waking_locked (s : signals) (candidates : Z) : Z :=
  match list_find (fun idx => discarded s idx = false) (set_bits candidates) with Some (_, idx) => idx + 1 | None => 0 end.

Definition signal_claim_waking_locked (cur : option nat) (blocked : Z) (s : signals) : Z * signals :=
  let signum := signal_first_waking_locked s (match cur with Some _ => Z.land (own_pending s cur) (not64 blocked) | None => 0 end) in
  if negb (signum =? 0) then (signum, s)
  else
    let signum := signal_first_waking_locked s (Z.land (shared_visible_locked s cur) (not64 blocked)) in
    if negb (signum =? 0) && bool_decide (is_Some cur) then
      (signum, set_claims (Z.lor (s_claimed s) (sig_bit signum)) (s_owner s).[signum - 1 := cur] s)
    else (signum, s).

(** ** Taking *)

(** Take a signal out of the calling thread's set ([None]: the shared set). *)
Definition dequeue_locked (src : option nat) (signum : Z) (s : signals) : signal_rt_info_t * signals :=
  let p := match src with Some i => th_pending (thread_at s i) | None => s_shared s end in
  let '(info, p, timers, ended) := take_locked (s_pid s) (s_uid s) (pts_slots (s_timers s)) p signum in
  let s := set_slots timers s in
  let s := if ended then ring_parked s else s in
  let s := match src with Some i => upd_thread i (set_th_pending p) s | None => shared_claim_release_locked signum (set_shared p s) end in
  (info, refresh_pending_hint_locked s).

(** The signal signal_deliver_one chooses, and the set it takes it from. *)
Definition claimed_by (s : signals) (cur : option nat) (within : Z) : Z :=
  foldl (fun acc idx => if bool_decide ((s_owner s).[idx] = cur) then Z.lor acc (Z.shiftl 1 idx) else acc) 0 (set_bits (Z.land (s_claimed s) within)).
Definition deliver_pick (s : signals) (cur : option nat) : option (Z * option nat) :=
  let self_blocked := blocked_of s cur in
  let thread_d := match cur with Some _ => Z.land (own_pending s cur) (not64 self_blocked) | None => 0 end in
  let shared_d := Z.land (shared_visible_locked s cur) (not64 self_blocked) in
  if Z.lor thread_d shared_d =? 0 then None
  else
    let claimed_here := match cur with Some _ => if saved_valid_of s cur then claimed_by s cur shared_d else 0 | None => 0 end in
    if negb (claimed_here =? 0) then Some (bit_ctz64 claimed_here + 1, None)
    else if negb (thread_d =? 0) then Some (bit_ctz64 thread_d + 1, cur)
    else Some (bit_ctz64 shared_d + 1, None).

Definition sigtimedwait_try_dequeue (cur : option nat) (mask : Z) (s : signals) : option (Z * signal_rt_info_t) * signals :=
  let thread_m := match cur with Some _ => Z.land (own_pending s cur) mask | None => 0 end in
  let shared_m := Z.land (shared_visible_locked s cur) mask in
  if Z.lor thread_m shared_m =? 0 then (None, s)
  else
    let '(signum, src) := if negb (thread_m =? 0) then (bit_ctz64 thread_m + 1, cur) else (bit_ctz64 shared_m + 1, None) in
    let '(info, s) := dequeue_locked src signum s in
    (Some (signum, info), s).

(** ** signalfd *)

(** The sets signalfd reads, in order; [None] is the shared one. *)
Definition signalfd_sets (cur : option nat) : list (option nat) := match cur with Some i => [Some i; None] | None => [None] end.
Definition set_of (s : signals) (src : option nat) : signal_pending_t := match src with Some i => th_pending (thread_at s i) | None => s_shared s end.

Definition peek_signal (s : signals) (p : signal_pending_t) (signum : Z) : list signal_rt_info_t :=
  if LINUX_SIGRTMIN <=? signum then
    let idx := signum - LINUX_SIGRTMIN in
    (fun n => (p_rt_info p).[idx].[((p_rt_head p).[idx] + n) mod RT_SIGQUEUE_MAX]) <$> seqZ 0 (p_rt_queue p).[idx]
  else [signal_standard_peek_locked (s_pid s) (s_uid s) p signum].
Definition peek_set (s : signals) (cur : option nat) (mask : Z) (src : option nat) : list signal_rt_info_t :=
  let avail := match src with Some _ => p_pending (set_of s src) | None => shared_visible_locked s cur end in
  concat ((fun signum => if has mask (sig_bit signum) && has avail (sig_bit signum) then peek_signal s (set_of s src) signum else []) <$> seqZ 1 LINUX_NSIG).

(** Each siginfo with the index of the set it was found in; [total < max] cuts the
    loops off after [max] of them. *)
Definition signal_peek_signalfd (s : signals) (cur : option nat) (mask : Z) (max : nat) : list (signal_rt_info_t * nat) :=
  take max (concat (imap (fun n src => (fun info => (info, n)) <$> peek_set s cur mask src) (signalfd_sets cur))).

Definition same_info (a b : signal_rt_info_t) : bool :=
  (si_signum a =? si_signum b) && (si_code a =? si_code b) && (si_pid a =? si_pid b) && (si_uid a =? si_uid b) && (si_int a =? si_int b) && (si_ptr a =? si_ptr b).

(** One round: [None] is the break. *)
Definition take_signalfd_one (cur : option nat) (want : signal_rt_info_t) (n : nat) (s : signals) : option signals :=
  let signum := si_signum want in
  if (signum <=? 0) || (LINUX_NSIG <? signum) then None
  else
    match signalfd_sets cur !! n with
    | None => None
    | Some src =>
        let p := set_of s src in
        if negb (has (p_pending p) (sig_bit signum)) then None
        else
          let idx := signum - LINUX_SIGRTMIN in
          if (LINUX_SIGRTMIN <=? signum) && ((p_rt_queue p).[idx] <=? 0) then None
          else
            let head := if LINUX_SIGRTMIN <=? signum then (p_rt_info p).[idx].[(p_rt_head p).[idx]] else signal_standard_peek_locked (s_pid s) (s_uid s) p signum in
            if negb (same_info head want) then None
            else
              let '(_, p, timers, ended) := take_locked (s_pid s) (s_uid s) (pts_slots (s_timers s)) p signum in
              let s := set_slots timers s in
              let s := if ended then ring_parked s else s in
              Some (match src with Some i => upd_thread i (set_th_pending p) s | None => shared_claim_release_locked signum (set_shared p s) end)
    end.
Fixpoint take_signalfd_loop (cur : option nat) (expected : list (signal_rt_info_t * nat)) (s : signals) : nat * signals :=
  match expected with
  | [] => (0%nat, s)
  | (want, n) :: rest =>
      match take_signalfd_one cur want n s with
      | None => (0%nat, s)
      | Some s => let '(total, s) := take_signalfd_loop cur rest s in (S total, s)
      end
  end.
Definition signal_take_signalfd_exact (cur : option nat) (expected : list (signal_rt_info_t * nat)) (s : signals) : nat * signals :=
  let '(total, s) := take_signalfd_loop cur expected s in (total, refresh_pending_hint_locked s).

(** ** Interval timers *)

Definition LONG_MAX : Z := 9223372036854775807.

Definition timeval_cmp (a b : timeval) : Z :=
  if negb (tv_seconds a =? tv_seconds b) then if tv_seconds a <? tv_seconds b then -1 else 1
  else if negb (tv_usec a =? tv_usec b) then if tv_usec a <? tv_usec b then -1 else 1
  else 0.
Definition timeval_add (a b : timeval) : timeval :=
  if (0 <? tv_seconds a) && (0 <? tv_seconds b) && (LONG_MAX - tv_seconds b <? tv_seconds a) then mk_timeval LONG_MAX 999999
  else
    let sec := tv_seconds a + tv_seconds b in
    let usec := tv_usec a + tv_usec b in
    if 1000000 <=? usec then
      if sec =? LONG_MAX then mk_timeval sec 999999 else mk_timeval (sec + 1) (usec - 1000000)
    else mk_timeval sec usec.
Definition timeval_sub (a b : timeval) : timeval :=
  let sec := tv_seconds a - tv_seconds b in
  let usec := tv_usec a - tv_usec b in
  let '(sec, usec) := if usec <? 0 then (sec - 1, usec + 1000000) else (sec, usec) in
  if sec <? 0 then mk_timeval 0 0 else mk_timeval sec usec.
Definition timeval_zero (t : timeval) : bool := (tv_seconds t =? 0) && (tv_usec t =? 0).

Definition itimer_of (s : signals) (which : itimer_kind) : guest_itimer_t :=
  match which with ITIMER_REAL => s_real s | ITIMER_VIRTUAL => s_virt s | ITIMER_PROF => s_prof s end.
Definition set_itimer (which : itimer_kind) (t : guest_itimer_t) (s : signals) : signals :=
  match which with
  | ITIMER_REAL => set_itimers t (s_virt s) (s_prof s) s
  | ITIMER_VIRTUAL => set_itimers (s_real s) t (s_prof s) s
  | ITIMER_PROF => set_itimers (s_real s) (s_virt s) t s
  end.

(** The remaining time and the interval, as signal_get_itimer reports them. *)
Definition itimer_left (t : guest_itimer_t) (now : timeval) : timeval * timeval :=
  (if it_active t && (0 <? timeval_cmp (it_expiry t) now) then timeval_sub (it_expiry t) now else mk_timeval 0 0, it_interval t).
Definition signal_get_itimer (s : signals) (which : itimer_kind) (now : timeval) : timeval * timeval := itimer_left (itimer_of s which) now.

(** signal_set_itimer and signal_set_itimer_virt; [now] is monotonic_now. *)
Definition signal_set_itimer (cur : option nat) (which : itimer_kind) (now : timeval) (value interval : option timeval) (s : signals)
    : (timeval * timeval) * signals :=
  let t := itimer_of s which in
  let old := itimer_left t now in
  match value with
  | None => (old, s)
  | Some v =>
      if timeval_zero v then (old, set_itimer which (mk_itimer false (it_expiry t) (it_interval t)) s)
      else
        let t := mk_itimer true (timeval_add now v) (default (mk_timeval 0 0) interval) in
        (old, attention_raise cur (set_itimer which t s))
  end.

Definition check_one_timer (t : guest_itimer_t) (now : timeval) : bool * guest_itimer_t :=
  if negb (it_active t) then (false, t)
  else if timeval_cmp now (it_expiry t) <? 0 then (false, t)
  else if negb (timeval_zero (it_interval t)) then (true, mk_itimer true (timeval_add (it_expiry t) (it_interval t)) (it_interval t))
  else (true, mk_itimer false (it_expiry t) (it_interval t)).

(** The critical section of signal_check_timers: the signals to queue. *)
Definition check_itimers_locked (cpu_timers : bool) (now : timeval) (s : signals) : list Z * signals :=
  let '(real, r) := check_one_timer (s_real s) now in
  let '(virt, v) := if cpu_timers then check_one_timer (s_virt s) now else (false, s_virt s) in
  let '(prof, q) := if cpu_timers then check_one_timer (s_prof s) now else (false, s_prof s) in
  ((if real then [LINUX_SIGALRM] else []) ++ (if virt then [LINUX_SIGVTALRM] else []) ++ (if prof then [LINUX_SIGPROF] else []), set_itimers r v q s).

(** ** POSIX timers *)

Definition LINUX_CLOCK_REALTIME : Z := 0.
Definition LINUX_CLOCK_MONOTONIC : Z := 1.
Definition LINUX_CLOCK_BOOTTIME : Z := 7.
Definition LINUX_TIMER_ABSTIME : Z := 1.
Definition LINUX_SIGEV_SIGNAL : Z := 0.
Definition LINUX_SIGEV_NONE : Z := 1.
Definition LINUX_SIGEV_THREAD_ID : Z := 4.

Definition notified (n : posix_timer_notification_t) (t : guest_posix_timer_t) : guest_posix_timer_t :=
  set_overruns (pt_overruns t) (pt_last_overrun t) n t.

Definition needs_poll (t : guest_posix_timer_t) : bool :=
  pt_used t && negb (pt_signum t =? 0) && (negb (pt_expiry t =? 0) || bool_decide (pt_notification t = POSIX_TIMER_WAITING)).
Definition posix_timer_refresh_poll_hint_locked (s : signals) : signals :=
  let ts := s_timers s in
  set_timers (mk_timers (pts_slots ts) (pts_next_id ts) (pts_next_slot ts) (existsb needs_poll (pts_slots ts))) s.

(** [now] is posix_timer_now; the result is the number of expired periods. *)
Definition posix_timer_advance_locked (now : Z) (t : guest_posix_timer_t) : Z * guest_posix_timer_t :=
  if negb (pt_used t) || (pt_expiry t =? 0) then (0, t)
  else if now <? pt_expiry t then (0, t)
  else if pt_interval t =? 0 then (1, set_expiry 0 t)
  else
    let elapsed := now - pt_expiry t in
    let count := 1 + elapsed ÷ pt_interval t in
    let step := pt_interval t - Z.rem elapsed (pt_interval t) in
    (count, set_expiry (if INT64_MAX <? now + step then INT64_MAX else now + step) t).

Record linux_itimerspec_t := mk_itimerspec { it_interval_sec : Z; it_interval_nsec : Z; it_value_sec : Z; it_value_nsec : Z }.

(** The reading, with the silent timers advanced by it; [now1] and [now2] are the two
    readings of the clock. *)
Definition posix_timer_value_locked (now1 now2 : Z) (t : guest_posix_timer_t) : linux_itimerspec_t * guest_posix_timer_t :=
  let t := if pt_signum t =? 0 then (posix_timer_advance_locked now1 t).2 else t in
  let remaining := if now2 <? pt_expiry t then pt_expiry t - now2 else 0 in
  (mk_itimerspec (pt_interval t ÷ NSEC_PER_SEC) (Z.rem (pt_interval t) NSEC_PER_SEC) (remaining ÷ NSEC_PER_SEC) (Z.rem remaining NSEC_PER_SEC), t).

Definition refresh_entry (t : guest_posix_timer_t) (info : signal_rt_info_t) : signal_rt_info_t :=
  if (si_code info =? LINUX_SI_TIMER) && (si_pid info =? pt_id t)
  then mk_info (si_signum info) (si_code info) (si_pid info) (pt_overruns t) (si_int info) (si_ptr info) else info.
Definition posix_timer_update_pending_locked (t : guest_posix_timer_t) (p : signal_pending_t) : signal_pending_t :=
  if pt_signum t <? LINUX_SIGRTMIN then
    let idx := pt_signum t - 1 in
    set_std (p_std_valid p) (p_std_info p).[idx := refresh_entry t (p_std_info p).[idx]] p
  else
    let idx := pt_signum t - LINUX_SIGRTMIN in
    let ring := foldl (fun ring n => let slot := ((p_rt_head p).[idx] + n) mod RT_SIGQUEUE_MAX in ring.[slot := refresh_entry t ring.[slot]])
                  (p_rt_info p).[idx] (seqZ 0 (p_rt_queue p).[idx]) in
    set_ring (p_rt_queue p) (p_rt_head p) (p_rt_info p).[idx := ring] p.

(** Whether the shared set has room for one more of this signal. *)
Definition queue_full (p : signal_pending_t) (signum : Z) : bool :=
  if signum <? LINUX_SIGRTMIN then has (p_pending p) (sig_bit signum) else RT_SIGQUEUE_MAX <=? (p_rt_queue p).[signum - LINUX_SIGRTMIN].
Definition timer_info (t : guest_posix_timer_t) : signal_rt_info_t :=
  mk_info (pt_signum t) LINUX_SI_TIMER (pt_id t) (pt_overruns t) (to_int32 (wrap32 (pt_value t))) (pt_value t).

(** One round of the loop of posix_timer_enqueue_waiting_locked over the slots: the
    state, whether anything was queued, whether the loop has been left. *)
Definition enqueue_waiting_round (signum start : Z) (acc : signals * bool * bool) (offset : Z) : signals * bool * bool :=
  let '(s, queued, stop) := acc in
  if stop then acc
  else
    let i := (start + offset) mod POSIX_TIMER_MAX in
    let t := (pts_slots (s_timers s)).[i] in
    if negb (pt_used t) || negb (pt_signum t =? signum) || negb (bool_decide (pt_notification t = POSIX_TIMER_WAITING)) then acc
    else if queue_full (s_shared s) signum then (s, queued, true)
    else
      let s := set_shared (signal_enqueue_locked (s_pid s) (s_uid s) (s_shared s) (pt_signum t) (Some (timer_info t))) s in
      let ts := s_timers s in
      (set_timers (mk_timers (pts_slots ts).[i := notified POSIX_TIMER_QUEUED t] (pts_next_id ts)
                     (pts_next_slot ts).[signum - 1 := (i + 1) mod POSIX_TIMER_MAX] (pts_need_poll ts)) s, true, false).
Definition posix_timer_enqueue_waiting_locked (signum : Z) (s : signals) : bool * signals :=
  let start := (pts_next_slot (s_timers s)).[signum - 1] in
  let '(s, queued, _) := foldl (enqueue_waiting_round signum start) (s, false, false) (seqZ 0 POSIX_TIMER_MAX) in
  (queued, s).

(** What a check finds for one timer that signals. *)
Definition count_expiries (count : Z) (t : guest_posix_timer_t) : guest_posix_timer_t :=
  if count =? 0 then t
  else
    let none := bool_decide (pt_notification t = POSIX_TIMER_NONE) in
    let missed := if none then count - 1 else count in
    let n := if none then POSIX_TIMER_WAITING else pt_notification t in
    set_overruns (if INT32_MAX - pt_overruns t <? missed then INT32_MAX else pt_overruns t + missed) (pt_last_overrun t) n t.

(** The first loop of posix_timer_check; [now] is the reading of the clock for a
    slot. *)
Definition check_slot (now : nat -> Z) (acc : signals * Z) (i : nat) : signals * Z :=
  let '(s, waiting) := acc in
  let t := pts_slots (s_timers s) !!! i in
  if negb (pt_used t) || (pt_signum t =? 0) then acc
  else
    let '(count, t) := posix_timer_advance_locked (now i) t in
    let t := count_expiries count t in
    let s := set_slots (<[i := t]> (pts_slots (s_timers s))) s in
    match pt_notification t with
    | POSIX_TIMER_QUEUED => (set_shared (posix_timer_update_pending_locked t (s_shared s)) s, waiting)
    | POSIX_TIMER_WAITING => (s, Z.lor waiting (sig_bit (pt_signum t)))
    | POSIX_TIMER_NONE => (s, waiting)
    end.
Definition queue_round (acc : signals * Z) (bit : Z) : signals * Z :=
  let '(s, notify) := acc in
  let '(queued, s) := posix_timer_enqueue_waiting_locked (bit + 1) s in
  (s, if queued then Z.lor notify (sig_bit (bit + 1)) else notify).
Definition posix_timer_check_locked (now : nat -> Z) (s : signals) : signals * Z :=
  let '(s, waiting) := foldl (check_slot now) (s, 0) (seq 0 64) in
  let '(s, notify) := foldl queue_round (s, 0) (set_bits waiting) in
  (refresh_pending_hint_locked (posix_timer_refresh_poll_hint_locked s), notify).
Definition posix_timer_check (cur : option nat) (now : nat -> Z) (s : signals) : signals :=
  if negb (pts_need_poll (s_timers s)) then s
  else
    let '(s, notify) := posix_timer_check_locked now s in
    let s := foldl (fun s bit => signal_notify_waiters (bit + 1) s) s (set_bits notify) in
    if negb (notify =? 0) then attention_raise cur s else s.

(** The do-while loop that finds an identifier: the one found and the next. *)
Fixpoint fresh_id (fuel : nat) (timers : list guest_posix_timer_t) (next : Z) : option (Z * Z) :=
  match fuel with
  | O => None
  | S fuel =>
      let after := if next =? INT32_MAX then 0 else next + 1 in
      if bool_decide (is_Some (posix_timer_find_locked timers next)) then fresh_id fuel timers after else Some (next, after)
  end.

(** [None]: the search for an identifier does not end. *)
Definition signal_posix_timer_create (clockid notify signum value : Z) (default_event : bool) (s : signals) : option (Z * signals) :=
  if negb (clockid =? LINUX_CLOCK_REALTIME) && negb (clockid =? LINUX_CLOCK_MONOTONIC) && negb (clockid =? LINUX_CLOCK_BOOTTIME) then Some (- LINUX_EINVAL, s)
  else if notify =? LINUX_SIGEV_THREAD_ID then Some (- LINUX_ENOSYS, s)
  else if negb (notify =? LINUX_SIGEV_SIGNAL) && negb (notify =? LINUX_SIGEV_NONE) then Some (- LINUX_EINVAL, s)
  else if (notify =? LINUX_SIGEV_SIGNAL) && negb ((1 <=? signum) && (signum <=? LINUX_NSIG)) then Some (- LINUX_EINVAL, s)
  else
    let ts := s_timers s in
    match list_find (fun t => pt_used t = false) (pts_slots ts) with
    | None => Some (- LINUX_EAGAIN, s)
    | Some (i, _) =>
        '(ret, next) ← fresh_id 65 (pts_slots ts) (pts_next_id ts);
        let t := mk_timer ret clockid (if notify =? LINUX_SIGEV_SIGNAL then signum else 0) 0 0 CLOCK_MONOTONIC (if default_event then ret else value) 0 0 true POSIX_TIMER_NONE in
        Some (ret, set_timers (mk_timers (<[i := t]> (pts_slots ts)) next (pts_next_slot ts) (pts_need_poll ts)) s)
    end.

Definition signal_posix_timer_get (cur : option nat) (id : Z) (now : nat -> Z) (now1 now2 : Z) (s : signals) : option linux_itimerspec_t * signals :=
  let s := posix_timer_check cur now s in
  match posix_timer_find_locked (pts_slots (s_timers s)) id with
  | None => (None, s)
  | Some (i, t) =>
      let '(value, t) := posix_timer_value_locked now1 now2 t in
      (Some value, set_slots (<[i := t]> (pts_slots (s_timers s))) s)
  end.

(** Entries of the shared set discarded, with the claims of the signals that are then
    no longer pending. *)
Definition discard_shared (id : Z) (s : signals) : signals :=
  let '(p, released) := posix_timer_discard_pending_locked (s_shared s) id in
  foldl (fun s signum => shared_claim_release_locked signum s) (set_shared p s) released.

(** The timer as signal_posix_timer_set arms it; [now3] is the reading for a relative
    time. *)
Definition arm_timer (flags : Z) (value : linux_itimerspec_t) (now3 : Z) (t : guest_posix_timer_t) : guest_posix_timer_t :=
  let absolute := has flags LINUX_TIMER_ABSTIME in
  let clock := if absolute && (pt_guest_clockid t =? LINUX_CLOCK_REALTIME) then CLOCK_REALTIME else CLOCK_MONOTONIC in
  let value_ns := timespec_to_ns_sat (it_value_sec value) (it_value_nsec value) in
  let expiry :=
    if negb (value_ns =? 0) && negb absolute then if INT64_MAX <? now3 + value_ns then INT64_MAX else now3 + value_ns
    else value_ns in
  let interval := if negb (value_ns =? 0) then timespec_to_ns_sat (it_interval_sec value) (it_interval_nsec value) else 0 in
  mk_timer (pt_id t) (pt_guest_clockid t) (pt_signum t) 0 0 clock (pt_value t) expiry interval (pt_used t) POSIX_TIMER_NONE.

Definition signal_posix_timer_set (cur : option nat) (id flags : Z) (value : linux_itimerspec_t) (now : nat -> Z) (now1 now2 now3 : Z) (s : signals)
    : option linux_itimerspec_t * signals :=
  let s := posix_timer_check cur now s in
  match posix_timer_find_locked (pts_slots (s_timers s)) id with
  | None => (None, s)
  | Some (i, t) =>
      let '(old, t) := posix_timer_value_locked now1 now2 t in
      let s := discard_shared id s in
      let t := arm_timer flags value now3 t in
      let s := set_slots (<[i := t]> (pts_slots (s_timers s))) s in
      let s := refresh_pending_hint_locked (posix_timer_refresh_poll_hint_locked s) in
      (Some old, if negb (timespec_to_ns_sat (it_value_sec value) (it_value_nsec value) =? 0) && negb (pt_signum t =? 0) then attention_raise cur s else s)
  end.

Definition signal_posix_timer_delete (id : Z) (s : signals) : Z * signals :=
  let found := posix_timer_find_locked (pts_slots (s_timers s)) id in
  let s := match found with
           | Some (i, _) => let s := discard_shared id s in set_slots (<[i := zero_timer]> (pts_slots (s_timers s))) s
           | None => s
           end in
  (if found then 0 else - LINUX_EINVAL, refresh_pending_hint_locked (posix_timer_refresh_poll_hint_locked s)).

Definition signal_posix_timer_overrun (s : signals) (id : Z) : Z :=
  match posix_timer_find_locked (pts_slots (s_timers s)) id with Some (_, t) => pt_last_overrun t | None => - LINUX_EINVAL end.

(** ** Checks *)

Definition signal_check_timers (cur : option nat) (cpu_timers : bool) (chk : nat -> Z) (now : timeval) (s : signals) : signals :=
  let s := posix_timer_check cur chk s in
  if negb (it_active (s_real s)) && (negb cpu_timers || (negb (it_active (s_virt s)) && negb (it_active (s_prof s)))) then s
  else
    let '(fired, s) := check_itimers_locked cpu_timers now s in
    foldl (fun s signum => signal_queue cur signum s) s fired.

Definition signal_claim_interruption (cur : option nat) (chk : nat -> Z) (s : signals) : bool * signals :=
  let s := posix_timer_check cur chk s in
  if Z.land (s_hint s) (not64 (blocked_of s cur)) =? 0 then (false, s)
  else let '(signum, s) := signal_claim_waking_locked cur (blocked_of s cur) s in (negb (signum =? 0), s).

(** ** exec and fork *)

Definition reset_action (a : linux_sigaction_t) : linux_sigaction_t :=
  if negb (sa_handler a =? LINUX_SIG_IGN) then mk_act LINUX_SIG_DFL 0 0 0 else a.

Definition exec_reset (s : signals) : signals :=
  let s := set_timers (mk_timers (replicate 64 zero_timer) (pts_next_id (s_timers s)) (replicate 64 0) false) s in
  let s := set_actions (reset_action <$> s_actions s) s in
  let f := s_fallback s in
  let s := set_fallback (mk_fallback (fb_blocked f) (fb_saved f) false (fb_alt_sp f) (fb_alt_flags f) (fb_alt_size f) (fb_on_alt f)) s in
  set_claims 0 (replicate 64 None) s.

Definition exec_discard_thread (th : thread_sig) : thread_sig :=
  set_th_pending (posix_timer_discard_pending_locked (th_pending th) (-1)).1 th.

Definition exec_reset_thread (th : thread_sig) : thread_sig :=
  set_th_alt 0 LINUX_SS_DISABLE 0 false (set_th_saved (th_saved th) false th).

Definition signal_reset_for_exec (cur : option nat) (s : signals) : signals :=
  let s := discard_shared (-1) s in
  match cur with
  | Some t => upd_thread t exec_reset_thread (exec_reset (refresh_pending_hint_locked (upd_thread t exec_discard_thread s)))
  | None => exec_reset (refresh_pending_hint_locked s)
  end.

(** signal_state_snapshot_t *)
Record snapshot := mk_snapshot { sn_actions : list linux_sigaction_t; sn_shared : signal_pending_t; sn_fallback : fallback }.

Definition signal_get_state (cur : option nat) (s : signals) : snapshot * signals :=
  let s :=
    match cur with
    | Some i =>
        let t := thread_at s i in
        set_fallback (mk_fallback (th_blocked t) (fb_saved (s_fallback s)) (fb_saved_valid (s_fallback s)) (th_alt_sp t) (th_alt_flags t) (th_alt_size t) (th_on_alt t)) s
    | None => s
    end in
  (mk_snapshot (s_actions s) (s_shared s) (s_fallback s), s).

Definition signal_set_state (cur : option nat) (st : snapshot) (s : signals) : signals :=
  let f := sn_fallback st in
  let s := set_claims 0 (replicate 64 None) (set_fallback f (set_shared (sn_shared st) (set_actions (sn_actions st) s))) in
  match cur with
  | Some i => upd_thread i (fun t => set_th_alt (fb_alt_sp f) (fb_alt_flags f) (fb_alt_size f) (fb_on_alt f) (set_th_blocked (fb_blocked f) t)) s
  | None => s
  end.

(** The fork child drops what was pending in the parent before it takes the state
    over. *)
Definition fork_child_state (cur : option nat) (st : snapshot) (s : signals) : signals :=
  signal_set_state cur (mk_snapshot (sn_actions st) empty_pending (sn_fallback st)) s.

Definition sigaction_autoreaps_sigchld (a : linux_sigaction_t) : bool :=
  (sa_handler a =? LINUX_SIG_IGN) || has (sa_flags a) LINUX_SA_NOCLDWAIT.
Definition signal_sigchld_autoreap (s : signals) : bool := sigaction_autoreaps_sigchld (s_actions s).[LINUX_SIGCHLD - 1].

(** ** The locked parts of the signal system calls *)

(** rt_sigaction once the new action has been read: the state, and whether exited
    children are to be reaped. *)
Definition install_action (signum : Z) (act : linux_sigaction_t) (s : signals) : signals * bool :=
  let idx := signum - 1 in
  let reap := (signum =? LINUX_SIGCHLD) && sigaction_autoreaps_sigchld (s_actions s).[idx] in
  (set_actions (s_actions s).[idx := act] s, reap).

Definition LINUX_SIG_BLOCK : Z := 0.
Definition LINUX_SIG_UNBLOCK : Z := 1.
Definition LINUX_SIG_SETMASK : Z := 2.

(** rt_sigprocmask once the set has been read; [None] for an unknown [how]. *)
Definition procmask_locked (cur : option nat) (how set : Z) (s : signals) : option signals :=
  let old_blocked := blocked_of s cur in
  new_mask ← (if how =? LINUX_SIG_BLOCK then Some (Z.lor old_blocked set)
              else if how =? LINUX_SIG_UNBLOCK then Some (Z.land old_blocked (not64 set))
              else if how =? LINUX_SIG_SETMASK then Some set
              else None);
  let new_mask := Z.land new_mask (not64 unmaskable) in
  let s := store_blocked cur new_mask s in
  let newly_unblocked := Z.land old_blocked (not64 new_mask) in
  Some (if negb (Z.land newly_unblocked (self_pending_locked s cur) =? 0) then refresh_pending_hint_locked s else s).

(** rt_sigsuspend: installing the temporary mask, which returns the old one, and
    leaving the wait. *)
Definition suspend_begin (cur : option nat) (mask : Z) (s : signals) : Z * signals :=
  (blocked_of s cur, store_blocked cur (Z.land mask (not64 unmaskable)) s).
Definition suspend_end (cur : option nat) (saved_blocked : Z) (woke : bool) (s : signals) : signals :=
  if woke then store_saved cur saved_blocked true s else store_blocked cur saved_blocked s.

(** ** The locked parts of a delivery *)

(** The mask rt_sigreturn has to restore: the one a wait saved, if it did. *)
Definition take_saved_mask (cur : option nat) (s : signals) : Z * signals :=
  if saved_valid_of s cur then (saved_of s cur, store_saved cur (saved_of s cur) false s) else (blocked_of s cur, s).

(** Steps 5 to 7 of deliver_signal_locked. *)
Definition enter_handler (cur : option nat) (signum : Z) (use_altstack : bool) (s : signals) : signals :=
  let act := (s_actions s).[signum - 1] in
  let new_blocked := blocked_of s cur in
  let new_blocked := if negb (has (sa_flags act) LINUX_SA_NODEFER) then Z.lor new_blocked (sig_bit signum) else new_blocked in
  let new_blocked := Z.lor new_blocked (sa_mask act) in
  let s := store_blocked cur (Z.land new_blocked (not64 unmaskable)) s in
  let s :=
    match cur with
    | Some i => if use_altstack then upd_thread i (fun t => set_th_alt (th_alt_sp t) (th_alt_flags t) (th_alt_size t) true t) s else s
    | None => s
    end in
  if has (sa_flags act) LINUX_SA_RESETHAND then
    set_actions (s_actions s).[signum - 1 := mk_act LINUX_SIG_DFL (Z.land (sa_flags act) (not64 LINUX_SA_SIGINFO)) (sa_restorer act) (sa_mask act)] s
  else s.

(** The reset of signal_deliver_fault: a fault can be neither ignored nor blocked. *)
Definition force_fault (cur : option nat) (signum : Z) (s : signals) : signals :=
  if negb ((1 <=? signum) && (signum <=? LINUX_NSIG)) then s
  else
    let act := (s_actions s).[signum - 1] in
    let blocked := blocked_of s cur in
    if (sa_handler act =? LINUX_SIG_IGN) || has blocked (sig_bit signum) then
      let s := set_actions (s_actions s).[signum - 1 := mk_act LINUX_SIG_DFL (Z.land (sa_flags act) (not64 LINUX_SA_SIGINFO)) (sa_restorer act) (sa_mask act)] s in
      store_blocked cur (Z.land blocked (not64 (sig_bit signum))) s
    else s.

(** What rt_sigreturn restores under the lock. *)
Definition leave_handler (cur : option nat) (sigmask sp : Z) (s : signals) : signals :=
  let s := store_blocked cur (Z.land sigmask (not64 unmaskable)) s in
  match cur with
  | Some i =>
      let on t := negb (th_alt_sp t =? 0) && (th_alt_sp t <=? sp) && (sp <? (th_alt_sp t + th_alt_size t)%u64) in
      upd_thread i (fun t => set_th_alt (th_alt_sp t) (th_alt_flags t) (th_alt_size t) (on t) t) s
  | None => s
  end.

(** ** Threads coming and going (src/runtime/thread.c) *)

(** thread_alloc once it has chosen a slot; which inactive slot it is depends on
    pthread state that is not modelled. *)
Definition thread_alloc_slot (i : nat) (tid : Z) (s : signals) : option signals :=
  if th_active (thread_at s i) then None
  else Some (set_threads (<[i := mk_thread true tid 0 0 false empty_pending 0 LINUX_SS_DISABLE 0 false]> (s_threads s)) s).

(** thread_deactivate in its three steps under different locks. *)
Definition deactivate_slot (t : nat) (s : signals) : signals := upd_thread t (set_th_active false) s.
Definition thread_deactivate (cur : option nat) (t : nat) (s : signals) : signals :=
  let s := signal_release_claims cur t s in
  if negb (th_active (thread_at s t)) then s else signal_refresh_pending_hint (deactivate_slot t s).

(** ** Start *)

Definition idle_timer : guest_itimer_t := mk_itimer false (mk_timeval 0 0) (mk_timeval 0 0).
Definition boot (pid uid tid : Z) : signals :=
  mk_signals (replicate 64 (mk_act 0 0 0 0)) empty_pending (mk_fallback 0 0 false 0 0 0 false)
    (mk_thread true tid 0 0 false empty_pending 0 LINUX_SS_DISABLE 0 false :: replicate 63 zero_thread)
    0 0 (replicate 64 None) (mk_timers (replicate 64 zero_timer) 0 (replicate 64 0) false) idle_timer idle_timer idle_timer 0 pid uid [].
