(* ===== verification/SigFacts.v ===== *)
(** * Invariants of the signal state

    What every critical section of src/syscall/signal.c keeps: the sets are well
    formed, a claimed signal is pending and has a claimer, SIGKILL and SIGSTOP are
    neither blocked nor caught, and the lock-free hint covers everything pending. *)

From S2P Require Import Prelude Bits FutexWord SigQueue SigQueueFacts Signal.

(** ** Threads *)

Lemma thread_at_upd i f s j : (i < length (s_threads s))%nat -> thread_at (upd_thread i f s) j = if decide (i = j) then f (thread_at s j) else thread_at s j.
Proof.
  intros B. unfold thread_at, upd_thread. cbn [set_threads s_threads]. rewrite list_lookup_total_alter. repeat case_decide; subst; tauto.
Qed.

Lemma thread_at_out s j : (length (s_threads s) <= j)%nat -> thread_at s j = zero_thread.
Proof. intros B. unfold thread_at. rewrite list_lookup_total_alt, lookup_ge_None_2 by done. done. Qed.

Lemma length_upd i f s : length (s_threads (upd_thread i f s)) = length (s_threads s).
Proof. apply length_alter. Qed.

(** ** Masks *)

Definition maskable (w : Z) : Prop := fits64 w /\ Z.testbit w 8 = false /\ Z.testbit w 18 = false.

Lemma unmaskable_bits k : 0 <= k < 64 -> Z.testbit unmaskable k = (k =? 8) || (k =? 18).
Proof.
  intros B. unfold unmaskable. rewrite Z.lor_spec, !sig_bit_testbit by (unfold LINUX_SIGKILL, LINUX_SIGSTOP; lia). done.
Qed.

Lemma land_unmaskable w : fits64 w -> maskable (Z.land w (not64 unmaskable)).
Proof.
  intros F. split; [by apply land_fits|]. by rewrite !Z.land_spec, !not64_spec, !unmaskable_bits, !andb_false_r by lia.
Qed.

Lemma maskable_zero : maskable 0.
Proof. by split; [done|rewrite !Z.bits_0]. Qed.

#[export] Hint Resolve land_unmaskable maskable_zero : word64.

Lemma maskable_clear w v : maskable w -> maskable (Z.land w v).
Proof. intros (F & A & B). split; [by apply land_fits|]. by rewrite !Z.land_spec, A, B. Qed.

(** ** The invariant *)

Definition act_ok (a : linux_sigaction_t) : Prop := fits64 (sa_handler a) /\ fits64 (sa_flags a) /\ fits64 (sa_mask a).

Record acts_ok (s : signals) : Prop := {
  ao_len : length (s_actions s) = 64%nat;
  ao_each : forall k, 0 <= k < 64 -> act_ok (s_actions s).[k];
  ao_kill : sa_handler (s_actions s).[8] = LINUX_SIG_DFL;
  ao_stop : sa_handler (s_actions s).[18] = LINUX_SIG_DFL
}.

Definition thread_ok (t : thread_sig) : Prop := set_ok 0 0 (th_pending t) /\ maskable (th_blocked t) /\ maskable (th_saved t).

Record claims_ok (s : signals) : Prop := {
  co_fits : fits64 (s_claimed s);
  co_len : length (s_owner s) = 64%nat;
  co_pending : forall k, 0 <= k < 64 -> Z.testbit (s_claimed s) k = true -> Z.testbit (p_pending (s_shared s)) k = true;
  co_owner : forall k, 0 <= k < 64 -> Z.testbit (s_claimed s) k = bool_decide (is_Some (s_owner s).[k])
}.

(** Everything but the hint. *)
Record base_ok (s : signals) : Prop := {
  bo_acts : acts_ok s;
  bo_shared : set_ok 0 0 (s_shared s);
  bo_len : length (s_threads s) = 64%nat;
  bo_threads : forall i, thread_ok (thread_at s i);
  bo_fallback : maskable (fb_blocked (s_fallback s)) /\ maskable (fb_saved (s_fallback s));
  bo_claims : claims_ok s
}.

(** The hint has every bit that is pending for some thread that runs. *)
Record hint_ok (s : signals) : Prop := {
  ho_fits : fits64 (s_hint s);
  ho_shared : forall k, 0 <= k < 64 -> Z.testbit (p_pending (s_shared s)) k = true -> Z.testbit (s_hint s) k = true;
  ho_threads : forall i k, 0 <= k < 64 -> th_active (thread_at s i) = true -> Z.testbit (p_pending (th_pending (thread_at s i))) k = true ->
    Z.testbit (s_hint s) k = true
}.

Definition sig_ok (s : signals) : Prop := base_ok s /\ hint_ok s.

(** The invariant depends on these fields only. *)
Lemma base_ext s s' : s_actions s' = s_actions s -> s_shared s' = s_shared s -> s_fallback s' = s_fallback s -> s_threads s' = s_threads s ->
  s_claimed s' = s_claimed s -> s_owner s' = s_owner s -> base_ok s -> base_ok s'.
Proof.
  destruct s, s'. cbn. intros -> -> -> -> -> -> [[A1 A2 A3 A4] B1 B2 B3 B4 [C1 C2 C3 C4]]. constructor; [by constructor|done|done|exact B3|done|by constructor].
Qed.
Lemma hint_ext s s' : s_shared s' = s_shared s -> s_threads s' = s_threads s -> s_hint s' = s_hint s -> hint_ok s -> hint_ok s'.
Proof. destruct s, s'. cbn. intros -> -> -> [H1 H2 H3]. by constructor. Qed.

(** Well-formedness of a set does not depend on the identity of the process. *)
Lemma set_ok_id pid uid pid' uid' p : set_ok pid uid p -> set_ok pid' uid' p.
Proof.
  intros O. constructor; try apply O. intros s B. pose proof (so_named pid uid p O s B) as N. unfold queued in *. case_if; [|done].
  destruct (Z.testbit _ _); [|done]. rewrite Forall_singleton in N |- *. unfold signal_standard_peek_locked in *. by destruct ((p_std_valid p).[s - 1]).
Qed.

(** ** Refreshing the hint *)

Lemma union_spec l : Forall (fun t => fits64 (p_pending (th_pending t))) l ->
  let u := foldr (fun t u => if th_active t then Z.lor (p_pending (th_pending t)) u else u) 0 l in
  fits64 u /\ forall k, 0 <= k -> Z.testbit u k = true <-> exists t, t ∈ l /\ th_active t = true /\ Z.testbit (p_pending (th_pending t)) k = true.
Proof.
  induction l as [|t l IH]; intros F; cbn [foldr].
  { split; [done|]. intros k _. rewrite Z.bits_0. split; [done|]. by intros (t & ?%elem_of_nil & _). }
  apply Forall_cons_1 in F as [Ft Fl]. destruct (IH Fl) as [Fu U]. split; [by destruct (th_active t); [apply lor_fits|]|].
  intros k Bk. setoid_rewrite elem_of_cons. destruct (th_active t) eqn:A.
  - rewrite Z.lor_spec, orb_true_iff, U by done. split.
    + intros [T|(t' & E & H)]; [exists t; auto|exists t'; auto].
    + intros (t' & [->|E] & H1 & H2); [by left|right; eauto].
  - rewrite U by done. split; [intros (t' & E & H); eauto|]. intros (t' & [->|E] & H1 & H2); [congruence|eauto].
Qed.

Lemma thread_at_elem s t : t ∈ s_threads s <-> exists i, (i < length (s_threads s))%nat /\ thread_at s i = t.
Proof.
  rewrite list_elem_of_lookup. unfold thread_at. split; intros (i & H).
  - exists i. split; [by eapply lookup_lt_Some|]. by apply list_lookup_total_correct.
  - exists i. destruct H as [B <-]. by apply list_lookup_lookup_total_lt.
Qed.

Lemma refresh_ok s : base_ok s -> sig_ok (refresh_pending_hint_locked s).
Proof.
  intros B. assert (F : Forall (fun t => fits64 (p_pending (th_pending t))) (s_threads s)).
  { apply list.Forall_forall. intros t (i & _ & <-)%thread_at_elem. apply (bo_threads s B i). }
  destruct (union_spec _ F) as [Fu U]. fold (thread_pending_union s) in Fu, U. split; [by apply (base_ext s)|].
  constructor; cbn [refresh_pending_hint_locked set_hint s_hint].
  - apply lor_fits; [apply B|done].
  - intros k Bk T. change (s_shared (refresh_pending_hint_locked s)) with (s_shared s) in T. by rewrite Z.lor_spec, T.
  - intros i k Bk A T. change (thread_at (refresh_pending_hint_locked s) i) with (thread_at s i) in *. rewrite Z.lor_spec, orb_true_iff. right. apply U; [lia|].
    exists (thread_at s i). split; [|done]. apply thread_at_elem. exists i. split; [|done].
    destruct (Nat.lt_ge_cases i (length (s_threads s))) as [|G]; [done|]. by rewrite (thread_at_out s i G) in A.
Qed.

(** Events change nothing the invariant speaks of. *)
Lemma emit_ok e s : sig_ok s -> sig_ok (emit e s).
Proof. intros [B H]. split; [by apply (base_ext s)|by apply (hint_ext s)]. Qed.

Lemma attention_raise_ok cur s : sig_ok s -> sig_ok (attention_raise cur s).
Proof. apply emit_ok. Qed.

Lemma ring_parked_ok s : sig_ok s -> sig_ok (ring_parked s).
Proof. unfold ring_parked. case_if; [apply emit_ok|done]. Qed.

Lemma notify_ok signum s : sig_ok s -> sig_ok (signal_notify_waiters signum s).
Proof. intros O. by apply ring_parked_ok, emit_ok. Qed.

(** ** Changing one part of the state *)

Lemma upd_thread_cases i f s j : thread_at (upd_thread i f s) j = thread_at s j \/
  (i = j /\ (i < length (s_threads s))%nat /\ thread_at (upd_thread i f s) j = f (thread_at s j)).
Proof.
  destruct (Nat.lt_ge_cases i (length (s_threads s))) as [B|B].
  - rewrite (thread_at_upd i f s j B). case_decide; auto.
  - left. unfold thread_at, upd_thread. cbn [set_threads s_threads]. rewrite list_lookup_total_alter. case_decide; [lia|done].
Qed.

Lemma base_upd_thread i f s : (thread_ok (thread_at s i) -> thread_ok (f (thread_at s i))) -> base_ok s -> base_ok (upd_thread i f s).
Proof.
  intros Hf B. constructor.
  - by destruct (bo_acts s B).
  - apply B.
  - rewrite length_upd. apply B.
  - intros j. destruct (upd_thread_cases i f s j) as [->|(<- & _ & ->)]; [apply B|apply Hf, B].
  - apply B.
  - by destruct (bo_claims s B).
Qed.

(** A thread that keeps its pending set and does not start to run. *)
Lemma hint_upd_thread i f s : (forall t, th_pending (f t) = th_pending t) -> (forall t, th_active (f t) = true -> th_active t = true) ->
  hint_ok s -> hint_ok (upd_thread i f s).
Proof.
  intros Hp Ha H. constructor; [apply H|apply H|]. intros j k Bk. destruct (upd_thread_cases i f s j) as [->|(<- & _ & ->)]; [by apply H|].
  rewrite Hp. intros A. apply Ha in A. by apply (ho_threads s H i).
Qed.

Lemma base_set_shared p s : set_ok 0 0 p -> claims_ok (set_shared p s) -> base_ok s -> base_ok (set_shared p s).
Proof. intros O C B. constructor; try apply B; [by destruct (bo_acts s B)|done|done]. Qed.

Lemma base_set_claims c o s : claims_ok (set_claims c o s) -> base_ok s -> base_ok (set_claims c o s).
Proof. intros C B. constructor; try apply B; [by destruct (bo_acts s B)|done]. Qed.

Lemma base_set_fallback f s : maskable (fb_blocked f) -> maskable (fb_saved f) -> base_ok s -> base_ok (set_fallback f s).
Proof. intros F1 F2 B. constructor; try apply B; [by destruct (bo_acts s B)|done|by destruct (bo_claims s B)]. Qed.

Lemma no_claims o s : o = replicate 64 None -> claims_ok (set_claims 0 o s).
Proof.
  intros ->. constructor; cbn [set_claims s_claimed s_owner]; [done|by rewrite length_replicate|by intros k _; rewrite Z.bits_0|].
  intros k B. rewrite Z.bits_0. symmetry. apply bool_decide_eq_false. unfold aget. rewrite lookup_total_replicate_2 by lia. by intros [? ?].
Qed.

(** Releasing the claim on a signal makes room for it to go. *)
Lemma release_claims_ok s p signum : claims_ok s -> valid_signal signum ->
  (forall k, 0 <= k < 64 -> k <> signum - 1 -> Z.testbit (p_pending (s_shared s)) k = true -> Z.testbit (p_pending p) k = true) ->
  claims_ok (shared_claim_release_locked signum (set_shared p s)).
Proof.
  intros C V K. unfold valid_signal in V. constructor; cbn [shared_claim_release_locked set_claims set_shared s_claimed s_owner s_shared].
  - apply land_fits, C.
  - rewrite length_aset. apply C.
  - intros k B T. rewrite testbit_clear in T by lia. apply andb_prop in T as [T N]. apply K; [done| |by apply (co_pending s C)].
    by apply negb_true_iff, Z.eqb_neq in N.
  - intros k B. rewrite testbit_clear, (co_owner s C) by lia. destruct (Z.eqb_spec k (signum - 1)) as [->|N].
    + rewrite aget_aset by (rewrite (co_len s C); lia). by rewrite andb_false_r.
    + rewrite aget_aset_ne by lia. apply andb_true_r.
Qed.

(** ** Masks *)

Lemma blocked_maskable s cur : base_ok s -> maskable (blocked_of s cur).
Proof. intros B. destruct cur as [i|]; [apply (bo_threads s B i)|apply (bo_fallback s B)]. Qed.

Lemma saved_maskable s cur : base_ok s -> maskable (saved_of s cur).
Proof. intros B. destruct cur as [i|]; [apply (bo_threads s B i)|apply (bo_fallback s B)]. Qed.

Lemma store_blocked_ok cur v s : maskable v -> sig_ok s -> sig_ok (store_blocked cur v s).
Proof.
  intros M [B H]. destruct cur as [i|]; cbn [store_blocked].
  - split; [|by apply hint_upd_thread]. apply base_upd_thread; [|done]. intros (T1 & T2 & T3). done.
  - split; [|by apply (hint_ext s)]. apply base_set_fallback; [done|apply (bo_fallback s B)|done].
Qed.

Lemma store_saved_ok cur v b s : maskable v -> sig_ok s -> sig_ok (store_saved cur v b s).
Proof.
  intros M [B H]. destruct cur as [i|]; cbn [store_saved].
  - split; [|by apply hint_upd_thread]. apply base_upd_thread; [|done]. intros (T1 & T2 & T3). done.
  - split; [|by apply (hint_ext s)]. apply base_set_fallback; [apply (bo_fallback s B)|done|done].
Qed.

Lemma set_alt_ok i sp flags size on s : sig_ok s -> sig_ok (upd_thread i (fun t => set_th_alt (sp t) (flags t) (size t) (on t) t) s).
Proof. intros [B H]. split; [by apply base_upd_thread|by apply hint_upd_thread]. Qed.

Lemma set_action_ok signum act s : valid_signal signum -> act_ok act -> (sig_uncatchable signum = true -> sa_handler act = LINUX_SIG_DFL) ->
  sig_ok s -> sig_ok (set_actions (s_actions s).[signum - 1 := act] s).
Proof.
  intros V A K [B H]. unfold valid_signal in V. split; [|by apply (hint_ext s)]. destruct (bo_acts s B) as [A1 A2 A3 A4].
  assert (Get : forall k, 0 <= k -> (s_actions s).[signum - 1 := act].[k] = if decide (k = signum - 1) then act else (s_actions s).[k]).
  { intros k Bk. case_decide as D; [subst k; rewrite aget_aset by lia; done|by rewrite aget_aset_ne by lia]. }
  constructor; try apply B; [|by destruct (bo_claims s B)]. constructor; cbn [set_actions s_actions].
  - by rewrite length_aset.
  - intros k Bk. rewrite Get by lia. case_decide; [done|by apply A2].
  - rewrite Get by lia. case_decide as D; [|done]. apply K. unfold sig_uncatchable, LINUX_SIGKILL. by replace signum with 9 by lia.
  - rewrite Get by lia. case_decide as D; [|done]. apply K. unfold sig_uncatchable, LINUX_SIGSTOP. by replace signum with 19 by lia.
Qed.

(** ** What a thread may take from the shared set *)

(** Another thread has claimed the signal and still accepts it. *)
Definition claimed_away (s : signals) (cur : option nat) (k : Z) : bool :=
  negb (bool_decide ((s_owner s).[k] = cur)) &&
  match (s_owner s).[k] with Some o => negb (Z.testbit (th_blocked (thread_at s o)) k) | None => false end.

Lemma one_bit_not w j k : 0 <= j < 64 -> 0 <= k < 64 -> Z.testbit (Z.land w (not64 (Z.shiftl 1 j))) k = Z.testbit w k && negb (j =? k).
Proof. intros Bj Bk. rewrite Z.land_spec, not64_spec, one_bit by lia. rewrite (proj2 (Z.ltb_lt k 64)) by lia. by rewrite xorb_true_r. Qed.

Lemma hide_claimed_bits s cur w j k : 0 <= j < 64 -> 0 <= k < 64 ->
  Z.testbit (hide_claimed s cur w j) k = Z.testbit w k && negb ((j =? k) && claimed_away s cur j).
Proof.
  intros Bj Bk. unfold hide_claimed, claimed_away. case_bool_decide; cbn [negb andb]; [by rewrite andb_false_r, andb_true_r|].
  destruct ((s_owner s).[j]) as [o|]; [|by rewrite andb_false_r, andb_true_r]. rewrite Z.shiftl_mul_pow2, Z.mul_1_l, has_testbit by lia.
  destruct (Z.testbit _ j); cbn [negb]; [by rewrite andb_false_r, andb_true_r|]. rewrite <- (Z.mul_1_l (2 ^ j)), <- Z.shiftl_mul_pow2, one_bit_not by lia. by rewrite andb_true_r.
Qed.

Lemma hide_claimed_fits s cur w j : fits64 w -> fits64 (hide_claimed s cur w j).
Proof. intros F. unfold hide_claimed. case_bool_decide; [done|]. destruct ((s_owner s).[j]); [|done]. case_if; [done|by apply land_fits]. Qed.

Lemma visible_fold s cur l : Forall (fun j => 0 <= j < 64) l -> forall w, fits64 w ->
  fits64 (foldl (hide_claimed s cur) w l) /\
  forall k, 0 <= k < 64 -> Z.testbit (foldl (hide_claimed s cur) w l) k = Z.testbit w k && negb (bool_decide (k ∈ l) && claimed_away s cur k).
Proof.
  induction l as [|j l IH]; intros Fl w Fw; cbn [foldl].
  { split; [done|]. intros k Bk. by rewrite (bool_decide_eq_false_2 (k ∈ [])), andb_true_r by apply not_elem_of_nil. }
  apply Forall_cons_1 in Fl as [Bj Fl]. destruct (IH Fl _ (hide_claimed_fits s cur w j Fw)) as [F E]. split; [done|]. intros k Bk.
  rewrite E, hide_claimed_bits by done. rewrite <- andb_assoc. f_equal. destruct (Z.eqb_spec j k) as [->|N]; cbn [andb].
  - rewrite (bool_decide_eq_true_2 (k ∈ k :: l)) by (by left). cbn [andb]. destruct (claimed_away s cur k); [done|]. by rewrite andb_false_r.
  - rewrite (bool_decide_ext (k ∈ j :: l) (k ∈ l)); [done|]. rewrite elem_of_cons. split; [by intros [?|?]|by right].
Qed.

Lemma visible_spec s cur : base_ok s -> fits64 (shared_visible_locked s cur) /\
  forall k, 0 <= k < 64 -> Z.testbit (shared_visible_locked s cur) k = Z.testbit (p_pending (s_shared s)) k && negb (claimed_away s cur k).
Proof.
  intros B. pose proof (so_fits _ _ _ (bo_shared s B)) as Fp. pose proof (co_fits s (bo_claims s B)) as Fc. unfold shared_visible_locked.
  destruct (visible_fold s cur (set_bits (Z.land (s_claimed s) (p_pending (s_shared s))))) with (w := p_pending (s_shared s)) as [F E]; [|done|].
  { apply list.Forall_forall. intros j X. apply elem_of_set_bits in X as [? _]; [done|by apply land_fits]. }
  split; [done|]. intros k Bk. rewrite (E k Bk). destruct (Z.testbit (p_pending (s_shared s)) k) eqn:T; [|done]. cbn [andb]. f_equal.
  destruct (Z.testbit (s_claimed s) k) eqn:C.
  - rewrite bool_decide_eq_true_2; [done|]. apply elem_of_set_bits; [by apply land_fits|]. split; [done|]. by rewrite Z.land_spec, C, T.
  - rewrite bool_decide_eq_false_2. 2: { rewrite elem_of_set_bits by (by apply land_fits). intros [_ X]. by rewrite Z.land_spec, C in X. }
    rewrite (co_owner s (bo_claims s B)) in C by done. apply bool_decide_eq_false in C. unfold claimed_away. destruct ((s_owner s).[k]); [|by rewrite andb_false_r].
    by destruct C.
Qed.

Lemma visible_sub s cur k : base_ok s -> 0 <= k < 64 -> Z.testbit (shared_visible_locked s cur) k = true -> Z.testbit (p_pending (s_shared s)) k = true.
Proof. intros B Bk. rewrite (proj2 (visible_spec s cur B)) by done. by intros [? _]%andb_prop. Qed.

Lemma own_fits s cur : base_ok s -> fits64 (own_pending s cur).
Proof. intros B. destruct cur as [i|]; [apply (bo_threads s B i)|done]. Qed.

(** ** Queueing *)

Lemma only_pending pid uid s q p p' : only pid uid s q p p' -> set_ok pid uid p -> valid_signal s ->
  Z.testbit (p_pending p') (s - 1) = bool_decide (q <> []) /\
  forall k, 0 <= k < 64 -> k <> s - 1 -> Z.testbit (p_pending p') k = Z.testbit (p_pending p) k.
Proof.
  intros (O' & Q & R) O V. split.
  - by rewrite (pending_queued _ _ p' s O' V), Q.
  - intros k Bk N. assert (Vk : valid_signal (k + 1)) by (unfold valid_signal; lia). replace k with (k + 1 - 1) by lia.
    rewrite (pending_queued _ _ p' _ O' Vk), (pending_queued _ _ p _ O Vk), R by (done || lia). done.
Qed.

Lemma push_nonempty s q e : push s q e <> [].
Proof.
  unfold push. case_if; [by destruct q|]. destruct (32 <=? length q)%nat eqn:L; [|by destruct q]. destruct q; [done|done].
Qed.

Lemma enqueue_set_ok s p signum info : set_ok 0 0 p -> valid_signal signum -> (forall e, info = Some e -> si_signum e = signum) ->
  set_ok 0 0 (signal_enqueue_locked (s_pid s) (s_uid s) p signum info) /\
  forall k, 0 <= k < 64 -> Z.testbit (p_pending p) k = true -> Z.testbit (p_pending (signal_enqueue_locked (s_pid s) (s_uid s) p signum info)) k = true.
Proof.
  intros O V N. apply (set_ok_id _ _ (s_pid s) (s_uid s)) in O. pose proof (enqueue_only _ _ p signum info O V N) as U.
  split; [by apply (set_ok_id (s_pid s) (s_uid s)), U|]. destruct (only_pending _ _ _ _ _ _ U O V) as [U1 U2].
  intros k Bk T. destruct (Z.eq_dec k (signum - 1)) as [->|Nk]; [|by rewrite U2]. rewrite U1. apply bool_decide_eq_true, push_nonempty.
Qed.

Lemma signal_guard signum : ((signum <? 1) || (LINUX_NSIG <? signum)) = false -> valid_signal signum.
Proof. intros G. unfold LINUX_NSIG in G. unbool. unfold valid_signal. lia. Qed.

Lemma queue_shared_base signum info s : base_ok s -> valid_signal signum -> (forall e, info = Some e -> si_signum e = signum) ->
  base_ok (set_shared (signal_enqueue_locked (s_pid s) (s_uid s) (s_shared s) signum info) s).
Proof.
  intros B V N. destruct (enqueue_set_ok s (s_shared s) signum info (bo_shared s B) V N) as [O K]. apply base_set_shared; [done| |done].
  destruct (bo_claims s B) as [C1 C2 C3 C4]. constructor; cbn [set_shared s_claimed s_owner s_shared]; auto.
Qed.

Lemma queue_shared_ok cur signum info s : (forall e, info = Some e -> si_signum e = signum) -> sig_ok s -> sig_ok (signal_queue_shared cur signum info s).
Proof.
  intros N [B H]. unfold signal_queue_shared. destruct (_ || _) eqn:G; [done|]. apply signal_guard in G.
  pose proof (notify_ok signum _ (refresh_ok _ (queue_shared_base signum info s B G N))) as O. cbv zeta. case_if; [by apply attention_raise_ok|done].
Qed.

Lemma queue_thread_ok cur tid signum info s : (forall e, info = Some e -> si_signum e = signum) -> sig_ok s ->
  sig_ok (signal_queue_thread_common cur tid signum info s).2.
Proof.
  intros N [B H]. unfold signal_queue_thread_common. destruct (_ || _) eqn:G; [done|]. apply signal_guard in G. destruct (thread_find_locked s tid) as [t|]; [|done].
  set (f := fun th => _). cbn [snd]. cbv zeta. assert (O : base_ok (upd_thread t f s)).
  { apply base_upd_thread; [|done]. intros (T1 & T2 & T3). split; [|done]. by apply enqueue_set_ok. }
  apply refresh_ok in O. apply (notify_ok signum) in O. case_if; [by apply attention_raise_ok|done].
Qed.

(** ** Taking *)

Lemma set_of_ok s src : base_ok s -> set_ok (s_pid s) (s_uid s) (set_of s src).
Proof. intros B. apply (set_ok_id 0 0). destruct src as [i|]; [apply (bo_threads s B i)|apply B]. Qed.

Lemma set_slots_ok l s : sig_ok s -> sig_ok (set_slots l s).
Proof. intros [B H]. split; [by apply (base_ext s)|by apply (hint_ext s)]. Qed.

(** The state between the dequeue and the refresh of the hint. *)
Definition put_back (src : option nat) (signum : Z) (p : signal_pending_t) (s : signals) : signals :=
  match src with Some i => upd_thread i (set_th_pending p) s | None => shared_claim_release_locked signum (set_shared p s) end.

Lemma put_back_base src signum q p s : base_ok s -> valid_signal signum -> only (s_pid s) (s_uid s) signum q (set_of s src) p -> base_ok (put_back src signum p s).
Proof.
  intros B V U. pose proof (set_ok_id _ _ 0 0 _ (proj1 U)) as O. destruct (only_pending _ _ _ _ _ _ U (set_of_ok s src B) V) as [_ K].
  destruct src as [i|]; cbn [put_back].
  - apply base_upd_thread; [|done]. by intros (T1 & T2 & T3).
  - assert (C : claims_ok (shared_claim_release_locked signum (set_shared p s))).
    { apply release_claims_ok; [apply B|done|]. intros k Bk N. by rewrite K. }
    constructor; try apply B; [by destruct (bo_acts s B)|done|done].
Qed.

(** What a dequeue does, for the signal at the head of a queue. *)
Lemma dequeue_spec src signum s e q : base_ok s -> valid_signal signum -> queued (s_pid s) (s_uid s) (set_of s src) signum = e :: q ->
  exists p s1, dequeue_locked src signum s = ((posix_timer_dequeued_locked (pts_slots (s_timers s)) e).1.1, refresh_pending_hint_locked (put_back src signum p s1)) /\
    only (s_pid s) (s_uid s) signum q (set_of s src) p /\
    (s1 = set_slots (posix_timer_dequeued_locked (pts_slots (s_timers s)) e).1.2 s \/
     s1 = ring_parked (set_slots (posix_timer_dequeued_locked (pts_slots (s_timers s)) e).1.2 s)).
Proof.
  intros B V Q. destruct (take_only _ _ (pts_slots (s_timers s)) _ signum e q (set_of_ok s src B) V Q) as (p & T & U). unfold dequeue_locked.
  change (match src with Some i => th_pending (thread_at s i) | None => s_shared s end) with (set_of s src). rewrite T.
  eexists p, _. split_and!; [done|done|]. destruct (posix_timer_dequeued_locked _ e) as [[? ?] []]; auto.
Qed.

Lemma ring_parked_same s : base_ok s -> base_ok (ring_parked s).
Proof. intros B. unfold ring_parked. case_if; [by apply (base_ext s)|done]. Qed.

Lemma dequeue_ok src signum s : base_ok s -> valid_signal signum -> Z.testbit (p_pending (set_of s src)) (signum - 1) = true ->
  sig_ok (dequeue_locked src signum s).2.
Proof.
  intros B V T. rewrite (pending_queued (s_pid s) (s_uid s)) in T by (done || by apply set_of_ok). apply bool_decide_eq_true in T.
  destruct (queued _ _ (set_of s src) signum) as [|e q] eqn:Q; [done|]. destruct (dequeue_spec src signum s e q B V Q) as (p & s1 & -> & U & S1).
  cbn [snd]. apply refresh_ok. assert (B1 : base_ok s1) by (destruct S1 as [->| ->]; [|apply ring_parked_same]; by apply (base_ext s)).
  assert (E : set_of s1 src = set_of s src /\ s_pid s1 = s_pid s /\ s_uid s1 = s_uid s) by (destruct S1 as [->| ->]; unfold ring_parked; try case_if; by destruct src).
  destruct E as (E1 & E2 & E3). apply (put_back_base src signum q); [done|done|]. by rewrite E1, E2, E3.
Qed.

(** ** Choosing *)

Lemma ctz_valid w : fits64 w -> w <> 0 -> valid_signal (bit_ctz64 w + 1) /\ Z.testbit w (bit_ctz64 w + 1 - 1) = true.
Proof. intros F N. destruct (ctz_spec w F N) as (B & T & _). unfold valid_signal. rewrite Z.add_simpl_r. split; [lia|done]. Qed.

Lemma lor_zero a b : Z.lor a b = 0 <-> a = 0 /\ b = 0.
Proof. apply Z.lor_eq_0_iff. Qed.

Lemma claimed_by_spec s cur within : base_ok s -> fits64 within -> fits64 (claimed_by s cur within) /\
  forall k, 0 <= k < 64 -> Z.testbit (claimed_by s cur within) k = Z.testbit (s_claimed s) k && Z.testbit within k && bool_decide ((s_owner s).[k] = cur).
Proof.
  intros B F. unfold claimed_by. assert (Fl : fits64 (Z.land (s_claimed s) within)) by (apply land_fits, B).
  assert (G : forall l w, Forall (fun j => 0 <= j < 64) l -> fits64 w ->
    let r := foldl (fun acc idx => if bool_decide ((s_owner s).[idx] = cur) then Z.lor acc (Z.shiftl 1 idx) else acc) w l in
    fits64 r /\ forall k, 0 <= k < 64 -> Z.testbit r k = Z.testbit w k || (bool_decide (k ∈ l) && bool_decide ((s_owner s).[k] = cur))).
  { induction l as [|j l IH]; intros w Fj Fw; cbn [foldl].
    { split; [done|]. intros k _. by rewrite (bool_decide_eq_false_2 (k ∈ [])), orb_false_r by apply not_elem_of_nil. }
    apply Forall_cons_1 in Fj as [Bj Fj]. set (w' := if bool_decide _ then _ else _).
    assert (Fw' : fits64 w') by (unfold w'; case_bool_decide; [apply lor_fits; [done|by apply bit_fits]|done]).
    destruct (IH w' Fj Fw') as [F1 E]. split; [done|]. intros k Bk. rewrite (E k Bk). destruct (Z.eq_dec j k) as [->|N].
    - rewrite (bool_decide_eq_true_2 (k ∈ k :: l)) by (by left). unfold w'. case_bool_decide; [|by rewrite !andb_false_r].
      by rewrite Z.lor_spec, one_bit, Z.eqb_refl, !andb_true_r, !orb_true_r by lia.
    - rewrite (bool_decide_ext (k ∈ j :: l) (k ∈ l)) by (rewrite elem_of_cons; split; [by intros [?|?]|by right]).
      unfold w'. case_bool_decide; [|done]. rewrite Z.lor_spec, one_bit by lia. by rewrite (proj2 (Z.eqb_neq j k)), orb_false_r by done. }
  destruct (G (set_bits (Z.land (s_claimed s) within)) 0) as [F1 E]; [|done|].
  { apply list.Forall_forall. intros j X. by apply elem_of_set_bits in X as [? _]. }
  split; [done|]. intros k Bk. rewrite (E k Bk), Z.bits_0. cbn [orb]. f_equal. rewrite <- Z.land_spec.
  rewrite (bool_decide_ext _ (Z.testbit (Z.land (s_claimed s) within) k = true)) by (rewrite elem_of_set_bits by done; tauto). by destruct (Z.testbit _ k).
Qed.

(** The signal a delivery takes is pending, accepted by the thread, and not claimed
    by another one. *)
Lemma deliver_pick_spec s cur signum src : base_ok s -> deliver_pick s cur = Some (signum, src) ->
  valid_signal signum /\ Z.testbit (blocked_of s cur) (signum - 1) = false /\ Z.testbit (p_pending (set_of s src)) (signum - 1) = true /\
  ((src = cur /\ is_Some cur) \/ (src = None /\ claimed_away s cur (signum - 1) = false)).
Proof.
  intros B. unfold deliver_pick. destruct (visible_spec s cur B) as [Fv V]. pose proof (own_fits s cur B) as Fo.
  destruct (blocked_maskable s cur B) as [Fb _]. set (nb := not64 (blocked_of s cur)).
  assert (Sh : forall w, fits64 w -> w <> 0 -> (forall k, 0 <= k < 64 -> Z.testbit w k = true -> Z.testbit (Z.land (shared_visible_locked s cur) nb) k = true) ->
    valid_signal (bit_ctz64 w + 1) /\ Z.testbit (blocked_of s cur) (bit_ctz64 w + 1 - 1) = false /\
    Z.testbit (p_pending (set_of s None)) (bit_ctz64 w + 1 - 1) = true /\ claimed_away s cur (bit_ctz64 w + 1 - 1) = false).
  { intros w F N Sub. destruct (ctz_valid w F N) as [Vs T]. set (k := bit_ctz64 w + 1 - 1) in *. assert (Bk : 0 <= k < 64) by (unfold valid_signal in Vs; lia).
    apply (Sub k Bk) in T. unfold nb in T. rewrite Z.land_spec, not64_spec, V in T by lia. rewrite (proj2 (Z.ltb_lt k 64)), xorb_true_r in T by lia.
    apply andb_prop in T as [[T1 T2]%andb_prop T3]. apply negb_true_iff in T2, T3. done. }
  destruct (_ =? 0) eqn:Z0; [done|]. set (cl := match cur with Some _ => if saved_valid_of s cur then _ else 0 | None => 0 end).
  assert (Fl : fits64 (Z.land (shared_visible_locked s cur) nb)) by (by apply land_fits). destruct (Z.eqb_spec cl 0) as [C0|C0]; cbn [negb].
  - set (td := match cur with Some _ => _ | None => 0 end) in *. assert (Ft : fits64 td) by (unfold td; destruct cur; [by apply land_fits|done]).
    destruct (Z.eqb_spec td 0) as [T0|T0]; cbn [negb]; intros [= <- <-].
    + destruct (Sh (Z.land (shared_visible_locked s cur) nb) Fl) as (S1 & S2 & S3 & S4); [|done|split_and!; auto]. unbool. intros E. apply Z0. by rewrite T0, E.
    + destruct (ctz_valid td Ft T0) as [Vs T]. set (k := bit_ctz64 td + 1 - 1) in *. assert (Bk : 0 <= k < 64) by (unfold valid_signal in Vs; lia).
      unfold td in T. destruct cur as [i|]; [|by rewrite Z.bits_0 in T]. unfold nb in T. rewrite Z.land_spec, not64_spec in T by lia.
      rewrite (proj2 (Z.ltb_lt k 64)), xorb_true_r in T by lia. apply andb_prop in T as [T1 T2]. apply negb_true_iff in T2. split_and!; eauto.
  - intros [= <- <-]. destruct cur as [i|]; [|done]. unfold cl in C0 |- *. destruct (saved_valid_of s (Some i)); [|done].
    destruct (claimed_by_spec s (Some i) _ B Fl) as [Fc C]. destruct (Sh _ Fc C0) as (S1 & S2 & S3 & S4); [|split_and!; auto].
    intros k Bk. rewrite (C k Bk). by intros [[_ X]%andb_prop _]%andb_prop.
Qed.

(** The signal rt_sigtimedwait takes. *)
Lemma try_dequeue_cases cur mask s : base_ok s -> fits64 mask ->
  (sigtimedwait_try_dequeue cur mask s = (None, s)) \/
  exists signum src, valid_signal signum /\ Z.testbit mask (signum - 1) = true /\ Z.testbit (p_pending (set_of s src)) (signum - 1) = true /\
    ((src = cur /\ is_Some cur) \/ (src = None /\ claimed_away s cur (signum - 1) = false)) /\
    sigtimedwait_try_dequeue cur mask s = (Some (signum, (dequeue_locked src signum s).1), (dequeue_locked src signum s).2).
Proof.
  intros B Fm. destruct (visible_spec s cur B) as [Fv V]. pose proof (own_fits s cur B) as Fo. unfold sigtimedwait_try_dequeue.
  set (tm := match cur with Some _ => _ | None => 0 end). set (sm := Z.land (shared_visible_locked s cur) mask).
  assert (Ft : fits64 tm) by (unfold tm; destruct cur; [by apply land_fits|done]). assert (Fs : fits64 sm) by (by apply land_fits).
  destruct (Z.eqb_spec (Z.lor tm sm) 0) as [Z0|Z0]; [by left|right]. destruct (Z.eqb_spec tm 0) as [T0|T0]; cbn [negb].
  - destruct (ctz_valid sm Fs) as [Vs T]; [intros E; apply Z0; by rewrite T0, E|]. exists (bit_ctz64 sm + 1), None.
    assert (Bk : 0 <= bit_ctz64 sm + 1 - 1 < 64) by (unfold valid_signal in Vs; lia). unfold sm in T at 1. rewrite Z.land_spec, V in T by done.
    apply andb_prop in T as [[T1 T2]%andb_prop T3]. apply negb_true_iff in T2. split_and!; [done|done|done|auto|]. by destruct (dequeue_locked _ _ _).
  - destruct (ctz_valid tm Ft T0) as [Vs T]. exists (bit_ctz64 tm + 1), cur. unfold tm in T at 1. destruct cur as [i|]; [|by rewrite Z.bits_0 in T].
    rewrite Z.land_spec in T. apply andb_prop in T as [T1 T2]. split_and!; [done|done|done|eauto|]. by destruct (dequeue_locked _ _ _).
Qed.

(** ** Waking *)

(** [signal_first_waking_locked] finds the lowest signal of the set that reaches the
    guest, and answers 0 only when there is none. *)
Lemma first_waking_spec s w : fits64 w ->
  (signal_first_waking_locked s w = 0 /\ forall k, 0 <= k < 64 -> Z.testbit w k = true -> discarded s k = true) \/
  (let signum := signal_first_waking_locked s w in
   valid_signal signum /\ Z.testbit w (signum - 1) = true /\ discarded s (signum - 1) = false /\
   forall k, 0 <= k < signum - 1 -> Z.testbit w k = true -> discarded s k = true).
Proof.
  intros F. unfold signal_first_waking_locked. destruct (list_find _ (set_bits w)) as [[n idx]|] eqn:L.
  - right. apply list_find_Some in L as (L1 & L2 & L3). cbn zeta. rewrite Z.add_simpl_r.
    pose proof (list_elem_of_lookup_2 _ _ _ L1) as X. apply elem_of_set_bits in X as [B T]; [|done].
    split_and!; [unfold valid_signal; lia|done|done|]. intros k Bk Tk. assert (Xk : k ∈ set_bits w) by (apply elem_of_set_bits; [done|split; [lia|done]]).
    apply list_elem_of_lookup in Xk as (m & M). destruct (Nat.lt_ge_cases m n) as [Lt|Ge].
    + specialize (L3 m k M Lt). by destruct (discarded s k).
    + exfalso. pose proof (set_bits_sorted w F) as S. destruct (Nat.eq_dec n m) as [->|Ne]; [rewrite L1 in M; injection M as ->; lia|].
      assert (Lt : (n < m)%nat) by lia. clear - S L1 M Lt Bk. revert n m L1 M Lt. induction S as [|a l S IH Fa]; intros n m L1 M Lt; [done|].
      destruct m as [|m]; [lia|]. cbn in M. destruct n as [|n]; cbn in L1.
      * injection L1 as ->. rewrite list.Forall_forall in Fa. specialize (Fa k (list_elem_of_lookup_2 _ _ _ M)). lia.
      * by apply (IH n m); [done|done|lia].
  - left. split; [done|]. intros k Bk T. apply list_find_None in L. rewrite list.Forall_forall in L.
    specialize (L k). rewrite elem_of_set_bits in L by done. destruct (discarded s k); [done|]. destruct L; auto.
Qed.

Lemma claim_ok cur signum s : base_ok s -> valid_signal signum -> Z.testbit (p_pending (s_shared s)) (signum - 1) = true -> is_Some cur ->
  base_ok (set_claims (Z.lor (s_claimed s) (sig_bit signum)) (s_owner s).[signum - 1 := cur] s).
Proof.
  intros B V T C. apply base_set_claims; [|done]. destruct (bo_claims s B) as [C1 C2 C3 C4]. unfold valid_signal in V.
  constructor; cbn [set_claims s_claimed s_owner s_shared].
  - apply lor_fits; [done|apply sig_bit_fits].
  - by rewrite length_aset.
  - intros k Bk. rewrite testbit_or by lia. destruct (Z.eqb_spec k (signum - 1)) as [->|]; [done|]. rewrite orb_false_r. auto.
  - intros k Bk. rewrite testbit_or, C4 by lia. destruct (Z.eqb_spec k (signum - 1)) as [->|N].
    + rewrite aget_aset by (rewrite C2; lia). rewrite orb_true_r. symmetry. by apply bool_decide_eq_true.
    + rewrite aget_aset_ne by lia. apply orb_false_r.
Qed.

(** What a claim returns: nothing that reaches the guest is pending, or the first
    such signal, which is then the thread's own, or the shared set's and claimed. *)
Lemma claim_waking_spec cur blocked s : base_ok s -> fits64 blocked ->
  let '(signum, s') := signal_claim_waking_locked cur blocked s in
  (signum = 0 /\ s' = s /\ forall k, 0 <= k < 64 -> Z.testbit (self_pending_locked s cur) k = true -> Z.testbit blocked k = false -> discarded s k = true) \/
  (valid_signal signum /\ Z.testbit blocked (signum - 1) = false /\ discarded s (signum - 1) = false /\
   ((s' = s /\ Z.testbit (own_pending s cur) (signum - 1) = true) \/
    (Z.testbit (p_pending (s_shared s)) (signum - 1) = true /\ claimed_away s cur (signum - 1) = false /\
     s' = match cur with Some _ => set_claims (Z.lor (s_claimed s) (sig_bit signum)) (s_owner s).[signum - 1 := cur] s | None => s end))).
Proof.
  intros B Fb. destruct (visible_spec s cur B) as [Fv V]. pose proof (own_fits s cur B) as Fo. unfold signal_claim_waking_locked.
  assert (Not : forall w k, 0 <= k < 64 -> Z.testbit (Z.land w (not64 blocked)) k = Z.testbit w k && negb (Z.testbit blocked k)).
  { intros w k Bk. rewrite Z.land_spec, not64_spec by lia. by rewrite (proj2 (Z.ltb_lt k 64)), xorb_true_r by lia. }
  set (w1 := match cur with Some _ => _ | None => 0 end). set (w2 := Z.land (shared_visible_locked s cur) (not64 blocked)).
  assert (F1 : fits64 w1) by (unfold w1; destruct cur; [by apply land_fits|done]). assert (F2 : fits64 w2) by (by apply land_fits).
  assert (T1 : forall k, 0 <= k < 64 -> Z.testbit w1 k = Z.testbit (own_pending s cur) k && negb (Z.testbit blocked k)).
  { intros k Bk. unfold w1. destruct cur; [by apply Not|]. cbn. by rewrite Z.bits_0. }
  destruct (first_waking_spec s w1 F1) as [[E1 N1]|(V1 & A1 & D1 & _)].
  - rewrite E1. cbn [Z.eqb negb]. destruct (first_waking_spec s w2 F2) as [[E2 N2]|(V2 & A2 & D2 & _)].
    + rewrite E2. cbn [Z.eqb negb andb]. left. split_and!; [done|done|]. intros k Bk. unfold self_pending_locked. rewrite Z.lor_spec, orb_true_iff.
      intros [T|T] U; [apply N2; [done|]|apply N1; [done|]]; [unfold w2; rewrite Not by done|rewrite T1 by done]; by rewrite T, U.
    + set (signum := signal_first_waking_locked s w2) in *. assert (Bk : 0 <= signum - 1 < 64) by (unfold valid_signal in V2; lia).
      unfold w2 in A2. rewrite Not, V in A2 by done. apply andb_prop in A2 as [[A2 A3]%andb_prop A4]. apply negb_true_iff in A3, A4.
      rewrite (proj2 (Z.eqb_neq signum 0)) by (unfold valid_signal in V2; lia). cbn [negb andb].
      destruct cur as [i|]; cbn; right; split_and!; auto.
  - set (signum := signal_first_waking_locked s w1) in *. assert (Bk : 0 <= signum - 1 < 64) by (unfold valid_signal in V1; lia).
    rewrite (proj2 (Z.eqb_neq signum 0)) by (unfold valid_signal in V1; lia). cbn [negb]. rewrite T1 in A1 by done.
    apply andb_prop in A1 as [A1 A2]. apply negb_true_iff in A2. right. split_and!; auto.
Qed.

Lemma claim_waking_ok cur blocked s : fits64 blocked -> sig_ok s -> sig_ok (signal_claim_waking_locked cur blocked s).2.
Proof.
  intros Fb [B H]. pose proof (claim_waking_spec cur blocked s B Fb) as C. destruct (signal_claim_waking_locked cur blocked s) as [signum s'].
  cbn [snd]. destruct C as [(_ & -> & _)|(V & _ & _ & [[-> _]|(T & _ & ->)])]; [done|done|]. destruct cur as [i|]; [|done].
  split; [apply claim_ok; eauto|by apply (hint_ext s)].
Qed.
