(* ===== verification/SigLife.v ===== *)
(** * All signal operations, interleaved

    [sig_step] has one constructor per critical section of src/syscall/signal.c (and
    per change of the thread table that signals see), made by any thread at any time;
    every reachable state satisfies the invariant of [SigFacts]. *)

From S2P Require Import Prelude Bits FutexWord SigQueue SigQueueFacts Signal SigFacts.
From stdpp Require Import relations.

#[local] Open Scope Z_scope.

(** ** Each operation keeps the invariant *)

Lemma release_one_ok signum s : valid_signal signum -> sig_ok s -> sig_ok (shared_claim_release_locked signum s).
Proof.
  intros V [B H]. split; [|by apply (hint_ext s)]. apply base_set_claims; [|done].
  pose proof (release_claims_ok s (s_shared s) signum (bo_claims s B) V ltac:(done)) as [C1 C2 C3 C4]. by constructor.
Qed.

Lemma release_claims_locked_ok t s : sig_ok s -> sig_ok (signal_release_claims_locked t s).1.
Proof.
  intros O. unfold signal_release_claims_locked. assert (Fl : Forall (fun j => 0 <= j < 64) (set_bits (s_claimed s))).
  { apply list.Forall_forall. intros j X. by apply elem_of_set_bits in X as [? _]; [|apply O]. }
  generalize false. revert Fl O. generalize (set_bits (s_claimed s)). intros l. revert s. induction l as [|j l IH]; intros s Fl O b; cbn [foldl]; [done|].
  apply Forall_cons_1 in Fl as [Bj Fl]. case_bool_decide; [|by apply IH]. apply IH; [done|]. apply release_one_ok; [unfold valid_signal; lia|done].
Qed.

Lemma release_claims_op_ok cur t s : sig_ok s -> sig_ok (signal_release_claims cur t s).
Proof.
  intros O. unfold signal_release_claims. pose proof (release_claims_locked_ok t s O) as R. destruct (signal_release_claims_locked t s) as [s' []]; [by apply attention_raise_ok|done].
Qed.

(** ** Discarding *)

(** What the releases leave of the claims. *)
Lemma release_fold_spec l : Forall valid_signal l -> forall s, length (s_owner s) = 64%nat -> fits64 (s_claimed s) ->
  let s' := foldl (fun s signum => shared_claim_release_locked signum s) s l in
  length (s_owner s') = 64%nat /\ fits64 (s_claimed s') /\ s' = set_claims (s_claimed s') (s_owner s') s /\
  forall k, 0 <= k < 64 -> Z.testbit (s_claimed s') k = Z.testbit (s_claimed s) k && negb (bool_decide (k + 1 ∈ l)) /\
    (s_owner s').[k] = if bool_decide (k + 1 ∈ l) then None else (s_owner s).[k].
Proof.
  induction l as [|signum l IH]; intros F s Lo Fc; cbn [foldl].
  { split_and!; [done|done|by destruct s|]. intros k _. by rewrite !bool_decide_eq_false_2, andb_true_r by apply not_elem_of_nil. }
  apply Forall_cons_1 in F as [V F]. unfold valid_signal in V. set (s1 := shared_claim_release_locked signum s).
  destruct (IH F s1) as (L' & F' & E' & K); [by cbn; rewrite length_aset|by apply land_fits|]. split_and!; [done|done|exact E'|].
  intros k Bk. destruct (K k Bk) as [K1 K2]. rewrite K1, K2. cbn [s1 shared_claim_release_locked set_claims s_claimed s_owner]. rewrite testbit_clear by lia.
  destruct (Z.eqb_spec k (signum - 1)) as [->|N].
  - rewrite Z.sub_add, (bool_decide_eq_true_2 (signum ∈ signum :: l)) by (by left). rewrite aget_aset by lia. cbn [negb]. rewrite !andb_false_r. split; [done|by destruct (bool_decide (signum ∈ l))].
  - rewrite (bool_decide_ext (k + 1 ∈ signum :: l) (k + 1 ∈ l)) by (rewrite elem_of_cons; split; [intros [?|?]; [lia|done]|by right]).
    rewrite aget_aset_ne by lia. by rewrite andb_true_r.
Qed.

Lemma discard_shared_base id s : base_ok s -> base_ok (discard_shared id s).
Proof.
  intros B. unfold discard_shared. destruct (discard_all 0 0 id (s_shared s) (bo_shared s B)) as (p & released & -> & O & Q & R).
  assert (F : Forall valid_signal released) by (apply list.Forall_forall; intros x X; by apply R in X as [? _]).
  destruct (release_fold_spec released F (set_shared p s) (co_len s (bo_claims s B)) (co_fits s (bo_claims s B))) as (L' & F' & E & K).
  set (s' := foldl _ _ _) in *. rewrite E. constructor; try apply B; [by destruct (bo_acts s B)|done|].
  constructor; cbn [set_claims set_shared s_claimed s_owner s_shared]; [done|done| |].
  - intros k Bk. destruct (K k Bk) as [-> _]. cbn [set_shared s_claimed]. intros [T N]%andb_prop. apply (co_pending s (bo_claims s B) k Bk) in T.
    assert (V : valid_signal (k + 1)) by (unfold valid_signal; lia). replace k with (k + 1 - 1) in T |- * by lia.
    apply (queued_bit 0 0) in T; [|apply B|done]. apply (queued_bit 0 0); [done|done|]. intros X. apply negb_true_iff, bool_decide_eq_false in N. by apply N, R.
  - intros k Bk. destruct (K k Bk) as [-> ->]. cbn [set_shared s_claimed s_owner]. rewrite (co_owner s (bo_claims s B)) by done.
    destruct (bool_decide (k + 1 ∈ released)); cbn [negb]; [by rewrite andb_false_r|by rewrite andb_true_r].
Qed.

Lemma base_set_timers ts s : base_ok s -> base_ok (set_timers ts s).
Proof. intros B. by apply (base_ext s). Qed.
Lemma base_set_slots l s : base_ok s -> base_ok (set_slots l s).
Proof. intros B. by apply (base_ext s). Qed.
Lemma base_poll_hint s : base_ok s -> base_ok (posix_timer_refresh_poll_hint_locked s).
Proof. intros B. by apply (base_ext s). Qed.

(** ** The overrun counts of queued notifications *)

Lemma refresh_ring h f r c : 0 <= c <= 32 -> length r = 32%nat ->
  let r' := foldl (fun (ring : list signal_rt_info_t) n => ring.[(h + n) mod 32 := f ring.[(h + n) mod 32]]) r (seqZ 0 c) in
  length r' = 32%nat /\ ring_list h c r' = f <$> ring_list h c r /\ forall m, c <= m < 32 -> r'.[(h + m) mod 32] = r.[(h + m) mod 32].
Proof.
  intros Bc Lr. assert (P0 : 0 <= c) by lia. revert Bc. pattern c. apply Z_lt_induction; [|done]. clear c P0. intros c IH Bc.
  destruct (Z.eq_dec c 0) as [->|N]; [done|]. destruct (IH (c - 1) ltac:(lia) ltac:(lia)) as (L1 & Q1 & K1).
  assert (Es : seqZ 0 c = seqZ 0 (c - 1) ++ [c - 1]).
  { rewrite <- (Z.sub_add 1 c) at 1. rewrite seqZ_app by lia. by rewrite Z.add_0_l. }
  cbv zeta in *. rewrite Es, foldl_app. cbn [foldl]. set (r1 := foldl _ r (seqZ 0 (c - 1))) in *.
  assert (M : 0 <= (h + (c - 1)) mod 32 < 32) by (apply Z.mod_pos_bound; lia). split_and!.
  - by rewrite length_aset.
  - assert (Ec : forall x, ring_list h c x = ring_list h (c - 1 + 1) x) by (intros x; f_equal; lia). rewrite !Ec, ring_list_snoc by (done || lia). rewrite ring_list_app, ring_list_one, fmap_app, Q1 by lia. cbn. by rewrite K1 by lia.
  - intros m Bm. rewrite aget_aset_ne; [apply K1; lia|lia|apply Z.mod_pos_bound; lia|apply mod32_ne; lia].
Qed.

Lemma refresh_entry_signum t e : si_signum (refresh_entry t e) = si_signum e.
Proof. unfold refresh_entry. by case_if. Qed.

Lemma update_pending_only pid uid t p : set_ok pid uid p -> valid_signal (pt_signum t) ->
  only pid uid (pt_signum t) (refresh_entry t <$> queued pid uid p (pt_signum t)) p (posix_timer_update_pending_locked t p).
Proof.
  intros O V. pose proof (so_named _ _ p O _ V) as Nm. unfold valid_signal in V. unfold posix_timer_update_pending_locked, LINUX_SIGRTMIN. set (s := pt_signum t) in *.
  destruct (Z.ltb_spec s 32) as [B|B].
  - pose proof (std_update pid uid p (s - 1) (p_pending p) (Z.testbit (p_pending p) (s - 1)) (p_std_valid p).[s - 1] (refresh_entry t (p_std_info p).[s - 1])
      O ltac:(lia) (so_fits _ _ p O)) as U.
    rewrite aset_id in U. replace (s - 1 + 1) with s in U by lia. unfold queued in Nm |- *. rewrite (proj2 (Z.ltb_lt s 32)) in * by lia.
    unfold signal_standard_peek_locked in *. assert (E : (refresh_entry t <$> (if Z.testbit (p_pending p) (s - 1) then
        [if (p_std_valid p).[s - 1] then (p_std_info p).[s - 1] else signal_default_info pid uid s] else [])) =
      (if Z.testbit (p_pending p) (s - 1) then [if (p_std_valid p).[s - 1] then refresh_entry t (p_std_info p).[s - 1] else signal_default_info pid uid s] else [])).
    { destruct (Z.testbit _ _); [|done]. by destruct ((p_std_valid p).[s - 1]). }
    rewrite E. apply U.
    + intros T V'. rewrite T, V', Forall_singleton in Nm. by rewrite refresh_entry_signum.
    + intros k Bk. by destruct (Z.eqb_spec k (s - 1)) as [->|].
  - assert (Q : queued pid uid p s = rt_list p (s - 32)) by (unfold queued; by rewrite (proj2 (Z.ltb_ge s 32)) by lia). unfold rt_list in Q. rewrite Q in *.
    set (i := s - 32) in *. pose proof (so_counts _ _ p O i ltac:(lia)) as Bc. pose proof (so_heads _ _ p O i ltac:(lia)) as Bh. pose proof (so_ring _ _ p O i ltac:(lia)) as Lr.
    destruct (refresh_ring (p_rt_head p).[i] (refresh_entry t) (p_rt_info p).[i] (p_rt_queue p).[i] Bc Lr) as (L' & Q' & _).
    unfold RT_SIGQUEUE_MAX. set (r' := foldl _ _ _) in *. rewrite <- Q'.
    pose proof (rt_update pid uid p i (p_pending p) (p_rt_queue p).[i] (p_rt_head p).[i] r' O ltac:(lia) (so_fits _ _ p O) Bc Bh L') as U.
    rewrite !aset_id in U. replace (32 + i) with s in * by lia. apply U.
    + intros k Bk. destruct (Z.eqb_spec k (31 + i)) as [->|]; [|done]. apply O. lia.
    + rewrite Q'. apply Forall_fmap. eapply list.Forall_impl; [exact Nm|]. intros e <-. apply refresh_entry_signum.
Qed.

(** ** Timers *)

Definition clock (now : Z) : Prop := 0 <= now <= INT64_MAX.

Record timer_ok (t : guest_posix_timer_t) : Prop := {
  tk_signum : pt_signum t = 0 \/ valid_signal (pt_signum t);
  tk_id : 0 <= pt_id t <= INT32_MAX;
  tk_overruns : 0 <= pt_overruns t <= INT32_MAX;
  tk_last : 0 <= pt_last_overrun t <= INT32_MAX;
  tk_expiry : clock (pt_expiry t);
  tk_interval : clock (pt_interval t);
  tk_settled : pt_notification t = POSIX_TIMER_NONE -> pt_overruns t = 0
}.

Record slots_ok (l : list guest_posix_timer_t) : Prop := {
  sl_len : length l = 64%nat;
  sl_each : forall i t, l !! i = Some t -> timer_ok t;
  sl_ids : forall i j t u, l !! i = Some t -> l !! j = Some u -> pt_used t = true -> pt_used u = true -> pt_id t = pt_id u -> i = j
}.

(** Everything but the polling hint. *)
Record timers_base (s : signals) : Prop := {
  ts_slots : slots_ok (pts_slots (s_timers s));
  ts_next_id : 0 <= pts_next_id (s_timers s) <= INT32_MAX;
  ts_next_len : length (pts_next_slot (s_timers s)) = 64%nat;
  ts_next : forall k, 0 <= k < 64 -> 0 <= (pts_next_slot (s_timers s)).[k] < 64
}.

(** Without the hint no timer has anything to check for. *)
Definition poll_ok (s : signals) : Prop :=
  pts_need_poll (s_timers s) = false -> forall i t, pts_slots (s_timers s) !! i = Some t -> needs_poll t = false.

Definition checking (s : signals) : Prop := base_ok s /\ timers_base s.
Definition all_ok (s : signals) : Prop := sig_ok s /\ timers_base s /\ poll_ok s.

Lemma timers_base_ext s s' : s_timers s' = s_timers s -> timers_base s -> timers_base s'.
Proof. destruct s, s'. cbn. intros -> [T1 T2 T3 T4]. by constructor. Qed.
Lemma poll_ext s s' : s_timers s' = s_timers s -> poll_ok s -> poll_ok s'.
Proof. unfold poll_ok. by intros ->. Qed.
Lemma all_ext s s' : s_timers s' = s_timers s -> sig_ok s' -> all_ok s -> all_ok s'.
Proof. intros E O (_ & T & P). split; [done|]. split; [by apply (timers_base_ext s)|by apply (poll_ext s)]. Qed.

Lemma timers_set_slots l s : slots_ok l -> timers_base s -> timers_base (set_slots l s).
Proof. intros S [T1 T2 T3 T4]. by constructor. Qed.

Lemma find_spec l id i t : posix_timer_find_locked l id = Some (i, t) -> l !! i = Some t /\ pt_used t = true /\ pt_id t = id.
Proof. unfold posix_timer_find_locked. rewrite list_find_Some. tauto. Qed.

Lemma slots_insert l i t t' : slots_ok l -> l !! i = Some t -> timer_ok t' -> (pt_used t' = true -> pt_used t = true /\ pt_id t' = pt_id t) ->
  slots_ok (<[i := t']> l).
Proof.
  intros [L E I] Ei O' K. constructor.
  - by rewrite length_insert.
  - intros j u Ej. apply list_lookup_insert_Some in Ej as [(_ & -> & _)|(_ & Ej)]; [done|by eapply E].
  - intros j k u v Ej Ek Uj Uk X. apply list_lookup_insert_Some in Ej as [(-> & <- & _)|(Nj & Ej)];
      apply list_lookup_insert_Some in Ek as [(-> & <- & _)|(Nk & Ek)]; [done| | |by eapply I].
    + destruct (K Uj) as [U Id]. rewrite Id in X. exact (I j k t v Ei Ek U Uk X).
    + destruct (K Uk) as [U Id]. rewrite Id in X. exact (I j k u t Ej Ei Uj U X).
Qed.

Lemma advance_ok now t : clock now -> timer_ok t -> timer_ok (posix_timer_advance_locked now t).2 /\ 0 <= (posix_timer_advance_locked now t).1.
Proof.
  intros C O. pose proof O as [O1 O2 O3 O4 O5 O6]. unfold posix_timer_advance_locked. unfold clock in *. pose proof INT64_MAX_eq.
  destruct (_ || _) eqn:U; [done|]. destruct (Z.ltb_spec now (pt_expiry t)); [done|]. destruct (Z.eqb_spec (pt_interval t) 0); cbn [fst snd].
  { split; [|lia]. constructor; cbn; unfold clock; auto; lia. }
  pose proof (Z.rem_bound_pos (now - pt_expiry t) (pt_interval t) ltac:(lia) ltac:(lia)). pose proof (Z.quot_pos (now - pt_expiry t) (pt_interval t) ltac:(lia) ltac:(lia)).
  split; [|lia]. constructor; cbn; unfold clock; auto. case_if; unbool; lia.
Qed.

Lemma count_expiries_ok count t : 0 <= count -> timer_ok t -> timer_ok (count_expiries count t).
Proof.
  intros C [O1 O2 O3 O4 O5 O6]. unfold count_expiries. destruct (Z.eqb_spec count 0); [done|]. constructor; cbn; auto.
  - case_if; unbool; unfold INT32_MAX in *; [lia|]. split; [|lia]. case_bool_decide; lia.
  - case_bool_decide; done.
Qed.

Lemma advance_keeps now t : let t' := (posix_timer_advance_locked now t).2 in pt_used t' = pt_used t /\ pt_id t' = pt_id t /\ pt_signum t' = pt_signum t.
Proof. unfold posix_timer_advance_locked. cbv zeta. by repeat case_if. Qed.

Lemma count_expiries_keeps count t : let t' := count_expiries count t in pt_used t' = pt_used t /\ pt_id t' = pt_id t /\ pt_signum t' = pt_signum t.
Proof. unfold count_expiries. cbv zeta. by case_if. Qed.

(** The first loop of the check. *)
Lemma check_slot_ok now s waiting i : (forall i, clock (now i)) -> (i < 64)%nat -> checking s -> fits64 waiting ->
  checking (check_slot now (s, waiting) i).1 /\ fits64 (check_slot now (s, waiting) i).2.
Proof.
  intros C Bi [B Tb] F. pose proof (ts_slots s Tb) as S. unfold check_slot. assert (E : exists t, pts_slots (s_timers s) !! i = Some t).
  { destruct (pts_slots (s_timers s) !! i) eqn:E; [eauto|]. apply lookup_ge_None in E. rewrite (sl_len _ S) in E. lia. }
  destruct E as (t & E). rewrite (list_lookup_total_correct _ _ _ E). destruct (_ || _) eqn:U; [done|]. unbool.
  pose proof (sl_each _ S i t E) as Ot. destruct (advance_ok (now i) t (C i) Ot) as [Oa Na]. destruct (advance_keeps (now i) t) as (A1 & A2 & A3).
  destruct (posix_timer_advance_locked (now i) t) as [count t1]. cbn [fst snd] in *. pose proof (count_expiries_ok count t1 Na Oa) as Oc.
  destruct (count_expiries_keeps count t1) as (K1 & K2 & K3). set (t2 := count_expiries count t1) in *. rewrite A1 in K1. rewrite A2 in K2. rewrite A3 in K3.
  assert (B' : base_ok (set_slots (<[i := t2]> (pts_slots (s_timers s))) s)) by (by apply base_set_slots).
  assert (S' : slots_ok (<[i := t2]> (pts_slots (s_timers s)))) by (apply (slots_insert _ i t); [done|done|done|by rewrite K1, K2]).
  destruct (pt_notification t2); cbn [fst snd]; (split; [|auto with word64]); [by split; [|apply timers_set_slots]|by split; [|apply timers_set_slots]|].
  split; [|by apply (timers_base_ext (set_slots (<[i := t2]> (pts_slots (s_timers s))) s)), timers_set_slots].
  assert (V : valid_signal (pt_signum t2)) by (rewrite K3; destruct (tk_signum t Ot); [done|done]).
  pose proof (update_pending_only 0 0 t2 (s_shared s) (bo_shared s B) V) as Up. destruct (only_pending _ _ _ _ _ _ Up (bo_shared s B) V) as [P1 P2].
  apply base_set_shared; [apply Up| |done]. destruct (bo_claims s B) as [C1 C2 C3 C4]. constructor; cbn [set_shared set_slots set_timers s_claimed s_owner s_shared]; auto.
  intros k Bk T. destruct (Z.eq_dec k (pt_signum t2 - 1)) as [->|N]; [|rewrite P2 by done; auto]. rewrite P1. apply bool_decide_eq_true.
  apply C3 in T; [|done]. apply (queued_bit 0 0) in T; [|apply B|done]. by destruct (queued 0 0 (s_shared s) (pt_signum t2)).
Qed.

Lemma check_slots_ok now l : (forall i, clock (now i)) -> Forall (fun i => (i < 64)%nat) l -> forall s w, checking s -> fits64 w ->
  checking (foldl (check_slot now) (s, w) l).1 /\ fits64 (foldl (check_slot now) (s, w) l).2.
Proof.
  intros C. induction l as [|i l IH]; intros F s w K Fw; cbn [foldl]; [done|]. apply Forall_cons_1 in F as [Bi F].
  destruct (check_slot_ok now s w i C Bi K Fw) as [K' F']. destruct (check_slot now (s, w) i) as [s1 w1]. by apply IH.
Qed.

(** Queueing the notifications that wait. *)
Lemma enqueue_round_ok signum start offset s q st : valid_signal signum -> 0 <= start < 64 -> 0 <= offset < 64 -> checking s ->
  checking (enqueue_waiting_round signum start (s, q, st) offset).1.1.
Proof.
  intros V Bs Bo [B Tb]. unfold enqueue_waiting_round. destruct st; [done|]. set (i := (start + offset) mod POSIX_TIMER_MAX).
  assert (Bi : 0 <= i < 64) by (apply Z.mod_pos_bound; done). pose proof (ts_slots s Tb) as S. set (t := (pts_slots (s_timers s)).[i]).
  assert (E : pts_slots (s_timers s) !! Z.to_nat i = Some t) by (apply list_lookup_lookup_total_lt; rewrite (sl_len _ S); lia).
  destruct (_ || _) eqn:U; [done|]. destruct (queue_full _ _); [done|]. cbn [fst]. unbool.
  assert (N : forall e, Some (timer_info t) = Some e -> si_signum e = pt_signum t) by (by intros e [= <-]).
  split.
  - pose proof (queue_shared_base (pt_signum t) _ s B ltac:(congruence) N) as B'. by apply base_set_timers.
  - destruct Tb as [T1 T2 T3 T4]. constructor; cbn [set_timers s_timers pts_slots pts_next_id pts_next_slot set_shared]; [|done|by rewrite length_aset|].
    + apply (slots_insert _ _ t); [done|done| |done]. destruct (sl_each _ S _ _ E). by constructor.
    + intros k Bk. unfold valid_signal in V. destruct (Z.eq_dec k (signum - 1)) as [->|]; [|by rewrite aget_aset_ne by lia; auto].
      rewrite aget_aset by lia. apply Z.mod_pos_bound. done.
Qed.

Lemma enqueue_waiting_ok signum s : valid_signal signum -> checking s -> checking (posix_timer_enqueue_waiting_locked signum s).2.
Proof.
  intros V K. unfold posix_timer_enqueue_waiting_locked. assert (Bs : 0 <= (pts_next_slot (s_timers s)).[signum - 1] < 64).
  { apply (proj2 K). unfold valid_signal in V. lia. }
  assert (G : forall l q st s1, checking s1 -> Forall (fun o => 0 <= o < 64) l ->
    checking (foldl (enqueue_waiting_round signum (pts_next_slot (s_timers s)).[signum - 1]) (s1, q, st) l).1.1).
  { induction l as [|o l IH]; intros q st s1 K1 F; cbn [foldl]; [done|]. apply Forall_cons_1 in F as [Bo F].
    pose proof (enqueue_round_ok signum _ o s1 q st V Bs Bo K1) as K2. destruct (enqueue_waiting_round _ _ _ _) as [[s2 q2] st2]. by apply IH. }
  specialize (G (seqZ 0 POSIX_TIMER_MAX) false false s K). destruct (foldl _ _ _) as [[s2 q2] st2]. apply G. apply Forall_seqZ. unfold POSIX_TIMER_MAX. intros x Bx. lia.
Qed.

Lemma queue_rounds_ok l : Forall (fun j => 0 <= j < 64) l -> forall s w, checking s -> fits64 w ->
  checking (foldl queue_round (s, w) l).1 /\ fits64 (foldl queue_round (s, w) l).2.
Proof.
  induction l as [|j l IH]; intros F s w K Fw; cbn [foldl]; [done|]. apply Forall_cons_1 in F as [Bj F]. unfold queue_round at 2 4.
  pose proof (enqueue_waiting_ok (j + 1) s ltac:(unfold valid_signal; lia) K) as K'. destruct (posix_timer_enqueue_waiting_locked (j + 1) s) as [q s1].
  apply IH; [done|done|]. destruct q; auto with word64.
Qed.

Lemma poll_refreshed s : poll_ok (posix_timer_refresh_poll_hint_locked s).
Proof.
  unfold poll_ok. cbn [posix_timer_refresh_poll_hint_locked set_timers s_timers pts_need_poll pts_slots]. intros E i t L.
  destruct (needs_poll t) eqn:N; [|done]. enough (existsb needs_poll (pts_slots (s_timers s)) = true) by congruence. apply existsb_exists. exists t. split; [|done].
  apply list_elem_of_In. by eapply list_elem_of_lookup_2.
Qed.

(** Both hints recomputed. *)
Lemma refreshed_ok s : checking s -> all_ok (refresh_pending_hint_locked (posix_timer_refresh_poll_hint_locked s)).
Proof.
  intros [B Tb]. split; [by apply refresh_ok, base_poll_hint|]. split; [|apply (poll_ext (posix_timer_refresh_poll_hint_locked s)); [done|apply poll_refreshed]].
  destruct Tb. by constructor.
Qed.

Lemma check_locked_ok now s : (forall i, clock (now i)) -> checking s -> all_ok (posix_timer_check_locked now s).1 /\ fits64 (posix_timer_check_locked now s).2.
Proof.
  intros C K. unfold posix_timer_check_locked. destruct (check_slots_ok now (seq 0 64) C) with (s := s) (w := 0) as [K1 F1]; [|done|done|].
  { apply list.Forall_forall. intros i X. apply elem_of_seq in X. lia. }
  destruct (foldl (check_slot now) _ _) as [s1 waiting]. cbn [fst snd] in *.
  destruct (queue_rounds_ok (set_bits waiting)) with (s := s1) (w := 0) as [K2 F2]; [|done|done|].
  { apply list.Forall_forall. intros j X. by apply elem_of_set_bits in X as [? _]. }
  destruct (foldl queue_round _ _) as [s2 notify]. cbn [fst snd] in *. split; [by apply refreshed_ok|done].
Qed.

Lemma emit_all e s : all_ok s -> all_ok (emit e s).
Proof. intros O. apply (all_ext s); [done|apply emit_ok, O|done]. Qed.
Lemma attention_all cur s : all_ok s -> all_ok (attention_raise cur s).
Proof. apply emit_all. Qed.
Lemma ring_all s : all_ok s -> all_ok (ring_parked s).
Proof. unfold ring_parked. case_if; [apply emit_all|done]. Qed.
Lemma notify_all signum s : all_ok s -> all_ok (signal_notify_waiters signum s).
Proof. intros O. by apply ring_all, emit_all. Qed.

Lemma timer_check_ok cur now s : (forall i, clock (now i)) -> all_ok s -> all_ok (posix_timer_check cur now s).
Proof.
  intros C O. unfold posix_timer_check. case_if; [done|]. destruct (check_locked_ok now s C) as [K F]; [split; apply O|].
  destruct (posix_timer_check_locked now s) as [s1 notify]. cbn [fst snd] in *.
  assert (G : forall l s, all_ok s -> all_ok (foldl (fun s bit => signal_notify_waiters (bit + 1) s) s l)).
  { induction l as [|j l IH]; intros s2 O2; cbn [foldl]; [done|]. by apply IH, notify_all. }
  case_if; [apply attention_all|]; by apply G.
Qed.

(** ** Taking *)

Lemma dequeued_slots_ok l e : slots_ok l -> slots_ok (posix_timer_dequeued_locked l e).1.2 /\
  (forall i t', (posix_timer_dequeued_locked l e).1.2 !! i = Some t' -> exists t, l !! i = Some t /\ (needs_poll t' = true -> needs_poll t = true)).
Proof.
  intros S. unfold posix_timer_dequeued_locked. case_if; [cbn; eauto|]. destruct (posix_timer_find_locked l (si_pid e)) as [[i t]|] eqn:F; [|cbn; eauto].
  apply find_spec in F as (L & U & Id). cbn [fst snd]. split.
  - apply (slots_insert _ i t); [done|done| |done]. destruct (sl_each _ S i t L) as [K1 K2 K3 K4 K5 K6]. constructor; cbn; auto. unfold INT32_MAX. lia.
  - intros j t' Ej. apply list_lookup_insert_Some in Ej as [(-> & <- & _)|(_ & Ej)]; [|eauto]. exists t. split; [done|]. unfold needs_poll. cbn.
    rewrite orb_false_r. intros [A B]%andb_prop. by rewrite A, B.
Qed.

Lemma dequeue_all src signum s : checking s -> poll_ok s -> valid_signal signum -> Z.testbit (p_pending (set_of s src)) (signum - 1) = true ->
  all_ok (dequeue_locked src signum s).2.
Proof.
  intros [B Tb] P V T. pose proof (dequeue_ok src signum s B V T) as O'.
  rewrite (pending_queued (s_pid s) (s_uid s)) in T by (done || by apply set_of_ok). apply bool_decide_eq_true in T.
  destruct (queued _ _ (set_of s src) signum) as [|e q] eqn:Q; [done|]. destruct (dequeue_spec src signum s e q B V Q) as (p & s1 & E & U & S1).
  rewrite E in *. cbn [snd] in *. destruct (dequeued_slots_ok _ e (ts_slots s Tb)) as [S K].
  assert (E1 : pts_slots (s_timers s1) = (posix_timer_dequeued_locked (pts_slots (s_timers s)) e).1.2 /\ s_timers s1 = s_timers (set_slots (pts_slots (s_timers s1)) s)).
  { destruct S1 as [->| ->]; unfold ring_parked; try case_if; done. }
  destruct E1 as [E1 E2]. rewrite E1 in E2. set (sl := set_slots _ s) in E2. assert (T1 : timers_base sl) by (by apply timers_set_slots).
  assert (P1 : poll_ok sl).
  { intros N i t' L. destruct (K i t' L) as (t & L' & X). destruct (needs_poll t') eqn:Y; [|done]. specialize (X eq_refl). by rewrite (P N i t L') in X. }
  split; [done|]. split; [apply (timers_base_ext sl)|apply (poll_ext sl)]; (done || by destruct src).
Qed.

Lemma deliver_dequeue_all s cur signum src : all_ok s -> deliver_pick s cur = Some (signum, src) -> all_ok (dequeue_locked src signum s).2.
Proof. intros O P. destruct (deliver_pick_spec s cur signum src (proj1 (proj1 O)) P) as (V & _ & T & _). apply dequeue_all; [split; apply O|apply O|done|done]. Qed.

Lemma try_dequeue_all cur mask s : fits64 mask -> all_ok s -> all_ok (sigtimedwait_try_dequeue cur mask s).2.
Proof.
  intros Fm O. destruct (try_dequeue_cases cur mask s (proj1 (proj1 O)) Fm) as [->|(signum & src & V & _ & T & _ & ->)]; [done|]. cbn [snd]. apply dequeue_all; [split; apply O|apply O|done|done].
Qed.

(** The head of a queue, as signalfd reads it. *)
Lemma queue_head pid uid p signum e q : set_ok pid uid p -> valid_signal signum -> queued pid uid p signum = e :: q ->
  (if 32 <=? signum then (p_rt_info p).[signum - 32].[(p_rt_head p).[signum - 32]] else signal_standard_peek_locked pid uid p signum) = e /\
  ((32 <=? signum) && ((p_rt_queue p).[signum - 32] <=? 0)) = false.
Proof.
  intros O V E. unfold valid_signal in V. unfold queued in E. destruct (Z.leb_spec 32 signum) as [L|L].
  - rewrite (proj2 (Z.ltb_ge _ 32)) in E by lia. unfold rt_list in E. set (i := signum - 32) in *. pose proof (so_heads _ _ _ O i ltac:(lia)).
    pose proof (length_ring_list (p_rt_head p).[i] (p_rt_queue p).[i] (p_rt_info p).[i]) as Ln. rewrite E in Ln. cbn in Ln. rewrite ring_list_cons in E by lia. injection E as <- _.
    rewrite Z.mod_small by lia. split; [done|]. cbn [andb]. apply Z.leb_gt. lia.
  - rewrite (proj2 (Z.ltb_lt _ 32)) in E by lia. destruct (Z.testbit _ _); [|done]. by injection E as <- _.
Qed.

Lemma same_info_eq a b : same_info a b = true <-> a = b.
Proof. unfold same_info. destruct a, b. cbn. rewrite !andb_true_iff, !Z.eqb_eq. split; [intros [[[[[-> ->] ->] ->] ->] ->]; done|by intros [= -> -> -> -> -> ->]]. Qed.

(** One round of a signalfd read is a dequeue but for the hint. *)
Lemma take_one_dequeue cur want n s s' : base_ok s -> take_signalfd_one cur want n s = Some s' ->
  exists src, signalfd_sets cur !! n = Some src /\ valid_signal (si_signum want) /\
    (exists q, queued (s_pid s) (s_uid s) (set_of s src) (si_signum want) = want :: q) /\
    refresh_pending_hint_locked s' = (dequeue_locked src (si_signum want) s).2.
Proof.
  intros B. unfold take_signalfd_one. destruct (_ || _) eqn:G; [done|]. assert (V : valid_signal (si_signum want)) by (unfold LINUX_NSIG in G; unbool; unfold valid_signal; lia).
  destruct (signalfd_sets cur !! n) as [src|]; [|done]. destruct (has _ _) eqn:P; [|done]. cbn [negb]. rewrite has_sig in P by done. unfold LINUX_SIGRTMIN.
  pose proof (set_of_ok s src B) as O. pose proof (pending_queued _ _ _ _ O V) as Q. rewrite P in Q. symmetry in Q. apply bool_decide_eq_true in Q.
  destruct (queued _ _ (set_of s src) (si_signum want)) as [|e q] eqn:E; [done|]. destruct (queue_head _ _ _ _ _ _ O V E) as [Hd ->]. rewrite Hd.
  destruct (same_info e want) eqn:Sm; cbn [negb]; [|done]. intros T. apply same_info_eq in Sm as ->.
  exists src. split_and!; [done|done|eauto|]. unfold dequeue_locked. change (match src with Some i => th_pending (thread_at s i) | None => s_shared s end) with (set_of s src).
  destruct (take_locked _ _ _ _ _) as [[[info p] timers] ended]. injection T as <-. by destruct src.
Qed.

(** A signal at the head of its queue is taken. *)
Lemma take_one_takes cur want n src q s : base_ok s -> signalfd_sets cur !! n = Some src -> valid_signal (si_signum want) ->
  queued (s_pid s) (s_uid s) (set_of s src) (si_signum want) = want :: q -> is_Some (take_signalfd_one cur want n s).
Proof.
  intros B N V E. pose proof (set_of_ok s src B) as O. unfold take_signalfd_one. rewrite N. unfold valid_signal in V. unfold LINUX_NSIG, LINUX_SIGRTMIN.
  rewrite (proj2 (Z.leb_gt (si_signum want) 0)), (proj2 (Z.ltb_ge 64 (si_signum want))) by lia. cbn [orb]. rewrite has_sig by done.
  rewrite (proj2 (queued_bit _ _ _ _ O V)) by (by rewrite E). destruct (queue_head _ _ _ _ _ _ O V E) as [Hd ->]. rewrite Hd, (proj2 (same_info_eq want want) eq_refl). cbn [negb].
  destruct (take_locked _ _ _ _ _) as [[[info p] timers] ended]. eauto.
Qed.

Lemma take_loop_ok cur expected : forall s, checking s -> poll_ok s -> checking (take_signalfd_loop cur expected s).2 /\ poll_ok (take_signalfd_loop cur expected s).2.
Proof.
  induction expected as [|[want n] rest IH]; intros s K P; cbn [take_signalfd_loop]; [done|]. destruct (take_signalfd_one cur want n s) as [s1|] eqn:T; [|done].
  destruct (take_one_dequeue cur want n s s1 (proj1 K) T) as (src & _ & V & (q & Q) & E).
  pose proof (dequeue_all src (si_signum want) s K P V (proj2 (queued_bit _ _ _ _ (set_of_ok s src (proj1 K)) V) ltac:(by rewrite Q))) as O1. rewrite <- E in O1.
  assert (K1 : checking s1 /\ poll_ok s1).
  { destruct O1 as ([B1 _] & T1 & P1). split; [split; [by apply (base_ext (refresh_pending_hint_locked s1))|by apply (timers_base_ext (refresh_pending_hint_locked s1))]|].
    by apply (poll_ext (refresh_pending_hint_locked s1)). }
  destruct (IH s1 (proj1 K1) (proj2 K1)) as [K2 P2]. by destruct (take_signalfd_loop cur rest s1).
Qed.

Lemma take_signalfd_all cur expected s : all_ok s -> all_ok (signal_take_signalfd_exact cur expected s).2.
Proof.
  intros O. unfold signal_take_signalfd_exact. destruct (take_loop_ok cur expected s) as [[B T] P]; [split; apply O|apply O|].
  destruct (take_signalfd_loop cur expected s) as [n s']. cbn [snd] in *. split; [by apply refresh_ok|]. split; [by apply (timers_base_ext s')|by apply (poll_ext s')].
Qed.

(** ** The timer calls *)

Lemma fresh_id_spec fuel l : forall next id next', 0 <= next <= INT32_MAX -> fresh_id fuel l next = Some (id, next') ->
  0 <= id <= INT32_MAX /\ 0 <= next' <= INT32_MAX /\ posix_timer_find_locked l id = None.
Proof.
  induction fuel as [|fuel IH]; intros next id next' B; cbn [fresh_id]; [done|].
  assert (B' : 0 <= (if next =? INT32_MAX then 0 else next + 1) <= INT32_MAX) by (unfold INT32_MAX in *; case_if; unbool; lia).
  case_bool_decide as F; [by apply IH|]. intros [= <- <-]. split_and!; try lia. destruct (posix_timer_find_locked l next) eqn:E; [|done]. by destruct F.
Qed.

Lemma find_none l id : posix_timer_find_locked l id = None -> forall i t, l !! i = Some t -> pt_used t = true -> pt_id t <> id.
Proof.
  unfold posix_timer_find_locked. rewrite list_find_None, list.Forall_forall. intros F i t L U E. apply (F t); [by eapply list_elem_of_lookup_2|done].
Qed.

Lemma timer_create_all clockid notify signum value dflt s ret s' : all_ok s ->
  signal_posix_timer_create clockid notify signum value dflt s = Some (ret, s') -> all_ok s'.
Proof.
  intros O. unfold signal_posix_timer_create. destruct (negb _ && negb _ && _); [by intros [= _ <-]|]. case_if; [by intros [= _ <-]|].
  destruct (negb _ && negb _); [by intros [= _ <-]|]. destruct (_ && _) eqn:G; [by intros [= _ <-]|].
  destruct (list_find _ _) as [[i t]|] eqn:F; [|by intros [= _ <-]]. apply list_find_Some in F as (L & U & _).
  destruct O as ([B H] & Tb & P). destruct (fresh_id 65 _ _) as [[id next]|] eqn:I; [|done]. cbn. intros [= <- <-].
  apply fresh_id_spec in I as (I1 & I2 & I3); [|apply Tb]. set (t' := mk_timer _ _ _ _ _ _ _ _ _ _ _).
  assert (O' : timer_ok t').
  { constructor; cbn; unfold clock, INT32_MAX in *; rewrite ?INT64_MAX_eq; try lia. case_if; [|by left]. right. unfold LINUX_NSIG in G. unbool; unfold valid_signal; lia || congruence. }
  destruct (ts_slots s Tb) as [S1 S2 S3]. split; [split; [by apply base_set_timers|by apply (hint_ext s)]|]. split; [constructor; cbn; [|done|apply Tb|apply Tb]|].
  - constructor; [by rewrite length_insert| |].
    + intros j u Ej. apply list_lookup_insert_Some in Ej as [(_ & <- & _)|(_ & Ej)]; [done|by eapply S2].
    + intros j k u v Ej Ek Uj Uk X. apply list_lookup_insert_Some in Ej as [(<- & <- & _)|(Nj & Ej)];
        apply list_lookup_insert_Some in Ek as [(<- & <- & _)|(Nk & Ek)]; [done| | |by eapply S3].
      * by destruct (find_none _ _ I3 k v Ek Uk).
      * by destruct (find_none _ _ I3 j u Ej Uj).
  - intros N j u Ej. cbn in N, Ej. apply list_lookup_insert_Some in Ej as [(_ & <- & _)|(_ & Ej)]; [|by eapply P]. unfold needs_poll. cbn. apply andb_false_r.
Qed.

Lemma sat_clock sec nsec : clock (timespec_to_ns_sat sec nsec).
Proof.
  unfold clock. destruct (Z.lt_ge_cases sec 0); [unfold timespec_to_ns_sat; rewrite (proj2 (Z.ltb_lt sec 0)) by lia; cbn; rewrite INT64_MAX_eq; lia|].
  destruct (Z.lt_ge_cases nsec 0); [unfold timespec_to_ns_sat; rewrite (proj2 (Z.ltb_lt nsec 0)), orb_true_r by lia; rewrite INT64_MAX_eq; lia|].
  rewrite timespec_to_ns_sat_eq by lia. unfold NSEC_PER_SEC. rewrite INT64_MAX_eq. lia.
Qed.

Lemma arm_ok flags value now3 t : clock now3 -> timer_ok t -> timer_ok (arm_timer flags value now3 t).
Proof.
  intros C [K1 K2 K3 K4 K5 K6]. pose proof (sat_clock (it_value_sec value) (it_value_nsec value)) as V. pose proof (sat_clock (it_interval_sec value) (it_interval_nsec value)) as I.
  constructor; cbn; auto; unfold clock, INT32_MAX in *; [lia|lia| |].
  - case_if; [|done]. case_if; unbool; lia.
  - case_if; [done|rewrite INT64_MAX_eq; lia].
Qed.

Lemma value_timer_ok now1 now2 t : clock now1 -> timer_ok t -> let t' := (posix_timer_value_locked now1 now2 t).2 in
  timer_ok t' /\ pt_used t' = pt_used t /\ pt_id t' = pt_id t /\ pt_signum t' = pt_signum t.
Proof.
  intros C O. unfold posix_timer_value_locked. cbn [snd]. case_if; [|done]. split; [by apply advance_ok|apply advance_keeps].
Qed.

Lemma timer_get_all cur id now now1 now2 s : (forall i, clock (now i)) -> clock now1 -> all_ok s -> all_ok (signal_posix_timer_get cur id now now1 now2 s).2.
Proof.
  intros C C1 O. unfold signal_posix_timer_get. apply (timer_check_ok cur now s C) in O. set (s1 := posix_timer_check cur now s) in *.
  destruct (posix_timer_find_locked _ id) as [[i t]|] eqn:F; [|done]. apply find_spec in F as (L & U & Id). destruct O as ([B H] & Tb & P).
  pose proof (sl_each _ (ts_slots s1 Tb) i t L) as Ot. destruct (value_timer_ok now1 now2 t C1 Ot) as (K1 & K2 & K3 & K4).
  destruct (pt_signum t =? 0) eqn:Z0.
  - destruct (posix_timer_value_locked now1 now2 t) as [v t']. cbn [snd] in *. split; [by apply set_slots_ok|]. split.
    + apply timers_set_slots; [|done]. apply (slots_insert _ i t); [apply Tb|done|done|by rewrite K2, K3].
    + intros N j u Ej. cbn in N, Ej. apply list_lookup_insert_Some in Ej as [(_ & <- & _)|(_ & Ej)]; [|by eapply P].
      unfold needs_poll. by rewrite K4, Z0, andb_false_r.
  - unfold posix_timer_value_locked. rewrite Z0. cbn [snd]. rewrite list_insert_id by done. split; [by apply set_slots_ok|]. split; [by apply timers_set_slots; [apply Tb|]|].
    intros N j u Ej. cbn in N, Ej. by eapply P.
Qed.

Lemma discard_timers id s : s_timers (discard_shared id s) = s_timers s.
Proof.
  unfold discard_shared. destruct (posix_timer_discard_pending_locked _ _) as [p rel]. change (s_timers s) with (s_timers (set_shared p s)).
  generalize (set_shared p s). induction rel as [|x rel IH]; intros s2; cbn [foldl]; [done|]. by rewrite IH.
Qed.

Lemma timer_set_all cur id flags value now now1 now2 now3 s : (forall i, clock (now i)) -> clock now1 -> clock now3 -> all_ok s ->
  all_ok (signal_posix_timer_set cur id flags value now now1 now2 now3 s).2.
Proof.
  intros C C1 C3 O. unfold signal_posix_timer_set. apply (timer_check_ok cur now s C) in O. set (s1 := posix_timer_check cur now s) in *.
  destruct (posix_timer_find_locked _ id) as [[i t]|] eqn:F; [|done]. apply find_spec in F as (L & U & Id). destruct O as ([B H] & Tb & P).
  pose proof (sl_each _ (ts_slots s1 Tb) i t L) as Ot. destruct (value_timer_ok now1 now2 t C1 Ot) as (K1 & K2 & K3 & K4).
  destruct (posix_timer_value_locked now1 now2 t) as [v t']. cbn [snd] in *. pose proof (arm_ok flags value now3 t' C3 K1) as Oa.
  rewrite discard_timers. set (s2 := set_slots _ (discard_shared id s1)). assert (K : checking s2).
  { split; [by apply base_set_slots, discard_shared_base|]. apply timers_set_slots; [|apply (timers_base_ext s1); [apply discard_timers|done]].
    apply (slots_insert _ i t); [apply Tb|done|done|]. cbn. by rewrite K2, K3. }
  apply refreshed_ok in K. case_if; [by apply attention_all|done].
Qed.

Lemma timer_delete_all id s : all_ok s -> all_ok (signal_posix_timer_delete id s).2.
Proof.
  intros ([B H] & Tb & P). unfold signal_posix_timer_delete. cbn [snd]. apply refreshed_ok. destruct (posix_timer_find_locked _ id) as [[i t]|] eqn:F; [|done].
  apply find_spec in F as (L & U & Id). rewrite discard_timers. split; [by apply base_set_slots, discard_shared_base|].
  apply timers_set_slots; [|apply (timers_base_ext s); [apply discard_timers|done]]. apply (slots_insert _ i t); [apply Tb|done| |done].
  constructor; cbn; unfold clock, INT32_MAX; rewrite ?INT64_MAX_eq; auto; lia.
Qed.

(** ** exec, fork, threads *)

Lemma thread_ok_pending p t : set_ok 0 0 p -> thread_ok t -> thread_ok (set_th_pending p t).
Proof. intros O (T1 & T2 & T3). by split. Qed.

Lemma base_set_actions l s : acts_ok (set_actions l s) -> base_ok s -> base_ok (set_actions l s).
Proof. intros A B. constructor; try apply B; [done|]. by destruct (bo_claims s B). Qed.

Lemma reset_acts_ok s : acts_ok s -> acts_ok (set_actions (reset_action <$> s_actions s) s).
Proof.
  intros [A1 A2 A3 A4]. assert (G : forall k, 0 <= k < 64 -> (reset_action <$> s_actions s).[k] = reset_action (s_actions s).[k]).
  { intros k Bk. unfold aget. rewrite !list_lookup_total_alt, list_lookup_fmap. destruct (s_actions s !! Z.to_nat k) eqn:E; [done|]. apply lookup_ge_None in E. lia. }
  constructor; cbn [set_actions s_actions]; [by rewrite length_fmap| | |]; intros; rewrite G by lia; unfold reset_action; case_if; try done; by apply A2.
Qed.

Lemma zero_slots_ok : slots_ok (replicate 64 zero_timer).
Proof.
  assert (Z : forall i t, replicate 64 zero_timer !! i = Some t -> t = zero_timer) by (intros i t [-> _]%lookup_replicate; done).
  constructor; [by rewrite length_replicate| |].
  - intros i t ->%Z. constructor; cbn; unfold clock, INT32_MAX; rewrite ?INT64_MAX_eq; auto; lia.
  - by intros i j t u ->%Z _ X.
Qed.

Lemma no_timers_ok next s : 0 <= next <= INT32_MAX -> sig_ok s -> all_ok (set_timers (mk_timers (replicate 64 zero_timer) next (replicate 64 0) false) s).
Proof.
  intros N [B H]. split; [split; [by apply base_set_timers|by apply (hint_ext s)]|]. split; [constructor; cbn [set_timers s_timers pts_slots pts_next_id pts_next_slot]|].
  - apply zero_slots_ok.
  - done.
  - by rewrite length_replicate.
  - intros k Bk. unfold aget. rewrite lookup_total_replicate_2 by lia. lia.
  - intros _ i t [-> _]%lookup_replicate. done.
Qed.

Lemma exec_rest_all f o s : fb_blocked f = fb_blocked (s_fallback s) -> fb_saved f = fb_saved (s_fallback s) -> o = replicate 64 None -> all_ok s ->
  all_ok (set_claims 0 o (set_fallback f (set_actions (reset_action <$> s_actions s) s))).
Proof.
  intros F1 F2 -> O. pose proof O as ([B H] & _). apply (all_ext s); [done| |done]. split; [|by apply (hint_ext s)].
  apply base_set_claims; [by apply no_claims|]. destruct (bo_fallback s B) as [M1 M2]. apply base_set_fallback; [by rewrite F1|by rewrite F2|].
  apply base_set_actions; [apply reset_acts_ok, B|done].
Qed.

Lemma thread_reset_all t (f : thread_sig -> thread_sig) s : (forall th, thread_ok th -> thread_ok (f th)) -> (forall th, th_pending (f th) = th_pending th) ->
  (forall th, th_active (f th) = true -> th_active th = true) -> all_ok s -> all_ok (upd_thread t f s).
Proof. intros F1 F2 F3 O. apply (all_ext s); [done| |done]. split; [apply base_upd_thread; [apply F1|apply O]|apply hint_upd_thread; [done|done|apply O]]. Qed.

Lemma exec_discard_base t s : base_ok s -> base_ok (upd_thread t exec_discard_thread s).
Proof.
  apply base_upd_thread. intros T. apply thread_ok_pending; [|exact T]. destruct (discard_all 0 0 (-1) _ (proj1 T)) as (p & rel & E & Op & _). rewrite E. exact Op.
Qed.

Lemma exec_reset_all s : 0 <= pts_next_id (s_timers s) <= INT32_MAX -> sig_ok s -> all_ok (exec_reset s).
Proof. intros N B. pose proof (no_timers_ok _ s N B) as O. unfold exec_reset. refine (exec_rest_all _ _ _ _ _ _ O); reflexivity. Qed.

Lemma exec_all cur s : all_ok s -> all_ok (signal_reset_for_exec cur s).
Proof.
  intros ([B H] & Tb & P). pose proof (discard_shared_base (-1) s B) as B1. pose proof (ts_next_id s Tb) as N. rewrite <- (discard_timers (-1) s) in N.
  unfold signal_reset_for_exec. generalize dependent (discard_shared (-1) s). intros s1 B1 N. destruct cur as [t|].
  - apply thread_reset_all; [by intros th (T1 & T2 & T3)|done|done|]. apply exec_reset_all; [exact N|]. by apply refresh_ok, exec_discard_base.
  - apply exec_reset_all; [exact N|by apply refresh_ok].
Qed.

Lemma fork_all cur st s : Forall act_ok (sn_actions st) -> length (sn_actions st) = 64%nat ->
  sa_handler (sn_actions st).[8] = LINUX_SIG_DFL -> sa_handler (sn_actions st).[18] = LINUX_SIG_DFL ->
  maskable (fb_blocked (sn_fallback st)) -> maskable (fb_saved (sn_fallback st)) -> all_ok s -> all_ok (fork_child_state cur st s).
Proof.
  intros A L A8 A18 M1 M2 O. unfold fork_child_state, signal_set_state. cbn [sn_actions sn_shared sn_fallback]. set (s1 := set_claims 0 _ _).
  assert (O1 : sig_ok s1).
  { destruct O as ([B H] & _). split.
    - constructor; cbn [s1 set_claims set_fallback set_shared set_actions s_actions s_shared s_threads s_fallback]; try apply B; [|apply empty_ok|done|by apply no_claims].
      constructor; cbn [s1 set_claims set_fallback set_shared set_actions s_actions]; [done| |done|done]. intros k Bk. rewrite list.Forall_lookup in A. unfold aget.
      destruct (sn_actions st !! Z.to_nat k) as [a|] eqn:E; [rewrite (list_lookup_total_correct _ _ _ E); by eapply A|]. apply lookup_ge_None in E. lia.
    - constructor; [apply H| |apply H]. intros k Bk. cbn. by rewrite Z.bits_0. }
  apply (all_ext s); [by destruct cur| |done]. destruct cur as [t|]; [|done]. destruct O1 as [B1 H1]. split; [|by apply hint_upd_thread].
  apply base_upd_thread; [|done]. by intros (T1 & T2 & T3).
Qed.

Lemma alloc_all i tid s s' : all_ok s -> thread_alloc_slot i tid s = Some s' -> all_ok s'.
Proof.
  intros O. unfold thread_alloc_slot. destruct (th_active (thread_at s i)) eqn:A; [done|]. intros [= <-]. set (t := mk_thread true tid 0 0 false empty_pending 0 _ 0 false).
  destruct O as ([B H] & Tb & P). assert (G : forall j, thread_at (set_threads (<[i := t]> (s_threads s)) s) j = thread_at s j \/ thread_at (set_threads (<[i := t]> (s_threads s)) s) j = t).
  { intros j. unfold thread_at. cbn [set_threads s_threads]. rewrite list_lookup_total_insert. case_decide; auto. }
  apply (all_ext s); [done| |done]. split.
  - constructor; try apply B; [by destruct (bo_acts s B)|cbn; rewrite length_insert; apply B| |by destruct (bo_claims s B)].
    intros j. destruct (G j) as [->| ->]; [apply B|]. split; [apply empty_ok|split; apply maskable_zero].
  - constructor; [apply H|apply H|]. intros j k Bk. destruct (G j) as [->| ->]; [by apply H|]. cbn. by rewrite Z.bits_0.
Qed.

Lemma deactivate_slot_all t s : all_ok s -> all_ok (deactivate_slot t s).
Proof.
  intros ([B H] & Tb & P). apply (all_ext s); [done| |done]. split; [|by apply hint_upd_thread]. apply base_upd_thread; [|done]. by intros (T1 & T2 & T3).
Qed.

(** ** Handlers and masks *)

Lemma store_blocked_all cur v s : maskable v -> all_ok s -> all_ok (store_blocked cur v s).
Proof. intros M O. apply (all_ext s); [by destruct cur|by apply store_blocked_ok, O|done]. Qed.
Lemma store_saved_all cur v b s : maskable v -> all_ok s -> all_ok (store_saved cur v b s).
Proof. intros M O. apply (all_ext s); [by destruct cur|by apply store_saved_ok, O|done]. Qed.

Lemma restore_saved_all cur s : all_ok s -> all_ok (signal_restore_saved_blocked cur s).
Proof.
  intros O. unfold signal_restore_saved_blocked. case_if; [done|]. pose proof (saved_maskable s cur (proj1 (proj1 O))) as M. apply store_saved_all; [done|]. by apply store_blocked_all.
Qed.

Lemma refresh_all s : all_ok s -> all_ok (refresh_pending_hint_locked s).
Proof. intros O. apply (all_ext s); [done|apply refresh_ok, O|done]. Qed.

Lemma procmask_all cur how set s s' : fits64 set -> all_ok s -> procmask_locked cur how set s = Some s' -> all_ok s'.
Proof.
  intros F O. destruct (blocked_maskable s cur (proj1 (proj1 O))) as [Fb _]. unfold procmask_locked.
  set (m := if how =? LINUX_SIG_BLOCK then _ else _). assert (M : forall w, m = Some w -> fits64 w) by (intros w; unfold m; repeat case_if; intros [= <-]; auto with word64).
  destruct m as [w|]; [|done]. intros [= <-]. assert (G : all_ok (store_blocked cur (Z.land w (not64 unmaskable)) s)) by (apply store_blocked_all; auto with word64).
  set (b := negb _). destruct b; [by apply refresh_all|exact G].
Qed.

Lemma enter_handler_all cur signum alt s : valid_signal signum -> all_ok s -> all_ok (enter_handler cur signum alt s).
Proof.
  intros V O. destruct O as ([B H] & Tb & P). destruct (blocked_maskable s cur B) as [Fb _]. unfold valid_signal in V.
  destruct (ao_each s (bo_acts s B) (signum - 1) ltac:(lia)) as (F1 & F2 & F3). unfold enter_handler. cbv zeta. set (act := (s_actions s).[signum - 1]) in *.
  set (nb := Z.lor _ (sa_mask act)). assert (Fn : fits64 nb) by (unfold nb; case_if; auto with word64).
  assert (O1 : all_ok (store_blocked cur (Z.land nb (not64 unmaskable)) s)) by (apply store_blocked_all; [auto with word64|done]).
  set (s1 := store_blocked cur _ s) in *. set (s2 := match cur with Some i => if alt then _ else s1 | None => s1 end).
  assert (O2 : all_ok s2).
  { unfold s2. destruct cur as [i|]; [|done]. destruct alt; [|done]. apply (all_ext s1); [done|apply (set_alt_ok i th_alt_sp th_alt_flags th_alt_size (fun _ => true)), O1|done]. }
  case_if; [|done]. apply (all_ext s2); [done| |done]. apply set_action_ok; [unfold valid_signal; lia| |done|apply O2]. split_and!; cbn; [done|by apply land_fits|done].
Qed.

Lemma leave_handler_all cur mask sp s : fits64 mask -> all_ok s -> all_ok (leave_handler cur mask sp s).
Proof.
  intros F O. unfold leave_handler. assert (O1 : all_ok (store_blocked cur (Z.land mask (not64 unmaskable)) s)) by (apply store_blocked_all; [auto with word64|done]).
  destruct cur as [i|]; [|done]. set (s1 := store_blocked _ _ s) in *. apply (all_ext s1); [done| |done]. apply (set_alt_ok i th_alt_sp th_alt_flags th_alt_size), O1.
Qed.

Lemma force_fault_all cur signum s : all_ok s -> all_ok (force_fault cur signum s).
Proof.
  intros O. unfold force_fault. destruct (negb _) eqn:G; [done|]. assert (V : valid_signal signum) by (unfold LINUX_NSIG in G; unbool; unfold valid_signal; lia).
  case_if; [|done]. destruct O as ([B H] & Tb & P). pose proof V as V'. unfold valid_signal in V'. destruct (ao_each s (bo_acts s B) (signum - 1) ltac:(lia)) as (F1 & F2 & F3).
  set (act := (s_actions s).[signum - 1]) in *. apply store_blocked_all; [apply maskable_clear, blocked_maskable, B|].
  apply (all_ext s); [done| |done]. apply set_action_ok; [done| |done|done]. split_and!; cbn; [done|by apply land_fits|done].
Qed.
