(* ===== verification/SigStep.v ===== *)
(** * Signals: every critical section keeps the invariant

    [sig_step] has one rule per critical section of src/syscall/signal.c and of the
    thread table operations that touch signal state, for any calling thread and any
    arguments of the right width; [all_ok] holds at the start and is kept by every
    rule, so it holds in every reachable state whatever the interleaving. *)

From stdpp Require Import relations.
From S2P Require Import Prelude Bits FutexWord SigQueue SigQueueFacts Signal SigFacts SigLife.
#[local] Open Scope Z_scope.

(** ** Operations that leave the timers alone *)

Lemma ring_parked_timers s : s_timers (ring_parked s) = s_timers s.
Proof. unfold ring_parked. by case_if. Qed.

Lemma queue_shared_all cur signum info s : (forall e, info = Some e -> si_signum e = signum) -> all_ok s -> all_ok (signal_queue_shared cur signum info s).
Proof.
  intros N O. apply (all_ext s); [|by apply queue_shared_ok, O|done]. unfold signal_queue_shared, signal_notify_waiters.
  repeat case_if; cbn [attention_raise emit s_timers]; rewrite ?ring_parked_timers; done.
Qed.

Lemma queue_thread_all cur tid signum info s : (forall e, info = Some e -> si_signum e = signum) -> all_ok s ->
  all_ok (signal_queue_thread_common cur tid signum info s).2.
Proof.
  intros N O. apply (all_ext s); [|by apply queue_thread_ok, O|done]. unfold signal_queue_thread_common, signal_notify_waiters. case_if; [done|].
  destruct (thread_find_locked s tid); [|done]. cbn [snd]. case_if; cbn [attention_raise emit s_timers]; by rewrite ring_parked_timers.
Qed.

Lemma claim_waking_all cur blocked s : fits64 blocked -> all_ok s -> all_ok (signal_claim_waking_locked cur blocked s).2.
Proof.
  intros F O. apply (all_ext s); [|by apply claim_waking_ok, O|done]. unfold signal_claim_waking_locked. repeat case_if; done.
Qed.

Lemma release_claims_all cur t s : all_ok s -> all_ok (signal_release_claims cur t s).
Proof.
  intros O. apply (all_ext s); [|by apply release_claims_op_ok, O|done]. unfold signal_release_claims, signal_release_claims_locked.
  assert (G : forall l s b, s_timers (foldl (fun '(s, released) idx =>
    if bool_decide ((s_owner s).[idx] = Some t) then (shared_claim_release_locked (idx + 1) s, true) else (s, released)) (s, b) l).1 = s_timers s).
  { induction l as [|j l IH]; intros s1 b; cbn [foldl]; [done|]. case_bool_decide; by rewrite IH. }
  specialize (G (set_bits (s_claimed s)) s false). destruct (foldl _ _ _) as [s1 []]; exact G.
Qed.

Lemma thread_deactivate_all cur t s : all_ok s -> all_ok (thread_deactivate cur t s).
Proof.
  intros O. unfold thread_deactivate. apply (release_claims_all cur t) in O. set (s1 := signal_release_claims cur t s) in *. clearbody s1.
  case_if; [done|]. by apply refresh_all, deactivate_slot_all.
Qed.

Lemma itimers_all r v q s : all_ok s -> all_ok (set_itimers r v q s).
Proof. intros O. apply (all_ext s); [done| |done]. destruct O as ([B H] & _). split; [by apply (base_ext s)|by apply (hint_ext s)]. Qed.

Lemma set_itimer_all cur which now value interval s : all_ok s -> all_ok (signal_set_itimer cur which now value interval s).2.
Proof.
  intros O. unfold signal_set_itimer. destruct value as [v|]; [|done]. case_if; cbn [snd]; [|apply attention_all]; destruct which; by apply itimers_all.
Qed.

Lemma check_timers_all cur cpu chk now s : (forall i, clock (chk i)) -> all_ok s -> all_ok (signal_check_timers cur cpu chk now s).
Proof.
  intros C O. unfold signal_check_timers. apply (timer_check_ok cur chk s C) in O. set (s1 := posix_timer_check cur chk s) in *. clearbody s1. case_if; [done|].
  unfold check_itimers_locked. destruct (check_one_timer (s_real s1) now) as [real r]. destruct (if cpu then _ else _) as [virt v]. destruct (if cpu then check_one_timer (s_prof s1) now else _) as [prof q].
  apply (itimers_all r v q) in O. generalize dependent (set_itimers r v q s1). generalize ((if real then [LINUX_SIGALRM] else []) ++ (if virt then [LINUX_SIGVTALRM] else []) ++ (if prof then [LINUX_SIGPROF] else [])).
  intros l. induction l as [|x l IH]; intros s2 O; cbn [foldl]; [done|]. apply IH. by apply queue_shared_all.
Qed.

Lemma claim_interruption_all cur chk s : (forall i, clock (chk i)) -> all_ok s -> all_ok (signal_claim_interruption cur chk s).2.
Proof.
  intros C O. unfold signal_claim_interruption. apply (timer_check_ok cur chk s C) in O. set (s1 := posix_timer_check cur chk s) in *. clearbody s1. case_if; [done|].
  pose proof (claim_waking_all cur (blocked_of s1 cur) s1 (proj1 (blocked_maskable s1 cur (proj1 (proj1 O)))) O) as O2. by destruct (signal_claim_waking_locked cur _ s1).
Qed.

Lemma take_saved_all cur s : all_ok s -> all_ok (take_saved_mask cur s).2.
Proof. intros O. unfold take_saved_mask. case_if; [|done]. apply store_saved_all; [apply saved_maskable, O|done]. Qed.

Lemma install_all signum act s : valid_signal signum -> sig_uncatchable signum = false -> act_ok act -> all_ok s -> all_ok (install_action signum act s).1.
Proof. intros V U A O. apply (all_ext s); [done| |done]. apply set_action_ok; [done|done| |apply O]. by rewrite U. Qed.

Lemma get_state_all cur s : all_ok s -> all_ok (signal_get_state cur s).2.
Proof.
  intros O. destruct cur as [i|]; [|done]. apply (all_ext s); [done| |done]. destruct O as ([B H] & _). split; [|by apply (hint_ext s)].
  apply base_set_fallback; [apply (bo_threads s B i)|apply (bo_fallback s B)|done].
Qed.

Definition set_identity pid uid s := mk_signals (s_actions s) (s_shared s) (s_fallback s) (s_threads s) (s_hint s) (s_claimed s) (s_owner s) (s_timers s) (s_real s) (s_virt s) (s_prof s) (s_parked s) pid uid (s_events s).

(** What a fork child is sent: the state of a parent in the invariant. *)
Definition snapshot_ok (st : snapshot) : Prop :=
  Forall act_ok (sn_actions st) /\ length (sn_actions st) = 64%nat /\ sa_handler (sn_actions st).[8] = LINUX_SIG_DFL /\ sa_handler (sn_actions st).[18] = LINUX_SIG_DFL /\
  maskable (fb_blocked (sn_fallback st)) /\ maskable (fb_saved (sn_fallback st)).

Lemma get_state_snapshot cur s : all_ok s -> snapshot_ok (signal_get_state cur s).1.
Proof.
  intros ([B H] & _). destruct (bo_acts s B) as [A1 A2 A3 A4]. assert (F : Forall act_ok (s_actions s)).
  { apply list.Forall_lookup. intros i a L. pose proof (lookup_lt_Some _ _ _ L) as Bi. specialize (A2 (Z.of_nat i) ltac:(lia)). unfold aget in A2.
    by rewrite Nat2Z.id, (list_lookup_total_correct _ _ _ L) in A2. }
  destruct (bo_fallback s B) as [M1 M2]. unfold snapshot_ok, signal_get_state. destruct cur as [i|]; cbn [fst sn_actions sn_fallback set_fallback s_actions s_fallback fb_blocked fb_saved].
  - split_and!; try done; apply (bo_threads s B i).
  - by split_and!.
Qed.

(** ** The transitions *)

Inductive sig_step : signals -> signals -> Prop :=
  | step_queue cur signum s : sig_step s (signal_queue cur signum s)
  | step_queue_info cur signum code pid uid int ptr s : sig_step s (signal_queue_info cur signum code pid uid int ptr s)
  | step_queue_thread cur tid signum s : sig_step s (signal_queue_thread cur tid signum s).2
  | step_queue_thread_info cur tid signum code pid uid int ptr s : sig_step s (signal_queue_thread_info cur tid signum code pid uid int ptr s).2
  | step_set_blocked cur mask s : fits64 mask -> sig_step s (signal_set_blocked cur mask s)
  | step_restore_blocked cur mask s : fits64 mask -> sig_step s (signal_restore_blocked cur mask s)
  | step_defer_restore cur mask s : fits64 mask -> sig_step s (signal_defer_restore_blocked cur mask s)
  | step_restore_saved cur s : sig_step s (signal_restore_saved_blocked cur s)
  | step_procmask cur how set s s' : fits64 set -> procmask_locked cur how set s = Some s' -> sig_step s s'
  | step_suspend_begin cur mask s : fits64 mask -> sig_step s (suspend_begin cur mask s).2
  | step_suspend_end cur saved woke s : maskable saved -> sig_step s (suspend_end cur saved woke s)
  | step_claim cur blocked s : fits64 blocked -> sig_step s (signal_claim_waking_locked cur blocked s).2
  | step_claim_interruption cur chk s : (forall i, clock (chk i)) -> sig_step s (signal_claim_interruption cur chk s).2
  | step_release_claims cur t s : sig_step s (signal_release_claims cur t s)
  | step_try_dequeue cur mask s : fits64 mask -> sig_step s (sigtimedwait_try_dequeue cur mask s).2
  | step_signalfd cur expected s : sig_step s (signal_take_signalfd_exact cur expected s).2
  | step_deliver cur signum src s : deliver_pick s cur = Some (signum, src) -> sig_step s (dequeue_locked src signum s).2
  | step_take_saved cur s : sig_step s (take_saved_mask cur s).2
  | step_enter cur signum alt s : valid_signal signum -> sig_step s (enter_handler cur signum alt s)
  | step_fault cur signum s : sig_step s (force_fault cur signum s)
  | step_leave cur mask sp s : fits64 mask -> sig_step s (leave_handler cur mask sp s)
  | step_action signum act s : valid_signal signum -> sig_uncatchable signum = false -> act_ok act -> sig_step s (install_action signum act s).1
  | step_set_itimer cur which now value interval s : sig_step s (signal_set_itimer cur which now value interval s).2
  | step_check_timers cur cpu chk now s : (forall i, clock (chk i)) -> sig_step s (signal_check_timers cur cpu chk now s)
  | step_timer_create clockid notify signum value dflt ret s s' : signal_posix_timer_create clockid notify signum value dflt s = Some (ret, s') -> sig_step s s'
  | step_timer_get cur id chk now1 now2 s : (forall i, clock (chk i)) -> clock now1 -> sig_step s (signal_posix_timer_get cur id chk now1 now2 s).2
  | step_timer_set cur id flags value chk now1 now2 now3 s : (forall i, clock (chk i)) -> clock now1 -> clock now3 ->
      sig_step s (signal_posix_timer_set cur id flags value chk now1 now2 now3 s).2
  | step_timer_delete id s : sig_step s (signal_posix_timer_delete id s).2
  | step_exec cur s : sig_step s (signal_reset_for_exec cur s)
  | step_get_state cur s : sig_step s (signal_get_state cur s).2
  | step_fork_child cur st s : snapshot_ok st -> sig_step s (fork_child_state cur st s)
  | step_alloc i tid s s' : thread_alloc_slot i tid s = Some s' -> sig_step s s'
  | step_deactivate_slot t s : sig_step s (deactivate_slot t s)
  | step_refresh s : sig_step s (signal_refresh_pending_hint s)
  | step_park n s : sig_step s (set_parked n s)
  | step_identity pid uid s : sig_step s (set_identity pid uid s).

Lemma step_ok s s' : sig_step s s' -> all_ok s -> all_ok s'.
Proof.
  intros St O. destruct St; try (by apply queue_shared_all; [intros e [= <-]|]); try (by apply queue_thread_all; [intros e [= <-]|]).
  - by apply store_blocked_all; [apply land_unmaskable|].
  - by apply store_blocked_all; [apply land_unmaskable|].
  - by apply store_saved_all; [apply land_unmaskable|].
  - by apply restore_saved_all.
  - by eapply procmask_all.
  - by apply store_blocked_all; [apply land_unmaskable|].
  - unfold suspend_end. case_if; [by apply store_saved_all|by apply store_blocked_all].
  - by apply claim_waking_all.
  - by apply claim_interruption_all.
  - by apply release_claims_all.
  - by apply try_dequeue_all.
  - by apply take_signalfd_all.
  - by eapply deliver_dequeue_all.
  - by apply take_saved_all.
  - by apply enter_handler_all.
  - by apply force_fault_all.
  - by apply leave_handler_all.
  - by apply install_all.
  - by apply set_itimer_all.
  - by apply check_timers_all.
  - by eapply timer_create_all.
  - by apply timer_get_all.
  - by apply timer_set_all.
  - by apply timer_delete_all.
  - by apply exec_all.
  - by apply get_state_all.
  - destruct H as (F & L & H8 & H18 & M1 & M2). by apply fork_all.
  - by eapply alloc_all.
  - by apply deactivate_slot_all.
  - by apply refresh_all.
  - apply (all_ext s); [done| |done]. destruct O as ([B H] & _). split; [by apply (base_ext s)|by apply (hint_ext s)].
  - apply (all_ext s); [done| |done]. destruct O as ([B H] & _). split; [by apply (base_ext s)|by apply (hint_ext s)].
Qed.

(** ** The start *)

Lemma boot_thread pid uid tid j : thread_at (boot pid uid tid) j = thread_at (boot pid uid tid) 0 \/ thread_at (boot pid uid tid) j = zero_thread.
Proof.
  destruct j as [|j]; [by left|right]. destruct (Nat.lt_ge_cases (S j) 64) as [L|L]; [|by apply thread_at_out].
  unfold thread_at, boot. cbn [s_threads]. change (replicate 63 zero_thread !!! j = zero_thread). apply lookup_total_replicate_2. lia.
Qed.

Lemma boot_ok pid uid tid : all_ok (boot pid uid tid).
Proof.
  assert (B : sig_ok (boot pid uid tid)).
  { split; [constructor|constructor].
    - constructor; cbn [boot s_actions]; [by rewrite length_replicate| |done|done]. intros k Bk. unfold aget. by rewrite lookup_total_replicate_2 by lia.
    - apply empty_ok.
    - done.
    - intros j. destruct (boot_thread pid uid tid j) as [->| ->]; split; try apply empty_ok; split; apply maskable_zero.
    - split; apply maskable_zero.
    - apply (no_claims (replicate 64 None) (boot pid uid tid) eq_refl).
    - done.
    - intros k Bk. cbn. by rewrite Z.bits_0.
    - intros j k Bk. destruct (boot_thread pid uid tid j) as [->| ->]; cbn; by rewrite Z.bits_0. }
  apply (no_timers_ok 0 (boot pid uid tid)); [unfold INT32_MAX; lia|done].
Qed.

Definition reachable (s : signals) : Prop := exists pid uid tid, rtc sig_step (boot pid uid tid) s.

Lemma reachable_ok s : reachable s -> all_ok s.
Proof. intros (pid & uid & tid & R). pose proof (boot_ok pid uid tid) as O. induction R; [done|]. apply IHR. by eapply step_ok. Qed.
