(* ===== verification/SigFrame.v ===== *)
(** * Signal delivery and return (src/syscall/signal.c)

    What runs on one vCPU around a handler: the frame that is pushed on the guest
    stack as bytes (src/syscall/signal.h, src/proved/sigframe.h), the registers that
    send the guest into the handler, and rt_sigreturn, which reads the frame back;
    with them the restart of an interrupted system call (src/syscall/syscall.c) and
    the abort of a restartable sequence (src/syscall/proc.c).  The state of the vCPU
    and the thread-local variables are records; guest memory is whatever [GuestBytes]
    reads and writes. *)

From S2P Require Import Prelude Bits FutexWord SigQueue Signal.

(** ** Bytes *)

(** An object of [n] bytes as stored in memory, and the object read back. *)
Definition le (n z : Z) : list Z := Z_to_little_endian n 8 z.
Definition field (off n : Z) (b : list Z) : Z := little_endian_to_Z 8 (take (Z.to_nat n) (drop (Z.to_nat off) b)).
Definition zeros (n : Z) : list Z := replicate (Z.to_nat n) 0.
(** memcpy into a buffer. *)
Definition put (off : Z) (src b : list Z) : list Z := take (Z.to_nat off) b ++ src ++ drop (Z.to_nat off + length src) b.

(** guest_read_small and guest_write_small: the bytes copied before the end or the
    first fault, or the memory after it, and whether all went through; and the store
    of bytes at an offset of the slab. *)
Class GuestBytes (M : Type) := {
  gb_read : M -> Z -> Z -> list Z * bool;
  gb_write : M -> Z -> list Z -> M * bool;
  gb_poke : M -> Z -> list Z -> M
}.

(** ** The frame *)

Record linux_siginfo_t := mk_siginfo { inf_signo : Z; inf_code : Z; inf_pid : Z; inf_uid : Z; inf_value : Z }.
Record linux_stack_t := mk_stack { ss_sp : Z; ss_flags : Z; ss_size : Z }.
Record linux_sigcontext_t := mk_sigcontext { sc_fault_address : Z; sc_regs : list Z; sc_sp : Z; sc_pc : Z; sc_pstate : Z; sc_reserved : list Z }.
Record linux_ucontext_t := mk_ucontext { uc_flags : Z; uc_link : Z; uc_stack : linux_stack_t; uc_sigmask : Z; uc_mcontext : linux_sigcontext_t }.
Record linux_rt_sigframe_t := mk_frame { fr_info : linux_siginfo_t; fr_uc : linux_ucontext_t }.

Definition SIGCONTEXT_RESERVED_BYTES : Z := 4096.
Definition SIGINFO_BYTES : Z := 128.
Definition FRAME_BYTES : Z := 4688.

Definition siginfo_bytes (i : linux_siginfo_t) : list Z :=
  le 4 (inf_signo i) ++ le 4 0 ++ le 4 (inf_code i) ++ le 4 0 ++ le 4 (inf_pid i) ++ le 4 (inf_uid i) ++ le 8 (inf_value i) ++ zeros 96.
Definition stack_bytes (t : linux_stack_t) : list Z := le 8 (ss_sp t) ++ le 4 (ss_flags t) ++ le 4 0 ++ le 8 (ss_size t).
(** Eight bytes align the reserved area to sixteen. *)
Definition sigcontext_bytes (c : linux_sigcontext_t) : list Z :=
  le 8 (sc_fault_address c) ++ concat (le 8 <$> sc_regs c) ++ le 8 (sc_sp c) ++ le 8 (sc_pc c) ++ le 8 (sc_pstate c) ++ zeros 8 ++ sc_reserved c.
Definition ucontext_bytes (u : linux_ucontext_t) : list Z :=
  le 8 (uc_flags u) ++ le 8 (uc_link u) ++ stack_bytes (uc_stack u) ++ le 8 (uc_sigmask u) ++ zeros 120 ++ zeros 8 ++ sigcontext_bytes (uc_mcontext u).
Definition frame_bytes (f : linux_rt_sigframe_t) : list Z := siginfo_bytes (fr_info f) ++ ucontext_bytes (fr_uc f).

Definition field32 (off : Z) (b : list Z) : Z := to_int32 (field off 4 b).
Definition siginfo_of (b : list Z) : linux_siginfo_t := mk_siginfo (field32 0 b) (field32 8 b) (field32 16 b) (field32 20 b) (field 24 8 b).
Definition stack_of (b : list Z) : linux_stack_t := mk_stack (field 0 8 b) (field32 8 b) (field 16 8 b).
Definition sigcontext_of (b : list Z) : linux_sigcontext_t :=
  mk_sigcontext (field 0 8 b) ((fun i => field (8 + 8 * i) 8 b) <$> seqZ 0 31) (field 256 8 b) (field 264 8 b) (field 272 8 b)
    (take (Z.to_nat SIGCONTEXT_RESERVED_BYTES) (drop (Z.to_nat 288) b)).
Definition ucontext_of (b : list Z) : linux_ucontext_t :=
  mk_ucontext (field 0 8 b) (field 8 8 b) (stack_of (drop (Z.to_nat 16) b)) (field 40 8 b) (sigcontext_of (drop (Z.to_nat 176) b)).
Definition frame_of (b : list Z) : linux_rt_sigframe_t := mk_frame (siginfo_of b) (ucontext_of (drop (Z.to_nat SIGINFO_BYTES) b)).

(** ** Placement (src/proved/sigframe.h) *)

Definition SIGFRAME_ALIGN : Z := 16.

Definition sigframe_base (sp frame_bytes floor : Z) : option Z :=
  if sp <? frame_bytes then None
  else
    let candidate := (sp - frame_bytes)%u64 in
    let candidate := (candidate - candidate mod SIGFRAME_ALIGN)%u64 in
    if candidate <? floor then None else Some candidate.

Definition SIGFRAME_FPSIMD_VREG_BASE : Z := 16.
Definition SIGFRAME_FPSIMD_VREG_BYTES : Z := 16.
Definition SIGFRAME_FPSIMD_VREG_COUNT : Z := 32.
Definition sigframe_fpsimd_vreg_offset (n : Z) : Z := wrap32 (SIGFRAME_FPSIMD_VREG_BASE + n * SIGFRAME_FPSIMD_VREG_BYTES).

(** ** The vCPU and the thread-local state *)

Record vcpu_t := mk_vcpu {
  v_gprs : list Z;
  v_pc : Z;
  v_cpsr : Z;
  v_sp_el0 : Z;
  v_sp_el1 : Z;
  v_elr : Z;
  v_spsr : Z;
  v_fpsr : Z;
  v_fpcr : Z;
  v_simd : list Z
}.
Definition set_gprs r v := mk_vcpu r (v_pc v) (v_cpsr v) (v_sp_el0 v) (v_sp_el1 v) (v_elr v) (v_spsr v) (v_fpsr v) (v_fpcr v) (v_simd v).
Definition set_gpr (n x : Z) (v : vcpu_t) : vcpu_t := set_gprs (v_gprs v).[n := x] v.
Definition set_live pc cpsr v := mk_vcpu (v_gprs v) pc cpsr (v_sp_el0 v) (v_sp_el1 v) (v_elr v) (v_spsr v) (v_fpsr v) (v_fpcr v) (v_simd v).
Definition set_sp_el0 sp v := mk_vcpu (v_gprs v) (v_pc v) (v_cpsr v) sp (v_sp_el1 v) (v_elr v) (v_spsr v) (v_fpsr v) (v_fpcr v) (v_simd v).
Definition set_elr e v := mk_vcpu (v_gprs v) (v_pc v) (v_cpsr v) (v_sp_el0 v) (v_sp_el1 v) e (v_spsr v) (v_fpsr v) (v_fpcr v) (v_simd v).
Definition set_spsr p v := mk_vcpu (v_gprs v) (v_pc v) (v_cpsr v) (v_sp_el0 v) (v_sp_el1 v) (v_elr v) p (v_fpsr v) (v_fpcr v) (v_simd v).
Definition set_fp fpsr fpcr simd v := mk_vcpu (v_gprs v) (v_pc v) (v_cpsr v) (v_sp_el0 v) (v_sp_el1 v) (v_elr v) (v_spsr v) fpsr fpcr simd.

Record pending_fault_t := mk_fault { pf_valid : bool; pf_code : Z; pf_addr : Z; pf_esr : Z }.
(** cpu_restart_req *)
Record restart_req := mk_restart { rq_armed : bool; rq_restarted : bool; rq_forbidden : bool; rq_elr_rewound : Z; rq_elr_after_svc : Z; rq_nr : Z; rq_result : Z }.
(** sigreturn_x8 *)
Record parked_x8 := mk_parked { px_valid : bool; px_elr : Z; px_x8 : Z }.

(** The thread-local variables, with the rseq registration of the thread. *)
Record local_t := mk_local {
  l_fault : pending_fault_t;
  l_cookies : list Z;
  l_depth : Z;
  l_restart : restart_req;
  l_x8 : parked_x8;
  l_termination : Z;
  l_rseq_gva : Z;
  l_rseq_signature : Z
}.
Definition set_fault f l := mk_local f (l_cookies l) (l_depth l) (l_restart l) (l_x8 l) (l_termination l) (l_rseq_gva l) (l_rseq_signature l).
Definition set_cookies c d l := mk_local (l_fault l) c d (l_restart l) (l_x8 l) (l_termination l) (l_rseq_gva l) (l_rseq_signature l).
Definition set_restart r l := mk_local (l_fault l) (l_cookies l) (l_depth l) r (l_x8 l) (l_termination l) (l_rseq_gva l) (l_rseq_signature l).
Definition set_x8 x l := mk_local (l_fault l) (l_cookies l) (l_depth l) (l_restart l) x (l_termination l) (l_rseq_gva l) (l_rseq_signature l).
Definition set_termination t l := mk_local (l_fault l) (l_cookies l) (l_depth l) (l_restart l) (l_x8 l) t (l_rseq_gva l) (l_rseq_signature l).

Definition fault_consumed (f : pending_fault_t) : pending_fault_t := mk_fault false (pf_code f) (pf_addr f) (pf_esr f).
Definition x8_dropped (x : parked_x8) : parked_x8 := mk_parked false (px_elr x) (px_x8 x).

Definition signal_set_fault_info (si_code addr esr : Z) (l : local_t) : local_t := set_fault (mk_fault true si_code addr esr) l.
Definition signal_forget_sigreturn_x8 (l : local_t) : local_t := set_x8 (x8_dropped (l_x8 l)) l.
Definition signal_repark_sigreturn_x8 (v : vcpu_t) (l : local_t) : local_t :=
  if negb (px_valid (l_x8 l)) then l else set_x8 (mk_parked true (v_elr v) (px_x8 (l_x8 l))) l.

(** ** Restarting an interrupted system call (src/syscall/syscall.c) *)

Definition syscall_restart_forbid (l : local_t) : local_t :=
  let r := l_restart l in set_restart (mk_restart (rq_armed r) (rq_restarted r) true (rq_elr_rewound r) (rq_elr_after_svc r) (rq_nr r) (rq_result r)) l.
Definition syscall_is_restarted (l : local_t) : bool := rq_restarted (l_restart l).

Definition syscall_restart_arm (elr_after_svc nr result : Z) (v : vcpu_t) (l : local_t) : vcpu_t * local_t :=
  let r := l_restart l in
  let rewound := (elr_after_svc - 4)%u64 in
  (set_elr rewound v, set_restart (mk_restart true (rq_restarted r) (rq_forbidden r) rewound elr_after_svc nr result) l).

Definition syscall_restart_cancel (v : vcpu_t) (l : local_t) : vcpu_t * local_t :=
  let r := l_restart l in
  if negb (rq_armed r) then (v, l)
  else
    let l := set_restart (mk_restart false (rq_restarted r) (rq_forbidden r) (rq_elr_rewound r) (rq_elr_after_svc r) (rq_nr r) (rq_result r)) l in
    if negb (v_elr v =? rq_elr_rewound r) then (v, l)
    else (set_gpr 0 (wrap64 (rq_result r)) (set_elr (rq_elr_after_svc r) v), l).

Definition syscall_restart_note_entry (x8 : Z) (v : vcpu_t) (l : local_t) : local_t :=
  let r := l_restart l in
  let restarted := rq_armed r && (v_elr v =? rq_elr_after_svc r) && (x8 =? rq_nr r) in
  set_restart (mk_restart false restarted false (rq_elr_rewound r) (rq_elr_after_svc r) (rq_nr r) (rq_result r)) l.

(** [leader_work_only] is thread_stop_is_leader_work_only. *)
Definition syscall_restart_try_arm (leader_work_only : bool) (x8 result : Z) (v : vcpu_t) (l : local_t) : bool * vcpu_t * local_t :=
  if negb (result =? - LINUX_EINTR) || rq_forbidden (l_restart l) || negb leader_work_only then (false, v, l)
  else if v_elr v <? 4 then (false, v, l)
  else let '(v, l) := syscall_restart_arm (v_elr v) x8 result v l in (true, v, l).

(** The end of syscall_dispatch, up to the request for the shim. *)
Definition write_result (leader_work_only : bool) (x8 result : Z) (v : vcpu_t) (l : local_t) : vcpu_t * local_t :=
  let '(restart_armed, v, l) := syscall_restart_try_arm leader_work_only x8 result v l in
  (if restart_armed then v else set_gpr 0 (wrap64 result) v, l).

(** ** The frame of a delivery *)

Definition FPSIMD_MAGIC : Z := 1179680769.      (* 0x46508001 *)
Definition FPSIMD_CONTEXT_SIZE : Z := 528.
Definition ESR_MAGIC : Z := 1163088385.         (* 0x45535201 *)
Definition ESR_CONTEXT_SIZE : Z := 16.

(** The chain of records, written into a cleared area. *)
Definition build_sigcontext_reserved (reserved : list Z) (esr : Z) (v : vcpu_t) : list Z :=
  let off := 0 in
  let b := put off (le 4 FPSIMD_MAGIC) reserved in
  let b := put (off + 4) (le 4 FPSIMD_CONTEXT_SIZE) b in
  let b := put (off + 8) (le 4 (v_fpsr v)) b in
  let b := put (off + 12) (le 4 (v_fpcr v)) b in
  let b := foldl (fun b i => put (off + sigframe_fpsimd_vreg_offset i) (le 16 (v_simd v).[i]) b) b (seqZ 0 SIGFRAME_FPSIMD_VREG_COUNT) in
  let off := off + FPSIMD_CONTEXT_SIZE in
  let '(off, b) :=
    if negb (esr =? 0) then
      let b := put off (le 4 ESR_MAGIC) b in
      let b := put (off + 4) (le 4 ESR_CONTEXT_SIZE) b in
      let b := put (off + 8) (le 8 esr) b in
      (off + ESR_CONTEXT_SIZE, b)
    else (off, b) in
  put off (zeros 8) b.

(** The frame, and the state with the fault and the saved mask consumed; [rand] is
    what arc4random_buf gave. *)
Definition signal_build_frame (cur : option nat) (rand signum : Z) (rt_info : signal_rt_info_t) (saved_regs : list Z) (saved_sp saved_pc saved_pstate : Z)
    (v : vcpu_t) (l : local_t) (s : signals) : linux_rt_sigframe_t * Z * local_t * signals :=
  let f := l_fault l in
  let info :=
    if pf_valid f
    then mk_siginfo signum (pf_code f) (to_int32 (wrap32 (pf_addr f))) (to_int32 (Z.shiftr (pf_addr f) 32)) 0
    else mk_siginfo signum (si_code rt_info) (si_pid rt_info) (to_int32 (si_uid rt_info)) (si_ptr rt_info) in
  let cookie := Z.lor rand 1 in
  let '(sigmask, s) := take_saved_mask cur s in
  let fault_address := if pf_valid f then pf_addr f else 0 in
  let frame_esr := if pf_valid f then pf_esr f else 0 in
  let l := if pf_valid f then set_fault (fault_consumed f) l else l in
  let reserved := build_sigcontext_reserved (zeros SIGCONTEXT_RESERVED_BYTES) frame_esr v in
  let stack :=
    match cur with
    | Some i =>
        let t := thread_at s i in
        mk_stack (th_alt_sp t) (if th_on_alt t then Z.lor (th_alt_flags t) LINUX_SS_ONSTACK else th_alt_flags t) (th_alt_size t)
    | None => mk_stack 0 LINUX_SS_DISABLE 0
    end in
  (mk_frame info (mk_ucontext cookie 0 stack sigmask (mk_sigcontext fault_address saved_regs saved_sp saved_pc saved_pstate reserved)), cookie, l, s).

Definition MAX_NESTED_SIGNALS : Z := 16.
Definition VDSO_BASE : Z := 61440.
Definition VDSO_OFF_SIGRET : Z := 224.

(** Where the infrastructure of the guest lies. *)
Record guest_geo := mk_geo { g_interp_base : Z; g_ipa_base : Z; g_shim_data_base : Z }.
Definition INFRA_BYTES : Z := 16777216.
Definition guest_addr_in_infra (g : guest_geo) (addr : Z) : bool :=
  ((g_interp_base g - INFRA_BYTES)%u64 <=? addr) && (addr <? g_interp_base g).

Definition SP_EL1_SLOT_BYTES : Z := 4096.
Definition sp_el1_top (g : guest_geo) : Z := (g_ipa_base g + g_shim_data_base g + 2097152)%u64.
Definition thread_sp_el1_region (g : guest_geo) : Z * Z := ((sp_el1_top g - 64 * SP_EL1_SLOT_BYTES)%u64, sp_el1_top g).

Section Delivery.
Context {M : Type} `{GuestBytes M}.

(** The return code with the program counter to resume at. *)
Definition rseq_try_abort (rseq_gva rseq_signature pc : Z) (m : M) : Z * Z * M :=
  if rseq_gva =? 0 then (0, pc, m)
  else
    let '(b, ok) := gb_read m (rseq_gva + 8)%u64 8 in
    let rseq_cs_ptr := field 0 8 b in
    if negb ok || (rseq_cs_ptr =? 0) then (0, pc, m)
    else
      let '(cs_buf, ok) := gb_read m rseq_cs_ptr 32 in
      let '(result, pc) :=
        if ok then
          let start_ip := field 8 8 cs_buf in
          let post_commit_offset := field 16 8 cs_buf in
          let abort_ip := field 24 8 cs_buf in
          if (start_ip <=? pc) && (pc <? (start_ip + post_commit_offset)%u64) then
            let abort_sig := if 4 <=? abort_ip then field 0 4 (put 0 (gb_read m (abort_ip - 4)%u64 4).1 (zeros 4)) else 0 in
            if abort_sig =? rseq_signature then (1, abort_ip) else (-1, pc)
          else (0, pc)
        else (0, pc) in
      (result, pc, (gb_write m (rseq_gva + 8)%u64 (le 8 0)).1).

(** The result, the exit code if it was set, and the state. *)
Record outcome := mk_outcome { o_ret : Z; o_exit : option Z; o_v : vcpu_t; o_l : local_t; o_m : M; o_s : signals }.

Definition no_fault (l : local_t) : local_t := set_fault (fault_consumed (l_fault l)) l.

(** The part of deliver_signal_locked from the frame on. *)
Definition push_frame (cur : option nat) (rand signum : Z) (rt_info : signal_rt_info_t) (act : linux_sigaction_t) (el0_preempt : bool)
    (saved_regs : list Z) (saved_sp saved_pc saved_pstate : Z) (v : vcpu_t) (l : local_t) (m : M) (s : signals) : outcome :=
  let '(frame, cookie, l, s) := signal_build_frame cur rand signum rt_info saved_regs saved_sp saved_pc saved_pstate v l s in
  let use_altstack :=
    match cur with
    | Some i => let t := thread_at s i in has (sa_flags act) LINUX_SA_ONSTACK && negb (has (th_alt_flags t) LINUX_SS_DISABLE) && negb (th_on_alt t)
    | None => false
    end in
  let alt_sp := match cur with Some i => th_alt_sp (thread_at s i) | None => 0 end in
  let alt_size := match cur with Some i => th_alt_size (thread_at s i) | None => 0 end in
  let signal_sp := if use_altstack then (alt_sp + alt_size)%u64 else saved_sp in
  match sigframe_base signal_sp FRAME_BYTES (if use_altstack then alt_sp else 0) with
  | None => mk_outcome (-1) (Some (128 + signum)) v l m s
  | Some frame_sp =>
      let pushed_cookie := l_depth l <? MAX_NESTED_SIGNALS in
      let depth := l_depth l in
      let frame := if pushed_cookie then frame else mk_frame (fr_info frame) (mk_ucontext 0 (uc_link (fr_uc frame)) (uc_stack (fr_uc frame)) (uc_sigmask (fr_uc frame)) (uc_mcontext (fr_uc frame))) in
      let l := if pushed_cookie then set_cookies (l_cookies l).[depth := cookie] (depth + 1) l else l in
      let '(m, ok) := gb_write m frame_sp (frame_bytes frame) in
      if negb ok then mk_outcome (-1) (Some (128 + signum)) v (if pushed_cookie then set_cookies (l_cookies l) depth l else l) m s
      else
        let v := set_spsr 0 (set_elr (sa_handler act) (set_sp_el0 frame_sp v)) in
        let v := if el0_preempt then set_live (sa_handler act) 0 v else v in
        let v := set_gpr 30 (VDSO_BASE + VDSO_OFF_SIGRET) (set_gpr 0 signum v) in
        let v := if has (sa_flags act) LINUX_SA_SIGINFO then set_gpr 2 (frame_sp + SIGINFO_BYTES)%u64 (set_gpr 1 frame_sp v) else v in
        let s := enter_handler cur signum use_altstack s in
        mk_outcome 1 None (if el0_preempt then v else set_gpr 8 2 v) l m s
  end.

Definition deliver_signal_locked (cur : option nat) (rand signum : Z) (rt_info : signal_rt_info_t) (v : vcpu_t) (l : local_t) (m : M) (s : signals) : outcome :=
  let idx := signum - 1 in
  if negb ((0 <=? idx) && (idx <? LINUX_NSIG)) then mk_outcome 0 None v l m s
  else
    let act := (s_actions s).[idx] in
    if sa_handler act =? LINUX_SIG_IGN then mk_outcome 0 None v (no_fault l) m s
    else if sa_handler act =? LINUX_SIG_DFL then
      match signal_default_disposition signum with
      | SIG_DISP_TERM | SIG_DISP_CORE => mk_outcome (-1) (Some (128 + signum)) v (no_fault l) m s
      | SIG_DISP_IGN | SIG_DISP_CONT | SIG_DISP_STOP => mk_outcome 0 None v (no_fault l) m s
      end
    else
      let cur_cpsr := v_cpsr v in
      let el0_preempt := Z.land cur_cpsr 15 =? 0 in
      let '(v, l) := if el0_preempt then (v, l) else syscall_restart_cancel v l in
      let saved_regs := v_gprs v in
      let saved_sp := v_sp_el0 v in
      let '(saved_pc, saved_pstate) := if el0_preempt then (v_pc v, cur_cpsr) else (v_elr v, v_spsr v) in
      let take_x8 := negb el0_preempt && px_valid (l_x8 l) && (px_elr (l_x8 l) =? saved_pc) in
      let saved_regs := if take_x8 then saved_regs.[8 := px_x8 (l_x8 l)] else saved_regs in
      let l := if take_x8 then signal_forget_sigreturn_x8 l else l in
      let '(rseq_rc, saved_pc, m) :=
        match cur with Some _ => rseq_try_abort (l_rseq_gva l) (l_rseq_signature l) saved_pc m | None => (0, saved_pc, m) end in
      let v := if rseq_rc =? 1 then set_elr saved_pc v else v in
      if rseq_rc =? -1 then mk_outcome (-1) (Some (128 + 11)) v l m s
      else push_frame cur rand signum rt_info act el0_preempt saved_regs saved_sp saved_pc saved_pstate v l m s.

(** ** Choosing what to deliver *)

Definition signal_record_termination (signum : Z) (l : local_t) : local_t :=
  set_termination (match signal_default_disposition signum with SIG_DISP_CORE => Z.lor signum 128 | _ => signum end) l.
Definition signal_take_termination_wait_status (l : local_t) : Z * local_t := (l_termination l, set_termination 0 l).

Definition SIGNAL_DELIVER_DISCARDED : Z := 2.

Definition recorded (signum : Z) (o : outcome) : outcome :=
  if o_ret o <? 0 then mk_outcome (o_ret o) (o_exit o) (o_v o) (signal_record_termination signum (o_l o)) (o_m o) (o_s o) else o.

Definition signal_deliver_one (cur : option nat) (rand : Z) (v : vcpu_t) (l : local_t) (m : M) (s : signals) : outcome :=
  match deliver_pick s cur with
  | None => mk_outcome 0 None v l m s
  | Some (signum, src) =>
      let '(rt_info, s) := dequeue_locked src signum s in
      let o := recorded signum (deliver_signal_locked cur rand signum rt_info v l m s) in
      if o_ret o =? 0 then mk_outcome SIGNAL_DELIVER_DISCARDED (o_exit o) (o_v o) (o_l o) (o_m o) (o_s o) else o
  end.

Fixpoint signal_deliver (fuel : nat) (cur : option nat) (rand : Z) (v : vcpu_t) (l : local_t) (m : M) (s : signals) : option outcome :=
  match fuel with
  | O => None
  | S fuel =>
      let o := signal_deliver_one cur rand v l m s in
      if negb (o_ret o =? SIGNAL_DELIVER_DISCARDED) then Some o else signal_deliver fuel cur rand (o_v o) (o_l o) (o_m o) (o_s o)
  end.

Definition signal_deliver_fault (cur : option nat) (rand signum : Z) (v : vcpu_t) (l : local_t) (m : M) (s : signals) : outcome :=
  let s := force_fault cur signum s in
  recorded signum (deliver_signal_locked cur rand signum (signal_default_info (s_pid s) (s_uid s) signum) v l m s).

(** ** Returning from a handler *)

Definition SHIM_FRAME_BYTES : Z := 256.
Definition SHIM_FRAME_OFF_X8 : Z := 64.
Definition SYSCALL_EXEC_HAPPENED : Z := -65536.
Definition PSTATE_MASK : Z := 4076870656.      (* 0xF3001C00 *)

Definition shim_publish_frame_x8 (g : guest_geo) (x8_for_el0 : Z) (v : vcpu_t) (m : M) : M :=
  let sp_el1 := v_sp_el1 v in
  let '(lo, hi) := thread_sp_el1_region g in
  if (sp_el1 <? lo) || ((hi - SHIM_FRAME_BYTES)%u64 <? sp_el1) then m
  else gb_poke m (sp_el1 + SHIM_FRAME_OFF_X8)%u64 (le 8 x8_for_el0).
Definition signal_publish_live_x8 (g : guest_geo) (v : vcpu_t) (m : M) : M := shim_publish_frame_x8 g (v_gprs v).[8] v m.

(** The floating-point state of the reserved area, if it has the record. *)
Definition restore_fpsimd (reserved : list Z) (v : vcpu_t) : vcpu_t :=
  if field 0 4 reserved =? FPSIMD_MAGIC
  then set_fp (field 8 4 reserved) (field 12 4 reserved) ((fun i => field (16 + i * 16) 16 reserved) <$> seqZ 0 32) v
  else v.

Definition signal_rt_sigreturn (g : guest_geo) (cur : option nat) (v : vcpu_t) (l : local_t) (m : M) (s : signals) : outcome :=
  let sp := v_sp_el0 v in
  let '(b, ok) := gb_read m sp FRAME_BYTES in
  if negb ok then mk_outcome (- LINUX_EFAULT) None v l m s
  else
    let frame := frame_of b in
    let frame_cookie := uc_flags (fr_uc frame) in
    let checked := negb (frame_cookie =? 0) && (0 <? l_depth l) in
    if checked && negb (frame_cookie =? (l_cookies l).[l_depth l - 1]) then mk_outcome (- LINUX_EFAULT) None v l m s
    else
      let l := if checked then set_cookies (l_cookies l) (l_depth l - 1) l else l in
      let mc := uc_mcontext (fr_uc frame) in
      let restored_pc := sc_pc mc in
      if guest_addr_in_infra g restored_pc then mk_outcome (- LINUX_EFAULT) None v l m s
      else
        let v := set_gprs (sc_regs mc) v in
        let v := set_spsr (Z.land (sc_pstate mc) PSTATE_MASK) (set_elr restored_pc (set_sp_el0 (sc_sp mc) v)) in
        let v := restore_fpsimd (sc_reserved mc) v in
        let s := leave_handler cur (uc_sigmask (fr_uc frame)) (sc_sp mc) s in
        let restored_x8 := (sc_regs mc).[8] in
        let m := shim_publish_frame_x8 g restored_x8 v m in
        let l := set_x8 (mk_parked true restored_pc restored_x8) l in
        mk_outcome SYSCALL_EXEC_HAPPENED None (set_gpr 8 2 v) l m s.

(** The tail of the shim when it finds the drop-frame marker (src/core/shim.S):
    [x8] is what stands in the X8 slot of its frame. *)
Definition exec_drop_frame (x8 : Z) (v : vcpu_t) : vcpu_t :=
  let v := set_gpr 8 x8 v in
  mk_vcpu (v_gprs v) (v_elr v) (v_spsr v) (v_sp_el0 v) (v_sp_el1 v + SHIM_FRAME_BYTES)%u64 (v_elr v) (v_spsr v) (v_fpsr v) (v_fpcr v) (v_simd v).

(** ** The other calls on signal state, with the guest's memory *)

Definition LINUX_MINSIGSTKSZ : Z := 5120.
Definition LINUX_EPERM : Z := 1.

Definition set_alt (i : nat) (sp flags size : Z) (s : signals) : signals :=
  upd_thread i (fun t => set_th_alt sp flags size (th_on_alt t) t) s.

Definition signal_sigaltstack (cur : option nat) (ss_gva old_ss_gva : Z) (m : M) (s : signals) : Z * M * signals :=
  match cur with
  | None => (- LINUX_EFAULT, m, s)
  | Some i =>
      let t := thread_at s i in
      let old_ss := mk_stack (th_alt_sp t) (if th_on_alt t then Z.lor (th_alt_flags t) LINUX_SS_ONSTACK else th_alt_flags t) (th_alt_size t) in
      let '(m, ok) := if negb (old_ss_gva =? 0) then gb_write m old_ss_gva (stack_bytes old_ss) else (m, true) in
      if negb ok then (- LINUX_EFAULT, m, s)
      else if ss_gva =? 0 then (0, m, s)
      else if th_on_alt t then (- LINUX_EPERM, m, s)
      else
        let '(b, ok) := gb_read m ss_gva 24 in
        if negb ok then (- LINUX_EFAULT, m, s)
        else
          let ss := stack_of b in
          if has (wrap32 (ss_flags ss)) LINUX_SS_DISABLE then (0, m, set_alt i 0 LINUX_SS_DISABLE 0 s)
          else if ss_size ss <? LINUX_MINSIGSTKSZ then (- LINUX_ENOMEM, m, s)
          else if (UINT64_MAX - ss_size ss)%u64 <? ss_sp ss then (- LINUX_EINVAL, m, s)
          else (0, m, set_alt i (ss_sp ss) 0 (ss_size ss) s)
  end.

Definition action_bytes (a : linux_sigaction_t) : list Z := le 8 (sa_handler a) ++ le 8 (sa_flags a) ++ le 8 (sa_restorer a) ++ le 8 (sa_mask a).
Definition action_of (b : list Z) : linux_sigaction_t := mk_act (field 0 8 b) (field 8 8 b) (field 16 8 b) (field 24 8 b).

(** The result, whether exited children are to be reaped, and the state. *)
Definition signal_rt_sigaction (signum act_gva oldact_gva sigsetsize : Z) (m : M) (s : signals) : Z * bool * M * signals :=
  if negb (sigsetsize =? 8) then (- LINUX_EINVAL, false, m, s)
  else if (signum <? 1) || (LINUX_NSIG <? signum) then (- LINUX_EINVAL, false, m, s)
  else if sig_uncatchable signum && negb (act_gva =? 0) then (- LINUX_EINVAL, false, m, s)
  else
    let '(m, ok) := if negb (oldact_gva =? 0) then gb_write m oldact_gva (action_bytes (s_actions s).[signum - 1]) else (m, true) in
    if negb ok then (- LINUX_EFAULT, false, m, s)
    else if act_gva =? 0 then (0, false, m, s)
    else
      let '(b, ok) := gb_read m act_gva 32 in
      if negb ok then (- LINUX_EFAULT, false, m, s)
      else let '(s, reap) := install_action signum (action_of b) s in (0, reap, m, s).

Definition signal_rt_sigprocmask (cur : option nat) (how set_gva oldset_gva sigsetsize : Z) (m : M) (s : signals) : Z * M * signals :=
  if negb (sigsetsize =? 8) then (- LINUX_EINVAL, m, s)
  else
    let '(m, ok) := if negb (oldset_gva =? 0) then gb_write m oldset_gva (le 8 (blocked_of s cur)) else (m, true) in
    if negb ok then (- LINUX_EFAULT, m, s)
    else if set_gva =? 0 then (0, m, s)
    else
      let '(b, ok) := gb_read m set_gva 8 in
      if negb ok then (- LINUX_EFAULT, m, s)
      else match procmask_locked cur how (field 0 8 b) s with Some s => (0, m, s) | None => (- LINUX_EINVAL, m, s) end.

Definition signal_rt_sigpending (cur : option nat) (set_gva sigsetsize : Z) (m : M) (s : signals) : Z * M :=
  if negb (sigsetsize =? 8) then (- LINUX_EINVAL, m)
  else if set_gva =? 0 then (- LINUX_EFAULT, m)
  else
    let '(m, ok) := gb_write m set_gva (le 8 (self_pending_locked s cur)) in
    (if ok then 0 else - LINUX_EFAULT, m).

End Delivery.
Arguments outcome : clear implicits.
