(* ===== verification/SigFrameFacts.v ===== *)
(** * The signal frame as bytes, and what delivery and return do to the registers *)

From S2P Require Import Prelude Bits FutexWord SigQueue SigQueueFacts Signal SigFrame.

(** ** Reading objects back *)

Definition zlen (b : list Z) : Z := Z.of_nat (length b).
Create HintDb bytes.

Lemma zlen_app a b : zlen (a ++ b) = zlen a + zlen b.
Proof. unfold zlen. rewrite length_app. lia. Qed.
Lemma zlen_le n z : 0 <= n -> zlen (le n z) = n.
Proof. apply length_Z_to_little_endian. Qed.
Lemma zlen_zeros n : 0 <= n -> zlen (zeros n) = n.
Proof. intros B. unfold zlen, zeros. rewrite length_replicate. lia. Qed.

Lemma drop_past a b off : zlen a <= off -> drop (Z.to_nat off) (a ++ b) = drop (Z.to_nat (off - zlen a)) b.
Proof. intros B. unfold zlen in *. rewrite drop_app_ge by lia. f_equal. lia. Qed.

Lemma field_past a b off n : zlen a <= off -> field off n (a ++ b) = field (off - zlen a) n b.
Proof. intros B. unfold field. by rewrite drop_past. Qed.

Lemma field_le n z b : 0 <= n -> field 0 n (le n z ++ b) = z mod 2 ^ (n * 8).
Proof.
  intros B. unfold field. rewrite drop_0. pose proof (zlen_le n z B) as L. unfold zlen in L. rewrite <- L at 1. rewrite Nat2Z.id, take_app_length.
  apply little_endian_to_Z_to_little_endian; lia.
Qed.

Lemma field_le64 z b : fits64 z -> field 0 8 (le 8 z ++ b) = z.
Proof. intros F. rewrite field_le by lia. apply Z.mod_small. exact F. Qed.

Definition fits_int32 (z : Z) : Prop := -2147483648 <= z < 2147483648.

Lemma to_int32_mod z : fits_int32 z -> to_int32 (z mod 2 ^ (4 * 8)) = z.
Proof.
  intros F. unfold fits_int32, to_int32, two32 in *. change (2 ^ (4 * 8)) with 4294967296. case_if; unbool.
  - destruct (Z.lt_ge_cases z 0); [|rewrite Z.mod_small in * by lia; lia]. rewrite <- (Z.mod_add z 1 4294967296), Z.mod_small in * by lia. lia.
  - destruct (Z.lt_ge_cases z 0); [|rewrite Z.mod_small in * by lia; lia]. rewrite <- (Z.mod_add z 1 4294967296), Z.mod_small in * by lia. lia.
Qed.

Lemma field_int32 z b : fits_int32 z -> field32 0 (le 4 z ++ b) = z.
Proof. intros F. unfold field32. rewrite field_le by lia. by apply to_int32_mod. Qed.

Lemma field32_past a b off : zlen a <= off -> field32 off (a ++ b) = field32 (off - zlen a) b.
Proof. intros B. unfold field32. by rewrite field_past. Qed.

(** Arrays. *)
Lemma zlen_array n l : 0 <= n -> zlen (concat (le n <$> l)) = n * Z.of_nat (length l).
Proof. intros B. induction l as [|x l IH]; cbn [fmap list_fmap concat length]; [unfold zlen; cbn [length]; lia|]. rewrite zlen_app, zlen_le, IH by done. lia. Qed.

Lemma array_read n l b : 0 <= n -> Forall (fun z => 0 <= z < 2 ^ (n * 8)) l ->
  (fun i => field (n * i) n (concat (le n <$> l) ++ b)) <$> seqZ 0 (Z.of_nat (length l)) = l.
Proof.
  intros B F. revert F. induction l as [|x l IH]; intros F; [done|]. apply Forall_cons_1 in F as [Fx F]. cbn [length fmap list_fmap concat].
  rewrite seqZ_cons by lia. cbn [fmap list_fmap]. rewrite Z.mul_0_r, <- app_assoc, field_le, Z.mod_small by done. f_equal.
  replace (Z.pred (Z.of_nat (S (length l)))) with (Z.of_nat (length l)) by lia. etransitivity; [|exact (IH F)]. change (Z.succ 0) with (1 + 0). rewrite <- (fmap_add_seqZ 1 0), <- list_fmap_compose.
  apply list_fmap_ext. intros i k L. apply lookup_seqZ in L as [-> L]. cbn. rewrite field_past; rewrite zlen_le by done; [|nia]. f_equal. lia.
Qed.

(** ** The structs *)

(** One step of reading past an object whose size is known. *)
Ltac ground_sub :=
  match goal with |- context [Z.sub ?x ?y] =>
    let c := eval vm_compute in (x - y) in
    match c with Zpos _ => idtac | Z0 => idtac end; change (x - y) with c
  end.
Ltac skip :=
  first
    [ rewrite field_le64 by assumption | rewrite field_int32 by assumption
    | match goal with
      | |- context [field ?off ?n (le ?k ?z ++ ?b)] => rewrite (field_past (le k z) b off n) by (rewrite zlen_le by lia; lia); rewrite (zlen_le k z) by lia
      | |- context [field32 ?off (le ?k ?z ++ ?b)] => rewrite (field32_past (le k z) b off) by (rewrite zlen_le by lia; lia); rewrite (zlen_le k z) by lia
      | |- context [field ?off ?n (zeros ?k ++ ?b)] => rewrite (field_past (zeros k) b off n) by (rewrite zlen_zeros by lia; lia); rewrite (zlen_zeros k) by lia
      end; ground_sub ].

Record siginfo_ok (i : linux_siginfo_t) : Prop := {
  io_signo : fits_int32 (inf_signo i);
  io_code : fits_int32 (inf_code i);
  io_pid : fits_int32 (inf_pid i);
  io_uid : fits_int32 (inf_uid i);
  io_value : fits64 (inf_value i)
}.
Record stack_ok (t : linux_stack_t) : Prop := { ko_sp : fits64 (ss_sp t); ko_flags : fits_int32 (ss_flags t); ko_size : fits64 (ss_size t) }.
Record sigcontext_ok (c : linux_sigcontext_t) : Prop := {
  mo_fault : fits64 (sc_fault_address c);
  mo_len : length (sc_regs c) = 31%nat;
  mo_regs : Forall fits64 (sc_regs c);
  mo_sp : fits64 (sc_sp c);
  mo_pc : fits64 (sc_pc c);
  mo_pstate : fits64 (sc_pstate c);
  mo_reserved : zlen (sc_reserved c) = SIGCONTEXT_RESERVED_BYTES
}.
Record ucontext_ok (u : linux_ucontext_t) : Prop := {
  uo_flags : fits64 (uc_flags u);
  uo_link : fits64 (uc_link u);
  uo_stack : stack_ok (uc_stack u);
  uo_sigmask : fits64 (uc_sigmask u);
  uo_mcontext : sigcontext_ok (uc_mcontext u)
}.
Definition frame_ok (f : linux_rt_sigframe_t) : Prop := siginfo_ok (fr_info f) /\ ucontext_ok (fr_uc f).

Lemma siginfo_back i b : siginfo_ok i -> siginfo_of (siginfo_bytes i ++ b) = i.
Proof.
  destruct i as [signo code pid uid value]. intros [H1 H2 H3 H4 H5]. cbn in *. unfold siginfo_of, siginfo_bytes. cbn [inf_signo inf_code inf_pid inf_uid inf_value].
  rewrite <- !app_assoc. repeat skip. done.
Qed.

Lemma stack_back t b : stack_ok t -> stack_of (stack_bytes t ++ b) = t.
Proof.
  destruct t as [sp flags size]. intros [H1 H2 H3]. cbn in *. unfold stack_of, stack_bytes. cbn [ss_sp ss_flags ss_size].
  rewrite <- !app_assoc. repeat skip. done.
Qed.

Lemma zlen_siginfo i : zlen (siginfo_bytes i) = 128.
Proof. unfold siginfo_bytes. rewrite !zlen_app, !zlen_le, zlen_zeros by lia. done. Qed.
Lemma zlen_stack t : zlen (stack_bytes t) = 24.
Proof. unfold stack_bytes. rewrite !zlen_app, !zlen_le by lia. done. Qed.
Lemma zlen_sigcontext c : sigcontext_ok c -> zlen (sigcontext_bytes c) = 4384.
Proof. intros O. unfold sigcontext_bytes. rewrite !zlen_app, !zlen_le, zlen_array, zlen_zeros, (mo_reserved c O), (mo_len c O) by lia. done. Qed.
Lemma zlen_ucontext u : sigcontext_ok (uc_mcontext u) -> zlen (ucontext_bytes u) = 4560.
Proof. intros O. unfold ucontext_bytes. rewrite !zlen_app, !zlen_le, !zlen_zeros, zlen_stack, zlen_sigcontext by (apply O || lia). done. Qed.

(** The size of the struct as the source computes it. *)
Lemma zlen_frame f : sigcontext_ok (uc_mcontext (fr_uc f)) -> zlen (frame_bytes f) = FRAME_BYTES.
Proof. intros O. unfold frame_bytes. rewrite zlen_app, zlen_siginfo, zlen_ucontext by done. done. Qed.

Lemma sigcontext_back c b : sigcontext_ok c -> sigcontext_of (sigcontext_bytes c ++ b) = c.
Proof.
  intros O. destruct c as [fault regs sp pc pstate reserved]. destruct O as [H1 H2 H3 H4 H5 H6 H7]. cbn [sc_fault_address sc_regs sc_sp sc_pc sc_pstate sc_reserved] in *.
  unfold sigcontext_of, sigcontext_bytes. cbn [sc_fault_address sc_regs sc_sp sc_pc sc_pstate sc_reserved]. rewrite <- !app_assoc.
  set (tl := zeros 8 ++ reserved ++ b). set (mid := le 8 sp ++ le 8 pc ++ le 8 pstate ++ tl). assert (La : zlen (concat (le 8 <$> regs)) = 248) by (rewrite zlen_array, H2 by lia; done).
  assert (S : forall off, 256 <= off -> field off 8 (le 8 fault ++ concat (le 8 <$> regs) ++ mid) = field (off - 256) 8 mid).
  { intros off Bo. rewrite field_past; rewrite zlen_le by lia; [|lia]. rewrite field_past; rewrite La; [|lia]. f_equal. lia. }
  assert (R : ((fun i => field (8 + 8 * i) 8 (le 8 fault ++ concat (le 8 <$> regs) ++ mid)) <$> seqZ 0 31) = regs).
  { transitivity ((fun i => field (8 * i) 8 (concat (le 8 <$> regs) ++ mid)) <$> seqZ 0 (Z.of_nat (length regs))).
    - rewrite H2. apply list_fmap_ext. intros i k L. apply lookup_seqZ in L as [-> L]. rewrite field_past; rewrite zlen_le by lia; [|lia]. f_equal. lia.
    - apply array_read; [lia|exact H3]. }
  rewrite R, (S 256), (S 264), (S 272) by lia. clear S R. subst mid. repeat skip. f_equal.
  rewrite !drop_past; rewrite ?zlen_le, ?La by lia; [|lia..]. subst tl. rewrite drop_past; rewrite zlen_zeros by lia; [|lia]. rewrite drop_0, take_app_le.
  - apply take_ge. unfold zlen in H7. lia.
  - unfold zlen in H7. lia.
Qed.

(** What rt_sigreturn reads; the stack is read back if it is in range. *)
Lemma ucontext_reads u b : fits64 (uc_flags u) -> fits64 (uc_link u) -> fits64 (uc_sigmask u) -> sigcontext_ok (uc_mcontext u) ->
  ucontext_of (ucontext_bytes u ++ b) = mk_ucontext (uc_flags u) (uc_link u) (stack_of (stack_bytes (uc_stack u) ++ drop (Z.to_nat 40) (ucontext_bytes u ++ b))) (uc_sigmask u) (uc_mcontext u).
Proof.
  destruct u as [flags link stack mask mc]. cbn [uc_flags uc_link uc_stack uc_sigmask uc_mcontext]. intros H1 H2 H4 H5.
  unfold ucontext_of, ucontext_bytes. cbn [uc_flags uc_link uc_stack uc_sigmask uc_mcontext]. rewrite <- !app_assoc.
  set (tl := zeros 120 ++ zeros 8 ++ sigcontext_bytes mc ++ b). set (after := stack_bytes stack ++ le 8 mask ++ tl).
  assert (D : forall off, 16 <= off -> drop (Z.to_nat off) (le 8 flags ++ le 8 link ++ after) = drop (Z.to_nat (off - 16)) after).
  { intros off Bo. rewrite !drop_past; rewrite ?zlen_le by lia; [|lia..]. do 2 f_equal. lia. }
  assert (E : field 40 8 (le 8 flags ++ le 8 link ++ after) = mask).
  { unfold field at 1. rewrite D by lia. change (field 24 8 after = mask). subst after. rewrite field_past; rewrite zlen_stack; [|lia]. ground_sub. by rewrite field_le64. }
  rewrite E, !D by lia. repeat skip. f_equal.
  subst after. rewrite drop_past; rewrite zlen_stack; [|lia]. rewrite drop_past; rewrite zlen_le by lia; [|lia]. subst tl.
  rewrite drop_past; rewrite zlen_zeros by lia; [|lia]. rewrite drop_past; rewrite zlen_zeros by lia; [|lia]. by apply sigcontext_back.
Qed.

Lemma ucontext_back u b : ucontext_ok u -> ucontext_of (ucontext_bytes u ++ b) = u.
Proof. intros [H1 H2 H3 H4 H5]. rewrite ucontext_reads, stack_back by done. by destruct u. Qed.

Lemma frame_reads f b : fits64 (uc_flags (fr_uc f)) -> fits64 (uc_link (fr_uc f)) -> fits64 (uc_sigmask (fr_uc f)) -> sigcontext_ok (uc_mcontext (fr_uc f)) ->
  let u := fr_uc (frame_of (frame_bytes f ++ b)) in
  uc_flags u = uc_flags (fr_uc f) /\ uc_sigmask u = uc_sigmask (fr_uc f) /\ uc_mcontext u = uc_mcontext (fr_uc f).
Proof.
  intros H1 H2 H3 H4. unfold frame_of, frame_bytes. cbn [fr_uc]. rewrite <- app_assoc. rewrite drop_past; rewrite zlen_siginfo; [|done].
  change (SIGINFO_BYTES - 128) with 0. by rewrite drop_0, ucontext_reads.
Qed.

Lemma frame_back f b : frame_ok f -> frame_of (frame_bytes f ++ b) = f.
Proof.
  destruct f as [i u]. intros [Oi Ou]. cbn [fr_info fr_uc] in *. unfold frame_of, frame_bytes. cbn [fr_info fr_uc]. rewrite <- app_assoc, siginfo_back by done.
  rewrite drop_past; rewrite zlen_siginfo; [|done]. change (SIGINFO_BYTES - 128) with 0. by rewrite drop_0, ucontext_back.
Qed.

(** ** The records of the reserved area *)

Lemma put_zeros a src off n : zlen a = off -> zlen src <= n -> put off src (a ++ zeros n) = (a ++ src) ++ zeros (n - zlen src).
Proof.
  intros L B. unfold put, zlen, zeros in *. rewrite <- app_assoc. rewrite <- L, Nat2Z.id, take_app_length. f_equal. f_equal.
  rewrite drop_app_ge, drop_replicate by lia. f_equal. lia.
Qed.

Lemma put_simd (l : list Z) k : forall i0 a n, 0 <= i0 -> i0 + Z.of_nat k <= 32 -> zlen a = 16 + 16 * i0 -> 16 * Z.of_nat k <= n ->
  foldl (fun b i => put (0 + sigframe_fpsimd_vreg_offset i) (le 16 l.[i]) b) (a ++ zeros n) (seqZ i0 (Z.of_nat k)) =
  (a ++ concat ((fun i => le 16 l.[i]) <$> seqZ i0 (Z.of_nat k))) ++ zeros (n - 16 * Z.of_nat k).
Proof.
  induction k as [|k IH]; intros i0 a n B1 B2 L B3; [change (seqZ i0 (Z.of_nat 0)) with (@nil Z); cbn [foldl fmap list_fmap concat]; by rewrite app_nil_r, Z.mul_0_r, Z.sub_0_r|].
  rewrite seqZ_cons by lia. cbn [foldl fmap list_fmap concat]. rewrite put_zeros; [|unfold sigframe_fpsimd_vreg_offset, SIGFRAME_FPSIMD_VREG_BASE, SIGFRAME_FPSIMD_VREG_BYTES, wrap32, two32; rewrite Z.mod_small; lia|rewrite zlen_le; lia].
  rewrite zlen_le by lia. replace (Z.pred (Z.of_nat (S k))) with (Z.of_nat k) by lia. rewrite IH; [|lia|lia|rewrite zlen_app, zlen_le by lia; lia|lia].
  rewrite <- !app_assoc. do 4 f_equal. lia.
Qed.

Lemma simd_all (l : list Z) : length l = 32%nat -> ((fun i => le 16 l.[i]) <$> seqZ 0 32) = le 16 <$> l.
Proof.
  intros L. apply list_eq. intros i. rewrite !list_lookup_fmap. destruct (Nat.lt_ge_cases i 32) as [B|B].
  - rewrite lookup_seqZ_lt by lia. cbn. destruct (lookup_lt_is_Some_2 l i ltac:(lia)) as [x E]. rewrite E. cbn. unfold aget. do 2 f_equal.
    apply list_lookup_total_correct. rewrite <- E. f_equal. lia.
  - rewrite lookup_seqZ_ge by lia. by rewrite (lookup_ge_None_2 l i) by lia.
Qed.

(** The area as the concatenation of its records. *)
Lemma reserved_chain esr v : length (v_simd v) = 32%nat ->
  exists rest, build_sigcontext_reserved (zeros SIGCONTEXT_RESERVED_BYTES) esr v =
    le 4 FPSIMD_MAGIC ++ le 4 FPSIMD_CONTEXT_SIZE ++ le 4 (v_fpsr v) ++ le 4 (v_fpcr v) ++ concat (le 16 <$> v_simd v) ++
    (if esr =? 0 then [] else le 4 ESR_MAGIC ++ le 4 ESR_CONTEXT_SIZE ++ le 8 esr) ++ zeros 8 ++ rest /\
  zlen rest = (if esr =? 0 then 3560 else 3544).
Proof.
  intros L. unfold build_sigcontext_reserved, SIGCONTEXT_RESERVED_BYTES. pose proof (put_zeros [] (le 4 FPSIMD_MAGIC) 0 4096 eq_refl ltac:(rewrite zlen_le; lia)) as P1.
  cbn [app] in P1. rewrite P1. clear P1. rewrite !(put_zeros _ (le 4 _)) by (rewrite ?zlen_app, ?zlen_le by lia; lia). rewrite !zlen_le by lia.
  change SIGFRAME_FPSIMD_VREG_COUNT with (Z.of_nat 32). rewrite put_simd by (rewrite ?zlen_app, ?zlen_le by lia; lia). change (Z.of_nat 32) with 32. rewrite simd_all by done.
  set (simd := concat (le 16 <$> v_simd v)). assert (Ls : zlen simd = 512) by (unfold simd; rewrite zlen_array, L by lia; done).
  destruct (esr =? 0) eqn:E; cbn [negb].
  - rewrite put_zeros; [|rewrite !zlen_app, !zlen_le, Ls by lia; unfold FPSIMD_CONTEXT_SIZE, ESR_CONTEXT_SIZE; lia|rewrite zlen_zeros; lia]. rewrite zlen_zeros by lia.
    eexists. split; [rewrite <- !app_assoc; reflexivity|]. rewrite zlen_zeros; lia.
  - rewrite !(put_zeros _ (le _ _)) by (rewrite ?zlen_app, ?zlen_le, ?Ls by lia; unfold FPSIMD_CONTEXT_SIZE; lia). rewrite !zlen_le by lia.
    rewrite put_zeros; [|rewrite !zlen_app, !zlen_le, Ls by lia; unfold FPSIMD_CONTEXT_SIZE, ESR_CONTEXT_SIZE; lia|rewrite zlen_zeros; lia]. rewrite zlen_zeros by lia.
    eexists. split; [rewrite <- !app_assoc; reflexivity|]. rewrite zlen_zeros; lia.
Qed.

Definition simd_ok (v : vcpu_t) : Prop := length (v_simd v) = 32%nat /\ Forall (fun z => 0 <= z < 2 ^ 128) (v_simd v).

Lemma zlen_reserved esr v : length (v_simd v) = 32%nat -> zlen (build_sigcontext_reserved (zeros SIGCONTEXT_RESERVED_BYTES) esr v) = SIGCONTEXT_RESERVED_BYTES.
Proof.
  intros L. destruct (reserved_chain esr v L) as (rest & -> & Lr). rewrite !zlen_app, !zlen_le, zlen_array, L, zlen_zeros, Lr by lia.
  destruct (esr =? 0); rewrite ?zlen_app, ?zlen_le by lia; done.
Qed.

Lemma fpsimd_back esr v w : simd_ok v ->
  restore_fpsimd (build_sigcontext_reserved (zeros SIGCONTEXT_RESERVED_BYTES) esr v) w = set_fp (wrap32 (v_fpsr v)) (wrap32 (v_fpcr v)) (v_simd v) w.
Proof.
  intros [L F]. destruct (reserved_chain esr v L) as (rest & -> & _). set (tl := (if esr =? 0 then _ else _) ++ _). unfold restore_fpsimd.
  assert (Sk : forall a b c d x y, (field 0 4 (le 4 a ++ le 4 b ++ le 4 c ++ le 4 d ++ x) = a mod 2 ^ (4 * 8)) /\ field 8 4 (le 4 a ++ le 4 b ++ le 4 c ++ le 4 d ++ x) = c mod 2 ^ (4 * 8) /\
    field 12 4 (le 4 a ++ le 4 b ++ le 4 c ++ le 4 d ++ x) = d mod 2 ^ (4 * 8) /\ (0 <= y -> field (16 + y) 16 (le 4 a ++ le 4 b ++ le 4 c ++ le 4 d ++ x) = field y 16 x)).
  { intros a b c d x y. split_and!; [by rewrite field_le by lia|repeat skip; by rewrite field_le by lia|repeat skip; by rewrite field_le by lia|]. intros By.
    do 4 (rewrite field_past; rewrite zlen_le by lia; [|lia]). f_equal. lia. }
  destruct (Sk FPSIMD_MAGIC FPSIMD_CONTEXT_SIZE (v_fpsr v) (v_fpcr v) (concat (le 16 <$> v_simd v) ++ tl) 0) as (-> & -> & -> & _).
  change (FPSIMD_MAGIC mod 2 ^ (4 * 8) =? FPSIMD_MAGIC) with true. cbv iota. change (wrap32 ?x) with (x mod 2 ^ (4 * 8)). f_equal.
  transitivity ((fun i => field (16 * i) 16 (concat (le 16 <$> v_simd v) ++ tl)) <$> seqZ 0 (Z.of_nat (length (v_simd v)))); [|by apply array_read; [lia|]].
  rewrite L. apply list_fmap_ext. intros i k Lk. apply lookup_seqZ in Lk as [-> Lk]. rewrite (proj2 (proj2 (proj2 (Sk _ _ _ _ _ _)))) by lia. f_equal. lia.
Qed.

(** ** Delivery *)

Section Frames.
Context {M : Type} `{GuestBytes M}.

Definition on_altstack (cur : option nat) (act : linux_sigaction_t) (s : signals) : bool :=
  match cur with
  | Some i => let t := thread_at s i in has (sa_flags act) LINUX_SA_ONSTACK && negb (has (th_alt_flags t) LINUX_SS_DISABLE) && negb (th_on_alt t)
  | None => false
  end.
Definition alt_base (cur : option nat) (s : signals) : Z := match cur with Some i => th_alt_sp (thread_at s i) | None => 0 end.
Definition alt_room (cur : option nat) (s : signals) : Z := match cur with Some i => th_alt_size (thread_at s i) | None => 0 end.

(** The registers a handler starts with. *)
Definition handler_regs (signum frame_sp : Z) (act : linux_sigaction_t) (pre : bool) (v : vcpu_t) : vcpu_t :=
  let v := set_spsr 0 (set_elr (sa_handler act) (set_sp_el0 frame_sp v)) in
  let v := if pre then set_live (sa_handler act) 0 v else v in
  let v := set_gpr 30 (VDSO_BASE + VDSO_OFF_SIGRET) (set_gpr 0 signum v) in
  let v := if has (sa_flags act) LINUX_SA_SIGINFO then set_gpr 2 (frame_sp + SIGINFO_BYTES)%u64 (set_gpr 1 frame_sp v) else v in
  if pre then v else set_gpr 8 2 v.

Lemma push_frame_spec cur rand signum info act pre regs sp pc pstate v l m s :
  let o := push_frame cur rand signum info act pre regs sp pc pstate v l m s in
  let s1 := (take_saved_mask cur s).2 in
  let use := on_altstack cur act s1 in
  o_ret o = 1 ->
  exists frame_sp frame fault esr,
    gb_write m frame_sp (frame_bytes frame) = (o_m o, true) /\
    sigframe_base (if use then (alt_base cur s1 + alt_room cur s1)%u64 else sp) FRAME_BYTES (if use then alt_base cur s1 else 0) = Some frame_sp /\
    uc_flags (fr_uc frame) = (if l_depth l <? MAX_NESTED_SIGNALS then Z.lor rand 1 else 0) /\ uc_link (fr_uc frame) = 0 /\ uc_sigmask (fr_uc frame) = (take_saved_mask cur s).1 /\
    uc_mcontext (fr_uc frame) = mk_sigcontext fault regs sp pc pstate (build_sigcontext_reserved (zeros SIGCONTEXT_RESERVED_BYTES) esr v) /\
    fault = (if pf_valid (l_fault l) then pf_addr (l_fault l) else 0) /\ inf_signo (fr_info frame) = signum /\
    o_v o = handler_regs signum frame_sp act pre v /\ o_s o = enter_handler cur signum use s1 /\ o_exit o = None /\
    l_cookies (o_l o) = (if l_depth l <? MAX_NESTED_SIGNALS then (l_cookies l).[l_depth l := Z.lor rand 1] else l_cookies l) /\
    l_depth (o_l o) = (if l_depth l <? MAX_NESTED_SIGNALS then l_depth l + 1 else l_depth l).
Proof.
  cbv zeta. unfold push_frame, signal_build_frame. destruct (take_saved_mask cur s) as [mask s1]. cbn [fst snd]. fold (on_altstack cur act s1). fold (alt_base cur s1). fold (alt_room cur s1).
  set (use := on_altstack cur act s1). destruct (sigframe_base _ _ _) as [frame_sp|] eqn:B; [|done].
  set (l1 := if pf_valid (l_fault l) then _ else l). assert (D : l_depth l1 = l_depth l /\ l_cookies l1 = l_cookies l) by (unfold l1; by destruct (pf_valid (l_fault l))). destruct D as [-> D2].
  set (fr := if l_depth l <? MAX_NESTED_SIGNALS then _ else _). destruct (gb_write m frame_sp (frame_bytes fr)) as [m' ok] eqn:W. destruct ok; [|done]. cbn [negb]. intros _.
  exists frame_sp, fr, (if pf_valid (l_fault l) then pf_addr (l_fault l) else 0), (if pf_valid (l_fault l) then pf_esr (l_fault l) else 0). cbn [o_m o_v o_s o_l o_exit].
  split_and!; try done; try (unfold fr; by destruct (l_depth l <? MAX_NESTED_SIGNALS)); try (destruct (l_depth l <? MAX_NESTED_SIGNALS); cbn [set_cookies l_cookies l_depth]; congruence).
  all: unfold fr, l1 in *; destruct (l_depth l <? MAX_NESTED_SIGNALS), (pf_valid (l_fault l)); reflexivity.
Qed.

Lemma sigreturn_spec g cur v l m s frame :
  gb_read m (v_sp_el0 v) FRAME_BYTES = (frame_bytes frame, true) ->
  fits64 (uc_flags (fr_uc frame)) -> uc_link (fr_uc frame) = 0 -> fits64 (uc_sigmask (fr_uc frame)) -> sigcontext_ok (uc_mcontext (fr_uc frame)) ->
  (uc_flags (fr_uc frame) = 0 \/ l_depth l = 0 \/ uc_flags (fr_uc frame) = (l_cookies l).[l_depth l - 1]) ->
  let mc := uc_mcontext (fr_uc frame) in
  guest_addr_in_infra g (sc_pc mc) = false ->
  let o := signal_rt_sigreturn g cur v l m s in
  let v1 := restore_fpsimd (sc_reserved mc) (set_spsr (Z.land (sc_pstate mc) PSTATE_MASK) (set_elr (sc_pc mc) (set_sp_el0 (sc_sp mc) (set_gprs (sc_regs mc) v)))) in
  o_ret o = SYSCALL_EXEC_HAPPENED /\ o_v o = set_gpr 8 2 v1 /\ o_s o = leave_handler cur (uc_sigmask (fr_uc frame)) (sc_sp mc) s /\
  l_depth (o_l o) = (if negb (uc_flags (fr_uc frame) =? 0) && (0 <? l_depth l) then l_depth l - 1 else l_depth l) /\ l_cookies (o_l o) = l_cookies l /\
  l_x8 (o_l o) = mk_parked true (sc_pc mc) (sc_regs mc).[8] /\ o_m o = shim_publish_frame_x8 g (sc_regs mc).[8] v1 m.
Proof.
  intros R Hf Hl Hm Hc Ck mc Hi. cbv zeta. unfold signal_rt_sigreturn. rewrite R. cbn [negb].
  destruct (frame_reads frame [] Hf ltac:(by rewrite Hl) Hm Hc) as (E1 & E2 & E3). rewrite app_nil_r in E1, E2, E3. rewrite E1, E2, E3. fold mc. clear E1 E2 E3.
  set (chk := negb (uc_flags (fr_uc frame) =? 0) && (0 <? l_depth l)). assert (G : chk && negb (uc_flags (fr_uc frame) =? (l_cookies l).[l_depth l - 1]) = false).
  { unfold chk. destruct Ck as [->|[->| ->]]; [done|by rewrite andb_false_r|by rewrite Z.eqb_refl, andb_false_r]. }
  rewrite G, Hi. cbn [o_ret o_v o_s o_l o_m]. by destruct chk.
Qed.

(** What is captured: the live state when EL0 was preempted, else the state the
    exception left, with the X8 that a return in the same epilogue set aside. *)
Definition preempted (v : vcpu_t) : bool := Z.land (v_cpsr v) 15 =? 0.
Definition live_pc (v : vcpu_t) : Z := if preempted v then v_pc v else v_elr v.
Definition live_pstate (v : vcpu_t) : Z := if preempted v then v_cpsr v else v_spsr v.
Definition live_regs (v : vcpu_t) (l : local_t) : list Z :=
  if negb (preempted v) && px_valid (l_x8 l) && (px_elr (l_x8 l) =? v_elr v) then (v_gprs v).[8 := px_x8 (l_x8 l)] else v_gprs v.

Lemma deliver_push cur rand signum info v l m s : valid_signal signum -> 2 <= sa_handler (s_actions s).[signum - 1] -> rq_armed (l_restart l) = false -> l_rseq_gva l = 0 ->
  exists l1, l_depth l1 = l_depth l /\ l_cookies l1 = l_cookies l /\ l_fault l1 = l_fault l /\
    deliver_signal_locked cur rand signum info v l m s =
    push_frame cur rand signum info (s_actions s).[signum - 1] (preempted v) (live_regs v l) (v_sp_el0 v) (live_pc v) (live_pstate v) v l1 m s.
Proof.
  intros V Hh Ha Hr. unfold deliver_signal_locked. unfold valid_signal in V. replace (negb ((0 <=? signum - 1) && (signum - 1 <? LINUX_NSIG))) with false by (unfold LINUX_NSIG; symmetry; unbool; lia).
  rewrite (proj2 (Z.eqb_neq _ LINUX_SIG_IGN)), (proj2 (Z.eqb_neq _ LINUX_SIG_DFL)) by (unfold LINUX_SIG_IGN, LINUX_SIG_DFL; lia). fold (preempted v).
  assert (C : syscall_restart_cancel v l = (v, l)) by (unfold syscall_restart_cancel; by rewrite Ha). rewrite C. clear C.
  unfold live_pc, live_pstate, live_regs, rseq_try_abort.
  destruct (preempted v) eqn:P; cbn [negb andb]; cbv iota beta.
  - exists l. rewrite Hr. split_and!; try done. by destruct cur.
  - set (tk := px_valid (l_x8 l) && (px_elr (l_x8 l) =? v_elr v)). exists (if tk then signal_forget_sigreturn_x8 l else l). split_and!; try (by destruct tk).
    destruct tk; cbn [signal_forget_sigreturn_x8 set_x8 l_rseq_gva]; rewrite Hr; by destruct cur.
Qed.
End Frames.

(** ** A memory and a vCPU for the examples *)

(** Bytes from 0 on. *)
#[global] Instance flat_bytes : GuestBytes (list Z) := {
  gb_read m a n := if (0 <=? a) && (a + n <=? zlen m) then (take (Z.to_nat n) (drop (Z.to_nat a) m), true) else ([], false);
  gb_write m a b := if (0 <=? a) && (a + zlen b <=? zlen m) then (put a b m, true) else (m, false);
  gb_poke m a b := put a b m
}.

Definition ex_cpu : vcpu_t := mk_vcpu (seqZ 100 31) 0 5 8192 4096 4096 0 0 0 (seqZ 1 32).
Definition ex_local : local_t := mk_local (mk_fault false 0 0 0) (replicate 16 0) 0 (mk_restart false false false 0 0 0 0) (mk_parked false 0 0) 0 0 0.

Lemma flat_read_back m a b m' : gb_write m a b = (m', true) -> gb_read m' a (zlen b) = (b, true).
Proof.
  cbn [gb_read gb_write flat_bytes]. destruct ((0 <=? a) && (a + zlen b <=? zlen m)) eqn:G; [|done]. intros [= <-]. unbool. unfold zlen in *.
  assert (L : length (put a b m) = length m) by (unfold put; rewrite !length_app, length_take, length_drop; lia). rewrite L. replace ((0 <=? a) && (a + Z.of_nat (length b) <=? Z.of_nat (length m))) with true by (symmetry; unbool; lia).
  f_equal. unfold put. rewrite drop_app_ge by (rewrite length_take; lia). rewrite length_take. replace (Z.to_nat a - Nat.min (Z.to_nat a) (length m))%nat with 0%nat by lia.
  by rewrite drop_0, Nat2Z.id, take_app_length.
Qed.
