(* ===== verification/SigDeliver.v ===== *)
(** * The delivery loop

    signal_deliver ends after at most as many rounds as there are queued signals, and
    finds a signal that reaches the guest exactly when there is one: the same
    question a wait asks before it returns. *)

From S2P Require Import Prelude Bits FutexWord SigQueue SigQueueFacts Signal SigFacts SigLife SigStep SigFrame SigFrameFacts.

(** ** What a dequeue changes *)

Record dequeued (src : option nat) (signum : Z) (s s' : signals) : Prop := {
  dq_base : base_ok s';
  dq_actions : s_actions s' = s_actions s;
  dq_ids : s_pid s' = s_pid s /\ s_uid s' = s_uid s;
  dq_blocked : forall cur, blocked_of s' cur = blocked_of s cur;
  dq_queue : exists e q, queued (s_pid s) (s_uid s) (set_of s src) signum = e :: q /\ only (s_pid s) (s_uid s) signum q (set_of s src) (set_of s' src);
  dq_others : forall src', src' <> src -> set_of s' src' = set_of s src';
  dq_owner : forall k, 0 <= k < 64 -> k <> signum - 1 -> (s_owner s').[k] = (s_owner s).[k]
}.

Lemma pending_here s i k : Z.testbit (p_pending (th_pending (thread_at s i))) k = true -> (i < length (s_threads s))%nat.
Proof.
  intros T. destruct (Nat.lt_ge_cases i (length (s_threads s))) as [L|L]; [done|]. rewrite thread_at_out in T by done. cbn in T. by rewrite Z.bits_0 in T.
Qed.

Lemma ring_parked_fields s : let s' := ring_parked s in
  s_actions s' = s_actions s /\ s_shared s' = s_shared s /\ s_fallback s' = s_fallback s /\ s_threads s' = s_threads s /\ s_owner s' = s_owner s /\ s_pid s' = s_pid s /\ s_uid s' = s_uid s.
Proof. unfold ring_parked. by case_if. Qed.

Lemma dequeue_dequeued src signum s : base_ok s -> valid_signal signum -> Z.testbit (p_pending (set_of s src)) (signum - 1) = true ->
  dequeued src signum s (dequeue_locked src signum s).2.
Proof.
  intros B V T. pose proof (dequeue_ok src signum s B V T) as [B' _]. pose proof T as T'. rewrite (pending_queued (s_pid s) (s_uid s)) in T' by (done || by apply set_of_ok).
  apply bool_decide_eq_true in T'. destruct (queued _ _ (set_of s src) signum) as [|e q] eqn:Q; [done|]. destruct (dequeue_spec src signum s e q B V Q) as (p & s1 & E & U & S1).
  rewrite E in *. cbn [snd] in *. clear E. assert (F : s_actions s1 = s_actions s /\ s_shared s1 = s_shared s /\ s_fallback s1 = s_fallback s /\ s_threads s1 = s_threads s /\
    s_owner s1 = s_owner s /\ s_pid s1 = s_pid s /\ s_uid s1 = s_uid s) by (destruct S1 as [->| ->]; [done|exact (ring_parked_fields (set_slots _ s))]).
  destruct F as (F1 & F2 & F3 & F4 & F5 & F6 & F7). destruct src as [i|]; cbn [put_back] in *.
  - assert (L : (i < length (s_threads s1))%nat) by (rewrite F4; eapply pending_here; exact T).
    assert (At : forall j, thread_at (refresh_pending_hint_locked (upd_thread i (set_th_pending p) s1)) j = if decide (i = j) then set_th_pending p (thread_at s j) else thread_at s j).
    { intros j. change (thread_at (refresh_pending_hint_locked ?x) j) with (thread_at x j). rewrite thread_at_upd by done. unfold thread_at. by rewrite F4. }
    constructor; [done|done|done| | | |].
    + intros [j|]; cbn [blocked_of]; [rewrite At; by case_decide|cbn; by rewrite F3].
    + exists e, q. split; [done|]. cbn [set_of]. rewrite At, decide_True by done. exact U.
    + intros [j|] N; cbn [set_of]; [rewrite At, decide_False by congruence; done|exact F2].
    + intros k _ _. cbn. by rewrite F5.
  - constructor; [done|done|done| | | |].
    + intros [j|]; cbn [blocked_of]; [unfold thread_at; cbn; by rewrite F4|cbn; by rewrite F3].
    + by exists e, q.
    + intros [j|] N; [|done]. cbn [set_of]. unfold thread_at. cbn. by rewrite F4.
    + intros k Bk N. cbn [refresh_pending_hint_locked set_hint shared_claim_release_locked set_claims set_shared s_owner]. rewrite F5. unfold valid_signal in V. apply aget_aset_ne; lia.
Qed.

(** ** Signals that reach the guest *)

Definition waking (s : signals) (cur : option nat) (k : Z) : Prop :=
  0 <= k < 64 /\ Z.testbit (self_pending_locked s cur) k = true /\ Z.testbit (blocked_of s cur) k = false /\ discarded s k = false.

Lemma self_pending_spec s cur k : base_ok s -> 0 <= k < 64 ->
  Z.testbit (self_pending_locked s cur) k = (Z.testbit (p_pending (s_shared s)) k && negb (claimed_away s cur k)) || Z.testbit (own_pending s cur) k.
Proof. intros B Bk. unfold self_pending_locked. by rewrite Z.lor_spec, (proj2 (visible_spec s cur B)). Qed.

Lemma discarded_same s s' k : s_actions s' = s_actions s -> discarded s' k = discarded s k.
Proof. intros E. unfold discarded. by rewrite E. Qed.

(** Taking one signal changes nothing about the others. *)
Lemma dequeued_pending src signum s s' src' k : base_ok s -> valid_signal signum -> dequeued src signum s s' -> 0 <= k < 64 -> k <> signum - 1 ->
  Z.testbit (p_pending (set_of s' src')) k = Z.testbit (p_pending (set_of s src')) k.
Proof.
  intros B V D Bk N. destruct (decide (src' = src)) as [->|Ne]; [|by rewrite (dq_others _ _ _ _ D)]. destruct (dq_queue _ _ _ _ D) as (e & q & _ & U).
  by apply (only_pending _ _ _ _ _ _ U (set_of_ok s src B) V).
Qed.

Lemma dequeued_self src signum s s' cur k : base_ok s -> valid_signal signum -> dequeued src signum s s' -> 0 <= k < 64 -> k <> signum - 1 ->
  Z.testbit (self_pending_locked s' cur) k = Z.testbit (self_pending_locked s cur) k.
Proof.
  intros B V D Bk N. rewrite !self_pending_spec by (done || apply D). pose proof (dequeued_pending src signum s s' None k B V D Bk N) as E1. cbn [set_of] in E1. rewrite E1.
  assert (E2 : claimed_away s' cur k = claimed_away s cur k).
  { unfold claimed_away. rewrite (dq_owner _ _ _ _ D) by done. destruct ((s_owner s).[k]) as [o|]; [|done]. pose proof (dq_blocked _ _ _ _ D (Some o)) as E. cbn [blocked_of] in E. by rewrite E. }
  rewrite E2. f_equal. destruct cur as [i|]; [|done]. exact (dequeued_pending src signum s s' (Some i) k B V D Bk N).
Qed.

Lemma dequeued_waking src signum s s' cur k : base_ok s -> valid_signal signum -> dequeued src signum s s' -> discarded s (signum - 1) = true ->
  waking s' cur k <-> waking s cur k.
Proof.
  intros B V D Ds. unfold waking. rewrite (discarded_same s s' k), (dq_blocked _ _ _ _ D) by apply D. destruct (decide (k = signum - 1)) as [->|N]; [by rewrite Ds; naive_solver|].
  split; intros (Bk & T & R); (split; [done|split; [|done]]); rewrite <- T; [symmetry|]; by apply (dequeued_self src signum).
Qed.

(** The choice of signal_deliver_one finds one whenever there is one. *)
Lemma pick_none s cur : base_ok s -> deliver_pick s cur = None <-> forall k, 0 <= k < 64 -> Z.testbit (self_pending_locked s cur) k = true -> Z.testbit (blocked_of s cur) k = true.
Proof.
  intros B. destruct (visible_spec s cur B) as [Fv _]. pose proof (own_fits s cur B) as Fo. destruct (blocked_maskable s cur B) as [Fb _].
  unfold deliver_pick. set (td := match cur with Some _ => _ | None => 0 end). set (sd := Z.land (shared_visible_locked s cur) _).
  assert (E : Z.lor td sd = Z.land (self_pending_locked s cur) (not64 (blocked_of s cur))).
  { unfold td, sd, self_pending_locked. rewrite Z.land_lor_distr_l, Z.lor_comm. destruct cur; [done|]. cbn [own_pending]. by rewrite Z.land_0_l, !Z.lor_0_r. }
  rewrite E. assert (W : Z.land (self_pending_locked s cur) (not64 (blocked_of s cur)) = 0 <-> forall k, 0 <= k < 64 -> Z.testbit (self_pending_locked s cur) k = true -> Z.testbit (blocked_of s cur) k = true).
  { split.
    - intros Z0 k Bk T. apply (f_equal (fun w => Z.testbit w k)) in Z0. rewrite Z.land_spec, T, not64_spec, Z.bits_0, (proj2 (Z.ltb_lt k 64)), xorb_true_r in Z0 by lia.
      by apply negb_false_iff in Z0.
    - intros A. apply Z.bits_inj'. intros k Bk. rewrite Z.land_spec, Z.bits_0. destruct (Z.lt_ge_cases k 64) as [Lt|Ge].
      + rewrite not64_spec, (proj2 (Z.ltb_lt k 64)), xorb_true_r by lia. destruct (Z.testbit (self_pending_locked s cur) k) eqn:T; [|done]. by rewrite (A k) by (done || lia).
      + unfold self_pending_locked. rewrite Z.lor_spec, !fits64_testbit_high by done. done. }
  destruct (Z.eqb_spec (Z.land (self_pending_locked s cur) (not64 (blocked_of s cur))) 0) as [Z0|Z0].
  - split; [|done]. intros _. by apply W.
  - split; [|by intros A; destruct Z0; apply W]. repeat case_if; done.
Qed.

(** ** How much is queued *)

Definition total (pid uid : Z) (p : signal_pending_t) : nat := sum_list ((fun signum => length (queued pid uid p signum)) <$> seqZ 1 64).

Lemma sum_one (f g : Z -> nat) (l : list Z) x : NoDup l -> x ∈ l -> (forall y, y ∈ l -> y <> x -> f y = g y) -> f x = S (g x) -> sum_list (f <$> l) = S (sum_list (g <$> l)).
Proof.
  induction l as [|a l IH]; intros N X E F; [by apply elem_of_nil in X|]. apply list.NoDup_cons in N as [Na N]. cbn [fmap list_fmap sum_list]. destruct (decide (a = x)) as [->|Ne].
  - rewrite F. assert (R : f <$> l = g <$> l) by (apply list_fmap_ext; intros i y L; apply E; [right; by eapply list_elem_of_lookup_2|intros ->; apply Na; by eapply list_elem_of_lookup_2]).
    by rewrite R.
  - apply elem_of_cons in X as [->|X]; [done|]. rewrite (IH N X), (E a); [lia|left|done|intros y Y; apply E; by right|done].
Qed.

Lemma total_taken pid uid signum e q p p' : valid_signal signum -> queued pid uid p signum = e :: q -> only pid uid signum q p p' -> total pid uid p = S (total pid uid p').
Proof.
  intros V Q (_ & Q' & O). unfold total. apply (sum_one _ _ _ signum).
  - apply NoDup_seqZ.
  - apply elem_of_seqZ. unfold valid_signal in V. lia.
  - intros y Y N. apply elem_of_seqZ in Y. f_equal. symmetry. apply O; [unfold valid_signal; lia|done].
  - by rewrite Q, Q'.
Qed.

Lemma total_bound pid uid p : set_ok pid uid p -> (total pid uid p <= 2048)%nat.
Proof.
  intros O. unfold total. assert (G : forall l, Forall valid_signal l -> (sum_list ((fun signum => length (queued pid uid p signum)) <$> l) <= 32 * length l)%nat).
  { induction l as [|a l IH]; intros F; [done|]. apply Forall_cons_1 in F as [Va F]. cbn [fmap list_fmap sum_list_with length id]. specialize (IH F). pose proof (queued_length pid uid p a O Va) as L.
    destruct (a <? 32); lia. }
  specialize (G (seqZ 1 64)). rewrite length_seqZ in G. apply G. apply list.Forall_forall. intros x X. apply elem_of_seqZ in X. unfold valid_signal. lia.
Qed.

(** Everything a thread may take. *)
Definition backlog (s : signals) (cur : option nat) : nat :=
  (total (s_pid s) (s_uid s) (s_shared s) + match cur with Some i => total (s_pid s) (s_uid s) (th_pending (thread_at s i)) | None => 0 end)%nat.

Lemma backlog_bound s cur : base_ok s -> (backlog s cur <= 4096)%nat.
Proof.
  intros B. unfold backlog. pose proof (total_bound _ _ _ (set_of_ok s None B)) as T1. cbn [set_of] in T1. destruct cur as [i|]; [|lia].
  pose proof (total_bound _ _ _ (set_of_ok s (Some i) B)) as T2. cbn [set_of] in T2. lia.
Qed.

Lemma backlog_dequeued src signum s s' cur : valid_signal signum -> src = cur \/ src = None -> dequeued src signum s s' -> backlog s cur = S (backlog s' cur).
Proof.
  intros V Sr D. destruct (dq_queue _ _ _ _ D) as (e & q & Q & U). pose proof (total_taken _ _ _ _ _ _ _ V Q U) as T. destruct (dq_ids _ _ _ _ D) as [I1 I2].
  unfold backlog. rewrite I1, I2. destruct Sr as [->| ->].
  - destruct cur as [i|]; cbn [set_of] in *; [|lia]. pose proof (dq_others _ _ _ _ D None ltac:(done)) as E. cbn [set_of] in E. rewrite E. lia.
  - cbn [set_of] in T. destruct cur as [i|]; [|lia]. pose proof (dq_others _ _ _ _ D (Some i) ltac:(done)) as E. cbn [set_of] in E. rewrite E. lia.
Qed.

(** ** The loop *)

Lemma pick_waits s cur signum src : base_ok s -> deliver_pick s cur = Some (signum, src) ->
  valid_signal signum /\ Z.testbit (self_pending_locked s cur) (signum - 1) = true /\ Z.testbit (blocked_of s cur) (signum - 1) = false /\
  Z.testbit (p_pending (set_of s src)) (signum - 1) = true /\ (src = cur \/ src = None).
Proof.
  intros B P. destruct (deliver_pick_spec s cur signum src B P) as (V & U & T & Sr). split_and!; try done; [|naive_solver]. unfold valid_signal in V.
  rewrite self_pending_spec by (done || lia). destruct Sr as [[-> [i ->]]|[-> C]]; cbn [set_of] in T; [cbn [own_pending]; by rewrite T, orb_true_r|by rewrite T, C].
Qed.

Section Loop.
Context {M : Type} `{GuestBytes M}.

Lemma push_ret cur rand signum info act pre regs sp pc pstate v l m s :
  let o := push_frame cur rand signum info act pre regs sp pc pstate v l m s in o_ret o = 1 \/ o_ret o = -1.
Proof.
  unfold push_frame. destruct (signal_build_frame _ _ _ _ _ _ _ _ _ _ _) as [[[frame cookie] l1] s1]. cbv zeta. destruct (sigframe_base _ _ _); [|by right].
  destruct (gb_write _ _ _) as [m1 []]; [by left|by right].
Qed.

(** A signal is acted on unless it is one of those that are discarded. *)
Lemma deliver_outcome cur rand signum info v l m s : valid_signal signum ->
  let o := deliver_signal_locked cur rand signum info v l m s in
  if discarded s (signum - 1) then o_ret o = 0 /\ o_s o = s /\ o_v o = v /\ o_m o = m else o_ret o = 1 \/ o_ret o = -1.
Proof.
  intros V. unfold deliver_signal_locked, discarded. unfold valid_signal in V. replace (negb ((0 <=? signum - 1) && (signum - 1 <? LINUX_NSIG))) with false by (unfold LINUX_NSIG; symmetry; unbool; lia).
  cbv zeta. destruct (sa_handler _ =? LINUX_SIG_IGN); [done|]. destruct (sa_handler _ =? LINUX_SIG_DFL).
  - replace (signum - 1 + 1) with signum by lia. destruct (signal_default_disposition signum); auto.
  - destruct (if Z.land _ _ =? 0 then (v, l) else _) as [v1 l1]. destruct (if Z.land _ _ =? 0 then (v_pc v1, _) else _) as [pc pst]. set (l2 := if _ && _ then _ else l1).
    destruct (match cur with Some _ => _ | None => _ end) as [[rc pc1] m1]. destruct (rc =? -1); [by right|]. apply push_ret.
Qed.

Lemma deliver_loop cur rand : forall fuel v l m s, base_ok s -> (backlog s cur < fuel)%nat ->
  exists o, signal_deliver fuel cur rand v l m s = Some o /\ (o_ret o = 0 \/ o_ret o = 1 \/ o_ret o = -1) /\
    (o_ret o <> 0 <-> exists k, waking s cur k) /\ (o_ret o = 0 -> deliver_pick (o_s o) cur = None /\ o_v o = v /\ o_m o = m).
Proof.
  induction fuel as [|fuel IH]; intros v l m s B Hb; [lia|]. cbn [signal_deliver]. unfold signal_deliver_one. destruct (deliver_pick s cur) as [[signum src]|] eqn:P.
  - destruct (pick_waits s cur signum src B P) as (V & T & U & Tp & Sr). pose proof (dequeue_dequeued src signum s B V Tp) as D. destruct (dequeue_locked src signum s) as [info s1]. cbn [snd] in D.
    pose proof (deliver_outcome cur rand signum info v l m s1 V) as Out. cbv zeta in Out. set (o := deliver_signal_locked cur rand signum info v l m s1) in *.
    rewrite (discarded_same s s1) in Out by apply D. destruct (discarded s (signum - 1)) eqn:Ds.
    + destruct Out as (R & S1 & V1 & M1). unfold recorded. rewrite R. cbn [Z.ltb Z.compare]. rewrite R. cbn [Z.eqb negb o_ret o_v o_l o_m o_s SIGNAL_DELIVER_DISCARDED]. cbn. rewrite S1, V1, M1.
      pose proof (backlog_dequeued src signum s s1 cur V Sr D) as Bl. destruct (IH v (o_l o) m s1 (dq_base _ _ _ _ D) ltac:(lia)) as (o' & E & R' & W & Z').
      exists o'. split_and!; [exact E|exact R'| |exact Z']. rewrite W. split; intros [k K]; exists k; by apply (dequeued_waking src signum s s1 cur k B V D Ds).
    + assert (Wk : waking s cur (signum - 1)) by (unfold valid_signal in V; split; [lia|done]).
      assert (Rr : o_ret (recorded signum o) = o_ret o) by (unfold recorded; by case_if). rewrite Rr.
      assert (N0 : (o_ret o =? 0) = false /\ (o_ret o =? SIGNAL_DELIVER_DISCARDED) = false) by (destruct Out as [->| ->]; done). destruct N0 as [N0 N2]. rewrite N0, Rr, N2. cbn [negb].
      exists (recorded signum o). rewrite Rr. split_and!; [done|tauto| |intros Z0; by rewrite Z0 in N0]. split; [by exists (signum - 1)|]. intros _ Z0. by rewrite Z0 in N0.
  - cbn. exists (mk_outcome 0 None v l m s). cbn [o_ret o_s o_v o_m]. split_and!; [done|tauto| |done]. split; [done|]. intros [k (Bk & T & U & _)].
    rewrite (proj1 (pick_none s cur B) P k Bk T) in U. done.
Qed.
End Loop.
