(* ===== verification/SigSpecs.v ===== *)
(** * What the signal code promises, in every reachable state *)

From stdpp Require Import relations.
From S2P Require Import Prelude Bits FutexWord SigQueue SigQueueFacts Signal SigFacts SigLife SigStep SigFrame SigFrameFacts SigDeliver.
#[local] Open Scope Z_scope.

(** ** A state for the examples: a handler for signal 10, which is then queued *)

Definition ex_act : linux_sigaction_t := mk_act 65536 4 0 0.
Definition ex_armed : signals := (install_action 10 ex_act (boot 7 1000 7)).1.
Definition ex_state : signals := signal_queue None 10 ex_armed.

Lemma ex_armed_reachable : reachable ex_armed.
Proof. exists 7, 1000, 7. eapply rtc_l; [|apply rtc_refl]. apply step_action; [by unfold valid_signal|done|by repeat split]. Qed.

Lemma ex_state_reachable : reachable ex_state.
Proof. destruct ex_armed_reachable as (p & u & t & R). exists p, u, t. eapply rtc_r; [exact R|]. apply step_queue. Qed.

(** ** The invariant *)

(** C11: In every state that any interleaving of the critical sections reaches: a
    signal is marked pending in a set exactly when its queue there is not empty,
    and a queue never exceeds its capacity; a claimed signal is pending and has an
    owner; no mask, saved or in force, contains SIGKILL or SIGSTOP, and their
    actions are the default ones; the hint covers everything pending for a thread
    that runs; no two timers share an identifier, and a timer is only left alone
    when it has nothing to check for. *)
Theorem reachable_signals_consistent s : reachable s ->
  (forall src signum, valid_signal signum ->
     let q := queued (s_pid s) (s_uid s) (set_of s src) signum in
     Z.testbit (p_pending (set_of s src)) (signum - 1) = bool_decide (q <> []) /\ Z.of_nat (length q) <= (if signum <? LINUX_SIGRTMIN then 1 else RT_SIGQUEUE_MAX)) /\
  (forall k, 0 <= k < 64 -> Z.testbit (s_claimed s) k = true -> Z.testbit (p_pending (s_shared s)) k = true /\ is_Some (s_owner s).[k]) /\
  (forall cur, has (blocked_of s cur) unmaskable = false /\ has (saved_of s cur) unmaskable = false) /\
  sa_handler (s_actions s).[LINUX_SIGKILL - 1] = LINUX_SIG_DFL /\ sa_handler (s_actions s).[LINUX_SIGSTOP - 1] = LINUX_SIG_DFL /\
  (forall cur k, 0 <= k < 64 -> match cur with Some i => th_active (thread_at s i) = true | None => True end ->
     Z.testbit (self_pending_locked s cur) k = true -> Z.testbit (s_hint s) k = true) /\
  (forall i j t u, pts_slots (s_timers s) !! i = Some t -> pts_slots (s_timers s) !! j = Some u -> pt_used t = true -> pt_used u = true -> pt_id t = pt_id u -> i = j) /\
  (pts_need_poll (s_timers s) = false -> forall i t, pts_slots (s_timers s) !! i = Some t -> needs_poll t = false).
Proof.
  intros R. apply reachable_ok in R as ([B Hi] & T & P). assert (U : forall w, maskable w -> has w unmaskable = false).
  { intros w (F & M1 & M2). unfold has. apply negb_false_iff, Z.eqb_eq. apply Z.bits_inj'. intros k Bk. rewrite Z.land_spec, Z.bits_0. destruct (Z.lt_ge_cases k 64).
    - rewrite unmaskable_bits by lia. destruct (Z.eqb_spec k 8) as [->|]; [by rewrite M1|]. destruct (Z.eqb_spec k 18) as [->|]; [by rewrite M2|]. apply andb_false_r.
    - by rewrite (fits64_testbit_high w). }
  split_and!.
  - intros src signum V. cbv zeta. split; [apply pending_queued; [by apply set_of_ok|done]|]. by apply queued_length; [apply set_of_ok|].
  - intros k Bk C. destruct (bo_claims s B) as [_ _ C3 C4]. split; [by apply C3|]. rewrite C4 in C by done. by apply bool_decide_eq_true in C.
  - intros cur. split; apply U; [by apply blocked_maskable|by apply saved_maskable].
  - apply (bo_acts s B).
  - apply (bo_acts s B).
  - intros cur k Bk A S. rewrite self_pending_spec in S by done. apply orb_prop in S as [[S _]%andb_prop|S]; [by apply Hi|].
    destruct cur as [i|]; cbn [own_pending] in S; [by eapply (ho_threads s Hi i)|by rewrite Z.bits_0 in S].
  - apply (ts_slots s T).
  - exact P.
Qed.

Lemma reachable_signals_consistent_witness : bool_decide (queued 7 1000 (s_shared ex_state) 10 <> []) = true /\ sa_handler (s_actions ex_state).[LINUX_SIGKILL - 1] = LINUX_SIG_DFL.
Proof.
  destruct (reachable_signals_consistent ex_state ex_state_reachable) as (Q & _ & _ & K & _). split; [|exact K].
  destruct (Q None 10 ltac:(unfold valid_signal; lia)) as [E _]. etransitivity; [symmetry; exact E|]. vm_compute. reflexivity.
Defined.

(** ** The tests a thread makes without the lock *)

Definition running (s : signals) (cur : option nat) : Prop := match cur with Some i => th_active (thread_at s i) = true | None => True end.

Lemma hint_covers s cur k : sig_ok s -> running s cur -> 0 <= k < 64 -> Z.testbit (self_pending_locked s cur) k = true -> Z.testbit (s_hint s) k = true.
Proof.
  intros [B H] A Bk T. rewrite self_pending_spec in T by done. apply orb_prop in T as [[T _]%andb_prop|T]; [by apply H|].
  destruct cur as [i|]; cbn [own_pending] in T; [by eapply (ho_threads s H i)|by rewrite Z.bits_0 in T].
Qed.

Lemma self_fits s cur : base_ok s -> fits64 (self_pending_locked s cur).
Proof. intros B. apply lor_fits; [apply visible_spec, B|by apply own_fits]. Qed.

Lemma unblocked_zero w b : fits64 w -> Z.land w (not64 b) = 0 <-> forall k, 0 <= k < 64 -> Z.testbit w k = true -> Z.testbit b k = true.
Proof.
  intros F. split.
  - intros E k Bk T. apply (f_equal (fun w => Z.testbit w k)) in E. rewrite Z.land_spec, T, not64_spec, Z.bits_0, (proj2 (Z.ltb_lt k 64)), xorb_true_r in E by lia. by apply negb_false_iff in E.
  - intros A. apply Z.bits_inj'. intros k Bk. rewrite Z.land_spec, Z.bits_0. destruct (Z.lt_ge_cases k 64) as [Lt|Ge]; [|by rewrite fits64_testbit_high].
    rewrite not64_spec, (proj2 (Z.ltb_lt k 64)), xorb_true_r by lia. destruct (Z.testbit w k) eqn:T; [|done]. by rewrite (A k) by (done || lia).
Qed.

(** The unblocked pending signals of a thread. *)
Definition deliverable (s : signals) (cur : option nat) : Z := Z.land (self_pending_locked s cur) (not64 (blocked_of s cur)).

(** The first exit of the tests is sound. *)
Lemma hint_zero s cur : sig_ok s -> running s cur -> Z.land (s_hint s) (not64 (blocked_of s cur)) = 0 ->
  deliverable s cur = 0.
Proof.
  intros O A E. apply unblocked_zero; [apply self_fits, O|]. intros k Bk T. apply (proj1 (unblocked_zero (s_hint s) (blocked_of s cur) (ho_fits s (proj2 O))) E k Bk).
  by apply (hint_covers s cur).
Qed.

Definition restarts (s : signals) (k : Z) : bool :=
  discarded s k || (negb (sa_handler (s_actions s).[k] =? LINUX_SIG_DFL) && has (sa_flags (s_actions s).[k]) LINUX_SA_RESTART).

Lemma interruption_fold s l : forall a b, foldl (interruption_round s) (a, b) l = (a || existsb (fun k => negb (discarded s k)) l, b && forallb (restarts s) l).
Proof.
  induction l as [|k l IH]; intros a b; cbn [foldl existsb forallb]; [by rewrite orb_false_r, andb_true_r|]. unfold interruption_round at 2. unfold restarts at 1.
  destruct (discarded s k); cbn [negb orb]; [by rewrite IH|]. destruct (_ =? LINUX_SIG_DFL); cbn [negb andb snd]; rewrite IH; cbn; [by rewrite orb_true_r, andb_false_r|by rewrite orb_true_r, andb_assoc].
Qed.

Lemma signal_pending_eq s cur : signal_pending s cur = if Z.land (s_hint s) (not64 (blocked_of s cur)) =? 0 then false else negb (deliverable s cur =? 0).
Proof. unfold signal_pending, deliverable. reflexivity. Qed.
Lemma interruption_eq s cur : signal_pending_interruption s cur =
  if Z.land (s_hint s) (not64 (blocked_of s cur)) =? 0 then (false, false)
  else let '(any_interrupt, all_restart) := foldl (interruption_round s) (false, true) (set_bits (deliverable s cur)) in (any_interrupt, any_interrupt && all_restart).
Proof. unfold signal_pending_interruption, deliverable. reflexivity. Qed.

Lemma deliverable_spec s cur : base_ok s -> fits64 (deliverable s cur) /\
  forall k, 0 <= k < 64 -> Z.testbit (deliverable s cur) k = Z.testbit (self_pending_locked s cur) k && negb (Z.testbit (blocked_of s cur) k).
Proof.
  intros B. split; [apply land_fits; by apply self_fits|]. intros k Bk. unfold deliverable. by rewrite Z.land_spec, not64_spec, (proj2 (Z.ltb_lt k 64)), xorb_true_r by lia.
Qed.

Lemma deliverable_some s cur : base_ok s -> deliverable s cur <> 0 <->
  exists k, 0 <= k < 64 /\ Z.testbit (self_pending_locked s cur) k = true /\ Z.testbit (blocked_of s cur) k = false.
Proof.
  intros B. destruct (deliverable_spec s cur B) as [Fw Tw]. split.
  - intros N. destruct (ctz_spec _ Fw N) as (Bk & T & _). exists (bit_ctz64 (deliverable s cur)). rewrite Tw in T by done. apply andb_prop in T as [T U]. by apply negb_true_iff in U.
  - intros (k & Bk & T & U) E. specialize (Tw k Bk). by rewrite E, T, U, Z.bits_0 in Tw.
Qed.

Lemma waking_bits s cur k : base_ok s -> waking s cur k <-> k ∈ set_bits (deliverable s cur) /\ discarded s k = false.
Proof.
  intros B. destruct (deliverable_spec s cur B) as [Fw Tw]. rewrite elem_of_set_bits by done. unfold waking. split.
  - intros (Bk & T & U & D). split; [|done]. split; [done|]. by rewrite Tw, T, U.
  - intros [[Bk T] D]. rewrite Tw in T by done. apply andb_prop in T as [T U]. by apply negb_true_iff in U.
Qed.

Lemma waking_some s cur : base_ok s -> existsb (fun k => negb (discarded s k)) (set_bits (deliverable s cur)) = true <-> exists k, waking s cur k.
Proof.
  intros B. rewrite existsb_exists. split; intros (k & K); exists k.
  - apply waking_bits; [done|]. destruct K as [K D]. apply list_elem_of_In in K. by apply negb_true_iff in D.
  - apply waking_bits in K as [K D]; [|done]. apply list_elem_of_In in K. by rewrite D.
Qed.

(** C19: The two tests a thread makes on its way, which read the hint first and take
    the lock only if it is not clear, answer as if they always took it.
    signal_pending is true exactly when an unblocked signal is pending for the
    thread and not claimed by another; signal_pending_interruption ends a wait
    exactly when such a signal reaches the guest, and lets the call restart exactly
    when all of those have handlers that ask for it. *)
Theorem pending_tests_exact s cur : reachable s -> running s cur ->
  (signal_pending s cur = true <-> exists k, 0 <= k < 64 /\ Z.testbit (self_pending_locked s cur) k = true /\ Z.testbit (blocked_of s cur) k = false) /\
  ((signal_pending_interruption s cur).1 = true <-> exists k, waking s cur k) /\
  ((signal_pending_interruption s cur).2 = true <-> (exists k, waking s cur k) /\
     forall k, waking s cur k -> sa_handler (s_actions s).[k] <> LINUX_SIG_DFL /\ has (sa_flags (s_actions s).[k]) LINUX_SA_RESTART = true).
Proof.
  intros R A. apply reachable_ok in R as (O & _). pose proof (hint_zero s cur O A) as Hz. destruct O as [B H]. pose proof (deliverable_some s cur B) as P.
  pose proof (waking_some s cur B) as Ex. rewrite signal_pending_eq, interruption_eq.
  destruct (Z.eqb_spec (Z.land (s_hint s) (not64 (blocked_of s cur))) 0) as [Z0|Z0].
  - specialize (Hz Z0). assert (Nw : ~ exists k, waking s cur k) by (rewrite <- Ex, Hz; done).
    split; [rewrite <- P; done|]. split; cbn; [by split|split; [done|tauto]].
  - split; [rewrite <- P, negb_true_iff, Z.eqb_neq; done|]. rewrite interruption_fold. cbn [orb andb fst snd]. split; [exact Ex|]. rewrite andb_true_iff, Ex, forallb_forall. split.
    + intros [E F]. split; [done|]. intros k K. apply waking_bits in K as [K D]; [|done]. apply list_elem_of_In, F in K. unfold restarts in K. rewrite D in K. apply andb_prop in K as [K1 K2].
      by apply negb_true_iff, Z.eqb_neq in K1.
    + intros [E F]. split; [done|]. intros k K. apply list_elem_of_In in K. unfold restarts. destruct (discarded s k) eqn:D; [done|]. destruct (F k) as [F1 F2]; [by apply waking_bits|].
      by rewrite F2, (proj2 (Z.eqb_neq _ _) F1).
Qed.

Lemma pending_tests_exact_witness : exists k, waking ex_state (Some 0%nat) k.
Proof. destruct (pending_tests_exact ex_state (Some 0%nat) ex_state_reachable eq_refl) as (_ & E & _). apply E. vm_compute. reflexivity. Defined.

(** ** Waking and delivering *)

Lemma claim_finds cur s : base_ok s -> (signal_claim_waking_locked cur (blocked_of s cur) s).1 <> 0 <-> exists k, waking s cur k.
Proof.
  intros B. pose proof (claim_waking_spec cur (blocked_of s cur) s B (proj1 (blocked_maskable s cur B))) as C. destruct (signal_claim_waking_locked cur _ s) as [signum s1]. cbn [fst].
  destruct C as [(-> & _ & N)|(V & U & D & Sr)].
  - split; [done|]. intros (k & Bk & T & U & D). by rewrite (N k Bk T U) in D.
  - unfold valid_signal in V. split; [|lia]. intros _. exists (signum - 1). split; [lia|]. split; [|done]. rewrite self_pending_spec by (done || lia).
    destruct Sr as [[_ ->]|(-> & -> & _)]; [apply orb_true_r|done].
Qed.

Lemma claim_keeps_waking cur s k : base_ok s -> waking (signal_claim_waking_locked cur (blocked_of s cur) s).2 cur k <-> waking s cur k.
Proof.
  intros B. pose proof (claim_waking_spec cur (blocked_of s cur) s B (proj1 (blocked_maskable s cur B))) as C. destruct (signal_claim_waking_locked cur _ s) as [signum s1]. cbn [snd].
  destruct C as [(_ & -> & _)|(V & _ & _ & [[-> _]|(T & Aw & ->)])]; [done|done|]. destruct cur as [i|]; [|done]. pose proof (claim_ok (Some i) signum s B V T ltac:(done)) as B1.
  set (s1 := set_claims _ _ s) in *. unfold waking. change (blocked_of s1 (Some i)) with (blocked_of s (Some i)). rewrite (discarded_same s s1) by done.
  split; intros (Bk & Tk & R); (split; [done|split; [|done]]); rewrite self_pending_spec in * by done; change (own_pending s1 (Some i)) with (own_pending s (Some i)) in *; change (s_shared s1) with (s_shared s) in *.
  all: enough (E : claimed_away s1 (Some i) k = claimed_away s (Some i) k) by (rewrite E in *; done).
  all: unfold valid_signal in V; destruct (decide (k = signum - 1)) as [->|N];
    [rewrite Aw; unfold claimed_away, s1; cbn [set_claims s_owner]; rewrite aget_aset by (rewrite (co_len s (bo_claims s B)); lia); by rewrite bool_decide_true
    |unfold claimed_away, s1; cbn [set_claims s_owner]; rewrite aget_aset_ne by lia; done].
Qed.



(** ** A pending set as queues *)

(** C17: A pending set, a mask with one stored siginfo per standard signal and a ring
    per real-time signal, behaves as one queue per signal.  Queueing appends,
    except that a standard signal that is pending and a real-time signal that is
    pending 32 times stay as they are; taking removes the head and returns it, with
    the overrun count of its timer; discarding the notifications of a timer, or of
    all, removes exactly those, in place, and reports exactly the signals that are
    no longer pending.  No operation touches the queue of another signal. *)
Theorem pending_set_refines_queues pid uid p : set_ok pid uid p ->
  (forall signum info, valid_signal signum -> (forall e, info = Some e -> si_signum e = signum) ->
     let p' := signal_enqueue_locked pid uid p signum info in
     set_ok pid uid p' /\ forall r, valid_signal r -> queued pid uid p' r = if decide (r = signum) then push signum (queued pid uid p signum) (entry_of pid uid signum info) else queued pid uid p r) /\
  (forall timers signum e q, valid_signal signum -> queued pid uid p signum = e :: q ->
     let '(info, p', timers', _) := take_locked pid uid timers p signum in
     set_ok pid uid p' /\ (info, timers') = (posix_timer_dequeued_locked timers e).1 /\
     forall r, valid_signal r -> queued pid uid p' r = if decide (r = signum) then q else queued pid uid p r) /\
  (forall id, let '(p', released) := posix_timer_discard_pending_locked p id in
     set_ok pid uid p' /\ (forall r, valid_signal r -> queued pid uid p' r = filter (fun e => timer_entry id e = false) (queued pid uid p r)) /\
     forall r, r ∈ released <-> valid_signal r /\ queued pid uid p r <> [] /\ queued pid uid p' r = []).
Proof.
  intros O. assert (G : forall signum q p', only pid uid signum q p p' -> set_ok pid uid p' /\ forall r, valid_signal r -> queued pid uid p' r = if decide (r = signum) then q else queued pid uid p r).
  { intros signum q p' (O' & Q & K). split; [done|]. intros r V. case_decide as D; [by rewrite D|by apply K]. }
  split_and!.
  - intros signum info V N. cbv zeta. apply G. by apply enqueue_only.
  - intros timers signum e q V Q. destruct (take_only pid uid timers p signum e q O V Q) as (p' & -> & U). apply G in U as [O' K]. split_and!; [done|by destruct (posix_timer_dequeued_locked timers e) as [[? ?] ?]|done].
  - intros id. destruct (discard_all pid uid id p O) as (p' & released & -> & O' & K & R). done.
Qed.

Lemma pending_set_refines_queues_witness : queued 7 1000 (signal_enqueue_locked 7 1000 (s_shared ex_state) 40 None) 40 = [signal_default_info 7 1000 40].
Proof.
  destruct (pending_set_refines_queues 7 1000 (s_shared ex_state)) as (E & _).
  - apply (set_ok_id 0 0). apply (reachable_ok ex_state ex_state_reachable).
  - destruct (E 40 None ltac:(unfold valid_signal; lia) ltac:(done)) as [_ Q]. rewrite Q by (unfold valid_signal; lia). vm_compute. reflexivity.
Defined.
