(* ===== verification/SigClaim.v ===== *)
(** * Claims: a signal that ended a wait stays with the thread that waited *)

From stdpp Require Import relations.
From S2P Require Import Prelude Bits FutexWord SigQueue SigQueueFacts Signal SigFacts SigLife SigStep SigFrame SigFrameFacts SigDeliver SigSpecs.
#[local] Open Scope Z_scope.

(** ** Operations that touch neither claims nor threads *)

Definition apart (s s' : signals) : Prop := s_owner s' = s_owner s /\ s_threads s' = s_threads s.

#[export] Instance apart_preorder : PreOrder apart.
Proof. split; [by intros s|]. intros s1 s2 s3 [A1 A2] [B1 B2]. split; congruence. Qed.

Lemma apart_fold {A B} (f : signals * A -> B -> signals * A) l : (forall s a b, apart s (f (s, a) b).1) -> forall s a, apart s (foldl f (s, a) l).1.
Proof.
  intros F. induction l as [|b l IH]; intros s a; cbn [foldl]; [done|]. specialize (F s a b). destruct (f (s, a) b) as [s1 a1]. etransitivity; [exact F|apply IH].
Qed.

Lemma apart_ring s : apart s (ring_parked s).
Proof. unfold ring_parked. by case_if. Qed.

Lemma apart_check_slot now s w i : apart s (check_slot now (s, w) i).1.
Proof.
  unfold check_slot. case_if; [done|]. destruct (posix_timer_advance_locked _ _) as [count t]. by destruct (pt_notification _).
Qed.

Lemma apart_enqueue_waiting signum s : apart s (posix_timer_enqueue_waiting_locked signum s).2.
Proof.
  unfold posix_timer_enqueue_waiting_locked. set (start := _.[signum - 1]). clearbody start. generalize (seqZ 0 POSIX_TIMER_MAX) as l. intros l.
  assert (G : forall s q st, apart s (foldl (enqueue_waiting_round signum start) (s, q, st) l).1.1).
  { induction l as [|x l IH]; intros s1 q st; cbn [foldl]; [done|]. destruct (enqueue_waiting_round signum start (s1, q, st) x) as [[s2 q2] st2] eqn:E. transitivity s2; [|apply IH].
    revert E. unfold enqueue_waiting_round. destruct st; [by intros [= <- _ _]|]. case_if; [by intros [= <- _ _]|]. case_if; by intros [= <- _ _]. }
  specialize (G s false false). destruct (foldl _ _ l) as [[s2 q2] st2]. exact G.
Qed.

Lemma apart_queue_round s w b : apart s (queue_round (s, w) b).1.
Proof. unfold queue_round. pose proof (apart_enqueue_waiting (b + 1) s) as A. by destruct (posix_timer_enqueue_waiting_locked (b + 1) s). Qed.

Lemma apart_notify l : forall s, apart s (foldl (fun s bit => signal_notify_waiters (bit + 1) s) s l).
Proof. induction l as [|b l IH]; intros s; cbn [foldl]; [done|]. etransitivity; [|apply IH]. unfold signal_notify_waiters. etransitivity; [|apply apart_ring]. done. Qed.

Lemma apart_timer_check cur now s : apart s (posix_timer_check cur now s).
Proof.
  unfold posix_timer_check, posix_timer_check_locked. case_if; [done|]. pose proof (apart_fold (check_slot now) (seq 0 64) (apart_check_slot now) s 0) as A1.
  destruct (foldl (check_slot now) (s, 0) (seq 0 64)) as [s1 w]. pose proof (apart_fold queue_round (set_bits w) apart_queue_round s1 0) as A2.
  destruct (foldl queue_round (s1, 0) (set_bits w)) as [s2 notify]. cbn [fst] in *. set (s3 := refresh_pending_hint_locked _). pose proof (apart_notify (set_bits notify) s3) as A3.
  set (s4 := foldl _ s3 (set_bits notify)) in *. clearbody s4. transitivity s1; [done|]. transitivity s2; [done|]. transitivity s3; [done|]. transitivity s4; [done|]. by case_if.
Qed.

Lemma apart_queue cur signum info s : apart s (signal_queue_shared cur signum info s).
Proof.
  unfold signal_queue_shared. case_if; [done|]. set (s1 := refresh_pending_hint_locked _). transitivity (signal_notify_waiters signum s1); [unfold signal_notify_waiters; etransitivity; [|apply apart_ring]; done|].
  by case_if.
Qed.

Lemma apart_set_itimer cur which now value interval s : apart s (signal_set_itimer cur which now value interval s).2.
Proof. unfold signal_set_itimer. destruct value as [v|]; [|done]. by case_if; destruct which. Qed.

Lemma apart_create clockid notify signum value dflt s ret s' : signal_posix_timer_create clockid notify signum value dflt s = Some (ret, s') -> apart s s'.
Proof.
  unfold signal_posix_timer_create. destruct (negb _ && negb _ && _); [by intros [= _ <-]|]. do 3 (case_if; [by intros [= _ <-]|]). destruct (list_find _ _) as [[i t]|]; [|by intros [= _ <-]].
  destruct (fresh_id _ _ _) as [[id next]|]; [|done]. cbn. by intros [= _ <-].
Qed.

Lemma apart_check_timers cur cpu chk now s : apart s (signal_check_timers cur cpu chk now s).
Proof.
  unfold signal_check_timers. transitivity (posix_timer_check cur chk s); [apply apart_timer_check|]. set (s1 := posix_timer_check cur chk s). clearbody s1. case_if; [done|].
  unfold check_itimers_locked. destruct (check_one_timer (s_real s1) now) as [real r]. destruct (if cpu then _ else _) as [virt v]. destruct (if cpu then check_one_timer (s_prof s1) now else _) as [prof q].
  set (fired := _ ++ _). transitivity (set_itimers r v q s1); [done|]. generalize (set_itimers r v q s1). clearbody fired. induction fired as [|x l IH]; intros s2; cbn [foldl]; [done|].
  transitivity (signal_queue cur x s2); [apply apart_queue|apply IH].
Qed.

Lemma apart_timer_get cur id chk now1 now2 s : apart s (signal_posix_timer_get cur id chk now1 now2 s).2.
Proof.
  unfold signal_posix_timer_get. transitivity (posix_timer_check cur chk s); [apply apart_timer_check|]. destruct (posix_timer_find_locked _ id) as [[i t]|]; [|done].
  by destruct (posix_timer_value_locked now1 now2 t).
Qed.

(** ** What other threads do *)

(** The critical sections of a thread other than [t], and those of no thread in
    particular.  Setting and deleting timers, exec and fork are not among them,
    since they discard pending signals, nor is a read of a signalfd, which takes a
    claimed signal if it was reported before the claim. *)
Inductive other_step (t : nat) : signals -> signals -> Prop :=
  | other_queue cur signum s : other_step t s (signal_queue cur signum s)
  | other_queue_info cur signum code pid uid int ptr s : other_step t s (signal_queue_info cur signum code pid uid int ptr s)
  | other_queue_thread cur tid signum s : other_step t s (signal_queue_thread cur tid signum s).2
  | other_queue_thread_info cur tid signum code pid uid int ptr s : other_step t s (signal_queue_thread_info cur tid signum code pid uid int ptr s).2
  | other_set_blocked cur mask s : cur <> Some t -> fits64 mask -> other_step t s (signal_set_blocked cur mask s)
  | other_restore_blocked cur mask s : cur <> Some t -> fits64 mask -> other_step t s (signal_restore_blocked cur mask s)
  | other_defer_restore cur mask s : cur <> Some t -> fits64 mask -> other_step t s (signal_defer_restore_blocked cur mask s)
  | other_restore_saved cur s : cur <> Some t -> other_step t s (signal_restore_saved_blocked cur s)
  | other_procmask cur how set s s' : cur <> Some t -> fits64 set -> procmask_locked cur how set s = Some s' -> other_step t s s'
  | other_suspend_begin cur mask s : cur <> Some t -> fits64 mask -> other_step t s (suspend_begin cur mask s).2
  | other_suspend_end cur saved woke s : cur <> Some t -> maskable saved -> other_step t s (suspend_end cur saved woke s)
  | other_claim cur blocked s : cur <> Some t -> fits64 blocked -> other_step t s (signal_claim_waking_locked cur blocked s).2
  | other_claim_interruption cur chk s : cur <> Some t -> (forall i, clock (chk i)) -> other_step t s (signal_claim_interruption cur chk s).2
  | other_release cur u s : u <> t -> other_step t s (signal_release_claims cur u s)
  | other_try_dequeue cur mask s : cur <> Some t -> fits64 mask -> other_step t s (sigtimedwait_try_dequeue cur mask s).2
  | other_deliver cur signum src s : cur <> Some t -> deliver_pick s cur = Some (signum, src) -> other_step t s (dequeue_locked src signum s).2
  | other_take_saved cur s : cur <> Some t -> other_step t s (take_saved_mask cur s).2
  | other_enter cur signum alt s : cur <> Some t -> valid_signal signum -> other_step t s (enter_handler cur signum alt s)
  | other_fault cur signum s : cur <> Some t -> other_step t s (force_fault cur signum s)
  | other_leave cur mask sp s : cur <> Some t -> fits64 mask -> other_step t s (leave_handler cur mask sp s)
  | other_action signum act s : valid_signal signum -> sig_uncatchable signum = false -> act_ok act -> other_step t s (install_action signum act s).1
  | other_set_itimer cur which now value interval s : other_step t s (signal_set_itimer cur which now value interval s).2
  | other_check_timers cur cpu chk now s : (forall i, clock (chk i)) -> other_step t s (signal_check_timers cur cpu chk now s)
  | other_timer_create clockid notify signum value dflt ret s s' : signal_posix_timer_create clockid notify signum value dflt s = Some (ret, s') -> other_step t s s'
  | other_timer_get cur id chk now1 now2 s : (forall i, clock (chk i)) -> clock now1 -> other_step t s (signal_posix_timer_get cur id chk now1 now2 s).2
  | other_alloc i tid s s' : i <> t -> thread_alloc_slot i tid s = Some s' -> other_step t s s'
  | other_deactivate u s : u <> t -> other_step t s (deactivate_slot u s)
  | other_refresh s : other_step t s (signal_refresh_pending_hint s)
  | other_park n s : other_step t s (set_parked n s).

Lemma other_step_step t s s' : other_step t s s' -> sig_step s s'.
Proof. 
  intros St. destruct St; [apply step_queue|eapply step_queue_info|eapply step_queue_thread|eapply step_queue_thread_info|eapply step_set_blocked|eapply step_restore_blocked|eapply step_defer_restore|eapply step_restore_saved|eapply step_procmask|eapply step_suspend_begin|eapply step_suspend_end|eapply step_claim|eapply step_claim_interruption|eapply step_release_claims|eapply step_try_dequeue|eapply step_deliver|eapply step_take_saved|eapply step_enter|eapply step_fault|eapply step_leave|eapply step_action|eapply step_set_itimer|eapply step_check_timers|eapply step_timer_create|eapply step_timer_get|eapply step_alloc|eapply step_deactivate_slot|eapply step_refresh|eapply step_park]; eassumption.
Qed.

(** Thread [t] holds the claim on the signal of index [k] and does not block it. *)
Definition held (t : nat) (k : Z) (s : signals) : Prop := (s_owner s).[k] = Some t /\ Z.testbit (th_blocked (thread_at s t)) k = false.

Lemma held_apart t k s s' : apart s s' -> held t k s -> held t k s'.
Proof. intros [E1 E2] [H1 H2]. unfold held, thread_at in *. by rewrite E1, E2. Qed.

Lemma held_upd t k u f s : u <> t -> held t k s -> held t k (upd_thread u f s).
Proof. intros N [H1 H2]. split; [done|]. destruct (upd_thread_cases u f s t) as [->|(-> & _)]; done. Qed.

Lemma held_blocked t k cur w s : cur <> Some t -> held t k s -> held t k (store_blocked cur w s).
Proof. intros N H. destruct cur as [u|]; [|done]. apply held_upd; [congruence|done]. Qed.
Lemma held_saved t k cur w b s : cur <> Some t -> held t k s -> held t k (store_saved cur w b s).
Proof. intros N H. destruct cur as [u|]; [|done]. apply held_upd; [congruence|done]. Qed.

Lemma held_away t k cur s : cur <> Some t -> held t k s -> claimed_away s cur k = true.
Proof. intros N [H1 H2]. unfold claimed_away. rewrite H1, H2. by rewrite bool_decide_false by congruence. Qed.

Lemma held_dequeued t k src signum s : base_ok s -> 0 <= k < 64 -> valid_signal signum -> Z.testbit (p_pending (set_of s src)) (signum - 1) = true ->
  (is_Some src \/ signum - 1 <> k) -> held t k s -> held t k (dequeue_locked src signum s).2.
Proof.
  intros B Bk V T Sr [H1 H2]. pose proof (dequeue_dequeued src signum s B V T) as D. pose proof (dq_blocked _ _ _ _ D (Some t)) as E. cbn [blocked_of] in E.
  split; [|by rewrite E]. destruct (decide (k = signum - 1)) as [->|N]; [|by rewrite (dq_owner _ _ _ _ D)]. destruct Sr as [[i ->]|N]; [|done].
  destruct (queued (s_pid s) (s_uid s) (set_of s (Some i)) signum) as [|e q] eqn:Q; [destruct (dq_queue _ _ _ _ D) as (? & ? & X & _); by rewrite Q in X|].
  destruct (dequeue_spec (Some i) signum s e q B V Q) as (p & s1 & -> & _ & S1). cbn. rewrite <- H1. f_equal. destruct S1 as [->| ->]; [done|exact (proj1 (apart_ring (set_slots _ s)))].
Qed.

Lemma held_claim t k cur blocked s : base_ok s -> 0 <= k < 64 -> fits64 blocked -> cur <> Some t -> held t k s -> held t k (signal_claim_waking_locked cur blocked s).2.
Proof.
  intros B Bk F N H. pose proof (claim_waking_spec cur blocked s B F) as C. destruct (signal_claim_waking_locked cur blocked s) as [signum s1]. cbn [snd].
  destruct C as [(_ & -> & _)|(V & _ & _ & [[-> _]|(T & Aw & ->)])]; [done|done|]. destruct cur as [u|]; [|done]. destruct H as [H1 H2]. split; [|done].
  cbn [set_claims s_owner]. unfold valid_signal in V. rewrite aget_aset_ne; [done|lia|lia|]. intros <-. by rewrite (held_away t (signum - 1) (Some u) s N (conj H1 H2)) in Aw.
Qed.

Lemma held_claim_interruption t k cur chk s : all_ok s -> 0 <= k < 64 -> (forall i, clock (chk i)) -> cur <> Some t -> held t k s -> held t k (signal_claim_interruption cur chk s).2.
Proof.
  intros O Bk C N H. unfold signal_claim_interruption. pose proof (held_apart t k _ _ (apart_timer_check cur chk s) H) as H1. pose proof (timer_check_ok cur chk s C O) as O1.
  set (s1 := posix_timer_check cur chk s) in *. clearbody s1. case_if; [done|]. pose proof (held_claim t k cur (blocked_of s1 cur) s1 (proj1 (proj1 O1)) Bk (proj1 (blocked_maskable s1 cur (proj1 (proj1 O1)))) N H1) as H2.
  by destruct (signal_claim_waking_locked cur _ s1).
Qed.

Lemma held_release t k cur u s : base_ok s -> 0 <= k < 64 -> u <> t -> held t k s -> held t k (signal_release_claims cur u s).
Proof.
  intros B Bk N H. unfold signal_release_claims, signal_release_claims_locked. assert (F : Forall (fun j => 0 <= j < 64) (set_bits (s_claimed s))).
  { apply list.Forall_forall. intros j X. by apply elem_of_set_bits in X as [? _]; [|apply (bo_claims s B)]. }
  revert F. generalize (set_bits (s_claimed s)). intros l F. clear B. assert (G : forall s b, held t k s -> held t k (foldl (fun '(s, released) idx =>
    if bool_decide ((s_owner s).[idx] = Some u) then (shared_claim_release_locked (idx + 1) s, true) else (s, released)) (s, b) l).1).
  { clear H s. induction l as [|j l IH]; intros s b H; cbn [foldl]; [done|]. apply Forall_cons_1 in F as [Bj F]. case_bool_decide as E; [|by apply IH]. apply IH; [done|].
    destruct H as [H1 H2]. split; [|done]. cbn [shared_claim_release_locked set_claims s_owner]. rewrite Z.add_simpl_r, aget_aset_ne; [done|lia|lia|]. intros <-. congruence. }
  specialize (G s false H). by destruct (foldl _ _ l) as [s1 []].
Qed.

Lemma held_queue_thread t k cur tid signum info s : held t k s -> held t k (signal_queue_thread_common cur tid signum info s).2.
Proof.
  intros H. unfold signal_queue_thread_common. case_if; [done|]. destruct (thread_find_locked s tid) as [i|]; [|done]. cbn [snd]. set (f := fun th => set_th_pending _ th).
  assert (H1 : held t k (upd_thread i f s)) by (destruct H as [H1 H2]; split; [done|]; destruct (upd_thread_cases i f s t) as [->|(_ & _ & ->)]; done).
  set (s1 := refresh_pending_hint_locked _). assert (H2 : held t k (signal_notify_waiters signum s1)) by (apply (held_apart t k s1); [unfold signal_notify_waiters; etransitivity; [|apply apart_ring]; done|exact H1]).
  by case_if.
Qed.

Lemma held_handlers t k cur s : cur <> Some t -> held t k s ->
  (forall signum alt, held t k (enter_handler cur signum alt s)) /\ (forall signum, held t k (force_fault cur signum s)) /\ (forall mask sp, held t k (leave_handler cur mask sp s)).
Proof.
  intros N H. split_and!.
  - intros signum alt. unfold enter_handler. cbv zeta. set (nb := Z.land _ _). pose proof (held_blocked t k cur nb s N H) as H1. set (s1 := store_blocked cur nb s) in *. clearbody s1.
    set (s2 := match cur with Some i => _ | None => s1 end). assert (H2 : held t k s2) by (unfold s2; destruct cur as [u|]; [|done]; case_if; [|done]; apply held_upd; [congruence|done]). by case_if.
  - intros signum. unfold force_fault. repeat case_if; [done| |done]. by apply held_blocked.
  - intros mask sp. unfold leave_handler. pose proof (held_blocked t k cur (Z.land mask (not64 unmaskable)) s N H) as H1. destruct cur as [u|]; [|done]. apply held_upd; [congruence|done].
Qed.

Lemma held_step t k s s' : all_ok s -> 0 <= k < 64 -> other_step t s s' -> held t k s -> held t k s'.
Proof.
  intros O Bk St H. pose proof (proj1 (proj1 O)) as B. destruct St; try (by apply held_queue_thread); try (by apply held_blocked); try (by apply held_saved).
  - eapply held_apart; [apply apart_queue|done].
  - eapply held_apart; [apply apart_queue|done].
  - unfold signal_restore_saved_blocked. case_if; [done|]. by apply held_saved, held_blocked.
  - revert H2. unfold procmask_locked. destruct (if _ =? _ then _ else _) as [w|]; [|done]. intros [= <-]. set (b := negb _). pose proof (held_blocked t k cur (Z.land w (not64 unmaskable)) s) as G. by destruct b; apply G.
  - unfold suspend_end. case_if; [by apply held_saved|by apply held_blocked].
  - by apply held_claim.
  - by apply held_claim_interruption.
  - by apply held_release.
  - destruct (try_dequeue_cases cur _ s B H1) as [->|(signum & src & V & _ & T & Sr & ->)]; [done|]. cbn [snd]. apply held_dequeued; auto. destruct Sr as [[-> ?]|[_ Aw]]; [by left|right]. intros <-. by rewrite (held_away t (signum - 1) cur s) in Aw.
  - destruct (deliver_pick_spec s cur signum src B H1) as (V & _ & T & Sr). apply held_dequeued; auto. destruct Sr as [[-> ?]|[_ Aw]]; [by left|right]. intros <-. by rewrite (held_away t (signum - 1) cur s) in Aw.
  - unfold take_saved_mask. case_if; [by apply held_saved|done].
  - by apply held_handlers.
  - by apply held_handlers.
  - by apply held_handlers.
  - done.
  - eapply held_apart; [apply apart_set_itimer|done].
  - eapply held_apart; [apply apart_check_timers|done].
  - eapply held_apart; [eapply apart_create; exact H0|done].
  - eapply held_apart; [apply apart_timer_get|done].
  - revert H1. unfold thread_alloc_slot. case_if; [done|]. intros [= <-]. destruct H as [H1 H2]. split; [done|]. unfold thread_at in *. cbn [set_threads s_threads].
    by rewrite list_lookup_total_insert_ne.
  - by apply held_upd.
  - done.
  - done.
Qed.

Lemma held_steps t k s s' : all_ok s -> 0 <= k < 64 -> rtc (other_step t) s s' -> held t k s -> all_ok s' /\ held t k s'.
Proof.
  intros O Bk R. induction R as [s|s s1 s2 St R IH]; intros H; [done|]. apply IH; [eapply step_ok; [eapply other_step_step; exact St|done]|by eapply held_step].
Qed.


Definition ex_claimed : Z * signals := signal_claim_waking_locked (Some 0%nat) 0 ex_state.

