(* ===== verification/SigTimerSpecs.v ===== *)
(** * POSIX timers: no expiry is lost, and creation finds an identifier *)

From S2P Require Import Prelude Bits FutexWord SigQueue SigQueueFacts Signal SigFacts SigLife SigStep SigFrame SigFrameFacts SigDeliver SigSpecs.

(** ** Expiries *)

(** Advancing an armed timer past its expiry counts exactly the periods that have
    elapsed, the expiry included, and moves the expiry to the first multiple of the
    interval after now, or to the end of time if that does not fit; a timer that is
    not due is left alone and a one-shot timer is disarmed after one expiry. *)
Theorem posix_timer_advance_exact now t : clock now -> timer_ok t -> pt_used t = true -> 0 < pt_expiry t ->
  let '(count, t') := posix_timer_advance_locked now t in
  if now <? pt_expiry t then count = 0 /\ t' = t
  else if pt_interval t =? 0 then count = 1 /\ pt_expiry t' = 0
  else 1 <= count /\ pt_expiry t + (count - 1) * pt_interval t <= now < pt_expiry t + count * pt_interval t /\
       pt_expiry t' = Z.min INT64_MAX (pt_expiry t + count * pt_interval t) /\ pt_interval t' = pt_interval t.
Proof.
  intros C O U A. pose proof (tk_interval t O) as I. unfold clock in *. unfold posix_timer_advance_locked. rewrite U. rewrite (proj2 (Z.eqb_neq (pt_expiry t) 0)) by lia. cbn [negb orb].
  destruct (Z.ltb_spec now (pt_expiry t)); [done|]. destruct (Z.eqb_spec (pt_interval t) 0); [done|].
  set (e := now - pt_expiry t). set (i := pt_interval t) in *. pose proof (Z.quot_rem' e i) as Q. pose proof (Z.rem_bound_pos e i ltac:(lia) ltac:(lia)) as R.
  assert (0 <= e ÷ i) by (apply Z.quot_pos; lia). set (q := e ÷ i) in *. set (r := Z.rem e i) in *. assert (E : now + (i - r) = pt_expiry t + (1 + q) * i) by nia.
  split; [lia|]. split; [nia|]. split; [|done]. cbn [set_expiry pt_expiry]. rewrite E. destruct (Z.ltb_spec INT64_MAX (pt_expiry t + (1 + q) * i)); lia.
Qed.

Definition ex_timer : guest_posix_timer_t := mk_timer 3 0 14 0 0 CLOCK_MONOTONIC 3 1000 300 true POSIX_TIMER_NONE.

Lemma ex_timer_ok : timer_ok ex_timer.
Proof. constructor; cbn; unfold clock, INT32_MAX, valid_signal; rewrite ?INT64_MAX_eq; lia. Qed.

Lemma posix_timer_advance_exact_witness : (posix_timer_advance_locked 1700 ex_timer).1 = 3 /\ pt_expiry (posix_timer_advance_locked 1700 ex_timer).2 = 1900.
Proof.
  pose proof (posix_timer_advance_exact 1700 ex_timer) as T. specialize (T ltac:(unfold clock; rewrite INT64_MAX_eq; lia) ex_timer_ok eq_refl eq_refl).
  vm_compute in T. vm_compute. split; [reflexivity|apply T].
Defined.

(** What a timer still owes: one notification and the overruns reported with it. *)
Definition owed (t : guest_posix_timer_t) : Z :=
  match pt_notification t with POSIX_TIMER_NONE => 0 | POSIX_TIMER_WAITING | POSIX_TIMER_QUEUED => 1 + pt_overruns t end.

Lemma find_used l i t : slots_ok l -> l !! i = Some t -> pt_used t = true -> posix_timer_find_locked l (pt_id t) = Some (i, t).
Proof.
  intros S L U. unfold posix_timer_find_locked. apply list_find_Some. split_and!; [done|done|done|]. intros j u Lj Lt [Uu E].
  assert (j = i) by (by eapply (sl_ids l S)). lia.
Qed.

Lemma entry_of_timer t e : 0 <= pt_id t -> timer_entry (pt_id t) e = true -> (si_code e =? LINUX_SI_TIMER) = true /\ si_pid e = pt_id t.
Proof.
  intros P T. unfold timer_entry in T. apply andb_prop in T as [T1 T2]. rewrite (proj2 (Z.ltb_ge (pt_id t) 0)) in T2 by lia. cbn [orb] in T2. by apply Z.eqb_eq in T2.
Qed.

Lemma owed_counted count t : 0 <= count -> timer_ok t -> owed (count_expiries count t) = Z.min (1 + INT32_MAX) (owed t + count).
Proof.
  intros C O. pose proof (tk_overruns t O) as B. pose proof (tk_settled t O) as S. unfold count_expiries, owed in *.
  destruct (Z.eqb_spec count 0) as [->|N]; [destruct (pt_notification t); rewrite ?S by done; unfold INT32_MAX in *; lia|].
  cbn [set_overruns pt_notification pt_overruns]. destruct (pt_notification t) eqn:E; [rewrite bool_decide_true by done; rewrite (S eq_refl) in *|rewrite bool_decide_false by done..];
    destruct (Z.ltb_spec (INT32_MAX - pt_overruns t) count); destruct (Z.ltb_spec (INT32_MAX - 0) (count - 1)); unfold INT32_MAX in *; lia.
Qed.


(** ** Creating *)

Definition after (n : Z) : Z := if n =? INT32_MAX then 0 else n + 1.
Fixpoint ids_from (fuel : nat) (n : Z) : list Z := match fuel with O => [] | S fuel => n :: ids_from fuel (after n) end.

Lemma ids_from_mod fuel : forall n, 0 <= n <= INT32_MAX -> ids_from fuel n = (fun j => (n + j) mod 2147483648) <$> seqZ 0 (Z.of_nat fuel).
Proof.
  induction fuel as [|fuel IH]; intros n B; [done|]. cbn [ids_from]. rewrite seqZ_cons by lia. cbn [fmap list_fmap]. unfold INT32_MAX in *. f_equal; [rewrite Z.add_0_r, Z.mod_small; lia|].
  replace (Z.pred (Z.of_nat (S fuel))) with (Z.of_nat fuel) by lia. rewrite IH by (unfold after, INT32_MAX; case_if; unbool; lia). change (Z.succ 0) with (1 + 0).
  rewrite <- (fmap_add_seqZ 1 0), <- list_fmap_compose. apply list_fmap_ext. intros i x _. cbn. unfold after, INT32_MAX. destruct (Z.eqb_spec n 2147483647) as [->|].
  - replace (2147483647 + (1 + x)) with (0 + x + 1 * 2147483648) by lia. by rewrite Z.mod_add by lia.
  - f_equal. lia.
Qed.

Lemma ids_from_NoDup fuel n : 0 <= n <= INT32_MAX -> Z.of_nat fuel <= 2147483648 -> NoDup (ids_from fuel n).
Proof.
  intros B F. rewrite ids_from_mod by done. apply NoDup_fmap_2_strong; [|apply NoDup_seqZ]. intros x y X Y E. apply elem_of_seqZ in X, Y. unfold INT32_MAX in B.
  pose proof (Z.div_mod (n + x) 2147483648 ltac:(lia)). pose proof (Z.div_mod (n + y) 2147483648 ltac:(lia)). pose proof (Z.mod_pos_bound (n + x) 2147483648 ltac:(lia)).
  rewrite E in *. assert ((n + x) / 2147483648 = (n + y) / 2147483648 \/ (n + x) / 2147483648 - (n + y) / 2147483648 >= 1 \/ (n + y) / 2147483648 - (n + x) / 2147483648 >= 1) as [?|[?|?]] by lia; nia.
Qed.

Lemma fresh_id_none fuel l : forall n, fresh_id fuel l n = None -> Forall (fun id => is_Some (posix_timer_find_locked l id)) (ids_from fuel n).
Proof.
  induction fuel as [|fuel IH]; intros n; cbn [fresh_id ids_from]; [intros _; constructor|]. case_bool_decide as E; [|done]. intros N. constructor; [done|]. by apply IH.
Qed.

Lemma fresh_id_found l n : length l = 64%nat -> 0 <= n <= INT32_MAX -> is_Some (fresh_id 65 l n).
Proof.
  intros L B. destruct (fresh_id 65 l n) as [r|] eqn:E; [by exists r|]. apply fresh_id_none in E. pose proof (ids_from_NoDup 65 n B ltac:(lia)) as N.
  assert (Sub : ids_from 65 n ⊆ pt_id <$> l).
  { intros id X. rewrite list.Forall_forall in E. destruct (E id X) as [[i t] F]. apply find_spec in F as (Lk & _ & <-). apply list_elem_of_fmap. exists t. split; [done|by eapply list_elem_of_lookup_2]. }
  pose proof (NoDup_submseteq _ _ N Sub) as Le%submseteq_length. rewrite length_fmap, L in Le. assert (Lf : forall f m, length (ids_from f m) = f) by (induction f; intros m; cbn; auto).
  rewrite Lf in Le. lia.
Qed.

Lemma find_insert_other l i t id : l !! i = None \/ (exists u, l !! i = Some u /\ pt_used u = false) -> pt_id t <> id ->
  posix_timer_find_locked (<[i := t]> l) id = posix_timer_find_locked l id.
Proof.
  unfold posix_timer_find_locked. intros F N. revert i F. induction l as [|u l IH]; intros i F; [done|]. destruct i as [|i]; cbn [insert list_insert list_find].
  - destruct F as [?|(u' & [= <-] & U)]; [done|]. rewrite decide_False by (intros [_ ?]; done). rewrite decide_False by (intros [? _]; congruence). done.
  - case_decide; [done|]. cbn [lookup list_lookup] in F. by rewrite IH.
Qed.

(** timer_create ends: with at most 64 timers in use the search for an identifier
    finds one within 65 candidates, across the wrap of the counter.  It either
    refuses, for a bad clock or event or because all 64 slots are in use, and
    changes nothing, or hands out an identifier no timer has, for a new timer that
    is disarmed; the timers there were keep their identifiers. *)
Theorem posix_timer_create_returns clockid notify signum value dflt s : reachable s ->
  exists ret s', signal_posix_timer_create clockid notify signum value dflt s = Some (ret, s') /\
  ((s' = s /\ (ret = - LINUX_EINVAL \/ ret = - LINUX_ENOSYS \/ ret = - LINUX_EAGAIN /\ Forall (fun t => pt_used t = true) (pts_slots (s_timers s)))) \/
   (0 <= ret <= INT32_MAX /\ posix_timer_find_locked (pts_slots (s_timers s)) ret = None /\
    (exists i t, posix_timer_find_locked (pts_slots (s_timers s')) ret = Some (i, t) /\ pt_expiry t = 0 /\ owed t = 0) /\
    forall id, id <> ret -> posix_timer_find_locked (pts_slots (s_timers s')) id = posix_timer_find_locked (pts_slots (s_timers s)) id)).
Proof.
  intros R. apply reachable_ok in R. pose proof (proj1 (proj2 R)) as Tb. pose proof (ts_slots s Tb) as S. destruct (fresh_id_found _ _ (sl_len _ S) (ts_next_id s Tb)) as [[id next] F].
  pose proof (fun ret s' => timer_create_all clockid notify signum value dflt s ret s' R) as K. revert K. unfold signal_posix_timer_create.
  destruct (negb _ && negb _ && _); [intros _; eauto 10|]. case_if; [intros _; eauto 10|]. case_if; [intros _; eauto 10|]. case_if; [intros _; eauto 10|].
  destruct (list_find _ (pts_slots (s_timers s))) as [[i u]|] eqn:Fi.
  - rewrite F. cbn [mbind option_bind]. intros K. eexists _, _. split; [reflexivity|]. specialize (K _ _ eq_refl). set (t := mk_timer _ _ _ _ _ _ _ _ _ _ _) in *.
    apply list_find_Some in Fi as (Li & Ui & _). destruct (fresh_id_spec _ _ _ _ _ (ts_next_id s Tb) F) as (B1 & B2 & None). right. split_and!; [lia|lia|done| |].
    + exists i, t. split_and!; [|done|done]. apply (find_used _ i t); [apply (ts_slots _ (proj1 (proj2 K)))|cbn; apply list_lookup_insert_eq; by eapply lookup_lt_Some|done].
    + intros x Nx. apply find_insert_other; [right; eauto|done].
  - intros _. eexists _, _. split; [reflexivity|]. left. split; [done|]. right. right. split; [done|]. apply list_find_None in Fi. eapply list.Forall_impl; [exact Fi|].
    intros t H. cbn in H. by destruct (pt_used t).
Qed.

Definition ex_created : signals := match signal_posix_timer_create 0 0 14 0 true (boot 7 1000 7) with Some (_, s) => s | None => boot 7 1000 7 end.

Lemma posix_timer_create_returns_witness : exists ret s', signal_posix_timer_create 0 0 14 0 true ex_state = Some (ret, s') /\ ret = 0.
Proof.
  destruct (posix_timer_create_returns 0 0 14 0 true ex_state ex_state_reachable) as (ret & s' & E & _). exists ret, s'. split; [exact E|].
  assert (V : fst <$> signal_posix_timer_create 0 0 14 0 true ex_state = Some 0) by (vm_compute; reflexivity). rewrite E in V. by injection V.
Defined.

Lemma ex_created_reachable : reachable ex_created.
Proof. exists 7, 1000, 7. eapply relations.rtc_l; [|apply relations.rtc_refl]. apply (step_timer_create 0 0 14 0 true 0). vm_compute. reflexivity. Qed.

