(* ===== verification/SigFrameSpecs.v ===== *)
(** * What delivery and return promise

    A handler starts with the registers and the mask it should have, on an aligned
    frame inside its stack, and rt_sigreturn puts the interrupted state back; a
    cancelled restart leaves what the system call would have returned. *)

From S2P Require Import Prelude Bits FutexWord SigQueue SigQueueFacts Signal SigFacts SigLife SigStep SigFrame SigFrameFacts SigDeliver SigSpecs.

(** ** Ranges *)

Record vcpu_ok (v : vcpu_t) : Prop := {
  vo_len : length (v_gprs v) = 31%nat;
  vo_gprs : Forall fits64 (v_gprs v);
  vo_pc : fits64 (v_pc v);
  vo_cpsr : fits64 (v_cpsr v);
  vo_sp : fits64 (v_sp_el0 v);
  vo_elr : fits64 (v_elr v);
  vo_spsr : fits64 (v_spsr v);
  vo_fpsr : fits32 (v_fpsr v);
  vo_fpcr : fits32 (v_fpcr v);
  vo_simd : simd_ok v
}.

Record local_ok (l : local_t) : Prop := {
  lo_addr : fits64 (pf_addr (l_fault l));
  lo_x8 : fits64 (px_x8 (l_x8 l));
  lo_cookies : length (l_cookies l) = 16%nat;
  lo_depth : 0 <= l_depth l <= MAX_NESTED_SIGNALS
}.

Lemma live_regs_ok v l : vcpu_ok v -> local_ok l -> length (live_regs v l) = 31%nat /\ Forall fits64 (live_regs v l).
Proof.
  intros V L. unfold live_regs. case_if; [|split; apply V]. unfold aset. rewrite length_insert. split; [apply V|]. apply Forall_insert; [apply V|apply L].
Qed.

Lemma cookie_fits rand : fits64 rand -> fits64 (Z.lor rand 1) /\ Z.lor rand 1 <> 0.
Proof.
  intros F. split; [apply lor_fits; [done|unfold fits64, two64; lia]|]. intros E. assert (T : Z.testbit (Z.lor rand 1) 0 = true) by (rewrite Z.lor_spec; apply orb_true_r).
  by rewrite E in T.
Qed.

(** The calling thread is in the table. *)
Definition here (cur : option nat) (s : signals) : Prop := match cur with Some i => (i < length (s_threads s))%nat | None => True end.

Lemma blocked_stored cur w s : here cur s -> blocked_of (store_blocked cur w s) cur = w.
Proof.
  intros B. destruct cur as [i|]; [|done]. cbn [store_blocked blocked_of]. rewrite thread_at_upd by done. by rewrite decide_True by done.
Qed.

Lemma leave_blocked cur mask sp s : maskable mask -> here cur s -> blocked_of (leave_handler cur mask sp s) cur = mask.
Proof.
  intros (F & M1 & M2) B. unfold leave_handler. assert (E : Z.land mask (not64 unmaskable) = mask).
  { apply Z.bits_inj'. intros k Bk. rewrite Z.land_spec. destruct (Z.lt_ge_cases k 64) as [Lt|Ge].
    - rewrite not64_spec, unmaskable_bits by lia. rewrite (proj2 (Z.ltb_lt k 64)) by lia. destruct (Z.eqb_spec k 8) as [->|]; [by rewrite M1|]. destruct (Z.eqb_spec k 18) as [->|]; [by rewrite M2|].
      cbn. by rewrite andb_true_r.
    - rewrite (fits64_testbit_high mask) by done. done. }
  rewrite E. destruct cur as [i|]; [|done]. cbn [blocked_of]. rewrite thread_at_upd by (unfold store_blocked; rewrite length_upd; exact B). rewrite decide_True by done.
  cbn [set_th_alt th_blocked]. apply (blocked_stored (Some i) mask s B).
Qed.

(** ** Return undoes delivery *)

Section Roundtrip.
Context {M : Type} `{GuestBytes M}.

(** C13: A delivery that installs a handler writes one frame at the new stack pointer.
    Whatever the handler does to the registers, the memory and the signal state, if
    rt_sigreturn is called at that stack pointer with the frame still there and no
    nested delivery outstanding, it succeeds, and what the shim then resumes with is
    the interrupted state: all thirty-one registers, the stack pointer, the program
    counter, the user bits of the status, the floating-point state, and the mask
    from before the delivery or, after a wait with a temporary mask, from before
    the wait.  The cookie stack is as deep as before. *)
Theorem sigreturn_undoes_delivery g cur rand signum info v l m s :
  reachable s -> valid_signal signum -> 2 <= sa_handler (s_actions s).[signum - 1] -> vcpu_ok v -> local_ok l -> fits64 rand ->
  rq_armed (l_restart l) = false -> l_rseq_gva l = 0 -> guest_addr_in_infra g (live_pc v) = false ->
  let o := deliver_signal_locked cur rand signum info v l m s in
  o_ret o = 1 ->
  exists frame, gb_write m (v_sp_el0 (o_v o)) (frame_bytes frame) = (o_m o, true) /\ zlen (frame_bytes frame) = FRAME_BYTES /\
  forall v2 l2 m2 s2, v_sp_el0 v2 = v_sp_el0 (o_v o) -> gb_read m2 (v_sp_el0 v2) FRAME_BYTES = (frame_bytes frame, true) ->
    l_cookies l2 = l_cookies (o_l o) -> l_depth l2 = l_depth (o_l o) -> here cur s2 ->
    let r := signal_rt_sigreturn g cur v2 l2 m2 s2 in
    let x8 := (live_regs v l).[8] in
    let e := exec_drop_frame x8 (o_v r) in
    o_ret r = SYSCALL_EXEC_HAPPENED /\ o_m r = shim_publish_frame_x8 g x8 v2 m2 /\
    v_gprs e = live_regs v l /\ v_sp_el0 e = v_sp_el0 v /\ v_pc e = live_pc v /\ v_cpsr e = Z.land (live_pstate v) PSTATE_MASK /\
    v_fpsr e = v_fpsr v /\ v_fpcr e = v_fpcr v /\ v_simd e = v_simd v /\
    blocked_of (o_s r) cur = (if saved_valid_of s cur then saved_of s cur else blocked_of s cur) /\ l_depth (o_l r) = l_depth l.
Proof.
  intros R Sg Hh V L Fr Ha Hq Hi. apply reachable_ok in R as ([B _] & _). cbv zeta.
  destruct (deliver_push cur rand signum info v l m s Sg Hh Ha Hq) as (l1 & D1 & D2 & D3 & ->). intros Ret.
  destruct (push_frame_spec _ _ _ _ _ _ _ _ _ _ _ _ _ _ Ret) as (sp & frame & fault & esr & W & _ & Ef & El & Em & Ec & Eft & _ & Ev & _ & _ & Ck & Dp).
  set (o := push_frame _ _ _ _ _ _ _ _ _ _ _ _ _ _) in *. clearbody o. assert (Esp : v_sp_el0 (o_v o) = sp) by (rewrite Ev; unfold handler_regs; repeat case_if; done).
  destruct (live_regs_ok v l V L) as [Lr Fg]. destruct (cookie_fits rand Fr) as [Fc Nc].
  assert (Oc : sigcontext_ok (uc_mcontext (fr_uc frame))).
  { rewrite Ec, Eft, D3. constructor; cbn [sc_fault_address sc_regs sc_sp sc_pc sc_pstate sc_reserved]; try done; try apply V; [case_if; [apply L|by unfold fits64, two64]| | |apply zlen_reserved, V].
    - unfold live_pc. case_if; apply V.
    - unfold live_pstate. case_if; apply V. }
  exists frame. rewrite Esp. split; [done|]. split; [by apply zlen_frame|]. intros v2 l2 m2 s2 Hs Hr Hc Hd Hh2.
  pose proof (blocked_maskable s cur B) as Mb. pose proof (saved_maskable s cur B) as Ms.
  assert (Mk : maskable (uc_sigmask (fr_uc frame)) /\ uc_sigmask (fr_uc frame) = if saved_valid_of s cur then saved_of s cur else blocked_of s cur).
  { rewrite Em. unfold take_saved_mask. by destruct (saved_valid_of s cur). }
  destruct Mk as [Mk Em']. pose proof (lo_depth l L) as Bd. pose proof (lo_cookies l L) as Lc.
  destruct (sigreturn_spec g cur v2 l2 m2 s2 frame Hr) as (R1 & R2 & R3 & R4 & R5 & R6 & R7).
  - rewrite Ef. case_if; [done|]. by unfold fits64, two64.
  - done.
  - apply Mk.
  - done.
  - rewrite Ef, Hc, Hd, Ck, Dp, D1, D2. case_if; unbool; [|by left]. right. right. unfold MAX_NESTED_SIGNALS in *. rewrite Z.add_simpl_r, aget_aset by lia. done.
  - by rewrite Ec.
  - rewrite R1, R2, R3, R4, R7. rewrite Ec. cbn [sc_fault_address sc_regs sc_sp sc_pc sc_pstate sc_reserved]. rewrite !fpsimd_back by apply V.
    cbn [exec_drop_frame set_gpr set_gprs set_fp set_spsr set_elr set_sp_el0 v_gprs v_pc v_cpsr v_sp_el0 v_sp_el1 v_elr v_spsr v_fpsr v_fpcr v_simd].
    split_and!; try done.
    + by rewrite aset_aset, aset_id.
    + apply Z.mod_small, V.
    + apply Z.mod_small, V.
    + by rewrite leave_blocked, Em'.
    + rewrite Ef, Hd, Dp, D1. destruct (l_depth l <? MAX_NESTED_SIGNALS); [|done]. rewrite (proj2 (Z.eqb_neq _ 0)) by done. rewrite (proj2 (Z.ltb_lt 0 _)) by lia. cbn [negb andb]. lia.
Qed.
End Roundtrip.

Definition ex_geo : guest_geo := mk_geo 68719476736 0 68700000000.

Lemma ex_cpu_ok : vcpu_ok ex_cpu.
Proof.
  constructor; cbn [ex_cpu v_gprs v_pc v_cpsr v_sp_el0 v_elr v_spsr v_fpsr v_fpcr]; try done; try (unfold fits64, two64; lia); try (unfold fits32, two32; lia).
  - apply list.Forall_forall. intros x X. apply elem_of_seqZ in X. unfold fits64, two64. lia.
  - split; [done|]. apply list.Forall_forall. intros x X. apply elem_of_seqZ in X. lia.
Qed.

Lemma ex_local_ok : local_ok ex_local.
Proof. constructor; cbn; try done; unfold fits64, two64, MAX_NESTED_SIGNALS; lia. Qed.

(** The example: the handler of signal 10, entered and left at once. *)
Definition ex_out : outcome (list Z) := deliver_signal_locked (Some 0%nat) 77 10 (signal_default_info 7 1000 10) ex_cpu ex_local (zeros 9000) ex_armed.
Definition ex_back : outcome (list Z) := signal_rt_sigreturn ex_geo (Some 0%nat) (o_v ex_out) (o_l ex_out) (o_m ex_out) (o_s ex_out).

Lemma sigreturn_undoes_delivery_witness : v_gprs (exec_drop_frame 108 (o_v ex_back)) = seqZ 100 31 /\ blocked_of (o_s ex_back) (Some 0%nat) = 0.
Proof.
  pose proof (sigreturn_undoes_delivery ex_geo (Some 0%nat) 77 10 (signal_default_info 7 1000 10) ex_cpu ex_local (zeros 9000) ex_armed ex_armed_reachable) as T.
  assert (Ret : o_ret ex_out = 1) by (vm_compute; reflexivity). assert (Hh : here (Some 0%nat) (o_s ex_out)) by (apply Nat.ltb_lt; vm_compute; reflexivity).
  unfold ex_back, ex_out in *. cbv zeta in T. set (o := deliver_signal_locked _ _ _ _ _ _ _ _) in *. destruct T as (frame & W & Lf & T);
    [unfold valid_signal; lia|vm_compute; discriminate|apply ex_cpu_ok|apply ex_local_ok|unfold fits64, two64; lia|reflexivity|reflexivity|vm_compute; reflexivity|exact Ret|].
  clearbody o. apply flat_read_back in W. rewrite Lf in W. destruct (T (o_v o) (o_l o) (o_m o) (o_s o) eq_refl W eq_refl eq_refl Hh) as (_ & _ & G & _ & _ & _ & _ & _ & _ & B & _).
  split; [exact G|exact B].
Defined.

(** ** Entering a handler *)

Lemma sigframe_base_spec sp n floor b : fits64 sp -> 0 <= n -> sigframe_base sp n floor = Some b ->
  b mod 16 = 0 /\ 0 <= b /\ b + n <= sp < b + n + 16 /\ floor <= b.
Proof.
  intros F Bn. unfold sigframe_base, SIGFRAME_ALIGN. destruct (Z.ltb_spec sp n); [done|]. unfold fits64 in F. unfold sub64, wrap64 at 1. unfold wrap64. rewrite (Z.mod_small (sp - n)) by (unfold two64 in *; lia).
  pose proof (Z.mod_pos_bound (sp - n) 16 ltac:(lia)). pose proof (Z.mod_le (sp - n) 16 ltac:(lia) ltac:(lia)). rewrite Z.mod_small by (unfold two64 in *; lia).
  destruct (Z.ltb_spec (sp - n - (sp - n) mod 16) floor); [done|]. intros [= <-]. split; [|lia]. rewrite Zminus_mod_idemp_r, Z.sub_diag. done.
Qed.

Lemma gpr_other (v : vcpu_t) n k x : 0 <= n -> 0 <= k -> n <> k -> (v_gprs (set_gpr n x v)).[k] = (v_gprs v).[k].
Proof. intros. cbn. by apply aget_aset_ne. Qed.
Lemma gpr_same (v : vcpu_t) n x : 0 <= n < Z.of_nat (length (v_gprs v)) -> (v_gprs (set_gpr n x v)).[n] = x.
Proof. intros. cbn. by apply aget_aset. Qed.
Lemma gprs_len n x v : length (v_gprs (set_gpr n x v)) = length (v_gprs v).
Proof. cbn. apply length_aset. Qed.

(** The arguments of a handler. *)
Lemma handler_args signum sp act pre v : length (v_gprs v) = 31%nat ->
  let w := handler_regs signum sp act pre v in
  v_sp_el0 w = sp /\ v_elr w = sa_handler act /\ v_spsr w = 0 /\ (pre = true -> v_pc w = sa_handler act /\ v_cpsr w = 0) /\
  (v_gprs w).[0] = signum /\ (v_gprs w).[30] = VDSO_BASE + VDSO_OFF_SIGRET /\
  (has (sa_flags act) LINUX_SA_SIGINFO = true -> (v_gprs w).[1] = sp /\ (v_gprs w).[2] = (sp + SIGINFO_BYTES)%u64).
Proof.
  intros L. unfold handler_regs. cbv zeta. set (v1 := if pre then set_live _ _ _ else _). assert (L1 : length (v_gprs v1) = 31%nat) by (unfold v1; by case_if).
  assert (F1 : v_sp_el0 v1 = sp /\ v_elr v1 = sa_handler act /\ v_spsr v1 = 0 /\ (pre = true -> v_pc v1 = sa_handler act /\ v_cpsr v1 = 0)) by (unfold v1; by destruct pre).
  clearbody v1. destruct (has (sa_flags act) LINUX_SA_SIGINFO), pre; (split_and!; [apply F1|apply F1|apply F1|apply F1|..]); try done; intros; try match goal with |- _ /\ _ => split end; try done;
    repeat (first [rewrite gpr_same by (rewrite ?gprs_len, ?L1; lia); reflexivity | rewrite gpr_other by lia]).
Qed.

Lemma enter_blocked cur signum alt s : base_ok s -> valid_signal signum -> here cur s ->
  let act := (s_actions s).[signum - 1] in
  forall k, 0 <= k < 64 -> Z.testbit (blocked_of (enter_handler cur signum alt s) cur) k =
    (Z.testbit (blocked_of s cur) k || (negb (has (sa_flags act) LINUX_SA_NODEFER) && (k =? signum - 1)) || Z.testbit (sa_mask act) k) && negb ((k =? 8) || (k =? 18)).
Proof.
  intros B V Hh act k Bk. unfold enter_handler. cbv zeta. fold act. set (nb := Z.lor _ (sa_mask act)). set (w := Z.land nb (not64 unmaskable)).
  assert (E : blocked_of (store_blocked cur w s) cur = w) by (by apply blocked_stored).
  assert (E2 : forall s2, (s2 = store_blocked cur w s \/ exists i, cur = Some i /\ s2 = upd_thread i (fun t => set_th_alt (th_alt_sp t) (th_alt_flags t) (th_alt_size t) true t) (store_blocked cur w s)) -> blocked_of s2 cur = w).
  { intros s2 [->|(i & -> & ->)]; [done|]. cbn [blocked_of]. rewrite thread_at_upd by (unfold store_blocked; rewrite length_upd; exact Hh). rewrite decide_True by done. exact E. }
  set (s2 := match cur with Some i => _ | None => _ end). assert (E3 : blocked_of s2 cur = w) by (apply E2; unfold s2; destruct cur as [i|]; [destruct alt; eauto|by left]).
  assert (E4 : forall l, blocked_of (set_actions l s2) cur = blocked_of s2 cur) by (intros l; by destruct cur).
  transitivity (Z.testbit w k); [case_if; rewrite ?E4, E3; done|]. unfold w, nb. rewrite Z.land_spec, not64_spec, unmaskable_bits, (proj2 (Z.ltb_lt k 64)), xorb_true_r, Z.lor_spec by lia.
  f_equal. f_equal. unfold valid_signal in V. destruct (has (sa_flags act) LINUX_SA_NODEFER); cbn [negb andb]; [by rewrite orb_false_r|]. by rewrite Z.lor_spec, sig_bit_testbit by lia.
Qed.

Lemma enter_action cur signum alt s : base_ok s -> valid_signal signum ->
  let act := (s_actions s).[signum - 1] in
  (s_actions (enter_handler cur signum alt s)).[signum - 1] =
    if has (sa_flags act) LINUX_SA_RESETHAND then mk_act LINUX_SIG_DFL (Z.land (sa_flags act) (not64 LINUX_SA_SIGINFO)) (sa_restorer act) (sa_mask act) else act.
Proof.
  intros B V act. unfold enter_handler. cbv zeta. fold act. set (s2 := match cur with Some i => _ | None => _ end).
  assert (E : s_actions s2 = s_actions s) by (unfold s2; destruct cur as [i|]; [by destruct alt|done]). unfold valid_signal in V. case_if; [|by rewrite E].
  cbn [set_actions s_actions]. apply aget_aset. rewrite E, (ao_len s (bo_acts s B)). lia.
Qed.

(** Taking the saved mask changes nothing else. *)
Lemma take_saved_same cur s : base_ok s -> here cur s ->
  let s1 := (take_saved_mask cur s).2 in
  base_ok s1 /\ here cur s1 /\ s_actions s1 = s_actions s /\ blocked_of s1 cur = blocked_of s cur /\
  (forall act, on_altstack cur act s1 = on_altstack cur act s) /\ alt_base cur s1 = alt_base cur s /\ alt_room cur s1 = alt_room cur s.
Proof.
  intros B Hh. cbv zeta. unfold take_saved_mask. destruct (saved_valid_of s cur); [|by split_and!]. cbn [snd]. destruct cur as [i|]; cbn [store_saved].
  - split; [apply base_upd_thread; [by intros (T1 & T2 & T3)|done]|]. cbn [here] in *. unfold on_altstack, alt_base, alt_room. cbn [blocked_of].
    rewrite thread_at_upd, decide_True, length_upd by done. done.
  - split; [|done]. apply base_set_fallback; [apply B|apply B|done].
Qed.

Lemma saved_cleared cur s : here cur s -> saved_valid_of (take_saved_mask cur s).2 cur = false.
Proof.
  intros Hh. unfold take_saved_mask. destruct (saved_valid_of s cur) eqn:E; [|done]. destruct cur as [i|]; cbn [snd store_saved saved_valid_of]; [|done]. by rewrite thread_at_upd, decide_True by done.
Qed.

Section Entry.
Context {M : Type} `{GuestBytes M}.

(** C22: A delivery that installs a handler sends the guest to it: the program counter
    is the handler, at user level, also when the vCPU was stopped inside the guest;
    X0 is the signal, the link register the return trampoline, and with SA_SIGINFO
    X1 and X2 point to the siginfo and the context in the frame.  The frame is
    aligned to 16 bytes and lies wholly below the interrupted stack pointer, or
    inside the alternate stack when the action asks for it and the thread is not on
    it yet.  The mask is the old one with the action's mask and, unless
    SA_NODEFER, the signal itself, without SIGKILL and SIGSTOP; SA_RESETHAND puts
    the default action back. *)
Theorem delivery_enters_handler cur rand signum info v l m s :
  reachable s -> valid_signal signum -> 2 <= sa_handler (s_actions s).[signum - 1] -> vcpu_ok v -> here cur s -> rq_armed (l_restart l) = false -> l_rseq_gva l = 0 ->
  let o := deliver_signal_locked cur rand signum info v l m s in
  let act := (s_actions s).[signum - 1] in
  let sp := v_sp_el0 (o_v o) in
  o_ret o = 1 ->
  v_elr (o_v o) = sa_handler act /\ v_spsr (o_v o) = 0 /\ (preempted v = true -> v_pc (o_v o) = sa_handler act /\ v_cpsr (o_v o) = 0) /\
  (v_gprs (o_v o)).[0] = signum /\ (v_gprs (o_v o)).[30] = VDSO_BASE + VDSO_OFF_SIGRET /\
  (has (sa_flags act) LINUX_SA_SIGINFO = true -> (v_gprs (o_v o)).[1] = sp /\ (v_gprs (o_v o)).[2] = sp + SIGINFO_BYTES) /\
  sp mod 16 = 0 /\
  (if on_altstack cur act s then alt_base cur s <= sp /\ sp + FRAME_BYTES <= (alt_base cur s + alt_room cur s)%u64 else sp + FRAME_BYTES <= v_sp_el0 v) /\
  (forall k, 0 <= k < 64 -> Z.testbit (blocked_of (o_s o) cur) k =
     (Z.testbit (blocked_of s cur) k || (negb (has (sa_flags act) LINUX_SA_NODEFER) && (k =? signum - 1)) || Z.testbit (sa_mask act) k) && negb ((k =? 8) || (k =? 18))) /\
  (s_actions (o_s o)).[signum - 1] =
    (if has (sa_flags act) LINUX_SA_RESETHAND then mk_act LINUX_SIG_DFL (Z.land (sa_flags act) (not64 LINUX_SA_SIGINFO)) (sa_restorer act) (sa_mask act) else act).
Proof.
  intros R Sg Hh V Hc Ha Hq. apply reachable_ok in R as ([B _] & _). cbv zeta. destruct (deliver_push cur rand signum info v l m s Sg Hh Ha Hq) as (l1 & _ & _ & _ & ->). intros Ret.
  destruct (push_frame_spec _ _ _ _ _ _ _ _ _ _ _ _ _ _ Ret) as (sp & frame & fault & esr & _ & Eb & _ & _ & _ & _ & _ & _ & Ev & Es & _).
  set (o := push_frame _ _ _ _ _ _ _ _ _ _ _ _ _ _) in *. clearbody o. destruct (take_saved_same cur s B Hc) as (B1 & H1 & A1 & K1 & O1 & Ab & Ar). rewrite O1, Ab, Ar in *.
  set (act := (s_actions s).[signum - 1]) in *. destruct (handler_args signum sp act (preempted v) v (vo_len v V)) as (E1 & E2 & E3 & E4 & E5 & E6 & E7). rewrite <- Ev in *.
  set (top := if on_altstack cur act s then (alt_base cur s + alt_room cur s)%u64 else v_sp_el0 v) in *. assert (Ft : fits64 top) by (unfold top; case_if; [apply wrap64_fits|apply V]).
  destruct (sigframe_base_spec top FRAME_BYTES _ sp Ft ltac:(by unfold FRAME_BYTES) Eb) as (Al & P0 & Below & Floor). rewrite E1.
  assert (Es2 : (sp + SIGINFO_BYTES)%u64 = sp + SIGINFO_BYTES) by (unfold add64, wrap64; apply Z.mod_small; unfold fits64, SIGINFO_BYTES, FRAME_BYTES in *; lia). rewrite Es2 in E7.
  split_and!; try done; try apply E4.
  - unfold top in Below. destruct (on_altstack cur act s); lia.
  - intros k Bk. rewrite Es, enter_blocked, A1, K1 by done. done.
  - rewrite Es, enter_action, A1 by done. done.
Qed.
End Entry.

Lemma delivery_enters_handler_witness : v_elr (o_v ex_out) = 65536 /\ v_sp_el0 (o_v ex_out) mod 16 = 0.
Proof.
  pose proof (delivery_enters_handler (Some 0%nat) 77 10 (signal_default_info 7 1000 10) ex_cpu ex_local (zeros 9000) ex_armed ex_armed_reachable) as T.
  assert (Ret : o_ret ex_out = 1) by (vm_compute; reflexivity). assert (Hh : here (Some 0%nat) ex_armed) by (apply Nat.ltb_lt; vm_compute; reflexivity).
  unfold ex_out in *. cbv zeta in T. set (o := deliver_signal_locked _ _ _ _ _ _ _ _) in *.
  destruct T as (E & _ & _ & _ & _ & _ & A & _); [unfold valid_signal; lia|vm_compute; discriminate|apply ex_cpu_ok|exact Hh|reflexivity|reflexivity|exact Ret|].
  clearbody o. split; [exact E|exact A].
Defined.

(** ** Restarting a call *)

(** C24: An interrupted call that only has to make way for work of the process leader
    is restarted instead of failing: the program counter goes back onto the system
    call instruction and no register changes.  A delivery that then commits to a
    handler takes the restart back, and the guest state is exactly that of a call
    that returned -EINTR; once the guest has moved on there is nothing to take back.
    The re-executed instruction is recognised, by the address behind it and the
    number of the call, exactly once. *)
Theorem restart_cancel_undoes_arm leader x8 v l :
  let '(armed, v1, l1) := syscall_restart_try_arm leader x8 (- LINUX_EINTR) v l in
  fits64 (v_elr v) ->
  (armed = true <-> leader = true /\ rq_forbidden (l_restart l) = false /\ 4 <= v_elr v) /\
  if armed then
    v_elr v1 = v_elr v - 4 /\ v_gprs v1 = v_gprs v /\ write_result leader x8 (- LINUX_EINTR) v l = (v1, l1) /\
    (syscall_restart_cancel v1 l1).1 = set_gpr 0 (wrap64 (- LINUX_EINTR)) v /\
    (forall v2, v_elr v2 <> v_elr v1 -> (syscall_restart_cancel v2 l1).1 = v2) /\
    (forall nr v2, syscall_is_restarted (syscall_restart_note_entry nr v2 l1) = true <-> v_elr v2 = v_elr v /\ nr = x8) /\
    (forall nr v2 l2, l2 = syscall_restart_note_entry nr v2 l1 \/ l2 = (syscall_restart_cancel v2 l1).2 ->
       syscall_restart_cancel v2 l2 = (v2, l2) /\ forall nr' v3, syscall_is_restarted (syscall_restart_note_entry nr' v3 l2) = false)
  else v1 = v /\ l1 = l /\ write_result leader x8 (- LINUX_EINTR) v l = (set_gpr 0 (wrap64 (- LINUX_EINTR)) v, l).
Proof.
  unfold write_result, syscall_restart_try_arm. rewrite Z.eqb_refl. cbn [negb orb]. destruct (rq_forbidden (l_restart l)) eqn:Fb; cbn [orb]; [intros _; split; [split; [done|intros (_ & ? & _); done]|done]|].
  destruct leader; cbn [negb]; [|intros _; split; [split; [done|intros (? & _); done]|done]]. destruct (Z.ltb_spec (v_elr v) 4) as [L|L]; [intros _; split; [split; [done|intros (_ & _ & ?); lia]|done]|].
  cbn [syscall_restart_arm]. intros F. split; [done|]. assert (E : (v_elr v - 4)%u64 = v_elr v - 4) by (unfold sub64, wrap64; apply Z.mod_small; unfold fits64 in F; lia).
  unfold syscall_restart_cancel, syscall_restart_note_entry, syscall_is_restarted. cbn [set_elr v_elr v_gprs set_restart l_restart rq_armed rq_restarted rq_forbidden rq_elr_rewound rq_elr_after_svc rq_nr rq_result negb].
  rewrite Z.eqb_refl. cbn [negb fst]. split_and!; [exact E|done|done|by destruct v| | |].
  - intros v2 N. by rewrite (proj2 (Z.eqb_neq _ _) N).
  - intros nr v2. rewrite !andb_true_iff, !Z.eqb_eq. tauto.
  - intros nr v2 l2 El. assert (Ar : rq_armed (l_restart l2) = false) by (destruct El as [->| ->]; [done|by case_if]). rewrite Ar. cbn [negb andb]. done.
Qed.

Lemma restart_cancel_undoes_arm_witness :
  v_gprs (syscall_restart_cancel (syscall_restart_try_arm true 63 (- LINUX_EINTR) ex_cpu ex_local).1.2 (syscall_restart_try_arm true 63 (- LINUX_EINTR) ex_cpu ex_local).2).1 = (seqZ 100 31).[0 := wrap64 (- LINUX_EINTR)].
Proof.
  pose proof (restart_cancel_undoes_arm true 63 ex_cpu ex_local) as T. destruct (syscall_restart_try_arm true 63 (- LINUX_EINTR) ex_cpu ex_local) as [[armed v1] l1] eqn:E. cbn [fst snd].
  destruct (T ltac:(unfold fits64, two64; cbn; lia)) as [A R]. assert (Ar : armed = true) by (apply A; cbn; lia). rewrite Ar in R. destruct R as (_ & _ & _ & -> & _). reflexivity.
Defined.
