(* ===== verification/SigFdSpecs.v ===== *)
(** * signalfd: what was peeked is what is taken *)

From S2P Require Import Prelude Bits FutexWord SigQueue SigQueueFacts Signal SigFacts SigLife SigStep SigFrame SigFrameFacts SigDeliver SigSpecs.

(** The entries of a list that are of one set and one signal, in order. *)
Definition picks (n : nat) (signum : Z) (l : list (signal_rt_info_t * nat)) : list signal_rt_info_t :=
  (filter (fun x => x.2 = n /\ si_signum x.1 = signum) l).*1.

Definition queue_of (s : signals) (src : option nat) (signum : Z) : list signal_rt_info_t := queued (s_pid s) (s_uid s) (set_of s src) signum.

Lemma picks_app n signum l k : picks n signum (l ++ k) = picks n signum l ++ picks n signum k.
Proof. unfold picks. by rewrite list.filter_app, fmap_app. Qed.
Lemma picks_cons_in n signum e l : si_signum e = signum -> picks n signum ((e, n) :: l) = e :: picks n signum l.
Proof. intros E. unfold picks. by rewrite list.filter_cons, decide_True by done. Qed.
Lemma picks_cons_out n signum e m l : m <> n \/ si_signum e <> signum -> picks n signum ((e, m) :: l) = picks n signum l.
Proof. intros E. unfold picks. rewrite list.filter_cons, decide_False; [done|]. cbn. intros [? ?]. destruct E; congruence. Qed.

Lemma sets_distinct cur n m src : signalfd_sets cur !! n = Some src -> signalfd_sets cur !! m = Some src -> n = m.
Proof.
  apply NoDup_lookup. destruct cur as [i|]; [|apply NoDup_singleton]. apply list.NoDup_cons. split; [|apply NoDup_singleton]. by rewrite list_elem_of_singleton.
Qed.

(** A list of signals that the queues start with. *)
Definition matches (cur : option nat) (s : signals) (l : list (signal_rt_info_t * nat)) : Prop :=
  Forall (fun x => valid_signal (si_signum x.1) /\ (x.2 < length (signalfd_sets cur))%nat) l /\
  forall n src signum, signalfd_sets cur !! n = Some src -> valid_signal signum -> picks n signum l `prefix_of` queue_of s src signum.

(** One round takes the head of one queue and leaves the others. *)
Lemma take_one_picks cur want n s s1 : base_ok s -> take_signalfd_one cur want n s = Some s1 ->
  base_ok s1 /\ s_pid s1 = s_pid s /\ s_uid s1 = s_uid s /\
  forall m r signum, signalfd_sets cur !! m = Some r -> valid_signal signum -> queue_of s r signum = picks m signum [(want, n)] ++ queue_of s1 r signum.
Proof.
  intros B T. destruct (take_one_dequeue cur want n s s1 B T) as (src & Src & V & (q & Q) & E).
  pose proof (dequeue_dequeued src (si_signum want) s B V ltac:(apply (queued_bit (s_pid s) (s_uid s)); [by apply set_of_ok|done|]; by rewrite Q)) as D.
  rewrite <- E in D. destruct (dq_ids _ _ _ _ D) as [I1 I2]. cbn in I1, I2. split_and!; [apply (base_ext (refresh_pending_hint_locked s1)); try done; apply D|done|done|].
  intros m r signum Sm Vs. unfold queue_of. rewrite I1, I2. change (set_of s1 r) with (set_of (refresh_pending_hint_locked s1) r). destruct (decide (r = src)) as [->|Nr].
  - assert (m = n) as -> by (by eapply sets_distinct). destruct (dq_queue _ _ _ _ D) as (e & q' & Q' & _ & U & O). destruct (decide (signum = si_signum want)) as [->|Ns].
    + rewrite picks_cons_in, U by done. rewrite Q in *. cbn. by injection Q' as -> ->.
    + rewrite picks_cons_out, O by (done || by right). done.
  - rewrite (dq_others _ _ _ _ D r Nr), picks_cons_out; [done|]. left. intros ->. congruence.
Qed.

(** Whatever is asked for: what a read took is what left the queues. *)
Lemma take_loop_exact cur l : forall s c s', base_ok s -> take_signalfd_loop cur l s = (c, s') ->
  base_ok s' /\ s_pid s' = s_pid s /\ s_uid s' = s_uid s /\ (c <= length l)%nat /\
  forall n src signum, signalfd_sets cur !! n = Some src -> valid_signal signum -> queue_of s src signum = picks n signum (take c l) ++ queue_of s' src signum.
Proof.
  induction l as [|[want n] l IH]; intros s c s' B; cbn [take_signalfd_loop length]; [intros [= <- <-]; by split_and!|].
  destruct (take_signalfd_one cur want n s) as [s1|] eqn:T; [|intros [= <- <-]; split_and!; try done; lia]. destruct (take_signalfd_loop cur l s1) as [c1 s2] eqn:L. intros [= <- <-].
  destruct (take_one_picks cur want n s s1 B T) as (B1 & I1 & I2 & K). destruct (IH s1 c1 s2 B1 L) as (B2 & J1 & J2 & C & R).
  split_and!; [done|congruence|congruence|lia|]. intros m r signum Sm Vs. rewrite (K m r signum Sm Vs), (R m r signum Sm Vs). cbn [take].
  change ((want, n) :: take c1 l) with ([(want, n)] ++ take c1 l). by rewrite picks_app, app_assoc.
Qed.

Lemma take_loop_all cur l : forall s, base_ok s -> matches cur s l -> (take_signalfd_loop cur l s).1 = length l.
Proof.
  induction l as [|[want n] l IH]; intros s B [F P]; cbn [take_signalfd_loop length]; [done|]. apply Forall_cons_1 in F as [[V Bn] F]. cbn [fst snd] in V, Bn.
  destruct (lookup_lt_is_Some_2 _ _ Bn) as [src Src]. destruct (P n src (si_signum want) Src V) as [q Q]. rewrite picks_cons_in in Q by done. cbn in Q.
  destruct (take_one_takes cur want n src _ s B Src V Q) as [s1 T]. rewrite T. destruct (take_one_picks cur want n s s1 B T) as (B1 & _ & _ & K).
  destruct (take_signalfd_loop cur l s1) as [c s2] eqn:L. cbn [fst]. f_equal. replace c with (take_signalfd_loop cur l s1).1 by (by rewrite L). apply IH; [done|]. split; [done|].
  intros m r signum Sm Vs. destruct (P m r signum Sm Vs) as [t Pt]. rewrite (K m r signum Sm Vs) in Pt. change ((want, n) :: l) with ([(want, n)] ++ l) in Pt.
  rewrite picks_app, <- app_assoc in Pt. apply app_inv_head in Pt. by exists t.
Qed.

(** ** What a peek lists *)

Lemma peek_signal_queue s p signum : valid_signal signum -> Z.testbit (p_pending p) (signum - 1) = true -> peek_signal s p signum = queued (s_pid s) (s_uid s) p signum.
Proof.
  intros V T. unfold peek_signal, queued, LINUX_SIGRTMIN, RT_SIGQUEUE_MAX. destruct (Z.leb_spec 32 signum); [rewrite (proj2 (Z.ltb_ge signum 32)) by lia|by rewrite (proj2 (Z.ltb_lt signum 32)), T by lia].
  done.
Qed.

(** The signals of a set a reader sees: a shared one claimed by another thread is hidden. *)
Definition sees (s : signals) (cur : option nat) (src : option nat) (signum : Z) : Prop :=
  match src with Some _ => True | None => claimed_away s cur (signum - 1) = false end.

Definition seen (s : signals) (cur : option nat) (mask : Z) (src : option nat) (signum : Z) : bool :=
  has mask (sig_bit signum) && has (match src with Some _ => p_pending (set_of s src) | None => shared_visible_locked s cur end) (sig_bit signum).

Lemma seen_spec s cur mask src signum : base_ok s -> valid_signal signum ->
  seen s cur mask src signum = true <-> Z.testbit mask (signum - 1) = true /\ sees s cur src signum /\ Z.testbit (p_pending (set_of s src)) (signum - 1) = true.
Proof.
  intros B V. unfold seen. rewrite !has_sig by done. rewrite andb_true_iff. destruct src as [i|]; cbn [sees]; [naive_solver|].
  rewrite (proj2 (visible_spec s cur B)) by (unfold valid_signal in V; lia). cbn [set_of]. rewrite andb_true_iff, negb_true_iff. naive_solver.
Qed.

Lemma peek_set_named s cur mask src : base_ok s ->
  peek_set s cur mask src = concat ((fun signum => if seen s cur mask src signum then queue_of s src signum else []) <$> seqZ 1 LINUX_NSIG).
Proof.
  intros B. unfold peek_set. cbv zeta. f_equal. apply list_fmap_ext. intros i signum L. apply lookup_seqZ in L as [-> Bi]. unfold LINUX_NSIG in Bi.
  assert (V : valid_signal (1 + Z.of_nat i)) by (unfold valid_signal; lia). unfold queue_of. destruct (seen s cur mask src (1 + Z.of_nat i)) eqn:E; unfold seen in E; rewrite E; [|done].
  apply (seen_spec s cur mask src _ B V) in E as (_ & _ & T). by apply peek_signal_queue.
Qed.

Definition tag (n : nat) (l : list signal_rt_info_t) : list (signal_rt_info_t * nat) := (fun info => (info, n)) <$> l.

Lemma picks_tag n m signum l : picks n signum (tag m l) = if decide (m = n) then filter (fun e => si_signum e = signum) l else [].
Proof.
  unfold tag. induction l as [|e l IH]; [by case_decide|]. cbn [fmap list_fmap]. rewrite list.filter_cons. destruct (decide (m = n)) as [->|N].
  - case_decide as D; [by rewrite picks_cons_in, IH by done|]. by rewrite picks_cons_out, IH by (by right).
  - rewrite picks_cons_out by (by left). exact IH.
Qed.

Lemma filter_one signum r l : Forall (fun e => si_signum e = r) l -> filter (fun e => si_signum e = signum) l = if decide (signum = r) then l else [].
Proof.
  induction 1 as [|e l E F IH]; [by case_decide|]. rewrite list.filter_cons, IH, E. destruct (decide (signum = r)) as [->|N]; [by rewrite decide_True|].
  by rewrite decide_False by congruence.
Qed.

Lemma filter_named (f : Z -> list signal_rt_info_t) signum js : NoDup js -> (forall r, r ∈ js -> Forall (fun e => si_signum e = r) (f r)) ->
  filter (fun e => si_signum e = signum) (concat (f <$> js)) = if decide (signum ∈ js) then f signum else [].
Proof.
  induction js as [|j js IH]; intros N F; [by rewrite decide_False by apply not_elem_of_nil|]. apply list.NoDup_cons in N as [Nj N]. cbn [fmap list_fmap concat].
  rewrite list.filter_app, IH, (filter_one signum j) by (try done; try intros r Hr; apply F; by constructor). destruct (decide (signum = j)) as [->|Ne].
  - rewrite (decide_False (P := j ∈ js)), (decide_True (P := j ∈ j :: js)) by (done || left). apply app_nil_r.
  - destruct (decide (signum ∈ js)) as [I|I]; [by rewrite decide_True by (by right)|]. rewrite decide_False; [done|]. by intros [?|?]%elem_of_cons.
Qed.

Lemma queue_named s src signum : base_ok s -> valid_signal signum -> Forall (fun e => si_signum e = signum) (queue_of s src signum).
Proof. intros B V. by apply (so_named _ _ _ (set_of_ok s src B)). Qed.

Lemma elem_of_signals r : r ∈ seqZ 1 LINUX_NSIG <-> valid_signal r.
Proof. unfold LINUX_NSIG, valid_signal. rewrite elem_of_seqZ. lia. Qed.

Lemma peek_set_filter s cur mask src signum : base_ok s -> valid_signal signum ->
  filter (fun e => si_signum e = signum) (peek_set s cur mask src) = if seen s cur mask src signum then queue_of s src signum else [].
Proof.
  intros B V. rewrite peek_set_named, filter_named; [by rewrite decide_True by (by apply elem_of_signals)|apply NoDup_seqZ| |done].
  intros r Hr%elem_of_signals. case_if; [by apply queue_named|done].
Qed.

Lemma peek_set_in s cur mask src e : base_ok s -> e ∈ peek_set s cur mask src -> valid_signal (si_signum e) /\ seen s cur mask src (si_signum e) = true.
Proof.
  intros B. rewrite peek_set_named by done. rewrite list_elem_of_In, in_concat. intros (l & (r & -> & V%elem_of_signals)%list_elem_of_In%list_elem_of_fmap & I%list_elem_of_In).
  destruct (seen s cur mask src r) eqn:E; [|by apply not_elem_of_nil in I]. pose proof (queue_named s src r B V) as F. rewrite list.Forall_forall in F. by rewrite (F e I).
Qed.

(** Everything a reader could take. *)
Definition readable (s : signals) (cur : option nat) (mask : Z) : list (signal_rt_info_t * nat) :=
  concat (imap (fun n src => tag n (peek_set s cur mask src)) (signalfd_sets cur)).

Lemma readable_eq s cur mask : readable s cur mask =
  match cur with Some i => tag 0 (peek_set s cur mask (Some i)) ++ tag 1 (peek_set s cur mask None) | None => tag 0 (peek_set s cur mask None) end.
Proof. unfold readable. destruct cur as [i|]; cbn [signalfd_sets imap concat compose]; by rewrite app_nil_r. Qed.

Lemma picks_readable s cur mask n src signum : base_ok s -> signalfd_sets cur !! n = Some src -> valid_signal signum ->
  picks n signum (readable s cur mask) = if seen s cur mask src signum then queue_of s src signum else [].
Proof.
  intros B Sn V. rewrite <- (peek_set_filter s), readable_eq by done. destruct cur as [i|]; rewrite ?picks_app, !picks_tag.
  - destruct n as [|[|n]]; [injection Sn as <-|injection Sn as <-|apply lookup_lt_Some in Sn; cbn in Sn; lia]; [apply app_nil_r|done].
  - destruct n as [|n]; [by injection Sn as <-|apply lookup_lt_Some in Sn; cbn in Sn; lia].
Qed.

Lemma readable_in s cur mask e n : base_ok s -> (e, n) ∈ readable s cur mask ->
  valid_signal (si_signum e) /\ exists src, signalfd_sets cur !! n = Some src /\ seen s cur mask src (si_signum e) = true.
Proof.
  intros B. rewrite readable_eq. destruct cur as [i|]; [intros [I|I]%elem_of_app|intros I]; apply list_elem_of_fmap in I as (x & [= -> ->] & I); apply peek_set_in in I as [V S]; try done;
    (split; [done|]); eexists; (split; [|exact S]); done.
Qed.

Lemma picks_prefix n signum l k : l `prefix_of` k -> picks n signum l `prefix_of` picks n signum k.
Proof. intros [t ->]. rewrite picks_app. by exists (picks n signum t). Qed.

Lemma readable_matches s cur mask l : base_ok s -> l `prefix_of` readable s cur mask -> matches cur s l.
Proof.
  intros B P. split.
  - apply list.Forall_forall. intros [e n] I. cbn [fst snd]. destruct (readable_in s cur mask e n B) as [V (src & Sn & _)]; [|split; [done|by eapply lookup_lt_Some]].
    destruct P as [t ->]. apply elem_of_app. by left.
  - intros n src signum Sn V. etransitivity; [by apply picks_prefix|]. rewrite (picks_readable s cur mask n src) by done. case_if; [done|]. apply prefix_nil.
Qed.

(** ** A read of a signalfd *)

Lemma peek_eq s cur mask max : signal_peek_signalfd s cur mask max = take max (readable s cur mask).
Proof. done. Qed.

Lemma peek_complete s cur mask max n src signum : base_ok s -> signalfd_sets cur !! n = Some src -> valid_signal signum ->
  (length (signal_peek_signalfd s cur mask max) < max)%nat -> Z.testbit mask (signum - 1) = true -> sees s cur src signum ->
  picks n signum (signal_peek_signalfd s cur mask max) = queue_of s src signum.
Proof.
  intros B Sn V L M S. rewrite peek_eq, length_take in L. rewrite peek_eq, take_ge, (picks_readable s cur mask n src) by (done || lia).
  destruct (seen s cur mask src signum) eqn:E; [done|]. symmetry. apply dec_stable. intros Q. apply (queued_bit _ _ _ _ (set_of_ok s src B) V) in Q.
  assert (seen s cur mask src signum = true) by (by apply seen_spec). congruence.
Qed.

Lemma take_exact_eq cur l s : signal_take_signalfd_exact cur l s = ((take_signalfd_loop cur l s).1, refresh_pending_hint_locked (take_signalfd_loop cur l s).2).
Proof. unfold signal_take_signalfd_exact. by destruct (take_signalfd_loop cur l s). Qed.

(** C18: A signalfd read looks at the queues first, copies to the guest, and takes
    afterwards. The look reports at most as many signals as it is asked for, only
    those of the mask, and of every queue a prefix, in order; when it reports fewer
    than it could, it has reported every queue of the mask in full, but for the
    shared signals another thread has claimed. If nothing happened in between,
    exactly what was reported is taken. And whatever happened in between, a take
    of any list removes from each queue exactly the entries it counts, from the
    front: no signal leaves a queue without having been reported. *)
Theorem signalfd_takes_what_it_reports s cur mask max : reachable s ->
  let l := signal_peek_signalfd s cur mask max in
  (length l <= max)%nat /\
  (forall e n, (e, n) ∈ l -> Z.testbit mask (si_signum e - 1) = true) /\
  (forall n src signum, signalfd_sets cur !! n = Some src -> valid_signal signum -> picks n signum l `prefix_of` queue_of s src signum /\
     ((length l < max)%nat -> Z.testbit mask (signum - 1) = true -> sees s cur src signum -> picks n signum l = queue_of s src signum)) /\
  (signal_take_signalfd_exact cur l s).1 = length l /\
  (forall expected c s', signal_take_signalfd_exact cur expected s = (c, s') -> (c <= length expected)%nat /\
     forall n src signum, signalfd_sets cur !! n = Some src -> valid_signal signum -> queue_of s src signum = picks n signum (take c expected) ++ queue_of s' src signum).
Proof.
  intros R. apply reachable_ok in R as ([B _] & _). cbv zeta. assert (P : signal_peek_signalfd s cur mask max `prefix_of` readable s cur mask).
  { rewrite peek_eq. exists (drop max (readable s cur mask)). symmetry. apply take_drop. }
  pose proof (readable_matches s cur mask _ B P) as M. split_and!.
  - rewrite peek_eq, length_take. lia.
  - intros e n I. destruct P as [t P]. destruct (readable_in s cur mask e n B) as [V (src & _ & S)]; [rewrite P; apply elem_of_app; by left|].
    by apply (seen_spec s cur mask src _ B V) in S as [? _].
  - intros n src signum Sn V. split; [by apply M|]. by apply peek_complete.
  - rewrite take_exact_eq. by apply take_loop_all.
  - intros expected c s'. rewrite take_exact_eq. destruct (take_signalfd_loop cur expected s) as [c1 s1] eqn:L. intros [= <- <-].
    destruct (take_loop_exact cur expected s c1 s1 B L) as (_ & I1 & I2 & C & Q). split; [done|]. exact Q.
Qed.

Lemma signalfd_takes_what_it_reports_witness :
  length (signal_peek_signalfd ex_state None 512 4) = 1%nat /\ (signal_take_signalfd_exact None (signal_peek_signalfd ex_state None 512 4) ex_state).1 = 1%nat.
Proof.
  destruct (signalfd_takes_what_it_reports ex_state None 512 4 ex_state_reachable) as (_ & _ & _ & T & _). assert (L : length (signal_peek_signalfd ex_state None 512 4) = 1%nat) by (vm_compute; reflexivity).
  split; [exact L|]. exact (eq_trans T L).
Defined.
