(* ===== verification/SigWait.v ===== *)
(** * Waiting for signals: rt_sigsuspend and rt_sigtimedwait (src/syscall/signal.c)

    A call that waits is a place in its loop; each step runs one critical section, or
    what the thread does between two of them, and other threads run between the
    steps.  What the step reads from outside, the clocks and thread_stop_requested,
    are its arguments. *)

From S2P Require Import Prelude Bits FutexWord SigQueue Signal SigFrame.

(** ** rt_sigsuspend *)

(** At the head of the loop, before the claim, after the loop, and back in the guest. *)
Inductive suspend_pc :=
  | SuspendTest (saved : Z)
  | SuspendClaim (saved : Z)
  | SuspendLeave (saved : Z) (woke : bool)
  | SuspendReturned (woke : bool).

(** The call up to the loop: the result if there is no wait. *)
Definition sigsuspend_start {M} `{GuestBytes M} (cur : option nat) (mask_gva sigsetsize : Z) (m : M) (s : signals) : Z + suspend_pc * signals :=
  if negb (sigsetsize =? 8) then inl (- LINUX_EINVAL)
  else if mask_gva =? 0 then inl (- LINUX_EINTR)
  else
    let '(b, ok) := gb_read m mask_gva 8 in
    if negb ok then inl (- LINUX_EFAULT)
    else let '(saved_blocked, s) := suspend_begin cur (field 0 8 b) s in inr (SuspendTest saved_blocked, s).

Definition sigsuspend_step (cur : option nat) (stop : bool) (chk : nat -> Z) (now : timeval) (x : suspend_pc * signals) : suspend_pc * signals :=
  let '(pc, s) := x in
  match pc with
  | SuspendTest saved_blocked =>
      if stop then (SuspendLeave saved_blocked false, s) else (SuspendClaim saved_blocked, signal_check_timers cur true chk now s)
  | SuspendClaim saved_blocked =>
      let '(signum, s) := signal_claim_waking_locked cur (blocked_of s cur) s in
      (if signum =? 0 then SuspendTest saved_blocked else SuspendLeave saved_blocked true, s)
  | SuspendLeave saved_blocked woke => (SuspendReturned woke, suspend_end cur saved_blocked woke s)
  | SuspendReturned _ => x
  end.

(** ** The wakeup counter (src/syscall/wakeup-pipe.c) *)

(** wakeup_pipe_signal is the event [Ring]; the counter counts them. *)
Definition is_ring (e : event) : bool := match e with Ring => true | _ => false end.
Definition rings (s : signals) : Z := Z.of_nat (length (List.filter is_ring (s_events s))).
Definition wakeup_counter (s : signals) : Z := wrap64 (rings s).

(** Whether wakeup_wait_ns parks the thread. *)
Definition wakeup_wait_parks (max_ns seen_counter : Z) (s : signals) : bool := (0 <? max_ns) && (wakeup_counter s =? seen_counter).

(** ** rt_sigtimedwait *)

Definition SIGWAIT_IDLE_NS : Z := 1000000000.
Definition SIGWAIT_WAITING_NS : Z := 1000000.

(** How long the thread parks: until the timeout, the next expiry of a timer whose
    signal is not queued yet, or one second. [now] is the reading of the clock of a
    timer, [now_tv] that of the interval timer. *)
Definition sleep_round (now : nat -> Z) (sleep_ns : Z) (x : nat * guest_posix_timer_t) : Z :=
  let '(i, timer) := x in
  if negb (pt_used timer) || (pt_signum timer =? 0) then sleep_ns
  else
    let sleep_ns := if bool_decide (pt_notification timer = POSIX_TIMER_WAITING) && (SIGWAIT_WAITING_NS <? sleep_ns) then SIGWAIT_WAITING_NS else sleep_ns in
    if (pt_expiry timer =? 0) || bool_decide (pt_notification timer = POSIX_TIMER_QUEUED) then sleep_ns
    else
      let until := if now i <? pt_expiry timer then pt_expiry timer - now i else 0 in
      if until <? sleep_ns then until else sleep_ns.

Definition itimer_sleep (cur : option nat) (now_tv : timeval) (s : signals) (sleep_ns : Z) : Z :=
  if it_active (s_real s) && negb (has (self_pending_locked s cur) (sig_bit LINUX_SIGALRM)) then
    let until :=
      if 0 <? timeval_cmp (it_expiry (s_real s)) now_tv then
        let d := timeval_sub (it_expiry (s_real s)) now_tv in
        if sleep_ns ÷ NSEC_PER_SEC <? tv_seconds d then sleep_ns else tv_seconds d * NSEC_PER_SEC + tv_usec d * 1000
      else 0 in
    if until <? sleep_ns then until else sleep_ns
  else sleep_ns.

Definition sigwait_sleep_ns (cur : option nat) (has_timeout : bool) (remaining_ns : Z) (now : nat -> Z) (now_tv : timeval) (s : signals) : Z :=
  let sleep_ns := if has_timeout && (remaining_ns <? SIGWAIT_IDLE_NS) then remaining_ns else SIGWAIT_IDLE_NS in
  let sleep_ns := foldl (sleep_round now) sleep_ns (imap pair (pts_slots (s_timers s))) in
  itimer_sleep cur now_tv s sleep_ns.

Record wait_call := mk_wait { wc_mask : Z; wc_info_gva : Z; wc_has_timeout : bool; wc_timeout_ns : Z }.

(** [counter] is the wakeup counter as it was read at the head of the loop. *)
Inductive wait_pc :=
  | WaitTop (remaining_ns : Z)
  | WaitCheck (remaining_ns counter : Z)
  | WaitDequeue (remaining_ns counter : Z)
  | WaitTests (remaining_ns counter : Z)
  | WaitClaim (remaining_ns counter : Z)
  | WaitPark (sleep_ns counter : Z)
  | WaitLeave (ret : Z)
  | WaitReturned (ret : Z).

Section Timedwait.
Context {M : Type} `{GuestBytes M}.

Record wait_state := mk_ws { ws_pc : wait_pc; ws_l : local_t; ws_m : M; ws_s : signals }.

Definition sigtimedwait_start (set_gva info_gva timeout_gva sigsetsize : Z) (l : local_t) (m : M) (s : signals) : Z + wait_call * wait_state :=
  if negb (sigsetsize =? 8) then inl (- LINUX_EINVAL)
  else if set_gva =? 0 then inl (- LINUX_EFAULT)
  else
    let '(b, ok) := gb_read m set_gva 8 in
    if negb ok then inl (- LINUX_EFAULT)
    else
      let mask := Z.land (field 0 8 b) (not64 unmaskable) in
      let has_timeout := negb (timeout_gva =? 0) in
      let enter remaining_ns :=
        inr (mk_wait mask info_gva has_timeout remaining_ns, mk_ws (WaitTop remaining_ns) l m (set_parked (s_parked s + 1) s)) in
      if has_timeout then
        let '(b, ok) := gb_read m timeout_gva 16 in
        if negb ok then inl (- LINUX_EFAULT)
        else
          let sec := to_int64 (field 0 8 b) in
          let nsec := to_int64 (field 8 8 b) in
          if negb (timespec_valid sec nsec) then inl (- LINUX_EINVAL) else enter (timespec_to_ns_sat sec nsec)
      else enter 0.

(** The siginfo the caller sees. *)
Definition wait_siginfo (signum : Z) (info : signal_rt_info_t) : linux_siginfo_t :=
  mk_siginfo signum (si_code info) (si_pid info) (to_int32 (si_uid info)) (si_ptr info).

(** A wait with a timeout is not restarted: time has been spent. *)
Definition wait_interrupted (call : wait_call) (l : local_t) : local_t := if wc_has_timeout call then syscall_restart_forbid l else l.

(** [elapsed] is the time since the start of the call.  The park ends with the step that
    leaves it; the condition variable may do so at any time. *)
Definition sigtimedwait_step (cur : option nat) (call : wait_call) (stop : bool) (chk now : nat -> Z) (now_tv : timeval) (elapsed : Z) (x : wait_state) : wait_state :=
  let '(mk_ws pc l m s) := x in
  match pc with
  | WaitTop r => mk_ws (WaitCheck r (wakeup_counter s)) l m s
  | WaitCheck r c => mk_ws (WaitDequeue r c) l m (signal_check_timers cur false chk now_tv s)
  | WaitDequeue r c =>
      match sigtimedwait_try_dequeue cur (wc_mask call) s with
      | (Some (signum, info), s) =>
          if negb (wc_info_gva call =? 0) then
            let '(m, ok) := gb_write m (wc_info_gva call) (siginfo_bytes (wait_siginfo signum info)) in
            mk_ws (WaitLeave (if ok then signum else - LINUX_EFAULT)) l m s
          else mk_ws (WaitLeave signum) l m s
      | (None, s) => mk_ws (WaitTests r c) l m s
      end
  | WaitTests r c =>
      if wc_has_timeout call && (r <=? 0) then mk_ws (WaitLeave (- LINUX_EAGAIN)) l m s
      else if stop then mk_ws (WaitLeave (- LINUX_EINTR)) (wait_interrupted call l) m s
      else mk_ws (WaitClaim r c) l m s
  | WaitClaim r c =>
      let '(signum, s) := signal_claim_waking_locked cur (Z.lor (blocked_of s cur) (wc_mask call)) s in
      if negb (signum =? 0) then mk_ws (WaitLeave (- LINUX_EINTR)) (wait_interrupted call l) m s
      else mk_ws (WaitPark (sigwait_sleep_ns cur (wc_has_timeout call) r now now_tv s) c) l m s
  | WaitPark _ _ => mk_ws (WaitTop (if wc_has_timeout call then wc_timeout_ns call - elapsed else 0)) l m s
  | WaitLeave ret => mk_ws (WaitReturned ret) l m (set_parked (s_parked s - 1) s)
  | WaitReturned _ => x
  end.

End Timedwait.
Arguments wait_state : clear implicits.
