(* ===== verification/SigWake.v ===== *)
(** * Whoever queues a signal wakes the threads that wait for one

    Every step that makes a signal pending rings the wakeup pipe if a thread is parked
    in rt_sigtimedwait. *)

From stdpp Require Import relations.
From S2P Require Import Prelude Bits FutexWord SigQueue SigQueueFacts Signal SigFacts SigLife SigStep SigFrame SigFrameFacts SigDeliver SigSpecs SigClaim SigWait.
#[local] Open Scope Z_scope.

(** Since [s] the pipe has been rung, or nothing new is pending for thread [t]. *)
Record hears (t : nat) (s s' : signals) : Prop := {
  hr_rings : rings s <= rings s';
  hr_shared : rings s' = rings s -> forall k, Z.testbit (p_pending (s_shared s')) k = true -> Z.testbit (p_pending (s_shared s)) k = true;
  hr_own : rings s' = rings s -> forall k, Z.testbit (own_pending s' (Some t)) k = true -> Z.testbit (own_pending s (Some t)) k = true
}.

#[export] Instance hears_preorder t : PreOrder (hears t).
Proof.
  split; [intros s; split; [lia|done|done]|]. intros s1 s2 s3 [A1 A2 A3] [B1 B2 B3]. split; [lia|intros E k T; apply A2; [lia|]; apply B2; [lia|done]|intros E k T; apply A3; [lia|]; apply B3; [lia|done]].
Qed.

Lemma rings_emit e s : rings (emit e s) = rings s + Z.of_nat (length (List.filter is_ring e)).
Proof. unfold rings. cbn [emit s_events]. rewrite List.filter_app, length_app. lia. Qed.

(** Steps that touch neither queues nor events. *)
Lemma hears_same t s s' : s_events s' = s_events s -> p_pending (s_shared s') = p_pending (s_shared s) -> own_pending s' (Some t) = own_pending s (Some t) -> hears t s s'.
Proof. intros E1 E2 E3. split; unfold rings; rewrite ?E1, ?E2, ?E3; done || lia. Qed.

Lemma hears_emit t e s : hears t s (emit e s).
Proof. split; [rewrite rings_emit; lia|done|done]. Qed.

(** A ring settles it. *)
Lemma hears_rung t s s' : rings s < rings s' -> hears t s s'.
Proof. intros L. split; lia. Qed.

Lemma ring_parked_rings s : 0 < s_parked s -> rings (ring_parked s) = rings s + 1.
Proof. intros P. unfold ring_parked. rewrite (proj2 (Z.ltb_lt _ _) P). by rewrite rings_emit. Qed.

Lemma hears_ring t s : hears t s (ring_parked s).
Proof. unfold ring_parked. case_if; [apply hears_emit|done]. Qed.

Lemma attention_rings cur s : rings s < rings (attention_raise cur s).
Proof. unfold attention_raise. rewrite rings_emit. cbn [app List.filter is_ring length]. lia. Qed.

Lemma notify_rings signum s : 0 < s_parked s -> rings (signal_notify_waiters signum s) = rings s + 1.
Proof. intros P. unfold signal_notify_waiters. rewrite ring_parked_rings by done. rewrite rings_emit. cbn. lia. Qed.

Lemma hears_queue t cur signum info s : 0 < s_parked s -> hears t s (signal_queue_shared cur signum info s).
Proof.
  intros P. unfold signal_queue_shared. case_if; [done|]. apply hears_rung. set (s1 := refresh_pending_hint_locked _). pose proof (notify_rings signum s1 P) as N. change (rings s1) with (rings s) in N.
  case_if; [|lia]. pose proof (attention_rings cur (signal_notify_waiters signum s1)). lia.
Qed.

Lemma hears_queue_thread t cur tid signum info s : 0 < s_parked s -> hears t s (signal_queue_thread_common cur tid signum info s).2.
Proof.
  intros P. unfold signal_queue_thread_common. case_if; [done|]. destruct (thread_find_locked s tid) as [i|]; [|done]. cbn [snd]. apply hears_rung. set (s1 := refresh_pending_hint_locked _).
  pose proof (notify_rings signum s1 P) as N. change (rings s1) with (rings s) in N. case_if; [|lia]. pose proof (attention_rings cur (signal_notify_waiters signum s1)). lia.
Qed.

Lemma hears_upd t i f s : (forall th, p_pending (th_pending (f th)) = p_pending (th_pending th)) -> hears t s (upd_thread i f s).
Proof. intros F. apply hears_same; [done|done|]. cbn [own_pending]. destruct (upd_thread_cases i f s t) as [->|(_ & _ & ->)]; [done|]. by rewrite F. Qed.
Lemma hears_blocked t cur w s : hears t s (store_blocked cur w s).
Proof. destruct cur as [i|]; [by apply hears_upd|by apply hears_same]. Qed.
Lemma hears_saved t cur w b s : hears t s (store_saved cur w b s).
Proof. destruct cur as [i|]; [by apply hears_upd|by apply hears_same]. Qed.

Lemma hears_claim t cur blocked s : hears t s (signal_claim_waking_locked cur blocked s).2.
Proof. unfold signal_claim_waking_locked. cbv zeta. case_if; [done|]. case_if; [by apply hears_same|done]. Qed.

Lemma hears_release t cur u s : hears t s (signal_release_claims cur u s).
Proof.
  unfold signal_release_claims, signal_release_claims_locked. generalize (set_bits (s_claimed s)). intros l.
  assert (G : forall s b, hears t s (foldl (fun '(s, released) idx => if bool_decide ((s_owner s).[idx] = Some u) then (shared_claim_release_locked (idx + 1) s, true) else (s, released)) (s, b) l).1).
  { induction l as [|j l IH]; intros s1 b; cbn [foldl]; [done|]. case_bool_decide; [|apply IH]. etransitivity; [|apply IH]. by apply hears_same. }
  specialize (G s false). destruct (foldl _ _ l) as [s1 []]; [|done]. etransitivity; [exact G|apply hears_emit].
Qed.

Lemma hears_handlers t cur s : (forall signum alt, hears t s (enter_handler cur signum alt s)) /\ (forall signum, hears t s (force_fault cur signum s)) /\ (forall mask sp, hears t s (leave_handler cur mask sp s)).
Proof.
  split_and!.
  - intros signum alt. unfold enter_handler. cbv zeta. set (nb := Z.land _ _). etransitivity; [apply (hears_blocked t cur nb s)|]. set (s1 := store_blocked cur nb s). clearbody s1.
    set (s2 := match cur with Some i => _ | None => s1 end). transitivity s2; [unfold s2; destruct cur as [u|]; [|done]; case_if; [by apply hears_upd|done]|case_if; [by apply hears_same|done]].
  - intros signum. unfold force_fault. repeat case_if; [done| |done]. etransitivity; [|apply hears_blocked]. by apply hears_same.
  - intros mask sp. unfold leave_handler. etransitivity; [apply (hears_blocked t cur (Z.land mask (not64 unmaskable)) s)|]. destruct cur as [u|]; [by apply hears_upd|done].
Qed.

(** ** Taking *)

Lemma dequeued_shrinks src signum s s' : base_ok s -> valid_signal signum -> dequeued src signum s s' ->
  forall src' k, Z.testbit (p_pending (set_of s' src')) k = true -> Z.testbit (p_pending (set_of s src')) k = true.
Proof.
  intros B V D src' k T. destruct (decide (src' = src)) as [->|N]; [|by rewrite <- (dq_others _ _ _ _ D src' N)]. destruct (dq_queue _ _ _ _ D) as (e & q & Q & O' & U & Ot).
  assert (Bk : 0 <= k < 64).
  { split; [destruct (Z.lt_ge_cases k 0); [by rewrite Z.testbit_neg_r in T by done|done]|]. destruct (Z.lt_ge_cases k 64); [done|].
    rewrite (fits64_testbit_high (p_pending (set_of s' src))) in T; [done|by apply (so_fits _ _ _ O')|done]. }
  assert (Vk : valid_signal (k + 1)) by (unfold valid_signal; lia). replace k with (k + 1 - 1) in T |- * by lia.
  rewrite (pending_queued (s_pid s) (s_uid s) _ _ O' Vk) in T. rewrite (pending_queued (s_pid s) (s_uid s) _ _ (set_of_ok s src B) Vk). destruct (decide (k + 1 = signum)) as [E|E].
  - rewrite E, Q. by apply bool_decide_eq_true.
  - by rewrite (Ot (k + 1) Vk E) in T.
Qed.

Lemma dequeue_rings src signum s : rings s <= rings (dequeue_locked src signum s).2.
Proof.
  unfold dequeue_locked. destruct (take_locked _ _ _ _ _) as [[[info p] timers] ended]. cbn [snd]. set (s1 := if ended then _ else _).
  assert (L : rings s <= rings s1) by (unfold s1; destruct ended; [apply (hr_rings 0 (set_slots timers s)), hears_ring|reflexivity]). clearbody s1. destruct src; exact L.
Qed.

Lemma hears_dequeue t src signum s : base_ok s -> valid_signal signum -> Z.testbit (p_pending (set_of s src)) (signum - 1) = true -> hears t s (dequeue_locked src signum s).2.
Proof.
  intros B V T. pose proof (dequeued_shrinks src signum s _ B V (dequeue_dequeued src signum s B V T)) as Sh. split; [apply dequeue_rings| |]; intros _ k; [apply (Sh None)|apply (Sh (Some t))].
Qed.

(** ** Timers *)

(** What the locked part of a check leaves alone. *)
Definition still (s s' : signals) : Prop := s_events s' = s_events s /\ s_parked s' = s_parked s /\ s_threads s' = s_threads s.
#[local] Instance still_preorder : PreOrder still.
Proof. split; [by intros s|]. intros s1 s2 s3 (A1 & A2 & A3) (B1 & B2 & B3). unfold still. split_and!; congruence. Qed.

Lemma check_slot_still now s w i : still s (check_slot now (s, w) i).1 /\ p_pending (s_shared (check_slot now (s, w) i).1) = p_pending (s_shared s).
Proof.
  unfold check_slot. case_if; [done|]. destruct (posix_timer_advance_locked _ _) as [count u]. destruct (pt_notification _); [done|done|]. split; [done|].
  cbn [fst set_shared s_shared]. unfold posix_timer_update_pending_locked. by case_if.
Qed.

Lemma check_slots_still now l : forall s w, still s (foldl (check_slot now) (s, w) l).1 /\ p_pending (s_shared (foldl (check_slot now) (s, w) l).1) = p_pending (s_shared s).
Proof.
  induction l as [|i l IH]; intros s w; cbn [foldl]; [done|]. destruct (check_slot_still now s w i) as [S1 P1]. destruct (check_slot now (s, w) i) as [s1 w1]. cbn [fst] in *.
  destruct (IH s1 w1) as [S2 P2]. split; [by transitivity s1|congruence].
Qed.

Lemma enqueue_round_still signum start s q st offset : let '(s', q', _) := enqueue_waiting_round signum start (s, q, st) offset in
  still s s' /\ (q' = false -> q = false /\ s_shared s' = s_shared s).
Proof. unfold enqueue_waiting_round. destruct st; [done|]. case_if; [done|]. by case_if. Qed.

Lemma enqueue_waiting_still signum s : let '(q, s') := posix_timer_enqueue_waiting_locked signum s in still s s' /\ (q = false -> s_shared s' = s_shared s).
Proof.
  unfold posix_timer_enqueue_waiting_locked. set (start := _.[signum - 1]). clearbody start. generalize (seqZ 0 POSIX_TIMER_MAX) as l. intros l.
  assert (G : forall s q st, let '(s', q', _) := foldl (enqueue_waiting_round signum start) (s, q, st) l in still s s' /\ (q' = false -> q = false /\ s_shared s' = s_shared s)).
  { clear s. induction l as [|x l IH]; intros s q st; cbn [foldl]; [done|]. pose proof (enqueue_round_still signum start s q st x) as E.
    destruct (enqueue_waiting_round signum start (s, q, st) x) as [[s1 q1] st1]. specialize (IH s1 q1 st1). destruct (foldl _ (s1, q1, st1) l) as [[s2 q2] st2].
    destruct E as [E1 E2], IH as [I1 I2]. split; [by transitivity s1|]. intros ->. destruct (I2 eq_refl) as [-> ->]. by apply E2. }
  specialize (G s false false). destruct (foldl _ _ l) as [[s1 q1] st1]. destruct G as [G1 G2]. split; [done|]. intros ->. by apply G2.
Qed.

Lemma sig_bit_nonzero signum : valid_signal signum -> sig_bit signum <> 0.
Proof. intros V E. pose proof (has_sig (sig_bit signum) signum V) as H. rewrite E in H. unfold has in H. rewrite Z.bits_0, Z.land_0_l in H. pose proof (has_sig (-1) signum V) as H2. rewrite E, Z.bits_m1 in H2 by (unfold valid_signal in V; lia). done. Qed.

Lemma queue_rounds_still l : Forall (fun j => 0 <= j < 64) l -> forall s w,
  still s (foldl queue_round (s, w) l).1 /\ ((foldl queue_round (s, w) l).2 = 0 -> w = 0 /\ s_shared (foldl queue_round (s, w) l).1 = s_shared s).
Proof.
  induction l as [|j l IH]; intros F s w; cbn [foldl]; [done|]. apply Forall_cons_1 in F as [Bj F]. unfold queue_round at 2 4 6. pose proof (enqueue_waiting_still (j + 1) s) as E.
  destruct (posix_timer_enqueue_waiting_locked (j + 1) s) as [q s1]. destruct E as [E1 E2]. destruct (IH F s1 (if q then Z.lor w (sig_bit (j + 1)) else w)) as [I1 I2].
  split; [by transitivity s1|]. intros N. destruct (I2 N) as [W ->]. destruct q; [|auto]. apply Z.lor_eq_0_iff in W as [_ W]. by apply sig_bit_nonzero in W; [|unfold valid_signal; lia].
Qed.

Lemma notify_fold_rings l : forall s, rings s <= rings (foldl (fun s bit => signal_notify_waiters (bit + 1) s) s l).
Proof.
  induction l as [|b l IH]; intros s; cbn [foldl]; [reflexivity|]. etransitivity; [|apply IH]. unfold signal_notify_waiters. etransitivity; [|apply (hr_rings 0 _ _ (hears_ring 0 _))].
  rewrite rings_emit. lia.
Qed.

Lemma check_locked_still now s : (forall i, clock (now i)) -> all_ok s ->
  still s (posix_timer_check_locked now s).1 /\ ((posix_timer_check_locked now s).2 = 0 -> p_pending (s_shared (posix_timer_check_locked now s).1) = p_pending (s_shared s)).
Proof.
  intros C O. unfold posix_timer_check_locked. destruct (check_slots_ok now (seq 0 64) C) with (s := s) (w := 0) as [_ F1]; [|split; apply O|done|].
  { apply list.Forall_forall. intros i X. apply elem_of_seq in X. lia. }
  destruct (check_slots_still now (seq 0 64) s 0) as [S1 P1]. destruct (foldl (check_slot now) _ _) as [s1 waiting]. cbn [fst snd] in *.
  destruct (queue_rounds_still (set_bits waiting)) with (s := s1) (w := 0) as [S2 P2]; [apply list.Forall_forall; intros j X; by apply elem_of_set_bits in X as [? _]|].
  destruct (foldl queue_round _ _) as [s2 notify]. cbn [fst snd] in *. split; [transitivity s1; [done|]; by transitivity s2|]. intros N. destruct (P2 N) as [_ E]. cbn. congruence.
Qed.

Lemma hears_timer_check t cur now s : (forall i, clock (now i)) -> all_ok s -> hears t s (posix_timer_check cur now s).
Proof.
  intros C O. unfold posix_timer_check. case_if; [done|]. destruct (check_locked_still now s C O) as [(S1 & S2 & S3) P]. destruct (posix_timer_check_locked now s) as [s1 notify]. cbn [fst snd] in *.
  pose proof (notify_fold_rings (set_bits notify) s1) as L. destruct (Z.eqb_spec notify 0) as [->|N]; cbn [negb].
  - apply hears_same; [exact S1|exact (P eq_refl)|]. cbn [own_pending]. unfold thread_at. change (set_bits 0) with (@nil Z). cbn [foldl]. by rewrite S3.
  - apply hears_rung. assert (E : rings s1 = rings s) by (unfold rings; by rewrite S1). pose proof (attention_rings cur (foldl (fun s bit => signal_notify_waiters (bit + 1) s) s1 (set_bits notify))). lia.
Qed.

Lemma timer_check_parked cur now s : (forall i, clock (now i)) -> all_ok s -> s_parked (posix_timer_check cur now s) = s_parked s.
Proof.
  intros C O. unfold posix_timer_check. case_if; [done|]. destruct (check_locked_still now s C O) as [(S1 & S2 & S3) P]. destruct (posix_timer_check_locked now s) as [s1 notify]. cbn [fst snd] in *.
  rewrite <- S2. set (s2 := foldl _ s1 _). assert (E : s_parked s2 = s_parked s1).
  { unfold s2. generalize (set_bits notify) s1. intros l. induction l as [|b l IH]; intros s3; cbn [foldl]; [done|]. rewrite IH. unfold signal_notify_waiters, ring_parked. by case_if. }
  by case_if.
Qed.

Lemma queue_parked cur signum info s : s_parked (signal_queue_shared cur signum info s) = s_parked s.
Proof. unfold signal_queue_shared. case_if; [done|]. unfold signal_notify_waiters, ring_parked. by repeat case_if. Qed.

Lemma hears_check_timers t cur cpu chk now s : (forall i, clock (chk i)) -> all_ok s -> 0 < s_parked s -> hears t s (signal_check_timers cur cpu chk now s).
Proof.
  intros C O P. unfold signal_check_timers. etransitivity; [by apply (hears_timer_check t cur chk s)|]. rewrite <- (timer_check_parked cur chk s C O) in P. set (s1 := posix_timer_check cur chk s) in *. clearbody s1.
  case_if; [done|]. unfold check_itimers_locked. destruct (check_one_timer (s_real s1) now) as [real r]. destruct (if cpu then _ else _) as [virt v]. destruct (if cpu then check_one_timer (s_prof s1) now else _) as [prof q].
  set (fired := _ ++ _). clearbody fired. transitivity (set_itimers r v q s1); [by apply hears_same|]. revert P. change (s_parked s1) with (s_parked (set_itimers r v q s1)). generalize (set_itimers r v q s1).
  induction fired as [|x l IH]; intros s2 P; cbn [foldl]; [done|]. transitivity (signal_queue cur x s2); [by apply hears_queue|apply IH]. unfold signal_queue. by rewrite queue_parked.
Qed.

Lemma check_timers_parked cur cpu chk now s : (forall i, clock (chk i)) -> all_ok s -> s_parked (signal_check_timers cur cpu chk now s) = s_parked s.
Proof.
  intros C O. unfold signal_check_timers. rewrite <- (timer_check_parked cur chk s C O). set (s1 := posix_timer_check cur chk s). clearbody s1. case_if; [done|].
  unfold check_itimers_locked. destruct (check_one_timer (s_real s1) now) as [real r]. destruct (if cpu then _ else _) as [virt v]. destruct (if cpu then check_one_timer (s_prof s1) now else _) as [prof q].
  set (fired := _ ++ _). clearbody fired. change (s_parked s1) with (s_parked (set_itimers r v q s1)). generalize (set_itimers r v q s1). induction fired as [|x l IH]; intros s2; cbn [foldl]; [done|].
  rewrite IH. apply queue_parked.
Qed.

Lemma hears_create t clockid notify signum value dflt s ret s' : signal_posix_timer_create clockid notify signum value dflt s = Some (ret, s') -> hears t s s'.
Proof.
  unfold signal_posix_timer_create. destruct (negb _ && negb _ && _); [by intros [= _ <-]|]. do 3 (case_if; [by intros [= _ <-]|]). destruct (list_find _ _) as [[i u]|]; [|by intros [= _ <-]].
  destruct (fresh_id _ _ _) as [[id next]|]; [|done]. cbn. intros [= _ <-]. by apply hears_same.
Qed.

(** ** The theorem for all of them *)

Lemma hears_step t s s' : all_ok s -> 0 < s_parked s -> other_step t s s' -> hears t s s'.
Proof.
  intros O P St. pose proof (proj1 (proj1 O)) as B. destruct St; try (by apply hears_queue); try (by apply hears_queue_thread); try (by apply hears_blocked); try (by apply hears_saved); try (by apply hears_handlers); try (by apply hears_same).
  - unfold signal_restore_saved_blocked. case_if; [done|]. etransitivity; [apply hears_blocked|apply hears_saved].
  - revert H1. unfold procmask_locked. destruct (if _ =? _ then _ else _) as [w|]; [|done]. intros [= <-]. set (b := negb _). pose proof (hears_blocked t cur (Z.land w (not64 unmaskable)) s) as G. destruct b; [|exact G].
    etransitivity; [exact G|by apply hears_same].
  - unfold suspend_end. case_if; [apply hears_saved|apply hears_blocked].
  - apply hears_claim.
  - unfold signal_claim_interruption. transitivity (posix_timer_check cur chk s); [by apply hears_timer_check|]. case_if; [done|].
    pose proof (hears_claim t cur (blocked_of (posix_timer_check cur chk s) cur) (posix_timer_check cur chk s)) as K. by destruct (signal_claim_waking_locked cur _ _).
  - apply hears_release.
  - destruct (try_dequeue_cases cur _ s B H0) as [->|(signum & src & V & _ & T & Sr & ->)]; [done|]. by apply hears_dequeue.
  - destruct (deliver_pick_spec s cur signum src B H0) as (V & _ & T & Sr). by apply hears_dequeue.
  - unfold take_saved_mask. case_if; [apply hears_saved|done].
  - unfold signal_set_itimer. destruct value as [v|]; [|done]. case_if; cbn [snd]; [destruct which; by apply hears_same|]. apply hears_rung. eapply Z.le_lt_trans; [|apply attention_rings]. destruct which; reflexivity.
  - by apply hears_check_timers.
  - by eapply hears_create.
  - unfold signal_posix_timer_get. transitivity (posix_timer_check cur chk s); [by apply hears_timer_check|]. destruct (posix_timer_find_locked _ id) as [[i u]|]; [|done].
    destruct (posix_timer_value_locked now1 now2 u). by apply hears_same.
  - revert H0. unfold thread_alloc_slot. case_if; [done|]. intros [= <-]. apply hears_same; [done|done|]. cbn [own_pending]. unfold thread_at. cbn [set_threads s_threads]. by rewrite list_lookup_total_insert_ne.
  - by apply hears_upd.
Qed.

(** ** Setting and deleting timers, and reads of a signalfd *)

Lemma discard_signal_shrinks id p signum k : Z.testbit (p_pending (discard_signal id p signum).1) k = true -> Z.testbit (p_pending p) k = true.
Proof.
  assert (C : forall bits q, p_pending q = p_pending p -> Z.testbit (p_pending (pending_clear bits q)) k = true -> Z.testbit (p_pending p) k = true).
  { intros bits q E. cbn. rewrite E, Z.land_spec. by intros [? _]%andb_prop. }
  unfold discard_signal. case_if; [case_if; [done|]; by apply C|]. destruct (compact _ _ _ _) as [kept ring]. case_if; [done|]. cbn [fst]. case_if; [by apply C|done].
Qed.

Lemma discard_shrinks id p k : Z.testbit (p_pending (posix_timer_discard_pending_locked p id).1) k = true -> Z.testbit (p_pending p) k = true.
Proof.
  unfold posix_timer_discard_pending_locked. generalize (set_bits (p_pending p)) (@nil Z). intros l. revert p. induction l as [|b l IH]; intros p rel; cbn [foldl]; [done|].
  unfold discard_round at 2. pose proof (discard_signal_shrinks id p (b + 1) k) as D. destruct (discard_signal id p (b + 1)) as [p1 ch]. intros T. by apply D, (IH p1 _ T).
Qed.

Lemma discard_shared_fields id s : let s' := discard_shared id s in
  s_events s' = s_events s /\ s_threads s' = s_threads s /\ forall k, Z.testbit (p_pending (s_shared s')) k = true -> Z.testbit (p_pending (s_shared s)) k = true.
Proof.
  cbv zeta. unfold discard_shared. pose proof (discard_shrinks id (s_shared s)) as D. destruct (posix_timer_discard_pending_locked (s_shared s) id) as [p rel]. cbn [fst] in D.
  assert (G : forall s, let s' := foldl (fun s signum => shared_claim_release_locked signum s) s rel in s_events s' = s_events s /\ s_threads s' = s_threads s /\ s_shared s' = s_shared s).
  { clear. induction rel as [|x l IH]; intros s; cbn [foldl]; [done|]. destruct (IH (shared_claim_release_locked x s)) as (-> & -> & ->). done. }
  destruct (G (set_shared p s)) as (-> & -> & ->). done.
Qed.

Lemma hears_discard t id s : hears t s (discard_shared id s).
Proof. destruct (discard_shared_fields id s) as (E1 & E2 & E3). split; [unfold rings; rewrite E1; lia|by intros _|]. intros _ k. cbn [own_pending]. unfold thread_at. by rewrite E2. Qed.

Lemma hears_timer_delete t id s : hears t s (signal_posix_timer_delete id s).2.
Proof.
  unfold signal_posix_timer_delete. cbn [snd]. set (found := posix_timer_find_locked _ id). transitivity (match found with Some (i, _) => let s := discard_shared id s in set_slots (<[i := zero_timer]> (pts_slots (s_timers s))) s | None => s end); [|by apply hears_same].
  destruct found as [[i u]|]; [|done]. cbv zeta. etransitivity; [apply (hears_discard t id)|]. generalize (discard_shared id s). intros s1. by apply hears_same.
Qed.

Lemma hears_timer_set t cur id flags value chk now1 now2 now3 s : (forall i, clock (chk i)) -> all_ok s -> hears t s (signal_posix_timer_set cur id flags value chk now1 now2 now3 s).2.
Proof.
  intros C O. unfold signal_posix_timer_set. transitivity (posix_timer_check cur chk s); [by apply hears_timer_check|]. set (s1 := posix_timer_check cur chk s). clearbody s1.
  destruct (posix_timer_find_locked _ id) as [[i u]|]; [|done]. destruct (posix_timer_value_locked now1 now2 u) as [old u']. cbn [snd]. set (s2 := refresh_pending_hint_locked _).
  transitivity s2; [unfold s2; etransitivity; [apply (hears_discard t id)|]; generalize (discard_shared id s1); intros s3; by apply hears_same|]. clearbody s2. case_if; [apply hears_emit|done].
Qed.

Lemma hears_signalfd t cur expected s : base_ok s -> hears t s (signal_take_signalfd_exact cur expected s).2.
Proof.
  intros B. unfold signal_take_signalfd_exact. enough (H : hears t s (take_signalfd_loop cur expected s).2) by (destruct (take_signalfd_loop cur expected s); etransitivity; [exact H|by apply hears_same]).
  revert s B. induction expected as [|[want n] l IH]; intros s B; cbn [take_signalfd_loop]; [done|]. destruct (take_signalfd_one cur want n s) as [s1|] eqn:T; [|done].
  destruct (take_one_dequeue cur want n s s1 B T) as (src & _ & V & (q & Q) & E).
  assert (Tb : Z.testbit (p_pending (set_of s src)) (si_signum want - 1) = true) by (apply (queued_bit (s_pid s) (s_uid s)); [by apply set_of_ok|done|by rewrite Q]).
  pose proof (hears_dequeue t src (si_signum want) s B V Tb) as H1. pose proof (dq_base _ _ _ _ (dequeue_dequeued src _ s B V Tb)) as B1. rewrite <- E in H1, B1.
  assert (B2 : base_ok s1) by (by apply (base_ext (refresh_pending_hint_locked s1))). specialize (IH s1 B2). destruct (take_signalfd_loop cur l s1) as [c s2]. cbn [snd] in *.
  transitivity s1; [|done]. destruct H1 as [R1 R2 R3]. by split.
Qed.
