(* ===== verification/SigWaitSpecs.v ===== *)
(** * What the calls that wait for signals promise *)

From stdpp Require Import relations.
From S2P Require Import Prelude Bits FutexWord SigQueue SigQueueFacts Signal SigFacts SigLife SigStep SigFrame SigFrameFacts SigDeliver SigSpecs SigClaim SigFrameSpecs SigWait SigWake.
#[local] Open Scope Z_scope.

(** ** What other threads leave alone of a thread *)

(** Its masks, and what is pending for it alone. *)
Definition keeps (t : nat) (s s' : signals) : Prop :=
  blocked_of s' (Some t) = blocked_of s (Some t) /\ saved_of s' (Some t) = saved_of s (Some t) /\ saved_valid_of s' (Some t) = saved_valid_of s (Some t) /\
  forall k, Z.testbit (own_pending s (Some t)) k = true -> Z.testbit (own_pending s' (Some t)) k = true.

#[local] Instance keeps_preorder t : PreOrder (keeps t).
Proof. split; [by intros s|]. intros s1 s2 s3 (A1 & A2 & A3 & A4) (B1 & B2 & B3 & B4). split_and!; [congruence..|]. intros k K. by apply B4, A4. Qed.

Lemma keeps_thread t s s' : thread_at s' t = thread_at s t -> keeps t s s'.
Proof. intros E. unfold keeps. cbn. by rewrite E. Qed.
Lemma keeps_apart t s s' : apart s s' -> keeps t s s'.
Proof. intros [_ E]. apply keeps_thread. unfold thread_at. by rewrite E. Qed.
Lemma keeps_upd t u f s : u <> t -> keeps t s (upd_thread u f s).
Proof. intros N. apply keeps_thread. by destruct (upd_thread_cases u f s t) as [->|(-> & _)]. Qed.
Lemma keeps_blocked t cur w s : cur <> Some t -> keeps t s (store_blocked cur w s).
Proof. intros N. destruct cur as [u|]; [|done]. apply keeps_upd. congruence. Qed.
Lemma keeps_saved t cur w b s : cur <> Some t -> keeps t s (store_saved cur w b s).
Proof. intros N. destruct cur as [u|]; [|done]. apply keeps_upd. congruence. Qed.

Lemma keeps_dequeue t src signum s : src <> Some t -> keeps t s (dequeue_locked src signum s).2.
Proof.
  intros N. unfold dequeue_locked. destruct (take_locked _ _ _ _ _) as [[[info p] timers] ended]. cbn [snd]. set (s1 := if ended then _ else _).
  assert (K : keeps t s s1) by (unfold s1; destruct ended; [transitivity (set_slots timers s); [done|apply keeps_apart, apart_ring]|done]). clearbody s1. transitivity s1; [done|].
  destruct src as [i|]; [|done]. etransitivity; [apply (keeps_upd t i (set_th_pending p)); congruence|done].
Qed.

Lemma keeps_claim t cur blocked s : keeps t s (signal_claim_waking_locked cur blocked s).2.
Proof. unfold signal_claim_waking_locked. cbv zeta. case_if; [done|]. by case_if. Qed.

Lemma keeps_release t cur u s : keeps t s (signal_release_claims cur u s).
Proof.
  unfold signal_release_claims, signal_release_claims_locked. generalize (set_bits (s_claimed s)). intros l.
  assert (G : forall s b, keeps t s (foldl (fun '(s, released) idx => if bool_decide ((s_owner s).[idx] = Some u) then (shared_claim_release_locked (idx + 1) s, true) else (s, released)) (s, b) l).1).
  { induction l as [|j l IH]; intros s1 b; cbn [foldl]; [done|]. case_bool_decide; [|apply IH]. etransitivity; [|apply IH]. done. }
  specialize (G s false). by destruct (foldl _ _ l) as [s1 []].
Qed.

Lemma enqueue_keeps_bits pid uid p signum info k : Z.testbit (p_pending p) k = true -> Z.testbit (p_pending (signal_enqueue_locked pid uid p signum info)) k = true.
Proof.
  intros T. unfold signal_enqueue_locked, signal_rt_enqueue_locked, signal_standard_enqueue_locked. case_if; [case_if|]; cbn; by rewrite Z.lor_spec, T.
Qed.

Lemma keeps_queue_thread t cur tid signum info s : keeps t s (signal_queue_thread_common cur tid signum info s).2.
Proof.
  unfold signal_queue_thread_common. case_if; [done|]. destruct (thread_find_locked s tid) as [i|]; [|done]. cbn [snd]. set (f := fun th => set_th_pending _ th).
  assert (K : keeps t s (upd_thread i f s)).
  { destruct (upd_thread_cases i f s t) as [E|(-> & _ & E)]; [by apply keeps_thread|]. unfold keeps. cbn [blocked_of saved_of saved_valid_of own_pending]. rewrite E. split_and!; [done..|].
    intros k. apply enqueue_keeps_bits. }
  set (s1 := refresh_pending_hint_locked _). transitivity s1; [exact K|]. assert (K2 : keeps t s1 (signal_notify_waiters signum s1)) by (apply keeps_apart; unfold signal_notify_waiters; etransitivity; [|apply apart_ring]; done).
  transitivity (signal_notify_waiters signum s1); [done|]. by case_if.
Qed.

Lemma keeps_handlers t cur s : cur <> Some t ->
  (forall signum alt, keeps t s (enter_handler cur signum alt s)) /\ (forall signum, keeps t s (force_fault cur signum s)) /\ (forall mask sp, keeps t s (leave_handler cur mask sp s)).
Proof.
  intros N. split_and!.
  - intros signum alt. unfold enter_handler. cbv zeta. set (nb := Z.land _ _). etransitivity; [apply (keeps_blocked t cur nb s N)|]. set (s1 := store_blocked cur nb s). clearbody s1.
    set (s2 := match cur with Some i => _ | None => s1 end). transitivity s2; [unfold s2; destruct cur as [u|]; [|done]; case_if; [apply keeps_upd; congruence|done]|by case_if].
  - intros signum. unfold force_fault. repeat case_if; [done| |done]. etransitivity; [|by apply keeps_blocked]. done.
  - intros mask sp. unfold leave_handler. etransitivity; [apply (keeps_blocked t cur (Z.land mask (not64 unmaskable)) s N)|]. destruct cur as [u|]; [|done]. apply keeps_upd. congruence.
Qed.

Lemma keeps_step t s s' : base_ok s -> other_step t s s' -> keeps t s s'.
Proof.
  intros B St. destruct St; try (by apply keeps_queue_thread); try (by apply keeps_blocked); try (by apply keeps_saved); try (by apply keeps_handlers); try done.
  - apply keeps_apart, apart_queue.
  - apply keeps_apart, apart_queue.
  - unfold signal_restore_saved_blocked. case_if; [done|]. etransitivity; [by apply keeps_blocked|by apply keeps_saved].
  - revert H1. unfold procmask_locked. destruct (if _ =? _ then _ else _) as [w|]; [|done]. intros [= <-]. set (b := negb _). pose proof (keeps_blocked t cur (Z.land w (not64 unmaskable)) s H) as G. by destruct b.
  - unfold suspend_end. case_if; [by apply keeps_saved|by apply keeps_blocked].
  - apply keeps_claim.
  - unfold signal_claim_interruption. transitivity (posix_timer_check cur chk s); [apply keeps_apart, apart_timer_check|]. case_if; [done|].
    pose proof (keeps_claim t cur (blocked_of (posix_timer_check cur chk s) cur) (posix_timer_check cur chk s)) as K. by destruct (signal_claim_waking_locked cur _ _).
  - apply keeps_release.
  - destruct (try_dequeue_cases cur _ s B H0) as [->|(signum & src & V & _ & T & Sr & ->)]; [done|]. cbn [snd]. apply keeps_dequeue. destruct Sr as [[-> ?]|[-> _]]; done.
  - destruct (deliver_pick_spec s cur signum src B H0) as (V & _ & T & Sr). apply keeps_dequeue. destruct Sr as [[-> ?]|[-> _]]; done.
  - unfold take_saved_mask. case_if; [by apply keeps_saved|done].
  - apply keeps_apart, apart_set_itimer.
  - apply keeps_apart, apart_check_timers.
  - eapply keeps_apart, apart_create. exact H.
  - apply keeps_apart, apart_timer_get.
  - revert H0. unfold thread_alloc_slot. case_if; [done|]. intros [= <-]. apply keeps_thread. unfold thread_at. cbn [set_threads s_threads]. by rewrite list_lookup_total_insert_ne.
  - by apply keeps_upd.
Qed.

Lemma keeps_steps t s s' : all_ok s -> rtc (other_step t) s s' -> all_ok s' /\ keeps t s s'.
Proof.
  intros O R. induction R as [s|s s1 s2 St R IH]; [done|]. assert (O1 : all_ok s1) by (eapply step_ok; [eapply other_step_step; exact St|done]).
  destruct (IH O1) as [O2 K]. split; [done|]. etransitivity; [apply (keeps_step t s s1); [apply O|done]|done].
Qed.

(** ** A signal that is bound to a thread *)

(** It is pending for the thread alone or claimed by it, and not blocked. *)
Definition bound (t : nat) (k : Z) (s : signals) : Prop :=
  0 <= k < 64 /\ Z.testbit (blocked_of s (Some t)) k = false /\ (Z.testbit (own_pending s (Some t)) k = true \/ (s_owner s).[k] = Some t).

Lemma bound_steps t k s s' : all_ok s -> rtc (other_step t) s s' -> bound t k s -> bound t k s'.
Proof.
  intros O R (Bk & U & P). destruct (keeps_steps t s s' O R) as [_ (K1 & _ & _ & K4)]. split; [done|]. split; [by rewrite K1|]. destruct P as [P|P]; [left; by apply K4|].
  right. by destruct (held_steps t k s s' O Bk R (conj P U)) as [_ [H _]].
Qed.

Lemma bound_self t k s : base_ok s -> bound t k s -> Z.testbit (self_pending_locked s (Some t)) k = true.
Proof.
  intros B (Bk & U & P). rewrite self_pending_spec by done. destruct P as [->|P]; [apply orb_true_r|]. pose proof (bo_claims s B) as C.
  rewrite (co_pending s C) by (done || rewrite (co_owner s C), P by done; by apply bool_decide_eq_true). unfold claimed_away. by rewrite P, bool_decide_true by done.
Qed.

Lemma bound_delivers {M} `{GuestBytes M} t k rand v l m s : base_ok s -> bound t k s -> discarded s k = false ->
  exists o : outcome M, signal_deliver 4097 (Some t) rand v l m s = Some o /\ (o_ret o = 1 \/ o_ret o = -1).
Proof.
  intros B Bd D. pose proof (backlog_bound s (Some t) B) as Bl. destruct (deliver_loop (Some t) rand 4097 v l m s B ltac:(lia)) as (o & Eo & Ro & Wo & _).
  exists o. split; [done|]. assert (Nz : o_ret o <> 0); [|tauto]. apply Wo. exists k. pose proof (bound_self t k s B Bd) as T. by destruct Bd as (Bk & U & _).
Qed.

Lemma claim_binds t blocked s signum s1 : base_ok s -> fits64 blocked -> (forall k, 0 <= k < 64 -> Z.testbit (blocked_of s (Some t)) k = true -> Z.testbit blocked k = true) ->
  signal_claim_waking_locked (Some t) blocked s = (signum, s1) -> signum <> 0 ->
  bound t (signum - 1) s1 /\ Z.testbit blocked (signum - 1) = false /\ discarded s1 (signum - 1) = false.
Proof.
  intros B F Sub C N. pose proof (claim_waking_spec (Some t) blocked s B F) as Sp. rewrite C in Sp. destruct Sp as [[? _]|(V & U & D & P)]; [done|]. unfold valid_signal in V.
  assert (Ub : Z.testbit (blocked_of s (Some t)) (signum - 1) = false) by (destruct (Z.testbit (blocked_of s (Some t)) (signum - 1)) eqn:X; [rewrite Sub in U by (done || lia); done|done]).
  destruct P as [[-> T]|(T & _ & ->)]; (split; [|done]); (split; [lia|]); (split; [done|]); [by left|right]. cbn [set_claims s_owner]. apply aget_aset. rewrite (co_len s (bo_claims s B)). lia.
Qed.

(** ** rt_sigsuspend *)

(** One step of the call of thread [t], or of anyone else. *)
Inductive suspend_run (t : nat) : suspend_pc * signals -> suspend_pc * signals -> Prop :=
  | suspend_own stop chk now x : (forall i, clock (chk i)) -> suspend_run t x (sigsuspend_step (Some t) stop chk now x)
  | suspend_other pc s s' : other_step t s s' -> suspend_run t (pc, s) (pc, s').

(** Where the masks are: [w] is the guest's, [tmp] the temporary one. *)
Definition suspended (t : nat) (w tmp : Z) (x : suspend_pc * signals) : Prop :=
  let '(pc, s) := x in
  all_ok s /\
  match pc with
  | SuspendTest saved | SuspendClaim saved => saved = w /\ blocked_of s (Some t) = tmp
  | SuspendLeave saved woke => saved = w /\ blocked_of s (Some t) = tmp /\ (woke = true -> exists k, bound t k s)
  | SuspendReturned true => blocked_of s (Some t) = tmp /\ saved_of s (Some t) = w /\ saved_valid_of s (Some t) = true /\ exists k, bound t k s
  | SuspendReturned false => blocked_of s (Some t) = w
  end.

Lemma saved_stored t w b s : (t < length (s_threads s))%nat ->
  saved_of (store_saved (Some t) w b s) (Some t) = w /\ saved_valid_of (store_saved (Some t) w b s) (Some t) = b /\ blocked_of (store_saved (Some t) w b s) (Some t) = blocked_of s (Some t) /\
  forall k, bound t k s -> bound t k (store_saved (Some t) w b s).
Proof.
  intros L. unfold bound. cbn [store_saved saved_of saved_valid_of blocked_of own_pending]. rewrite thread_at_upd by done. rewrite decide_True by done. done.
Qed.

Lemma suspended_own t w tmp stop chk now x : (t < 64)%nat -> maskable w -> (forall i, clock (chk i)) -> suspended t w tmp x -> suspended t w tmp (sigsuspend_step (Some t) stop chk now x).
Proof.
  intros Lt Mw C. destruct x as [pc s]. intros [O I]. pose proof (proj1 (proj1 O)) as B. assert (L : (t < length (s_threads s))%nat) by (by rewrite (bo_len s B)).
  destruct pc as [saved|saved|saved woke|woke]; cbn [sigsuspend_step]; [| | |by split].
  - destruct stop; [destruct I; by split|]. destruct I as [-> I]. split; [eapply step_ok; [by apply step_check_timers|done]|]. split; [done|].
    by destruct (keeps_apart t _ _ (apart_check_timers (Some t) true chk now s)) as [-> _].
  - destruct I as [-> I]. pose proof (claim_waking_all (Some t) (blocked_of s (Some t)) s (proj1 (blocked_maskable s _ B)) O) as O1. pose proof (keeps_claim t (Some t) (blocked_of s (Some t)) s) as [K _].
    destruct (signal_claim_waking_locked (Some t) (blocked_of s (Some t)) s) as [signum s1] eqn:E. cbn [snd] in *. destruct (Z.eqb_spec signum 0) as [->|N]; (split; [done|]); (split; [done|]); [congruence|].
    split; [congruence|]. intros _. exists (signum - 1). by eapply (claim_binds t _ s signum s1 B (proj1 (blocked_maskable s _ B))).
  - destruct I as (-> & I & P). destruct woke; cbn [suspend_end].
    + destruct (saved_stored t w true s L) as (S1 & S2 & S3 & S4). split; [by apply store_saved_all|]. split_and!; [congruence|done|done|]. destruct (P eq_refl) as [k Bd]. exists k. by apply S4.
    + split; [by apply store_blocked_all|]. by apply blocked_stored.
Qed.

Lemma suspended_other t w tmp pc s s' : all_ok s -> other_step t s s' -> suspended t w tmp (pc, s) -> suspended t w tmp (pc, s').
Proof.
  intros O St [_ I]. assert (R : rtc (other_step t) s s') by (by apply rtc_once). destruct (keeps_steps t s s' O R) as [O' (K1 & K2 & K3 & _)]. split; [done|].
  assert (Bd : (exists k, bound t k s) -> exists k, bound t k s') by (intros [k ?]; exists k; by apply (bound_steps t k s)).
  destruct pc as [saved|saved|saved woke|[]]; rewrite ?K1, ?K2, ?K3; naive_solver.
Qed.

Lemma suspended_run t w tmp x y : (t < 64)%nat -> maskable w -> rtc (suspend_run t) x y -> suspended t w tmp x -> suspended t w tmp y.
Proof.
  intros Lt Mw R. induction R as [x|x y z St R IH]; intros I; [done|]. apply IH. destruct St as [stop chk now x C|pc s s' St]; [by apply suspended_own|].
  apply (suspended_other t w tmp pc s s'); [apply I|done|done].
Qed.


Definition ex_suspend (n : nat) : suspend_pc * signals := Nat.iter n (sigsuspend_step (Some 0%nat) false (fun _ => 0) (mk_timeval 0 0)) (SuspendTest 0, (suspend_begin (Some 0%nat) 0 ex_state).2).

Lemma ex_suspend_run n : rtc (suspend_run 0) (ex_suspend 0) (ex_suspend n).
Proof. induction n as [|n IH]; [apply rtc_refl|]. eapply rtc_r; [exact IH|]. apply suspend_own. unfold clock, INT64_MAX. lia. Qed.


(** ** rt_sigtimedwait: no wakeup is lost *)

(** What may happen while thread [t] waits. *)
Inductive env_step (t : nat) : signals -> signals -> Prop :=
  | env_other s s' : other_step t s s' -> env_step t s s'
  | env_timer_set cur id flags value chk now1 now2 now3 s : (forall i, clock (chk i)) -> clock now1 -> clock now3 ->
      env_step t s (signal_posix_timer_set cur id flags value chk now1 now2 now3 s).2
  | env_timer_delete id s : env_step t s (signal_posix_timer_delete id s).2
  | env_signalfd cur expected s : env_step t s (signal_take_signalfd_exact cur expected s).2.

Lemma env_ok t s s' : env_step t s s' -> all_ok s -> all_ok s'.
Proof.
  intros St. apply step_ok. destruct St as [s s' St| | |]; [by eapply other_step_step|by apply step_timer_set|apply step_timer_delete|apply step_signalfd].
Qed.

Lemma hears_env t s s' : all_ok s -> 0 < s_parked s -> env_step t s s' -> hears t s s'.
Proof.
  intros O P St. destruct St as [s s' St| | |]; [by apply hears_step|by apply hears_timer_set|apply hears_timer_delete|apply hears_signalfd, O].
Qed.

(** None of the signals is claimed by another thread.  A claim is made only on a
    signal its thread does not block, and the signals a program waits for are blocked
    in all its threads. *)
Definition unclaimed (t : nat) (mask : Z) (s : signals) : Prop := forall k o, 0 <= k < 64 -> Z.testbit mask k = true -> (s_owner s).[k] = Some o -> o = t.

Section Wait.
Context {M : Type} `{GuestBytes M}.
Variables (t : nat) (call : wait_call).

(** The steps of the call, those of other threads, and the other waiters that come and
    go; the number counts those. *)
Inductive wait_run : nat * wait_state M -> nat * wait_state M -> Prop :=
  | wait_own n stop chk now now_tv elapsed x : (forall i, clock (chk i)) -> wait_run (n, x) (n, sigtimedwait_step (Some t) call stop chk now now_tv elapsed x)
  | wait_other n pc l m m' s s' : env_step t s s' -> s_parked s' = s_parked s -> unclaimed t (wc_mask call) s' -> wait_run (n, mk_ws pc l m s) (n, mk_ws pc l m' s')
  | wait_enter n pc l m s : wait_run (n, mk_ws pc l m s) (S n, mk_ws pc l m (set_parked (s_parked s + 1) s))
  | wait_leave n pc l m s : wait_run (S n, mk_ws pc l m s) (n, mk_ws pc l m (set_parked (s_parked s - 1) s)).

(** Nothing the call waits for is pending. *)
Definition nothing (s : signals) : Prop :=
  forall k, 0 <= k < 64 -> Z.testbit (wc_mask call) k = true -> Z.testbit (p_pending (s_shared s)) k = false /\ Z.testbit (own_pending s (Some t)) k = false.

(** The counter was read before; if it has not moved since, nothing is pending. *)
Definition seen (c : Z) (s : signals) : Prop := exists c0, c = wrap64 c0 /\ 0 <= c0 <= rings s.
Definition looked (c : Z) (s : signals) : Prop := exists c0, c = wrap64 c0 /\ 0 <= c0 <= rings s /\ (rings s = c0 -> nothing s).

Definition waiting (x : nat * wait_state M) : Prop :=
  let '(n, mk_ws pc l m s) := x in
  let inside := s_parked s = Z.of_nat n + 1 /\ unclaimed t (wc_mask call) s in
  all_ok s /\
  match pc with
  | WaitTop _ => inside
  | WaitCheck _ c | WaitDequeue _ c => inside /\ seen c s
  | WaitTests _ c | WaitClaim _ c | WaitPark _ c => inside /\ looked c s
  | WaitLeave _ | WaitReturned _ => True
  end.

Lemma nothing_heard s s' : hears t s s' -> rings s' = rings s -> nothing s -> nothing s'.
Proof.
  intros [_ H1 H2] E N k Bk T. destruct (N k Bk T) as [N1 N2]. specialize (H1 E k). specialize (H2 E k). split.
  - destruct (Z.testbit (p_pending (s_shared s')) k) eqn:X; [|done]. by rewrite H1 in N1.
  - destruct (Z.testbit (own_pending s' (Some t)) k) eqn:X; [|done]. by rewrite H2 in N2.
Qed.
Lemma seen_heard c s s' : hears t s s' -> seen c s -> seen c s'.
Proof. intros [L _ _] (c0 & -> & B). exists c0. split; [done|]. lia. Qed.
Lemma looked_heard c s s' : hears t s s' -> looked c s -> looked c s'.
Proof.
  intros Hr (c0 & -> & B & N). pose proof (hr_rings _ _ _ Hr) as L. exists c0. split; [done|]. split; [lia|]. intros E. apply (nothing_heard s s' Hr); [lia|]. apply N. lia.
Qed.

(** A look that finds nothing. *)
Lemma look_fails s : base_ok s -> fits64 (wc_mask call) -> unclaimed t (wc_mask call) s -> (sigtimedwait_try_dequeue (Some t) (wc_mask call) s).1 = None ->
  nothing s /\ (sigtimedwait_try_dequeue (Some t) (wc_mask call) s).2 = s.
Proof.
  intros B F U. unfold sigtimedwait_try_dequeue. set (a := Z.land (own_pending s (Some t)) _). set (b := Z.land (shared_visible_locked s (Some t)) _).
  destruct (Z.eqb_spec (Z.lor a b) 0) as [E|N]; [|destruct (if negb (a =? 0) then _ else _) as [signum src]; by destruct (dequeue_locked src signum s)].
  intros _. split; [|done]. apply Z.lor_eq_0_iff in E as [Ea Eb]. intros k Bk T. split.
  - apply (f_equal (fun w => Z.testbit w k)) in Eb. unfold b in Eb. rewrite Z.land_spec, T, andb_true_r, Z.bits_0, (proj2 (visible_spec s (Some t) B)) in Eb by done.
    destruct (Z.testbit (p_pending (s_shared s)) k); [|done]. apply negb_false_iff in Eb. unfold claimed_away in Eb. case_bool_decide as C; [done|]. destruct (s_owner s).[k] as [o|] eqn:Ow; [|done].
    by rewrite (U k o Bk T Ow) in C.
  - apply (f_equal (fun w => Z.testbit w k)) in Ea. unfold a in Ea. by rewrite Z.land_spec, T, andb_true_r, Z.bits_0 in Ea.
Qed.

Lemma waiting_own n stop chk now now_tv elapsed x : fits64 (wc_mask call) -> (forall i, clock (chk i)) -> waiting (n, x) ->
  waiting (n, sigtimedwait_step (Some t) call stop chk now now_tv elapsed x).
Proof.
  intros F C. destruct x as [pc l m s]. intros [O I]. pose proof (proj1 (proj1 O)) as B. destruct pc as [r|r c|r c|r c|r c|r c|ret|ret]; cbn [sigtimedwait_step].
  - split; [done|]. split; [done|]. exists (rings s). split; [done|]. unfold rings. lia.
  - destruct I as [[P U] S]. split; [eapply step_ok; [by apply step_check_timers|done]|]. assert (Hr : hears t s (signal_check_timers (Some t) false chk now_tv s)) by (apply hears_check_timers; [done|done|lia]).
    split; [|by eapply seen_heard]. split; [by rewrite check_timers_parked|]. unfold unclaimed. by rewrite (proj1 (apart_check_timers (Some t) false chk now_tv s)).
  - destruct I as [[P U] (c0 & E & Bc)]. pose proof (look_fails s B F U) as L. pose proof (try_dequeue_all (Some t) (wc_mask call) s F O) as O'.
    destruct (sigtimedwait_try_dequeue (Some t) (wc_mask call) s) as [[[signum info]|] s']; cbn [fst snd] in *.
    + case_if; [destruct (gb_write _ _ _)|]; done.
    + destruct (L eq_refl) as [N ->]. split; [done|]. split; [done|]. exists c0. done.
  - case_if; [done|]. destruct stop; done.
  - destruct I as [[P U] Lk]. set (w := Z.lor (blocked_of s (Some t)) (wc_mask call)). assert (Fw : fits64 w) by (apply lor_fits; [apply (blocked_maskable s _ B)|done]).
    pose proof (claim_waking_spec (Some t) w s B Fw) as Sp. pose proof (hears_claim t (Some t) w s) as Hr. pose proof (claim_waking_all (Some t) w s Fw O) as O'.
    destruct (signal_claim_waking_locked (Some t) w s) as [signum s'] eqn:E. cbn [snd] in *. destruct (Z.eqb_spec signum 0) as [->|N]; cbn [negb]; [|done].
    destruct Sp as [(_ & -> & _)|(V & _)]; [done|]. unfold valid_signal in V. lia.
  - by destruct I as [I _].
  - split; [eapply step_ok; [apply step_park|done]|done].
  - done.
Qed.

Lemma waiting_run x y : fits64 (wc_mask call) -> rtc wait_run x y -> waiting x -> waiting y.
Proof.
  intros F R. induction R as [x|x y z St R IH]; [done|]. intros I. apply IH. clear IH R z. destruct St as [n stop chk now now_tv elapsed x C|n pc l m m' s s' St P U|n pc l m s|n pc l m s].
  - by apply waiting_own.
  - destruct I as [O I]. split; [by eapply env_ok|]. destruct pc as [r|r c|r c|r c|r c|r c|ret|ret]; [|..|done|done]; [split; [rewrite P; apply I|done]|..];
      destruct I as [[I1 I2] I3]; (split; [split; [congruence|done]|]); (assert (Hr : hears t s s') by (apply hears_env; [done|lia|done])); [by eapply seen_heard..| | |]; by eapply looked_heard.
  - destruct I as [O I]. split; [eapply step_ok; [apply step_park|done]|]. destruct pc as [r|r c|r c|r c|r c|r c|ret|ret]; [|..|done|done]; [destruct I as [I1 I2]; split; [cbn; lia|done]|..];
      destruct I as [[I1 I2] I3]; (split; [split; [cbn; lia|done]|]); done.
  - destruct I as [O I]. split; [eapply step_ok; [apply step_park|done]|]. destruct pc as [r|r c|r c|r c|r c|r c|ret|ret]; [|..|done|done]; [destruct I as [I1 I2]; split; [cbn; lia|done]|..];
      destruct I as [[I1 I2] I3]; (split; [split; [cbn; lia|done]|]); done.
Qed.

End Wait.


Definition ex_wait : wait_call := mk_wait 512 0 false 0.
Definition ex_waits (n : nat) : wait_state (list Z) :=
  Nat.iter n (sigtimedwait_step (Some 0%nat) ex_wait false (fun _ => 0) (fun _ => 0) (mk_timeval 0 0) 0) (mk_ws (WaitTop 0) ex_local (zeros 8 ++ le 8 512) (set_parked 1 ex_armed)).

Lemma ex_waits_run n : rtc (wait_run 0 ex_wait) (0%nat, ex_waits 0) (0%nat, ex_waits n).
Proof. induction n as [|n IH]; [apply rtc_refl|]. eapply rtc_r; [exact IH|]. apply wait_own. unfold clock, INT64_MAX. lia. Qed.


(** ** rt_sigtimedwait: how long it sleeps *)

Lemma sleep_round_spec now z i u : 0 <= z -> let z' := sleep_round now z (i, u) in
  0 <= z' <= z /\
  (pt_used u = true -> pt_signum u <> 0 ->
   (pt_notification u = POSIX_TIMER_WAITING -> z' <= SIGWAIT_WAITING_NS) /\
   (pt_expiry u <> 0 -> pt_notification u <> POSIX_TIMER_QUEUED -> z' <= Z.max 0 (pt_expiry u - now i))).
Proof.
  intros Z0. cbv zeta. unfold sleep_round. destruct (pt_used u) eqn:Us; cbn [negb orb]; [|done]. destruct (Z.eqb_spec (pt_signum u) 0) as [E|N]; [done|].
  set (z1 := if _ && _ then SIGWAIT_WAITING_NS else z). assert (B1 : 0 <= z1 <= z /\ (pt_notification u = POSIX_TIMER_WAITING -> z1 <= SIGWAIT_WAITING_NS)).
  { unfold z1. case_bool_decide as W; cbn [andb]; [|split; [lia|done]]. destruct (Z.ltb_spec SIGWAIT_WAITING_NS z); unfold SIGWAIT_WAITING_NS in *; lia. }
  destruct B1 as [B1 W1]. clearbody z1. destruct (Z.eqb_spec (pt_expiry u) 0) as [E|E]; cbn [orb]; [split; [done|]; intros _ _; by split|].
  case_bool_decide as Qd; [split; [done|]; intros _ _; by split|]. set (until := if now i <? pt_expiry u then pt_expiry u - now i else 0). assert (Bu : until = Z.max 0 (pt_expiry u - now i)) by (unfold until; destruct (Z.ltb_spec (now i) (pt_expiry u)); lia).
  clearbody until. destruct (Z.ltb_spec until z1); (split; [lia|]); intros _ _; (split; [intros W; specialize (W1 W); lia|intros _ _; lia]).
Qed.

Lemma sleep_fold_spec now l : forall z, 0 <= z -> let z' := foldl (sleep_round now) z l in
  0 <= z' <= z /\ forall i u, (i, u) ∈ l -> pt_used u = true -> pt_signum u <> 0 ->
   (pt_notification u = POSIX_TIMER_WAITING -> z' <= SIGWAIT_WAITING_NS) /\
   (pt_expiry u <> 0 -> pt_notification u <> POSIX_TIMER_QUEUED -> z' <= Z.max 0 (pt_expiry u - now i)).
Proof.
  induction l as [|[j v] l IH]; intros z Z0; cbv zeta; cbn [foldl]; [split; [lia|]; intros i u []%not_elem_of_nil|]. destruct (sleep_round_spec now z j v Z0) as [B1 R1]. cbv zeta in *.
  set (z1 := sleep_round now z (j, v)) in *. destruct (IH z1 ltac:(lia)) as [B2 R2]. cbv zeta in *. split; [lia|]. intros i u [[= -> ->]|I]%elem_of_cons Us Sg; [|by apply R2].
  destruct (R1 Us Sg) as [R3 R4]. split; intros; [specialize (R3 ltac:(done))|specialize (R4 ltac:(done) ltac:(done))]; lia.
Qed.

(** A timeval as the C library keeps it, and the nanoseconds between two. *)
Definition normal (v : timeval) : Prop := 0 <= tv_usec v < 1000000.
Definition apart_ns (a b : timeval) : Z := (tv_seconds a - tv_seconds b) * NSEC_PER_SEC + (tv_usec a - tv_usec b) * 1000.

Lemma itimer_sleep_spec cur now_tv s z : normal (it_expiry (s_real s)) -> normal now_tv -> 0 <= z -> let z' := itimer_sleep cur now_tv s z in
  0 <= z' <= z /\ (it_active (s_real s) = true -> has (self_pending_locked s cur) (sig_bit LINUX_SIGALRM) = false -> z' <= Z.max 0 (apart_ns (it_expiry (s_real s)) now_tv)).
Proof.
  intros Ne Nn Z0. cbv zeta. unfold itimer_sleep. destruct (it_active (s_real s)); cbn [andb]; [|split; [lia|done]]. destruct (has _ _); cbn [negb]; [split; [lia|done]|].
  set (e := it_expiry (s_real s)) in *. set (until := if 0 <? timeval_cmp e now_tv then _ else 0). assert (Bu : 0 <= until /\ (until <= Z.max 0 (apart_ns e now_tv) \/ until = z /\ z <= apart_ns e now_tv)); [|clearbody until; case_if; unbool; lia].
  unfold until, timeval_cmp, timeval_sub, apart_ns, normal, NSEC_PER_SEC in *. destruct e as [es eu], now_tv as [ns nu]. cbn [tv_seconds tv_usec] in *.
  pose proof (Z.quot_div_nonneg z 1000000000 Z0 ltac:(lia)) as Q. rewrite Q. pose proof (Z_div_mod_eq_full z 1000000000). pose proof (Z.mod_pos_bound z 1000000000).
  destruct (Z.eqb_spec es ns) as [->|Ns]; cbn [negb].
  - destruct (Z.eqb_spec eu nu); cbn [negb]; [cbn; lia|]. destruct (Z.ltb_spec eu nu); cbn [Z.ltb Z.compare]; [lia|]. rewrite (proj2 (Z.ltb_ge (eu - nu) 0)) by lia. rewrite Z.sub_diag. cbn [Z.ltb Z.compare tv_seconds tv_usec].
    destruct (Z.ltb_spec (z / 1000000000) 0); lia.
  - destruct (Z.ltb_spec es ns); cbn [Z.ltb Z.compare]; [lia|]. destruct (Z.ltb_spec (eu - nu) 0); cbn [tv_seconds tv_usec].
    + rewrite (proj2 (Z.ltb_ge (es - ns - 1) 0)) by lia. cbn [tv_seconds tv_usec]. destruct (Z.ltb_spec (z / 1000000000) (es - ns - 1)); lia.
    + rewrite (proj2 (Z.ltb_ge (es - ns) 0)) by lia. cbn [tv_seconds tv_usec]. destruct (Z.ltb_spec (z / 1000000000) (es - ns)); lia.
Qed.

(** C35: A park in rt_sigtimedwait ends in time: it is never longer than a second, than
    what is left of the timeout, than a millisecond while a timer waits for room in
    a queue, than the time to the next expiry of any timer whose signal is not
    queued, or, unless SIGALRM is pending, than the time to the expiry of the
    interval timer. *)
Theorem sigtimedwait_sleeps_in_time cur has_timeout remaining_ns now now_tv s : (has_timeout = true -> 0 <= remaining_ns) -> normal (it_expiry (s_real s)) -> normal now_tv ->
  let z := sigwait_sleep_ns cur has_timeout remaining_ns now now_tv s in
  0 <= z <= SIGWAIT_IDLE_NS /\ (has_timeout = true -> z <= remaining_ns) /\
  (forall i u, pts_slots (s_timers s) !! i = Some u -> pt_used u = true -> pt_signum u <> 0 ->
     (pt_notification u = POSIX_TIMER_WAITING -> z <= SIGWAIT_WAITING_NS) /\
     (pt_expiry u <> 0 -> pt_notification u <> POSIX_TIMER_QUEUED -> z <= Z.max 0 (pt_expiry u - now i))) /\
  (it_active (s_real s) = true -> has (self_pending_locked s cur) (sig_bit LINUX_SIGALRM) = false -> z <= Z.max 0 (apart_ns (it_expiry (s_real s)) now_tv)).
Proof.
  intros R Ne Nn. cbv zeta. unfold sigwait_sleep_ns. set (z0 := if _ && _ then remaining_ns else SIGWAIT_IDLE_NS).
  assert (B0 : 0 <= z0 <= SIGWAIT_IDLE_NS /\ (has_timeout = true -> z0 <= remaining_ns)).
  { unfold z0, SIGWAIT_IDLE_NS in *. destruct has_timeout; cbn [andb]; [specialize (R eq_refl); destruct (Z.ltb_spec remaining_ns 1000000000); lia|lia]. }
  clearbody z0. destruct (sleep_fold_spec now (imap pair (pts_slots (s_timers s))) z0 ltac:(lia)) as [B1 R1]. cbv zeta in *. set (z1 := foldl _ _ _) in *. clearbody z1.
  destruct (itimer_sleep_spec cur now_tv s z1 Ne Nn ltac:(lia)) as [B2 R2]. cbv zeta in *. set (z2 := itimer_sleep _ _ _ _) in *. clearbody z2. split_and!; [lia|lia|intros Ht; destruct B0 as [_ B0]; specialize (B0 Ht); lia| |done].
  intros i u L Us Sg. destruct (R1 i u) with (2 := Us) (3 := Sg) as [R3 R4].
  - apply list_elem_of_lookup_2 with i. rewrite list_lookup_imap, L. done.
  - split; intros; [specialize (R3 ltac:(done))|specialize (R4 ltac:(done) ltac:(done))]; lia.
Qed.

Lemma sigtimedwait_sleeps_in_time_witness : sigwait_sleep_ns None true 5000000 (fun _ => 0) (mk_timeval 0 0) ex_state <= 5000000.
Proof.
  refine (proj1 (proj2 (sigtimedwait_sleeps_in_time None true 5000000 (fun _ => 0) (mk_timeval 0 0) ex_state _ _ _)) _); [lia|vm_compute; split; [discriminate|reflexivity]|vm_compute; split; [discriminate|reflexivity]|reflexivity].
Defined.
