(* ===== verification/SigMem.v ===== *)
(** * The memory signal delivery writes to

    [SigFrame] reads and writes guest memory through [GuestBytes].  Here the copies of
    [GuestCopy] (guest_read_small and guest_write_small of src/core/guest.c) implement
    it, and a frame that was written is read back. *)

From S2P Require Import Prelude Tlbi Regions PageTable DescFacts PtStruct PtView Gva GvaFacts GuestCopy CopyFacts PtSpecs CopySpecs SigFrame SigFrameFacts.

(** The bytes of a host buffer. *)
Definition load (m : mem) (p n : Z) : list Z := (fun i => m (p + i)) <$> seqZ 0 n.
Definition store (m : mem) (p : Z) (b : list Z) : mem := fun a => if (p <=? a) && (a <? p + zlen b) then b !!! Z.to_nat (a - p) else m a.

(** The guest, its tables, host memory, the translation cache of the thread, and the
    address of the variable on the host stack the bytes are copied from or to. *)
Record guest_mem := mk_gm { gm_guest : guest_t; gm_pt : guest_pt; gm_mem : mem; gm_tlb : gva_tlb_t; gm_buf : Z }.
Definition set_gm (m : mem) (t : gva_tlb_t) (x : guest_mem) : guest_mem := mk_gm (gm_guest x) (gm_pt x) m t (gm_buf x).

(** A read goes to a cleared variable; of the cache it fills only later speed depends. *)
#[export] Instance guest_mem_bytes `{!HostMem} : GuestBytes guest_mem := {
  gb_read x gva len :=
    match guest_read_small (gm_guest x) (gm_pt x) (store (gm_mem x) (gm_buf x) (zeros len)) (gm_tlb x) gva (gm_buf x) len with
    | Some (rc, m, _) => (load m (gm_buf x) len, rc =? 0)
    | None => ([], false)
    end;
  gb_write x gva b :=
    match guest_write_small (gm_guest x) (gm_pt x) (store (gm_mem x) (gm_buf x) b) (gm_tlb x) gva (gm_buf x) (zlen b) with
    | Some (rc, m, t) => (set_gm m t x, rc =? 0)
    | None => (x, false)
    end;
  gb_poke x off b := set_gm (store (gm_mem x) (host_base (gm_guest x) + off) b) (gm_tlb x) x
}.

Section Memory.
Context `{!HostMem, !HostMemLaws}.

Definition tabs (x : guest_mem) : guest_pt := tables (gm_guest x) (gm_mem x) (gm_pt x).

(** The tables are in order, and [n] bytes at the variable are neither guest memory nor
    tables. *)
Record gm_ok (n : Z) (x : guest_mem) : Prop := {
  gk_wf : pt_wf (g_layout (gm_guest x)) (tabs x);
  gk_backing : backing_ok (gm_guest x);
  gk_tlb : tlb_ok (gm_guest x) (tabs x) (gm_tlb x);
  gk_buf : gm_buf x <> 0;
  gk_guest : forall req a h, haddr (gm_guest x) (tabs x) req a = Some h -> ~ (gm_buf x <= h < gm_buf x + n);
  gk_pool : forall a, gm_buf x <= a < gm_buf x + n -> ~ in_pool (gm_guest x) a
}.

(** [n] bytes of guest memory that are mapped once each, not onto the tables, and that
    the guest may read wherever it may write. *)
Record plain (n gva : Z) (x : guest_mem) : Prop := {
  pl_once : forall i j h, 0 <= i < n -> 0 <= j < n -> haddr (gm_guest x) (tabs x) MEM_PERM_W (gva + i) = Some h ->
    haddr (gm_guest x) (tabs x) MEM_PERM_W (gva + j) = Some h -> i = j;
  pl_tables : forall i h, 0 <= i < n -> haddr (gm_guest x) (tabs x) MEM_PERM_W (gva + i) = Some h -> ~ in_pool (gm_guest x) h;
  pl_read : forall i, 0 <= i < n -> haddr (gm_guest x) (tabs x) MEM_PERM_R (gva + i) = haddr (gm_guest x) (tabs x) MEM_PERM_W (gva + i)
}.

Lemma store_out m p b a : ~ (p <= a < p + zlen b) -> store m p b a = m a.
Proof. intros N. unfold store. destruct (Z.leb_spec p a), (Z.ltb_spec a (p + zlen b)); cbn; done || lia. Qed.
Lemma store_in m p b i : 0 <= i < zlen b -> store m p b (p + i) = b !!! Z.to_nat i.
Proof. intros B. unfold store. rewrite (proj2 (Z.leb_le p (p + i))), (proj2 (Z.ltb_lt (p + i) (p + zlen b))) by lia. cbn. by rewrite Z.add_simpl_l. Qed.

Lemma load_ext m p n b : zlen b = n -> (forall i, 0 <= i < n -> m (p + i) = b !!! Z.to_nat i) -> load m p n = b.
Proof.
  intros L Hm. unfold zlen in L. apply list_eq. intros i. unfold load. rewrite list_lookup_fmap. destruct (Nat.lt_ge_cases i (length b)) as [Lt|Ge].
  - rewrite lookup_seqZ_lt by lia. cbn. rewrite Z.add_0_l, Hm by lia. rewrite Nat2Z.id. symmetry. by apply list_lookup_lookup_total_lt.
  - rewrite lookup_seqZ_ge by lia. symmetry. by apply lookup_ge_None_2.
Qed.

(** Filling the variable changes no mapping. *)
Lemma store_same_pool n x b : gm_ok n x -> zlen b <= n -> same_pool (gm_guest x) (gm_mem x) (store (gm_mem x) (gm_buf x) b).
Proof. intros O L a Ha. apply store_out. intros B. by apply (gk_pool n x O a); [lia|]. Qed.

Lemma gm_same n x m t : gm_ok n x -> same_pool (gm_guest x) (gm_mem x) m -> tlb_ok (gm_guest x) (tabs x) t -> gm_ok n (set_gm m t x).
Proof.
  intros O S T. destruct O as [O1 O2 O3 O4 O5 O6]. pose proof (haddr_same (gm_guest x) (gm_pt x) (gm_mem x) O1 m S) as E.
  constructor; cbn; [by apply (tables_same (gm_guest x) (gm_pt x) (gm_mem x))|done|by apply (tlb_same (gm_guest x) (gm_pt x) (gm_mem x))|done| |done].
  unfold tabs. cbn. intros *. rewrite E. apply O5.
Qed.

Lemma gm_store n x b : gm_ok n x -> zlen b <= n -> gm_ok n (set_gm (store (gm_mem x) (gm_buf x) b) (gm_tlb x) x).
Proof. intros O L. apply gm_same; [done|by apply store_same_pool with n|apply O]. Qed.

Lemma gm_haddr n x b req a : gm_ok n x -> zlen b <= n ->
  haddr (gm_guest x) (tables (gm_guest x) (store (gm_mem x) (gm_buf x) b) (gm_pt x)) req a = haddr (gm_guest x) (tabs x) req a.
Proof. intros O L. apply (haddr_same (gm_guest x) (gm_pt x) (gm_mem x)); [apply O|by apply store_same_pool with n]. Qed.

(** What a write that succeeds leaves behind. *)
Lemma gm_write_spec gva b x x' : gm_ok (zlen b) x -> plain (zlen b) gva x -> fits64 gva -> fits64 (zlen b) -> gb_write x gva b = (x', true) ->
  gm_ok (zlen b) x' /\ gm_guest x' = gm_guest x /\ gm_buf x' = gm_buf x /\
  (forall req a, haddr (gm_guest x') (tabs x') req a = haddr (gm_guest x) (tabs x) req a) /\
  (forall i, 0 <= i < zlen b -> haddr (gm_guest x) (tabs x) MEM_PERM_W (gva + i) <> None) /\
  (forall i h, 0 <= i < zlen b -> haddr (gm_guest x) (tabs x) MEM_PERM_W (gva + i) = Some h -> gm_mem x' h = b !!! Z.to_nat i).
Proof.
  intros O Pl Fg Fl. cbn [gb_write guest_mem_bytes]. pose proof (gm_store _ x b O ltac:(lia)) as O0. pose proof (fun req a => gm_haddr _ x b req a O ltac:(lia)) as E0. set (m0 := store (gm_mem x) (gm_buf x) b) in *.
  destruct (write_small_spec (gm_guest x) (gm_pt x) m0 (gk_wf _ _ O0) (gk_backing _ _ O) (gm_tlb x) gva (gm_buf x) (zlen b)) as ([[rc m'] t'] & -> & Ht & n & Bn & W & R); [|done|done|apply O|apply (gk_tlb _ _ O0)|].
  { split; intros i h Bi Hi; rewrite E0 in Hi; [by apply (gk_guest _ _ O) in Hi|by apply (pl_tables _ _ _ Pl) in Hi]. }
  intros [= <- E]. unbool. destruct R as [[-> ->]|[-> _]]; [|done].
  assert (Sp : same_pool (gm_guest x) m0 m') by (intros a Ha; apply (wr_frame _ _ _ _ _ _ _ _ W); intros i Bi Hi; rewrite E0 in Hi; by apply (pl_tables _ _ _ Pl) in Hi).
  assert (Sq : same_pool (gm_guest x) (gm_mem x) m') by (etransitivity; [by apply (store_same_pool (zlen b) x b)|exact Sp]).
  pose proof (haddr_same (gm_guest x) (gm_pt x) (gm_mem x) (gk_wf _ _ O) m' Sq) as Es. split_and!; [|done|done|done| |].
  - apply gm_same; [done|done|]. apply (tlb_same (gm_guest x) (gm_pt x) m0 (gk_wf _ _ O0)); [|exact Ht]. intros a Ha. symmetry. by apply (store_same_pool (zlen b) x b).
  - intros i Bi. rewrite <- E0. by apply (wr_mapped _ _ _ _ _ _ _ _ W).
  - intros i h Bi Hi. cbn. rewrite (wr_data _ _ _ _ _ _ _ _ W i h Bi); [by apply store_in|by rewrite E0|]. intros j Bj. rewrite E0. intros Hj. assert (i = j) by (apply (pl_once _ _ _ Pl i j h); [done|lia|done|done]). lia.
Qed.

(** C34: The copies in and out of guest memory fit together: bytes that
    guest_write_small has stored, in memory the guest may also read and that is not
    mapped twice, are what guest_read_small then returns, unless a host page has
    vanished.  This is what signal delivery relies on for its frame. *)
Theorem guest_write_read_back gva b x x' : gm_ok (zlen b) x -> plain (zlen b) gva x -> fits64 gva -> fits64 (zlen b) -> ~ host_fault ->
  gb_write x gva b = (x', true) -> gm_ok (zlen b) x' /\ gb_read x' gva (zlen b) = (b, true).
Proof.
  intros O Pl Fg Fl Nf W. destruct (gm_write_spec gva b x x' O Pl Fg Fl W) as (O' & Eg & Eb & Ha & Mp & Dt). split; [done|]. cbn [gb_read guest_mem_bytes].
  assert (Lz : zlen (zeros (zlen b)) <= zlen b) by (unfold zlen, zeros; rewrite length_replicate; lia). pose proof (gm_store _ x' (zeros (zlen b)) O' Lz) as O1.
  pose proof (fun req a => gm_haddr _ x' (zeros (zlen b)) req a O' Lz) as E1. set (m1 := store (gm_mem x') (gm_buf x') (zeros (zlen b))) in *.
  assert (Rd' : forall i, 0 <= i < zlen b -> exists h, haddr (gm_guest x') (tables (gm_guest x') m1 (gm_pt x')) MEM_PERM_R (gva + i) = Some h /\ m1 h = b !!! Z.to_nat i).
  { intros i Bi. specialize (Mp i Bi). rewrite E1, Ha, (pl_read _ _ _ Pl) by done. destruct (haddr (gm_guest x) (tabs x) MEM_PERM_W (gva + i)) as [h|] eqn:Hh; [|done]. exists h. split; [done|].
    unfold m1. rewrite store_out; [by apply Dt|]. intros B. rewrite <- Ha in Hh. apply (gk_guest _ _ O') in Hh. lia. }
  destruct (read_small_spec (gm_guest x') (gm_pt x') m1 (gk_wf _ _ O1) (gk_backing _ _ O') (gm_tlb x') gva (gm_buf x') (zlen b)) as ([[rc m2] t2] & -> & _ & _ & R); [|done|done|apply O'|apply (gk_tlb _ _ O1)|].
  { split; [|apply (gk_pool _ _ O')]. intros a h Hh. rewrite E1 in Hh. by apply (gk_guest _ _ O') in Hh. }
  destruct R as [[-> P]|[_ F]].
  - f_equal. apply load_ext; [done|]. intros i Bi. destruct (P i Bi) as (h & Hh & ->). destruct (Rd' i Bi) as (h' & Hh' & <-). congruence.
  - exfalso. destruct F as [F|[(i & Bi & F)|F]]; [|destruct (Rd' i Bi) as (h & Hh & _); congruence|done]. unfold fits64, two64, UINT64_MAX in *. destruct (Z.eq_dec (zlen b) 0) as [Z0|Z0]; [lia|].
    destruct (Rd' (zlen b - 1) ltac:(lia)) as (h & Hh & _). apply (haddr_low (gm_guest x') (gm_pt x') m1) in Hh. lia.
Qed.
End Memory.

Import QuietHost.

(** Two bytes written to the first page of the example guest. *)
Definition ex_gm : guest_mem := mk_gm ex_guest ex_pt1 ex_mem ex_tlb 8192.

Lemma ex_gm_ok : gm_ok 2 ex_gm.
Proof.
  split; [exact ex_tables_wf|exact ex_backing_ok|exact ex_tlb_ok|done| |].
  - intros req a h Hh. apply haddr_slab in Hh; [|done..]. cbn in Hh |- *. lia.
  - intros a Ha. unfold in_pool. cbn in *. lia.
Qed.

Lemma ex_gm_plain : plain 2 4194304 ex_gm.
Proof.
  assert (E : forall req, req = MEM_PERM_R \/ req = MEM_PERM_W -> forall i, 0 <= i < 2 -> haddr ex_guest (tabs ex_gm) req (4194304 + i) = Some (4299161600 + i)).
  { intros req [-> | ->] i Bi; (assert (i = 0 \/ i = 1) as [-> | ->] by lia); vm_compute; reflexivity. }
  split.
  - intros i j h Bi Bj. cbn [gm_guest ex_gm]. rewrite !E by (done || by right). intros [= <-] [= X]. lia.
  - intros i h Bi. cbn [gm_guest ex_gm]. rewrite E by (done || by right). intros [= <-]. unfold in_pool. cbn. lia.
  - intros i Bi. cbn [gm_guest ex_gm]. rewrite !E by (done || (by left) || by right). done.
Qed.

Lemma ex_gm_writes : (gb_write ex_gm 4194304 [7; 8]).2 = true.
Proof. vm_compute. reflexivity. Qed.

Lemma guest_write_read_back_witness : exists x', gb_write ex_gm 4194304 [7; 8] = (x', true) /\ gb_read x' 4194304 (zlen [7; 8]) = ([7; 8], true).
Proof.
  assert (F1 : fits64 4194304) by done. assert (F2 : fits64 (zlen [7; 8])) by done. assert (F3 : ~ host_fault) by (intros (p & n & F); discriminate F).
  pose proof ex_gm_writes as Ok. destruct (gb_write ex_gm 4194304 [7; 8]) as [x' ok] eqn:W. cbn [snd] in Ok. subst ok.
  exists x'. split; [reflexivity|]. exact (proj2 (guest_write_read_back 4194304 [7; 8] ex_gm x' ex_gm_ok ex_gm_plain F1 F2 F3 W)).
Defined.
